(* ===== verification/_CoqProject ===== *)
-Q . S2P
Prelude.v
Json.v
RustStr.v
Core.v
Condition.v
Ir.v
Event.v
Materializer.v
Budget.v
Hashing.v
Approvals.v
Backend.v
Journal.v
Memory.v
Lease.v
History.v
MemoryLaws.v
RunEnd.v
Artifact.v
Segment.v
Progress.v
Scheduler.v
SchedulerCorrect.v
Policy.v
ToolDispatch.v
AgentLimits.v
AgentSteps.v
Agents.v
DispatchGuard.v
NodeGuard.v
GuardCorrect.v
GuardSound.v
Redaction.v
AuditLog.v
AuditCorrect.v
Projector.v
Sql.v
Calls.v
Sqlite.v
TenantIsolation.v
SqlLease.v
SqlSettle.v
Cron.v
Timers.v
TimersCorrect.v
ApprovalApi.v
ApprovalDecide.v
Worker.v
WorkerCorrect.v
Models.v
Executors.v
ExecutorsCorrect.v
AgentTool.v
AgentToolCorrect.v
Coordinator.v
ApiAuth.v
ApiRoutes.v
ApiWorker.v
ApiWorkerCorrect.v
ApiCorrect.v
CronApi.v
CronApiCorrect.v
Engram.v
EngramStore.v
EngramMemory.v
EngramConsolidate.v
EngramCorrect.v
EngramGraph.v
EngramTyped.v
EngramServer.v
EngramServerCorrect.v
