(* ===== verification/Prelude.v ===== *)
(** * The JamJet runtime: a verification library

    JamJet's runtime ([runtime/], Rust) executes workflow graphs durably. Every
    change to a run is an event appended to the run's log; the state of a run,
    the scheduler's progress and the approvals a run waits for are folds of that
    log. A scheduler ticks over the running executions and puts runnable nodes on
    a queue; workers claim queue items under leases and settle each with one
    fenced commit; people (or deadlines) decide approval requests; policy decides
    which nodes may run at all. This library models that core and proves what the
    parts promise each other. Paths below are relative to [src/runtime/].

    ** The files, in dependency order

    - [Prelude]: results, the effect type [eff] (a store, a clock, a generator of
      ids), machine integers with their wrap-around, IEEE doubles (SpecFloat),
      the generic "this effect only moves the store along [R]" lemmas
      ([respects]) with their tactic.
    - [Json], [RustStr]: [serde_json::Value] with its sorted maps and the merge
      patch of [state/src/materializer.rs]; the [str] methods the code calls.
    - [Core] ([core/src/]): executions, workflow and node status machines, node
      kinds and their queues, retry delays.
    - [Condition] ([core/src/condition.rs]): branch expressions, their
      registration check and their evaluation.
    - [Ir] ([ir/src/workflow.rs], [ir/src/validate.rs]): the workflow
      representation and its validation, against a declarative
      [passes_checks]; approval-deadline resolution over policy levels.
    - [Event] ([state/src/event.rs]): events, with the source's constructors.
    - [Materializer] ([state/src/materializer.rs], [state/src/snapshot.rs]):
      replay of a log, snapshots.
    - [Budget] ([state/src/budget.rs]): token and cost counters, their ceilings
      and their JSON form.
    - [Hashing] ([state/src/hashing.rs]): canonical JSON, content hashes,
      idempotency keys.
    - [Approvals] ([state/src/approvals.rs]): the approval folds, the deadline
      sweep's decisions, action digests.
    - [Backend] ([state/src/backend.rs], [tenant.rs], [artifact.rs]): the storage
      trait as the class [StateBackend]; [StateBackendLaws] is what its clients
      may rely on, [BackendTotal] that its operations answer.
    - [Journal] ([state/src/approvals.rs]: [seal_appended], [record_seal_gap]):
      what a component that only records events does to a store ([journals]).
    - [Memory] ([state/src/memory.rs]): the in-memory backend, every operation
      (module [InMemory]).
    - [Lease], [History], [MemoryLaws], [RunEnd]: its theorems. [Lease] and
      [History] each give a step relation and prove that every operation is a
      sequence of its steps ([lease_step], [hist_step]); [MemoryLaws] discharges
      the interface ([InMemory_laws], [InMemory_total]).
    - [Segment] ([state/src/segment.rs]): continuation segments, proved against
      the interface.
    - [Progress] ([scheduler/src/runner.rs]: [ExecProgress], [edge_dead],
      [is_runnable], the skip rule): the scheduler's fold and pure decisions.
    - [Scheduler] ([scheduler/src/runner.rs], [payload.rs]): the tick, composed as the code composes it, over
      any backend; [SchedulerCorrect]: its theorems, from the interface's laws.
    - [Policy] ([policy/src/lib.rs], [engine.rs], [autonomy.rs],
      [agents/src/card.rs]): which decision a stack of policy sets takes, how
      patterns match, when an agent's limits stop it.
    - [ToolDispatch] ([policy/src/dispatch.rs], [allowed_tools.rs]): the calls an
      agent's dispatch node is about to make, one decision for the batch, what an
      agent card's tool lists name.
    - [AgentLimits] ([workers/src/agent_limits.rs]): the fold of a run's log into
      what each agent has used, the plan of a step and its admission;
      [AgentSteps]: its theorems, with the log as a step relation ([step_log]).
    - [Agents] ([agents/src/card.rs], [lifecycle.rs], [registry.rs],
      [memory_registry.rs]): cards and the in-memory registry.
    - [DispatchGuard] ([workers/src/dispatch_guard.rs], [state/src/tenant.rs]) and
      [NodeGuard] ([workers/src/node_guard.rs]): whether a work item may fire or
      its result be recorded; [GuardCorrect] (what a guard writes) and
      [GuardSound] (what its answers mean): their theorems, over any backend.
    - [Projector] ([scheduler/src/projector.rs]): the pass that keeps the approval
      rows of the running executions, with its theorems.
    - [Sql] ([state/migrations/]): the tables of the database with their keys and
      references, and the statements the backends execute. [Calls]
      ([state/src/backend.rs]): the methods of the trait as data, so that one
      theorem speaks of every call. [Sqlite] ([state/src/sqlite.rs],
      [tenant_scoped.rs]): every method of the plain and of the tenant-scoped
      backend, as operations that take the scope; [sqlite_backend] and
      [tenant_scoped_backend] are the two instances of the trait.
      [TenantIsolation], [SqlLease] and [SqlSettle]: their theorems.
    - [Cron] ([timers/src/lib.rs]: [cron_next]): cron expressions, their meaning
      and the next time one fires. [Timers] ([timers/src/lib.rs]): the tables of
      timers and jobs, their stores, a tick of either runner; [TimersCorrect]: its
      theorems. [CronApi] ([api/src/cron.rs]): the handlers over the jobs and the
      launcher that starts a job's run; [CronApiCorrect]: its theorem.
    - [Worker] ([workers/src/worker.rs], [executor.rs], [heartbeat.rs],
      [pool.rs]): one iteration of a worker over any backend, with its executors
      and its environment as parameters; [WorkerCorrect]: its theorems.
    - [Models] ([models/src/adapter.rs], [registry.rs]): requests to a chat model,
      the registry that routes them and how the environment builds it, with its
      theorem. [Executors] ([workers/src/executors/model_node.rs],
      [condition_node.rs], [eval.rs]): what a worker runs for those nodes;
      [ExecutorsCorrect]: their theorems, composed with the scheduler's payloads
      and its reading of their results. [AgentTool]
      ([workers/src/executors/agent_tool.rs]): an agent called as a tool, in one
      request, a conversation or a stream; [AgentToolCorrect]: its theorems.
      [Coordinator] ([core/src/coordinator.rs], [scheduler/src/strategy_bridge.rs],
      [workers/src/executors/coordinator.rs]): scoring the candidates of a node and
      choosing one, with its theorem.
    - The memory layer ([engram/src/]). [Engram] ([scope.rs], [fact.rs], [store.rs],
      [graph.rs], [vector.rs], [message.rs], [extract.rs]): its data and the traits
      of its stores, as classes. [EngramStore] ([store_sqlite.rs],
      [graph_sqlite.rs], [message_sqlite.rs], [vector_embedded.rs]): the stores, as
      instances over one record of tables. [EngramMemory] ([memory.rs],
      [pipeline.rs], [conflict.rs], [spreading.rs], [retrieve.rs],
      [temporal_parser.rs], [context.rs]) and [EngramConsolidate]
      ([consolidation.rs]): what is built on any stores. [EngramCorrect],
      [EngramGraph] and [EngramTyped]: their theorems. [EngramServer]
      ([engram-server/src/handlers.rs], [mcp.rs], [rest.rs], [main.rs]): the tools,
      a JSON-RPC session and the REST handlers; [EngramServerCorrect]: their
      theorems.
    - [Artifact] ([state/src/artifact.rs]): spilling an output and resolving it.
    - [Redaction] ([policy/src/redaction.rs]): field paths and detectors.
    - [AuditLog] ([audit/src/]): entries, signers, the sealed chain, the enricher,
      the filters and purge of its SQLite store; [AuditCorrect]: its theorems.
    - [ApprovalApi] ([api/src/approvals.rs]): submitting a decision;
      [ApprovalDecide]: its theorems, composed with the guard's.
    - [ApiAuth] ([api/src/auth.rs], [error.rs]), [ApiRoutes] and [ApiWorker]
      ([api/src/routes.rs]): the router's layers, the handlers, the protocol
      external workers speak; [ApiCorrect] and [ApiWorkerCorrect]: their theorems,
      from [StateBackendLaws] and [WorkItemLaws].

    ** What is proved

    - Runs. The scheduler finishes a run only when nothing of it is in flight or
      runnable, dispatches the first runnable nodes within its limits with the
      work item each is due, skips exactly the nodes that can never run, moves
      every idle run, stops at a log it cannot read, and never decides an
      approval ([finished_only_when_done], [dispatch_correct],
      [skip_cascade_correct], [idle_run_moves], [unreadable_log_stalls],
      [tick_never_decides]). These speak of the state the tick has folded, which is
      the whole log's as long as the cached fold has not passed over an event
      ([expiry_lost_in_skip_tick] shows that it can). A run ends once ([run_finishes_once]). The fold of a
      log, and which nodes may run, are characterised in [Progress].
    - Logs. They are append-only with increasing sequences; materializing from
      any stored snapshot is replaying the whole log; [commit_turn] is one turn,
      all or nothing; a request for approval gets one outcome however callers
      interleave ([History], [Materializer], [MemoryLaws]).
    - Leases. Fences strictly increase per item; a lease settles its item at most
      once, but for the gap the in-memory store leaves: after a failure was
      reported the settlements that test the fence alone are still taken from the
      same lease ([settle_at_most_once]); a late heartbeat only re-attaches the
      item's last lease ([Lease]). On
      the database the same holds for any interleaving of calls of the plain and
      of scoped backends, and a worker whose item was handed out again settles
      nothing ([sql_settles_once]).
    - Tenants. What a call of the scoped backend answers depends on its tenant's
      rows alone, and it changes no other tenant's row, when what it writes is
      under the tenant's own ids ([tenant_isolation]; a snapshot written under
      another's replaces it).
    - Schedules. The next time of an expression is the first minute it denotes
      ([cron_next_correct]); a tick starts every due job once, moves exactly
      its row on and leaves nothing due ([cron_tick_once]); a caller of the API
      stores the job it asked for and reaches only the jobs of its tenant
      ([cron_confined]).
    - Approvals and policy. What an approval covers, which requests are pending,
      what a deadline sweep does, what digests and idempotency keys bind, what
      policy decides and what patterns match ([Approvals], [Hashing], [Policy]).
      The projected rows say what the log says, however passes and callers
      interleave, and a tick covers every running execution
      ([projection_agrees], [tick_covers]).
    - Guards. A node fires only if its agents' cards, every layer of its policy
      chain, an approval of exactly this action where one is asked for, and the
      agents' limits let it ([guard_allow_sound]); a held node has a request
      somebody can answer ([guard_held_outstanding]); a guard decides nothing
      itself and a completion check writes nothing ([guard_item_writes]). A worker
      calls an executor at most once for an item, when it was due, and never under
      a key another worker has won; what came of it is recorded once, under the
      lease, and replays as itself; its heartbeat stops with it
      ([fires_only_when_due], [no_double_fire], [settle_records_once],
      [replay_round_trip], [heartbeat_stops]). However
      many workers admit an agent's steps at once, it stays within its card
      ([agent_never_exceeds]). A registered card cannot be shadowed ([Agents]).
    - Executors. The one branch of a condition node that runs is the one its
      executor chose, while its output is kept in its event ([routing_followed]); a
      chat or structured call leaves by the adapter its model's name routes to, and
      by nothing but the sidecar where one is configured ([model_route_correct]); a model node asks what its definition says
      ([model_node_faithful]); an eval node passes exactly when its scorers do or
      its policy lets it ([eval_gate]). Reading an agent's stream as it arrives
      comes to what reading the whole body does, and the budget ends either
      ([stream_agrees], [budget_guard]); a conversation ends
      ([conversation_ends]). The agent a coordinator answers is nobody, the only
      candidate, the leader or its tiebreaker's choice, and the event it records
      says which ([coordinator_choice]).
    - Memories. Erasing a scope leaves nothing of it to read and touches no other
      fact, entity or relationship, but takes everybody's vectors
      ([erasure_complete]); a consolidation cycle stays within its budget of model
      calls ([llm_budget]); a saved conversation reads back, its last messages too
      ([conversation_round_trip]); a search of the neighbourhood finds exactly what
      the hops allow over the relationships valid at the time asked about
      ([neighbors_correct]); the tables stay well typed under every
      call, so no read fails on what was written ([memory_well_typed]); a session of
      the server answers every request and leaves the memory so
      ([session_answers]), and its two front ends agree ([front_ends_agree]);
      spreading activation ends ([spread_ends]); the facts of a context block fill its budget
      ([context_fills_budget]).
    - The API. Who passes the layers ([authorize_correct]); registering stores at
      most one valid definition under a free version ([create_workflow_correct]);
      starting a run writes all of it at once, under ids drawn for it, its item
      carrying the workflow's coordinates ([start_run_correct]); a claim hands
      out only what the engine's guard lets fire, a completion records one result
      of the engine's own item or nothing ([claim_hands_out_guarded],
      [completion_recorded]); what a recorded decision means, and that an approval
      releases exactly the action asked for ([ApprovalDecide]).
    - Audit, artifacts, redaction. Two chains that verify and end in one hash
      have the same content, field separators and collisions aside, and sealing
      keeps a chain ([chain_binds_content], [seal_keeps_chain]);
      a spilled output reads back ([spill_round_trip]); no configured field
      survives redaction ([redact_fields_correct]).
    - Definitions, segments, budgets, expressions: validation accepts exactly the
      graphs that pass its declared checks, fewer than its documentation lists
      ([validate_workflow_correct], [endless_ir_accepted]); rollovers extend the segment chain and cannot fork it;
      budgets fail closed; accepted expressions are satisfiable.
    - Some theorems record behaviour that differs from what the code intends:
      [commit_turn_accepts_unclaimed] (an unclaimed item's old fence still
      commits), [expiry_lost_in_skip_tick] (the skip cascade's local fold can pass
      over events of the same tick), [spilled_route_lost] (a routing output that
      was spilled to the artifact store no longer routes), [dispatched_eval_passes]
      (an eval node the scheduler dispatches has no scorers), the last part of
      [budget_save_load] (a non-finite cost resets the saved counters), and the
      examples of [EngramCorrect] ([context_leaks], [recall_crowded_out],
      [dedup_crosses_orgs], [timeline_forgets], [context_exceeds_budget]) and of
      [EngramServerCorrect] ([second_save_interleaves], [other_org_user_kept]).

    ** How stateful code is modelled

    An operation is a function of a [world]: its component's store, the clock and
    the number of ids drawn so far; it answers a [result] and the world after it.
    A call of a backend is one step. The in-memory store makes the test and the
    write of a turn's commit separately; the halves are definitions too
    ([commit_turn_admit], [commit_turn_settle], [run_terminal_status],
    [commit_turn_given]), a call of its own is both in turn ([commit_turn_halves],
    [commit_unless_halves]), and what calls between them can do is shown by example
    ([racing_commits_both_recorded], [commit_races_finish]). Ids drawn in a call are
    stated as drawn ([drawn]); that they differ and are new is a hypothesis of the
    statements that say so ([draws_apart], [ids_fresh], [run_ids_fresh]).
    An interleaving of callers is a list of
    operations of arbitrary order ([Op], [run_ops]), the clock moving by [OpTick].
    The scheduler's tick is one such sequence with no other caller between its
    calls; its theorems speak of the store before and after. A worker's executor
    and its sleeps are arbitrary functions of the world, so what other processes
    do meanwhile is in them; the executors it called are part of its state. Iteration order of a
    hash map is a parameter ([IterOrder]), so no theorem depends on one.

    Loops: the validator's breadth-first search runs on fuel that its own measure
    shows is enough ([turns]); the segment walk on the code's depth limit of
    10,000 ([SEGMENT_CHAIN_MAX_DEPTH]), which is part of its behaviour; the skip
    cascade on the code's cap of one pass per node and one more, and
    [skip_cascade_correct] proves it reaches its fixpoint within it; the search
    for a job's next time on the code's 366 days of minutes ([SCAN_MINUTES]), past
    which it answers an error; the searches of the memory's graph on as many turns
    as the graph has ends ([search_fuel]) or as may be activated ([spread_fuel]),
    which [neighbors_correct] and [spread_ends] show to be enough.

    Integers have their width where the code computes with them (fences in i64,
    token counters in u64 with the release build's wrap-around, retry factors in
    u32/u64). Event sequences, lease epochs and the store term only count up by
    one and are unbounded.

    ** Parameters

    Library code is a parameter, with its documented behaviour as hypotheses where
    a theorem needs it, and a concrete instance in the theorem's witness: the
    text of ids ([UuidOps]), RFC 3339 times ([ChronoOps], [chrono_laws]), JSON
    scalars' texts and parsing ([JsonText], [scalar_text]), SHA-256
    ([Sha256Ops], collision freedom on the values at hand), map iteration
    ([IterOrder]), what the scheduler is given ([SchedEnv]: the derived
    deserializer of the IR and the audit sealer), and the serializers the guards
    use ([GuardSerde]); of SQLite, the order an unordered query returns rows in and
    its messages ([SqlOps]), and the serializers of the columns ([RowSerde]); the
    calendar ([CalendarOps]); the providers of models ([ModelEnv]), HTTP
    ([HttpClient]), the deserializers of the executors ([ExecSerde],
    [BridgeSerde]); of the memory layer, the full-text index, [LIKE], regular
    expressions, dates and transcendental functions ([EngramOps], [EngramLaws]),
    its provider of embeddings and its model, and what a line of a session reads
    as ([ServerOps]);
    references are checked because [sqlx] turns foreign keys on. The guards read an agent registry as a function from URIs:
    one guard call sees one state of it.

    ** Not modelled

    The SQLite registry, pools and migrations (the schema is what the migrations
    leave), the agent, audit and coordinator routes of the API and its start-up, the
    executors that only forward to another protocol (MCP, A2A, discovery), the
    clients of the model providers, protocols, telemetry, and the SDKs in other
    languages. Of the memory layer: its Postgres stores, its clients, the reranker,
    and of its server the router and the choice of providers; the confidences a patch writes are finite numbers
    (the text of another is not a number SQLite's column reads back). Asynchrony inside one backend
    operation, logging and tracing are left out: they do not
    change what is stored. *)

From stdpp Require Export base gmap sets list strings pretty fin_maps sorting.
From Stdlib Require Export ZArith Lia.
From Stdlib Require Export SpecFloat.

#[global] Open Scope Z_scope.

(** ** Results and effects *)

(** Rust's [Result<A, E>]. *)
Inductive result (E A : Type) : Type :=
| Ok (a : A)
| Err (e : E).
Arguments Ok {E A} a.
Arguments Err {E A} e.

#[export] Instance result_ret E : MRet (result E) := λ A a, Ok a.
#[export] Instance result_bind E : MBind (result E) := λ A B f r,
  match r with Ok a => f a | Err e => Err e end.
#[export] Instance result_fmap E : FMap (result E) := λ A B f r,
  match r with Ok a => Ok (f a) | Err e => Err e end.

Definition is_ok {E A} (r : result E A) : bool :=
  match r with Ok _ => true | Err _ => false end.

(** [Option::ok_or]. *)
Definition ok_or {E A} (e : E) (o : option A) : result E A :=
  match o with Some a => Ok a | None => Err e end.

(** [Result::map_err]. *)
Definition map_err {E F A} (f : E → F) (r : result E A) : result F A :=
  match r with Ok a => Ok a | Err e => Err (f e) end.

(** Run a check over a list, stopping at the first error (a Rust loop whose
    body uses [?] or [return Err]). *)
Fixpoint try_for_each {E A} (f : A → result E unit) (l : list A) : result E unit :=
  match l with
  | [] => Ok tt
  | x :: l => match f x with Ok _ => try_for_each f l | Err e => Err e end
  end.

(** What a call can touch besides its arguments: the store it owns, the clock
    [Utc::now()] reads, and how many random ids have been drawn. The clock does
    not move within one call; it moves between calls (see the step relations). *)
Record world (S : Type) := World { store : S; clock : Z; draws : N }.
Arguments World {S} _ _ _.
Arguments store {S} _.
Arguments clock {S} _.
Arguments draws {S} _.

(** A fallible effectful computation over a store of type [S]. An [Err] keeps
    the effects performed before it, as a Rust early return does. *)
Definition eff (S E A : Type) : Type := world S → result E A * world S.

#[export] Instance eff_ret S E : MRet (eff S E) := λ A a w, (Ok a, w).
#[export] Instance eff_bind S E : MBind (eff S E) := λ A B k m w,
  match m w with
  | (Ok a, w') => k a w'
  | (Err e, w') => (Err e, w')
  end.

Section Eff.
Context {S E : Type}.

Definition raise {A} (e : E) : eff S E A := λ w, (Err e, w).
Definition of_result {A} (r : result E A) : eff S E A := λ w, (r, w).
Definition gets {A} (f : S → A) : eff S E A := λ w, (Ok (f (store w)), w).
Definition modify (f : S → S) : eff S E unit :=
  λ w, (Ok tt, World (f (store w)) (clock w) (draws w)).
(** [Utc::now()]. *)
Definition utc_now : eff S E Z := λ w, (Ok (clock w), w).
(** Run [m], turning its error into [h]'s outcome ([unwrap_or_else], a logged
    and ignored [Err]). *)
Definition recover {A} (m : eff S E A) (h : E → eff S E A) : eff S E A := λ w,
  match m w with (Ok a, w') => (Ok a, w') | (Err e, w') => h e w' end.

(** Run a computation whose errors the caller answers itself: a [match] on a
    call's [Result], or [map_err] with [?]. *)
Definition with_err {F A} (f : F → E) (m : eff S F A) : eff S E A := λ w,
  let '(r, w') := m w in (map_err f r, w').
(** A call's [Result] as a value. *)
Definition as_result {F A} (m : eff S F A) : eff S E (result F A) := λ w,
  let '(r, w') := m w in (Ok r, w').

Fixpoint for_each {A} (l : list A) (f : A → eff S E unit) : eff S E unit :=
  match l with
  | [] => mret tt
  | x :: l => f x ≫= λ _, for_each l f
  end.
End Eff.

(** [Uuid]s are 128-bit; [Uuid::new_v4] is the random-id generator, a library
    function: draw [n] yields [uuid_v4 n]. The two printers are the library's. *)
Abbreviation Uuid := N (only parsing).

Class UuidOps := {
  uuid_v4 : N → Uuid;
  uuid_hyphenated : Uuid → string;
  uuid_simple : Uuid → string;
  (** [Uuid::new_v5(ns, name)]. *)
  uuid_v5 : Uuid → string → Uuid;
}.

Definition new_v4 {S E} `{UuidOps} : eff S E Uuid := λ w,
  (Ok (uuid_v4 (draws w)), World (store w) (clock w) (N.succ (draws w))).

(** The random ids still to be drawn do not repeat. *)
Definition draws_apart `{UuidOps} (n : N) : Prop :=
  ∀ d d', (n ≤ d)%N → (n ≤ d')%N → uuid_v4 d = uuid_v4 d' → d = d'.

(** [ids] were drawn one after another, between the draws [n] and [n']. *)
Definition drawn `{UuidOps} (n n' : N) (ids : list Uuid) : Prop :=
  ∃ ds, ids = uuid_v4 <$> ds ∧ StronglySorted N.lt ds ∧ Forall (λ d, n ≤ d < n')%N ds.

Lemma drawn_nil `{UuidOps} n n' : drawn n n' [].
Proof. exists []. repeat constructor. Qed.
Lemma drawn_cons `{UuidOps} d n n' ids :
  (n ≤ d)%N → (d < n')%N → drawn (N.succ d) n' ids → drawn n n' (uuid_v4 d :: ids).
Proof.
  intros Hn Hd (ds & -> & Hs & Hf). exists (d :: ds). split; [done|]. split.
  - constructor; [done|]. eapply Forall_impl; [exact Hf|]. simpl. lia.
  - constructor; [done|]. eapply Forall_impl; [exact Hf|]. simpl. lia.
Qed.
Lemma drawn_weaken `{UuidOps} n m n' ids : (n ≤ m)%N → drawn m n' ids → drawn n n' ids.
Proof.
  intros Hn (ds & -> & Hs & Hf). exists ds. split_and!; [done..|].
  eapply Forall_impl; [exact Hf|]. simpl. lia.
Qed.
Lemma drawn_nodup `{UuidOps} n n' ids : draws_apart n → drawn n n' ids → NoDup ids.
Proof.
  intros Ha (ds & -> & Hs & Hf). induction Hs as [|d ds Hs IH Hlt]; [constructor|].
  apply Forall_cons in Hf as [[Hd _] Hf]. simpl. constructor; [|by apply IH].
  intros (d' & Heq & Hin)%list_elem_of_fmap.
  rewrite Forall_forall in Hlt, Hf. specialize (Hlt _ Hin). specialize (Hf _ Hin). simpl in Hf.
  apply Ha in Heq; lia.
Qed.

(** Times are nanoseconds since the Unix epoch, in UTC. The calendar functions
    of chrono are the library's. *)
Abbreviation DateTime := Z (only parsing).

Class ChronoOps := {
  (** [to_rfc3339_opts(SecondsFormat::Millis, true)]. *)
  rfc3339_millis : DateTime → string;
  (** [to_rfc3339()]. *)
  rfc3339 : DateTime → string;
  (** [DateTime::parse_from_rfc3339(s).ok()], in UTC. *)
  parse_rfc3339 : string → option DateTime;
  (** [Duration::try_seconds], in nanoseconds. *)
  try_seconds : Z → option Z;
  (** [DateTime::checked_add_signed]. *)
  checked_add_signed : DateTime → Z → option DateTime;
  (** [Duration::from_std(d).ok()]. *)
  duration_from_std : Z → option Z;
}.

Definition NANOS_PER_SEC : Z := 1000000000.

(** A [HashMap] or [DashMap] is iterated in an order the program does not
    choose: the order is a parameter, and each entry is visited once. *)
Class IterOrder (K : Type) `{Countable K} := {
  iter_map : ∀ {V}, gmap K V → list (K * V);
  iter_perm : ∀ {V} (m : gmap K V), iter_map m ≡ₚ map_to_list m;
}.

(** The order in which [map_to_list] happens to list a map: a concrete
    instance for evaluation. *)
Definition list_order K `{Countable K} : IterOrder K.
Proof. by refine {| iter_map := λ V m, map_to_list m |}. Defined.

Lemma iter_map_elem {K} `{IterOrder K} {V} (m : gmap K V) k v :
  (k, v) ∈ iter_map m ↔ m !! k = Some v.
Proof. by rewrite iter_perm, elem_of_map_to_list. Qed.

Lemma iter_map_nodup {K} `{IterOrder K} {V} (m : gmap K V) :
  NoDup (iter_map m).*1.
Proof. rewrite iter_perm. apply NoDup_fst_map_to_list. Qed.

(** ** Machine integers *)

Definition u32_max : Z := 2 ^ 32 - 1.
Definition u64_max : Z := 2 ^ 64 - 1.

(** Release arithmetic wraps. *)
Definition wrap_u32 (z : Z) : Z := z `mod` 2 ^ 32.
Definition wrap_u64 (z : Z) : Z := z `mod` 2 ^ 64.
Definition wrap_i64 (z : Z) : Z := (z + 2 ^ 63) `mod` 2 ^ 64 - 2 ^ 63.

Definition u32_add (a b : Z) : Z := wrap_u32 (a + b).
Definition u64_add (a b : Z) : Z := wrap_u64 (a + b).
Definition i64_add (a b : Z) : Z := wrap_i64 (a + b).
Definition i64_mul (a b : Z) : Z := wrap_i64 (a * b).

(** [saturating_sub] on an unsigned integer. *)
Definition usat_sub (a b : Z) : Z := Z.max 0 (a - b).
(** [saturating_mul] on [u64]. *)
Definition u64_sat_mul (a b : Z) : Z := Z.min u64_max (a * b).

(** [saturating_add] on [u64] and [u32]. *)
Definition u64_sat_add (a b : Z) : Z := Z.min u64_max (a + b).
Definition u32_sat_add (a b : Z) : Z := Z.min u32_max (a + b).

Lemma wrap_i64_small z : - 2 ^ 63 ≤ z < 2 ^ 63 → wrap_i64 z = z.
Proof. intros. unfold wrap_i64. rewrite Z.mod_small; lia. Qed.

Lemma wrap_u32_small z : 0 ≤ z < 2 ^ 32 → wrap_u32 z = z.
Proof. intros. unfold wrap_u32. by rewrite Z.mod_small. Qed.

Lemma wrap_u64_small z : 0 ≤ z < 2 ^ 64 → wrap_u64 z = z.
Proof. intros. unfold wrap_u64. by rewrite Z.mod_small. Qed.

Lemma wrap_u32_bounds z : 0 ≤ wrap_u32 z < 2 ^ 32.
Proof. apply Z.mod_pos_bound. lia. Qed.

(** ** IEEE 754 binary64 *)

Abbreviation f64 := spec_float (only parsing).

Definition f64_add (a b : f64) : f64 := SFadd 53 1024 a b.
Definition f64_lt (a b : f64) : bool := SFltb a b.
Definition f64_le (a b : f64) : bool := SFleb a b.
Definition f64_eq (a b : f64) : bool := SFeqb a b.
Definition f64_is_nan (a : f64) : bool :=
  match a with S754_nan => true | _ => false end.
Definition f64_zero : f64 := S754_zero false.
(** Nearest double of an integer ([as f64]). *)
Definition f64_of_Z (z : Z) : f64 := binary_normalize 53 1024 z 0 false.
Definition f64_mul (a b : f64) : f64 := SFmul 53 1024 a b.
Definition f64_div (a b : f64) : f64 := SFdiv 53 1024 a b.

(** Singles, and a double [as f32]; a single is a double as it is. *)
Abbreviation f32 := spec_float (only parsing).
Definition f32_add (a b : f32) : f32 := SFadd 24 128 a b.
Definition f32_sub (a b : f32) : f32 := SFsub 24 128 a b.
Definition f32_mul (a b : f32) : f32 := SFmul 24 128 a b.
Definition f32_div (a b : f32) : f32 := SFdiv 24 128 a b.
Definition f32_sqrt (a : f32) : f32 := SFsqrt 24 128 a.
Definition f32_of_Z (z : Z) : f32 := binary_normalize 24 128 z 0 false.
Definition f32_of_f64 (f : f64) : f32 :=
  match f with S754_finite s m e => binary_round 24 128 s m e | f => f end.
(** The literals [n/d]: the nearest float. *)
Definition f32_lit (n d : Z) : f32 := f32_div (f32_of_Z n) (f32_of_Z d).
Definition f64_lit (n d : Z) : f64 := f64_div (f64_of_Z n) (f64_of_Z d).
(** [max] and [min]: a NaN gives way to the other. *)
Definition f_max (a b : spec_float) : spec_float :=
  if f64_is_nan a then b else if SFltb a b then b else a.
Definition f_min (a b : spec_float) : spec_float :=
  if f64_is_nan a then b else if SFltb b a then b else a.

#[export] Instance spec_float_eq_dec : EqDecision spec_float.
Proof. solve_decision. Defined.

(** ** Proof automation *)

Create HintDb jamjet.

(** Split conjunctions and existentials in the context. *)
Ltac deex :=
  repeat match goal with
  | H : ∃ _, _ |- _ => destruct H
  | H : _ ∧ _ |- _ => destruct H
  end.

(** Case on every [match] and [if] of the goal or of [H], simplifying. *)
Ltac crush_match := repeat (case_match; simplify_eq/=).
Ltac crush_match_in H := repeat (case_match; simplify_eq/=; try discriminate H).

(** Evaluate a computation of the effect monad at a known world. *)
Ltac run_eff :=
  unfold mbind, eff_bind, mret, eff_ret, raise, of_result, gets, modify, utc_now,
    recover in *; cbn in *.

(** ** Generic lemmas *)

Lemma try_for_each_ok {E A} (f : A → result E unit) l :
  try_for_each f l = Ok tt ↔ ∀ x, x ∈ l → f x = Ok tt.
Proof.
  induction l as [|x l IHl]; simpl.
  - split; [|done]. intros _ x Hx. by apply not_elem_of_nil in Hx.
  - destruct (f x) as [[]|e] eqn:Hx.
    + rewrite IHl. split.
      * intros Hl y [->|Hy]%elem_of_cons; auto.
      * intros Hl y Hy. apply Hl. by right.
    + split; [done|]. intros Hf. rewrite (Hf x) in Hx by left. done.
Qed.

Lemma try_for_each_err {E A} (f : A → result E unit) l e :
  try_for_each f l = Err e → ∃ x, x ∈ l ∧ f x = Err e.
Proof.
  induction l as [|x l IH]; simpl; [done|].
  destruct (f x) as [[]|e'] eqn:Hx; intros H.
  - apply IH in H as (y & ? & ?). exists y. set_solver.
  - exists x. split; [set_solver|congruence].
Qed.

Lemma size_list_to_set_le {A} `{Countable A} (l : list A) :
  (size (list_to_set l : gset A) ≤ length l)%nat.
Proof.
  induction l as [|x l IHl]; simpl; [done|].
  rewrite size_union_alt, size_singleton.
  etransitivity; [apply Nat.add_le_mono_l, subseteq_size, subseteq_difference_l; reflexivity|].
  lia.
Qed.

Lemma result_bind_inv {E A B} (r : result E A) (k : A → result E B) b :
  r ≫= k = Ok b → ∃ a, r = Ok a ∧ k a = Ok b.
Proof. destruct r; [by eexists|done]. Qed.

(** Evaluation of a computation one bind at a time. *)
Section EffLaws.
Context {S E A B : Type}.

Lemma bind_gets (f : S → A) (k : A → eff S E B) w : (gets f ≫= k) w = k (f (store w)) w.
Proof. done. Qed.
Lemma bind_now (k : Z → eff S E B) w : (utc_now ≫= k) w = k (clock w) w.
Proof. done. Qed.
Lemma bind_modify f (k : unit → eff S E B) w :
  (modify f ≫= k) w = k tt (World (f (store w)) (clock w) (draws w)).
Proof. done. Qed.
Lemma bind_mret (a : A) (k : A → eff S E B) w : (mret a ≫= k) w = k a w.
Proof. done. Qed.
Lemma bind_run (m : eff S E A) (k : A → eff S E B) w a w' :
  m w = (Ok a, w') → (m ≫= k) w = k a w'.
Proof. unfold mbind, eff_bind. by intros ->. Qed.
Lemma bind_assoc {C} (m : eff S E A) (k : A → eff S E B) (h : B → eff S E C) w :
  ((m ≫= k) ≫= h) w = (m ≫= λ a, k a ≫= h) w.
Proof. unfold mbind, eff_bind. by destruct (m w) as [[] ?]. Qed.
Lemma bind_new_v4 `{UuidOps} (k : Uuid → eff S E B) w :
  (new_v4 ≫= k) w = k (uuid_v4 (draws w)) (World (store w) (clock w) (N.succ (draws w))).
Proof. done. Qed.
Lemma as_result_run {F} (m : eff S F A) (k : result F A → eff S E B) w r w' :
  m w = (r, w') → (as_result m ≫= k) w = k r w'.
Proof. unfold mbind, eff_bind, as_result. by intros ->. Qed.
Lemma with_err_run {F} (f : F → E) (m : eff S F A) (k : A → eff S E B) w r w' :
  m w = (r, w') → (with_err f m ≫= k) w =
    match r with Ok a => k a w' | Err e => (Err (f e), w') end.
Proof. unfold mbind, eff_bind, with_err. intros ->. by destruct r. Qed.
Lemma bind_ok_inv (m : eff S E A) (k : A → eff S E B) w b w' :
  (m ≫= k) w = (Ok b, w') → ∃ a w1, m w = (Ok a, w1) ∧ k a w1 = (Ok b, w').
Proof. unfold mbind, eff_bind. destruct (m w) as [[a|e] w1]; [eauto|done]. Qed.
Lemma of_result_run (r : result E A) (k : A → eff S E B) w :
  (of_result r ≫= k) w = match r with Ok a => k a w | Err e => (Err e, w) end.
Proof. by destruct r. Qed.
End EffLaws.

#[export] Hint Rewrite @bind_gets @bind_now @bind_modify @bind_mret @bind_assoc @bind_new_v4 : jamjet_eff.

(** ** A preorder on stores that a computation respects, whatever it returns *)

Section Respects.
Context {S E : Type} (R : relation S) `{!PreOrder R}.
Abbreviation M A := (eff S E A).

Definition respects {A} (m : M A) : Prop := ∀ w, R (store w) (store (m w).2).

Lemma respects_mret {A} (a : A) : respects (mret a : M A).
Proof. intros w. reflexivity. Qed.
Lemma respects_raise {A} e : respects (raise e : M A).
Proof. intros w. reflexivity. Qed.
Lemma respects_gets {A} (f : S → A) : respects (gets f : M A).
Proof. intros w. reflexivity. Qed.
Lemma respects_utc_now : respects (utc_now : M Z).
Proof. intros w. reflexivity. Qed.
Lemma respects_new_v4 `{UuidOps} : respects (new_v4 : M Uuid).
Proof. intros w. reflexivity. Qed.
Lemma respects_modify f : (∀ s, R s (f s)) → respects (modify f : M unit).
Proof. intros Hf w. apply Hf. Qed.
Lemma respects_bind {A B} (m : M A) (k : A → M B) :
  respects m → (∀ a, respects (k a)) → respects (m ≫= k).
Proof.
  intros Hm Hk w. unfold mbind, eff_bind. specialize (Hm w).
  destruct (m w) as [[a|e] w']; simpl in *; [|done]. etransitivity; [done|apply Hk].
Qed.
Lemma respects_recover {A} (m : M A) (h : E → M A) :
  respects m → (∀ e, respects (h e)) → respects (recover m h).
Proof.
  intros Hm Hh w. unfold recover. specialize (Hm w).
  destruct (m w) as [[a|e] w']; simpl in *; [done|]. etransitivity; [done|apply Hh].
Qed.
Lemma respects_with_err {F A} (f : F → E) (m : eff S F A) :
  (∀ w, R (store w) (store (m w).2)) → respects (with_err f m).
Proof. intros Hm w. unfold with_err. specialize (Hm w). by destruct (m w). Qed.
Lemma respects_as_result {F A} (m : eff S F A) :
  (∀ w, R (store w) (store (m w).2)) → respects (as_result m : M (result F A)).
Proof. intros Hm w. unfold as_result. specialize (Hm w). by destruct (m w). Qed.
Lemma respects_for_each {A} (l : list A) (f : A → M unit) :
  (∀ x, respects (f x)) → respects (for_each l f).
Proof. intros Hf. induction l; simpl; [apply respects_mret|by apply respects_bind]. Qed.
Lemma respects_lookup {A} (f : S → A) {B} (k : A → M B) :
  (∀ w, R (store w) (store (k (f (store w)) w).2)) → respects (gets f ≫= k).
Proof. intros Hk w. apply Hk. Qed.
Lemma respects_at {A} (m : M A) s s1 c d :
  R s s1 → respects m → R s (store (m (World s1 c d)).2).
Proof. intros Hs Hm. etransitivity; [done|]. apply (Hm (World s1 c d)). Qed.
Lemma fold_respects {B X} (step : B * S → X → B * S) l b s :
  (∀ b s x, R s (step (b, s) x).2) → R s (foldl step (b, s) l).2.
Proof.
  intros Hstep. revert b s; induction l as [|x l IH]; intros b s; simpl; [reflexivity|].
  specialize (Hstep b s x). destruct (step (b, s) x) as [b' s']. etransitivity; [exact Hstep|apply IH].
Qed.
End Respects.

Ltac respects_tac tac :=
  repeat first
    [ apply respects_mret; apply _ | apply respects_raise; apply _ | apply respects_gets; apply _
    | apply respects_utc_now; apply _ | apply respects_new_v4; apply _
    | apply respects_bind; [apply _| |intros ?]
    | apply respects_recover; [apply _| |intros ?]
    | apply respects_for_each; [apply _|intros ?]
    | progress (repeat case_match)
    | apply respects_modify; intros ?; repeat case_match; tac ].

