(* ===== verification/Json.v ===== *)
(** * JSON values

    [serde_json::Value] as the runtime uses it (its default map is a
    [BTreeMap], kept sorted by key), and the RFC 7396 merge patch of
    [state/src/materializer.rs]. *)

From S2P Require Import Prelude.

(** [serde_json::Number]: a non-negative integer (u64), a negative one (i64) or
    a double. *)
Inductive Number :=
| PosInt (n : Z)
| NegInt (n : Z)
| Float (f : f64).

#[export] Instance Number_eq_dec : EqDecision Number.
Proof. solve_decision. Defined.

Inductive Value :=
| Null
| Bool (b : bool)
| Num (n : Number)
| Str (s : string)
| Array (l : list Value)
| Object (m : list (string * Value)).

(** Induction with hypotheses for the elements of arrays and objects. *)
Section ValueInd.
Context (P : Value → Prop)
  (HNull : P Null) (HBool : ∀ b, P (Bool b)) (HNum : ∀ n, P (Num n))
  (HStr : ∀ s, P (Str s))
  (HArray : ∀ l, Forall P l → P (Array l))
  (HObject : ∀ m, Forall (λ kv, P kv.2) m → P (Object m)).

Fixpoint Value_rec_ind (v : Value) : P v :=
  match v with
  | Null => HNull
  | Bool b => HBool b
  | Num n => HNum n
  | Str s => HStr s
  | Array l => HArray l
      ((fix go l : Forall P l :=
          match l with
          | [] => List.Forall_nil _
          | x :: l => List.Forall_cons _ _ _ (Value_rec_ind x) (go l)
          end) l)
  | Object m => HObject m
      ((fix go m : Forall (λ kv, P kv.2) m :=
          match m with
          | [] => List.Forall_nil _
          | kv :: m => List.Forall_cons _ kv m (Value_rec_ind kv.2) (go m)
          end) m)
  end.
End ValueInd.

#[export] Instance Value_eq_dec : EqDecision Value.
Proof.
  refine (fix go (x y : Value) {struct x} : Decision (x = y) :=
    match x, y with
    | Null, Null => left eq_refl
    | Bool a, Bool b => cast_if (decide (a = b))
    | Num a, Num b => cast_if (decide (a = b))
    | Str a, Str b => cast_if (decide (a = b))
    | Array a, Array b => cast_if (list_eq_dec (dec := go) a b)
    | Object a, Object b =>
        cast_if (list_eq_dec
          (dec := @prod_eq_dec _ String.eq_dec _ go) a b)
    | _, _ => right _
    end); clear go; abstract congruence.
Defined.

(** ** Maps

    [BTreeMap<String, Value>] as the list of its entries in key order. Rust
    orders strings by their bytes. *)

Abbreviation Map := (list (string * Value)) (only parsing).

(** Byte order of strings. *)
Definition str_ltb (a b : string) : bool :=
  String.leb a b && negb (bool_decide (a = b)).

Fixpoint map_get (k : string) (m : Map) : option Value :=
  match m with
  | [] => None
  | (k', v) :: m => if decide (k = k') then Some v else map_get k m
  end.

Fixpoint map_insert (k : string) (v : Value) (m : Map) : Map :=
  match m with
  | [] => [(k, v)]
  | (k', v') :: m' =>
      if decide (k = k') then (k, v) :: m'
      else if str_ltb k k' then (k, v) :: m
      else (k', v') :: map_insert k v m'
  end.

Definition map_remove (k : string) (m : Map) : Map :=
  base.filter (λ kv, kv.1 ≠ k) m.

Definition map_contains (k : string) (m : Map) : bool :=
  match map_get k m with Some _ => true | None => false end.

(** Entries inserted one by one: [json!({...})] and [insert] loops. *)
Definition map_of (l : list (string * Value)) : Map :=
  foldl (λ m kv, map_insert kv.1 kv.2 m) [] l.

(** [json!({ ... })]. *)
Definition obj (l : list (string * Value)) : Value := Object (map_of l).

(** [Value::get(key)]: only objects have keys. *)
Definition get (k : string) (v : Value) : option Value :=
  match v with Object m => map_get k m | _ => None end.

Definition as_str (v : Value) : option string :=
  match v with Str s => Some s | _ => None end.
Definition as_object (v : Value) : option Map :=
  match v with Object m => Some m | _ => None end.
Definition as_array (v : Value) : option (list Value) :=
  match v with Array l => Some l | _ => None end.
Definition is_null (v : Value) : bool := match v with Null => true | _ => false end.
Definition is_object (v : Value) : bool := match v with Object _ => true | _ => false end.

(** An unsigned integer as a [Value]. *)
Definition num (n : Z) : Value := Num (PosInt n).
(** [Option<String>], [Option<u64>] as a [Value]. *)
Definition opt_val {A} (f : A → Value) (o : option A) : Value :=
  match o with Some a => f a | None => Null end.

(** A map in the form [BTreeMap] keeps it: keys strictly increasing. *)
Definition key_lt (p q : string * Value) : Prop := str_ltb p.1 q.1 = true.
Fixpoint map_sorted (m : Map) : Prop :=
  match m with
  | [] => True
  | kv :: m' => Forall (key_lt kv) m' ∧ map_sorted m'
  end.

(** Every object in the value is sorted. *)
Fixpoint value_wf (v : Value) : Prop :=
  match v with
  | Array l => foldr (λ x P, value_wf x ∧ P) True l
  | Object m => map_sorted m ∧ foldr (λ kv P, value_wf kv.2 ∧ P) True m
  | _ => True
  end.

(** ** Laws of the map operations *)

Lemma str_ltb_spec a b : str_ltb a b = true ↔ String.le a b ∧ a ≠ b.
Proof.
  unfold str_ltb, String.le. rewrite andb_true_iff, negb_true_iff, bool_decide_eq_false.
  by rewrite Is_true_true.
Qed.

Lemma str_ltb_trans a b c :
  str_ltb a b = true → str_ltb b c = true → str_ltb a c = true.
Proof.
  rewrite !str_ltb_spec. intros [Hab Hne] [Hbc Hne']. split.
  - by transitivity b.
  - intros ->. apply Hne'. by apply (anti_symm String.le).
Qed.

Lemma str_ltb_irrefl a : str_ltb a a = false.
Proof. apply not_true_iff_false. rewrite str_ltb_spec. by intros [_ []]. Qed.

Lemma str_ltb_total a b : str_ltb a b = false → a ≠ b → str_ltb b a = true.
Proof.
  intros Hf Hne. apply str_ltb_spec. split; [|congruence].
  destruct (total String.le a b); [|done].
  assert (str_ltb a b = true) by (by apply str_ltb_spec). congruence.
Qed.

Lemma map_get_insert k k' v m :
  map_get k (map_insert k' v m) = if decide (k = k') then Some v else map_get k m.
Proof.
  induction m as [|[k1 v1] m IHm]; simpl; [done|].
  repeat (case_decide; simplify_eq/=; try congruence; auto).
  all: destruct (str_ltb _ _); simpl; repeat case_decide; simplify_eq/=; congruence.
Qed.

Lemma map_get_insert_eq k v m : map_get k (map_insert k v m) = Some v.
Proof. rewrite map_get_insert. by rewrite decide_True. Qed.

Lemma map_get_insert_ne k k' v m : k ≠ k' → map_get k (map_insert k' v m) = map_get k m.
Proof. intros. rewrite map_get_insert. by rewrite decide_False. Qed.

Lemma map_get_remove k k' m :
  map_get k (map_remove k' m) = if decide (k = k') then None else map_get k m.
Proof.
  unfold map_remove. induction m as [|[k1 v1] m IHm]; [by case_decide|].
  rewrite filter_cons; simpl. repeat (case_decide; simplify_eq/=; try congruence); auto.
Qed.

Lemma map_get_elem k v m : map_get k m = Some v → (k, v) ∈ m.
Proof.
  induction m as [|[k1 v1] m IHm]; simpl; [done|]. case_decide; simplify_eq; [set_solver|].
  intros. set_solver.
Qed.

Lemma key_lt_insert kv k v m :
  key_lt kv (k, v) → Forall (key_lt kv) m → Forall (key_lt kv) (map_insert k v m).
Proof.
  intros Hlt. induction m as [|[k1 v1] m IHm]; simpl; intros Hm.
  - by repeat constructor.
  - apply Forall_cons in Hm as [H1 Hm]. case_decide; simplify_eq.
    + by constructor.
    + destruct (str_ltb k k1); repeat constructor; auto.
Qed.

Lemma map_sorted_insert k v m : map_sorted m → map_sorted (map_insert k v m).
Proof.
  induction m as [|[k1 v1] m IHm]; simpl; [by repeat constructor|].
  intros [Hf Hs]. case_decide; simplify_eq; [done|].
  destruct (str_ltb k k1) eqn:Hlt; simpl.
  - repeat split; auto. constructor; [done|].
    eapply Forall_impl; [exact Hf|]. intros [k2 v2]. unfold key_lt; simpl.
    intros. by eapply str_ltb_trans.
  - split; auto. apply key_lt_insert; [|done]. by apply str_ltb_total.
Qed.

Lemma map_sorted_remove k m : map_sorted m → map_sorted (map_remove k m).
Proof.
  unfold map_remove. induction m as [|kv m IHm]; [done|].
  intros [Hf Hs]. rewrite filter_cons. case_decide; simpl; auto. split; auto.
  apply Forall_forall. intros x [_ Hx]%list_elem_of_filter.
  by eapply Forall_forall in Hf.
Qed.

Lemma map_sorted_get_ne k m v : Forall (key_lt (k, v)) m → map_get k m = None.
Proof.
  induction m as [|[k1 v1] m IHm]; simpl; [done|].
  intros [H1 Hm]%Forall_cons. case_decide; auto.
  simplify_eq. unfold key_lt in H1; simpl in H1. by rewrite str_ltb_irrefl in H1.
Qed.

(** Sorted maps with the same lookups are equal. *)
Lemma map_sorted_ext m1 m2 :
  map_sorted m1 → map_sorted m2 → (∀ k, map_get k m1 = map_get k m2) → m1 = m2.
Proof.
  revert m2. induction m1 as [|[k1 v1] m1 IHm]; intros [|[k2 v2] m2]; simpl.
  - done.
  - intros _ _ H. specialize (H k2). by rewrite decide_True in H.
  - intros _ _ H. specialize (H k1). by rewrite decide_True in H.
  - intros [Hf1 Hs1] [Hf2 Hs2] H.
    assert (k1 = k2) as <-.
    { destruct (decide (k1 = k2)) as [|Hne]; [done|exfalso].
      pose proof (H k1) as H1. pose proof (H k2) as H2.
      rewrite decide_True, decide_False in H1 by congruence.
      rewrite decide_False, decide_True in H2 by congruence.
      symmetry in H1. apply map_get_elem in H1. apply map_get_elem in H2.
      eapply Forall_forall in Hf2; [|exact H1]. eapply Forall_forall in Hf1; [|exact H2].
      unfold key_lt in *; simpl in *.
      pose proof (str_ltb_trans _ _ _ Hf1 Hf2) as Hirr.
      by rewrite str_ltb_irrefl in Hirr. }
    assert (v1 = v2) as <-.
    { specialize (H k1). rewrite !decide_True in H by done. congruence. }
    f_equal. apply IHm; auto. intros k. specialize (H k).
    case_decide; simplify_eq; [|done].
    by rewrite (map_sorted_get_ne _ _ v1 Hf1), (map_sorted_get_ne _ _ v1 Hf2).
Qed.

#[export] Hint Resolve map_sorted_insert map_sorted_remove : jamjet.

(** ** Merge patch *)

(** [json_merge_patch]: apply [patch] to [target]. *)
Fixpoint json_merge_patch (target patch : Value) {struct patch} : Value :=
  match patch with
  | Object patch_map =>
      let target_map := match target with Object m => m | _ => [] end in
      Object
        ((fix go (tm : Map) (pm : Map) {struct pm} : Map :=
            match pm with
            | [] => tm
            | (key, val) :: rest =>
                go (if is_null val then map_remove key tm
                    else map_insert key
                           (json_merge_patch (default Null (map_get key tm)) val) tm)
                   rest
            end) target_map patch_map)
  | Null => target
  | other => other
  end.

(** The loop over the patch's entries, named. *)
Fixpoint merge_entries (tm pm : Map) : Map :=
  match pm with
  | [] => tm
  | (key, val) :: rest =>
      merge_entries (if is_null val then map_remove key tm
                     else map_insert key
                            (json_merge_patch (default Null (map_get key tm)) val) tm) rest
  end.

Lemma json_merge_patch_object target pm :
  json_merge_patch target (Object pm) =
    Object (merge_entries (match target with Object m => m | _ => [] end) pm).
Proof.
  done.
Qed.

(** What a key holds after a merge (RFC 7396): untouched unless the patch names
    it, gone if the patch says [null], merged recursively otherwise. *)
Lemma merge_entries_get pm tm k :
  map_sorted pm →
  map_get k (merge_entries tm pm) =
    match map_get k pm with
    | None => map_get k tm
    | Some v => if is_null v then None
                else Some (json_merge_patch (default Null (map_get k tm)) v)
    end.
Proof.
  revert tm. induction pm as [|[k1 v1] pm IHp]; intros tm; simpl; [done|].
  intros [Hf Hs]. rewrite IHp by done. case_decide as Hk; simplify_eq.
  - rewrite (map_sorted_get_ne _ _ _ Hf).
    destruct (is_null v1); [rewrite map_get_remove|rewrite map_get_insert];
      by rewrite decide_True.
  - assert (map_get k (if is_null v1 then map_remove k1 tm
       else map_insert k1 (json_merge_patch (default Null (map_get k1 tm)) v1) tm)
       = map_get k tm) as ->; [|done].
    destruct (is_null v1); [rewrite map_get_remove|rewrite map_get_insert];
      by rewrite decide_False.
Qed.

Lemma value_wf_object m :
  value_wf (Object m) ↔ map_sorted m ∧ ∀ k v, (k, v) ∈ m → value_wf v.
Proof.
  simpl. apply and_iff_compat_l. induction m as [|[k1 v1] m IHm]; simpl.
  - split; [intros _ k v Hm; by apply elem_of_nil in Hm|done].
  - rewrite IHm. split.
    + intros [H1 Hm] k v [[= -> ->]|Hk]%elem_of_cons; eauto.
    + intros Hm. split; [eapply Hm; by left|]. intros k v Hk. eapply Hm. by right.
Qed.

Lemma map_insert_elem k v m k' v' :
  (k', v') ∈ map_insert k v m → (k', v') = (k, v) ∨ (k', v') ∈ m.
Proof.
  induction m as [|[k1 v1] m IHm]; simpl; [set_solver|].
  case_decide; simplify_eq; [set_solver|]. destruct (str_ltb k k1); set_solver.
Qed.

Lemma default_wf k m : value_wf (Object m) → value_wf (default Null (map_get k m)).
Proof.
  intros [_ Hm]%value_wf_object. destruct (map_get k m) eqn:Hk; simpl; [|done].
  eapply Hm. by apply map_get_elem.
Qed.

Lemma merge_entries_wf pm tm :
  Forall (λ kv, ∀ t, value_wf t → value_wf kv.2 → value_wf (json_merge_patch t kv.2)) pm →
  (∀ k v, (k, v) ∈ pm → value_wf v) →
  value_wf (Object tm) → value_wf (Object (merge_entries tm pm)).
Proof.
  revert tm. induction pm as [|[k v] pm IHp]; intros tm Hall Hpm Htm; [done|].
  apply Forall_cons in Hall as [Hv Hall]. simpl merge_entries.
  apply IHp; [done|set_solver|].
  pose proof (proj1 (value_wf_object _) Htm) as [Hs Hel].
  apply value_wf_object. destruct (is_null v); split; auto with jamjet.
  - intros k' v' Hk%list_elem_of_filter. naive_solver.
  - intros k' v' [[= -> ->]|Hk]%map_insert_elem; [|eauto].
    apply Hv; [by apply default_wf|]. eapply Hpm. by left.
Qed.

Lemma json_merge_patch_wf patch target :
  value_wf target → value_wf patch → value_wf (json_merge_patch target patch).
Proof.
  revert target. induction patch as [| | | | |pm IHp] using Value_rec_ind;
    intros target Ht Hp; try done.
  rewrite json_merge_patch_object. apply value_wf_object in Hp as [Hs Hel].
  apply merge_entries_wf; [done|done|]. by destruct target.
Qed.

#[export] Hint Resolve json_merge_patch_wf : jamjet.

(** *** Properties *)

(** Replaying a merge patch changes nothing: applying the same patch twice
    gives the state of applying it once, and a patch keeps well-formed values
    well-formed. A crashed writer that re-applies a committed [state_patch]
    cannot drift. *)
Theorem json_merge_patch_idempotent (target patch : Value) :
  value_wf target → value_wf patch →
  value_wf (json_merge_patch target patch) ∧
  json_merge_patch (json_merge_patch target patch) patch = json_merge_patch target patch.
Proof.
  intros Ht Hp. split; [by apply json_merge_patch_wf|]. revert target Ht Hp.
  induction patch as [| | | | |pm IHp] using Value_rec_ind; intros target Ht Hp; try done.
  pose proof (json_merge_patch_wf _ _ Ht Hp) as Hw. rewrite json_merge_patch_object in *.
  rewrite json_merge_patch_object. f_equal.
  pose proof (json_merge_patch_wf (Object _) _ Hw Hp) as Hw2.
  rewrite json_merge_patch_object in Hw2.
  apply value_wf_object in Hp as [Hs Hel]. apply value_wf_object in Hw as [Hs1 _].
  apply value_wf_object in Hw2 as [Hs2 _].
  apply map_sorted_ext; [done..|]. intros k.
  rewrite !merge_entries_get by done. destruct (map_get k pm) as [v|] eqn:Hk; [|done].
  destruct (is_null v) eqn:Hn; simpl; [done|]. f_equal.
  apply map_get_elem in Hk. eapply Forall_forall in IHp; [|exact Hk]. apply IHp.
  - destruct target; try done. by apply default_wf.
  - by eapply Hel.
Qed.

Lemma json_merge_patch_idempotent_witness :
  let t := obj [("a", num 1); ("b", obj [("c", num 2)])] in
  let p := obj [("b", obj [("c", Null); ("d", Str "x")])] in
  json_merge_patch (json_merge_patch t p) p = json_merge_patch t p
  ∧ json_merge_patch t p = obj [("a", num 1); ("b", obj [("d", Str "x")])].
Proof.
  split; [|reflexivity].
  refine (proj2 (json_merge_patch_idempotent _ _ _ _));
    vm_compute; repeat (constructor || exact eq_refl).
Defined.
