(* ===== verification/RustStr.v ===== *)
(** * Rust strings

    A [str] is its UTF-8 bytes ([string]); a [char] is its code point ([N]).
    The methods here are the standard library's, as the runtime uses them. *)

From S2P Require Import Prelude.
From Stdlib Require Import Ascii.
From Stdlib Require String.

(** [len()]: bytes. *)
Definition str_len (s : string) : Z := Z.of_nat (String.length s).
Definition str_is_empty (s : string) : bool :=
  match s with EmptyString => true | _ => false end.

Definition bytes (s : string) : list N := N_of_ascii <$> String.list_ascii_of_string s.

(** [chars()]: UTF-8 decoding of a valid string. *)
Fixpoint utf8_decode (l : list N) : list N :=
  match l with
  | [] => []
  | b :: l1 =>
      if (b <? 128)%N then b :: utf8_decode l1
      else match l1 with
      | [] => []
      | c :: l2 =>
          if (b <? 224)%N then ((b - 192) * 64 + (c - 128))%N :: utf8_decode l2
          else match l2 with
          | [] => []
          | d :: l3 =>
              if (b <? 240)%N
              then ((b - 224) * 4096 + (c - 128) * 64 + (d - 128))%N :: utf8_decode l3
              else match l3 with
              | [] => []
              | e :: l4 =>
                  ((b - 240) * 262144 + (c - 128) * 4096 + (d - 128) * 64 + (e - 128))%N
                    :: utf8_decode l4
              end
          end
      end
  end.

Definition chars (s : string) : list N := utf8_decode (bytes s).

Definition is_ascii_alphanumeric (c : N) : bool :=
  ((48 <=? c) && (c <=? 57) || (65 <=? c) && (c <=? 90) || (97 <=? c) && (c <=? 122))%N.

(** [trim()]: the characters of Unicode's [White_Space], by their encodings. *)
Definition ws1 (b : N) : bool := ((9 <=? b) && (b <=? 13) || (b =? 32))%N.
Definition ws2 (b c : N) : bool := ((b =? 194) && ((c =? 133) || (c =? 160)))%N.
Definition ws3 (b c d : N) : bool :=
  ((b =? 225) && (c =? 154) && (d =? 128)
   || (b =? 226) && (c =? 128) && ((128 <=? d) && (d <=? 138) || (d =? 168) || (d =? 169) || (d =? 175))
   || (b =? 226) && (c =? 129) && (d =? 159)
   || (b =? 227) && (c =? 128) && (d =? 128))%N.

Fixpoint trim_front (l : list N) : list N :=
  match l with
  | b :: l1 =>
      if ws1 b then trim_front l1
      else match l1 with
      | c :: l2 =>
          if ws2 b c then trim_front l2
          else match l2 with
          | d :: l3 => if ws3 b c d then trim_front l3 else l
          | [] => l
          end
      | [] => l
      end
  | [] => []
  end.

(** The same from the back, over the reversed bytes. *)
Fixpoint trim_back (l : list N) : list N :=
  match l with
  | b :: l1 =>
      if ws1 b then trim_back l1
      else match l1 with
      | c :: l2 =>
          if ws2 c b then trim_back l2
          else match l2 with
          | d :: l3 => if ws3 d c b then trim_back l3 else l
          | [] => l
          end
      | [] => l
      end
  | [] => []
  end.

Definition of_bytes (l : list N) : string :=
  String.string_of_list_ascii (ascii_of_N <$> l).

Definition trim (s : string) : string :=
  of_bytes (reverse (trim_back (reverse (trim_front (bytes s))))).

(** [strip_prefix(p)]. *)
Fixpoint strip_prefix (p s : string) : option string :=
  match p, s with
  | EmptyString, _ => Some s
  | String a p, String b s => if decide (a = b) then strip_prefix p s else None
  | _, _ => None
  end.

(** [split(c)] on an ASCII character: always at least one piece. *)
Fixpoint split_char (c : ascii) (s : string) : list string :=
  match s with
  | EmptyString => [EmptyString]
  | String a s =>
      if decide (a = c) then EmptyString :: split_char c s
      else match split_char c s with
           | w :: ws => String a w :: ws
           | [] => [String a EmptyString]
           end
  end.

(** [contains(c)]. *)
Fixpoint str_contains (c : ascii) (s : string) : bool :=
  match s with
  | EmptyString => false
  | String a s => bool_decide (a = c) || str_contains c s
  end.

(** [split_once(c)], first component, or the whole string without one. *)
Fixpoint before_char (c : ascii) (s : string) : string :=
  match s with
  | EmptyString => EmptyString
  | String a s => if decide (a = c) then EmptyString else String a (before_char c s)
  end.

(** [split_once(c)]. *)
Fixpoint split_once (c : ascii) (s : string) : option (string * string) :=
  match s with
  | EmptyString => None
  | String a s =>
      if decide (a = c) then Some (EmptyString, s)
      else p ← split_once c s; Some (String a p.1, p.2)
  end.

(** [rsplit([cs]).next()]: what follows the last of the characters [cs]. *)
Fixpoint last_segment (cs : list ascii) (s : string) : string :=
  match s with
  | EmptyString => EmptyString
  | String a s' =>
      if decide (Exists (λ c, str_contains c s' = true) cs) then last_segment cs s'
      else if decide (a ∈ cs) then s' else s
  end.

(** [starts_with(p)]. *)
Definition starts_with (p s : string) : bool := if strip_prefix p s then true else false.

(** [replace([cs], "by")] for single characters. *)
Fixpoint replace_chars (cs : list ascii) (by_ : ascii) (s : string) : string :=
  match s with
  | EmptyString => EmptyString
  | String a s =>
      String (if decide (a ∈ cs) then by_ else a) (replace_chars cs by_ s)
  end.

(** [&s[..n]] and [&s[n..]] at a character boundary. *)
Fixpoint str_take (n : nat) (s : string) : string :=
  match n, s with
  | S n, String a s => String a (str_take n s)
  | _, _ => EmptyString
  end.
Fixpoint str_drop (n : nat) (s : string) : string :=
  match n, s with
  | S n, String _ s => str_drop n s
  | _, _ => s
  end.

(** [join(sep)]. *)
Fixpoint str_join (sep : string) (l : list string) : string :=
  match l with
  | [] => ""
  | [x] => x
  | x :: l => x +:+ sep +:+ str_join sep l
  end.

Fixpoint digits_value (acc : Z) (l : list N) : option Z :=
  match l with
  | [] => Some acc
  | c :: l => if ((48 <=? c) && (c <=? 57))%N
              then digits_value (acc * 10 + (Z.of_N c - 48)) l else None
  end.

(** [parse::<uN>()] with largest value [max]: an optional [+], then at least
    one decimal digit, in range. *)
Definition parse_unsigned (max : Z) (s : string) : option Z :=
  let ds := match bytes s with 43%N :: l => l | l => l end in
  match ds with
  | [] => None
  | _ => v ← digits_value 0 ds; if decide (v ≤ max) then Some v else None
  end.

(** [Vec<String>::sort()]. *)
Definition sort_strings (l : list string) : list string := merge_sort String.le l.

(** ** Lemmas *)

Lemma strip_prefix_app p s : strip_prefix p (p +:+ s) = Some s.
Proof. induction p as [|a p IHp]; simpl; [done|]. by rewrite decide_True. Qed.

Lemma split_char_nonempty c s : split_char c s ≠ [].
Proof. destruct s; simpl; [done|]. case_decide; [done|]. by destruct (split_char c s). Qed.

#[export] Hint Resolve strip_prefix_app split_char_nonempty : jamjet.

Lemma str_contains_app c s t : str_contains c (s +:+ t) = str_contains c s || str_contains c t.
Proof. induction s as [|a s IH]; simpl; [done|]. by rewrite IH, orb_assoc. Qed.

(** The last segment holds none of the separators, and is a suffix after one of
    them, or the whole string when it has none. *)
Lemma last_segment_spec cs s :
  (∀ c, c ∈ cs → str_contains c (last_segment cs s) = false)
  ∧ ((∀ c, c ∈ cs → str_contains c s = false) ∧ last_segment cs s = s
     ∨ ∃ p c, c ∈ cs ∧ s = p +:+ String c (last_segment cs s)).
Proof.
  induction s as [|a s [IH1 IH2]]; simpl; [by repeat (split || left)|].
  destruct (decide (Exists (λ c, str_contains c s = true) cs)) as [He|He].
  - split; [done|]. right. destruct IH2 as [[Hno _]|(p & c & Hc & Hs)].
    + apply Exists_exists in He as (c & Hc & Ht). by rewrite Hno in Ht.
    + exists (String a p), c. split; [done|]. exact (f_equal (String a) Hs).
  - assert (∀ c, c ∈ cs → str_contains c s = false) as Hno.
    { intros c Hc. apply not_true_is_false. intros Ht. apply He, Exists_exists. eauto. }
    destruct (decide (a ∈ cs)) as [Ha|Ha].
    + split; [done|]. right. by exists "", a.
    + assert (∀ c, c ∈ cs → bool_decide (a = c) || str_contains c s = false) as Hall.
      { intros c Hc. rewrite bool_decide_eq_false_2 by (by intros ->). by apply Hno. }
      split; [exact Hall|]. left. split; [exact Hall|done].
Qed.
