(* ===== verification/Core.v ===== *)
(** * The core data model ([runtime/core]): workflow status, node kinds, queue
    types, retry policies, executions. *)

From S2P Require Import Prelude.
From S2P Require Import Json.

(** ** Workflow status ([core/src/workflow.rs]) *)

Record ExecutionId := mkExecutionId { exec_uuid : Uuid }.

#[export] Instance ExecutionId_eq_dec : EqDecision ExecutionId.
Proof. solve_decision. Defined.
#[export] Instance ExecutionId_countable : Countable ExecutionId.
Proof. by refine (inj_countable' exec_uuid mkExecutionId _); intros []. Defined.

(** [Display for ExecutionId]. *)
Definition ExecutionId_display `{UuidOps} (id : ExecutionId) : string :=
  "exec_" +:+ uuid_simple (exec_uuid id).

Module WorkflowStatus.
Inductive WorkflowStatus :=
| Pending
| Running
| Paused
| Completed
| Failed
| Cancelled
| LimitExceeded.

#[global] Instance WorkflowStatus_eq_dec : EqDecision WorkflowStatus.
Proof. solve_decision. Defined.

Definition is_terminal (s : WorkflowStatus) : bool :=
  match s with
  | Completed | Failed | Cancelled | LimitExceeded => true
  | _ => false
  end.

Definition is_active (s : WorkflowStatus) : bool :=
  match s with
  | Pending | Running | Paused => true
  | _ => false
  end.

(** [core/src/error.rs]: the crate's error; [validate_transition] returns one of
    its values. A [serde_json::Error] is kept as its text. *)
Inductive CoreError :=
| WorkflowNotFound (id : string)
| ExecutionNotFound (id : string)
| NodeNotFound (workflow_id node_id : string)
| InvalidTransition (current requested : WorkflowStatus)
| SchemaValidation (message : string)
| PolicyViolation (message : string)
| BudgetExceeded (kind : string) (limit current : Z)
| Storage (message : string)
| Serialization (error : string).

Definition validate_transition (self next : WorkflowStatus) : result CoreError unit :=
  let valid :=
    match self, next with
    | Pending, Running
    | Running, Paused
    | Running, Completed
    | Running, Failed
    | Running, Cancelled
    | Running, LimitExceeded
    | Paused, Running
    | Paused, Cancelled => true
    | _, _ => false
    end in
  if valid then Ok tt else Err (InvalidTransition self next).
End WorkflowStatus.
Abbreviation WorkflowStatus := WorkflowStatus.WorkflowStatus.

Inductive SessionType :=
| Stateless
| Resumable
| PersistentGoverned
| Ephemeral
| ApprovalGated.

Record WorkflowExecution := {
  execution_id : ExecutionId;
  workflow_id : string;
  workflow_version : string;
  status : WorkflowStatus;
  initial_input : Value;
  current_state : Value;
  started_at : DateTime;
  updated_at : DateTime;
  completed_at : option DateTime;
  session_type : option SessionType;
  parent_execution_id : option ExecutionId;
  segment_number : Z;
}.

(** ** Nodes ([core/src/node.rs], [agent_tool.rs], [coordinator.rs]) *)

Abbreviation NodeId := string (only parsing).

Module NodeStatus.
Inductive NodeStatus :=
| Pending
| Scheduled
| Running
| Completed
| Failed
| Skipped
| Cancelled.

Definition is_terminal (s : NodeStatus) : bool :=
  match s with
  | Completed | Failed | Skipped | Cancelled => true
  | _ => false
  end.
End NodeStatus.

Record ConditionalBranch := { condition : option string; target : NodeId }.

Inductive MergeStrategy := Collect | First | MergeCustom (function_ref : string).
Inductive WaitCondition := Timer | ExternalEvent | Either.
Inductive ViolationAction := ViolationFail | ViolationBranch (target : NodeId) | Warn.
Inductive FinalizerTrigger := Success | Failure | Always.

Inductive EvalScorer :=
| LlmJudge (model rubric : string) (min_score : Z)
| Assertion (checks : list string)
| Latency (threshold_ms : Z)
| Cost (threshold_usd : f64)
| ScorerCustom (module : string) (kwargs : Value).

Inductive EvalOnFail := RetryWithFeedback | Escalate | Halt | LogAndContinue.

Inductive AgentTarget := Explicit (uri : string) | Auto.
Inductive AgentToolMode :=
| Sync
| Streaming
| Conversational (max_turns : Z) (max_tokens_per_turn : option Z).
Record AgentToolBudget := { atb_max_cost_usd : option f64; atb_max_tokens : option Z }.

Record CoordinatorBudget := { cb_max_cost_usd : option f64; cb_max_latency_ms : option Z }.
Record TiebreakerConfig := { tb_model : string; tb_threshold : f64; tb_max_candidates : Z }.
Record DimensionWeights := {
  w_capability_fit : f64; w_cost_fit : f64; w_latency_fit : f64;
  w_trust_compatibility : f64; w_historical_performance : f64;
}.

Module QueueType.
Inductive QueueType :=
| Model
| Tool
| PythonTool
| JavaTool
| Retrieval
| Privileged
| General
| Named (name : string).

#[global] Instance QueueType_eq_dec : EqDecision QueueType.
Proof. solve_decision. Defined.

(** [QueueType::as_str], also its serde form. *)
Definition as_str (q : QueueType) : string :=
  match q with
  | Model => "model"
  | Tool => "tool"
  | PythonTool => "python_tool"
  | JavaTool => "java_tool"
  | Retrieval => "retrieval"
  | Privileged => "privileged"
  | General => "general"
  | Named name => name
  end.

Definition from_name (name : string) : QueueType :=
  if decide (name = "model") then Model
  else if decide (name = "tool") then Tool
  else if decide (name = "python_tool") then PythonTool
  else if decide (name = "java_tool") then JavaTool
  else if decide (name = "retrieval") then Retrieval
  else if decide (name = "privileged") then Privileged
  else if decide (name = "general") then General
  else Named name.
End QueueType.
Abbreviation QueueType := QueueType.QueueType.

Module NodeKind.
Inductive NodeKind :=
| Model (model_ref prompt_ref output_schema : string) (system_prompt : option string)
    (tools : list Value)
| Tool (tool_ref : string) (input_mapping : gmap string string) (output_schema : string)
| PythonFn (module function output_schema : string) (agent_tool_dispatch : bool)
| JavaFn (class_name method output_schema : string) (agent_tool_dispatch : bool)
| ExternalFn (queue handler output_schema : string)
| Condition (branches : list ConditionalBranch)
| Parallel (parallel_branches : list NodeId)
| Join (wait_for : list NodeId) (merge_strategy : MergeStrategy)
| HumanApproval (description : string) (timeout_secs : option Z)
    (fallback_node : option NodeId)
| Wait (wait_condition : WaitCondition) (correlation_key : option string)
    (timeout_secs : option Z)
| Subgraph (workflow_ref : string) (workflow_version : option string)
    (input_mapping output_mapping : gmap string string)
| MemoryRetrieval (connector_ref query_expr output_schema : string)
| Policy (policy_ref : string) (on_violation : ViolationAction)
| Finalizer (tool_ref : string) (run_on : FinalizerTrigger)
| Agent (agent_ref : string) (input_mapping : gmap string string) (output_schema : string)
| McpTool (server tool : string) (input_mapping : gmap string string)
    (output_schema : string)
| A2aTask (remote_agent skill : string) (input_mapping : gmap string string)
    (output_schema : string) (stream : bool) (on_input_required : option NodeId)
    (timeout_secs : option Z)
| AgentDiscovery (skill : string) (protocol : option string) (output_binding : string)
| Coordinator (task : string) (required_skills preferred_skills : list string)
    (trust_domain : option string) (budget : option CoordinatorBudget)
    (tiebreaker : option TiebreakerConfig) (strategy : string)
    (weights : DimensionWeights) (input_mapping : gmap string string)
    (output_key : string)
| AgentTool (agent : AgentTarget) (mode : AgentToolMode)
    (input_mapping : gmap string string) (output_key : string)
    (timeout_ms : option Z) (budget : option AgentToolBudget)
| Eval (scorers : list EvalScorer) (on_fail : EvalOnFail) (max_retries : Z)
    (input_expr : option string)
| LimitExceeded.

Definition queue_type (k : NodeKind) : QueueType.QueueType :=
  match k with
  | Model _ _ _ _ _ => QueueType.Model
  | Tool _ _ _ | Finalizer _ _ => QueueType.Tool
  | PythonFn _ _ _ _ => QueueType.PythonTool
  | JavaFn _ _ _ _ => QueueType.JavaTool
  | ExternalFn queue _ _ => QueueType.Named queue
  | MemoryRetrieval _ _ _ => QueueType.Retrieval
  | McpTool _ _ _ _ | A2aTask _ _ _ _ _ _ _ => QueueType.Tool
  | Agent _ _ _ => QueueType.General
  | HumanApproval _ _ _ | Wait _ _ _ => QueueType.General
  | Eval _ _ _ _ => QueueType.General
  | Coordinator _ _ _ _ _ _ _ _ _ _ => QueueType.General
  | AgentTool _ _ _ _ _ _ => QueueType.General
  | _ => QueueType.General
  end.

Definition is_durable (k : NodeKind) : bool :=
  let is_agent_discovery := match k with AgentDiscovery _ _ _ => true | _ => false end in
  negb (match k with Condition _ => true | _ => false end) && negb is_agent_discovery.
End NodeKind.
Abbreviation NodeKind := NodeKind.NodeKind.

(** ** Retry policies ([core/src/retry.rs]) *)

(** [std::time::Duration] in nanoseconds; its largest value. *)
Abbreviation Duration := Z (only parsing).
Definition DURATION_MAX : Z := u64_max * NANOS_PER_SEC + (NANOS_PER_SEC - 1).
Definition from_secs (s : Z) : Duration := s * NANOS_PER_SEC.

Inductive BackoffStrategy := Fixed | Linear | Exponential.

Inductive ErrorClass :=
| IoError
| ETimeout
| RateLimit
| ServerError
| ConnectionReset
| ECustom (class : string).

Record RetryPolicy := {
  rp_max_attempts : Z;
  backoff : BackoffStrategy;
  initial_delay : Duration;
  max_delay : Duration;
  jitter : bool;
  retryable_on : list ErrorClass;
}.

Definition io_default : RetryPolicy := {|
  rp_max_attempts := 3; backoff := Exponential; initial_delay := from_secs 1;
  max_delay := from_secs 30; jitter := true;
  retryable_on := [IoError; ETimeout; ConnectionReset] |}.

Definition llm_default : RetryPolicy := {|
  rp_max_attempts := 3; backoff := Exponential; initial_delay := from_secs 2;
  max_delay := from_secs 60; jitter := true;
  retryable_on := [RateLimit; ETimeout; ServerError] |}.

Definition no_retry : RetryPolicy := {|
  rp_max_attempts := 1; backoff := Fixed; initial_delay := 0; max_delay := 0;
  jitter := false; retryable_on := [] |}.

(** [2u64.saturating_pow(e)]. *)
Definition pow2_sat (e : Z) : Z := Z.min u64_max (2 ^ e).
(** [Duration::saturating_mul(n)]. *)
Definition duration_saturating_mul (d n : Z) : Duration := Z.min DURATION_MAX (d * n).
(** [Duration * n]: panics on overflow ([None]). *)
Definition duration_mul (d n : Z) : option Duration :=
  if decide (d * n ≤ DURATION_MAX) then Some (d * n) else None.

(** [delay_for_attempt]; [None] is the panic of the linear product. *)
Definition delay_for_attempt (self : RetryPolicy) (attempt : Z) : option Duration :=
  if decide (attempt = 0) then Some 0
  else
    base ← match backoff self with
      | Fixed => Some (initial_delay self)
      | Linear => duration_mul (initial_delay self) attempt
      | Exponential =>
          let factor := pow2_sat (attempt - 1) in
          (* [factor as u32] keeps the low 32 bits *)
          Some (duration_saturating_mul (initial_delay self) (wrap_u32 factor))
      end;
    let capped := Z.min base (max_delay self) in
    if jitter self then Some capped else Some capped.

(** ** Properties *)

Lemma wrap_pow2_small n : 0 ≤ n < 32 → wrap_u32 (pow2_sat n) = 2 ^ n.
Proof.
  intros Hn. assert (2 ^ n < 2 ^ 32) by (apply Z.pow_lt_mono_r; lia).
  assert (0 < 2 ^ n) by (apply Z.pow_pos_nonneg; lia).
  unfold pow2_sat, u64_max. rewrite Z.min_r by lia. apply wrap_u32_small. lia.
Qed.

Lemma wrap_pow2_large n : 32 ≤ n < 64 → wrap_u32 (pow2_sat n) = 0.
Proof.
  intros Hn. assert (2 ^ n < 2 ^ 64) by (apply Z.pow_lt_mono_r; lia).
  unfold pow2_sat, u64_max. rewrite Z.min_r by lia. unfold wrap_u32.
  replace n with (32 + (n - 32)) by lia. rewrite Z.pow_add_r by lia.
  rewrite Z.mul_comm. apply Z.mod_mul. lia.
Qed.

(** Exponential backoff. Up to attempt 32 the delay is
    [initial_delay * 2^(attempt-1)], saturated and capped at [max_delay]. From
    attempt 33 to 64 the factor's cast to [u32] drops every bit, so the delay
    is zero: the node retries at once. *)
Theorem exponential_delay (p : RetryPolicy) (attempt : Z) :
  backoff p = Exponential → 0 ≤ initial_delay p → 0 ≤ max_delay p →
  (1 ≤ attempt ≤ 32 →
     delay_for_attempt p attempt =
       Some (Z.min (Z.min DURATION_MAX (initial_delay p * 2 ^ (attempt - 1)))
                   (max_delay p)))
  ∧ (33 ≤ attempt ≤ 64 → delay_for_attempt p attempt = Some 0).
Proof.
  intros Hb Hi Hm. unfold delay_for_attempt, duration_saturating_mul. rewrite Hb. split; intros Ha.
  - rewrite decide_False, wrap_pow2_small by lia. simpl. by destruct (jitter p).
  - rewrite decide_False, wrap_pow2_large by lia. simpl.
    rewrite Z.mul_0_r, (Z.min_r DURATION_MAX), Z.min_l
      by (unfold DURATION_MAX, u64_max, NANOS_PER_SEC; lia).
    by destruct (jitter p).
Qed.

Lemma exponential_delay_witness :
  delay_for_attempt io_default 3 = Some (from_secs 4)
  ∧ delay_for_attempt io_default 6 = Some (from_secs 30)
  ∧ delay_for_attempt io_default 33 = Some 0.
Proof.
  split; [|split].
  - refine (eq_trans (proj1 (exponential_delay io_default 3 _ _ _) _) _);
      vm_compute; first [reflexivity | split; discriminate | discriminate].
  - vm_compute. reflexivity.
  - refine (proj2 (exponential_delay io_default 33 _ _ _) _);
      vm_compute; first [reflexivity | split; discriminate | discriminate].
Defined.

(** The status machine of [validate_transition]. *)
Definition status_step (s t : WorkflowStatus) : Prop :=
  WorkflowStatus.validate_transition s t = Ok tt.

(** The workflow status machine. A status is terminal exactly when it is
    not active; no validated run of transitions leaves a terminal status; and
    every active status can still reach a terminal one. *)
Theorem status_machine (s : WorkflowStatus) :
  WorkflowStatus.is_terminal s = negb (WorkflowStatus.is_active s)
  ∧ (∀ t, WorkflowStatus.is_terminal s = true → rtc status_step s t → t = s)
  ∧ (WorkflowStatus.is_active s = true →
     ∃ t, WorkflowStatus.is_terminal t = true ∧ tc status_step s t).
Proof.
  split; [by destruct s|]. split.
  - intros t Ht. induction 1 as [|x y z Hstep]; [done|].
    exfalso. destruct x, y; discriminate.
  - intros Ha. exists WorkflowStatus.Cancelled. split; [done|].
    destruct s; try done.
    + apply tc_l with WorkflowStatus.Running; [done|]. by apply tc_once.
    + by apply tc_once.
    + by apply tc_once.
Qed.

(** Queue names. A node's queue survives the round trip through the string
    a work item carries, and the only queue types that do not are [Named] ones
    spelt like a built-in queue, which become that queue. *)
Theorem queue_name_roundtrip (name : string) (q : QueueType) :
  QueueType.as_str (QueueType.from_name name) = name
  ∧ (QueueType.from_name (QueueType.as_str q) = q ↔
     ∀ n, q = QueueType.Named n → QueueType.from_name n = QueueType.Named n).
Proof.
  split.
  - unfold QueueType.from_name. repeat case_decide; simplify_eq; done.
  - split; [by intros H n ->|]. intros H. destruct q; try reflexivity. by apply H.
Qed.
