(* ===== verification/Condition.v ===== *)
(** * Branch expressions ([core/src/condition.rs])

    The evaluator of [Condition]-node branch expressions, the registration-time
    check of the same expressions, and the relation between the two. *)

From S2P Require Import Prelude.
From S2P Require Import Json.
From S2P Require Import RustStr.
From Stdlib Require Import Ascii.

(** [serde_json::from_str::<Value>(s).ok()], a library function. A JSON text has
    no NaN in it. *)
Fixpoint no_nan (v : Value) : bool :=
  match v with
  | Num (Float f) => negb (f64_is_nan f)
  | Array l => foldr (λ x b, no_nan x && b) true l
  | Object m => foldr (λ kv b, no_nan kv.2 && b) true m
  | _ => true
  end.

Class JsonText := {
  parse_json : string → option Value;
  parse_json_no_nan s v : parse_json s = Some v → no_nan v = true;
  (** [Display for Value]: the compact text. *)
  json_to_string : Value → string;
}.

(** [PartialEq for Value]: structural, with IEEE equality on doubles. *)
Definition Number_eqb (a b : Number) : bool :=
  match a, b with
  | PosInt m, PosInt n => bool_decide (m = n)
  | NegInt m, NegInt n => bool_decide (m = n)
  | Float f, Float g => f64_eq f g
  | _, _ => false
  end.

Fixpoint Value_eqb (a b : Value) {struct a} : bool :=
  match a, b with
  | Null, Null => true
  | Bool x, Bool y => Bool.eqb x y
  | Num m, Num n => Number_eqb m n
  | Str s, Str t => bool_decide (s = t)
  | Array l, Array l' =>
      (fix go l l' := match l, l' with
        | [], [] => true
        | x :: l, y :: l' => Value_eqb x y && go l l'
        | _, _ => false
        end) l l'
  | Object m, Object m' =>
      (fix go m m' := match m, m' with
        | [], [] => true
        | (k, x) :: m, (k', y) :: m' => bool_decide (k = k') && Value_eqb x y && go m m'
        | _, _ => false
        end) m m'
  | _, _ => false
  end.

Inductive CmpOp := OpNe | OpEq.

(** [find_first_op]: the first [!=] or [==], with its byte position. *)
Fixpoint find_op_at (i : nat) (s : string) : option (nat * CmpOp) :=
  match s with
  | String a ((String b _) as s') =>
      if decide (a = "!"%char ∧ b = "="%char) then Some (i, OpNe)
      else if decide (a = "="%char ∧ b = "="%char) then Some (i, OpEq)
      else find_op_at (S i) s'
  | _ => None
  end.
Definition find_first_op (expr : string) : option (nat * CmpOp) := find_op_at 0 expr.

Definition require_state_path (lhs : string) : result string unit :=
  let err := Err ("left-hand side `" +:+ lhs +:+ "` must be a `state.<path>` reference") in
  match strip_prefix "state." lhs with
  | Some p =>
      if negb (str_is_empty p) && forallb (λ seg, negb (str_is_empty seg)) (split_char "." p)
      then Ok tt else err
  | None => err
  end.

(** [resolve_path]. *)
Fixpoint resolve_segments (current : Value) (segs : list string) : option Value :=
  match segs with
  | [] => Some current
  | segment :: segs =>
      if str_is_empty segment then None
      else match current with
      | Object m => v ← map_get segment m; resolve_segments v segs
      | Array arr =>
          idx ← parse_unsigned u64_max segment;
          v ← arr !! Z.to_nat idx;
          resolve_segments v segs
      | _ => None
      end
  end.
Definition resolve_path (root : Value) (dotted_path : string) : option Value :=
  resolve_segments root (split_char "." dotted_path).

(** [n.as_f64().is_some_and(|f| f != 0.0)]. *)
Definition number_nonzero (n : Number) : bool :=
  match n with
  | PosInt z | NegInt z => negb (f64_eq (f64_of_Z z) f64_zero)
  | Float f => negb (f64_eq f f64_zero)
  end.

Definition is_truthy (v : option Value) : bool :=
  match v with
  | None => false
  | Some Null => false
  | Some (Bool b) => b
  | Some (Num n) => number_nonzero n
  | Some (Str s) => negb (str_is_empty s)
  | Some (Array a) => match a with [] => false | _ => true end
  | Some (Object o) => match o with [] => false | _ => true end
  end.

(** [values_equal]: an absent path is [null]. *)
Definition values_equal (resolved : option Value) (rhs : Value) : bool :=
  match resolved with
  | None => Value_eqb rhs Null
  | Some v => Value_eqb v rhs
  end.

Section Evaluator.
Context `{JsonText}.

Definition validate_expression (expr0 : string) : result string unit :=
  let expr := trim expr0 in
  if str_is_empty expr then Err "expression is empty"
  else match find_first_op expr with
  | Some (op_pos, _) =>
      let lhs := trim (str_take op_pos expr) in
      let rhs := trim (str_drop (op_pos + 2) expr) in
      match require_state_path lhs with
      | Err e => Err e
      | Ok _ =>
          match parse_json rhs with
          | None => Err ("right-hand side `" +:+ rhs +:+ "` is not a literal (use a double-quoted string, a number, true, false or null)")
          | Some _ => Ok tt
          end
      end
  | None => require_state_path expr
  end.

Definition eval_comparison (expr : string) (state : Value) (op_pos : nat) (op : CmpOp) : bool :=
  let lhs := trim (str_take op_pos expr) in
  let rhs := trim (str_drop (op_pos + 2) expr) in
  match strip_prefix "state." lhs with
  | Some path =>
      if str_is_empty path then false
      else match parse_json rhs with
      | None => false
      | Some rhs_val =>
          let equal := values_equal (resolve_path state path) rhs_val in
          match op with OpEq => equal | OpNe => negb equal end
      end
  | None => false
  end.

Definition eval_truthiness (expr : string) (state : Value) : bool :=
  match strip_prefix "state." expr with
  | Some path => if str_is_empty path then false else is_truthy (resolve_path state path)
  | None => false
  end.

Definition eval_condition (expr0 : string) (state : Value) : bool :=
  let expr := trim expr0 in
  if str_is_empty expr then false
  else match find_first_op expr with
  | Some (op_pos, op) => eval_comparison expr state op_pos op
  | None => eval_truthiness expr state
  end.
End Evaluator.

(** ** Lemmas *)

Lemma f64_eq_refl f : f64_is_nan f = false → f64_eq f f = true.
Proof.
  unfold f64_eq, SFeqb. destruct f as [[]|[]| |[] m e]; simpl; intros; try done;
    by rewrite Z.compare_refl, Pos.compare_cont_refl.
Qed.

Lemma Value_eqb_refl v : no_nan v = true → Value_eqb v v = true.
Proof.
  induction v as [| |[]| |l IHl|m IHm] using Value_rec_ind; simpl; intros Hn;
    try (by rewrite ?bool_decide_true); try done.
  - by destruct b.
  - apply f64_eq_refl. by apply negb_true_iff.
  - induction l as [|x l IH']; [done|]. apply Forall_cons in IHl as [H1 H2]. simpl in Hn.
    apply andb_true_iff in Hn as [Hx Hl]. rewrite H1 by done. simpl. by apply IH'.
  - induction m as [|[k x] m IH']; [done|]. apply Forall_cons in IHm as [H1 H2]. simpl in *.
    apply andb_true_iff in Hn as [Hx Hl]. rewrite H1, bool_decide_true by done.
    simpl. by apply IH'.
Qed.

(** A state in which the segments lead to [v]. *)
Fixpoint state_at (segs : list string) (v : Value) : Value :=
  match segs with
  | [] => v
  | seg :: segs => Object [(seg, state_at segs v)]
  end.

Lemma resolve_state_at segs v :
  forallb (λ seg, negb (str_is_empty seg)) segs = true →
  resolve_segments (state_at segs v) segs = Some v.
Proof.
  induction segs as [|s segs IHs]; simpl; [done|]. intros [Hs Hss]%andb_true_iff.
  apply negb_true_iff in Hs. rewrite Hs, decide_True by done. simpl. auto.
Qed.

Lemma require_state_path_ok lhs :
  require_state_path lhs = Ok tt →
  ∃ p, strip_prefix "state." lhs = Some p ∧ str_is_empty p = false
       ∧ forallb (λ seg, negb (str_is_empty seg)) (split_char "." p) = true.
Proof.
  unfold require_state_path. destruct (strip_prefix _ _) as [p|]; [|done].
  destruct (_ && _) eqn:Hb; [|done]. apply andb_true_iff in Hb as [H1 H2].
  intros _. exists p. by rewrite negb_true_iff in H1.
Qed.

(** ** Properties *)

(** Registration and evaluation agree. An expression the validator accepts
    can be satisfied by some state, and can be falsified by some state, so a
    registered branch is never dead for syntactic reasons. *)
Theorem accepted_expression_satisfiable `{JsonText} (expr : string) :
  validate_expression expr = Ok tt →
  (∃ state, eval_condition expr state = true)
  ∧ (∃ state, eval_condition expr state = false).
Proof.
  unfold validate_expression, eval_condition. destruct (str_is_empty (trim expr)); [done|].
  destruct (find_first_op (trim expr)) as [[pos op]|]; intros Hv.
  - destruct (require_state_path _) as [[]|] eqn:Hp; [|done].
    apply require_state_path_ok in Hp as (p & Hp & Hne & Hsegs).
    destruct (parse_json _) as [lit|] eqn:Hlit; [|done].
    pose proof (Value_eqb_refl _ (parse_json_no_nan _ _ Hlit)) as Hrefl.
    assert (∃ v, Value_eqb v lit = false) as [v Hv'].
    { destruct lit; [by exists (Bool true)|by exists Null..]. }
    unfold eval_comparison. rewrite Hp, Hne, Hlit. unfold resolve_path.
    split; [exists (state_at (split_char "." p) (match op with OpEq => lit | OpNe => v end))
           |exists (state_at (split_char "." p) (match op with OpEq => v | OpNe => lit end))];
      rewrite resolve_state_at by done; destruct op; simpl; by rewrite ?Hrefl, ?Hv'.
  - apply require_state_path_ok in Hv as (p & Hp & Hne & Hsegs).
    unfold eval_truthiness, resolve_path. rewrite Hp, Hne.
    split; [exists (state_at (split_char "." p) (Bool true))
           |exists (state_at (split_char "." p) (Bool false))];
      by rewrite resolve_state_at.
Qed.

(** A JSON reader that knows a few literals. *)
Definition toy_json : JsonText.
Proof.
  refine {| parse_json := λ s, if decide (s = "1") then Some (num 1)
                               else if decide (s = "null") then Some Null else None;
            json_to_string := λ _, "" |}.
  intros s v. repeat case_decide; intros; simplify_eq; done.
Defined.

Lemma accepted_expression_satisfiable_witness :
  @eval_condition toy_json " state.a.b != 1 " (obj [("a", obj [("b", num 2)])]) = true
  ∧ ∃ state, @eval_condition toy_json " state.a.b != 1 " state = false.
Proof.
  split; [reflexivity|].
  exact (proj2 (@accepted_expression_satisfiable toy_json " state.a.b != 1 " eq_refl)).
Defined.

(** An expression with an empty path segment is refused at registration,
    but it does not evaluate to false forever: [state.a..b != 1] is true in
    every state, and [state..a == null] too. *)
Theorem refused_expression_evaluates_true `{JsonText} (state : Value) :
  parse_json "1" = Some (num 1) → parse_json "null" = Some Null →
  (∃ e, validate_expression "state.a..b != 1" = Err e)
  ∧ eval_condition "state.a..b != 1" state = true
  ∧ eval_condition "state..a == null" state = true.
Proof.
  intros H1 H2. split; [|split].
  - eexists. reflexivity.
  - transitivity (match parse_json "1" with
      | None => false
      | Some lit => negb (values_equal (resolve_path state "a..b") lit) end); [reflexivity|].
    rewrite H1. unfold resolve_path.
    change (split_char "." "a..b") with ["a"; ""; "b"].
    destruct state; try reflexivity. simpl. by destruct (map_get "a" m).
  - transitivity (match parse_json "null" with
      | None => false
      | Some lit => values_equal (resolve_path state ".a") lit end); [reflexivity|].
    by rewrite H2.
Qed.

Lemma refused_expression_witness :
  @eval_condition toy_json "state.a..b != 1" Null = true.
Proof.
  exact (proj1 (proj2 (@refused_expression_evaluates_true toy_json Null eq_refl eq_refl))).
Defined.
