(* ===== verification/Ir.v ===== *)
(** * The workflow IR and its validation ([runtime/ir])

    The canonical representation a workflow compiles to ([ir/src/workflow.rs])
    and the checks a definition passes before it is registered
    ([ir/src/validate.rs]), against a declarative well-formedness. *)

From S2P Require Import Prelude.
From S2P Require Import Json.
From S2P Require Import RustStr.
From S2P Require Import Core.
From S2P Require Import Condition.
From Stdlib Require Import Ascii.

(** ** Data ([ir/src/workflow.rs]) *)

Record PolicySetIr := {
  blocked_tools : list string;
  require_approval_for : list string;
  model_allowlist : list string;
  approval_timeout_secs : option Z;
  escalate_after_secs : option Z;
}.

Definition PolicySetIr_default : PolicySetIr := {|
  blocked_tools := []; require_approval_for := []; model_allowlist := [];
  approval_timeout_secs := None; escalate_after_secs := None |}.

Record DataPolicyIr := {
  pii_fields : list string;
  pii_detectors : list string;
  redaction_mode : string;
  retain_prompts : bool;
  retain_outputs : bool;
  retention_days : option Z;
}.

Record TokenBudgetIr := {
  tb_input_tokens : option Z;
  tb_output_tokens : option Z;
  tb_total_tokens : option Z;
}.

Inductive AuthConfig :=
| Bearer (token_env : string)
| ApiKey (header key_env : string)
| Oauth2 (client_id_env client_secret_env token_url : string).

Record EdgeDef := { from : string; to : string; edge_condition : option string }.

Record ModelConfig := {
  provider : string;
  model : string;
  mc_timeout_secs : option Z;
  mc_retry_policy : option string;
  temperature : option f64;
  max_tokens : option Z;
}.

Inductive ToolKind := TkPython | TkHttp | TkGrpc | TkMcp.

Record ToolConfig := {
  tool_kind : ToolKind;
  reference : string;
  input_schema : option string;
  tool_output_schema : option string;
  permissions : list string;
}.

Inductive McpTransport := Stdio | HttpSse | WebSocket.

Record McpServerConfig := {
  transport : McpTransport;
  command : option string;
  args : list string;
  mcp_url : option string;
  mcp_auth : option AuthConfig;
}.

Record RemoteAgentConfig := {
  remote_url : string;
  agent_card_path : option string;
  remote_auth : option AuthConfig;
}.

(** [core/src/timeout.rs]. *)
Record TimeoutConfig := {
  node_timeout : option Duration;
  workflow_timeout : option Duration;
  heartbeat_interval : Duration;
}.

Record NodeDef := {
  id : string;
  kind : NodeKind;
  retry_policy : option string;
  node_timeout_secs : option Z;
  nd_description : option string;
  nd_labels : gmap string string;
  nd_policy : option PolicySetIr;
  nd_data_policy : option DataPolicyIr;
  nd_agent_ref : option string;
}.

Record WorkflowIr := {
  ir_workflow_id : string;
  version : string;
  name : option string;
  ir_description : option string;
  state_schema : string;
  start_node : string;
  nodes : gmap string NodeDef;
  edges : list EdgeDef;
  retry_policies : gmap string RetryPolicy;
  timeouts : TimeoutConfig;
  models : gmap string ModelConfig;
  tools : gmap string ToolConfig;
  mcp_servers : gmap string McpServerConfig;
  remote_agents : gmap string RemoteAgentConfig;
  labels : gmap string string;
  policy : option PolicySetIr;
  token_budget : option TokenBudgetIr;
  cost_budget_usd : option f64;
  on_budget_exceeded : option string;
  continue_as_new : bool;
  data_policy : option DataPolicyIr;
  agent_ref : option string;
}.

Definition node (ir : WorkflowIr) (id : string) : option NodeDef := nodes ir !! id.
Definition edges_from (ir : WorkflowIr) (node_id : string) : list EdgeDef :=
  base.filter (λ e, from e = node_id) (edges ir).
Definition successors (ir : WorkflowIr) (node_id : string) : list string :=
  to <$> edges_from ir node_id.

(** ** Approval deadlines *)

Definition MAX_APPROVAL_TIMEOUT_SECS : Z := 365 * 24 * 60 * 60.

Definition show (z : Z) : string := pretty z.

Definition validate_approval_deadline (p : PolicySetIr) : result string unit :=
  match approval_timeout_secs p, escalate_after_secs p with
  | None, None => Ok tt
  | None, Some _ => Err "escalate_after_secs needs approval_timeout_secs in the same policy"
  | Some t, escalate =>
      if negb (bool_decide (1 ≤ t ≤ MAX_APPROVAL_TIMEOUT_SECS))
      then Err ("approval_timeout_secs must be between 1 and "
                +:+ show MAX_APPROVAL_TIMEOUT_SECS +:+ ", got " +:+ show t)
      else match escalate with
      | Some e =>
          if negb (bool_decide (1 ≤ e < t))
          then Err ("escalate_after_secs must be at least 1 and less than approval_timeout_secs ("
                    +:+ show t +:+ "), got " +:+ show e)
          else Ok tt
      | None => Ok tt
      end
  end.

Record ApprovalDeadline := { timeout_secs : Z; dl_escalate_after_secs : option Z }.

Record DeadlineResolution := {
  deadline : option ApprovalDeadline;
  dropped_escalation_secs : option Z;
}.

(** [Iterator::min]. *)
Definition iter_min (l : list Z) : option Z :=
  match l with [] => None | x :: l => Some (foldl Z.min x l) end.

Definition resolve (sets : list PolicySetIr) : result string DeadlineResolution :=
  match try_for_each validate_approval_deadline sets with
  | Err e => Err e
  | Ok _ =>
      match iter_min (omap approval_timeout_secs sets) with
      | None => Ok {| deadline := None; dropped_escalation_secs := None |}
      | Some timeout =>
          let escalation := iter_min (omap escalate_after_secs sets) in
          let '(escalate, dropped) :=
            match escalation with
            | Some e => if decide (e < timeout) then (Some e, None) else (None, Some e)
            | None => (None, None)
            end in
          Ok {| deadline := Some {| timeout_secs := timeout;
                                    dl_escalate_after_secs := escalate |};
                dropped_escalation_secs := dropped |}
      end
  end.

(** ** Validation ([ir/src/validate.rs], errors of [ir/src/error.rs]) *)

Inductive IrError :=
| UnknownToolRef (node tool : string)
| UnknownModelRef (node model : string)
| UnknownAgentRef (node agent : string)
| UnknownMcpServer (node server : string)
| UnknownRemoteAgent (node agent : string)
| UnknownEdgeTarget (from to : string)
| InvalidConditionExpression (node expr reason : string)
| InvalidQueueName (node queue reason : string)
| UnknownBranchTarget (node target : string)
| BranchTargetMissingOutEdge (node target : string)
| UnmarkedAgentToolDispatch (node : string)
| InvalidApprovalDeadline (scope reason : string)
| RetiredApprovalTimeout
| InvalidNodeId (id : string)
| NodeIdMismatch (key id : string)
| MisplacedAgentToolDispatch (node what : string)
| UnreachableNode (node : string)
| NoStartNode
| NoTerminalPath (node : string)
| MismatchedParallelJoin (parallel join : string)
| SchemaIncompatibility (from from_schema to to_schema : string)
| InvalidVersion (version : string)
| DuplicateNodeId (id : string).

Abbreviation IrResult := (result IrError unit) (only parsing).

Definition refuse_retired_timeouts (raw : Value) : IrResult :=
  match t ← get "timeouts" raw; get "approval_timeout" t with
  | None | Some Null => Ok tt
  | Some _ => Err RetiredApprovalTimeout
  end.

Definition MAX_NODE_ID_LEN : Z := 128.
Definition MAX_QUEUE_NAME_LEN : Z := 64.
Definition ADK_DISPATCH_MODULE : string := "jamjet.agents.tool_runtime".
Definition ADK_DISPATCH_FUNCTION : string := "dispatch_tool_calls".

Definition is_adk_dispatch_coordinates (module function : string) : bool :=
  bool_decide (module = ADK_DISPATCH_MODULE) && bool_decide (function = ADK_DISPATCH_FUNCTION).

(** [c.is_ascii_alphanumeric() || matches!(c, '_' | '.' | '-')]. *)
Definition safe_char (c : N) : bool :=
  is_ascii_alphanumeric c || bool_decide (c ∈ [95; 46; 45]%N).

Definition valid_node_id (s : string) : bool :=
  negb (str_is_empty s) && bool_decide (str_len s ≤ MAX_NODE_ID_LEN)
  && forallb safe_char (chars s).

(** The reason an [external_fn] queue name is refused. *)
Definition queue_name_refusal (queue : string) : option string :=
  if str_is_empty queue then Some "the queue name is empty"
  else if bool_decide (MAX_QUEUE_NAME_LEN < str_len queue)
  then Some ("the queue name is longer than " +:+ show MAX_QUEUE_NAME_LEN +:+ " characters")
  else if negb (forallb safe_char (chars queue))
  then Some "use only ASCII letters, digits, '-', '_' and '.'"
  else match QueueType.from_name queue with
  | QueueType.Named _ => None
  | _ => Some "that is a built-in queue; name a queue of your own"
  end.

Section Validate.
Context `{!JsonText, !IterOrder string} (ir : WorkflowIr).

Definition validate_metadata : IrResult :=
  if str_is_empty (ir_workflow_id ir) then Err (InvalidVersion "workflow_id is empty")
  else
    let parts := split_char "." (version ir) in
    if negb (length parts =? 3)%nat
       || existsb (λ p, match parse_unsigned u32_max p with None => true | _ => false end) parts
    then Err (InvalidVersion (version ir))
    else Ok tt.

Definition validate_no_duplicate_nodes : IrResult :=
  try_for_each (λ '(key, node),
    if decide (key ≠ id node) then Err (DuplicateNodeId (id node)) else Ok tt)
    (iter_map (nodes ir)).

Definition validate_start_node : IrResult :=
  if str_is_empty (start_node ir) then Err NoStartNode
  else match nodes ir !! start_node ir with
  | None => Err (UnreachableNode (start_node ir))
  | Some _ => Ok tt
  end.

Definition validate_edges : IrResult :=
  try_for_each (λ e,
    match nodes ir !! to e with
    | None => if decide (to e ≠ "end") then Err (UnknownEdgeTarget (from e) (to e)) else Ok tt
    | Some _ => Ok tt
    end) (edges ir).

Definition validate_branch_targets : IrResult :=
  try_for_each (λ '(node_id, node),
    match kind node with
    | NodeKind.Condition branches =>
        let out_targets := to <$> edges_from ir node_id in
        try_for_each (λ branch,
          if decide (target branch ≠ "end" ∧ nodes ir !! target branch = None)
          then Err (UnknownBranchTarget node_id (target branch))
          else if decide (target branch ∉ out_targets)
          then Err (BranchTargetMissingOutEdge node_id (target branch))
          else Ok tt) branches
    | _ => Ok tt
    end) (iter_map (nodes ir)).

(** One dequeued node: mark and enqueue its unvisited successors. *)
Fixpoint bfs_visit (es : list EdgeDef) (visited : gset string) (queue : list string)
    : gset string * list string :=
  match es with
  | [] => (visited, queue)
  | e :: es =>
      if decide (to e ≠ "end" ∧ to e ∉ visited)
      then bfs_visit es ({[to e]} ∪ visited) (queue ++ [to e])
      else bfs_visit es visited queue
  end.

(** The breadth-first loop. Each turn dequeues one node and every node is
    enqueued at most once, so [fuel] one more than the number of edges drains
    the queue ([bfs_complete]). *)
Fixpoint bfs (fuel : nat) (visited : gset string) (queue : list string) : gset string :=
  match fuel, queue with
  | S fuel, current :: queue =>
      let '(visited, queue) := bfs_visit (edges_from ir current) visited queue in
      bfs fuel visited queue
  | _, _ => visited
  end.

Definition bfs_reached : gset string :=
  bfs (S (length (edges ir))) {[start_node ir]} [start_node ir].

Definition validate_reachability : IrResult :=
  try_for_each (λ '(node_id, _),
    if decide (node_id ∈ bfs_reached) then Ok tt else Err (UnreachableNode node_id))
    (iter_map (nodes ir)).

Definition validate_refs : IrResult :=
  try_for_each (λ '(node_id, node),
    match kind node with
    | NodeKind.Tool tool_ref _ _ =>
        match tools ir !! tool_ref with
        | None => Err (UnknownToolRef node_id tool_ref) | Some _ => Ok tt end
    | NodeKind.Model model_ref _ _ _ _ =>
        match models ir !! model_ref with
        | None => Err (UnknownModelRef node_id model_ref) | Some _ => Ok tt end
    | NodeKind.McpTool server _ _ _ =>
        match mcp_servers ir !! server with
        | None => Err (UnknownMcpServer node_id server) | Some _ => Ok tt end
    | NodeKind.A2aTask remote_agent _ _ _ _ _ _ =>
        match remote_agents ir !! remote_agent with
        | None => Err (UnknownRemoteAgent node_id remote_agent) | Some _ => Ok tt end
    | _ => Ok tt
    end) (iter_map (nodes ir)).

Definition validate_agent_tool_dispatch : IrResult :=
  try_for_each (λ '(nid, node),
    match kind node with
    | NodeKind.PythonFn module function _ agent_tool_dispatch =>
        let is_dispatcher := is_adk_dispatch_coordinates module function in
        if is_dispatcher && negb agent_tool_dispatch
        then Err (UnmarkedAgentToolDispatch nid)
        else if agent_tool_dispatch && negb is_dispatcher
        then Err (MisplacedAgentToolDispatch nid
                    ("python_fn " +:+ module +:+ ":" +:+ function))
        else Ok tt
    | NodeKind.JavaFn class_name method _ true =>
        Err (MisplacedAgentToolDispatch nid ("java_fn " +:+ class_name +:+ "/" +:+ method))
    | _ => Ok tt
    end) (iter_map (nodes ir)).

Definition validate_condition_expressions : IrResult :=
  try_for_each (λ '(nid, node),
    match kind node with
    | NodeKind.Condition branches =>
        try_for_each (λ branch,
          match condition branch with
          | Some expr =>
              map_err (InvalidConditionExpression nid expr) (validate_expression expr)
          | None => Ok tt
          end) branches
    | _ => Ok tt
    end) (iter_map (nodes ir)).

Definition validate_external_queues : IrResult :=
  try_for_each (λ '(nid, node),
    match kind node with
    | NodeKind.ExternalFn queue _ _ =>
        match queue_name_refusal queue with
        | Some reason => Err (InvalidQueueName nid queue reason)
        | None => Ok tt
        end
    | _ => Ok tt
    end) (iter_map (nodes ir)).

Definition validate_node_ids : IrResult :=
  try_for_each (λ '(key, node),
    match try_for_each (λ s, if valid_node_id s then Ok tt else Err (InvalidNodeId s))
            [key; id node] with
    | Err e => Err e
    | Ok _ => if decide (key ≠ id node) then Err (NodeIdMismatch key (id node)) else Ok tt
    end) (iter_map (nodes ir)).

Definition validate_approval_deadlines : IrResult :=
  let workflow_check :=
    match policy ir with
    | Some p => map_err (InvalidApprovalDeadline "workflow") (validate_approval_deadline p)
    | None => Ok tt
    end in
  match workflow_check with
  | Err e => Err e
  | Ok _ =>
      try_for_each (λ nid,
        match nodes ir !! nid with
        | Some node =>
            match nd_policy node with
            | Some p => map_err (InvalidApprovalDeadline ("node '" +:+ nid +:+ "'"))
                          (validate_approval_deadline p)
            | None => Ok tt
            end
        | None => Ok tt
        end) (sort_strings (iter_map (nodes ir)).*1)
  end.

Definition validate_workflow : IrResult :=
  validate_metadata ≫= λ _,
  validate_no_duplicate_nodes ≫= λ _,
  validate_start_node ≫= λ _,
  validate_edges ≫= λ _,
  validate_branch_targets ≫= λ _,
  validate_reachability ≫= λ _,
  validate_refs ≫= λ _,
  validate_agent_tool_dispatch ≫= λ _,
  validate_condition_expressions ≫= λ _,
  validate_external_queues ≫= λ _,
  validate_node_ids ≫= λ _,
  validate_approval_deadlines ≫= λ _,
  Ok tt.
End Validate.

(** ** Lemmas: reachability *)

Inductive reachable (ir : WorkflowIr) : string → Prop :=
| reach_start : reachable ir (start_node ir)
| reach_edge e :
    e ∈ edges ir → reachable ir (from e) → to e ≠ "end" → reachable ir (to e).

Section Bfs.
Context (ir : WorkflowIr).

(** Targets still to be enqueued, and the turns left before the queue drains. *)
Definition unseen (visited : gset string) : gset string :=
  list_to_set (base.filter (λ t, t ≠ "end") (to <$> edges ir)) ∖ visited.
Definition turns (visited : gset string) (queue : list string) : nat :=
  length queue + size (unseen visited).

Lemma bfs_visit_spec es visited queue visited' queue' :
  bfs_visit es visited queue = (visited', queue') →
  (∀ e, e ∈ es → e ∈ edges ir) →
  visited ⊆ visited'
  ∧ turns visited' queue' = turns visited queue
  ∧ (∀ n, n ∈ queue → n ∈ queue')
  ∧ (∀ n, n ∈ queue' → n ∈ queue ∨ n ∈ visited' ∧ ∃ e, e ∈ es ∧ to e = n ∧ to e ≠ "end")
  ∧ (∀ n, n ∈ visited' → n ∈ visited ∨ n ∈ queue')
  ∧ (∀ e, e ∈ es → to e ≠ "end" → to e ∈ visited').
Proof.
  revert visited queue. induction es as [|e es IHes]; intros visited queue Hv Hes; simpl in Hv.
  { simplify_eq. repeat split; try done; try set_solver. }
  case_decide as Hd.
  - apply IHes in Hv as (Hsub & Hturn & Hq & Hq' & Hvis & Hall); [|set_solver].
    destruct Hd as [Hend Hnew].
    assert (turns ({[to e]} ∪ visited) (queue ++ [to e]) = turns visited queue) as Ht.
    { unfold turns, unseen. rewrite length_app; simpl.
      assert (to e ∈ (list_to_set (base.filter (λ t, t ≠ "end") (to <$> edges ir)) : gset string)
                     ∖ visited) as Hin.
      { apply elem_of_difference. split; [|done]. apply elem_of_list_to_set.
        apply list_elem_of_filter. split; [done|]. apply list_elem_of_fmap.
        exists e. split; [done|]. apply Hes. by left. }
      set (X := list_to_set _) in *.
      replace (X ∖ ({[to e]} ∪ visited)) with ((X ∖ visited) ∖ {[to e]} : gset string) by set_solver.
      rewrite size_difference by set_solver. rewrite size_singleton.
      assert (size (X ∖ visited) ≠ 0%nat) by (apply size_non_empty_iff; set_solver). lia. }
    assert (to e ∈ visited') as Hte by (apply Hsub; set_solver).
    split; [set_solver|]. split; [congruence|].
    split; [intros n Hn; apply Hq; set_solver|]. split; [|split].
    + intros n [Hn|(? & e' & ? & ?)]%Hq'; [|right; split; [done|]; exists e'; set_solver].
      apply elem_of_app in Hn as [|Hn]; [by left|].
      apply list_elem_of_singleton in Hn as ->. right. split; [done|].
      exists e. split; [by left|done].
    + intros n [Hn|Hn]%Hvis; [|by right]. apply elem_of_union in Hn as [Hn|Hn]; [|by left].
      right. apply Hq. set_solver.
    + intros e' [->|He']%elem_of_cons Hne; [done|by apply Hall].
  - apply IHes in Hv as (Hsub & Hturn & Hq & Hq' & Hvis & Hall); [|set_solver].
    repeat split; try done.
    + intros n [Hn|(Hn & e' & He' & <- & ?)]%Hq'; [by left|]. right.
      split; [done|]. exists e'. split; [by right|done].
    + intros e' [->|He']%elem_of_cons Hne; [|by apply Hall].
      apply Hsub. destruct (decide (to e ∈ visited)); [done|]. by destruct Hd.
Qed.

(** The queue's nodes are visited and reachable, and every visited node not in
    the queue has had its successors visited. *)
Definition bfs_inv (visited : gset string) (queue : list string) : Prop :=
  (∀ n, n ∈ queue → n ∈ visited)
  ∧ (∀ n, n ∈ visited → reachable ir n)
  ∧ start_node ir ∈ visited
  ∧ (∀ e, e ∈ edges ir → from e ∈ visited → from e ∉ queue → to e ≠ "end" → to e ∈ visited).

Lemma bfs_spec fuel visited queue :
  bfs_inv visited queue → (turns visited queue ≤ fuel)%nat →
  bfs_inv (bfs ir fuel visited queue) [].
Proof.
  revert visited queue. induction fuel as [|fuel IHf]; intros visited queue Hinv Hf; simpl.
  - destruct queue; [done|]. unfold turns in Hf; simpl in Hf. lia.
  - destruct queue as [|cur queue]; [done|].
    destruct (bfs_visit _ _ _) as [visited' queue'] eqn:Hv.
    pose proof Hv as Hv0. apply bfs_visit_spec in Hv
      as (Hsub & Hturn & Hq & Hq' & Hvis & Hall);
      [|intros e He; by apply list_elem_of_filter in He as [_ ?]].
    destruct Hinv as (I1 & I2 & I3 & I4).
    apply IHf; [|unfold turns in *; simpl in *; lia].
    assert (∀ n, n ∈ queue' → n ∈ visited') as J1.
    { intros n [Hn|[Hn _]]%Hq'; [|done]. apply Hsub, I1. by right. }
    split; [done|]. split; [|split; [by apply Hsub|]].
    + intros n [Hn|Hn]%Hvis; [by apply I2|].
      destruct (Hq' _ Hn) as [Hn'|(_ & e & He & <- & Hne)]; [apply I2, I1; by right|].
      apply list_elem_of_filter in He as [Hfrom He]. constructor; [done| |done].
      rewrite Hfrom. apply I2, I1. by left.
    + intros e He Hfrom Hnq Hne.
      destruct (decide (from e = cur)) as [Hc|Hc].
      * apply Hall; [|done]. apply list_elem_of_filter. done.
      * destruct (Hvis _ Hfrom) as [Hold|]; [|done].
        apply Hsub, I4; auto. intros [?|Hin]%elem_of_cons; [done|]. by apply Hnq, Hq.
Qed.

(** The search terminates having visited exactly the reachable nodes. *)
Lemma bfs_complete n : n ∈ bfs_reached ir ↔ reachable ir n.
Proof.
  unfold bfs_reached.
  destruct (bfs_spec (S (length (edges ir))) {[start_node ir]} [start_node ir])
    as (_ & H2 & H3 & H4).
  - split; [set_solver|]. split; [|split; [set_solver|]].
    + intros m ->%elem_of_singleton. constructor.
    + intros e _ ->%elem_of_singleton []. by left.
  - unfold turns, unseen. simpl. apply le_n_S.
    etransitivity; [apply subseteq_size, subseteq_difference_l; reflexivity|].
    etransitivity; [apply size_list_to_set_le|].
    etransitivity; [apply length_filter|]. by rewrite length_fmap.
  - split; [apply H2|]. induction 1 as [|e He _ IHr Hne]; [done|].
    apply H4; set_solver.
Qed.
End Bfs.

(** ** Lemmas: each check against what it promises *)

Lemma result_bind_ok {E} (a b : result E unit) :
  (a ≫= λ _, b) = Ok tt ↔ a = Ok tt ∧ b = Ok tt.
Proof. destruct a as [[]|]; simpl; naive_solver. Qed.

Lemma map_err_ok {E F} (f : E → F) (r : result E unit) : map_err f r = Ok tt ↔ r = Ok tt.
Proof. by destruct r as [[]|]. Qed.

Lemma try_for_each_iter {V E} `{IterOrder string} (f : string * V → result E unit)
    (m : gmap string V) :
  try_for_each f (iter_map m) = Ok tt ↔ ∀ k v, m !! k = Some v → f (k, v) = Ok tt.
Proof.
  rewrite try_for_each_ok. split.
  - intros Hf k v Hk. apply Hf. by apply iter_map_elem.
  - intros Hf [k v] Hk. apply Hf. by apply iter_map_elem.
Qed.

Definition refs_resolve (ir : WorkflowIr) (k : NodeKind) : Prop :=
  match k with
  | NodeKind.Tool tool_ref _ _ => is_Some (tools ir !! tool_ref)
  | NodeKind.Model model_ref _ _ _ _ => is_Some (models ir !! model_ref)
  | NodeKind.McpTool server _ _ _ => is_Some (mcp_servers ir !! server)
  | NodeKind.A2aTask remote_agent _ _ _ _ _ _ => is_Some (remote_agents ir !! remote_agent)
  | _ => True
  end.

(** The dispatch marker is set on the ADK dispatcher and nowhere else. *)
Definition dispatch_marked (k : NodeKind) : Prop :=
  match k with
  | NodeKind.PythonFn module function _ marked =>
      marked = is_adk_dispatch_coordinates module function
  | NodeKind.JavaFn _ _ _ marked => marked = false
  | _ => True
  end.

Definition branch_ok `{JsonText} (ir : WorkflowIr) (key : string) (b : ConditionalBranch) : Prop :=
  (target b = "end" ∨ is_Some (nodes ir !! target b))
  ∧ (∃ e, e ∈ edges ir ∧ from e = key ∧ to e = target b)
  ∧ (∀ expr, condition b = Some expr → validate_expression expr = Ok tt).

(** What [validate_workflow] checks of a definition. *)
Record passes_checks `{JsonText} (ir : WorkflowIr) : Prop := {
  wf_metadata :
    ir_workflow_id ir ≠ "" ∧ length (split_char "." (version ir)) = 3%nat
    ∧ ∀ p, p ∈ split_char "." (version ir) → is_Some (parse_unsigned u32_max p);
  wf_start : start_node ir ≠ "" ∧ is_Some (nodes ir !! start_node ir);
  wf_edges : ∀ e, e ∈ edges ir → to e = "end" ∨ is_Some (nodes ir !! to e);
  wf_reachable : ∀ key, is_Some (nodes ir !! key) → reachable ir key;
  wf_nodes : ∀ key n, nodes ir !! key = Some n →
    key = id n ∧ valid_node_id key = true
    ∧ refs_resolve ir (kind n) ∧ dispatch_marked (kind n)
    ∧ (∀ branches b, kind n = NodeKind.Condition branches → b ∈ branches → branch_ok ir key b)
    ∧ (∀ q h o, kind n = NodeKind.ExternalFn q h o → queue_name_refusal q = None)
    ∧ (∀ p, nd_policy n = Some p → validate_approval_deadline p = Ok tt);
  wf_policy : ∀ p, policy ir = Some p → validate_approval_deadline p = Ok tt;
}.

Section ValidateLemmas.
Context `{!JsonText, !IterOrder string} (ir : WorkflowIr).

Lemma str_is_empty_spec s : str_is_empty s = true ↔ s = "".
Proof. by destruct s. Qed.

Lemma validate_metadata_ok :
  validate_metadata ir = Ok tt ↔
    ir_workflow_id ir ≠ "" ∧ length (split_char "." (version ir)) = 3%nat
    ∧ ∀ p, p ∈ split_char "." (version ir) → is_Some (parse_unsigned u32_max p).
Proof.
  unfold validate_metadata. destruct (str_is_empty _) eqn:He.
  { apply str_is_empty_spec in He. naive_solver. }
  assert (ir_workflow_id ir ≠ "") by (intros Hn; apply str_is_empty_spec in Hn; congruence).
  destruct (Nat.eqb_spec (length (split_char "." (version ir))) 3); simpl; [|naive_solver].
  destruct (existsb _ _) eqn:Hex.
  - split; [done|]. intros (_ & _ & Hp). apply existsb_exists in Hex as (p & Hin & Hnone).
    apply list_elem_of_In, Hp in Hin as [v Hv]. by rewrite Hv in Hnone.
  - split; [|done]. intros _. split; [done|]. split; [done|]. intros p Hp.
    destruct (parse_unsigned u32_max p) eqn:Hpp; [by eexists|].
    assert (existsb (λ p, match parse_unsigned u32_max p with None => true | _ => false end)
              (split_char "." (version ir)) = true); [|congruence].
    apply existsb_exists. exists p. rewrite Hpp. split; [by apply list_elem_of_In|done].
Qed.

Lemma validate_start_node_ok :
  validate_start_node ir = Ok tt ↔ start_node ir ≠ "" ∧ is_Some (nodes ir !! start_node ir).
Proof.
  unfold validate_start_node. destruct (str_is_empty _) eqn:He.
  { apply str_is_empty_spec in He. naive_solver. }
  assert (start_node ir ≠ "") by (intros Hn; apply str_is_empty_spec in Hn; congruence).
  destruct (nodes ir !! _); [naive_solver|]. split; [done|]. by intros [_ []].
Qed.

Lemma validate_edges_ok :
  validate_edges ir = Ok tt ↔
    ∀ e, e ∈ edges ir → to e = "end" ∨ is_Some (nodes ir !! to e).
Proof.
  unfold validate_edges. rewrite try_for_each_ok. apply forall_proper; intros e.
  destruct (nodes ir !! to e) eqn:Hn; [naive_solver|]. case_decide.
  - split; [intros Hx He; by specialize (Hx He)|]. intros Hx He.
    by destruct (Hx He) as [|[? [=]]].
  - split; [|done]. intros _ _. by left.
Qed.

Lemma validate_reachability_ok :
  validate_reachability ir = Ok tt ↔ ∀ key, is_Some (nodes ir !! key) → reachable ir key.
Proof.
  unfold validate_reachability. rewrite try_for_each_iter. split.
  - intros Hx key [n Hn]. specialize (Hx _ _ Hn). simpl in Hx. case_decide; [|done].
    by apply bfs_complete.
  - intros Hx k v Hk. simpl. rewrite decide_True; [done|]. apply bfs_complete, Hx. by eexists.
Qed.

Lemma validate_branch_targets_ok :
  validate_branch_targets ir = Ok tt ↔
    ∀ key n branches b, nodes ir !! key = Some n → kind n = NodeKind.Condition branches →
      b ∈ branches →
      (target b = "end" ∨ is_Some (nodes ir !! target b))
      ∧ (∃ e, e ∈ edges ir ∧ from e = key ∧ to e = target b).
Proof.
  unfold validate_branch_targets. rewrite try_for_each_iter. split.
  - intros Hx key n branches b Hn Hk Hb. specialize (Hx _ _ Hn). simpl in Hx. rewrite Hk in Hx.
    rewrite try_for_each_ok in Hx. specialize (Hx _ Hb). simpl in Hx.
    case_decide as H1; [done|]. case_decide as H2; [done|].
    split.
    + destruct (decide (target b = "end")); [by left|right].
      destruct (nodes ir !! target b) eqn:Ht; [by eexists|]. by destruct H1.
    + apply list_elem_of_fmap in H2 as (e & -> & He).
      apply list_elem_of_filter in He as [? ?]. by exists e.
  - intros Hx key n Hn. simpl. destruct (kind n) eqn:Hk; try done.
    apply try_for_each_ok. intros b Hb.
    destruct (Hx _ _ _ _ Hn Hk Hb) as [Ht (e & He & Hf & Hto)].
    rewrite decide_False, decide_False; [done| |].
    + intros Hno. apply Hno, list_elem_of_fmap. exists e. split; [done|].
      by apply list_elem_of_filter.
    + intros [? Hnone]. destruct Ht as [|[? Hs]]; [done|congruence].
Qed.

Lemma validate_refs_ok :
  validate_refs ir = Ok tt ↔
    ∀ key n, nodes ir !! key = Some n → refs_resolve ir (kind n).
Proof.
  unfold validate_refs. rewrite try_for_each_iter. apply forall_proper; intros key.
  apply forall_proper; intros n.
  apply imp_iff_compat_l. destruct (kind n); simpl; try done;
    (case_match; split; intros Hs; [by eexists|done|done|by destruct Hs]).
Qed.

Lemma validate_agent_tool_dispatch_ok :
  validate_agent_tool_dispatch ir = Ok tt ↔
    ∀ key n, nodes ir !! key = Some n → dispatch_marked (kind n).
Proof.
  unfold validate_agent_tool_dispatch. rewrite try_for_each_iter.
  apply forall_proper; intros key. apply forall_proper; intros n.
  apply imp_iff_compat_l. destruct (kind n); simpl; try done.
  - match goal with |- context [?x = is_adk_dispatch_coordinates ?m ?f] =>
      by destruct (is_adk_dispatch_coordinates m f), x end.
  - match goal with |- context [?x = false] => by destruct x end.
Qed.

Lemma validate_condition_expressions_ok :
  validate_condition_expressions ir = Ok tt ↔
    ∀ key n branches b, nodes ir !! key = Some n → kind n = NodeKind.Condition branches →
      b ∈ branches → ∀ expr, condition b = Some expr → validate_expression expr = Ok tt.
Proof.
  unfold validate_condition_expressions. rewrite try_for_each_iter. split.
  - intros Hx key n branches b Hn Hk Hb expr He. specialize (Hx _ _ Hn). simpl in Hx.
    rewrite Hk, try_for_each_ok in Hx. specialize (Hx _ Hb). rewrite He in Hx.
    by apply map_err_ok in Hx.
  - intros Hx key n Hn. simpl. destruct (kind n) eqn:Hk; try done.
    apply try_for_each_ok. intros b Hb. destruct (condition b) eqn:He; [|done].
    apply map_err_ok. by eapply Hx.
Qed.

Lemma validate_external_queues_ok :
  validate_external_queues ir = Ok tt ↔
    ∀ key n q h o, nodes ir !! key = Some n → kind n = NodeKind.ExternalFn q h o →
      queue_name_refusal q = None.
Proof.
  unfold validate_external_queues. rewrite try_for_each_iter. split.
  - intros Hx key n q h o Hn Hk. specialize (Hx _ _ Hn). simpl in Hx. rewrite Hk in Hx.
    by destruct (queue_name_refusal q).
  - intros Hx key n Hn. simpl. destruct (kind n) eqn:Hk; try done. by erewrite Hx.
Qed.

Lemma validate_node_ids_ok :
  validate_node_ids ir = Ok tt ↔
    ∀ key n, nodes ir !! key = Some n → key = id n ∧ valid_node_id key = true.
Proof.
  unfold validate_node_ids. rewrite try_for_each_iter.
  apply forall_proper; intros key. apply forall_proper; intros n. cbn.
  destruct (valid_node_id key) eqn:H1.
  - destruct (decide (key = id n)) as [<-|Hne].
    + rewrite H1, decide_False by (by intros []). naive_solver.
    + destruct (valid_node_id (id n)); [rewrite decide_True by done|]; naive_solver.
  - naive_solver.
Qed.

Lemma validate_approval_deadlines_ok :
  validate_approval_deadlines ir = Ok tt ↔
    (∀ p, policy ir = Some p → validate_approval_deadline p = Ok tt)
    ∧ ∀ key n p, nodes ir !! key = Some n → nd_policy n = Some p →
        validate_approval_deadline p = Ok tt.
Proof.
  unfold validate_approval_deadlines. cbv zeta.
  set (rest := try_for_each _ _).
  assert (rest = Ok tt ↔ ∀ key n p, nodes ir !! key = Some n → nd_policy n = Some p →
            validate_approval_deadline p = Ok tt) as Hrest.
  { unfold rest. rewrite try_for_each_ok. split.
    - intros Hx key n p Hn Hp. specialize (Hx key). rewrite Hn, Hp in Hx.
      rewrite map_err_ok in Hx. apply Hx. unfold sort_strings. rewrite merge_sort_Permutation.
      apply list_elem_of_fmap. exists (key, n). split; [done|]. by apply iter_map_elem.
    - intros Hx key _. destruct (nodes ir !! key) as [n|] eqn:Hn; [|done].
      destruct (nd_policy n) as [p|] eqn:Hp; [|done]. apply map_err_ok. by eapply Hx. }
  rewrite <- Hrest. destruct (policy ir) as [p|]; [|by split; [|intros [_ ?]]].
  destruct (validate_approval_deadline p) as [[]|] eqn:Hp; simpl.
  - split; [|by intros [_ ?]]. intros. split; [|done]. by intros ? [= <-].
  - split; [done|]. intros [Hx _]. rewrite (Hx p) in Hp by done. done.
Qed.
End ValidateLemmas.

Section ResolveLemmas.

Lemma foldl_min_spec l x :
  (foldl Z.min x l = x ∨ foldl Z.min x l ∈ l)
  ∧ foldl Z.min x l ≤ x ∧ ∀ y, y ∈ l → foldl Z.min x l ≤ y.
Proof.
  revert x; induction l as [|z l IH]; intros x; simpl; [set_solver by lia|].
  destruct (IH (Z.min x z)) as (Hin & Hle & Hall). split_and!; [|lia|].
  - destruct Hin as [->|]; [|set_solver]. destruct (Z.min_spec x z) as [[_ ->]|[_ ->]]; set_solver.
  - intros y [->|Hy]%elem_of_cons; [lia|by apply Hall].
Qed.

Lemma iter_min_some l m : iter_min l = Some m → m ∈ l ∧ ∀ y, y ∈ l → m ≤ y.
Proof.
  destruct l as [|x l]; simpl; [done|]. intros [= <-].
  destruct (foldl_min_spec l x) as (Hin & Hle & Hall). split; [set_solver|].
  intros y [->|Hy]%elem_of_cons; auto.
Qed.

Lemma iter_min_none l : iter_min l = None ↔ l = [].
Proof. by destruct l. Qed.

Lemma validate_approval_deadline_bounds p :
  validate_approval_deadline p = Ok tt →
  (∀ t, approval_timeout_secs p = Some t → 1 ≤ t ≤ MAX_APPROVAL_TIMEOUT_SECS)
  ∧ (∀ e, escalate_after_secs p = Some e →
       ∃ t, approval_timeout_secs p = Some t ∧ 1 ≤ e < t).
Proof.
  unfold validate_approval_deadline. intros Hok.
  destruct (approval_timeout_secs p) as [t|], (escalate_after_secs p) as [e|]; try done;
    repeat (case_bool_decide; simpl in *; try done); naive_solver.
Qed.
End ResolveLemmas.

(** ** Properties *)

Lemma validate_workflow_ok `{!JsonText, !IterOrder string} (ir : WorkflowIr) :
  validate_workflow ir = Ok tt ↔ passes_checks ir.
Proof.
  unfold validate_workflow. rewrite !result_bind_ok, validate_metadata_ok,
    validate_start_node_ok, validate_edges_ok, validate_branch_targets_ok,
    validate_reachability_ok, validate_refs_ok, validate_agent_tool_dispatch_ok,
    validate_condition_expressions_ok, validate_external_queues_ok, validate_node_ids_ok,
    validate_approval_deadlines_ok.
  split.
  - intros (? & ? & ? & ? & Hb & ? & Hr & Hd & Hc & Hq & Hi & [? Hp] & _).
    constructor; [done..| |done]. intros key n Hn.
    destruct (Hi _ _ Hn) as [Hk1 Hk2]. split_and!; eauto.
    intros br b Hk Hin. destruct (Hb _ _ _ _ Hn Hk Hin). split_and!; eauto.
  - intros [? ? ? ? Hn ?].
    assert (Hb := λ key n (Hk : nodes ir !! key = Some n) branches b Hc Hin,
      proj1 (proj2 (proj2 (proj2 (proj2 (Hn key n Hk))))) branches b Hc Hin).
    split; [done|]. split.
    { unfold validate_no_duplicate_nodes. apply try_for_each_iter. intros k v Hk. simpl.
      destruct (Hn _ _ Hk) as [Heq _]. by rewrite decide_False by (by intros []). }
    do 2 (split; [done|]). split.
    { intros key n branches b Hk Hc Hin. by destruct (Hb _ _ Hk _ _ Hc Hin) as (? & ? & _). }
    split; [done|]. split; [intros k n Hk; apply (Hn _ _ Hk)|].
    split; [intros k n Hk; apply (Hn _ _ Hk)|]. split.
    { intros key n branches b Hk Hc Hin. by destruct (Hb _ _ Hk _ _ Hc Hin) as (_ & _ & ?). }
    split; [intros k n q h o Hk; apply (Hn _ _ Hk)|].
    split; [intros k n Hk; by destruct (Hn _ _ Hk) as (? & ? & _)|].
    split; [|done]. split; [done|]. intros k n p Hk. apply (Hn _ _ Hk).
Qed.

(** A definition whose one node leads back to itself and delegates to an agent no
    one defines: no path of it ends, and nothing resolves the agent. *)
Definition endless_ir : WorkflowIr := {|
  ir_workflow_id := "w"; version := "1.0.0"; name := None; ir_description := None;
  state_schema := ""; start_node := "ask";
  nodes := {["ask" := {| id := "ask"; kind := NodeKind.Agent "nobody" ∅ "";
    retry_policy := None; node_timeout_secs := None; nd_description := None; nd_labels := ∅;
    nd_policy := None; nd_data_policy := None; nd_agent_ref := Some "no one" |}]};
  edges := [{| from := "ask"; to := "ask"; edge_condition := None |}]; retry_policies := ∅;
  timeouts := {| node_timeout := None; workflow_timeout := None; heartbeat_interval := 0 |};
  models := ∅; tools := ∅; mcp_servers := ∅; remote_agents := ∅; labels := ∅; policy := None;
  token_budget := None; cost_budget_usd := None; on_budget_exceeded := None;
  continue_as_new := false; data_policy := None; agent_ref := None |}.

(** Rules 7 and 8 of the validator's documentation are not checked in full: the
    endless definition passes, though no terminal node is reached from its start and
    its agent is not defined anywhere. *)
Lemma endless_ir_accepted `{!JsonText, !IterOrder string} :
  validate_workflow endless_ir = Ok tt ∧ ∀ e, e ∈ edges endless_ir → to e ≠ "end".
Proof.
  split; [|by intros e ->%list_elem_of_singleton]. apply validate_workflow_ok. split.
  - split_and!; [done|reflexivity|]. intros p Hp. vm_compute in Hp.
    repeat (apply elem_of_cons in Hp as [->|Hp]; [by eexists|]). by apply not_elem_of_nil in Hp.
  - split; [done|by eexists].
  - intros e ->%list_elem_of_singleton. right. by eexists.
  - intros key [n Hn]. cbn in Hn. apply lookup_singleton_Some in Hn as [<- _]. constructor.
  - intros key n Hn. cbn in Hn. apply lookup_singleton_Some in Hn as [<- <-]. by split_and!.
  - done.
Qed.

(** C40: [validate_workflow] accepts exactly the definitions that pass the checks it
    makes, [passes_checks]: the workflow id is not empty and the version is three
    numbers of 32 bits separated by dots; ids and keys of nodes agree and are
    shell-safe; the start node exists; every edge and branch leads to a node (or
    [end]) and every branch along an edge; every node is reachable from the start;
    the tool, model, MCP server and remote agent a node of that kind names are
    defined; the dispatch marker is where it belongs, branch expressions and queue
    names are usable, and every approval deadline can be honoured. The verdict does
    not depend on the order the maps are iterated in. That is less than the
    validator's own documentation lists: it does not check that a terminal node can
    be reached, nor that an agent a node names is defined ([endless_ir_accepted]). *)
Theorem validate_workflow_correct `{!JsonText, !IterOrder string} (ir : WorkflowIr) :
  validate_workflow ir = Ok tt ↔ passes_checks ir.
Proof. apply validate_workflow_ok. Qed.

(** The deadline of a stack of policy levels. An unusable level refuses
    the whole stack; otherwise a deadline is set exactly when some level sets
    one, it is a timeout some level asked for and no longer than any level's (a
    level can only shorten it), it fits the ceiling, and escalation is the
    earliest asked for, kept only when it fires before the deadline and
    reported as dropped when not. *)
Theorem resolve_deadline (sets : list PolicySetIr) :
  (is_ok (resolve sets) = true ↔ ∀ p, p ∈ sets → validate_approval_deadline p = Ok tt)
  ∧ ∀ r, resolve sets = Ok r →
    (deadline r = None ↔ ∀ p, p ∈ sets → approval_timeout_secs p = None)
    ∧ (∀ d, deadline r = Some d →
         (∃ p, p ∈ sets ∧ approval_timeout_secs p = Some (timeout_secs d))
         ∧ (∀ p t, p ∈ sets → approval_timeout_secs p = Some t → timeout_secs d ≤ t)
         ∧ 1 ≤ timeout_secs d ≤ MAX_APPROVAL_TIMEOUT_SECS
         ∧ (∀ p e, p ∈ sets → escalate_after_secs p = Some e →
              ∃ k, k ≤ e ∧ if decide (k < timeout_secs d)
                           then dl_escalate_after_secs d = Some k
                                ∧ dropped_escalation_secs r = None
                           else dl_escalate_after_secs d = None
                                ∧ dropped_escalation_secs r = Some k)
         ∧ (∀ e, dl_escalate_after_secs d = Some e →
              1 ≤ e < timeout_secs d
              ∧ ∃ p, p ∈ sets ∧ escalate_after_secs p = Some e)).
Proof.
  unfold resolve. destruct (try_for_each validate_approval_deadline sets) as [[]|e] eqn:Hall.
  2:{ split; [|done]. split; [done|]. intros Hok%try_for_each_ok. congruence. }
  rewrite try_for_each_ok in Hall. split.
  { split; [done|]. intros _. repeat case_match; done. }
  destruct (iter_min (omap approval_timeout_secs sets)) as [t|] eqn:Ht.
  2:{ apply iter_min_none in Ht. intros r [= <-]. simpl. split; [|done].
      split; [|done]. intros _ p Hp. destruct (approval_timeout_secs p) as [t|] eqn:Hpt; [|done].
      assert (t ∈ omap approval_timeout_secs sets) as Hin by (apply list_elem_of_omap; eauto).
      rewrite Ht in Hin. by apply not_elem_of_nil in Hin. }
  apply iter_min_some in Ht as [(pt & Hpt & Hptt)%list_elem_of_omap Hmin].
  intros r Hr.
  assert (∃ esc dropped, r = {| deadline := Some {| timeout_secs := t; dl_escalate_after_secs := esc |};
                         dropped_escalation_secs := dropped |}
      ∧ match iter_min (omap escalate_after_secs sets) with
        | Some e => if decide (e < t) then esc = Some e ∧ dropped = None
                    else esc = None ∧ dropped = Some e
        | None => esc = None ∧ dropped = None end) as (esc & dropped & -> & Hesc).
  { destruct (iter_min (omap escalate_after_secs sets)); repeat case_decide; simplify_eq; eauto 10. }
  clear Hr. simpl. split.
  { split; [done|]. intros Hx. rewrite (Hx pt Hpt) in Hptt. done. }
  intros d [= <-]. simpl. split_and!.
  - eauto.
  - intros p t' Hp Ht'. apply Hmin, list_elem_of_omap. eauto.
  - by apply (validate_approval_deadline_bounds pt (Hall _ Hpt)).
  - by apply (validate_approval_deadline_bounds pt (Hall _ Hpt)).
  - intros p e Hp He. assert (e ∈ omap escalate_after_secs sets) as Hin
      by (apply list_elem_of_omap; eauto).
    destruct (iter_min _) as [k|] eqn:Hk.
    + apply iter_min_some in Hk as [_ Hk]. eauto.
    + apply iter_min_none in Hk. rewrite Hk in Hin. by apply not_elem_of_nil in Hin.
  - destruct (iter_min _) as [k|] eqn:Hk; [|naive_solver].
    apply iter_min_some in Hk as [(p & Hp & Hpe)%list_elem_of_omap _].
    intros e ->. case_decide; [|naive_solver]. destruct Hesc as [[= ->] _]. split; [|eauto].
    destruct (validate_approval_deadline_bounds p (Hall _ Hp)) as [_ Hb].
    destruct (Hb _ Hpe) as (? & _ & ?). lia.
Qed.

Lemma resolve_deadline_witness :
  let lvl t e := {| blocked_tools := []; require_approval_for := []; model_allowlist := [];
                    approval_timeout_secs := t; escalate_after_secs := e |} in
  timeout_secs {| timeout_secs := 60; dl_escalate_after_secs := None |} ≤ 600.
Proof.
  intros lvl.
  destruct (resolve_deadline [lvl (Some 600) (Some 300); lvl (Some 60) None]) as [_ Hr].
  destruct (Hr {| deadline := Some {| timeout_secs := 60; dl_escalate_after_secs := None |};
                  dropped_escalation_secs := Some 300 |} eq_refl) as [_ Hd].
  destruct (Hd _ eq_refl) as (_ & Hmin & _).
  apply (Hmin (lvl (Some 600) (Some 300)) 600); [left|reflexivity].
Defined.
