(* ===== verification/Event.v ===== *)
(** * The event log's data ([state/src/event.rs])

    An execution's history is a list of [Event]s; every fold of the runtime
    (materialized state, approvals, scheduler progress) reads it. *)

From S2P Require Import Prelude.
From S2P Require Import Json.
From S2P Require Import Core.

(** [EventSequence]: an i64. *)
Abbreviation EventSequence := Z (only parsing).

Record ProvenanceMetadata := {
  model_id : option string;
  model_version : option string;
  confidence : option f64;
  verified : bool;
  source : option string;
  trust_domain : option string;
  evidence_refs : list string;
}.

Inductive ApprovalDecision := Approved | Rejected.

#[export] Instance ApprovalDecision_eq_dec : EqDecision ApprovalDecision.
Proof. solve_decision. Defined.

(** The principal an expired approval request is rejected by. *)
Definition DEADLINE_PRINCIPAL : string := "system:deadline".

Module EventKind.
Inductive EventKind :=
(* workflow lifecycle *)
| WorkflowStarted (workflow_id workflow_version : string) (initial_input : Value)
    (initiated_by : option string)
| WorkflowCompleted (final_state : Value)
| WorkflowFailed (error : string)
| WorkflowCancelled (reason : option string)
(* node lifecycle *)
| NodeScheduled (node_id : NodeId) (queue_type : string)
| NodeStarted (node_id : NodeId) (worker_id : string) (attempt : Z)
| NodeCompleted (node_id : NodeId) (output state_patch : Value) (duration_ms : Z)
    (gen_ai_system gen_ai_model : option string) (input_tokens output_tokens : option Z)
    (finish_reason : option string) (cost_usd : option f64)
    (provenance : option ProvenanceMetadata) (idempotency_key : option string)
| NodeFailed (node_id : NodeId) (error : string) (attempt : Z) (retryable : bool)
| NodeParked (node_id : NodeId) (attempt : Z) (retry_after : string)
| NodeSkipped (node_id : NodeId) (reason : string)
| NodeCancelled (node_id : NodeId)
| RetryScheduled (node_id : NodeId) (attempt delay_ms : Z)
(* human approval *)
| InterruptRaised (node_id : NodeId) (reason : string) (state_for_review : Value)
| ApprovalReceived (node_id : NodeId) (user_id : string) (decision : ApprovalDecision)
    (comment : option string) (state_patch : option Value) (principal : option string)
    (approved_digest : option string) (request_sequence : option Z)
(* timers, external events, child workflows *)
| TimerCreated (node_id : NodeId) (fire_at : DateTime) (correlation_key : option string)
| TimerFired (node_id : NodeId) (correlation_key : option string)
| ExternalEventReceived (correlation_key : string) (payload : Value)
| ChildWorkflowStarted (node_id : NodeId) (child_execution_id child_workflow_id : string)
| ChildWorkflowCompleted (node_id : NodeId) (child_execution_id : string) (result : Value)
| ChildWorkflowFailed (node_id : NodeId) (child_execution_id error : string)
(* budget and autonomy *)
| BudgetExceeded (node_id : NodeId) (kind : string) (limit current : Z)
| TokenBudgetExceeded (node_id : NodeId) (kind : string) (limit current : Z)
| CostBudgetExceeded (node_id : NodeId) (limit_usd current_usd : f64)
| AutonomyLimitReached (node_id : NodeId) (agent_ref limit_type : string)
    (limit_value actual_value : Value)
| CircuitBreakerTripped (node_id : NodeId) (agent_ref : string)
    (consecutive_errors threshold : Z)
| AgentStepAdmitted (node_id : NodeId) (work_item_id : option Uuid) (agents : list string)
    (tool_calls : Z) (approval_sequence : option Z)
| EscalationRequired (node_id : NodeId) (agent_ref reason escalation_target : string)
(* policy *)
| PolicyViolation (node_id : NodeId) (rule decision policy_scope : string)
| ToolApprovalRequired (node_id : NodeId) (tool_name approver : string) (context : Value)
| ApprovalExpired (node_id : NodeId) (request_sequence : Z) (expires_at : DateTime)
    (principal : string)
| ApprovalEscalated (node_id : NodeId) (request_sequence : Z)
    (escalate_at expires_at : DateTime)
| AuditSealFailed (event_id : Uuid) (sequence : Z) (event_type error : string)
| RunStalled (reason : string)
(* reasoning strategies *)
| StrategyStarted (strategy : string) (config : Value)
| PlanGenerated (steps : list string)
| IterationStarted (iteration : Z)
| ToolCalled (node_id : NodeId) (tool : string)
| CriticVerdict (node_id : NodeId) (score : f64) (passed : bool) (feedback : option string)
| IterationCompleted (iteration : Z) (cost_delta_usd : option f64)
    (input_tokens output_tokens : Z)
| StrategyLimitHit (limit_type : string) (limit_value actual_value : Value)
| StrategyCompleted (iterations : Z) (total_cost_usd : option f64)
(* coordinator *)
| CoordinatorDiscovery (node_id : NodeId) (query_skills : list string)
    (query_trust_domain : option string) (candidates filtered_out : list Value)
| CoordinatorScoring (node_id : NodeId) (rankings : list Value) (spread : f64)
    (weights : Value)
| CoordinatorDecision (node_id : NodeId) (selected : option string) (method : string)
    (reasoning : option string) (confidence : f64) (rejected : list Value)
    (tiebreaker_tokens : option Value) (tiebreaker_cost : option f64)
(* agent as tool *)
| AgentToolInvoked (node_id : NodeId) (agent_uri mode protocol input_hash : string)
| AgentToolProgress (node_id : NodeId) (chunk_index : Z) (partial_output_summary : string)
| AgentToolTurn (node_id : NodeId) (turn_number : Z) (direction content_summary : string)
    (tokens : Z) (cost : f64)
| AgentToolCompleted (node_id : NodeId) (output : Value) (provenance : option Value)
    (total_cost : f64) (latency_ms : Z) (total_turns : option Z)
| AgentToolTerminated (node_id : NodeId) (reason : string) (chunks_received : Z)
    (partial_output : option Value) (cost : f64)
| AgentToolFailed (node_id : NodeId) (failure_type message : string) (retryable : bool)
| SegmentBoundary (segment_number : Z) (next_execution_id : string)
(* a kind this build does not know *)
| Unknown.

#[global] Instance ProvenanceMetadata_eq_dec : EqDecision ProvenanceMetadata.
Proof. solve_decision. Defined.
#[global] Instance EventKind_eq_dec : EqDecision EventKind.
Proof. intros x y; hnf; decide equality; apply (decide (_ = _)). Defined.

(** [EventKind::node_id]. *)
Definition node_id (k : EventKind) : option string :=
  match k with
  | NodeScheduled n _ | NodeStarted n _ _ | NodeCompleted n _ _ _ _ _ _ _ _ _ _ _
  | NodeFailed n _ _ _ | NodeParked n _ _ | NodeSkipped n _ | NodeCancelled n
  | RetryScheduled n _ _ | InterruptRaised n _ _ | ApprovalReceived n _ _ _ _ _ _ _
  | TimerCreated n _ _ | TimerFired n _ | BudgetExceeded n _ _ _
  | TokenBudgetExceeded n _ _ _ | CostBudgetExceeded n _ _
  | AutonomyLimitReached n _ _ _ _ | CircuitBreakerTripped n _ _ _
  | AgentStepAdmitted n _ _ _ _ | EscalationRequired n _ _ _ | PolicyViolation n _ _ _
  | ToolApprovalRequired n _ _ _ | ApprovalExpired n _ _ _ | ApprovalEscalated n _ _ _
  | ChildWorkflowStarted n _ _ | ChildWorkflowCompleted n _ _ | ChildWorkflowFailed n _ _
  | CoordinatorDiscovery n _ _ _ _ | CoordinatorScoring n _ _ _
  | CoordinatorDecision n _ _ _ _ _ _ _ | AgentToolInvoked n _ _ _ _
  | AgentToolProgress n _ _ | AgentToolTurn n _ _ _ _ _ | AgentToolCompleted n _ _ _ _ _
  | AgentToolTerminated n _ _ _ _ | AgentToolFailed n _ _ _ => Some n
  | _ => None
  end.
(** The value of the serde tag [type], in snake case. *)
Definition type_tag (k : EventKind) : string :=
  match k with
  | WorkflowStarted _ _ _ _ => "workflow_started"
  | WorkflowCompleted _ => "workflow_completed"
  | WorkflowFailed _ => "workflow_failed"
  | WorkflowCancelled _ => "workflow_cancelled"
  | NodeScheduled _ _ => "node_scheduled"
  | NodeStarted _ _ _ => "node_started"
  | NodeCompleted _ _ _ _ _ _ _ _ _ _ _ _ => "node_completed"
  | NodeFailed _ _ _ _ => "node_failed"
  | NodeParked _ _ _ => "node_parked"
  | NodeSkipped _ _ => "node_skipped"
  | NodeCancelled _ => "node_cancelled"
  | RetryScheduled _ _ _ => "retry_scheduled"
  | InterruptRaised _ _ _ => "interrupt_raised"
  | ApprovalReceived _ _ _ _ _ _ _ _ => "approval_received"
  | TimerCreated _ _ _ => "timer_created"
  | TimerFired _ _ => "timer_fired"
  | ExternalEventReceived _ _ => "external_event_received"
  | ChildWorkflowStarted _ _ _ => "child_workflow_started"
  | ChildWorkflowCompleted _ _ _ => "child_workflow_completed"
  | ChildWorkflowFailed _ _ _ => "child_workflow_failed"
  | BudgetExceeded _ _ _ _ => "budget_exceeded"
  | TokenBudgetExceeded _ _ _ _ => "token_budget_exceeded"
  | CostBudgetExceeded _ _ _ => "cost_budget_exceeded"
  | AutonomyLimitReached _ _ _ _ _ => "autonomy_limit_reached"
  | CircuitBreakerTripped _ _ _ _ => "circuit_breaker_tripped"
  | AgentStepAdmitted _ _ _ _ _ => "agent_step_admitted"
  | EscalationRequired _ _ _ _ => "escalation_required"
  | PolicyViolation _ _ _ _ => "policy_violation"
  | ToolApprovalRequired _ _ _ _ => "tool_approval_required"
  | ApprovalExpired _ _ _ _ => "approval_expired"
  | ApprovalEscalated _ _ _ _ => "approval_escalated"
  | AuditSealFailed _ _ _ _ => "audit_seal_failed"
  | RunStalled _ => "run_stalled"
  | StrategyStarted _ _ => "strategy_started"
  | PlanGenerated _ => "plan_generated"
  | IterationStarted _ => "iteration_started"
  | ToolCalled _ _ => "tool_called"
  | CriticVerdict _ _ _ _ => "critic_verdict"
  | IterationCompleted _ _ _ _ => "iteration_completed"
  | StrategyLimitHit _ _ _ => "strategy_limit_hit"
  | StrategyCompleted _ _ => "strategy_completed"
  | CoordinatorDiscovery _ _ _ _ _ => "coordinator_discovery"
  | CoordinatorScoring _ _ _ _ => "coordinator_scoring"
  | CoordinatorDecision _ _ _ _ _ _ _ _ => "coordinator_decision"
  | AgentToolInvoked _ _ _ _ _ => "agent_tool_invoked"
  | AgentToolProgress _ _ _ => "agent_tool_progress"
  | AgentToolTurn _ _ _ _ _ _ => "agent_tool_turn"
  | AgentToolCompleted _ _ _ _ _ _ => "agent_tool_completed"
  | AgentToolTerminated _ _ _ _ _ => "agent_tool_terminated"
  | AgentToolFailed _ _ _ _ => "agent_tool_failed"
  | SegmentBoundary _ _ => "segment_boundary"
  | Unknown => "unknown"
  end.
End EventKind.
Abbreviation EventKind := EventKind.EventKind.

Record Event := {
  event_id : Uuid;
  event_execution_id : ExecutionId;
  sequence : EventSequence;
  event_kind : EventKind;
  created_at : DateTime;
}.

#[export] Instance Event_eq_dec : EqDecision Event.
Proof. solve_decision. Defined.

(** [Event::new]: a fresh id, stamped with the clock. *)
Definition Event_new `{UuidOps} {S E} (execution_id : ExecutionId)
    (sequence : EventSequence) (kind : EventKind) : eff S E Event :=
  id ← new_v4; now ← utc_now;
  mret {| event_id := id; event_execution_id := execution_id; sequence := sequence;
          event_kind := kind; created_at := now |}.

(** [Event] updates the store makes. *)
Definition set_sequence (ev : Event) (s : EventSequence) : Event :=
  {| event_id := event_id ev; event_execution_id := event_execution_id ev; sequence := s;
     event_kind := event_kind ev; created_at := created_at ev |}.
