(* ===== verification/Materializer.v ===== *)
(** * Materialized state and snapshots ([state/src/materializer.rs],
    [state/src/snapshot.rs])

    The state of an execution is the fold of its events; a snapshot stores a
    prefix of that fold. *)

From S2P Require Import Prelude.
From S2P Require Import Json.
From S2P Require Import Core.
From S2P Require Import Event.

Record MaterializedState := {
  mat_current_state : Value;
  mat_status : WorkflowStatus;
  completed_nodes : gmap string Value;
  active_nodes : gset string;
  last_sequence : EventSequence;
}.

Record Snapshot := {
  snap_id : Uuid;
  snap_execution_id : ExecutionId;
  at_sequence : EventSequence;
  snap_state : Value;
  snap_status : WorkflowStatus;
  snap_completed_nodes : gmap string Value;
  snap_active_nodes : gset string;
  snap_last_sequence : EventSequence;
  snap_created_at : DateTime;
}.

Definition DEFAULT_SNAPSHOT_INTERVAL : Z := 50.

Section Constructors.
Context `{UuidOps} {S E : Type}.

(** [Snapshot::new]. *)
Definition Snapshot_new (execution_id : ExecutionId) (at_ : EventSequence) (state : Value)
    : eff S E Snapshot :=
  id ← new_v4; now ← utc_now;
  mret {| snap_id := id; snap_execution_id := execution_id; at_sequence := at_;
          snap_state := state; snap_status := WorkflowStatus.Pending;
          snap_completed_nodes := ∅; snap_active_nodes := ∅;
          snap_last_sequence := at_; snap_created_at := now |}.

(** [Snapshot::seed_for_segment]. *)
Definition seed_for_segment (execution_id : ExecutionId) (current_state : Value)
    : eff S E Snapshot :=
  id ← new_v4; now ← utc_now;
  mret {| snap_id := id; snap_execution_id := execution_id; at_sequence := 0;
          snap_state := current_state; snap_status := WorkflowStatus.Running;
          snap_completed_nodes := ∅; snap_active_nodes := ∅;
          snap_last_sequence := 0; snap_created_at := now |}.

(** [Snapshot::from_materialized]. *)
Definition from_materialized (execution_id : ExecutionId) (mat : MaterializedState)
    : eff S E Snapshot :=
  id ← new_v4; now ← utc_now;
  mret {| snap_id := id; snap_execution_id := execution_id;
          at_sequence := last_sequence mat; snap_state := mat_current_state mat;
          snap_status := mat_status mat; snap_completed_nodes := completed_nodes mat;
          snap_active_nodes := active_nodes mat; snap_last_sequence := last_sequence mat;
          snap_created_at := now |}.
End Constructors.

(** One turn of [apply_events_seeded]'s loop: the sequence first, then the kind. *)
Definition apply_event (base : MaterializedState) (event : Event) : MaterializedState :=
  let '{| mat_current_state := current_state; mat_status := status;
          completed_nodes := completed; active_nodes := active;
          last_sequence := last |} := base in
  let last := Z.max last (sequence event) in
  let mk s st c a := {| mat_current_state := s; mat_status := st; completed_nodes := c;
                        active_nodes := a; last_sequence := last |} in
  match event_kind event with
  | EventKind.WorkflowStarted _ _ _ _ =>
      mk current_state WorkflowStatus.Running completed active
  | EventKind.WorkflowCompleted final_state =>
      mk final_state WorkflowStatus.Completed completed active
  | EventKind.WorkflowFailed _ => mk current_state WorkflowStatus.Failed completed active
  | EventKind.WorkflowCancelled _ =>
      mk current_state WorkflowStatus.Cancelled completed active
  | EventKind.StrategyLimitHit _ _ _ =>
      mk current_state WorkflowStatus.LimitExceeded completed active
  | EventKind.NodeScheduled node_id _ | EventKind.NodeStarted node_id _ _ =>
      mk current_state status completed ({[node_id]} ∪ active)
  | EventKind.NodeCompleted node_id output state_patch _ _ _ _ _ _ _ _ _ =>
      mk (json_merge_patch current_state state_patch) status
         (<[node_id := output]> completed) (active ∖ {[node_id]})
  | EventKind.NodeFailed node_id _ _ _ | EventKind.NodeSkipped node_id _
  | EventKind.NodeCancelled node_id =>
      mk current_state status completed (active ∖ {[node_id]})
  | EventKind.InterruptRaised _ _ _ =>
      mk current_state (if decide (status = WorkflowStatus.Running)
                        then WorkflowStatus.Paused else status) completed active
  | EventKind.ApprovalReceived _ _ _ _ state_patch _ _ _ =>
      mk match state_patch with
         | Some patch => json_merge_patch current_state patch
         | None => current_state
         end WorkflowStatus.Running completed active
  | _ => mk current_state status completed active
  end.

Definition apply_events_seeded (base : MaterializedState) (events : list Event)
    : MaterializedState := foldl apply_event base events.

(** The base an execution without a snapshot starts from. *)
Definition origin (initial_input : Value) : MaterializedState :=
  {| mat_current_state := initial_input; mat_status := WorkflowStatus.Pending;
     completed_nodes := ∅; active_nodes := ∅; last_sequence := 0 |}.

Definition apply_events (current_state : Value) (events : list Event)
    (_initial_status : WorkflowStatus) : MaterializedState :=
  apply_events_seeded (origin current_state) events.

(** The base a snapshot restores. *)
Definition of_snapshot (snap : Snapshot) : MaterializedState :=
  {| mat_current_state := snap_state snap; mat_status := snap_status snap;
     completed_nodes := snap_completed_nodes snap; active_nodes := snap_active_nodes snap;
     last_sequence := snap_last_sequence snap |}.

(** [materialize] over what the backend returns: the execution, the latest
    snapshot, and the events after a sequence. *)
Definition materialize_from (initial_input : Value) (snap : option Snapshot)
    (get_events_since : EventSequence → list Event) : MaterializedState :=
  let '(base, base_sequence) :=
    match snap with
    | Some snap => (of_snapshot snap, at_sequence snap)
    | None => (origin initial_input, 0)
    end in
  apply_events_seeded base (get_events_since base_sequence).

Definition should_snapshot (events_since_snapshot : Z) : bool :=
  bool_decide (DEFAULT_SNAPSHOT_INTERVAL ≤ events_since_snapshot).

(** ** The fold's laws *)

(** The events with a sequence after [n]. *)
Definition events_after (n : Z) (evs : list Event) : list Event :=
  base.filter (λ ev, n < sequence ev) evs.

(** Sequences increase along the log. *)
Definition log_sorted (evs : list Event) : Prop :=
  StronglySorted (λ a b, sequence a < sequence b) evs.

Lemma apply_events_seeded_app base evs1 evs2 :
  apply_events_seeded base (evs1 ++ evs2) =
  apply_events_seeded (apply_events_seeded base evs1) evs2.
Proof. apply foldl_app. Qed.

Lemma apply_event_last_sequence base ev :
  last_sequence (apply_event base ev) = Z.max (last_sequence base) (sequence ev).
Proof. destruct base, ev as [? ? ? []]; done. Qed.

Lemma last_sequence_apply_events base evs :
  last_sequence (apply_events_seeded base evs) =
  foldl Z.max (last_sequence base) (sequence <$> evs).
Proof.
  revert base; induction evs as [|ev evs IH]; intros base; [done|].
  change (last_sequence (apply_events_seeded (apply_event base ev) evs) =
          foldl Z.max (last_sequence base) (sequence <$> ev :: evs)).
  rewrite IH. simpl. by rewrite apply_event_last_sequence.
Qed.

Lemma foldl_max_ge l (x : Z) : x ≤ foldl Z.max x l.
Proof. revert x; induction l as [|y l IH]; simpl; intros x; [lia|]. specialize (IH (Z.max x y)). lia. Qed.

Lemma foldl_max_elem l (x y : Z) : y ∈ l → y ≤ foldl Z.max x l.
Proof.
  revert x; induction l as [|z l IH]; intros x Hin; [by apply not_elem_of_nil in Hin|].
  apply elem_of_cons in Hin as [->|Hin]; simpl; [|by apply IH].
  pose proof (foldl_max_ge l (Z.max x z)). lia.
Qed.

Lemma foldl_max_le l (x b : Z) : x ≤ b → (∀ y, y ∈ l → y ≤ b) → foldl Z.max x l ≤ b.
Proof.
  revert x; induction l as [|z l IH]; simpl; intros x Hx Hl; [done|].
  apply IH; [|set_solver]. apply Z.max_lub; [done|]. apply Hl. left.
Qed.

Lemma events_after_app n evs1 evs2 :
  events_after n (evs1 ++ evs2) = events_after n evs1 ++ events_after n evs2.
Proof. apply list.filter_app. Qed.

Lemma events_after_all n evs :
  (∀ ev, ev ∈ evs → n < sequence ev) → events_after n evs = evs.
Proof.
  induction evs as [|ev evs IH]; intros Hall; [done|]. unfold events_after.
  rewrite filter_cons_True by (apply Hall; left). f_equal. apply IH. intros; apply Hall. by right.
Qed.

Lemma events_after_none n evs :
  (∀ ev, ev ∈ evs → sequence ev ≤ n) → events_after n evs = [].
Proof.
  induction evs as [|ev evs IH]; intros Hall; [done|]. unfold events_after.
  rewrite filter_cons_False by (apply Z.le_ngt, Hall; left).
  apply IH. intros; apply Hall. by right.
Qed.

Lemma log_sorted_app evs1 evs2 :
  log_sorted (evs1 ++ evs2) ↔
    log_sorted evs1 ∧ log_sorted evs2
    ∧ ∀ a b, a ∈ evs1 → b ∈ evs2 → sequence a < sequence b.
Proof.
  unfold log_sorted. induction evs1 as [|e evs1 IH]; simpl.
  { split; [intros; split_and!; [constructor|done|set_solver]|naive_solver]. }
  split.
  - intros Hs. apply StronglySorted_inv in Hs as [Hs Hf].
    apply IH in Hs as (H1 & H2 & H3). rewrite Forall_app in Hf. destruct Hf as [Hf1 Hf2].
    split_and!; [by constructor|done|].
    intros a b [->|Ha]%elem_of_cons Hb; [|by apply H3].
    rewrite Forall_forall in Hf2. by apply Hf2.
  - intros ([H1 Hf]%StronglySorted_inv & H2 & H3). constructor.
    + apply IH. split_and!; [done|done|]. intros; apply H3; [by right|done].
    + apply Forall_app; split; [done|]. apply Forall_forall. intros; apply H3; [left|done].
Qed.

(** In a sorted log a sequence names one event. *)
Lemma log_sorted_inj evs a b :
  log_sorted evs → a ∈ evs → b ∈ evs → sequence a = sequence b → a = b.
Proof.
  intros Hs Ha Hb Heq. apply list_elem_of_split in Ha as (l1 & l2 & ->).
  apply log_sorted_app in Hs as (_ & [_ Hf]%StronglySorted_inv & Hlt).
  rewrite Forall_forall in Hf.
  apply elem_of_app in Hb as [Hb|[->|Hb]%elem_of_cons]; [|done|].
  - specialize (Hlt b a Hb (list_elem_of_here _ _)). lia.
  - specialize (Hf b Hb). simpl in Hf. lia.
Qed.

(** The snapshot of a prefix of a sorted log restores that prefix's fold. *)
Definition snapshot_of_prefix (initial_input : Value) (evs : list Event) (snap : Snapshot) : Prop :=
  ∃ pre post, evs = pre ++ post
    ∧ of_snapshot snap = apply_events_seeded (origin initial_input) pre
    ∧ at_sequence snap = snap_last_sequence snap.

(** ** Properties *)

(** Resuming from a snapshot loses nothing. For a log whose sequences
    increase from 1, [materialize] from a snapshot of any prefix equals the
    replay of the whole log from the initial input. *)
Theorem materialize_snapshot_correct (initial_input : Value) (evs : list Event)
    (snap : Snapshot) :
  log_sorted evs → (∀ ev, ev ∈ evs → 0 < sequence ev) →
  snapshot_of_prefix initial_input evs snap →
  materialize_from initial_input (Some snap) (λ n, events_after n evs) =
  apply_events initial_input evs WorkflowStatus.Pending.
Proof.
  intros Hs Hpos (pre & post & -> & Hsnap & Hat). unfold materialize_from, apply_events.
  rewrite apply_events_seeded_app, <- Hsnap. f_equal.
  assert (Hlast : at_sequence snap = foldl Z.max 0 (sequence <$> pre)).
  { rewrite Hat. change (snap_last_sequence snap) with (last_sequence (of_snapshot snap)).
    by rewrite Hsnap, last_sequence_apply_events. }
  apply log_sorted_app in Hs as (_ & _ & Hlt).
  rewrite events_after_app, events_after_none, events_after_all; [done| |].
  - intros ev Hev. rewrite Hlast.
    destruct pre as [|p pre]; [apply Hpos; set_solver|].
    assert (foldl Z.max 0 (sequence <$> p :: pre) ≤ sequence ev - 1); [|lia].
    apply foldl_max_le.
    + assert (0 < sequence ev); [apply Hpos; set_solver|lia].
    + intros y (e & -> & He)%list_elem_of_fmap. specialize (Hlt e ev He Hev). lia.
  - intros ev Hev. rewrite Hlast. by apply foldl_max_elem, list_elem_of_fmap_2.
Qed.

Lemma materialize_snapshot_witness :
  let ev s k := {| event_id := 0; event_execution_id := mkExecutionId 7; sequence := s;
                   event_kind := k; created_at := 0 |} in
  let e1 := ev 1 (EventKind.WorkflowStarted "w" "1.0.0" Null None) in
  let e2 := ev 2 (EventKind.NodeScheduled "a" "tool") in
  let snap := {| snap_id := 0; snap_execution_id := mkExecutionId 7; at_sequence := 1;
                 snap_state := Null; snap_status := WorkflowStatus.Running;
                 snap_completed_nodes := ∅; snap_active_nodes := ∅;
                 snap_last_sequence := 1; snap_created_at := 0 |} in
  materialize_from Null (Some snap) (λ n, events_after n [e1; e2]) =
  apply_events Null [e1; e2] WorkflowStatus.Pending.
Proof.
  intros ev e1 e2 snap. apply materialize_snapshot_correct.
  - repeat constructor.
  - intros e [->|[->|[]%not_elem_of_nil]%elem_of_cons]%elem_of_cons; reflexivity.
  - exists [e1], [e2]. split_and!; reflexivity.
Defined.
