(* ===== verification/Budget.v ===== *)
(** * The budget accumulator ([state/src/budget.rs])

    Token and cost counters of an execution, kept under [__budget] in its
    state, and the predicate that refuses the next billable node. *)

From S2P Require Import Prelude.
From S2P Require Import Json.
From S2P Require Import Ir.

Record BudgetState := {
  total_input_tokens : Z;
  total_output_tokens : Z;
  total_cost_usd : f64;
  iteration_count : Z;
  tool_call_count : Z;
  consecutive_error_count : Z;
  circuit_breaker_tripped : bool;
}.

Definition BudgetState_default : BudgetState := {|
  total_input_tokens := 0; total_output_tokens := 0; total_cost_usd := f64_zero;
  iteration_count := 0; tool_call_count := 0; consecutive_error_count := 0;
  circuit_breaker_tripped := false |}.

Definition total_tokens (self : BudgetState) : Z :=
  u64_add (total_input_tokens self) (total_output_tokens self).

(** ** JSON form: the derived [Serialize] and [Deserialize] *)

Definition f64_is_finite (f : f64) : bool :=
  match f with S754_nan | S754_infinity _ => false | _ => true end.

(** [serde_json] writes a double that is not finite as [null]. *)
Definition f64_to_value (f : f64) : Value :=
  if f64_is_finite f then Num (Float f) else Null.

Definition u64_from_value (max : Z) (v : Value) : option Z :=
  match v with
  | Num (PosInt n) => if decide (n ≤ max) then Some n else None
  | _ => None
  end.
Definition f64_from_value (v : Value) : option f64 :=
  match v with
  | Num (Float f) => Some f
  | Num (PosInt n) | Num (NegInt n) => Some (f64_of_Z n)
  | _ => None
  end.
Definition bool_from_value (v : Value) : option bool :=
  match v with Bool b => Some b | _ => None end.

Definition to_value (self : BudgetState) : Value :=
  obj [("total_input_tokens", num (total_input_tokens self));
       ("total_output_tokens", num (total_output_tokens self));
       ("total_cost_usd", f64_to_value (total_cost_usd self));
       ("iteration_count", num (iteration_count self));
       ("tool_call_count", num (tool_call_count self));
       ("consecutive_error_count", num (consecutive_error_count self));
       ("circuit_breaker_tripped", Bool (circuit_breaker_tripped self))].

Definition from_fields (a b c d e f g : Value) : option BudgetState :=
  a ← u64_from_value u64_max a; b ← u64_from_value u64_max b; c ← f64_from_value c;
  d ← u64_from_value u32_max d; e ← u64_from_value u32_max e;
  f ← u64_from_value u32_max f; g ← bool_from_value g;
  Some {| total_input_tokens := a; total_output_tokens := b; total_cost_usd := c;
          iteration_count := d; tool_call_count := e; consecutive_error_count := f;
          circuit_breaker_tripped := g |}.

(** A struct is read from an object with every field, or from an array of them. *)
Definition from_value (v : Value) : option BudgetState :=
  match v with
  | Object m =>
      a ← map_get "total_input_tokens" m; b ← map_get "total_output_tokens" m;
      c ← map_get "total_cost_usd" m; d ← map_get "iteration_count" m;
      e ← map_get "tool_call_count" m; f ← map_get "consecutive_error_count" m;
      g ← map_get "circuit_breaker_tripped" m;
      from_fields a b c d e f g
  | Array [a; b; c; d; e; f; g] => from_fields a b c d e f g
  | _ => None
  end.

Definition from_snapshot_state (state : Value) : BudgetState :=
  default BudgetState_default (v ← get "__budget" state; from_value v).

Definition patch_into_snapshot_state (self : BudgetState) (state : Value) : Value :=
  match state with
  | Object m => Object (map_insert "__budget" (to_value self) m)
  | _ => state
  end.

(** ** Counting *)

Definition accumulate (self : BudgetState) (input_tokens output_tokens : option Z)
    (cost_usd : option f64) : BudgetState :=
  {| total_input_tokens := u64_add (total_input_tokens self) (default 0 input_tokens);
     total_output_tokens := u64_add (total_output_tokens self) (default 0 output_tokens);
     total_cost_usd := f64_add (total_cost_usd self) (default f64_zero cost_usd);
     iteration_count := iteration_count self; tool_call_count := tool_call_count self;
     consecutive_error_count := consecutive_error_count self;
     circuit_breaker_tripped := circuit_breaker_tripped self |}.

Definition with_errors (self : BudgetState) (n : Z) : BudgetState :=
  {| total_input_tokens := total_input_tokens self;
     total_output_tokens := total_output_tokens self;
     total_cost_usd := total_cost_usd self; iteration_count := iteration_count self;
     tool_call_count := tool_call_count self; consecutive_error_count := n;
     circuit_breaker_tripped := circuit_breaker_tripped self |}.
Definition record_success (self : BudgetState) : BudgetState := with_errors self 0.
Definition record_error (self : BudgetState) : BudgetState :=
  with_errors self (u32_add (consecutive_error_count self) 1).

Record BudgetTrip := { trip_kind : string; limit : f64; current : f64 }.

(** A token ceiling: [Some] trip when the counter has reached it. *)
Definition token_trip (kind : string) (limit : option Z) (current : Z) : option BudgetTrip :=
  match limit with
  | Some limit =>
      if decide (limit ≤ current)
      then Some {| trip_kind := kind; limit := f64_of_Z limit; current := f64_of_Z current |}
      else None
  | None => None
  end.

Definition exhausted (self : BudgetState) (token_budget : option TokenBudgetIr)
    (cost_budget_usd : option f64) : option BudgetTrip :=
  let tokens :=
    match token_budget with
    | Some tb =>
        match token_trip "total_tokens" (tb_total_tokens tb) (total_tokens self) with
        | Some t => Some t
        | None =>
            match token_trip "input_tokens" (tb_input_tokens tb) (total_input_tokens self) with
            | Some t => Some t
            | None => token_trip "output_tokens" (tb_output_tokens tb) (total_output_tokens self)
            end
        end
    | None => None
    end in
  match tokens with
  | Some t => Some t
  | None =>
      match cost_budget_usd with
      | Some limit =>
          if f64_is_nan (total_cost_usd self) || f64_is_nan limit
             || f64_le limit (total_cost_usd self)
          then Some {| trip_kind := "cost_usd"; limit := limit;
                       current := total_cost_usd self |}
          else None
      | None => None
      end
  end.

(** ** Lemmas *)

(** The counters fit their machine types. *)
Record budget_wf (b : BudgetState) : Prop := {
  wf_in : 0 ≤ total_input_tokens b ≤ u64_max;
  wf_out : 0 ≤ total_output_tokens b ≤ u64_max;
  wf_iter : 0 ≤ iteration_count b ≤ u32_max;
  wf_tool : 0 ≤ tool_call_count b ≤ u32_max;
  wf_err : 0 ≤ consecutive_error_count b ≤ u32_max;
}.

Lemma from_to_value b :
  budget_wf b →
  from_value (to_value b) = if f64_is_finite (total_cost_usd b) then Some b else None.
Proof.
  intros [? ? ? ? ?]. destruct b as [i o c it tc ec cb]; simpl in *.
  unfold from_fields, u64_from_value, num. rewrite !decide_True by lia. simpl.
  unfold f64_to_value. by destruct c.
Qed.

Lemma token_trip_none kind limit current :
  token_trip kind limit current = None ↔ ∀ l, limit = Some l → current < l.
Proof. unfold token_trip. destruct limit; [case_decide|]; naive_solver lia. Qed.

(** Every ceiling of the two budgets is still above its counter. *)
Definition below_ceilings (b : BudgetState) (tb : option TokenBudgetIr) (cost : option f64) : Prop :=
  (∀ t, tb = Some t →
     (∀ l, tb_total_tokens t = Some l → total_tokens b < l)
     ∧ (∀ l, tb_input_tokens t = Some l → total_input_tokens b < l)
     ∧ (∀ l, tb_output_tokens t = Some l → total_output_tokens b < l))
  ∧ (∀ l, cost = Some l → f64_lt (total_cost_usd b) l = true).

Lemma f64_not_le_lt a b :
  f64_is_nan a || f64_is_nan b || f64_le b a = false ↔ f64_lt a b = true.
Proof.
  unfold f64_lt, f64_le, SFltb, SFleb, SFcompare.
  destruct a as [[]|[]| |[] ma ea], b as [[]|[]| |[] mb eb]; simpl; try (split; congruence).
  all: rewrite (Z.compare_antisym eb ea); fold (Pos.compare ma mb) (Pos.compare mb ma);
    rewrite (Pos.compare_antisym mb ma); destruct (eb ?= ea), (mb ?= ma)%positive;
    simpl; split; congruence.
Qed.

(** ** Properties *)

(** A node may fire exactly when every configured ceiling is strictly above
    its counter: tokens by integer comparison, cost by IEEE comparison, so a
    NaN on either side refuses the node. *)
Theorem exhausted_fails_closed (b : BudgetState) (tb : option TokenBudgetIr)
    (cost : option f64) :
  exhausted b tb cost = None ↔ below_ceilings b tb cost.
Proof.
  unfold exhausted, below_ceilings.
  assert (∀ l, (if f64_is_nan (total_cost_usd b) || f64_is_nan l || f64_le l (total_cost_usd b)
      then Some {| trip_kind := "cost_usd"; limit := l; current := total_cost_usd b |} else None)
      = None ↔ f64_lt (total_cost_usd b) l = true) as Hc.
  { intros l. rewrite <- f64_not_le_lt. by destruct (_ || _ || _). }
  assert (match cost with
    | Some l => if f64_is_nan (total_cost_usd b) || f64_is_nan l || f64_le l (total_cost_usd b)
        then Some {| trip_kind := "cost_usd"; limit := l; current := total_cost_usd b |} else None
    | None => None end = None
    ↔ (∀ l, cost = Some l → f64_lt (total_cost_usd b) l = true)) as Hcost.
  { destruct cost as [l|]; [rewrite Hc|]; naive_solver. }
  rewrite <- Hcost. clear Hc Hcost. destruct tb as [t|].
  - pose proof (token_trip_none "total_tokens" (tb_total_tokens t) (total_tokens b)) as H1.
    pose proof (token_trip_none "input_tokens" (tb_input_tokens t) (total_input_tokens b)) as H2.
    pose proof (token_trip_none "output_tokens" (tb_output_tokens t) (total_output_tokens b)) as H3.
    repeat case_match; try naive_solver.
  - naive_solver.
Qed.

(** The counters survive being kept in the state. A saved budget loads back
    unchanged when its cost is finite. A NaN or infinite cost is written as
    [null], which does not load: every counter comes back zero. *)
Theorem budget_save_load (b : BudgetState) (m : list (string * Value)) :
  budget_wf b →
  from_snapshot_state (patch_into_snapshot_state b (Object m)) =
    if f64_is_finite (total_cost_usd b) then b else BudgetState_default.
Proof.
  intros Hb. unfold patch_into_snapshot_state, from_snapshot_state, get.
  rewrite map_get_insert_eq. cbn [mbind option_bind]. rewrite from_to_value by done.
  by destruct (f64_is_finite _).
Qed.

(** A run whose cost became NaN: 10 tokens already spent are forgotten. *)
Lemma budget_save_load_witness :
  let b := accumulate BudgetState_default (Some 10) None (Some S754_nan) in
  is_Some (exhausted b None (Some (f64_of_Z 5)))
  ∧ from_snapshot_state (patch_into_snapshot_state b (Object [])) = BudgetState_default.
Proof.
  intros b. split; [eexists; vm_compute; reflexivity|].
  refine (budget_save_load b [] _). split; vm_compute; split; congruence.
Defined.
