(* ===== verification/Hashing.v ===== *)
(** * Canonical JSON and content hashes ([state/src/hashing.rs])

    The text a content hash covers, and why two different values never share
    it. SHA-256 and the text of a JSON scalar are library functions. *)

From S2P Require Import Prelude.
From S2P Require Import Json.
From S2P Require Import RustStr.
From S2P Require Import Core.
From S2P Require Import Condition.
From Stdlib Require Import Ascii.

(** [Sha256::digest]: bytes to bytes. *)
Class Sha256Ops := {
  Sha256_digest : list N → list N;
  Sha256_digest_bytes l : Forall (λ b, (b < 256)%N) (Sha256_digest l);
}.

Section Canonical.
Context `{JsonText}.

Fixpoint assoc_get (k : string) (l : list (string * string)) : string :=
  match l with
  | [] => ""
  | (k', t) :: l => if decide (k = k') then t else assoc_get k l
  end.

(** [write_canonical]: keys sorted, no whitespace. The entries' texts are
    written first, then looked up in key order. *)
Fixpoint write_canonical (value : Value) : string :=
  match value with
  | Object m =>
      let texts := (fix go m := match m with
        | [] => []
        | (k, v) :: m => (k, write_canonical v) :: go m
        end) m in
      "{" +:+ str_join "," ((λ k, json_to_string (Str k) +:+ ":" +:+ assoc_get k texts)
                              <$> sort_strings texts.*1) +:+ "}"
  | Array items =>
      "[" +:+ str_join "," ((fix go l := match l with
        | [] => []
        | v :: l => write_canonical v :: go l
        end) items) +:+ "]"
  | other => json_to_string other
  end.

Definition canonical_json (value : Value) : string := write_canonical value.

Definition hex_digit (n : N) : ascii :=
  if (n <? 10)%N then ascii_of_N (48 + n) else ascii_of_N (87 + n).

(** [format!("{byte:02x}")] for each byte. *)
Fixpoint hex (l : list N) : string :=
  match l with
  | [] => ""
  | b :: l => String (hex_digit (b / 16)) (String (hex_digit (b mod 16)) (hex l))
  end.

Context `{Sha256Ops}.

Definition sha256_hex (l : list N) : string := hex (Sha256_digest l).

Definition content_hash (value : Value) : string :=
  hex (Sha256_digest (bytes (canonical_json value))).

Definition idempotency_key (run : string) (segment step : Z) (node input_hash : string)
    : string :=
  content_hash (obj [("run", Str run); ("segment", num segment); ("step", num step);
                     ("node", Str node); ("input", Str input_hash)]).
End Canonical.

(** ** Canonical text determines the value *)

Definition is_scalar (v : Value) : bool :=
  match v with Array _ | Object _ => false | _ => true end.

(** The numbers [serde_json] can hold. *)
Definition number_wf (n : Number) : Prop :=
  match n with
  | PosInt n => 0 ≤ n ≤ u64_max
  | NegInt n => - 2 ^ 63 ≤ n < 0
  | Float f => match f with S754_nan | S754_infinity _ => False | _ => valid_binary 53 1024 f = true end
  end.

(** A value as [serde_json] holds it: maps sorted, numbers in range. *)
Fixpoint json_wf (v : Value) : Prop :=
  match v with
  | Num n => number_wf n
  | Array l => foldr (λ x P, json_wf x ∧ P) True l
  | Object m => map_sorted m ∧ foldr (λ kv P, json_wf kv.2 ∧ P) True m
  | _ => True
  end.

(** What can follow a value in canonical text. *)
Definition delim (r : string) : Prop :=
  match r with
  | "" => True
  | String c _ => c ∈ [","; "]"; "}"; ":"]%char
  end.

(** The documented behaviour of the JSON printer on scalars: the text is not
    empty, does not start like a container's, and can be read back before a
    delimiter. *)
Record scalar_text `{JsonText} : Prop := {
  scalar_starts a : is_scalar a = true →
    ∃ c s, json_to_string a = String c s ∧ c ∉ ["{"; "["; "}"; "]"; ","]%char;
  scalar_reads_back a b r r' : is_scalar a = true → is_scalar b = true →
    json_wf a → json_wf b → delim r → delim r' →
    json_to_string a +:+ r = json_to_string b +:+ r' → a = b ∧ r = r';
}.

Lemma str_app_assoc (a b c : string) : (a +:+ b) +:+ c = a +:+ (b +:+ c).
Proof. induction a as [|x a IH]; [done|]. by apply (f_equal (String x)). Qed.

Lemma str_app_nil_r (a : string) : a +:+ "" = a.
Proof. induction a as [|x a IH]; [done|]. by apply (f_equal (String x)). Qed.

(** Joined elements, closed by [e], are read back one by one. *)
Section Join.
Context {A : Type} (f : A → string) (wf : A → Prop) (e : ascii).
Context (He : e ∈ ["]"; "}"]%char).
Context (Hstart : ∀ x, wf x → ∃ c s, f x = String c s ∧ c ∉ ["}"; "]"; ","]%char).

Definition reads_back (x : A) : Prop :=
  ∀ y r r', wf y → delim r → delim r' → f x +:+ r = f y +:+ r' → x = y ∧ r = r'.

Definition join_tail (l : list A) : string :=
  match l with [] => "" | _ => "," +:+ str_join "," (f <$> l) end.

Lemma join_cons x l : str_join "," (f <$> x :: l) = f x +:+ join_tail l.
Proof. destruct l; simpl; [by rewrite str_app_nil_r|done]. Qed.

Lemma delim_tail l r : delim (join_tail l +:+ String e r).
Proof. destruct l; simpl; set_solver. Qed.

Lemma join_inj l l' r r' :
  Forall wf l → Forall reads_back l → Forall wf l' →
  str_join "," (f <$> l) +:+ String e r = str_join "," (f <$> l') +:+ String e r' →
  l = l' ∧ r = r'.
Proof.
  revert l'; induction l as [|x l IH]; intros [|y l'] Hl Hr Hl'.
  - cbn. naive_solver.
  - rewrite join_cons, str_app_assoc. apply Forall_cons in Hl' as [(c & s & -> & Hc)%Hstart _].
    cbn. intros [= -> _]. set_solver.
  - rewrite join_cons, str_app_assoc. apply Forall_cons in Hl as [(c & s & -> & Hc)%Hstart _].
    cbn. intros [= -> _]. set_solver.
  - rewrite !join_cons, !str_app_assoc. intros Heq.
    apply Forall_cons in Hl as [Hx Hl], Hl' as [Hy Hl'], Hr as [Hrx Hr].
    apply Hrx in Heq as [-> Heq]; [|done|apply delim_tail..].
    destruct l as [|z l], l' as [|z' l']; simpl in Heq.
    + naive_solver.
    + injection Heq as -> _. set_solver.
    + injection Heq as <- _. set_solver.
    + injection Heq as Heq. destruct (IH (z' :: l')) as [-> ->]; auto.
Qed.
End Join.

Section CanonicalLemmas.
Context `{JsonText}.

Lemma le_sorted_keys m : map_sorted m → StronglySorted String.le m.*1.
Proof.
  induction m as [|kv m IH]; simpl; [constructor|]. intros [Hf Hs].
  constructor; [by apply IH|]. apply Forall_fmap. eapply Forall_impl; [exact Hf|].
  intros kv' Hlt%str_ltb_spec. apply Hlt.
Qed.

Lemma sort_sorted_keys m : map_sorted m → sort_strings m.*1 = m.*1.
Proof.
  intros Hs. eapply (StronglySorted_unique String.le).
  - apply (StronglySorted_merge_sort String.le).
  - by apply le_sorted_keys.
  - apply merge_sort_Permutation.
Qed.

(** The text of an object's entry. *)
Definition entry_text (kv : string * Value) : string :=
  json_to_string (Str kv.1) +:+ ":" +:+ write_canonical kv.2.

Lemma write_canonical_array l :
  write_canonical (Array l) = "[" +:+ str_join "," (write_canonical <$> l) +:+ "]".
Proof. done. Qed.

Lemma assoc_get_sorted m k v :
  map_sorted m → (k, v) ∈ m → assoc_get k ((λ kv, (kv.1, write_canonical kv.2)) <$> m)
    = write_canonical v.
Proof.
  induction m as [|[k' v'] m IH]; intros Hs Hin; [by apply not_elem_of_nil in Hin|].
  destruct Hs as [Hf Hs]. simpl. apply elem_of_cons in Hin as [[= -> ->]|Hin].
  - by rewrite decide_True.
  - rewrite Forall_forall in Hf. specialize (Hf _ Hin). unfold key_lt in Hf. simpl in Hf.
    rewrite decide_False; [by apply IH|]. intros ->. by rewrite str_ltb_irrefl in Hf.
Qed.

Lemma write_canonical_object m :
  map_sorted m →
  write_canonical (Object m) = "{" +:+ str_join "," (entry_text <$> m) +:+ "}".
Proof.
  intros Hs.
  transitivity ("{" +:+ str_join "," ((λ k, json_to_string (Str k) +:+ ":" +:+
      assoc_get k ((λ kv, (kv.1, write_canonical kv.2)) <$> m))
      <$> sort_strings ((λ kv, (kv.1, write_canonical kv.2)) <$> m).*1) +:+ "}").
  { assert ((fix go (m : list (string * Value)) := match m with
      | [] => [] | (k, v) :: m => (k, write_canonical v) :: go m end) m =
      (λ kv, (kv.1, write_canonical kv.2)) <$> m) as Hm.
    { clear Hs. induction m as [|[k v] m IH]; [done|]. simpl. by rewrite IH. }
    simpl. by rewrite Hm. }
  do 2 f_equal. f_equal.
  rewrite <- list_fmap_compose.
  change (sort_strings (fst ∘ (λ kv : string * Value, (kv.1, write_canonical kv.2)) <$> m))
    with (sort_strings m.*1).
  rewrite sort_sorted_keys by done. rewrite <- list_fmap_compose.
  apply list_fmap_ext. intros i [k v] Hi. simpl. unfold entry_text. simpl. do 2 f_equal.
  apply assoc_get_sorted; [done|]. by eapply list_elem_of_lookup_2.
Qed.

Context (Hscalar : scalar_text).

Lemma canonical_starts v :
  json_wf v → ∃ c s, write_canonical v = String c s ∧ c ∉ ["}"; "]"; ","]%char
    ∧ (is_scalar v = true → c ∉ ["{"; "["]%char)
    ∧ (∀ l, v = Array l → c = "["%char) ∧ (∀ m, v = Object m → c = "{"%char).
Proof.
  intros Hv. destruct v as [| | | |l|m]; simpl in Hv.
  1-4: match goal with |- context [write_canonical ?v] =>
         destruct (scalar_starts Hscalar v eq_refl) as (c0 & s0 & Heq & Hc);
         exists c0, s0; split_and!; [exact Heq|set_solver|set_solver|done|done] end.
  - eexists _, _. split_and!; [reflexivity|set_solver|done|done|done].
  - destruct Hv. rewrite write_canonical_object by done.
    eexists _, _. split_and!; [reflexivity|set_solver|done|done|done].
Qed.

Lemma foldr_and_Forall {A} (P : A → Prop) l : foldr (λ x Q, P x ∧ Q) True l ↔ Forall P l.
Proof. induction l; simpl; [done|]. rewrite Forall_cons. naive_solver. Qed.

Lemma entry_reads_back kv :
  json_wf kv.2 → reads_back write_canonical json_wf kv.2 →
  reads_back entry_text (λ kv, json_wf kv.2) kv.
Proof.
  intros Hv Hr [k' v'] r r' Hv' Hd Hd'. destruct kv as [k v]. unfold entry_text. simpl in *.
  rewrite !str_app_assoc. intros Heq.
  apply (scalar_reads_back Hscalar (Str k) (Str k')) in Heq as [[= ->] Heq]; try done;
    [|simpl; set_solver..].
  injection Heq as Heq. apply Hr in Heq as [-> ->]; done.
Qed.

(** Canonical text can be read back: before a delimiter, it is one value's. *)
Lemma canonical_reads_back v : json_wf v → reads_back write_canonical json_wf v.
Proof.
  induction v as [| | | |l IH|m IH] using Value_rec_ind; intros Hv w r r' Hw Hd Hd' Heq.
  1-4: destruct (is_scalar w) eqn:Hsw;
    [destruct w; try done;
      by apply (scalar_reads_back Hscalar) in Heq as [? ?]
    |match type of Heq with write_canonical ?v +:+ _ = _ =>
       destruct (canonical_starts v Hv) as (c0 & s0 & Hc & _ & Hsc & _) end;
     destruct (canonical_starts w Hw) as (c' & s' & Hc' & _ & _ & Ha & Ho);
     rewrite Hc, Hc' in Heq; injection Heq as -> _; specialize (Hsc eq_refl);
     destruct w; try done; [rewrite (Ha _ eq_refl) in Hsc|rewrite (Ho _ eq_refl) in Hsc];
     set_solver].
  - destruct (canonical_starts w Hw) as (c' & s' & Hc' & _ & Hsc & _ & Ho).
    destruct w as [| | | |l'|m'];
      [rewrite Hc' in Heq; injection Heq as <- _; specialize (Hsc eq_refl); set_solver..| |
       rewrite Hc' in Heq; injection Heq as <- _; by specialize (Ho _ eq_refl)].
    rewrite !write_canonical_array, !str_app_assoc in Heq. injection Heq as Heq.
    simpl in Hv, Hw. rewrite foldr_and_Forall in Hv, Hw.
    apply (join_inj write_canonical json_wf) in Heq as [-> ->]; [done|set_solver| |done| |done].
    + intros x Hx. destruct (canonical_starts x Hx) as (c & s & ? & ? & _). eauto.
    + rewrite Forall_forall in IH, Hv |- *. intros x Hx. apply IH; [done|]. by apply Hv.
  - destruct (canonical_starts w Hw) as (c' & s' & Hc' & _ & Hsc & Ha & _).
    destruct Hv as [Hsm Hv]. rewrite write_canonical_object in Heq by done.
    destruct w as [| | | |l'|m'];
      [rewrite Hc' in Heq; injection Heq as <- _; specialize (Hsc eq_refl); set_solver..|
       rewrite Hc' in Heq; injection Heq as <- _; by specialize (Ha _ eq_refl)|].
    destruct Hw as [Hsm' Hw]. rewrite write_canonical_object, !str_app_assoc in Heq by done.
    injection Heq as Heq. rewrite (foldr_and_Forall (λ kv, json_wf kv.2)) in Hv, Hw.
    apply (join_inj entry_text (λ kv, json_wf kv.2)) in Heq as [-> ->];
      [done|set_solver| |done| |done].
    + intros [k x] Hx. unfold entry_text. simpl.
      destruct (scalar_starts Hscalar (Str k) eq_refl) as (c & s & -> & ?).
      exists c. eexists. split; [reflexivity|]. set_solver.
    + rewrite Forall_forall in IH, Hv |- *. intros kv Hkv.
      apply entry_reads_back; [by apply Hv|]. apply IH; [done|]. by apply Hv.
Qed.

Lemma canonical_json_inj v w :
  json_wf v → json_wf w → canonical_json v = canonical_json w → v = w.
Proof.
  intros Hv Hw Heq. apply (canonical_reads_back v Hv w "" ""); [done..|].
  by rewrite !str_app_nil_r.
Qed.
End CanonicalLemmas.

(** ** Hashes under collision freedom *)

Lemma hex_digit_inj a b : (a < 16)%N → (b < 16)%N → hex_digit a = hex_digit b → a = b.
Proof.
  intros Ha Hb.
  assert (∀ n, (n < 16)%N → N_of_ascii (hex_digit n) = if (n <? 10)%N then 48 + n else 87 + n)%N
    as Hd.
  { intros n Hn. unfold hex_digit. destruct (n <? 10)%N; apply N_ascii_embedding; lia. }
  intros Heq%(f_equal N_of_ascii). rewrite !Hd in Heq by done.
  destruct (N.ltb_spec a 10), (N.ltb_spec b 10); lia.
Qed.

Lemma hex_inj l l' :
  Forall (λ b, (b < 256)%N) l → Forall (λ b, (b < 256)%N) l' → hex l = hex l' → l = l'.
Proof.
  revert l'; induction l as [|b l IH]; intros [|b' l'] Hl Hl' Heq; try done.
  apply Forall_cons in Hl as [Hb Hl], Hl' as [Hb' Hl']. injection Heq as Hq Hr Heq.
  apply hex_digit_inj in Hq; [|apply N.Div0.div_lt_upper_bound; lia..].
  apply hex_digit_inj in Hr; [|apply N.mod_lt; lia..].
  f_equal; [|by apply IH].
  rewrite (N.div_mod' b 16), (N.div_mod' b' 16). congruence.
Qed.

Lemma bytes_inj s t : bytes s = bytes t → s = t.
Proof.
  unfold bytes. intros Heq.
  rewrite <- (String.string_of_list_ascii_of_string s),
    <- (String.string_of_list_ascii_of_string t). f_equal.
  apply (list_fmap_eq_inj N_of_ascii); [|done].
  intros a b Hab%(f_equal ascii_of_N). by rewrite !ascii_N_embedding in Hab.
Qed.

Section Hashes.
Context `{JsonText, Sha256Ops}.

(** SHA-256 finds no collision among the canonical texts of these values. *)
Definition collision_free (vs : list Value) : Prop :=
  ∀ v w, v ∈ vs → w ∈ vs →
    Sha256_digest (bytes (canonical_json v)) = Sha256_digest (bytes (canonical_json w)) →
    bytes (canonical_json v) = bytes (canonical_json w).

Lemma content_hash_inj v w :
  scalar_text → collision_free [v; w] → json_wf v → json_wf w →
  content_hash v = content_hash w → v = w.
Proof.
  intros Hs Hc Hv Hw Heq. apply hex_inj in Heq; [|apply Sha256_digest_bytes..].
  apply Hc in Heq; [|set_solver..]. by apply bytes_inj, canonical_json_inj in Heq.
Qed.

(** What [idempotency_key] hashes. *)
Definition key_basis (run : string) (segment step : Z) (node input_hash : string) : Value :=
  obj [("run", Str run); ("segment", num segment); ("step", num step);
       ("node", Str node); ("input", Str input_hash)].

Lemma key_basis_wf run segment step node input_hash :
  0 ≤ segment ≤ u64_max → 0 ≤ step ≤ u64_max →
  json_wf (key_basis run segment step node input_hash).
Proof.
  intros ? ?. change (key_basis run segment step node input_hash) with
    (Object [("input", Str input_hash); ("node", Str node); ("run", Str run);
             ("segment", num segment); ("step", num step)]).
  cbn [json_wf foldr snd]. split; [|split_and!; done]. cbn [map_sorted].
  repeat split; repeat constructor.
Qed.
End Hashes.

(** ** A concrete printer and hash, to evaluate on *)

Definition spec_float_code (f : f64) : bool + bool + (unit + bool * positive * Z) :=
  match f with
  | S754_zero s => inl (inl s) | S754_infinity s => inl (inr s)
  | S754_nan => inr (inl tt) | S754_finite s m e => inr (inr (s, m, e))
  end.
Definition scalar_code (v : Value)
    : option (bool + string + (Z + Z + (bool + bool + (unit + bool * positive * Z)))) :=
  match v with
  | Bool b => Some (inl (inl b))
  | Str s => Some (inl (inr s))
  | Num (PosInt n) => Some (inr (inl (inl n)))
  | Num (NegInt n) => Some (inr (inl (inr n)))
  | Num (Float f) => Some (inr (inr (spec_float_code f)))
  | _ => None
  end.

Fixpoint bits (p : positive) : string :=
  match p with
  | xH => "1"
  | xO p => String "0" (bits p)
  | xI p => String "2" (bits p)
  end.

Definition code_json : JsonText.
Proof.
  refine {| parse_json := λ _, None; json_to_string := λ v, bits (encode (scalar_code v)) |}.
  abstract done.
Defined.

Definition plain_sha256 : Sha256Ops.
Proof.
  refine {| Sha256_digest := λ l, (λ b, b `mod` 256)%N <$> l |}.
  abstract (intros l; apply Forall_fmap, Forall_true; intros b; apply N.mod_lt; lia).
Defined.

(** Ids as numbers, printed in binary. *)
Definition plain_uuid : UuidOps := {|
  uuid_v4 n := n;
  uuid_hyphenated u := bits (N.succ_pos u);
  uuid_simple u := bits (N.succ_pos u);
  uuid_v5 u s := (u + N.pos (encode s))%N |}.

Lemma bits_reads_back p q r r' : bits p +:+ r = bits q +:+ r' → p = q ∧ r = r'.
Proof.
  revert q; induction p as [p IH|p IH|]; intros [q|q|] Heq; simpl in Heq;
    injection Heq; try done; intros Hpq; by apply IH in Hpq as [-> ->].
Qed.

Lemma bits_starts p : ∃ c s, bits p = String c s ∧ c ∉ ["{"; "["; "}"; "]"; ","]%char.
Proof. destruct p; eexists _, _; (split; [reflexivity|set_solver]). Qed.

Lemma code_json_scalar_text : @scalar_text code_json.
Proof.
  constructor.
  - intros a _. apply bits_starts.
  - intros a b r r' Ha Hb _ _ _ _ [Heq ->]%bits_reads_back. split; [|done].
    apply (inj encode) in Heq.
    destruct a as [| |[| |[]]| | |], b as [| |[| |[]]| | |]; simpl in *; congruence.
Qed.

(** ** Properties *)

(** An idempotency key names one occurrence of one node on one input. Under
    collision freedom two keys are equal only when run, segment, step, node and
    input hash all are: no effect is filed under another node's key. *)
Theorem idempotency_key_binding `{JsonText, Sha256Ops}
    (run run' node node' input input' : string) (segment segment' step step' : Z) :
  scalar_text →
  collision_free [key_basis run segment step node input;
                  key_basis run' segment' step' node' input'] →
  0 ≤ segment ≤ u64_max → 0 ≤ segment' ≤ u64_max →
  0 ≤ step ≤ u64_max → 0 ≤ step' ≤ u64_max →
  idempotency_key run segment step node input =
    idempotency_key run' segment' step' node' input' →
  run = run' ∧ segment = segment' ∧ step = step' ∧ node = node' ∧ input = input'.
Proof.
  intros Hs Hc ? ? ? ? Heq. apply content_hash_inj in Heq; [|done|done|..].
  - injection Heq. by intros -> -> -> -> ->.
  - by apply key_basis_wf.
  - by apply key_basis_wf.
Qed.

Lemma idempotency_key_binding_witness :
  @idempotency_key code_json plain_sha256 "r" 0 3 "a" "h" ≠
    @idempotency_key code_json plain_sha256 "r" 0 3 "b" "h".
Proof.
  intros Heq.
  assert (@collision_free code_json plain_sha256
    [key_basis "r" 0 3 "a" "h"; key_basis "r" 0 3 "b" "h"]) as Hc.
  { intros v w [->|[->|[]%not_elem_of_nil]%elem_of_cons]%elem_of_cons
      [->|[->|[]%not_elem_of_nil]%elem_of_cons]%elem_of_cons;
      first [by intros _ | intros Hx; exfalso; vm_compute in Hx; discriminate Hx]. }
  assert (∀ n, 0 ≤ n ≤ 3 → 0 ≤ n ≤ u64_max) as Hu by (unfold u64_max; lia).
  discriminate (proj1 (proj2 (proj2 (proj2 (@idempotency_key_binding code_json plain_sha256
    "r" "r" "a" "b" "h" "h" 0 0 3 3 code_json_scalar_text Hc
    (Hu 0 ltac:(lia)) (Hu 0 ltac:(lia)) (Hu 3 ltac:(lia)) (Hu 3 ltac:(lia)) Heq))))).
Defined.
