(* ===== verification/Approvals.v ===== *)
(** * Approval state ([state/src/approvals.rs])

    Folds of the event log that decide which nodes wait for a human, which were
    approved or rejected, what an approval covers, and which requests a deadline
    sweep must expire or escalate. *)

From S2P Require Import Prelude.
From S2P Require Import Json.
From S2P Require Import RustStr.
From S2P Require Import Core.
From S2P Require Import Condition.
From S2P Require Import Ir.
From S2P Require Import Event.
From S2P Require Import Hashing.
From Stdlib Require Import Ascii.

Definition EXPIRES_AT_KEY : string := "expires_at".
Definition ESCALATE_AT_KEY : string := "escalate_at".
Definition ACTION_DIGEST_KEY : string := "action_digest".
Definition CALLS_HASH_KEY : string := "calls_hash".
Definition ACTION_BASIS_KEY : string := "action_basis".
Definition ACTION_BASIS_STATE_CAP : Z := 16 * 1024.
Definition ACTION_STEP_KEY : string := "action_step".
Definition ACTION_DEFINITION_KEY : string := "action_definition".

Definition UNREADABLE_LOG_REASON : string :=
  "the run's event log contains event kinds this build cannot read (written by a newer release); approval state cannot be determined, so nothing is released or decided; upgrade the engine".

Record PendingApproval := {
  pa_node_id : string;
  pa_tool_name : string;
  pa_approver : string;
  pa_context : Value;
  pa_sequence : EventSequence;
  pa_expires_at : option string;
  pa_escalate_at : option string;
}.

(** ** Deadlines of a request *)

Inductive DeadlineTime := Unset | At (t : DateTime) | Unreadable.

#[export] Instance DeadlineTime_eq_dec : EqDecision DeadlineTime.
Proof. solve_decision. Defined.

Section DeadlineTimes.
Context `{ChronoOps}.

Definition read (context : Value) (key : string) : DeadlineTime :=
  match get key context with
  | None => Unset
  | Some v =>
      match s ← as_str v; parse_rfc3339 s with
      | Some t => At t
      | None => Unreadable
      end
  end.

Definition passed (self : DeadlineTime) (now : DateTime) : bool :=
  match self with
  | Unset => false
  | At at_ => bool_decide (at_ ≤ now)
  | Unreadable => true
  end.
End DeadlineTimes.

Record RequestDeadline := { rd_expires_at : DeadlineTime; rd_escalate_at : DeadlineTime }.

Section Deadlines.
Context `{ChronoOps}.

(** [RequestDeadline::of]. *)
Definition RequestDeadline_of (context : Value) : RequestDeadline :=
  {| rd_expires_at := read context EXPIRES_AT_KEY;
     rd_escalate_at := read context ESCALATE_AT_KEY |}.

Definition expired (self : RequestDeadline) (now : DateTime) : bool :=
  passed (rd_expires_at self) now.

Definition format_deadline (at_ : DateTime) : string := rfc3339_millis at_.

(** [after(secs)]: the moment [secs] seconds from [now], when representable. *)
Definition deadline_after (now : DateTime) (secs : Z) : result string DateTime :=
  match (if decide (secs < 2 ^ 63) then d ← try_seconds secs; checked_add_signed now d
         else None) with
  | Some t => Ok t
  | None => Err ("approval deadline of " +:+ Ir.show secs +:+ "s cannot be represented")
  end.

(** [stamp_deadline]: the context with the times recorded in it. *)
Definition stamp_deadline (context : Map) (deadline : ApprovalDeadline) (now : DateTime)
    : result string Map :=
  expires_at ← deadline_after now (timeout_secs deadline);
  let context := map_insert EXPIRES_AT_KEY (Str (format_deadline expires_at)) context in
  match dl_escalate_after_secs deadline with
  | Some secs =>
      escalate_at ← deadline_after now secs;
      mret (map_insert ESCALATE_AT_KEY (Str (format_deadline escalate_at)) context)
  | None => mret context
  end.

Definition expiry_comment (expires_at : DateTime) : string :=
  "approval request expired undecided at its deadline " +:+ rfc3339_millis expires_at.
End Deadlines.

(** ** Pending requests *)

Section Pending.
Context `{JsonText}.

(** [PendingApproval::from_request]. *)
Definition from_request (node_id tool_name approver : string) (context : Value)
    (sequence : EventSequence) : PendingApproval :=
  let shown key :=
    v ← get key context;
    Some match as_str v with Some s => s | None => json_to_string v end in
  {| pa_node_id := node_id; pa_tool_name := tool_name; pa_approver := approver;
     pa_context := context; pa_sequence := sequence;
     pa_expires_at := shown EXPIRES_AT_KEY; pa_escalate_at := shown ESCALATE_AT_KEY |}.
End Pending.

(** [PendingApproval::deadline], [action_digest], [binding]. *)
Definition pa_deadline `{ChronoOps} (self : PendingApproval) : RequestDeadline :=
  RequestDeadline_of (pa_context self).
Definition pa_action_digest (self : PendingApproval) : option string :=
  d ← get ACTION_DIGEST_KEY (pa_context self); as_str d.
Definition pa_binding (self : PendingApproval) : option string :=
  match pa_action_digest self with
  | Some d => Some d
  | None => d ← get CALLS_HASH_KEY (pa_context self); as_str d
  end.

Inductive NodeApprovalStatus :=
| NotRequested
| Pending (p : PendingApproval)
| StatusApproved (user_id : string) (sequence : EventSequence)
    (approved_digest : option string)
| StatusRejected (user_id : string) (comment : option string) (sequence : EventSequence)
| Indeterminate.

(** [approval_covers]. *)
Definition approval_covers (status : NodeApprovalStatus) (current : string) : bool :=
  match status with
  | StatusApproved _ _ (Some d) => bool_decide (d = current)
  | _ => false
  end.

Definition is_unknown (ev : Event) : bool :=
  match event_kind ev with EventKind.Unknown => true | _ => false end.
Definition has_unreadable_events (events : list Event) : bool := existsb is_unknown events.

(** The principal that started the run: the first [WorkflowStarted]'s. *)
Fixpoint run_initiator (events : list Event) : option string :=
  match events with
  | [] => None
  | ev :: events =>
      match event_kind ev with
      | EventKind.WorkflowStarted _ _ _ initiated_by => initiated_by
      | _ => run_initiator events
      end
  end.

Section Folds.
Context `{JsonText, ChronoOps}.

(** One event's effect on the status of [node_id], an unreadable one aside. *)
Definition approval_step (node_id : string) (status : NodeApprovalStatus) (event : Event)
    : NodeApprovalStatus :=
  match event_kind event with
  | EventKind.ToolApprovalRequired n tool_name approver context =>
      if decide (n = node_id)
      then Pending (from_request n tool_name approver context (sequence event))
      else status
  | EventKind.ApprovalReceived n user_id decision comment _ _ approved_digest _ =>
      if decide (n = node_id) then
        match status with
        | Pending _ =>
            match decision with
            | Approved => StatusApproved user_id (sequence event) approved_digest
            | Rejected => StatusRejected user_id comment (sequence event)
            end
        | _ => status
        end
      else status
  | EventKind.ApprovalExpired n request_sequence expires_at _ =>
      if decide (n = node_id) then
        match status with
        | Pending p =>
            if decide (pa_sequence p = request_sequence)
            then StatusRejected DEADLINE_PRINCIPAL (Some (expiry_comment expires_at))
                   (sequence event)
            else status
        | _ => status
        end
      else status
  | _ => status
  end.

(** The loop of [node_approval_status]: the status and the unreadable flag. *)
Definition status_loop_step (node_id : string) (acc : NodeApprovalStatus * bool)
    (event : Event) : NodeApprovalStatus * bool :=
  match event_kind event with
  | EventKind.Unknown => (acc.1, true)
  | _ => (approval_step node_id acc.1 event, acc.2)
  end.

Definition node_approval_status (events : list Event) (node_id : string)
    : NodeApprovalStatus :=
  let '(status, unreadable) :=
    foldl (status_loop_step node_id) (NotRequested, false) events in
  if (unreadable : bool) then Indeterminate else status.

(** The request the node's current decision answered. *)
Fixpoint latest_request (rev_events : list Event) (node_id : string) : option PendingApproval :=
  match rev_events with
  | [] => None
  | e :: rev_events =>
      match event_kind e with
      | EventKind.ToolApprovalRequired n tool_name approver context =>
          if decide (n = node_id)
          then Some (from_request n tool_name approver context (sequence e))
          else latest_request rev_events node_id
      | _ => latest_request rev_events node_id
      end
  end.

Definition answered_request (events : list Event) (node_id : string) : option PendingApproval :=
  match node_approval_status events node_id with
  | StatusApproved _ _ _ | StatusRejected _ _ _ => latest_request (rev events) node_id
  | _ => None
  end.

(** The loop of [pending_approvals] over its [BTreeMap]. *)
Definition pending_loop_step (by_node : gmap string (option PendingApproval)) (event : Event)
    : gmap string (option PendingApproval) :=
  match event_kind event with
  | EventKind.ToolApprovalRequired node_id tool_name approver context =>
      <[node_id := Some (from_request node_id tool_name approver context (sequence event))]>
        by_node
  | EventKind.ApprovalExpired node_id request_sequence _ _ =>
      match by_node !! node_id with
      | Some slot =>
          if decide (pa_sequence <$> slot = Some request_sequence)
          then <[node_id := None]> by_node else by_node
      | None => by_node
      end
  | EventKind.ApprovalReceived node_id _ _ _ _ _ _ _ =>
      match by_node !! node_id with
      | Some _ => <[node_id := None]> by_node
      | None => by_node
      end
  | _ => by_node
  end.

(** [into_values().flatten()] of a [BTreeMap]: in key order. *)
Definition btree_values {V} (m : gmap string (option V)) : list V :=
  omap (λ k, o ← m !! k; o) (sort_strings (map_to_list m).*1).

Definition pending_approvals (events : list Event) : list PendingApproval :=
  btree_values (foldl pending_loop_step ∅ events).

Inductive DeadlineAction :=
| Expire (node_id : string) (request_sequence : EventSequence) (expires_at : DateTime)
| DlEscalate (node_id : string) (request_sequence : EventSequence)
    (escalate_at expires_at : DateTime).

Definition not_escalated (events : list Event) (node_id : string)
    (request_sequence : EventSequence) : bool :=
  negb (existsb (λ e,
    match event_kind e with
    | EventKind.ApprovalEscalated n r _ _ =>
        bool_decide (n = node_id) && bool_decide (r = request_sequence)
    | _ => false
    end) events).

(** What the sweep records for one pending request. *)
Definition due_action (events : list Event) (now : DateTime) (p : PendingApproval)
    : option DeadlineAction :=
  let d := pa_deadline p in
  if expired d now then
    let expires_at := match rd_expires_at d with At at_ => at_ | _ => now end in
    Some (Expire (pa_node_id p) (pa_sequence p) expires_at)
  else
    match rd_expires_at d, passed (rd_escalate_at d) now with
    | At expires_at, true =>
        if not_escalated events (pa_node_id p) (pa_sequence p) then
          let escalate_at := match rd_escalate_at d with At at_ => at_ | _ => now end in
          Some (DlEscalate (pa_node_id p) (pa_sequence p) escalate_at expires_at)
        else None
    | _, _ => None
    end.

Definition due_deadline_actions (events : list Event) (now : DateTime) : list DeadlineAction :=
  omap (due_action events now) (pending_approvals events).

Definition still_pending (events : list Event) (node_id : string)
    (request_sequence : EventSequence) : bool :=
  match node_approval_status events node_id with
  | Pending p => bool_decide (pa_sequence p = request_sequence)
  | _ => false
  end.

Definition still_open (events : list Event) (node_id : string)
    (request_sequence : EventSequence) (now : DateTime) : bool :=
  match node_approval_status events node_id with
  | Pending p => bool_decide (pa_sequence p = request_sequence)
                 && negb (expired (pa_deadline p) now)
  | _ => false
  end.

Definition pending_but_expired (events : list Event) (node_id : string) (now : DateTime) : bool :=
  match node_approval_status events node_id with
  | Pending p => expired (pa_deadline p) now
  | _ => false
  end.

Definition expired_by_deadline (events : list Event) (node_id : string) : bool :=
  match answered_request events node_id with
  | None => false
  | Some request =>
      existsb (λ e,
        match event_kind e with
        | EventKind.ApprovalExpired n request_sequence _ _ =>
            bool_decide (n = node_id) && bool_decide (request_sequence = pa_sequence request)
        | _ => false
        end) events
  end.
End Folds.

(** ** What an approval binds *)

Definition ENGINE_STATE_KEYS : list string := ["__budget"].

Definition action_state (state : Value) : Value :=
  match state with
  | Object m => Object (foldl (λ m key, map_remove key m) m ENGINE_STATE_KEYS)
  | _ => state
  end.

Definition action_payload (payload : Value) : Value :=
  match payload with
  | Object m =>
      Object (foldl (λ m key,
        match map_get key m with
        | Some v => map_insert key (action_state v) m
        | None => m
        end) m ["input"; "state"])
  | _ => payload
  end.

Section Digests.
Context `{JsonText, Sha256Ops}.

Definition definition_hash (node_def : Value) : string :=
  content_hash (obj [("domain", Str "jamjet.approval.node.v1"); ("node", node_def)]).

(** What [action_digest] hashes. *)
Definition action_basis_value (run : string) (step : Z) (node definition payload_hash : string)
    : Value :=
  obj [("domain", Str "jamjet.approval.action.v3"); ("run", Str run); ("step", num step);
       ("node", Str node); ("definition", Str definition); ("payload", Str payload_hash)].

Definition action_digest (run : string) (step : Z) (node definition : string)
    (payload : Value) : string :=
  content_hash (action_basis_value run step node definition (content_hash payload)).
End Digests.

Record ActionBasis := {
  ab_run : string; ab_step : Z; ab_definition : string; ab_payload : Value;
}.

(** [ActionBasis::digest]. *)
Definition ab_digest `{JsonText, Sha256Ops} (self : ActionBasis) (node : string) : string :=
  action_digest (ab_run self) (ab_step self) node (ab_definition self) (ab_payload self).

(** ** Lemmas on the folds *)

Section FoldLemmas.
Context `{JsonText, ChronoOps}.

Lemma approval_step_unknown n st ev : is_unknown ev = true → approval_step n st ev = st.
Proof. unfold is_unknown, approval_step. by destruct (event_kind ev). Qed.

Lemma status_loop_spec n events st b :
  foldl (status_loop_step n) (st, b) events =
  (foldl (approval_step n) st events, b || has_unreadable_events events).
Proof.
  revert st b; induction events as [|ev events IH]; intros st b; simpl.
  { by rewrite orb_false_r. }
  assert (status_loop_step n (st, b) ev = (approval_step n st ev, b || is_unknown ev)) as ->.
  { unfold status_loop_step, is_unknown, approval_step.
    destruct (event_kind ev); simpl; by rewrite ?orb_false_r, ?orb_true_r. }
  rewrite IH. by rewrite orb_assoc.
Qed.

Lemma node_approval_status_spec events n :
  node_approval_status events n =
  if has_unreadable_events events then Indeterminate
  else foldl (approval_step n) NotRequested events.
Proof. unfold node_approval_status. by rewrite status_loop_spec. Qed.

(** [ev] requests approval of [n]: the pending view it opens. *)
Definition request_of (n : string) (ev : Event) : option PendingApproval :=
  match event_kind ev with
  | EventKind.ToolApprovalRequired n' tool_name approver context =>
      if decide (n' = n) then Some (from_request n' tool_name approver context (sequence ev))
      else None
  | _ => None
  end.

(** [ev] resolves the pending request of [n] recorded at [r]: any decision for
    the node, or an expiry naming the request. *)
Definition resolves (n : string) (r : EventSequence) (ev : Event) : bool :=
  match event_kind ev with
  | EventKind.ApprovalReceived n' _ _ _ _ _ _ _ => bool_decide (n' = n)
  | EventKind.ApprovalExpired n' r' _ _ => bool_decide (n' = n) && bool_decide (r' = r)
  | _ => false
  end.

Lemma request_of_spec n ev p :
  request_of n ev = Some p → pa_node_id p = n ∧ pa_sequence p = sequence ev.
Proof.
  unfold request_of. destruct (event_kind ev); try done. case_decide; [|done].
  by intros [= <-].
Qed.

Lemma approval_step_request n st ev p :
  request_of n ev = Some p → approval_step n st ev = Pending p.
Proof.
  unfold request_of, approval_step. destruct (event_kind ev); try done.
  case_decide; [|done]. by intros [= <-].
Qed.

(** [ev] approves [n], releasing [digest]. *)
Definition approves (n : string) (digest : option string) (ev : Event) : Prop :=
  ∃ user comment patch principal req,
    event_kind ev =
      EventKind.ApprovalReceived n user Approved comment patch principal digest req.

Lemma approval_step_quiet n p ev :
  request_of n ev = None → resolves n (pa_sequence p) ev = false →
  approval_step n (Pending p) ev = Pending p.
Proof.
  unfold request_of, resolves, approval_step. intros Hreq Hres.
  destruct (event_kind ev); try done; repeat case_decide; simplify_eq; try done.
  all: repeat case_bool_decide; simplify_eq/=; done.
Qed.

Lemma approval_step_resolved n p ev q :
  request_of n ev = None → resolves n (pa_sequence p) ev = true →
  approval_step n (Pending p) ev ≠ Pending q.
Proof.
  unfold request_of, resolves, approval_step. intros Hreq Hres.
  destruct (event_kind ev); try done; repeat (case_bool_decide; simplify_eq/=; try done);
    rewrite !decide_True by done; [|done].
  match goal with d : ApprovalDecision |- _ => by destruct d end.
Qed.

Lemma approval_step_settled n st ev :
  request_of n ev = None → (∀ p, st ≠ Pending p) → approval_step n st ev = st.
Proof.
  unfold request_of, approval_step. intros Hreq Hst.
  destruct (event_kind ev); try done; repeat case_decide; try done; destruct st; naive_solver.
Qed.

Lemma approval_step_approved n p ev u s d :
  request_of n ev = None →
  approval_step n (Pending p) ev = StatusApproved u s d → approves n d ev.
Proof.
  unfold request_of, approval_step, approves. intros Hreq Happ.
  destruct (event_kind ev); try done; repeat case_decide; simplify_eq; try done.
  destruct decision; simplify_eq. eauto 10.
Qed.

Lemma approves_step n p ev d :
  approves n d ev → ∃ u s, approval_step n (Pending p) ev = StatusApproved u s d.
Proof.
  intros (u & c & pt & pr & r & Hk). unfold approval_step. rewrite Hk, decide_True by done. eauto.
Qed.

Lemma approves_not_request n ev d : approves n d ev → request_of n ev = None.
Proof. intros (? & ? & ? & ? & ? & Hk). unfold request_of. by rewrite Hk. Qed.

(** [p] is the request at some position of the log with neither a newer request
    nor a resolution after it. *)
Definition open_request (events : list Event) (n : string) (p : PendingApproval) : Prop :=
  ∃ pre ev post, events = pre ++ ev :: post ∧ request_of n ev = Some p
    ∧ Forall (λ e, request_of n e = None ∧ resolves n (pa_sequence p) e = false) post.

Lemma pending_fold n events p :
  foldl (approval_step n) NotRequested events = Pending p ↔ open_request events n p.
Proof.
  split.
  - revert p; induction events as [|ev events IH] using rev_ind; intros p; simpl; [done|].
    rewrite foldl_app. simpl. set (st := foldl _ _ events) in *. intros Hst.
    destruct (request_of n ev) as [q|] eqn:Hq.
    { rewrite (approval_step_request _ _ _ q) in Hst by done. injection Hst as <-.
      exists events, ev, []. split_and!; [done|done|constructor]. }
    destruct st as [|q| | |] eqn:Hs;
      try (rewrite approval_step_settled in Hst by done; done).
    destruct (resolves n (pa_sequence q) ev) eqn:Hr.
    { by apply approval_step_resolved in Hst. }
    rewrite approval_step_quiet in Hst by done. injection Hst as ->.
    destruct (IH p eq_refl) as (pre & e & post & -> & He & Hpost).
    exists pre, e, (post ++ [ev]). split_and!; [by rewrite <- app_assoc|done|].
    apply Forall_app. split; [done|]. by constructor.
  - intros (pre & ev & post & -> & Hev & Hpost). rewrite foldl_app. simpl.
    rewrite (approval_step_request _ _ _ p) by done.
    induction Hpost as [|e post [Hq Hr] _ IH]; simpl; [done|].
    by rewrite approval_step_quiet.
Qed.

Lemma approved_fold n events d :
  (∃ u s, foldl (approval_step n) NotRequested events = StatusApproved u s d) ↔
  ∃ pre ev post p, events = pre ++ ev :: post ∧ open_request pre n p ∧ approves n d ev
    ∧ Forall (λ e, request_of n e = None) post.
Proof.
  split.
  - intros (u & s & Hst). revert Hst.
    induction events as [|ev events IH] using rev_ind; simpl; [done|].
    rewrite foldl_app. simpl. set (st := foldl _ _ events) in *. intros Hst.
    destruct (request_of n ev) as [q|] eqn:Hq.
    { by rewrite (approval_step_request _ _ _ q) in Hst. }
    destruct st as [|q| | |] eqn:Hs;
      try (rewrite approval_step_settled in Hst by done; try done).
    + exists events, ev, [], q. split_and!; [done| |by eapply approval_step_approved|constructor].
      apply pending_fold. exact Hs.
    + injection Hst as -> -> ->.
      destruct (IH eq_refl) as (pre & e & post & p & -> & Ho & He & Hpost).
      exists pre, e, (post ++ [ev]), p. split_and!; [by rewrite <- app_assoc|done|done|].
      apply Forall_app. split; [done|]. by constructor.
  - intros (pre & ev & post & p & -> & Ho & Hev & Hpost). rewrite foldl_app. simpl.
    apply pending_fold in Ho as ->. destruct (approves_step n p ev d Hev) as (u & s & ->).
    exists u, s. induction Hpost as [|e post Hq _ IH]; simpl; [done|].
    by rewrite approval_step_settled.
Qed.

(** ** [pending_approvals] agrees with the per-node status *)

Definition slot_of (st : NodeApprovalStatus) : option (option PendingApproval) :=
  match st with
  | NotRequested | Indeterminate => None
  | Pending p => Some (Some p)
  | _ => Some None
  end.

Lemma pending_loop_slot n m st ev :
  st ≠ Indeterminate → m !! n = slot_of st →
  pending_loop_step m ev !! n = slot_of (approval_step n st ev).
Proof.
  intros Hst Hm. unfold pending_loop_step, approval_step.
  destruct (event_kind ev) eqn:Hk; try done;
    (match goal with |- context [decide (?a = n)] =>
      destruct (decide (a = n)) as [->|Hne] end);
    rewrite ?Hm, ?lookup_insert_eq, ?lookup_insert_ne by done; try done.
  - destruct st, decision; simpl in *; rewrite ?lookup_insert_eq; done.
  - repeat case_match; rewrite ?lookup_insert_ne by done; done.
  - destruct st as [|p| | |]; simpl in *; try done.
    destruct (decide (pa_sequence p = request_sequence)) as [->|].
    + by rewrite decide_True, lookup_insert_eq.
    + rewrite decide_False by congruence. done.
  - repeat case_match; rewrite ?lookup_insert_ne by done; done.
Qed.

Lemma approval_step_determinate n st ev :
  st ≠ Indeterminate → approval_step n st ev ≠ Indeterminate.
Proof.
  intros Hst. unfold approval_step. destruct (event_kind ev); try done;
    repeat case_decide; try done; destruct st; try done.
  - match goal with d : ApprovalDecision |- _ => by destruct d end.
  - by case_decide.
Qed.

Lemma pending_loop_status n events :
  foldl pending_loop_step ∅ events !! n =
  slot_of (foldl (approval_step n) NotRequested events)
  ∧ foldl (approval_step n) NotRequested events ≠ Indeterminate.
Proof.
  induction events as [|ev events [IH Hd]] using rev_ind; [done|]. rewrite !foldl_app. simpl.
  split; [by apply pending_loop_slot|by apply approval_step_determinate].
Qed.

Lemma open_request_node n events p : open_request events n p → pa_node_id p = n.
Proof. intros (pre & ev & post & _ & Hr & _). by apply request_of_spec in Hr as [? _]. Qed.

Lemma elem_of_btree_values {V} (m : gmap string (option V)) v :
  v ∈ btree_values m ↔ ∃ k, m !! k = Some (Some v).
Proof.
  unfold btree_values, sort_strings. rewrite merge_sort_Permutation.
  rewrite list_elem_of_omap. split.
  - intros (k & _ & Hk). exists k. destruct (m !! k); naive_solver.
  - intros [k Hk]. exists k. split; [|by rewrite Hk].
    apply list_elem_of_fmap. exists (k, Some v). split; [done|]. by apply elem_of_map_to_list.
Qed.

Lemma elem_of_pending_approvals events p :
  p ∈ pending_approvals events ↔ open_request events (pa_node_id p) p.
Proof.
  unfold pending_approvals. rewrite elem_of_btree_values. rewrite <- pending_fold. split.
  - intros [n Hn]. rewrite (proj1 (pending_loop_status n events)) in Hn.
    destruct (foldl (approval_step n) _ _) as [|q| | |] eqn:Hst; try done.
    injection Hn as ->. assert (pa_node_id p = n) as <-; [|done].
    by apply (open_request_node n events), pending_fold.
  - intros Hst. exists (pa_node_id p). rewrite (proj1 (pending_loop_status _ events)).
    by rewrite Hst.
Qed.

Lemma still_pending_spec events n r :
  still_pending events n r = true ↔
    has_unreadable_events events = false
    ∧ ∃ p, open_request events n p ∧ pa_sequence p = r.
Proof.
  unfold still_pending. rewrite node_approval_status_spec.
  destruct (has_unreadable_events events); [naive_solver|].
  setoid_rewrite <- pending_fold.
  destruct (foldl _ _ _) as [|p| | |]; try naive_solver.
  rewrite bool_decide_eq_true. naive_solver.
Qed.

Lemma still_open_spec events n r now :
  still_open events n r now = true ↔
    has_unreadable_events events = false
    ∧ ∃ p, open_request events n p ∧ pa_sequence p = r
        ∧ expired (pa_deadline p) now = false.
Proof.
  unfold still_open. rewrite node_approval_status_spec.
  destruct (has_unreadable_events events); [naive_solver|].
  setoid_rewrite <- pending_fold.
  destruct (foldl _ _ _) as [|p| | |]; try naive_solver.
  rewrite andb_true_iff, negb_true_iff, bool_decide_eq_true. naive_solver.
Qed.
End FoldLemmas.

(** ** Appending under conditions *)

(** The outcome of the request of [n] at [r], and its escalation. *)
Definition is_outcome (n : string) (r : EventSequence) (ev : Event) : bool :=
  match event_kind ev with
  | EventKind.ApprovalReceived n' _ _ _ _ _ _ (Some r')
  | EventKind.ApprovalExpired n' r' _ _ => bool_decide (n' = n) && bool_decide (r' = r)
  | _ => false
  end.
Definition is_escalation (n : string) (r : EventSequence) (ev : Event) : bool :=
  match event_kind ev with
  | EventKind.ApprovalEscalated n' r' _ _ => bool_decide (n' = n) && bool_decide (r' = r)
  | _ => false
  end.
Definition count (f : Event → bool) (log : list Event) : nat :=
  length (base.filter (λ e, f e = true) log).

Section Guarded.
Context `{JsonText, ChronoOps}.

(** One append to a run's log, with a fresh larger sequence. A decision is
    appended under [still_open], an expiry under [still_pending], an escalation
    under [still_pending] and [not_escalated] (the API's decision and the
    scheduler's sweep, in any order and at any times); any other event freely. *)
Inductive guarded_append (log : list Event) : list Event → Prop :=
| append_decision ev n u d c pt pr dg r now :
    event_kind ev = EventKind.ApprovalReceived n u d c pt pr dg (Some r) →
    still_open log n r now = true →
    (∀ e, e ∈ log → sequence e < sequence ev) →
    guarded_append log (log ++ [ev])
| append_expiry ev n r at_ pr :
    event_kind ev = EventKind.ApprovalExpired n r at_ pr →
    still_pending log n r = true →
    (∀ e, e ∈ log → sequence e < sequence ev) →
    guarded_append log (log ++ [ev])
| append_escalation ev n r at_ exp :
    event_kind ev = EventKind.ApprovalEscalated n r at_ exp →
    still_pending log n r && not_escalated log n r = true →
    (∀ e, e ∈ log → sequence e < sequence ev) →
    guarded_append log (log ++ [ev])
| append_other ev :
    (∀ n r, is_outcome n r ev = false ∧ is_escalation n r ev = false) →
    (∀ n r, resolves n r ev = false) →
    (∀ e, e ∈ log → sequence e < sequence ev) →
    guarded_append log (log ++ [ev]).

Definition outcome_inv (log : list Event) : Prop :=
  ∀ n r,
    (count (is_escalation n r) log ≤ 1)%nat
    ∧ (count (is_outcome n r) log = 0%nat
       ∨ count (is_outcome n r) log = 1%nat
         ∧ (∃ e, e ∈ log ∧ sequence e = r)
         ∧ ∀ p, open_request log n p → pa_sequence p ≠ r).

Lemma count_snoc f log ev :
  count f (log ++ [ev]) = (count f log + if f ev then 1 else 0)%nat.
Proof.
  unfold count. rewrite list.filter_app, length_app. f_equal. simpl. unfold base.filter. simpl.
  destruct (f ev) eqn:Hf; [by rewrite decide_True|by rewrite decide_False].
Qed.

Lemma not_escalated_count log n r :
  not_escalated log n r = true → count (is_escalation n r) log = 0%nat.
Proof.
  unfold not_escalated, count, is_escalation. rewrite negb_true_iff. intros Hne.
  induction log as [|e log IH]; [done|]. simpl in Hne. apply orb_false_iff in Hne as [He Hne].
  rewrite filter_cons_False by (by rewrite He). by apply IH.
Qed.

Lemma open_request_snoc log ev n p :
  open_request (log ++ [ev]) n p →
  request_of n ev = Some p
  ∨ open_request log n p ∧ request_of n ev = None ∧ resolves n (pa_sequence p) ev = false.
Proof.
  rewrite <- !pending_fold, foldl_app. simpl. set (st := foldl _ _ log). intros Hst.
  destruct (request_of n ev) as [q|] eqn:Hq.
  { rewrite (approval_step_request _ _ _ q) in Hst by done. left. congruence. }
  right. destruct st as [|q| | |] eqn:Hs;
    try (rewrite approval_step_settled in Hst by done; done).
  destruct (resolves n (pa_sequence q) ev) eqn:Hr; [by apply approval_step_resolved in Hst|].
  rewrite approval_step_quiet in Hst by done. by injection Hst as ->.
Qed.

Lemma open_request_in log n p :
  open_request log n p → ∃ e, e ∈ log ∧ sequence e = pa_sequence p.
Proof.
  intros (pre & ev & post & -> & Hr & _). exists ev. split; [set_solver|].
  by apply request_of_spec in Hr as [_ ->].
Qed.

(** What every append keeps: an outcome only lands on an open request, and
    closes it for good. *)
Lemma outcome_inv_snoc log ev :
  (∀ e, e ∈ log → sequence e < sequence ev) →
  (∀ n r, is_outcome n r ev = true →
     resolves n r ev = true ∧ ∃ p, open_request log n p ∧ pa_sequence p = r) →
  (∀ n r, is_escalation n r ev = true → count (is_escalation n r) log = 0%nat) →
  outcome_inv log → outcome_inv (log ++ [ev]).
Proof.
  intros Hseq Hout Hesc Hinv n r. destruct (Hinv n r) as [He Ho]. rewrite !count_snoc. split.
  { destruct (is_escalation n r ev) eqn:Hx; [rewrite (Hesc _ _ Hx)|]; lia. }
  destruct (is_outcome n r ev) eqn:Hx.
  - right. destruct (Hout _ _ Hx) as (Hres & p & Hp & Hpr).
    destruct Ho as [->|(_ & _ & Hno)]; [|by destruct (Hno p)].
    split_and!; [done| |].
    + destruct (open_request_in _ _ _ Hp) as (e & ? & ?). exists e. set_solver.
    + intros q [Hq|(_ & _ & Hq)]%open_request_snoc Hqr; [|congruence].
      unfold is_outcome in Hx. unfold request_of in Hq. by destruct (event_kind ev).
  - rewrite Nat.add_0_r. destruct Ho as [Hz|(H1 & (e & Hin & Her) & Hno)]; [by left|right].
    split_and!; [done|exists e; set_solver|].
    intros q [Hq|(Hq & _)]%open_request_snoc Hqr; [|by apply (Hno q)].
    apply request_of_spec in Hq as [_ Hq]. specialize (Hseq e Hin). lia.
Qed.

Lemma guarded_append_inv log log' :
  guarded_append log log' → outcome_inv log → outcome_inv log'.
Proof.
  intros [ev n u d c pt pr dg r now Hk Hg Hseq | ev n r at_ pr Hk Hg Hseq
         | ev n r at_ exp Hk Hg Hseq | ev Hk Hr Hseq] Hinv;
    (apply outcome_inv_snoc; [done| | |done]); unfold is_outcome, is_escalation, resolves;
    rewrite ?Hk; simpl; try done; intros n' r';
    try (rewrite andb_true_iff, !bool_decide_eq_true; intros [<- <-]).
  - split; [done|]. apply still_open_spec in Hg as (_ & p & ? & ? & _). eauto.
  - split; [done|]. by apply still_pending_spec in Hg as [_ ?].
  - apply andb_true_iff in Hg as [_ Hg]. by apply not_escalated_count.
  - intros Ho. pose proof (proj1 (Hk n' r')) as Hf. unfold is_outcome in Hf. congruence.
  - intros Ho. pose proof (proj2 (Hk n' r')) as Hf. unfold is_escalation in Hf. congruence.
Qed.

Lemma guarded_outcome_inv log : rtc guarded_append [] log → outcome_inv log.
Proof.
  revert log. apply (rtc_ind_r outcome_inv []).
  - intros ? ?. split; [|left]; cbv; lia.
  - intros. by eapply guarded_append_inv.
Qed.

Lemma outcome_inv_bound log n r :
  outcome_inv log →
  (count (is_outcome n r) log ≤ 1)%nat ∧ (count (is_escalation n r) log ≤ 1)%nat.
Proof. intros Hinv. destruct (Hinv n r) as [? [?|[? _]]]; lia. Qed.

Lemma pending_nodes_sublist events :
  ∃ keys, StronglySorted String.le keys ∧ NoDup keys
    ∧ (pa_node_id <$> pending_approvals events) `sublist_of` keys.
Proof.
  set (m := foldl pending_loop_step ∅ events).
  exists (sort_strings (map_to_list m).*1). split_and!.
  - apply (StronglySorted_merge_sort String.le).
  - unfold sort_strings. rewrite merge_sort_Permutation. apply NoDup_fst_map_to_list.
  - unfold pending_approvals, btree_values. fold m.
    assert (∀ k p, m !! k = Some (Some p) → pa_node_id p = k) as Hm.
    { intros k p Hk. unfold m in Hk. rewrite (proj1 (pending_loop_status k events)) in Hk.
      destruct (foldl (approval_step k) _ _) as [|q| | |] eqn:Hst; try done. injection Hk as ->.
      by apply (open_request_node k events), pending_fold. }
    induction (sort_strings _) as [|k keys IH]; simpl; [constructor|].
    destruct (m !! k) as [[p|]|] eqn:Hk; simpl; [|by constructor..].
    rewrite (Hm k p Hk). by constructor.
Qed.

Definition action_node (a : DeadlineAction) : string :=
  match a with Expire n _ _ | DlEscalate n _ _ _ => n end.
Definition action_sequence (a : DeadlineAction) : EventSequence :=
  match a with Expire _ r _ | DlEscalate _ r _ _ => r end.

Lemma due_action_of events now p a :
  due_action events now p = Some a →
  action_node a = pa_node_id p ∧ action_sequence a = pa_sequence p.
Proof. unfold due_action. intros Ha. repeat case_match; simplify_eq/=; done. Qed.

Lemma due_actions_sublist events now ps :
  (action_node <$> omap (due_action events now) ps) `sublist_of` (pa_node_id <$> ps).
Proof.
  induction ps as [|p ps IH]; simpl; [constructor|].
  destruct (due_action events now p) as [a|] eqn:Ha; simpl; [|by constructor].
  rewrite (proj1 (due_action_of _ _ _ _ Ha)). by constructor.
Qed.
End Guarded.

(** ** What chrono documents *)

(** The chrono behaviour a deadline relies on, up to [horizon]: seconds that fit
    convert exactly, sums up to the horizon are representable, and a time
    printed with millisecond precision reads back as that millisecond. *)
Record chrono_laws `{ChronoOps} (horizon : DateTime) : Prop := {
  law_seconds s : 0 ≤ s ≤ MAX_APPROVAL_TIMEOUT_SECS → try_seconds s = Some (s * NANOS_PER_SEC);
  law_add t d : 0 ≤ t → 0 ≤ d → t + d ≤ horizon → checked_add_signed t d = Some (t + d);
  law_millis t : 0 ≤ t ≤ horizon → parse_rfc3339 (rfc3339_millis t) = Some (t - t `mod` 1000000);
}.

Definition to_millis (t : DateTime) : DateTime := t - t `mod` 1000000.

Section DeadlineLemmas.
Context `{ChronoOps}.

Lemma deadline_after_ok horizon now secs :
  chrono_laws horizon → 0 ≤ now → 0 ≤ secs ≤ MAX_APPROVAL_TIMEOUT_SECS →
  now + secs * NANOS_PER_SEC ≤ horizon →
  deadline_after now secs = Ok (now + secs * NANOS_PER_SEC).
Proof.
  intros Hl Hnow Hs Hh. unfold deadline_after.
  rewrite decide_True by (unfold MAX_APPROVAL_TIMEOUT_SECS in *; lia).
  rewrite (law_seconds _ Hl) by done. simpl.
  by rewrite (law_add _ Hl) by (unfold NANOS_PER_SEC in *; lia).
Qed.

Lemma read_stamped horizon key t m :
  chrono_laws horizon → 0 ≤ t ≤ horizon →
  read (Object (map_insert key (Str (format_deadline t)) m)) key = At (to_millis t).
Proof.
  intros Hl Ht. unfold read, get. rewrite map_get_insert_eq. simpl.
  unfold format_deadline. by rewrite (law_millis _ Hl).
Qed.

Lemma read_other key key' v m :
  key ≠ key' → read (Object (map_insert key' v m)) key = read (Object m) key.
Proof. intros Hne. unfold read, get. by rewrite map_get_insert_ne. Qed.
End DeadlineLemmas.

(** A readable chrono: times print as their millisecond in binary. *)
Fixpoint read_bits (s : string) : option positive :=
  match s with
  | String "1" "" => Some xH
  | String "0" s => xO <$> read_bits s
  | String "2" s => xI <$> read_bits s
  | _ => None
  end.

Lemma read_bits_bits p : read_bits (bits p) = Some p.
Proof. induction p as [p IH|p IH|]; simpl; [|by rewrite IH|done]. rewrite IH. by destruct (bits p). Qed.

Definition milli_chrono : ChronoOps := {|
  rfc3339_millis := λ t, bits (Z.to_pos (t / 1000000 + 1));
  rfc3339 := λ t, bits (Z.to_pos (t / 1000000 + 1));
  parse_rfc3339 := λ s, p ← read_bits s; Some ((Z.pos p - 1) * 1000000);
  try_seconds := λ s, Some (s * NANOS_PER_SEC);
  checked_add_signed := λ t d, Some (t + d);
  duration_from_std := Some |}.

Lemma milli_chrono_laws horizon : @chrono_laws milli_chrono horizon.
Proof.
  constructor; simpl; try done. intros t Ht. rewrite read_bits_bits. simpl. f_equal.
  assert (0 ≤ t / 1000000) by (apply Z.div_pos; lia).
  rewrite Z2Pos.id by lia. rewrite Z.mod_eq by lia. lia.
Qed.

(** ** Properties *)

(** Each approval request gets one outcome. However decisions, expiries and
    escalations of any number of requests interleave, as long as each is
    appended under its condition, a request has at most one recorded decision
    or expiry, never both, and at most one escalation. *)
Theorem approval_outcome_unique `{JsonText, ChronoOps} (log : list Event)
    (n : string) (r : EventSequence) :
  rtc guarded_append [] log →
  (count (is_outcome n r) log ≤ 1)%nat ∧ (count (is_escalation n r) log ≤ 1)%nat.
Proof.
  intros Hreach. by apply outcome_inv_bound, guarded_outcome_inv.
Qed.

(** What an approval releases. A node's approval covers an action digest
    exactly when every event of the log can be read and the last decision that
    answered a then-open request approved that very digest, with no newer
    request since. One unreadable event releases nothing. *)
Theorem approval_covers_sound `{JsonText, ChronoOps} (events : list Event)
    (n digest : string) :
  approval_covers (node_approval_status events n) digest = true ↔
    has_unreadable_events events = false
    ∧ ∃ pre ev post p, events = pre ++ ev :: post ∧ open_request pre n p
        ∧ approves n (Some digest) ev ∧ Forall (λ e, request_of n e = None) post.
Proof.
  rewrite node_approval_status_spec, <- approved_fold.
  destruct (has_unreadable_events events); [naive_solver|].
  split.
  - destruct (foldl _ _ _) as [| |u s [d|]| |]; try done. simpl.
    rewrite bool_decide_eq_true. intros ->. eauto.
  - intros (_ & u & s & ->). simpl. by rewrite bool_decide_eq_true.
Qed.

(** The pending list agrees with the per-node status: in node order, one
    entry per node, exactly the requests with neither a newer request nor a
    resolution after them; on a readable log these are exactly the nodes whose
    status is pending. *)
Theorem pending_approvals_correct `{JsonText, ChronoOps} (events : list Event) :
  NoDup (pa_node_id <$> pending_approvals events)
  ∧ (∀ p, p ∈ pending_approvals events ↔ open_request events (pa_node_id p) p)
  ∧ (has_unreadable_events events = false →
     ∀ p, p ∈ pending_approvals events ↔
       node_approval_status events (pa_node_id p) = Pending p).
Proof.
  split_and!.
  - destruct (pending_nodes_sublist events) as (keys & _ & Hnd & Hsub).
    by eapply sublist_NoDup.
  - apply elem_of_pending_approvals.
  - intros Hu p. rewrite elem_of_pending_approvals, node_approval_status_spec, Hu.
    by rewrite pending_fold.
Qed.

(** The deadline sweep. Its actions are the expiries of exactly the open
    requests whose deadline has passed and the escalations of exactly those
    past their escalation time only and not escalated yet; one action per node
    at most, and on a readable log the condition each action is appended under
    holds. *)
Theorem due_deadline_actions_correct `{JsonText, ChronoOps} (events : list Event)
    (now : DateTime) :
  (∀ n r x, Expire n r x ∈ due_deadline_actions events now ↔
     ∃ p, open_request events n p ∧ pa_sequence p = r
       ∧ expired (pa_deadline p) now = true
       ∧ x = match rd_expires_at (pa_deadline p) with At t => t | _ => now end)
  ∧ (∀ n r e x, DlEscalate n r e x ∈ due_deadline_actions events now ↔
     ∃ p, open_request events n p ∧ pa_sequence p = r
       ∧ rd_expires_at (pa_deadline p) = At x ∧ now < x
       ∧ passed (rd_escalate_at (pa_deadline p)) now = true
       ∧ not_escalated events n r = true
       ∧ e = match rd_escalate_at (pa_deadline p) with At t => t | _ => now end)
  ∧ NoDup (action_node <$> due_deadline_actions events now)
  ∧ (has_unreadable_events events = false →
     ∀ a, a ∈ due_deadline_actions events now →
       still_pending events (action_node a) (action_sequence a) = true).
Proof.
  assert (∀ a, a ∈ due_deadline_actions events now ↔
    ∃ p, open_request events (pa_node_id p) p ∧ due_action events now p = Some a) as Hin.
  { intros a. unfold due_deadline_actions. rewrite list_elem_of_omap.
    apply exist_proper; intros p. by rewrite elem_of_pending_approvals. }
  split_and!.
  - intros n r x. rewrite Hin. split.
    + intros (p & Hp & Ha). exists p. pose proof (due_action_of _ _ _ _ Ha) as [Hn Hr].
      unfold due_action in Ha. simpl in Hn, Hr. destruct (expired _ _); [|by repeat case_match].
      subst. naive_solver.
    + intros (p & Hp & <- & He & ->). exists p. pose proof (open_request_node _ _ _ Hp) as <-.
      unfold due_action. by rewrite He.
  - intros n r e x. rewrite Hin. split.
    + intros (p & Hp & Ha). exists p. pose proof (due_action_of _ _ _ _ Ha) as [Hn Hr].
      unfold due_action in Ha. simpl in Hn, Hr. subst n r.
      destruct (expired _ _) eqn:He; [done|]. unfold expired in He.
      destruct (rd_expires_at _) as [|t|] eqn:Hx; try done. simpl in He.
      destruct (passed (rd_escalate_at _) now) eqn:Hpass; [|done].
      destruct (not_escalated _ _ _) eqn:Hne; [|done]. apply bool_decide_eq_false in He.
      injection Ha as <- <-. split_and!; try done. lia.
    + intros (p & Hp & <- & Hx & Hlt & Hpass & Hne & ->). exists p.
      pose proof (open_request_node _ _ _ Hp) as <-. split; [done|]. unfold due_action, expired.
      rewrite Hx, Hpass, Hne. simpl. rewrite bool_decide_false by lia. done.
  - destruct (pending_nodes_sublist events) as (keys & _ & Hnd & Hsub).
    eapply sublist_NoDup; [exact Hnd|]. etransitivity; [apply due_actions_sublist|exact Hsub].
  - intros Hu a (p & Hp & Ha)%Hin. apply due_action_of in Ha as [-> ->].
    apply still_pending_spec. eauto.
Qed.

(** A stamped deadline reads back. For a deadline the policy check accepts,
    [stamp_deadline] succeeds and the request's recorded deadline is the moment
    the timeout asks for, to the millisecond: never later, and less than a
    millisecond earlier. So the request expires exactly then. *)
Theorem stamp_deadline_reads_back `{ChronoOps} (horizon now : DateTime) (context : Map)
    (d : ApprovalDeadline) :
  chrono_laws horizon → 0 ≤ now → 1 ≤ timeout_secs d ≤ MAX_APPROVAL_TIMEOUT_SECS →
  (∀ e, dl_escalate_after_secs d = Some e → 1 ≤ e < timeout_secs d) →
  now + timeout_secs d * NANOS_PER_SEC ≤ horizon →
  ∃ context',
    stamp_deadline context d now = Ok context'
    ∧ rd_expires_at (RequestDeadline_of (Object context')) =
        At (to_millis (now + timeout_secs d * NANOS_PER_SEC))
    ∧ (∀ e, dl_escalate_after_secs d = Some e →
         rd_escalate_at (RequestDeadline_of (Object context')) =
           At (to_millis (now + e * NANOS_PER_SEC)))
    ∧ (∀ t, expired (RequestDeadline_of (Object context')) t = true ↔
         to_millis (now + timeout_secs d * NANOS_PER_SEC) ≤ t).
Proof.
  intros Hl Hnow Ht He Hh.
  assert (∀ m, rd_expires_at (RequestDeadline_of (Object m)) =
     At (to_millis (now + timeout_secs d * NANOS_PER_SEC)) → ∀ t,
     expired (RequestDeadline_of (Object m)) t = true ↔
     to_millis (now + timeout_secs d * NANOS_PER_SEC) ≤ t) as Hexp.
  { intros m Hm t. unfold expired. rewrite Hm. apply bool_decide_eq_true. }
  unfold NANOS_PER_SEC in Hh.
  unfold stamp_deadline. rewrite (deadline_after_ok horizon) by (unfold NANOS_PER_SEC; auto; lia).
  cbn [mbind result_bind]. destruct (dl_escalate_after_secs d) as [e|].
  - specialize (He e eq_refl).
    rewrite (deadline_after_ok horizon) by (unfold NANOS_PER_SEC; auto; lia).
    eexists. split; [reflexivity|]. simpl.
    rewrite read_other by done.
    rewrite !(read_stamped horizon) by (unfold NANOS_PER_SEC; auto; lia).
    split_and!; [done|naive_solver|]. apply Hexp. simpl.
    rewrite read_other by done. by rewrite (read_stamped horizon) by (unfold NANOS_PER_SEC; auto; lia).
  - eexists. split; [reflexivity|]. simpl.
    rewrite (read_stamped horizon) by (unfold NANOS_PER_SEC; auto; lia).
    split_and!; [done|done|]. apply Hexp. simpl.
    by rewrite (read_stamped horizon) by (unfold NANOS_PER_SEC; auto; lia).
Qed.

(** An approval binds the whole action. Under collision freedom, two action
    digests are equal only when run, step, node, definition and the dispatched
    payload are all the same, so an approved digest never covers another. *)
Theorem action_digest_binding `{JsonText, Sha256Ops}
    (run run' node node' def def' : string) (step step' : Z) (payload payload' : Value) :
  scalar_text →
  collision_free [payload; payload'] →
  collision_free [action_basis_value run step node def (content_hash payload);
                  action_basis_value run' step' node' def' (content_hash payload')] →
  0 ≤ step ≤ u64_max → 0 ≤ step' ≤ u64_max → json_wf payload → json_wf payload' →
  action_digest run step node def payload = action_digest run' step' node' def' payload' →
  run = run' ∧ step = step' ∧ node = node' ∧ def = def' ∧ payload = payload'.
Proof.
  intros Hs Hc Hc' Hst Hst' Hp Hp' Heq.
  assert (∀ r s n d h, 0 ≤ s ≤ u64_max → json_wf (action_basis_value r s n d h)) as Hwf.
  { intros r s n d h Hsb. change (action_basis_value r s n d h) with
      (Object [("definition", Str d); ("domain", Str "jamjet.approval.action.v3");
               ("node", Str n); ("payload", Str h); ("run", Str r); ("step", num s)]).
    cbn [json_wf foldr snd]. split; [|split_and!; done]. cbn [map_sorted].
    repeat split; repeat constructor. }
  apply content_hash_inj in Heq; [|done|done|by apply Hwf..].
  injection Heq. intros Hstep -> Hh -> ->. apply content_hash_inj in Hh; [|done..].
  by subst.
Qed.

(** ** Witnesses *)

Definition sample_event (seq : Z) (k : EventKind) : Event :=
  {| event_id := 0; event_execution_id := mkExecutionId 7; sequence := seq; event_kind := k;
     created_at := 0 |}.
Definition sample_request : Event :=
  sample_event 1 (EventKind.ToolApprovalRequired "pay" "tool" "human" (Object [])).
Definition sample_decision : Event :=
  sample_event 2 (EventKind.ApprovalReceived "pay" "ann" Approved None None None
    (Some "d1") (Some 1)).

Lemma approval_outcome_unique_witness :
  (count (is_outcome "pay" 1) [sample_request; sample_decision] ≤ 1)%nat
  ∧ count (is_outcome "pay" 1) [sample_request; sample_decision] = 1%nat.
Proof.
  split; [|reflexivity].
  refine (proj1 (@approval_outcome_unique code_json milli_chrono
    [sample_request; sample_decision] "pay" 1 _)).
  apply rtc_l with [sample_request].
  - refine (@append_other code_json milli_chrono [] sample_request _ _ _);
      [intros; split; reflexivity|reflexivity|intros e He; by apply not_elem_of_nil in He].
  - apply rtc_once.
    refine (@append_decision code_json milli_chrono [sample_request] sample_decision
      _ _ _ _ _ _ _ _ 0 eq_refl _ _); [vm_compute; reflexivity|].
    intros e ->%list_elem_of_singleton. reflexivity.
Defined.

Lemma stamp_deadline_witness :
  let d := {| timeout_secs := 60; dl_escalate_after_secs := Some 30 |} in
  ∃ c, @stamp_deadline milli_chrono [] d 5000000000 = Ok c
    ∧ rd_expires_at (@RequestDeadline_of milli_chrono (Object c)) = At 65000000000.
Proof.
  intros d.
  destruct (@stamp_deadline_reads_back milli_chrono (10 ^ 20) 5000000000 [] d
    (milli_chrono_laws _) ltac:(lia)) as (c & Hc & Hx & _);
    [vm_compute; split; congruence|intros e [= <-]; vm_compute; split; congruence|vm_compute; congruence|].
  exists c. split; [exact Hc|]. rewrite Hx. reflexivity.
Defined.

Lemma action_digest_witness :
  @action_digest code_json plain_sha256 "r" 0 "pay" "def" (Str "a") ≠
    @action_digest code_json plain_sha256 "r" 1 "pay" "def" (Str "a").
Proof.
  intros Heq.
  assert (∀ n, 0 ≤ n ≤ 3 → 0 ≤ n ≤ u64_max) as Hu by (unfold u64_max; lia).
  assert (∀ a b : Value,
    (@Sha256_digest plain_sha256 (bytes (@canonical_json code_json a)) ≠
     @Sha256_digest plain_sha256 (bytes (@canonical_json code_json b))) →
    @collision_free code_json plain_sha256 [a; b]) as Hcf.
  { intros a b Hab v w [->|[->|[]%not_elem_of_nil]%elem_of_cons]%elem_of_cons
      [->|[->|[]%not_elem_of_nil]%elem_of_cons]%elem_of_cons Hx; try done; by destruct Hab. }
  assert (@collision_free code_json plain_sha256 [Str "a"; Str "a"]) as Hc.
  { intros v w [->|[->|[]%not_elem_of_nil]%elem_of_cons]%elem_of_cons
      [->|[->|[]%not_elem_of_nil]%elem_of_cons]%elem_of_cons _; reflexivity. }
  assert (@collision_free code_json plain_sha256
    [action_basis_value "r" 0 "pay" "def" (@content_hash code_json plain_sha256 (Str "a"));
     action_basis_value "r" 1 "pay" "def" (@content_hash code_json plain_sha256 (Str "a"))])
    as Hc'.
  { apply Hcf. intros Hx. vm_compute in Hx. discriminate Hx. }
  discriminate (proj1 (proj2 (@action_digest_binding code_json plain_sha256
    "r" "r" "pay" "pay" "def" "def" 0 1 (Str "a") (Str "a") code_json_scalar_text Hc Hc'
    (Hu 0 ltac:(lia)) (Hu 1 ltac:(lia)) I I Heq))).
Defined.
