(* ===== verification/Backend.v ===== *)
(** * The storage interface ([state/src/backend.rs], [state/src/tenant.rs],
    [state/src/artifact.rs])

    The data a backend stores and returns, the [StateBackend] trait as a
    typeclass of effectful operations, and the laws its clients rely on. *)

From S2P Require Import Prelude.
From S2P Require Import Json.
From S2P Require Import RustStr.
From S2P Require Import Core.
From S2P Require Import Condition.
From S2P Require Import Event.
From S2P Require Import Materializer.
From S2P Require Import Hashing.
From S2P Require Import Approvals.
From Stdlib Require Import Ascii.

(** ** Tenants *)

Definition DEFAULT_TENANT : string := "default".

Record TenantId := mkTenantId { tenant_str : string }.
#[export] Instance TenantId_eq_dec : EqDecision TenantId.
Proof. solve_decision. Defined.
#[export] Instance TenantId_countable : Countable TenantId.
Proof. by refine (inj_countable' tenant_str mkTenantId _); intros []. Defined.

Module TenantStatus.
Inductive TenantStatus := Active | Suspended | Archived.

Definition as_str (s : TenantStatus) : string :=
  match s with Active => "active" | Suspended => "suspended" | Archived => "archived" end.

Definition parse (s : string) : TenantStatus :=
  if decide (s = "suspended") then Suspended
  else if decide (s = "archived") then Archived
  else Active.
End TenantStatus.

Record TenantLimits := {
  max_concurrent_executions : option Z;
  max_workflows : option Z;
  max_tokens_per_month : option Z;
  max_cost_per_month_usd : option f64;
}.

Record Tenant := {
  tn_id : TenantId; tn_name : string; tn_status : TenantStatus.TenantStatus;
  tn_policy : option Value; tn_limits : option TenantLimits;
  tn_created_at : DateTime; tn_updated_at : DateTime;
}.

(** ** What a backend stores *)

Record ApprovalProjectionRow := {
  ap_execution_id : ExecutionId;
  ap_node_id : string;
  ap_status : string;
  ap_user_id : option string;
  ap_comment : option string;
  ap_last_sequence : Z;
  ap_tool_name : option string;
  ap_approver : option string;
  ap_context : option Value;
}.

Record WorkflowDefinition := {
  wd_workflow_id : string;
  wd_version : string;
  wd_ir : Value;
  wd_created_at : DateTime;
  wd_tenant_id : string;
}.

Inductive StateBackendError :=
| NotFound (what : string)
| SequenceConflict (what : string)
| FenceLost (item : string)
| Database (msg : string)
| VersionConflict (what : string)
| Serialization (msg : string).

(** [Display] (derived from [#[error(..)]]). *)
Definition StateBackendError_display (e : StateBackendError) : string :=
  match e with
  | NotFound s => "execution not found: " +:+ s
  | SequenceConflict s => "optimistic concurrency conflict: sequence mismatch for " +:+ s
  | FenceLost s => "lease fence superseded for work item " +:+ s
                   +:+ ": lease was stolen or store failed over"
  | Database s => "database error: " +:+ s
  | VersionConflict s =>
      "workflow version already registered with a different definition: " +:+ s
  | Serialization s => "serialization error: " +:+ s
  end.

Record ApiToken := {
  tok_id : string; tok_name : string; tok_role : string; tok_created_at : DateTime;
  tok_expires_at : option DateTime; tok_tenant_id : string;
}.

Abbreviation WorkItemId := N (only parsing).

Record WorkItem := {
  wi_id : WorkItemId;
  wi_execution_id : ExecutionId;
  wi_node_id : string;
  queue_type : string;
  payload : Value;
  attempt : Z;
  max_attempts : Z;
  wi_created_at : DateTime;
  lease_expires_at : option DateTime;
  worker_id : option string;
  lease_fence : Z;
  wi_tenant_id : string;
}.

Record ArtifactRef := { ar_hash : string; ar_size : Z; ar_media_type : option string }.

(** ** Lease arithmetic *)

Definition DEFAULT_LEASE_SECS : Z := 30.
Definition MIN_LEASE_SECS : Z := 5.
Definition MAX_LEASE_SECS : Z := 3600.

Definition granted_lease_secs (requested : option Z) : Z :=
  match requested with
  | None => DEFAULT_LEASE_SECS
  | Some s => Z.min (Z.max s MIN_LEASE_SECS) MAX_LEASE_SECS
  end.

(** A fence: [term * 4_294_967_296 + epoch] in i64. *)
Definition mint_fence (term epoch : Z) : Z := i64_add (i64_mul term 4294967296) epoch.

Definition fence_epoch (lease_fence : Z) : Z := Z.land lease_fence 4294967295.

Definition epoch_after_expiry_of (lost_fence : Z) : Z := fence_epoch lost_fence + 1.

(** ** What the operations answer *)

Inductive ExecutionFinish :=
| Finished (seq : EventSequence)
| AlreadyTerminal (s : WorkflowStatus).

Inductive ConditionalAppend :=
| Appended (seq : EventSequence)
| Refused
| AppendExecutionTerminal (s : WorkflowStatus).

Inductive TurnCommit :=
| Committed (seq : EventSequence)
| TurnExecutionTerminal (s : WorkflowStatus).

Record LeaseRenewal := { lr_lease_fence : Z; reattached : bool }.

Record ReclaimResult := { retryable : list WorkItem; exhausted : list WorkItem }.
Definition ReclaimResult_default : ReclaimResult := {| retryable := []; exhausted := [] |}.

Inductive ReserveOutcome :=
| Acquired
| Held (owner expires_at : string).

Inductive FailOutcome :=
| Retryable (item : WorkItem) (delay_ms : Z)
| Exhausted (item : WorkItem).

Definition same_definition `{JsonText, Sha256Ops} (a b : Value) : bool :=
  bool_decide (content_hash a = content_hash b).

Definition version_conflict (workflow_id version : string) : StateBackendError :=
  VersionConflict (workflow_id +:+ " v" +:+ version +:+ "; register a new version instead").

(** ** The trait *)

Abbreviation bk S A := (eff S StateBackendError A) (only parsing).

(** [StateBackend] over a store of type [S]. [EventCondition] is a function of
    the clock and the log: a condition may read [Utc::now()] when it is called. *)
Class StateBackend (S : Type) := {
  store_workflow : WorkflowDefinition → bk S unit;
  get_workflow : string → string → bk S (option WorkflowDefinition);
  create_execution : WorkflowExecution → bk S unit;
  get_execution : ExecutionId → bk S (option WorkflowExecution);
  execution_tenant : ExecutionId → bk S (option TenantId);
  update_execution_status : ExecutionId → WorkflowStatus → bk S unit;
  finish_execution : Event → WorkflowStatus → bk S ExecutionFinish;
  append_event_if : Event → (DateTime → list Event → bool) → bk S ConditionalAppend;
  update_execution_current_state : ExecutionId → Value → bk S unit;
  patch_append_array : ExecutionId → string → Value → bk S unit;
  list_executions : option WorkflowStatus → Z → Z → bk S (list WorkflowExecution);
  append_event : Event → bk S EventSequence;
  get_events : ExecutionId → bk S (list Event);
  get_events_since : ExecutionId → EventSequence → bk S (list Event);
  latest_sequence : ExecutionId → bk S EventSequence;
  write_snapshot : Snapshot → bk S unit;
  latest_snapshot : ExecutionId → bk S (option Snapshot);
  create_segment_atomic :
    WorkflowExecution → Snapshot → EventKind → EventKind → WorkItem → bk S unit;
  start_execution_atomic : WorkflowExecution → EventKind → EventKind → WorkItem → bk S unit;
  get_tool_effect : string → bk S (option Value);
  reserve_tool_effect : string → ExecutionId → string → string → Z → Z → bk S ReserveOutcome;
  release_tool_reservation : string → string → Z → bk S unit;
  put_artifact : list N → option string → bk S ArtifactRef;
  get_artifact : string → bk S (option (list N));
  enqueue_work_item : WorkItem → bk S WorkItemId;
  claim_work_item : string → list string → bk S (option WorkItem);
  renew_lease : WorkItemId → string → Z → bk S unit;
  claim_work_item_with_lease : string → list string → option Z → bk S (option WorkItem);
  heartbeat_lease : WorkItemId → string → Z → bk S LeaseRenewal;
  get_work_item : WorkItemId → bk S (option WorkItem);
  complete_work_item : WorkItemId → bk S unit;
  complete_work_item_fenced : WorkItemId → Z → bk S bool;
  fail_work_item : WorkItemId → string → bk S unit;
  fail_work_item_fenced : WorkItemId → Z → string → bk S (option FailOutcome);
  commit_turn : WorkItemId → Z → Event → bool → bk S EventSequence;
  commit_turn_unless_terminal : WorkItemId → Z → Event → bool → bk S TurnCommit;
  withdraw_work_item_fenced : WorkItemId → Z → bk S bool;
  park_work_item : WorkItemId → Z → string → Z → bk S bool;
  finalize_rollover_fenced : ExecutionId → WorkItemId → Z → bk S bool;
  reclaim_expired_leases : bk S ReclaimResult;
  move_to_dead_letter : WorkItemId → string → bk S unit;
  create_token : string → string → bk S (string * ApiToken);
  validate_token : string → bk S (option ApiToken);
  apply_approval_projection : ApprovalProjectionRow → string → Z → bk S unit;
  apply_approval_projection_batch :
    list ApprovalProjectionRow → string → ExecutionId → Z → bk S unit;
  get_approval_projection : ExecutionId → bk S (list ApprovalProjectionRow);
  get_projector_checkpoint : string → ExecutionId → bk S Z;
  set_projector_checkpoint : string → ExecutionId → Z → bk S unit;
  create_tenant : Tenant → bk S unit;
  get_tenant : TenantId → bk S (option Tenant);
  list_tenants : bk S (list Tenant);
  update_tenant : Tenant → bk S unit;
}.

(** The trait's default [count_node_completions]: a scan of the log. *)
Definition is_completion_of (node_id : string) (e : Event) : bool :=
  match event_kind e with
  | EventKind.NodeCompleted nid _ _ _ _ _ _ _ _ _ _ _ => bool_decide (nid = node_id)
  | _ => false
  end.
Definition count_node_completions {S} `{StateBackend S} (execution_id : ExecutionId)
    (node_id : string) : bk S Z :=
  events ← get_events execution_id;
  mret (Z.of_nat (length (base.filter (λ e, is_completion_of node_id e = true) events))).

(** [materialize] ([materializer.rs]). *)
Definition materialize {S} `{UuidOps, StateBackend S} (execution_id : ExecutionId)
    : bk S MaterializedState :=
  found ← get_execution execution_id;
  execution ← of_result (ok_or (NotFound (ExecutionId_display execution_id)) found);
  snap ← latest_snapshot execution_id;
  let base :=
    match snap with
    | Some snap => (of_snapshot snap, at_sequence snap)
    | None => (origin (initial_input execution), 0)
    end in
  events ← get_events_since execution_id base.2;
  mret (apply_events_seeded base.1 events).

(** [derive_idempotency_key] ([hashing.rs]). *)
Definition derive_idempotency_key {S} `{UuidOps, JsonText, Sha256Ops, StateBackend S}
    (execution_id : ExecutionId) (node_id : string) : bk S string :=
  step ← count_node_completions execution_id node_id;
  execution ← get_execution execution_id;
  let current := match execution with Some e => current_state e | None => obj [] end in
  mret (idempotency_key (ExecutionId_display execution_id) 0 step node_id
          (content_hash current)).

(** [approvals::action_basis] and [derive_action_digest]. *)
Definition action_basis {S} `{UuidOps, StateBackend S} (execution_id : ExecutionId)
    (node_id definition : string) (payload : Value) : bk S ActionBasis :=
  step ← count_node_completions execution_id node_id;
  mret {| ab_run := ExecutionId_display execution_id; ab_step := step;
          ab_definition := definition; ab_payload := action_payload payload |}.

Definition derive_action_digest {S} `{UuidOps, JsonText, Sha256Ops, StateBackend S}
    (execution_id : ExecutionId) (node_id definition : string) (payload : Value)
    : bk S string :=
  basis ← action_basis execution_id node_id definition payload;
  mret (ab_digest basis node_id).

(** ** What clients may rely on

    The laws the segment and scheduler code is verified against: reads do not
    write, a conditional append lands only when its condition held on the log
    it was given, a segment's rows appear together. *)
Class BackendView (S : Type) := {
  view_execution : S → ExecutionId → option WorkflowExecution;
  view_log : S → ExecutionId → list Event;
  view_items : S → WorkItemId → option WorkItem;
  view_snapshots : S → ExecutionId → list Snapshot;
}.

(** The sequence of a log's last event, [0] for an empty log. *)
Definition log_end (log : list Event) : EventSequence :=
  match last log with Some e => sequence e | None => 0 end.

(** [s'] differs from [s] in no run's row and no work item. *)
Definition same_runs {S} `{BackendView S} (s s' : S) : Prop :=
  (∀ id, view_execution s' id = view_execution s id) ∧ (∀ i, view_items s' i = view_items s i).

(** [seq] is the sequence [ev] was appended under, if it was. *)
Definition appended_to {S} `{BackendView S} (ev : Event) (seq : option EventSequence)
    (s s' : S) : Prop :=
  ∀ id, view_log s' id = match seq with
    | Some seq => if decide (id = event_execution_id ev)
                  then view_log s id ++ [set_sequence ev seq] else view_log s id
    | None => view_log s id
    end.

Class StateBackendLaws (S : Type) `{StateBackend S, BackendView S} := {
  law_get_execution id w : get_execution id w = (Ok (view_execution (store w) id), w);
  law_get_events id w : get_events id w = (Ok (view_log (store w) id), w);
  law_get_events_since id n w :
    get_events_since id n w = (Ok (events_after n (view_log (store w) id)), w);
  law_latest_sequence id w : latest_sequence id w = (Ok (log_end (view_log (store w) id)), w);
  law_get_workflow id v w : (get_workflow id v w).2 = w;
  law_list_executions st limit offset w : (list_executions st limit offset w).2 = w;
  law_reclaim w r w' :
    reclaim_expired_leases w = (r, w') → ∀ id, view_log (store w') id = view_log (store w) id;
  law_execution_tenant id w : (execution_tenant id w).2 = w;
  law_get_tenant id w : (get_tenant id w).2 = w;
  law_append_event ev w r w' :
    append_event ev w = (r, w') →
    same_runs (store w) (store w')
    ∧ appended_to ev (match r with Ok seq => Some seq | Err _ => None end) (store w) (store w');
  law_enqueue item w r w' :
    enqueue_work_item item w = (r, w') →
    (∀ id, view_execution (store w') id = view_execution (store w) id)
    ∧ (∀ id, view_log (store w') id = view_log (store w) id)
    ∧ ∀ i, view_items (store w') i =
        if is_ok r && bool_decide (i = wi_id item) then Some item else view_items (store w) i;
  law_finish ev st w r w' :
    finish_execution ev st w = (r, w') →
    (∀ i, view_items (store w') i = view_items (store w) i)
    ∧ appended_to ev (match r with Ok (Finished seq) => Some seq | _ => None end)
        (store w) (store w')
    ∧ (∀ id, id ≠ event_execution_id ev →
         view_execution (store w') id = view_execution (store w) id)
    ∧ match r with
      | Ok (Finished _) => status <$> view_execution (store w') (event_execution_id ev) = Some st
          ∧ ∃ e, view_execution (store w) (event_execution_id ev) = Some e
              ∧ WorkflowStatus.is_terminal (status e) = false
      | _ => view_execution (store w') (event_execution_id ev)
             = view_execution (store w) (event_execution_id ev)
      end;
  law_append_event_if ev cond w r w' :
    append_event_if ev cond w = (r, w') →
    same_runs (store w) (store w') ∧
    let log := view_log (store w) (event_execution_id ev) in
    match r with
    | Ok (Appended seq) =>
        cond (clock w) log = true
        ∧ view_log (store w') (event_execution_id ev) = log ++ [set_sequence ev seq]
    | _ => ∀ id, view_log (store w') id = view_log (store w) id
    end;
  law_append_event_if_other ev cond w r w' id :
    append_event_if ev cond w = (r, w') → id ≠ event_execution_id ev →
    view_log (store w') id = view_log (store w) id;
  law_append_event_if_open ev cond w seq w' :
    append_event_if ev cond w = (Ok (Appended seq), w') →
    ∃ e, view_execution (store w) (event_execution_id ev) = Some e
       ∧ WorkflowStatus.is_terminal (status e) = false;
  law_update_status id st w r w' :
    update_execution_status id st w = (r, w') →
    (∀ i, view_items (store w') i = view_items (store w) i)
    ∧ (∀ i, view_log (store w') i = view_log (store w) i)
    ∧ (∀ i, i ≠ id → view_execution (store w') i = view_execution (store w) i)
    ∧ match r with
      | Ok _ => status <$> view_execution (store w') id = Some st
      | Err _ => view_execution (store w') id = view_execution (store w) id
      end;
  law_create_segment exec snap started scheduled item w r w' :
    create_segment_atomic exec snap started scheduled item w = (r, w') →
    r = Ok tt
    ∧ (∀ id, view_execution (store w') id =
         if decide (id = execution_id exec) then Some exec else view_execution (store w) id)
    ∧ (∀ i, view_items (store w') i =
         if decide (i = wi_id item) then Some item else view_items (store w) i)
    ∧ (∀ id, view_snapshots (store w') id =
         if decide (id = execution_id exec) then view_snapshots (store w) id ++ [snap]
         else view_snapshots (store w) id)
    ∧ (∀ id, id ≠ execution_id exec → view_log (store w') id = view_log (store w) id)
    ∧ (∃ e1 e2, view_log (store w') (execution_id exec) =
         view_log (store w) (execution_id exec) ++ [e1; e2]
       ∧ event_kind e1 = started ∧ event_kind e2 = scheduled);
  (* the random generator only moves on *)
  law_append_event_draws ev w : (draws w ≤ draws (append_event ev w).2)%N;
  law_enqueue_draws item w : (draws w ≤ draws (enqueue_work_item item w).2)%N;
}.

(** The call changes no log and no run. *)
Definition keeps_record {S} `{BackendView S} {A} (m : bk S A) : Prop :=
  ∀ w, (∀ id, view_log (store (m w).2) id = view_log (store w) id)
     ∧ ∀ id, view_execution (store (m w).2) id = view_execution (store w) id.

(** What the settling calls of the worker protocol promise. *)
Class WorkItemLaws (S : Type) `{StateBackend S, BackendView S} := {
  law_get_work_item id w : get_work_item id w = (Ok (view_items (store w) id), w);
  law_complete_quiet id : keeps_record (complete_work_item id);
  law_complete_fenced_quiet id fence : keeps_record (complete_work_item_fenced id fence);
  law_withdraw_quiet id fence : keeps_record (withdraw_work_item_fenced id fence);
  law_fail_quiet id error : keeps_record (fail_work_item id error);
  law_fail_fenced_quiet id fence error : keeps_record (fail_work_item_fenced id fence error);
  law_update_current id cs w :
    (∀ i, view_log (store (update_execution_current_state id cs w).2) i = view_log (store w) i)
    ∧ ∀ i, view_items (store (update_execution_current_state id cs w).2) i
           = view_items (store w) i;
  law_commit_turn id fence ev snap w r w' :
    commit_turn_unless_terminal id fence ev snap w = (r, w') →
    appended_to ev (match r with Ok (Committed seq) => Some seq | _ => None end)
      (store w) (store w')
    ∧ (∀ i, view_execution (store w') i = view_execution (store w) i)
    ∧ (∀ i, i ≠ id → view_items (store w') i = view_items (store w) i)
    ∧ match r with
      | Ok (Committed _) =>
          (∃ item, view_items (store w) id = Some item ∧ lease_fence item = fence)
          ∧ view_items (store w') id = None
          ∧ (∀ e, view_execution (store w) (event_execution_id ev) = Some e →
             WorkflowStatus.is_terminal (status e) = false)
      | _ => True
      end;
  law_start_execution exec started scheduled item w r w' :
    start_execution_atomic exec started scheduled item w = (r, w') →
    r = Ok tt
    ∧ (∀ id, view_execution (store w') id =
         if decide (id = execution_id exec) then Some exec else view_execution (store w) id)
    ∧ (∀ i, view_items (store w') i =
         if decide (i = wi_id item) then Some item else view_items (store w) i)
    ∧ (∀ id, id ≠ execution_id exec → view_log (store w') id = view_log (store w) id)
    ∧ (∃ e1 e2, view_log (store w') (execution_id exec) =
         view_log (store w) (execution_id exec) ++ [e1; e2]
       ∧ event_kind e1 = started ∧ event_kind e2 = scheduled);
}.

(** What the calls of an in-process worker promise. *)
Class WorkerLaws (S : Type) `{StateBackend S, BackendView S} := {
  law_get_tool_effect key w : (get_tool_effect key w).2 = w;
  law_latest_snapshot id w : (latest_snapshot id w).2 = w;
  law_put_artifact c m : keeps_record (put_artifact c m);
  law_put_artifact_items c m w i :
    view_items (store (put_artifact c m w).2) i = view_items (store w) i;
  law_release_reservation key owner fence : keeps_record (release_tool_reservation key owner fence);
  law_park id fence after next w r w' :
    park_work_item id fence after next w = (r, w') →
    (∀ i, view_log (store w') i = view_log (store w) i)
    ∧ (r = Ok true → ∃ item, view_items (store w) id = Some item ∧ lease_fence item = fence);
  law_commit_turn_any id fence ev snap w r w' :
    commit_turn id fence ev snap w = (r, w') →
    appended_to ev (match r with Ok seq => Some seq | Err _ => None end) (store w) (store w')
    ∧ (∀ i, view_execution (store w') i = view_execution (store w) i)
    ∧ (∀ i, i ≠ id → view_items (store w') i = view_items (store w) i)
    ∧ match r with
      | Ok _ => (∃ item, view_items (store w) id = Some item ∧ lease_fence item = fence)
                ∧ view_items (store w') id = None
      | Err _ => True
      end;
}.

(** The writes a store that cannot fail makes. *)
Class BackendTotal (S : Type) `{StateBackend S, BackendView S} := {
  total_append_event ev w : is_ok (append_event ev w).1 = true;
  total_enqueue item w : is_ok (enqueue_work_item item w).1 = true;
  total_finish ev st w e :
    WorkflowStatus.is_terminal st = true →
    view_execution (store w) (event_execution_id ev) = Some e →
    WorkflowStatus.is_terminal (status e) = false →
    ∃ seq, (finish_execution ev st w).1 = Ok (Finished seq);
}.
