(* ===== verification/Journal.v ===== *)
(** * Recording events in a run's log

    What a component that only records events does to a backend: the relation
    [journals], respected by reads and by appends, and the audit sealing every
    such component shares ([state/src/approvals.rs]: [seal_appended],
    [record_seal_gap]). *)

From S2P Require Import Prelude.
From S2P Require Import Json.
From S2P Require Import Core.
From S2P Require Import Condition.
From S2P Require Import Event.
From S2P Require Import Materializer.
From S2P Require Import Hashing.
From S2P Require Import Approvals.
From S2P Require Import Backend.

(** ** Sealing *)

Section Sealing.
Context {S : Type} `{!UuidOps, HB : StateBackend S}.

(** [record_seal_gap]: best effort, its own failure is only logged. *)
Definition record_seal_gap (event : Event) (error : string) : bk S unit :=
  gap ← Event_new (event_execution_id event) 0
    (EventKind.AuditSealFailed (event_id event) (sequence event)
       (EventKind.type_tag (event_kind event)) error);
  recover (append_event gap ≫= λ _, mret tt) (λ _, mret tt).

(** [seal_appended]. The sealer is a parameter: its own store is not here. *)
Definition seal_appended (sl : option (Event → string → result string unit)) (event : Event)
    (appended : EventSequence) (tenant_id : string) : bk S unit :=
  match sl with
  | Some seal_approval_record =>
      let event := set_sequence event appended in
      match seal_approval_record event tenant_id with
      | Ok _ => mret tt
      | Err error => record_seal_gap event error
      end
  | None => mret tt
  end.
End Sealing.

(** ** What such a component does to a store *)

Section Journal.
Context {S : Type} `{!UuidOps, HL : StateBackendLaws S}.

(** Only events of [P]'s kinds were appended, to the log of [id] alone, and no
    run's row and no work item changed. *)
Definition journals (P : EventKind → Prop) (id : ExecutionId) (s s' : S) : Prop :=
  same_runs s s'
  ∧ (∃ evs, view_log s' id = view_log s id ++ evs ∧ Forall (λ ev, P (event_kind ev)) evs)
  ∧ ∀ id', id' ≠ id → view_log s' id' = view_log s id'.

#[export] Instance journals_preorder P id : PreOrder (journals P id).
Proof.
  split.
  - intros s. split; [done|]. split; [|done]. exists []. by rewrite app_nil_r.
  - intros s1 s2 s3 ([R1 I1] & (l1 & E1 & F1) & O1) ([R2 I2] & (l2 & E2 & F2) & O2).
    split; [split; intros x; [by rewrite R2|by rewrite I2]|]. split.
    + exists (l1 ++ l2). by rewrite E2, E1, (assoc_L _), Forall_app.
    + intros id' Hne. by rewrite O2, O1.
Qed.

Lemma journals_weaken (P Q : EventKind → Prop) id s s' :
  (∀ k, P k → Q k) → journals P id s s' → journals Q id s s'.
Proof.
  intros HPQ (Hs & (evs & Hl & HF) & Ho). split; [done|]. split; [|done]. exists evs.
  split; [done|]. eapply Forall_impl; [exact HF|]. intros ev. apply HPQ.
Qed.

Lemma journals_none id s s' : same_runs s s' → (∀ i, view_log s' i = view_log s i) →
  ∀ P, journals P id s s'.
Proof.
  intros Hs Hl P. split; [done|]. split; [|intros; apply Hl]. exists []. by rewrite app_nil_r.
Qed.

Lemma journals_appended P id ev seq s s' :
  same_runs s s' → appended_to ev seq s s' → event_execution_id ev = id → P (event_kind ev) →
  journals P id s s'.
Proof.
  intros Hs Hl <- HP. split; [done|]. split.
  - rewrite (Hl (event_execution_id ev)). destruct seq as [seq|].
    + rewrite decide_True by done. exists [set_sequence ev seq]. split; [done|by constructor].
    + exists []. by rewrite app_nil_r.
  - intros id' Hne. rewrite (Hl id'). destruct seq; [|done]. by rewrite decide_False.
Qed.

Lemma journals_append P id ev :
  event_execution_id ev = id → P (event_kind ev) → respects (journals P id) (append_event ev).
Proof.
  intros Hid HP w. destruct (append_event ev w) as [r w'] eqn:Hrun.
  apply law_append_event in Hrun as [Hs Hl]. by eapply journals_appended.
Qed.

Lemma journals_append_if P id ev cond :
  event_execution_id ev = id → P (event_kind ev) →
  respects (journals P id) (append_event_if ev cond).
Proof.
  intros Hid HP w. destruct (append_event_if ev cond w) as [r w'] eqn:Hrun.
  pose proof (law_append_event_if_other ev cond w r w') as Ho.
  pose proof (law_append_event_if ev cond w r w' Hrun) as [Hs Hlog].
  eapply (journals_appended _ _ _ (match r with Ok (Appended seq) => Some seq | _ => None end));
    [done| |exact Hid|exact HP].
  intros i. simpl in Hlog |- *. destruct r as [[seq| |st]|e]; try apply Hlog.
  case_decide as Hi; [subst i; apply Hlog|by apply Ho].
Qed.

(** A read leaves the store alone. *)
Lemma journals_read {A} P id (m : bk S A) :
  (∀ w, (m w).2 = w) → respects (journals P id) m.
Proof. intros Hm w. rewrite Hm. reflexivity. Qed.

Lemma journals_new {E A} P id eid n k (f : Event → eff S E A) :
  (∀ e, event_execution_id e = eid → event_kind e = k → respects (journals P id) (f e)) →
  respects (journals P id) (Event_new eid n k ≫= f).
Proof.
  intros Hf w. unfold Event_new. rewrite bind_assoc, bind_new_v4, bind_assoc, bind_now, bind_mret.
  match goal with |- journals _ _ _ (store (f ?e ?w').2) => apply (Hf e eq_refl eq_refl w') end.
Qed.

Definition is_seal_gap (k : EventKind) : Prop :=
  match k with EventKind.AuditSealFailed _ _ _ _ => True | _ => False end.

Lemma journals_gap P id ev e :
  (∀ k, is_seal_gap k → P k) → event_execution_id ev = id →
  respects (journals P id) (record_seal_gap ev e).
Proof.
  intros HP Hid. unfold record_seal_gap. rewrite Hid. apply journals_new. intros gap Hg Hk.
  apply respects_recover; [apply _| |intros; apply respects_mret, _].
  apply respects_bind; [apply _| |intros; apply respects_mret, _].
  apply journals_append; [done|]. rewrite Hk. by apply HP.
Qed.

Lemma journals_seal P id sl ev seq tenant :
  (∀ k, is_seal_gap k → P k) → event_execution_id ev = id →
  respects (journals P id) (seal_appended sl ev seq tenant).
Proof.
  intros HP Hid. unfold seal_appended. destruct sl as [sl|]; [|apply respects_mret, _].
  case_match; [apply respects_mret, _|by apply journals_gap].
Qed.

Lemma record_seal_gap_ok ev e w : is_ok (record_seal_gap ev e w).1 = true.
Proof.
  unfold record_seal_gap, Event_new. rewrite bind_assoc, bind_new_v4, bind_assoc, bind_now, bind_mret.
  unfold recover. by destruct ((append_event _ ≫= _) _) as [[] ?].
Qed.

Lemma seal_appended_ok sl ev seq tenant w : is_ok (seal_appended sl ev seq tenant w).1 = true.
Proof.
  unfold seal_appended. destruct sl as [sl|]; [|done]. case_match; [done|].
  apply record_seal_gap_ok.
Qed.
End Journal.
