(* ===== verification/Memory.v ===== *)
(** * The in-memory backend ([state/src/memory.rs])

    Every operation of [InMemoryBackend] as a function of its store, the clock
    and the id generator. A [DashMap] is a [gmap] whose iteration order is a
    parameter; each backend call is one step. The counters (sequence, lease
    epoch, store term) are 64-bit and only ever move up by one, so their own
    wrap-around, 2^63 steps away, is not modelled; a fence is computed from them
    in i64 arithmetic ([mint_fence]), which a large term does overflow. *)

From S2P Require Import Prelude.
From S2P Require Import Json.
From S2P Require Import RustStr.
From S2P Require Import Core.
From S2P Require Import Condition.
From S2P Require Import Event.
From S2P Require Import Materializer.
From S2P Require Import Hashing.
From S2P Require Import Approvals.
From S2P Require Import Backend.
From Stdlib Require Import Ascii.

Record InMemoryBackend := {
  workflows : gmap (string * string) WorkflowDefinition;
  executions : gmap ExecutionId WorkflowExecution;
  events : gmap ExecutionId (list Event);
  snapshots : gmap ExecutionId (list Snapshot);
  work_items : gmap N WorkItem;
  dead_letter : gmap N WorkItem;
  tokens : gmap string ApiToken;
  tenants : gmap TenantId Tenant;
  next_sequence : Z;
  lease_epochs : gmap N Z;
  store_term : Z;
  tool_effects : gmap string Value;
  tool_reservations : gmap string (string * Z * DateTime);
  proj_approvals : gmap (string * string) ApprovalProjectionRow;
  projector_checkpoints : gmap (string * string) Z;
  artifacts : gmap (string * string) (list N * option string);
  lease_secs : gmap N Z;
  last_lease : gmap N (string * Z);
}.

(** ** Field updates *)

Definition set_workflows (x : gmap (string * string) WorkflowDefinition) (s : InMemoryBackend) : InMemoryBackend := {|
  workflows := x; executions := executions s; events := events s; snapshots := snapshots s;
  work_items := work_items s; dead_letter := dead_letter s; tokens := tokens s;
  tenants := tenants s; next_sequence := next_sequence s; lease_epochs := lease_epochs s;
  store_term := store_term s; tool_effects := tool_effects s;
  tool_reservations := tool_reservations s; proj_approvals := proj_approvals s;
  projector_checkpoints := projector_checkpoints s; artifacts := artifacts s;
  lease_secs := lease_secs s; last_lease := last_lease s |}.
Definition set_executions (x : gmap ExecutionId WorkflowExecution) (s : InMemoryBackend) : InMemoryBackend := {|
  workflows := workflows s; executions := x; events := events s; snapshots := snapshots s;
  work_items := work_items s; dead_letter := dead_letter s; tokens := tokens s;
  tenants := tenants s; next_sequence := next_sequence s; lease_epochs := lease_epochs s;
  store_term := store_term s; tool_effects := tool_effects s;
  tool_reservations := tool_reservations s; proj_approvals := proj_approvals s;
  projector_checkpoints := projector_checkpoints s; artifacts := artifacts s;
  lease_secs := lease_secs s; last_lease := last_lease s |}.
Definition set_events (x : gmap ExecutionId (list Event)) (s : InMemoryBackend) : InMemoryBackend := {|
  workflows := workflows s; executions := executions s; events := x; snapshots := snapshots s;
  work_items := work_items s; dead_letter := dead_letter s; tokens := tokens s;
  tenants := tenants s; next_sequence := next_sequence s; lease_epochs := lease_epochs s;
  store_term := store_term s; tool_effects := tool_effects s;
  tool_reservations := tool_reservations s; proj_approvals := proj_approvals s;
  projector_checkpoints := projector_checkpoints s; artifacts := artifacts s;
  lease_secs := lease_secs s; last_lease := last_lease s |}.
Definition set_snapshots (x : gmap ExecutionId (list Snapshot)) (s : InMemoryBackend) : InMemoryBackend := {|
  workflows := workflows s; executions := executions s; events := events s; snapshots := x;
  work_items := work_items s; dead_letter := dead_letter s; tokens := tokens s;
  tenants := tenants s; next_sequence := next_sequence s; lease_epochs := lease_epochs s;
  store_term := store_term s; tool_effects := tool_effects s;
  tool_reservations := tool_reservations s; proj_approvals := proj_approvals s;
  projector_checkpoints := projector_checkpoints s; artifacts := artifacts s;
  lease_secs := lease_secs s; last_lease := last_lease s |}.
Definition set_work_items (x : gmap N WorkItem) (s : InMemoryBackend) : InMemoryBackend := {|
  workflows := workflows s; executions := executions s; events := events s;
  snapshots := snapshots s; work_items := x; dead_letter := dead_letter s; tokens := tokens s;
  tenants := tenants s; next_sequence := next_sequence s; lease_epochs := lease_epochs s;
  store_term := store_term s; tool_effects := tool_effects s;
  tool_reservations := tool_reservations s; proj_approvals := proj_approvals s;
  projector_checkpoints := projector_checkpoints s; artifacts := artifacts s;
  lease_secs := lease_secs s; last_lease := last_lease s |}.
Definition set_dead_letter (x : gmap N WorkItem) (s : InMemoryBackend) : InMemoryBackend := {|
  workflows := workflows s; executions := executions s; events := events s;
  snapshots := snapshots s; work_items := work_items s; dead_letter := x; tokens := tokens s;
  tenants := tenants s; next_sequence := next_sequence s; lease_epochs := lease_epochs s;
  store_term := store_term s; tool_effects := tool_effects s;
  tool_reservations := tool_reservations s; proj_approvals := proj_approvals s;
  projector_checkpoints := projector_checkpoints s; artifacts := artifacts s;
  lease_secs := lease_secs s; last_lease := last_lease s |}.
Definition set_tokens (x : gmap string ApiToken) (s : InMemoryBackend) : InMemoryBackend := {|
  workflows := workflows s; executions := executions s; events := events s;
  snapshots := snapshots s; work_items := work_items s; dead_letter := dead_letter s;
  tokens := x; tenants := tenants s; next_sequence := next_sequence s;
  lease_epochs := lease_epochs s; store_term := store_term s; tool_effects := tool_effects s;
  tool_reservations := tool_reservations s; proj_approvals := proj_approvals s;
  projector_checkpoints := projector_checkpoints s; artifacts := artifacts s;
  lease_secs := lease_secs s; last_lease := last_lease s |}.
Definition set_tenants (x : gmap TenantId Tenant) (s : InMemoryBackend) : InMemoryBackend := {|
  workflows := workflows s; executions := executions s; events := events s;
  snapshots := snapshots s; work_items := work_items s; dead_letter := dead_letter s;
  tokens := tokens s; tenants := x; next_sequence := next_sequence s;
  lease_epochs := lease_epochs s; store_term := store_term s; tool_effects := tool_effects s;
  tool_reservations := tool_reservations s; proj_approvals := proj_approvals s;
  projector_checkpoints := projector_checkpoints s; artifacts := artifacts s;
  lease_secs := lease_secs s; last_lease := last_lease s |}.
Definition set_next_sequence (x : Z) (s : InMemoryBackend) : InMemoryBackend := {|
  workflows := workflows s; executions := executions s; events := events s;
  snapshots := snapshots s; work_items := work_items s; dead_letter := dead_letter s;
  tokens := tokens s; tenants := tenants s; next_sequence := x; lease_epochs := lease_epochs s;
  store_term := store_term s; tool_effects := tool_effects s;
  tool_reservations := tool_reservations s; proj_approvals := proj_approvals s;
  projector_checkpoints := projector_checkpoints s; artifacts := artifacts s;
  lease_secs := lease_secs s; last_lease := last_lease s |}.
Definition set_lease_epochs (x : gmap N Z) (s : InMemoryBackend) : InMemoryBackend := {|
  workflows := workflows s; executions := executions s; events := events s;
  snapshots := snapshots s; work_items := work_items s; dead_letter := dead_letter s;
  tokens := tokens s; tenants := tenants s; next_sequence := next_sequence s;
  lease_epochs := x; store_term := store_term s; tool_effects := tool_effects s;
  tool_reservations := tool_reservations s; proj_approvals := proj_approvals s;
  projector_checkpoints := projector_checkpoints s; artifacts := artifacts s;
  lease_secs := lease_secs s; last_lease := last_lease s |}.
Definition set_store_term (x : Z) (s : InMemoryBackend) : InMemoryBackend := {|
  workflows := workflows s; executions := executions s; events := events s;
  snapshots := snapshots s; work_items := work_items s; dead_letter := dead_letter s;
  tokens := tokens s; tenants := tenants s; next_sequence := next_sequence s;
  lease_epochs := lease_epochs s; store_term := x; tool_effects := tool_effects s;
  tool_reservations := tool_reservations s; proj_approvals := proj_approvals s;
  projector_checkpoints := projector_checkpoints s; artifacts := artifacts s;
  lease_secs := lease_secs s; last_lease := last_lease s |}.
Definition set_tool_effects (x : gmap string Value) (s : InMemoryBackend) : InMemoryBackend := {|
  workflows := workflows s; executions := executions s; events := events s;
  snapshots := snapshots s; work_items := work_items s; dead_letter := dead_letter s;
  tokens := tokens s; tenants := tenants s; next_sequence := next_sequence s;
  lease_epochs := lease_epochs s; store_term := store_term s; tool_effects := x;
  tool_reservations := tool_reservations s; proj_approvals := proj_approvals s;
  projector_checkpoints := projector_checkpoints s; artifacts := artifacts s;
  lease_secs := lease_secs s; last_lease := last_lease s |}.
Definition set_tool_reservations (x : gmap string (string * Z * DateTime)) (s : InMemoryBackend) : InMemoryBackend := {|
  workflows := workflows s; executions := executions s; events := events s;
  snapshots := snapshots s; work_items := work_items s; dead_letter := dead_letter s;
  tokens := tokens s; tenants := tenants s; next_sequence := next_sequence s;
  lease_epochs := lease_epochs s; store_term := store_term s; tool_effects := tool_effects s;
  tool_reservations := x; proj_approvals := proj_approvals s;
  projector_checkpoints := projector_checkpoints s; artifacts := artifacts s;
  lease_secs := lease_secs s; last_lease := last_lease s |}.
Definition set_proj_approvals (x : gmap (string * string) ApprovalProjectionRow) (s : InMemoryBackend) : InMemoryBackend := {|
  workflows := workflows s; executions := executions s; events := events s;
  snapshots := snapshots s; work_items := work_items s; dead_letter := dead_letter s;
  tokens := tokens s; tenants := tenants s; next_sequence := next_sequence s;
  lease_epochs := lease_epochs s; store_term := store_term s; tool_effects := tool_effects s;
  tool_reservations := tool_reservations s; proj_approvals := x;
  projector_checkpoints := projector_checkpoints s; artifacts := artifacts s;
  lease_secs := lease_secs s; last_lease := last_lease s |}.
Definition set_projector_checkpoints (x : gmap (string * string) Z) (s : InMemoryBackend) : InMemoryBackend := {|
  workflows := workflows s; executions := executions s; events := events s;
  snapshots := snapshots s; work_items := work_items s; dead_letter := dead_letter s;
  tokens := tokens s; tenants := tenants s; next_sequence := next_sequence s;
  lease_epochs := lease_epochs s; store_term := store_term s; tool_effects := tool_effects s;
  tool_reservations := tool_reservations s; proj_approvals := proj_approvals s;
  projector_checkpoints := x; artifacts := artifacts s; lease_secs := lease_secs s;
  last_lease := last_lease s |}.
Definition set_artifacts (x : gmap (string * string) (list N * option string)) (s : InMemoryBackend) : InMemoryBackend := {|
  workflows := workflows s; executions := executions s; events := events s;
  snapshots := snapshots s; work_items := work_items s; dead_letter := dead_letter s;
  tokens := tokens s; tenants := tenants s; next_sequence := next_sequence s;
  lease_epochs := lease_epochs s; store_term := store_term s; tool_effects := tool_effects s;
  tool_reservations := tool_reservations s; proj_approvals := proj_approvals s;
  projector_checkpoints := projector_checkpoints s; artifacts := x; lease_secs := lease_secs s;
  last_lease := last_lease s |}.
Definition set_lease_secs (x : gmap N Z) (s : InMemoryBackend) : InMemoryBackend := {|
  workflows := workflows s; executions := executions s; events := events s;
  snapshots := snapshots s; work_items := work_items s; dead_letter := dead_letter s;
  tokens := tokens s; tenants := tenants s; next_sequence := next_sequence s;
  lease_epochs := lease_epochs s; store_term := store_term s; tool_effects := tool_effects s;
  tool_reservations := tool_reservations s; proj_approvals := proj_approvals s;
  projector_checkpoints := projector_checkpoints s; artifacts := artifacts s; lease_secs := x;
  last_lease := last_lease s |}.
Definition set_last_lease (x : gmap N (string * Z)) (s : InMemoryBackend) : InMemoryBackend := {|
  workflows := workflows s; executions := executions s; events := events s;
  snapshots := snapshots s; work_items := work_items s; dead_letter := dead_letter s;
  tokens := tokens s; tenants := tenants s; next_sequence := next_sequence s;
  lease_epochs := lease_epochs s; store_term := store_term s; tool_effects := tool_effects s;
  tool_reservations := tool_reservations s; proj_approvals := proj_approvals s;
  projector_checkpoints := projector_checkpoints s; artifacts := artifacts s;
  lease_secs := lease_secs s; last_lease := x |}.

(** [InMemoryBackend::new]. *)
Definition InMemoryBackend_new : InMemoryBackend := {|
  workflows := ∅; executions := ∅; events := ∅; snapshots := ∅; work_items := ∅;
  dead_letter := ∅; tokens := ∅; tenants := ∅; next_sequence := 1; lease_epochs := ∅;
  store_term := 0; tool_effects := ∅; tool_reservations := ∅; proj_approvals := ∅;
  projector_checkpoints := ∅; artifacts := ∅; lease_secs := ∅; last_lease := ∅ |}.

(** ** Copies of stored rows with one part changed *)

Definition exec_with (e : WorkflowExecution) (st : WorkflowStatus) (cs : Value)
    (upd : DateTime) : WorkflowExecution := {|
  execution_id := execution_id e; workflow_id := workflow_id e;
  workflow_version := workflow_version e; status := st; initial_input := initial_input e;
  current_state := cs; started_at := started_at e; updated_at := upd;
  completed_at := completed_at e; session_type := session_type e;
  parent_execution_id := parent_execution_id e; segment_number := segment_number e |}.

(** The lease part of an item: attempt, expiry, holder and fence. *)
Definition item_with (i : WorkItem) (att : Z) (exp : option DateTime) (w : option string)
    (fence : Z) : WorkItem := {|
  wi_id := wi_id i; wi_execution_id := wi_execution_id i; wi_node_id := wi_node_id i;
  queue_type := queue_type i; payload := payload i; attempt := att;
  max_attempts := max_attempts i; wi_created_at := wi_created_at i; lease_expires_at := exp;
  worker_id := w; lease_fence := fence; wi_tenant_id := wi_tenant_id i |}.
Definition item_with_payload (i : WorkItem) (p : Value) : WorkItem := {|
  wi_id := wi_id i; wi_execution_id := wi_execution_id i; wi_node_id := wi_node_id i;
  queue_type := queue_type i; payload := p; attempt := attempt i;
  max_attempts := max_attempts i; wi_created_at := wi_created_at i;
  lease_expires_at := lease_expires_at i; worker_id := worker_id i;
  lease_fence := lease_fence i; wi_tenant_id := wi_tenant_id i |}.

(** Whether a worker holds the item, and whether its lease has lapsed. *)
Definition claimed (i : WorkItem) : bool := if worker_id i then true else false.
Definition lapsed (now : DateTime) (i : WorkItem) : bool :=
  match lease_expires_at i with Some t => bool_decide (t < now) | None => false end.

(** The events a lost lease leaves ([sqlite.rs], [lease_expiry_events]). *)
Definition lease_expiry_events (item : WorkItem) : list EventKind :=
  [EventKind.NodeFailed (wi_node_id item) "lease expired: worker presumed dead"
     (attempt item) true;
   EventKind.RetryScheduled (wi_node_id item) (u32_add (attempt item) 1) 0].

(** [{:?}] of a status. *)
Definition status_debug (s : WorkflowStatus) : string :=
  match s with
  | WorkflowStatus.Pending => "Pending" | WorkflowStatus.Running => "Running"
  | WorkflowStatus.Paused => "Paused" | WorkflowStatus.Completed => "Completed"
  | WorkflowStatus.Failed => "Failed" | WorkflowStatus.Cancelled => "Cancelled"
  | WorkflowStatus.LimitExceeded => "LimitExceeded"
  end.

Definition epoch_of (s : InMemoryBackend) (id : WorkItemId) : Z := default 0 (lease_epochs s !! id).
Definition bump_epoch (id : WorkItemId) (s : InMemoryBackend) : InMemoryBackend :=
  set_lease_epochs (<[id := epoch_of s id + 1]> (lease_epochs s)) s.
Definition put_item (id : WorkItemId) (i : WorkItem) (s : InMemoryBackend) : InMemoryBackend :=
  set_work_items (<[id := i]> (work_items s)) s.
Definition drop_item (id : WorkItemId) (s : InMemoryBackend) : InMemoryBackend :=
  set_work_items (delete id (work_items s)) s.
Definition put_execution (id : ExecutionId) (e : WorkflowExecution) (s : InMemoryBackend)
    : InMemoryBackend := set_executions (<[id := e]> (executions s)) s.
Definition log_of (s : InMemoryBackend) (id : ExecutionId) : list Event :=
  default [] (events s !! id).
Definition snapshots_of (s : InMemoryBackend) (id : ExecutionId) : list Snapshot :=
  default [] (snapshots s !! id).
Definition push_snapshot (id : ExecutionId) (snap : Snapshot) (s : InMemoryBackend)
    : InMemoryBackend := set_snapshots (<[id := snapshots_of s id ++ [snap]]> (snapshots s)) s.

(** [push_event]'s effect: the sequence is the counter's value, the counter
    moves on, the event goes to the end of its log. *)
Definition push (event : Event) (s : InMemoryBackend) : InMemoryBackend :=
  let seq := next_sequence s in
  let s := set_next_sequence (seq + 1) s in
  set_events (<[event_execution_id event :=
    log_of s (event_execution_id event) ++ [set_sequence event seq]]> (events s)) s.

Definition is_terminal_run (s : InMemoryBackend) (id : ExecutionId) : bool :=
  match executions s !! id with
  | Some e => WorkflowStatus.is_terminal (status e)
  | None => false
  end.

(** [iter().max_by_key(|s| s.at_sequence)]: the last of the largest. *)
Definition max_by_sequence (l : list Snapshot) : option Snapshot :=
  foldl (λ best s,
    match best with
    | Some b => if decide (at_sequence b ≤ at_sequence s) then Some s else Some b
    | None => Some s
    end) None l.

Definition status_matches (st : option WorkflowStatus) (e : WorkflowExecution) : bool :=
  match st with Some st => bool_decide (status e = st) | None => true end.
(** [b.started_at.cmp(&a.started_at)]: latest first. *)
Definition started_later (a b : WorkflowExecution) : Prop := started_at b ≤ started_at a.
#[export] Instance started_later_dec : RelDecision started_later.
Proof. intros a b. unfold started_later. apply _. Defined.
Definition row_le (a b : ApprovalProjectionRow) : Prop := String.le (ap_node_id a) (ap_node_id b).
#[export] Instance row_le_dec : RelDecision row_le.
Proof. intros a b. unfold row_le. apply _. Defined.

(** ** Operations *)

Module InMemory.
Section Operations.
Context `{!UuidOps, !ChronoOps, !JsonText, !Sha256Ops, !IterOrder ExecutionId, !IterOrder N,
  !IterOrder TenantId, !IterOrder (string * string)}.

Abbreviation M A := (eff InMemoryBackend StateBackendError A).

Definition bump_store_term : M Z :=
  term ← gets store_term;
  modify (set_store_term (term + 1)) ≫= λ _, mret (term + 1).

Definition set_store_term_at_least (term : Z) : M Z :=
  old ← gets store_term;
  modify (set_store_term (Z.max old term)) ≫= λ _, mret (Z.max old term).

Definition push_event (event : Event) : M EventSequence :=
  seq ← gets next_sequence; modify (push event) ≫= λ _, mret seq.

Definition create_run (execution : WorkflowExecution) (seed_snapshot : option Snapshot)
    (started_event scheduled_event : EventKind) (work_item : WorkItem) : M unit :=
  let exec_id := execution_id execution in
  match seed_snapshot with
  | Some snap => modify (push_snapshot exec_id snap)
  | None => mret tt
  end ≫= λ _,
  for_each [started_event; scheduled_event] (λ kind,
    event ← Event_new exec_id 0 kind; modify (push event)) ≫= λ _,
  modify (put_execution exec_id execution) ≫= λ _,
  modify (put_item (wi_id work_item) work_item).

(** *** Workflow definitions and executions *)

Definition store_workflow (def : WorkflowDefinition) : M unit :=
  let key := (wd_workflow_id def, wd_version def) in
  existing ← gets (λ s, workflows s !! key);
  match existing with
  | Some existing =>
      if same_definition (wd_ir existing) (wd_ir def) then mret tt
      else raise (version_conflict (wd_workflow_id def) (wd_version def))
  | None => modify (λ s, set_workflows (<[key := def]> (workflows s)) s)
  end.

Definition get_workflow (workflow_id version : string) : M (option WorkflowDefinition) :=
  gets (λ s, workflows s !! (workflow_id, version)).

Definition create_execution (execution : WorkflowExecution) : M unit :=
  modify (put_execution (execution_id execution) execution).

Definition get_execution (id : ExecutionId) : M (option WorkflowExecution) :=
  gets (λ s, executions s !! id).

Definition execution_tenant (id : ExecutionId) : M (option TenantId) :=
  gets (λ s, if executions s !! id then Some (mkTenantId DEFAULT_TENANT) else None).

Definition update_execution_status (id : ExecutionId) (st : WorkflowStatus) : M unit :=
  entry ← gets (λ s, executions s !! id);
  match entry with
  | Some e => now ← utc_now; modify (put_execution id (exec_with e st (current_state e) now))
  | None => raise (NotFound (ExecutionId_display id))
  end.

Definition finish_execution (event : Event) (st : WorkflowStatus) : M ExecutionFinish :=
  if negb (WorkflowStatus.is_terminal st)
  then raise (Database ("finish_execution requires a terminal status, got "
                        +:+ status_debug st))
  else
    let id := event_execution_id event in
    entry ← gets (λ s, executions s !! id);
    match entry with
    | None => raise (NotFound (ExecutionId_display id))
    | Some e =>
        if WorkflowStatus.is_terminal (status e) then mret (AlreadyTerminal (status e))
        else
          now ← utc_now;
          modify (put_execution id (exec_with e st (current_state e) now)) ≫= λ _,
          seq ← push_event event;
          mret (Finished seq)
    end.

Definition append_event_if (event : Event) (condition : DateTime → list Event → bool)
    : M ConditionalAppend :=
  let id := event_execution_id event in
  entry ← gets (λ s, executions s !! id);
  match entry with
  | None => raise (NotFound (ExecutionId_display id))
  | Some e =>
      if WorkflowStatus.is_terminal (status e)
      then mret (AppendExecutionTerminal (status e))
      else
        (* [entry().or_default()] *)
        modify (λ s, set_events (<[id := log_of s id]> (events s)) s) ≫= λ _,
        log ← gets (λ s, log_of s id);
        now ← utc_now;
        if negb (condition now log) then mret Refused
        else
          seq ← gets next_sequence;
          modify (push event) ≫= λ _, mret (Appended seq)
  end.

Definition update_execution_current_state (id : ExecutionId) (cs : Value) : M unit :=
  entry ← gets (λ s, executions s !! id);
  match entry with
  | Some e => now ← utc_now; modify (put_execution id (exec_with e (status e) cs now))
  | None => raise (NotFound (ExecutionId_display id))
  end.

(** The state with [value] pushed to the array at [key]; a state or an entry of
    another shape is left as it is. *)
Definition append_to_array (key : string) (value state : Value) : Value :=
  match state with
  | Object m =>
      match default (Array []) (map_get key m) with
      | Array a => Object (map_insert key (Array (a ++ [value])) m)
      | _ => state
      end
  | _ => state
  end.

Definition patch_append_array (id : ExecutionId) (key : string) (value : Value) : M unit :=
  entry ← gets (λ s, executions s !! id);
  match entry with
  | Some e =>
      now ← utc_now;
      modify (put_execution id
        (exec_with e (status e) (append_to_array key value (current_state e)) now))
  | None => raise (NotFound (ExecutionId_display id))
  end.

Definition list_executions (st : option WorkflowStatus) (limit offset : Z)
    : M (list WorkflowExecution) :=
  gets (λ s,
    let results := base.filter (λ e, status_matches st e = true) (iter_map (executions s)).*2 in
    let results := merge_sort started_later results in
    take (Z.to_nat limit) (drop (Z.to_nat offset) results)).

(** *** Events and snapshots *)

Definition append_event (event : Event) : M EventSequence := push_event event.

Definition get_events (id : ExecutionId) : M (list Event) := gets (λ s, log_of s id).

Definition get_events_since (id : ExecutionId) (since : EventSequence) : M (list Event) :=
  gets (λ s, events_after since (log_of s id)).

Definition latest_sequence (id : ExecutionId) : M EventSequence :=
  gets (λ s, match last (log_of s id) with Some e => sequence e | None => 0 end).

Definition write_snapshot (snap : Snapshot) : M unit :=
  modify (push_snapshot (snap_execution_id snap) snap).

Definition create_segment_atomic (execution : WorkflowExecution) (seed : Snapshot)
    (started_event scheduled_event : EventKind) (work_item : WorkItem) : M unit :=
  create_run execution (Some seed) started_event scheduled_event work_item.

Definition start_execution_atomic (execution : WorkflowExecution)
    (started_event scheduled_event : EventKind) (work_item : WorkItem) : M unit :=
  create_run execution None started_event scheduled_event work_item.

Definition latest_snapshot (id : ExecutionId) : M (option Snapshot) :=
  gets (λ s, max_by_sequence (snapshots_of s id)).

(** *** Tool effects and artifacts *)

Definition release_tool_reservation (key owner : string) (fence : Z) : M unit :=
  modify (λ s,
    match tool_reservations s !! key with
    | Some (holder, f, _) =>
        if decide (holder = owner ∧ f = fence)
        then set_tool_reservations (delete key (tool_reservations s)) s else s
    | None => s
    end).

Definition reserve_tool_effect (key : string) (_execution_id : ExecutionId) (_node_id : string)
    (owner : string) (fence : Z) (ttl : Z) : M ReserveOutcome :=
  now ← utc_now;
  let expires := now + default (5 * 60 * NANOS_PER_SEC) (duration_from_std ttl) in
  let take_it := modify (λ s,
    set_tool_reservations (<[key := (owner, fence, expires)]> (tool_reservations s)) s) in
  held ← gets (λ s, tool_reservations s !! key);
  match held with
  | None => take_it ≫= λ _, mret Acquired
  | Some (holder, _, holder_expiry) =>
      if decide (holder = owner ∨ holder_expiry ≤ now)
      then take_it ≫= λ _, mret Acquired
      else mret (Held holder (rfc3339 holder_expiry))
  end.

Definition get_tool_effect (key : string) : M (option Value) := gets (λ s, tool_effects s !! key).

Definition put_artifact (content : list N) (media_type : option string) : M ArtifactRef :=
  let hash := sha256_hex content in
  let size := Z.of_nat (length content) in
  modify (λ s,
    match artifacts s !! ("default", hash) with
    | Some _ => s
    | None => set_artifacts (<[("default", hash) := (content, media_type)]> (artifacts s)) s
    end) ≫= λ _,
  stored ← gets (λ s, artifacts s !! ("default", hash));
  mret {| ar_hash := hash; ar_size := size;
          ar_media_type := match stored with Some e => e.2 | None => media_type end |}.

Definition get_artifact (hash : string) : M (option (list N)) :=
  gets (λ s, fst <$> artifacts s !! ("default", hash)).

(** *** The work queue *)

Definition enqueue_work_item (item : WorkItem) : M WorkItemId :=
  modify (put_item (wi_id item) item) ≫= λ _, mret (wi_id item).

(** One item of the claim path's expiry sweep. *)
Definition lapse_step (now : DateTime)
    (acc : list WorkItem * list WorkItemId * InMemoryBackend) (entry : WorkItemId * WorkItem)
    : list WorkItem * list WorkItemId * InMemoryBackend :=
  let '(expired, withdrawn, s) := acc in
  let '(key, item) := entry in
  if negb (lapsed now item) || negb (claimed item) then acc
  else if is_terminal_run s (wi_execution_id item)
  then (expired, withdrawn ++ [wi_id item], s)
  else if decide (u32_add (attempt item) 1 < max_attempts item) then
    let s := set_last_lease (<[wi_id item := (default "" (worker_id item), lease_fence item)]>
               (last_lease s)) s in
    let s := bump_epoch (wi_id item) s in
    let s := put_item key (item_with item (u32_add (attempt item) 1) None None 0) s in
    (expired ++ [item], withdrawn, s)
  else acc.

Definition lapse_items (now : DateTime) (s : InMemoryBackend)
    : list WorkItem * list WorkItemId * InMemoryBackend :=
  foldl (lapse_step now) ([], [], s) (iter_map (work_items s)).

Definition record_lapsed (item : WorkItem) : M unit :=
  for_each (lease_expiry_events item) (λ kind,
    latest ← latest_sequence (wi_execution_id item);
    event ← Event_new (wi_execution_id item) (latest + 1) kind;
    append_event event ≫= λ _, mret tt).

Definition sweep_lapsed : M unit :=
  now ← utc_now;
  swept ← gets (lapse_items now);
  let '(expired, withdrawn, s') := swept in
  modify (λ _, s') ≫= λ _,
  for_each withdrawn (λ id, modify (drop_item id)) ≫= λ _,
  for_each expired record_lapsed.

Definition claimable (queue_types : list string) (entry : WorkItemId * WorkItem) : bool :=
  negb (claimed entry.2) && bool_decide (queue_type entry.2 ∈ queue_types).

(** Hand [item] to [worker] under a fresh fence. *)
Definition grant (worker : string) (lease_len : Z) (now : DateTime)
    (entry : WorkItemId * WorkItem) (s : InMemoryBackend) : WorkItem * InMemoryBackend :=
  let '(key, item) := entry in
  let new_epoch := epoch_of s (wi_id item) + 1 in
  let fence := mint_fence (store_term s) new_epoch in
  let item := item_with item (attempt item) (Some (now + lease_len * NANOS_PER_SEC))
                (Some worker) fence in
  let s := bump_epoch (wi_id item) s in
  let s := put_item key item s in
  let s := set_lease_secs (<[wi_id item := lease_len]> (lease_secs s)) s in
  let s := set_last_lease (delete (wi_id item) (last_lease s)) s in
  (item, s).

Definition claim_work_item_with_lease (worker : string) (queue_types : list string)
    (requested : option Z) : M (option WorkItem) :=
  sweep_lapsed ≫= λ _,
  let lease_len := granted_lease_secs requested in
  now ← utc_now;
  found ← gets (λ s, List.find (claimable queue_types) (iter_map (work_items s)));
  match found with
  | Some entry =>
      granted ← gets (grant worker lease_len now entry);
      modify (λ _, granted.2) ≫= λ _, mret (Some granted.1)
  | None => mret None
  end.

Definition claim_work_item (worker : string) (queue_types : list string) : M (option WorkItem) :=
  claim_work_item_with_lease worker queue_types None.

Definition lease_len_of (s : InMemoryBackend) (id : WorkItemId) : Z :=
  default DEFAULT_LEASE_SECS (lease_secs s !! id).

Definition renew_lease (id : WorkItemId) (worker : string) (fence : Z) : M unit :=
  entry ← gets (λ s, work_items s !! id);
  match entry with
  | None => raise (NotFound (uuid_hyphenated id))
  | Some item =>
      if decide (worker_id item ≠ Some worker)
      then raise (FenceLost ("lease not held by " +:+ worker))
      else if decide (lease_fence item ≠ fence) then raise (FenceLost (uuid_hyphenated id))
      else
        len ← gets (λ s, lease_len_of s id); now ← utc_now;
        modify (put_item id (item_with item (attempt item)
          (Some (now + len * NANOS_PER_SEC)) (worker_id item) (lease_fence item)))
  end.

(** The second half of [heartbeat_lease]: re-attach after an expiry. *)
Definition reattach (id : WorkItemId) (worker : string) (fence : Z) : M LeaseRenewal :=
  held ← gets (λ s, last_lease s !! id);
  match held with
  | None => raise (FenceLost (uuid_hyphenated id))
  | Some (last_worker, last_fence) =>
      if decide (last_worker ≠ worker ∨ last_fence ≠ fence)
      then raise (FenceLost (uuid_hyphenated id))
      else
        entry ← gets (λ s, work_items s !! id);
        match entry with
        | None => raise (NotFound (uuid_hyphenated id))
        | Some item =>
            current_epoch ← gets (λ s, epoch_of s id);
            if claimed item || negb (bool_decide (current_epoch = epoch_after_expiry_of fence))
            then raise (FenceLost (uuid_hyphenated id))
            else
              term ← gets store_term; len ← gets (λ s, lease_len_of s id); now ← utc_now;
              let fence' := mint_fence term (current_epoch + 1) in
              modify (bump_epoch id) ≫= λ _,
              modify (put_item id (item_with item (usat_sub (attempt item) 1)
                (Some (now + len * NANOS_PER_SEC)) (Some worker) fence')) ≫= λ _,
              modify (λ s, set_last_lease (delete id (last_lease s)) s) ≫= λ _,
              mret {| lr_lease_fence := fence'; reattached := true |}
        end
  end.

Definition heartbeat_lease (id : WorkItemId) (worker : string) (fence : Z) : M LeaseRenewal :=
  recover (renew_lease id worker fence ≫= λ _,
           mret {| lr_lease_fence := fence; reattached := false |})
    (λ e, match e with FenceLost _ => reattach id worker fence | _ => raise e end).

Definition get_work_item (id : WorkItemId) : M (option WorkItem) :=
  gets (λ s, work_items s !! id).

Definition complete_work_item (id : WorkItemId) : M unit := modify (drop_item id).

(** [remove_if] under the settle guard: claimed, and under this fence. *)
Definition holds (fence : Z) (item : WorkItem) : bool :=
  claimed item && bool_decide (lease_fence item = fence).
Definition remove_if_held (id : WorkItemId) (fence : Z) : M bool :=
  entry ← gets (λ s, work_items s !! id);
  match entry with
  | Some item => if holds fence item then modify (drop_item id) ≫= λ _, mret true else mret false
  | None => mret false
  end.

Definition complete_work_item_fenced (id : WorkItemId) (fence : Z) : M bool :=
  remove_if_held id fence.
Definition withdraw_work_item_fenced (id : WorkItemId) (fence : Z) : M bool :=
  remove_if_held id fence.

(** The tool effect a terminal event records. *)
Definition idem_effect (k : EventKind) : option (string * Value) :=
  match k with
  | EventKind.NodeCompleted _ output state_patch duration_ms gen_ai_system gen_ai_model
      input_tokens output_tokens finish_reason _ _ (Some key) =>
      Some (key, obj [("output", output); ("state_patch", state_patch);
                      ("duration_ms", num duration_ms);
                      ("gen_ai_system", opt_val Str gen_ai_system);
                      ("gen_ai_model", opt_val Str gen_ai_model);
                      ("input_tokens", opt_val num input_tokens);
                      ("output_tokens", opt_val num output_tokens);
                      ("finish_reason", opt_val Str finish_reason)])
  | _ => None
  end.

Definition is_terminal_event (k : EventKind) : bool :=
  match k with
  | EventKind.NodeCompleted _ _ _ _ _ _ _ _ _ _ _ _ | EventKind.NodeFailed _ _ _ _ => true
  | _ => false
  end.

(** The state a run's log materializes to, from its latest snapshot. *)
Definition materialized (s : InMemoryBackend) (id : ExecutionId) : MaterializedState :=
  materialize_from
    match executions s !! id with Some e => initial_input e | None => obj [] end
    (max_by_sequence (snapshots_of s id)) (λ n, events_after n (log_of s id)).

Definition commit_turn (id : WorkItemId) (fence : Z) (terminal_event : Event)
    (snapshot : bool) : M EventSequence :=
  if negb (is_terminal_event (event_kind terminal_event))
  then raise (Database "commit_turn requires a terminal event (NodeCompleted/NodeFailed)")
  else
    entry ← gets (λ s, work_items s !! id);
    match entry with
    | Some item =>
        if decide (lease_fence item = fence) then
          modify (drop_item id) ≫= λ _,
          let eid := event_execution_id terminal_event in
          seq ← push_event terminal_event;
          match idem_effect (event_kind terminal_event) with
          | Some (key, result) => modify (λ s,
              match tool_effects s !! key with
              | Some _ => s
              | None => set_tool_effects (<[key := result]> (tool_effects s)) s
              end)
          | None => mret tt
          end ≫= λ _,
          (if snapshot then
             mat ← gets (λ s, materialized s eid);
             snap ← from_materialized eid mat;
             modify (push_snapshot eid snap)
           else mret tt) ≫= λ _,
          mret seq
        else raise (FenceLost (uuid_hyphenated id))
    | None => raise (FenceLost (uuid_hyphenated id))
    end.

(** [commit_turn] works on several concurrent maps, one after another: another
    task's calls may come between its test of the fence and its removal of the
    item. Its two halves, which a call alone runs in one go ([commit_turn] above). *)
Definition commit_turn_admit (id : WorkItemId) (fence : Z) (terminal_event : Event) : M unit :=
  if negb (is_terminal_event (event_kind terminal_event))
  then raise (Database "commit_turn requires a terminal event (NodeCompleted/NodeFailed)")
  else
    entry ← gets (λ s, work_items s !! id);
    match entry with
    | Some item =>
        if decide (lease_fence item = fence) then mret tt
        else raise (FenceLost (uuid_hyphenated id))
    | None => raise (FenceLost (uuid_hyphenated id))
    end.

Definition commit_turn_settle (id : WorkItemId) (terminal_event : Event) (snapshot : bool)
    : M EventSequence :=
  modify (drop_item id) ≫= λ _,
  let eid := event_execution_id terminal_event in
  seq ← push_event terminal_event;
  match idem_effect (event_kind terminal_event) with
  | Some (key, result) => modify (λ s,
      match tool_effects s !! key with
      | Some _ => s
      | None => set_tool_effects (<[key := result]> (tool_effects s)) s
      end)
  | None => mret tt
  end ≫= λ _,
  (if snapshot then
     mat ← gets (λ s, materialized s eid);
     snap ← from_materialized eid mat;
     modify (push_snapshot eid snap)
   else mret tt) ≫= λ _,
  mret seq.

Definition fail_work_item (id : WorkItemId) (_error : string) : M unit :=
  entry ← gets (λ s, work_items s !! id);
  match entry with
  | Some _ => modify (drop_item id)
  | None => raise (NotFound (uuid_hyphenated id))
  end.

(** [(1u64 << new_attempt.min(6)) * 1000]. *)
Definition retry_delay_ms (new_attempt : Z) : Z := Z.shiftl 1 (Z.min new_attempt 6) * 1000.

Definition fail_work_item_fenced (id : WorkItemId) (fence : Z) (error : string)
    : M (option FailOutcome) :=
  entry ← gets (λ s, work_items s !! id);
  match entry with
  | None => mret None
  | Some item =>
      if negb (claimed item) || negb (bool_decide (lease_fence item = fence)) then mret None
      else
        let new_attempt := u32_add (attempt item) 1 in
        let item := item_with item new_attempt None None (lease_fence item) in
        let item :=
          match payload item with
          | Object m => item_with_payload item (Object (map_insert "last_error" (Str error) m))
          | _ => item
          end in
        modify (put_item id item) ≫= λ _,
        modify (bump_epoch id) ≫= λ _,
        if decide (max_attempts item ≤ new_attempt)
        then modify (drop_item id) ≫= λ _, mret (Some (Exhausted item))
        else mret (Some (Retryable item (retry_delay_ms new_attempt)))
  end.

Definition commit_turn_unless_terminal (id : WorkItemId) (fence : Z) (terminal_event : Event)
    (snapshot : bool) : M TurnCommit :=
  entry ← gets (λ s, executions s !! event_execution_id terminal_event);
  match entry with
  | Some e =>
      if WorkflowStatus.is_terminal (status e) then
        withdrawn ← withdraw_work_item_fenced id fence;
        if (withdrawn : bool) then mret (TurnExecutionTerminal (status e))
        else raise (FenceLost (uuid_hyphenated id))
      else seq ← commit_turn id fence terminal_event snapshot; mret (Committed seq)
  | None => seq ← commit_turn id fence terminal_event snapshot; mret (Committed seq)
  end.

(** Its two halves likewise: the look at the run's status, and what follows it. *)
Definition run_terminal_status (eid : ExecutionId) : M (option WorkflowStatus) :=
  gets (λ s,
    match executions s !! eid with
    | Some e => if WorkflowStatus.is_terminal (status e) then Some (status e) else None
    | None => None
    end).

Definition commit_turn_given (terminal : option WorkflowStatus) (id : WorkItemId) (fence : Z)
    (terminal_event : Event) (snapshot : bool) : M TurnCommit :=
  match terminal with
  | Some st =>
      withdrawn ← withdraw_work_item_fenced id fence;
      if (withdrawn : bool) then mret (TurnExecutionTerminal st)
      else raise (FenceLost (uuid_hyphenated id))
  | None => seq ← commit_turn id fence terminal_event snapshot; mret (Committed seq)
  end.

Definition park_work_item (id : WorkItemId) (fence : Z) (_retry_after : string)
    (next_attempt : Z) : M bool :=
  entry ← gets (λ s, work_items s !! id);
  match entry with
  | Some item =>
      if decide (lease_fence item ≠ fence) then mret false
      else
        modify (bump_epoch id) ≫= λ _,
        modify (put_item id (item_with item next_attempt None None 0)) ≫= λ _,
        mret true
  | None => mret false
  end.

Definition finalize_rollover_fenced (eid : ExecutionId) (id : WorkItemId) (fence : Z) : M bool :=
  entry ← gets (λ s, work_items s !! id);
  match entry with
  | Some item =>
      if decide (lease_fence item = fence) then
        modify (drop_item id) ≫= λ _,
        now ← utc_now;
        modify (λ s,
          match executions s !! eid with
          | Some e =>
              if WorkflowStatus.is_terminal (status e) then s
              else put_execution eid
                     (exec_with e WorkflowStatus.LimitExceeded (current_state e) now) s
          | None => s
          end) ≫= λ _,
        mret true
      else mret false
  | None => mret false
  end.

(** One item of [reclaim_expired_leases]: the result, the items to dead-letter,
    the store. *)
Definition reclaim_step (now : DateTime)
    (acc : list WorkItem * list WorkItem * InMemoryBackend) (entry : WorkItemId * WorkItem)
    : list WorkItem * list WorkItem * InMemoryBackend :=
  let '(retry, dead, s) := acc in
  let '(key, item) := entry in
  if lapsed now item && claimed item then
    let bumped := item_with item (u32_add (attempt item) 1) (lease_expires_at item)
                    (worker_id item) (lease_fence item) in
    if decide (attempt bumped < max_attempts bumped) then
      let s := set_last_lease (<[wi_id item := (default "" (worker_id item), lease_fence item)]>
                 (last_lease s)) s in
      let freed := item_with bumped (attempt bumped) None None (lease_fence bumped) in
      let s := put_item key freed s in
      let s := bump_epoch (wi_id item) s in
      (retry ++ [freed], dead, s)
    else (retry, dead ++ [bumped], put_item key bumped s)
  else acc.

Definition dead_letter_item (item : WorkItem) (s : InMemoryBackend) : InMemoryBackend :=
  let s := drop_item (wi_id item) s in
  set_dead_letter (<[wi_id item := item]> (dead_letter s)) s.

Definition reclaim_expired_leases : M ReclaimResult :=
  now ← utc_now;
  swept ← gets (λ s, foldl (reclaim_step now) ([], [], s) (iter_map (work_items s)));
  let '(retry, dead, s') := swept in
  modify (λ _, s') ≫= λ _,
  for_each dead (λ item, modify (dead_letter_item item)) ≫= λ _,
  mret {| retryable := retry; exhausted := dead |}.

Definition move_to_dead_letter (id : WorkItemId) (_last_error : string) : M unit :=
  modify (λ s,
    match work_items s !! id with
    | Some item =>
        let s := drop_item id s in
        set_dead_letter (<[id := item]> (dead_letter s)) s
    | None => s
    end).

(** *** Tokens, projections, tenants *)

Fixpoint str_remove (c : ascii) (s : string) : string :=
  match s with
  | "" => ""
  | String a s => if decide (a = c) then str_remove c s else String a (str_remove c s)
  end.

Definition create_token (name role : string) : M (string * ApiToken) :=
  secret ← new_v4; id ← new_v4; now ← utc_now;
  let plaintext := "jj_" +:+ str_remove "-"%char (uuid_hyphenated secret) in
  let token := {| tok_id := uuid_hyphenated id; tok_name := name; tok_role := role;
                  tok_created_at := now; tok_expires_at := None;
                  tok_tenant_id := DEFAULT_TENANT |} in
  modify (λ s, set_tokens (<[plaintext := token]> (tokens s)) s) ≫= λ _,
  mret (plaintext, token).

Definition validate_token (token : string) : M (option ApiToken) :=
  gets (λ s, tokens s !! token).

Definition put_projection (row : ApprovalProjectionRow) (s : InMemoryBackend) : InMemoryBackend :=
  set_proj_approvals (<[(uuid_hyphenated (exec_uuid (ap_execution_id row)), ap_node_id row) := row]>
    (proj_approvals s)) s.
Definition put_checkpoint (name : string) (id : ExecutionId) (cp : Z) (s : InMemoryBackend)
    : InMemoryBackend :=
  set_projector_checkpoints (<[(name, uuid_hyphenated (exec_uuid id)) := cp]>
    (projector_checkpoints s)) s.

Definition apply_approval_projection (row : ApprovalProjectionRow) (name : string) (cp : Z)
    : M unit :=
  modify (put_projection row) ≫= λ _, modify (put_checkpoint name (ap_execution_id row) cp).

Definition apply_approval_projection_batch (rows : list ApprovalProjectionRow) (name : string)
    (id : ExecutionId) (cp : Z) : M unit :=
  for_each rows (λ row, modify (put_projection row)) ≫= λ _, modify (put_checkpoint name id cp).

Definition get_approval_projection (id : ExecutionId) : M (list ApprovalProjectionRow) :=
  gets (λ s, merge_sort row_le
    (base.filter (λ kv, kv.1.1 = uuid_hyphenated (exec_uuid id))
       (iter_map (proj_approvals s))).*2).

Definition get_projector_checkpoint (name : string) (id : ExecutionId) : M Z :=
  gets (λ s, default 0 (projector_checkpoints s !! (name, uuid_hyphenated (exec_uuid id)))).

Definition set_projector_checkpoint (name : string) (id : ExecutionId) (cp : Z) : M unit :=
  modify (put_checkpoint name id cp).

Definition create_tenant (t : Tenant) : M unit :=
  modify (λ s, set_tenants (<[tn_id t := t]> (tenants s)) s).
Definition get_tenant (id : TenantId) : M (option Tenant) := gets (λ s, tenants s !! id).
Definition list_tenants : M (list Tenant) := gets (λ s, (iter_map (tenants s)).*2).
Definition update_tenant (t : Tenant) : M unit :=
  modify (λ s, set_tenants (<[tn_id t := t]> (tenants s)) s).
End Operations.
End InMemory.

(** The trait's implementation. *)
Section Instance_.
Context `{!UuidOps, !ChronoOps, !JsonText, !Sha256Ops, !IterOrder ExecutionId, !IterOrder N,
  !IterOrder TenantId, !IterOrder (string * string)}.

#[export] Instance InMemory_StateBackend : StateBackend InMemoryBackend := {|
  store_workflow := InMemory.store_workflow;
  get_workflow := InMemory.get_workflow;
  create_execution := InMemory.create_execution;
  get_execution := InMemory.get_execution;
  execution_tenant := InMemory.execution_tenant;
  update_execution_status := InMemory.update_execution_status;
  finish_execution := InMemory.finish_execution;
  append_event_if := InMemory.append_event_if;
  update_execution_current_state := InMemory.update_execution_current_state;
  patch_append_array := InMemory.patch_append_array;
  list_executions := InMemory.list_executions;
  append_event := InMemory.append_event;
  get_events := InMemory.get_events;
  get_events_since := InMemory.get_events_since;
  latest_sequence := InMemory.latest_sequence;
  write_snapshot := InMemory.write_snapshot;
  latest_snapshot := InMemory.latest_snapshot;
  create_segment_atomic := InMemory.create_segment_atomic;
  start_execution_atomic := InMemory.start_execution_atomic;
  get_tool_effect := InMemory.get_tool_effect;
  reserve_tool_effect := InMemory.reserve_tool_effect;
  release_tool_reservation := InMemory.release_tool_reservation;
  put_artifact := InMemory.put_artifact;
  get_artifact := InMemory.get_artifact;
  enqueue_work_item := InMemory.enqueue_work_item;
  claim_work_item := InMemory.claim_work_item;
  renew_lease := InMemory.renew_lease;
  claim_work_item_with_lease := InMemory.claim_work_item_with_lease;
  heartbeat_lease := InMemory.heartbeat_lease;
  get_work_item := InMemory.get_work_item;
  complete_work_item := InMemory.complete_work_item;
  complete_work_item_fenced := InMemory.complete_work_item_fenced;
  fail_work_item := InMemory.fail_work_item;
  fail_work_item_fenced := InMemory.fail_work_item_fenced;
  commit_turn := InMemory.commit_turn;
  commit_turn_unless_terminal := InMemory.commit_turn_unless_terminal;
  withdraw_work_item_fenced := InMemory.withdraw_work_item_fenced;
  park_work_item := InMemory.park_work_item;
  finalize_rollover_fenced := InMemory.finalize_rollover_fenced;
  reclaim_expired_leases := InMemory.reclaim_expired_leases;
  move_to_dead_letter := InMemory.move_to_dead_letter;
  create_token := InMemory.create_token;
  validate_token := InMemory.validate_token;
  apply_approval_projection := InMemory.apply_approval_projection;
  apply_approval_projection_batch := InMemory.apply_approval_projection_batch;
  get_approval_projection := InMemory.get_approval_projection;
  get_projector_checkpoint := InMemory.get_projector_checkpoint;
  set_projector_checkpoint := InMemory.set_projector_checkpoint;
  create_tenant := InMemory.create_tenant;
  get_tenant := InMemory.get_tenant;
  list_tenants := InMemory.list_tenants;
  update_tenant := InMemory.update_tenant;
|}.

#[export] Instance InMemory_BackendView : BackendView InMemoryBackend := {|
  view_execution s id := executions s !! id;
  view_log := log_of;
  view_items s id := work_items s !! id;
  view_snapshots := snapshots_of;
|}.
End Instance_.
