(* ===== verification/Lease.v ===== *)
(** * The lease protocol of the work queue

    An abstract step relation for leases, the proof that every operation of the
    in-memory backend is a sequence of its steps, and what follows for any
    history of operations: fences only grow, an item settles once per lease, a
    late heartbeat never takes an item another worker has held since. *)

From S2P Require Import Prelude.
From S2P Require Import Json.
From S2P Require Import RustStr.
From S2P Require Import Core.
From S2P Require Import Condition.
From S2P Require Import Event.
From S2P Require Import Materializer.
From S2P Require Import Hashing.
From S2P Require Import Approvals.
From S2P Require Import Backend.
From S2P Require Import Memory.

(** ** Operations as data, and histories *)

Inductive Op :=
| OpTick (d : Z)
| OpBumpTerm
| OpSetTerm (term : Z)
| OpStoreWorkflow (def : WorkflowDefinition)
| OpCreateExecution (e : WorkflowExecution)
| OpUpdateStatus (id : ExecutionId) (st : WorkflowStatus)
| OpFinish (ev : Event) (st : WorkflowStatus)
| OpAppendIf (ev : Event) (cond : DateTime → list Event → bool)
| OpUpdateState (id : ExecutionId) (v : Value)
| OpPatchArray (id : ExecutionId) (key : string) (v : Value)
| OpAppend (ev : Event)
| OpWriteSnapshot (snap : Snapshot)
| OpCreateSegment (e : WorkflowExecution) (seed : Snapshot) (started scheduled : EventKind)
    (item : WorkItem)
| OpStart (e : WorkflowExecution) (started scheduled : EventKind) (item : WorkItem)
| OpReserve (key : string) (id : ExecutionId) (node owner : string) (fence ttl : Z)
| OpRelease (key owner : string) (fence : Z)
| OpPutArtifact (content : list N) (media_type : option string)
| OpEnqueue (item : WorkItem)
| OpClaim (worker : string) (queue_types : list string) (secs : option Z)
| OpRenew (id : WorkItemId) (worker : string) (fence : Z)
| OpHeartbeat (id : WorkItemId) (worker : string) (fence : Z)
| OpComplete (id : WorkItemId)
| OpCompleteFenced (id : WorkItemId) (fence : Z)
| OpWithdraw (id : WorkItemId) (fence : Z)
| OpFail (id : WorkItemId) (error : string)
| OpFailFenced (id : WorkItemId) (fence : Z) (error : string)
| OpCommit (id : WorkItemId) (fence : Z) (ev : Event) (snapshot : bool)
| OpCommitUnless (id : WorkItemId) (fence : Z) (ev : Event) (snapshot : bool)
| OpPark (id : WorkItemId) (fence : Z) (retry_after : string) (next_attempt : Z)
| OpFinalize (eid : ExecutionId) (id : WorkItemId) (fence : Z)
| OpReclaim
| OpDeadLetter (id : WorkItemId) (error : string)
| OpCreateToken (name role : string)
| OpProject (row : ApprovalProjectionRow) (name : string) (cp : Z)
| OpProjectBatch (rows : list ApprovalProjectionRow) (name : string) (id : ExecutionId) (cp : Z)
| OpSetCheckpoint (name : string) (id : ExecutionId) (cp : Z)
| OpCreateTenant (t : Tenant)
| OpUpdateTenant (t : Tenant).

(** The leases an operation hands out: item and fence. *)
Abbreviation Grants := (list (WorkItemId * Z)) (only parsing).

(** ** The abstract protocol *)

(** The largest fence an item can have been given so far. *)
Definition top_fence (s : InMemoryBackend) (id : WorkItemId) : Z :=
  store_term s * 4294967296 + epoch_of s id.

Inductive lease_step (s s' : InMemoryBackend) : list (WorkItemId * Z) → Prop :=
(* nothing of the protocol changes *)
| lease_frame :
    work_items s' = work_items s → lease_epochs s' = lease_epochs s →
    store_term s' = store_term s → lease_step s s' []
(* failover: the store's term grows *)
| lease_term :
    work_items s' = work_items s → lease_epochs s' = lease_epochs s →
    store_term s ≤ store_term s' → lease_step s s' []
(* a new item, never leased *)
| lease_enqueue id item :
    wi_id item = id → claimed item = false → lease_fence item = 0 →
    work_items s' = <[id := item]> (work_items s) → lease_epochs s' = lease_epochs s →
    store_term s' = store_term s → lease_epochs s !! id = None → lease_step s s' []
(* the item leaves the queue *)
| lease_settle id :
    work_items s' = delete id (work_items s) → lease_epochs s' = lease_epochs s →
    store_term s' = store_term s → lease_step s s' []
(* the holder and the fence stay *)
| lease_edit id item item' :
    work_items s !! id = Some item → wi_id item' = wi_id item →
    claimed item' = claimed item → lease_fence item' = lease_fence item →
    work_items s' = <[id := item']> (work_items s) → lease_epochs s' = lease_epochs s →
    store_term s' = store_term s → lease_step s s' []
(* the lease ends, the item waits again: its epoch moves on *)
| lease_release id item item' :
    work_items s !! id = Some item → wi_id item' = wi_id item → claimed item' = false →
    (lease_fence item' = lease_fence item ∨ lease_fence item' = 0) →
    work_items s' = <[id := item']> (work_items s) →
    lease_epochs s' = <[id := epoch_of s id + 1]> (lease_epochs s) →
    store_term s' = store_term s → lease_step s s' []
(* a waiting item is handed out under a fence of the next epoch *)
| lease_grant id item item' :
    work_items s !! id = Some item → wi_id item' = wi_id item →
    claimed item = false → claimed item' = true →
    lease_fence item' = mint_fence (store_term s) (epoch_of s id + 1) →
    work_items s' = <[id := item']> (work_items s) →
    lease_epochs s' = <[id := epoch_of s id + 1]> (lease_epochs s) →
    store_term s' = store_term s → lease_step s s' [(id, lease_fence item')].

Inductive lease_steps : InMemoryBackend → list (WorkItemId * Z) → InMemoryBackend → Prop :=
| lease_done s : lease_steps s [] s
| lease_more s g s1 gs s2 :
    lease_step s s1 g → lease_steps s1 gs s2 → lease_steps s (g ++ gs) s2.

Lemma lease_steps_app s gs s1 gs' s2 :
  lease_steps s gs s1 → lease_steps s1 gs' s2 → lease_steps s (gs ++ gs') s2.
Proof.
  induction 1 as [|s g s1' gs s1 Hs _ IH]; intros H2; [done|].
  rewrite <- app_assoc. eapply lease_more; [done|]. by apply IH.
Qed.

Lemma lease_steps_quiet s s1 gs s2 :
  lease_steps s [] s1 → lease_steps s1 gs s2 → lease_steps s gs s2.
Proof. intros H1 H2. apply (lease_steps_app _ [] _ _ _ H1 H2). Qed.

Lemma lease_one s g s' : lease_step s s' g → lease_steps s g s'.
Proof. intros Hs. rewrite <- (app_nil_r g). eapply lease_more; [done|constructor]. Qed.

(** ** Each operation is a sequence of steps *)

(** A computation that hands out nothing. *)
Definition quiet {A} (m : eff InMemoryBackend StateBackendError A) : Prop :=
  ∀ w, lease_steps (store w) [] (store (m w).2).

Section Quiet.
Abbreviation M A := (eff InMemoryBackend StateBackendError A).

Lemma quiet_mret {A} (a : A) : quiet (mret a : M A).
Proof. intros w. constructor. Qed.
Lemma quiet_raise {A} e : quiet (raise e : M A).
Proof. intros w. constructor. Qed.
Lemma quiet_gets {A} (f : InMemoryBackend → A) : quiet (gets f : M A).
Proof. intros w. constructor. Qed.
Lemma quiet_utc_now : quiet (utc_now : M Z).
Proof. intros w. constructor. Qed.
Lemma quiet_new_v4 `{UuidOps} : quiet (new_v4 : M Uuid).
Proof. intros w. constructor. Qed.
Lemma quiet_modify f : (∀ s, lease_steps s [] (f s)) → quiet (modify f : M unit).
Proof. intros Hf w. apply Hf. Qed.
Lemma quiet_bind {A B} (m : M A) (k : A → M B) :
  quiet m → (∀ a, quiet (k a)) → quiet (m ≫= k).
Proof.
  intros Hm Hk w. unfold mbind, eff_bind. specialize (Hm w).
  destruct (m w) as [[a|e] w']; simpl in *; [|done].
  eapply lease_steps_quiet; [done|apply Hk].
Qed.
Lemma quiet_for_each {A} (l : list A) (f : A → M unit) :
  (∀ x, quiet (f x)) → quiet (for_each l f).
Proof. intros Hf. induction l; simpl; [apply quiet_mret|by apply quiet_bind]. Qed.

(** Reading an entry and acting on it: the action may rely on what was read. *)
Lemma quiet_lookup {A} (f : InMemoryBackend → A) {B} (k : A → M B) :
  (∀ w, lease_steps (store w) [] (store (k (f (store w)) w).2)) → quiet (gets f ≫= k).
Proof. intros Hk w. apply Hk. Qed.

Lemma quiet_at {A} (m : M A) s s1 c d :
  lease_steps s [] s1 → quiet m → lease_steps s [] (store (m (World s1 c d)).2).
Proof. intros Hs Hm. eapply lease_steps_quiet; [done|]. apply (Hm (World s1 c d)). Qed.

(** Updates of the parts the protocol does not own. *)
Lemma frame_step s s' :
  work_items s' = work_items s → lease_epochs s' = lease_epochs s →
  store_term s' = store_term s → lease_steps s [] s'.
Proof. intros. by apply lease_one, lease_frame. Qed.

Lemma settle_step s id : lease_steps s [] (drop_item id s).
Proof. by apply lease_one, (lease_settle _ _ id). Qed.
End Quiet.

#[export] Hint Resolve quiet_mret quiet_raise quiet_gets quiet_utc_now quiet_new_v4
  quiet_for_each settle_step : jamjet.
#[export] Hint Extern 1 (lease_steps _ [] _) => (apply frame_step; reflexivity) : jamjet.

(** Break a computation up; [modify]s of foreign parts are frame steps. *)
Ltac quiet_tac :=
  repeat first
    [ apply quiet_mret | apply quiet_raise | apply quiet_gets | apply quiet_utc_now
    | apply quiet_new_v4
    | apply quiet_bind; [|intros ?]
    | apply quiet_for_each; intros ?
    | progress (repeat case_match)
    | apply quiet_modify; intros ?; repeat case_match;
      first [by apply lease_done | apply frame_step; reflexivity | apply settle_step] ].

Section Refinement.
Context `{!UuidOps, !ChronoOps, !JsonText, !Sha256Ops, !IterOrder ExecutionId, !IterOrder N,
  !IterOrder TenantId, !IterOrder (string * string)}.

Lemma quiet_push_event ev : quiet (InMemory.push_event ev).
Proof. unfold InMemory.push_event. quiet_tac. Qed.

Lemma quiet_event_new id seq k : quiet (Event_new id seq k).
Proof. unfold Event_new. quiet_tac. Qed.

Lemma quiet_finish ev st : quiet (InMemory.finish_execution ev st).
Proof. unfold InMemory.finish_execution. quiet_tac. Qed.

Lemma quiet_append_if ev c : quiet (InMemory.append_event_if ev c).
Proof. unfold InMemory.append_event_if. quiet_tac. Qed.

Lemma quiet_reserve k id n o f t : quiet (InMemory.reserve_tool_effect k id n o f t).
Proof. unfold InMemory.reserve_tool_effect. quiet_tac. Qed.

Lemma quiet_remove_if_held id f : quiet (InMemory.remove_if_held id f).
Proof. unfold InMemory.remove_if_held. quiet_tac. Qed.

Lemma quiet_commit_turn id f ev b : quiet (InMemory.commit_turn id f ev b).
Proof.
  unfold InMemory.commit_turn, from_materialized. quiet_tac.
Qed.

Lemma quiet_commit_unless id f ev b : quiet (InMemory.commit_turn_unless_terminal id f ev b).
Proof.
  unfold InMemory.commit_turn_unless_terminal. quiet_tac; apply quiet_commit_turn.
Qed.

(** Renewals: read the item, change its expiry only. *)
Lemma quiet_renew id w f : quiet (InMemory.renew_lease id w f).
Proof.
  unfold InMemory.renew_lease. apply quiet_lookup. intros wd.
  destruct (work_items (store wd) !! id) as [item|] eqn:Hi; [|constructor].
  run_eff. repeat case_decide; try constructor. apply lease_one.
  eapply lease_edit; [exact Hi| | | |reflexivity..]; reflexivity.
Qed.

(** Release an item: its epoch and the item, in either order. *)
Lemma release_step s id item item' s' :
  work_items s !! id = Some item → wi_id item' = wi_id item → claimed item' = false →
  (lease_fence item' = lease_fence item ∨ lease_fence item' = 0) →
  work_items s' = <[id := item']> (work_items s) →
  lease_epochs s' = <[id := epoch_of s id + 1]> (lease_epochs s) →
  store_term s' = store_term s → lease_steps s [] s'.
Proof. intros. apply lease_one. by eapply lease_release. Qed.

Lemma quiet_fail_fenced id f e : quiet (InMemory.fail_work_item_fenced id f e).
Proof.
  unfold InMemory.fail_work_item_fenced. apply quiet_lookup. intros wd.
  destruct (work_items (store wd) !! id) as [item|] eqn:Hi; [|constructor].
  case_match; [constructor|]. cbv zeta.
  set (item1 := item_with item _ _ _ _).
  set (item2 := match payload item1 with Object _ => _ | _ => _ end).
  assert (wi_id item2 = wi_id item ∧ claimed item2 = false
    ∧ lease_fence item2 = lease_fence item) as (Hid & Hc & Hf).
  { unfold item2. by destruct (payload item1). }
  run_eff. destruct (decide (max_attempts item2 ≤ _)); cbn.
  - eapply lease_steps_quiet; [|apply settle_step].
    eapply (release_step _ id item item2); auto.
  - eapply (release_step _ id item item2); auto.
Qed.

Lemma quiet_park id f r n : quiet (InMemory.park_work_item id f r n).
Proof.
  unfold InMemory.park_work_item. apply quiet_lookup. intros wd.
  destruct (work_items (store wd) !! id) as [item|] eqn:Hi; [|constructor].
  run_eff. case_decide; [constructor|]. cbn.
  eapply (release_step _ id item (item_with item n None None 0)); auto.
Qed.

Lemma quiet_finalize eid id f : quiet (InMemory.finalize_rollover_fenced eid id f).
Proof.
  unfold InMemory.finalize_rollover_fenced. apply quiet_lookup. intros wd.
  destruct (work_items (store wd) !! id) as [item|] eqn:Hi; [|constructor].
  revert wd Hi. intros wd _. generalize wd.
  change (quiet (if decide (lease_fence item = f) then
    modify (drop_item id) ≫= λ _, now ← utc_now;
    modify (λ s, match executions s !! eid with
      | Some e => if WorkflowStatus.is_terminal (status e) then s
          else put_execution eid (exec_with e WorkflowStatus.LimitExceeded (current_state e) now) s
      | None => s end) ≫= λ _, mret true
    else mret false)).
  quiet_tac.
Qed.

(** The sweeps visit each item of the queue once: what a step reads of the
    item is still there when it gets to it. *)
Lemma sweep_fold {B} (step : B * InMemoryBackend → WorkItemId * WorkItem → B * InMemoryBackend)
    (l : list (WorkItemId * WorkItem)) (b : B) (s : InMemoryBackend) :
  NoDup l.*1 →
  (∀ k i, (k, i) ∈ l → work_items s !! k = Some i ∧ wi_id i = k) →
  (∀ b s k i, work_items s !! k = Some i → wi_id i = k →
     let r := step (b, s) (k, i) in
     lease_steps s [] r.2 ∧ ∀ k', k' ≠ k → work_items r.2 !! k' = work_items s !! k') →
  lease_steps s [] (foldl step (b, s) l).2.
Proof.
  intros Hnd Hl Hstep. revert b s Hl. induction l as [|[k i] l IH]; intros b s Hl; simpl.
  { constructor. }
  apply NoDup_cons in Hnd as [Hk Hnd].
  destruct (Hl k i) as [Hki Hid]; [left|].
  destruct (Hstep b s k i Hki Hid) as [Ha Hb]. destruct (step (b, s) (k, i)) as [b' s'].
  eapply lease_steps_quiet; [done|]. apply IH; [done|].
  intros k' i' Hin. destruct (Hl k' i') as [Hi' ?]; [by right|]. split; [|done]. simpl in Hb.
  rewrite Hb; [done|]. intros ->. apply Hk, list_elem_of_fmap. by exists (k, i').
Qed.

Definition keys_ok (s : InMemoryBackend) : Prop :=
  ∀ k i, work_items s !! k = Some i → wi_id i = k.

Lemma lease_step_keys s g s' : lease_step s s' g → keys_ok s → keys_ok s'.
Proof.
  intros Hs Hk k i. destruct Hs as [Hw|Hw|id item ? ? ? Hw|id Hw|id item item' Hl Hid ? ? Hw
    |id item item' Hl Hid ? ? Hw|id item item' Hl Hid ? ? ? Hw]; rewrite Hw; try apply Hk.
  - rewrite lookup_insert_Some. naive_solver.
  - rewrite lookup_delete_Some. naive_solver.
  - rewrite lookup_insert_Some. intros [[<- <-]|[_ ?]]; [|by apply Hk]. rewrite Hid. by apply Hk.
  - rewrite lookup_insert_Some. intros [[<- <-]|[_ ?]]; [|by apply Hk]. rewrite Hid. by apply Hk.
  - rewrite lookup_insert_Some. intros [[<- <-]|[_ ?]]; [|by apply Hk]. rewrite Hid. by apply Hk.
Qed.

Lemma lease_steps_keys s gs s' : lease_steps s gs s' → keys_ok s → keys_ok s'.
Proof. induction 1; eauto using lease_step_keys. Qed.

Lemma iter_entries s :
  keys_ok s → ∀ k i, (k, i) ∈ iter_map (work_items s) → work_items s !! k = Some i ∧ wi_id i = k.
Proof. intros Hk k i Hin%iter_map_elem. split; [done|]. by apply Hk. Qed.

Lemma lapse_steps now s :
  keys_ok s → lease_steps s [] (InMemory.lapse_items now s).2.
Proof.
  intros Hk. unfold InMemory.lapse_items. apply sweep_fold; [apply iter_map_nodup| |].
  { by apply iter_entries. }
  intros [expired withdrawn] s0 k i Hi Hid. cbn zeta. unfold InMemory.lapse_step.
  case_match; [split; [constructor|done]|]. case_match; [split; [constructor|done]|].
  case_decide; [|split; [constructor|done]]. cbn [snd]. subst k. split.
  - eapply release_step; [exact Hi| | | |reflexivity..]; auto.
  - intros k' Hne. cbn. by rewrite lookup_insert_ne.
Qed.

Lemma quiet_record_lapsed item : quiet (InMemory.record_lapsed item).
Proof. unfold InMemory.record_lapsed. quiet_tac. Qed.

Lemma sweep_lapsed_steps w :
  keys_ok (store w) → lease_steps (store w) [] (store (InMemory.sweep_lapsed w).2).
Proof.
  intros Hk. unfold InMemory.sweep_lapsed. rewrite bind_now, bind_gets.
  pose proof (lapse_steps (clock w) (store w) Hk) as Hl.
  destruct (InMemory.lapse_items (clock w) (store w)) as [[expired withdrawn] s'].
  rewrite bind_modify. apply quiet_at; [exact Hl|].
  apply (quiet_bind (for_each withdrawn (λ id, modify (drop_item id)))).
  { quiet_tac. }
  intros _. apply quiet_for_each, quiet_record_lapsed.
Qed.

Lemma sweep_lapsed_ok w : (InMemory.sweep_lapsed w).1 = Ok tt.
Proof.
  assert (∀ {A} (l : list A) (f : A → eff InMemoryBackend StateBackendError unit),
    (∀ x w, (f x w).1 = Ok tt) → ∀ w, (for_each l f w).1 = Ok tt) as Hfe.
  { intros A l f Hf. induction l as [|x l IH]; intros w'; [done|]. simpl.
    unfold mbind, eff_bind. specialize (Hf x w'). destruct (f x w') as [[] ?]; naive_solver. }
  unfold InMemory.sweep_lapsed. rewrite bind_now, bind_gets.
  destruct (InMemory.lapse_items (clock w) (store w)) as [[expired withdrawn] s'].
  rewrite bind_modify. unfold mbind, eff_bind.
  match goal with |- context [for_each withdrawn ?f ?w'] =>
    pose proof (Hfe _ withdrawn f ltac:(done) w') as Hw;
    destruct (for_each withdrawn f w') as [[] w1]; simplify_eq/= end.
  apply Hfe. intros item w'. apply Hfe. done.
Qed.

Lemma grant_step worker len now k i s :
  work_items s !! k = Some i → keys_ok s → claimed i = false →
  let r := InMemory.grant worker len now (k, i) s in
  lease_step s r.2 [(wi_id r.1, lease_fence r.1)].
Proof.
  intros Hi Hk Hc. unfold InMemory.grant. cbn zeta. cbn [fst snd].
  assert (wi_id i = k) as Hid by by apply Hk. subst k.
  eapply (lease_grant s _ (wi_id i) i); [exact Hi|..]; done.
Qed.

(** The grant of a claim's answer. *)
Definition claim_grant (r : result StateBackendError (option WorkItem)) : list (WorkItemId * Z) :=
  match r with Ok (Some item) => [(wi_id item, lease_fence item)] | _ => [] end.

Lemma claim_unfold worker qs secs w :
  InMemory.claim_work_item_with_lease worker qs secs w =
  let w1 := (InMemory.sweep_lapsed w).2 in
  match List.find (InMemory.claimable qs) (iter_map (work_items (store w1))) with
  | Some entry =>
      let g := InMemory.grant worker (granted_lease_secs secs) (clock w1) entry (store w1) in
      (Ok (Some g.1), World g.2 (clock w1) (draws w1))
  | None => (Ok None, w1)
  end.
Proof.
  unfold InMemory.claim_work_item_with_lease. unfold mbind at 1, eff_bind at 1.
  pose proof (sweep_lapsed_ok w) as Hok. destruct (InMemory.sweep_lapsed w) as [r1 w1].
  simpl in Hok. subst r1. rewrite bind_now, bind_gets. by destruct (List.find _ _).
Qed.

Lemma claim_steps worker qs secs w :
  keys_ok (store w) →
  let r := InMemory.claim_work_item_with_lease worker qs secs w in
  lease_steps (store w) (claim_grant r.1) (store r.2).
Proof.
  intros Hk. cbn zeta. rewrite claim_unfold.
  pose proof (sweep_lapsed_steps w Hk) as Hsw.
  destruct (InMemory.sweep_lapsed w) as [r1 w1]. cbn [snd] in *.
  assert (keys_ok (store w1)) as Hk1 by by eapply lease_steps_keys.
  eapply lease_steps_quiet; [exact Hsw|].
  destruct (List.find _ _) as [[k i]|] eqn:Hf; [|constructor].
  apply List.find_some in Hf as [Hin Hcl]. apply list_elem_of_In, iter_map_elem in Hin.
  unfold InMemory.claimable in Hcl. apply andb_true_iff in Hcl as [Hcl%negb_true_iff _].
  apply lease_one. by apply (grant_step worker _ (clock w1) k i (store w1)).
Qed.

Definition heartbeat_grant (id : WorkItemId) (r : result StateBackendError LeaseRenewal)
    : list (WorkItemId * Z) :=
  match r with Ok lr => if reattached lr then [(id, lr_lease_fence lr)] else [] | _ => [] end.

Lemma reattach_steps id worker fence w :
  let r := InMemory.reattach id worker fence w in
  lease_steps (store w) (heartbeat_grant id r.1) (store r.2).
Proof.
  unfold InMemory.reattach. run_eff.
  destruct (last_lease (store w) !! id) as [[lw lf]|]; [|constructor].
  case_decide; [constructor|].
  destruct (work_items (store w) !! id) as [i|] eqn:Hi; [|constructor].
  destruct (claimed i) eqn:Hc; [constructor|].
  destruct (negb _); [constructor|]. cbn. apply lease_one.
  eapply (lease_grant _ _ id i (item_with i _ _ (Some worker)
    (mint_fence (store_term (store w)) (epoch_of (store w) id + 1)))); [exact Hi|..]; reflexivity || done.
Qed.

Lemma heartbeat_steps id worker fence w :
  let r := InMemory.heartbeat_lease id worker fence w in
  lease_steps (store w) (heartbeat_grant id r.1) (store r.2).
Proof.
  unfold InMemory.heartbeat_lease, recover. cbn zeta. unfold mbind, eff_bind.
  pose proof (quiet_renew id worker fence w) as Hr.
  destruct (InMemory.renew_lease id worker fence w) as [[[]|e] w1]; simpl in *; [done|].
  destruct e; simpl; try done.
  eapply lease_steps_quiet; [exact Hr|]. apply reattach_steps.
Qed.

Lemma reclaim_quiet w :
  keys_ok (store w) → lease_steps (store w) [] (store (InMemory.reclaim_expired_leases w).2).
Proof.
  intros Hk. unfold InMemory.reclaim_expired_leases. rewrite bind_now, bind_gets.
  assert (lease_steps (store w) [] (foldl (InMemory.reclaim_step (clock w)) ([], [], store w)
    (iter_map (work_items (store w)))).2) as Hl.
  { apply sweep_fold; [apply iter_map_nodup|by apply iter_entries|].
    intros [retry dead] s k i Hi Hid. cbn zeta. unfold InMemory.reclaim_step.
    case_match; [|split; [constructor|done]]. subst k. case_decide; cbn [snd].
    - split; [|intros k' Hne; cbn; by rewrite lookup_insert_ne].
      eapply release_step; [exact Hi| | | |reflexivity..]; auto.
    - split; [|intros k' Hne; cbn; by rewrite lookup_insert_ne].
      apply lease_one. eapply lease_edit; [exact Hi| | | |reflexivity..]; reflexivity. }
  destruct (foldl _ _ _) as [[retry dead] s'].
  rewrite bind_modify. apply quiet_at; [exact Hl|].
  apply (quiet_bind (for_each dead (λ item, modify (InMemory.dead_letter_item item)))).
  { apply quiet_for_each. intros item. apply quiet_modify. intros s.
    by apply lease_one, (lease_settle _ _ (wi_id item)). }
  intros _. apply quiet_mret.
Qed.

(** ** Running operations *)

Definition run_op (op : Op) (w : world InMemoryBackend)
    : list (WorkItemId * Z) * world InMemoryBackend :=
  match op with
  | OpTick d => ([], World (store w) (clock w + d) (draws w))
  | OpBumpTerm => ([], (InMemory.bump_store_term w).2)
  | OpSetTerm t => ([], (InMemory.set_store_term_at_least t w).2)
  | OpStoreWorkflow def => ([], (InMemory.store_workflow def w).2)
  | OpCreateExecution e => ([], (InMemory.create_execution e w).2)
  | OpUpdateStatus id st => ([], (InMemory.update_execution_status id st w).2)
  | OpFinish ev st => ([], (InMemory.finish_execution ev st w).2)
  | OpAppendIf ev cond => ([], (InMemory.append_event_if ev cond w).2)
  | OpUpdateState id v => ([], (InMemory.update_execution_current_state id v w).2)
  | OpPatchArray id key v => ([], (InMemory.patch_append_array id key v w).2)
  | OpAppend ev => ([], (InMemory.append_event ev w).2)
  | OpWriteSnapshot snap => ([], (InMemory.write_snapshot snap w).2)
  | OpCreateSegment e seed k1 k2 item =>
      ([], (InMemory.create_segment_atomic e seed k1 k2 item w).2)
  | OpStart e k1 k2 item => ([], (InMemory.start_execution_atomic e k1 k2 item w).2)
  | OpReserve key id node owner fence ttl =>
      ([], (InMemory.reserve_tool_effect key id node owner fence ttl w).2)
  | OpRelease key owner fence => ([], (InMemory.release_tool_reservation key owner fence w).2)
  | OpPutArtifact content mt => ([], (InMemory.put_artifact content mt w).2)
  | OpEnqueue item => ([], (InMemory.enqueue_work_item item w).2)
  | OpClaim worker qs secs =>
      let r := InMemory.claim_work_item_with_lease worker qs secs w in (claim_grant r.1, r.2)
  | OpRenew id worker fence => ([], (InMemory.renew_lease id worker fence w).2)
  | OpHeartbeat id worker fence =>
      let r := InMemory.heartbeat_lease id worker fence w in (heartbeat_grant id r.1, r.2)
  | OpComplete id => ([], (InMemory.complete_work_item id w).2)
  | OpCompleteFenced id fence => ([], (InMemory.complete_work_item_fenced id fence w).2)
  | OpWithdraw id fence => ([], (InMemory.withdraw_work_item_fenced id fence w).2)
  | OpFail id error => ([], (InMemory.fail_work_item id error w).2)
  | OpFailFenced id fence error => ([], (InMemory.fail_work_item_fenced id fence error w).2)
  | OpCommit id fence ev b => ([], (InMemory.commit_turn id fence ev b w).2)
  | OpCommitUnless id fence ev b => ([], (InMemory.commit_turn_unless_terminal id fence ev b w).2)
  | OpPark id fence r n => ([], (InMemory.park_work_item id fence r n w).2)
  | OpFinalize eid id fence => ([], (InMemory.finalize_rollover_fenced eid id fence w).2)
  | OpReclaim => ([], (InMemory.reclaim_expired_leases w).2)
  | OpDeadLetter id error => ([], (InMemory.move_to_dead_letter id error w).2)
  | OpCreateToken name role => ([], (InMemory.create_token name role w).2)
  | OpProject row name cp => ([], (InMemory.apply_approval_projection row name cp w).2)
  | OpProjectBatch rows name id cp =>
      ([], (InMemory.apply_approval_projection_batch rows name id cp w).2)
  | OpSetCheckpoint name id cp => ([], (InMemory.set_projector_checkpoint name id cp w).2)
  | OpCreateTenant t => ([], (InMemory.create_tenant t w).2)
  | OpUpdateTenant t => ([], (InMemory.update_tenant t w).2)
  end.

(** What the callers guarantee: a new item is unleased and its (random) id has
    not been leased before; time does not run backwards. *)
Definition fresh_item (item : WorkItem) (s : InMemoryBackend) : Prop :=
  claimed item = false ∧ lease_fence item = 0 ∧ lease_epochs s !! wi_id item = None.
Definition op_ok (s : InMemoryBackend) (op : Op) : Prop :=
  match op with
  | OpTick d => 0 ≤ d
  | OpEnqueue item | OpCreateSegment _ _ _ _ item | OpStart _ _ _ item => fresh_item item s
  | _ => True
  end.

Lemma create_run_steps e seed k1 k2 item w :
  fresh_item item (store w) →
  lease_steps (store w) [] (store (InMemory.create_run e seed k1 k2 item w).2).
Proof.
  intros (Hc & Hf & He).
  assert (∃ s, store (InMemory.create_run e seed k1 k2 item w).2 = put_item (wi_id item) item s
    ∧ work_items s = work_items (store w) ∧ lease_epochs s = lease_epochs (store w)
    ∧ store_term s = store_term (store w)) as (s & -> & Hw & Hep & Ht).
  { unfold InMemory.create_run. destruct seed; eexists; split_and!; reflexivity. }
  apply lease_one. eapply (lease_enqueue _ _ (wi_id item) item); try done; cbn; congruence.
Qed.

(** Every operation of the backend is a sequence of steps of the protocol, and
    hands out the leases those steps grant. *)
Lemma run_op_steps op w :
  keys_ok (store w) → op_ok (store w) op →
  lease_steps (store w) (run_op op w).1 (store (run_op op w).2).
Proof.
  intros Hk Hok. destruct op; cbn [run_op fst snd];
    try match goal with
    | |- lease_steps _ [] (store (?m w).2) =>
        first [ apply quiet_finish | apply quiet_append_if | apply quiet_reserve
              | apply quiet_remove_if_held | apply quiet_commit_turn | apply quiet_commit_unless
              | apply quiet_renew | apply quiet_fail_fenced | apply quiet_park
              | apply quiet_finalize | by apply reclaim_quiet | by apply create_run_steps
              | by apply claim_steps | by apply heartbeat_steps ]
    end;
    try (by apply claim_steps); try (by apply heartbeat_steps);
    try (apply frame_step; reflexivity);
    try (apply lease_one, lease_term; cbn; lia || done);
    unfold InMemory.store_workflow, InMemory.update_execution_status,
    InMemory.update_execution_current_state, InMemory.patch_append_array,
    InMemory.release_tool_reservation, InMemory.put_artifact, InMemory.complete_work_item,
    InMemory.fail_work_item, InMemory.apply_approval_projection_batch;
    try match goal with |- lease_steps _ [] (store (?m w).2) =>
         cut (quiet m); [intros Hq; apply Hq|by quiet_tac] end.
  - apply lease_one, lease_term; [done|done|].
    change (store_term (store w) ≤ store_term (store w) + 1). lia.
  - apply lease_one, lease_term; [done|done|].
    change (store_term (store w) ≤ Z.max (store_term (store w)) term). lia.
  - destruct Hok as (? & ? & ?). by apply lease_one, (lease_enqueue _ _ (wi_id item) item).
  - unfold InMemory.move_to_dead_letter. cbn. case_match; [|constructor].
    by apply lease_one, (lease_settle _ _ id).
Qed.

(** A history: operations one after another, with all the leases handed out. *)
Fixpoint run_ops (ops : list Op) (w : world InMemoryBackend)
    : list (WorkItemId * Z) * world InMemoryBackend :=
  match ops with
  | [] => ([], w)
  | op :: ops =>
      let r := run_op op w in let r' := run_ops ops r.2 in (r.1 ++ r'.1, r'.2)
  end.

Fixpoint ops_ok (ops : list Op) (w : world InMemoryBackend) : Prop :=
  match ops with
  | [] => True
  | op :: ops => op_ok (store w) op ∧ ops_ok ops (run_op op w).2
  end.

Lemma run_ops_steps ops w :
  keys_ok (store w) → ops_ok ops w →
  lease_steps (store w) (run_ops ops w).1 (store (run_ops ops w).2).
Proof.
  revert w; induction ops as [|op ops IH]; intros w Hk Hok; [constructor|].
  destruct Hok as [Hop Hok]. simpl.
  assert (lease_steps (store w) (run_op op w).1 (store (run_op op w).2)) as Hs
    by by apply run_op_steps.
  eapply lease_steps_app; [exact Hs|]. apply IH; [by eapply lease_steps_keys|done].
Qed.
End Refinement.

(** ** The protocol's invariant *)

(** A fence as the term and epoch it was minted at. *)
Definition minted (f t e : Z) : Prop := f = t * 4294967296 + e.

Lemma fence_epoch_minted f t e :
  minted f t e → 0 ≤ t → 0 ≤ e < 4294967296 → fence_epoch f = e.
Proof.
  intros -> Ht He. unfold fence_epoch. change 4294967295 with (Z.ones 32).
  rewrite Z.land_ones by lia. change (2 ^ 32) with 4294967296.
  rewrite Z.add_comm, Z.mod_add by lia. by apply Z.mod_small.
Qed.

(** The counters leave room for fences in an i64. *)
Definition fence_range (s : InMemoryBackend) : Prop :=
  store_term s < 2 ^ 30 ∧ ∀ id, epoch_of s id < 2 ^ 32.

Lemma mint_fence_minted s id :
  0 ≤ store_term s < 2 ^ 30 → 0 ≤ epoch_of s id → epoch_of s id + 1 < 2 ^ 32 →
  minted (mint_fence (store_term s) (epoch_of s id + 1)) (store_term s) (epoch_of s id + 1).
Proof.
  intros. unfold minted, mint_fence, i64_add, i64_mul.
  rewrite (wrap_i64_small (_ * _)) by lia. apply wrap_i64_small. lia.
Qed.

Definition fences_of (id : WorkItemId) (G : list (WorkItemId * Z)) : list Z :=
  (base.filter (λ g, g.1 = id) G).*2.

Lemma elem_of_fences_of id f G : f ∈ fences_of id G ↔ (id, f) ∈ G.
Proof.
  unfold fences_of. rewrite list_elem_of_fmap. split.
  - intros ([id' f'] & -> & [<- Hin]%list_elem_of_filter). done.
  - intros Hin. exists (id, f). split; [done|]. by apply list_elem_of_filter.
Qed.

(** Later fences are larger and of a later epoch. *)
Definition later_fence (f f' : Z) : Prop := f < f' ∧ fence_epoch f < fence_epoch f'.

Record lease_inv (s : InMemoryBackend) (G : list (WorkItemId * Z)) : Prop := {
  li_counters : 0 ≤ store_term s ∧ ∀ id, 0 ≤ epoch_of s id;
  li_granted id f : (id, f) ∈ G →
    ∃ t e, minted f t e ∧ 0 ≤ t ≤ store_term s ∧ 1 ≤ e ≤ epoch_of s id;
  li_claimed id i : work_items s !! id = Some i → claimed i = true →
    (id, lease_fence i) ∈ G;
  li_waiting id i f : work_items s !! id = Some i → claimed i = false → (id, f) ∈ G →
    ∃ t e, minted f t e ∧ 0 ≤ t ≤ store_term s ∧ 1 ≤ e < epoch_of s id;
  li_sorted id : StronglySorted later_fence (fences_of id G);
}.

Lemma epoch_insert s s' id e id' :
  lease_epochs s' = <[id := e]> (lease_epochs s) →
  epoch_of s' id' = if decide (id' = id) then e else epoch_of s id'.
Proof.
  intros He. unfold epoch_of. rewrite He. case_decide; subst.
  - by rewrite lookup_insert_eq.
  - by rewrite lookup_insert_ne.
Qed.

Lemma epoch_same s s' id : lease_epochs s' = lease_epochs s → epoch_of s' id = epoch_of s id.
Proof. unfold epoch_of. by intros ->. Qed.

(** Terms and epochs never go down. *)
Lemma lease_step_monotone s g s' :
  lease_step s s' g → store_term s ≤ store_term s' ∧ ∀ id, epoch_of s id ≤ epoch_of s' id.
Proof.
  intros [? He Ht|? He Ht|? ? ? ? ? ? He Ht|? ? He Ht|? ? ? ? ? ? ? ? He Ht
    |? ? ? ? ? ? ? ? He Ht|? ? ? ? ? ? ? ? ? He Ht];
    (split; [lia|intros id']);
    try (rewrite (epoch_same s s'); [lia|done]).
  all: rewrite (epoch_insert s s' _ _ _ He); case_decide; subst; lia.
Qed.

Lemma lease_steps_monotone s gs s' :
  lease_steps s gs s' → store_term s ≤ store_term s' ∧ ∀ id, epoch_of s id ≤ epoch_of s' id.
Proof.
  induction 1 as [|s g s1 gs s2 Hs _ [IHt IHe]]; [split; intros; lia|].
  apply lease_step_monotone in Hs as [Ht He]. split; [lia|]. intros id.
  specialize (He id). specialize (IHe id). lia.
Qed.

Lemma fence_range_back s gs s' : lease_steps s gs s' → fence_range s' → fence_range s.
Proof.
  intros [Ht He]%lease_steps_monotone [Hrt Hre]. split; [lia|]. intros id.
  specialize (He id). specialize (Hre id). lia.
Qed.

Lemma fences_of_app id G G' : fences_of id (G ++ G') = fences_of id G ++ fences_of id G'.
Proof. unfold fences_of. by rewrite list.filter_app, fmap_app. Qed.

Lemma StronglySorted_snoc {A} (R : A → A → Prop) l x :
  StronglySorted R l → (∀ y, y ∈ l → R y x) → StronglySorted R (l ++ [x]).
Proof.
  induction 1 as [|y l Hs IH Hf]; simpl; intros Hx; [repeat constructor|].
  constructor; [apply IH; intros; apply Hx; by right|].
  apply Forall_app; split; [done|]. constructor; [apply Hx; left|constructor].
Qed.

Lemma StronglySorted_across {A} (R : A → A → Prop) l1 l2 x y :
  StronglySorted R (l1 ++ l2) → x ∈ l1 → y ∈ l2 → R x y.
Proof.
  induction l1 as [|z l1 IH]; simpl; intros Hs Hx Hy; [by apply not_elem_of_nil in Hx|].
  apply StronglySorted_inv in Hs as [Hs Hf].
  apply elem_of_cons in Hx as [->|Hx]; [|by apply IH].
  rewrite Forall_forall in Hf. apply Hf. apply elem_of_app. by right.
Qed.

(** Steps that hand out nothing and move no item's lease forward. *)
Lemma lease_inv_weaken s s' G :
  lease_inv s G → store_term s ≤ store_term s' → (∀ id, epoch_of s id ≤ epoch_of s' id) →
  (∀ id i, work_items s' !! id = Some i → claimed i = true →
     ∃ i', work_items s !! id = Some i' ∧ claimed i' = true ∧ lease_fence i = lease_fence i') →
  (∀ id i, work_items s' !! id = Some i → claimed i = false →
     (∃ i', work_items s !! id = Some i' ∧ claimed i' = false)
     ∨ epoch_of s id < epoch_of s' id ∨ epoch_of s id = 0) →
  lease_inv s' G.
Proof.
  intros [[Ht He] Hg Hc Hw Hs] Hterm Hep Hcl Hwt. constructor.
  - split; [lia|]. intros id. specialize (He id). specialize (Hep id). lia.
  - intros id f (t & e & ? & ? & ?)%Hg. specialize (Hep id). exists t, e. split_and!; done || lia.
  - intros id i Hi (i' & Hi' & Hc' & ->)%(Hcl _ _ Hi). by apply (Hc id i').
  - intros id i f Hi Hci Hin. destruct (Hg _ _ Hin) as (t0 & e0 & ? & ? & ?).
    specialize (Hep id). destruct (Hwt _ _ Hi Hci) as [(i' & Hi' & Hci')|Hlt].
    + destruct (Hw _ _ _ Hi' Hci' Hin) as (t & e & ? & ? & ?). exists t, e. split_and!; done || lia.
    + exists t0, e0. split_and!; done || lia.
  - done.
Qed.

Lemma lease_inv_step s g s' G :
  lease_step s s' g → fence_range s' → lease_inv s G → lease_inv s' (G ++ g).
Proof.
  intros Hs Hr Hi. pose proof (lease_step_monotone _ _ _ Hs) as [Hmt Hme].
  destruct Hs as [Hw|Hw|id item ? ? ? Hw He Ht Hfresh|id Hw|id item item' Hl ? Hcc ? Hw
    |id item item' Hl ? Hcl ? Hw He Ht|id item item' Hl ? Hcl Hcl' Hf Hw He Ht];
    rewrite ?app_nil_r.
  1-6: apply (lease_inv_weaken s); try done; rewrite Hw; intros id' i';
    rewrite ?lookup_insert_Some, ?lookup_delete_Some; try naive_solver.
  - intros [[<- <-]|[_ ?]] ?; [congruence|eauto].
  - intros [[<- <-]|[_ ?]] ?; [|left; eauto].
    right; right. unfold epoch_of. by rewrite Hfresh.
  - intros [[<- <-]|[_ ?]] ?; [congruence|eauto].
  - intros [[<- <-]|[_ ?]] ?; [|left; eauto]. right; left.
    rewrite (epoch_insert _ _ _ _ _ He), decide_True by done. lia.
  - (* a grant *)
    destruct Hi as [[Htm Hep] Hg Hc Hwt Hso]. destruct Hr as [Hrt Hre].
    assert (epoch_of s' id = epoch_of s id + 1) as Hnew
      by by rewrite (epoch_insert _ _ _ _ _ He), decide_True.
    assert (minted (lease_fence item') (store_term s) (epoch_of s id + 1)) as Hm.
    { rewrite Hf. specialize (Hre id). specialize (Hep id). apply mint_fence_minted; lia. }
    assert (∀ f, (id, f) ∈ G → later_fence f (lease_fence item')) as Hlater.
    { intros f (t & e & Hmf & ? & ?)%Hg. specialize (Hre id). specialize (Hep id). split.
      - unfold minted in *. rewrite Hmf, Hm. nia.
      - rewrite (fence_epoch_minted f t e), (fence_epoch_minted _ _ _ Hm) by (done || lia). lia. }
    constructor.
    + split; [lia|]. intros id'. specialize (Hep id'). specialize (Hme id'). lia.
    + intros id' f [(t & e & ? & ? & ?)%Hg|[= -> ->]%list_elem_of_singleton]%elem_of_app.
      * specialize (Hme id'). exists t, e. split_and!; done || lia.
      * exists (store_term s), (epoch_of s id + 1). specialize (Hep id). split_and!; done || lia.
    + intros id' i'. rewrite Hw, lookup_insert_Some.
      intros [[<- <-]|[_ Hi']] ?; apply elem_of_app; [right; by left|left; by apply Hc].
    + intros id' i' f. rewrite Hw, lookup_insert_Some.
      intros [[<- <-]|[Hne Hi']] Hci; [congruence|].
      intros [Hin|[= -> ->]%list_elem_of_singleton]%elem_of_app; [|done].
      destruct (Hwt _ _ _ Hi' Hci Hin) as (t & e & ? & ? & ?). specialize (Hme id').
      exists t, e. split_and!; done || lia.
    + intros id'. rewrite fences_of_app. unfold fences_of at 2. unfold base.filter. simpl.
      case_decide; simpl; [|by rewrite app_nil_r]. subst id'.
      apply StronglySorted_snoc; [done|]. intros f Hf'%elem_of_fences_of. by apply Hlater.
Qed.

Lemma lease_inv_steps s gs s' G :
  lease_steps s gs s' → fence_range s' → lease_inv s G → lease_inv s' (G ++ gs).
Proof.
  intros Hs Hr. revert G. induction Hs as [|s g s1 gs s2 Hst Hss IH]; intros G Hi.
  { by rewrite app_nil_r. }
  rewrite app_assoc. apply IH; [done|]. eapply lease_inv_step; [done| |done].
  by eapply fence_range_back.
Qed.

Lemma lease_inv_new : lease_inv InMemoryBackend_new [].
Proof.
  constructor.
  - split; [done|]. intros id. unfold epoch_of. simpl. by rewrite lookup_empty.
  - intros id f Hin. by apply not_elem_of_nil in Hin.
  - intros id i Hi. simpl in Hi. by rewrite lookup_empty in Hi.
  - intros id i f Hi. simpl in Hi. by rewrite lookup_empty in Hi.
  - intros id. constructor.
Qed.

Lemma keys_ok_new : keys_ok InMemoryBackend_new.
Proof. intros k i Hi. simpl in Hi. by rewrite lookup_empty in Hi. Qed.

(** An item's lease that has ended: granted, and no longer held. *)
Definition retired (s : InMemoryBackend) (G : list (WorkItemId * Z)) (id : WorkItemId) (f : Z) : Prop :=
  (id, f) ∈ G ∧ ∀ i, work_items s !! id = Some i → InMemory.holds f i = false.

Lemma retired_step s g s' G id f :
  lease_step s s' g → fence_range s' → lease_inv s G → retired s G id f →
  retired s' (G ++ g) id f.
Proof.
  intros Hs Hr Hi [Hin Hno]. pose proof (lease_inv_step _ _ _ _ Hs Hr Hi) as Hi'.
  split; [set_solver|]. intros i. unfold InMemory.holds in *.
  destruct Hs as [Hw|Hw|id0 item ? Hc ? Hw|id0 Hw|id0 item item' Hl ? Hcc Hff Hw
    |id0 item item' Hl ? Hcl ? Hw|id0 item item' Hl ? Hcl Hcl' Hf Hw]; rewrite Hw;
    try apply Hno; rewrite ?lookup_insert_Some, ?lookup_delete_Some.
  - intros [[<- <-]|[_ Hx]]; [by rewrite Hc|by apply Hno].
  - intros [_ Hx]. by apply Hno.
  - intros [[<- <-]|[_ Hx]]; [|by apply Hno]. rewrite Hcc, Hff. by apply Hno.
  - intros [[<- <-]|[_ Hx]]; [by rewrite Hcl|by apply Hno].
  - intros [[<- <-]|[_ Hx]]; [|by apply Hno]. rewrite Hcl'. simpl. apply bool_decide_eq_false.
    intros Heq. pose proof (li_sorted _ _ Hi' id0) as Hso.
    rewrite fences_of_app in Hso. unfold fences_of at 2, base.filter in Hso. simpl in Hso.
    rewrite decide_True in Hso by done. simpl in Hso.
    assert (later_fence f f) as [? _]; [|lia]. rewrite <- Heq at 2.
    apply (StronglySorted_across later_fence (fences_of id0 G) [lease_fence item']);
      [done|by apply elem_of_fences_of|by left].
Qed.

Lemma retired_steps s gs s' G id f :
  lease_steps s gs s' → fence_range s' → lease_inv s G → retired s G id f →
  retired s' (G ++ gs) id f.
Proof.
  intros Hs Hr. revert G. induction Hs as [|s g s1 gs s2 Hst Hss IH]; intros G Hi Hret.
  { by rewrite app_nil_r. }
  assert (fence_range s1) by by eapply fence_range_back.
  rewrite app_assoc. apply IH; [done|by eapply lease_inv_step|by eapply retired_step].
Qed.

(** A lease whose fence no item carries any more. *)
Definition void (s : InMemoryBackend) (G : list (WorkItemId * Z)) (id : WorkItemId) (f : Z) : Prop :=
  (id, f) ∈ G ∧ ∀ i, work_items s !! id = Some i → lease_fence i ≠ f.

(** A fence that was handed out is not the 0 of an item nobody holds. *)
Lemma granted_positive s G id f : lease_inv s G → (id, f) ∈ G → 0 < f.
Proof. intros Hi (t & e & -> & ? & ?)%(li_granted _ _ Hi). lia. Qed.

(** A grant's fence is new. *)
Lemma grant_is_later s id g f G :
  lease_inv s (G ++ [(id, g)]) → (id, f) ∈ G → f < g.
Proof.
  intros Hi Hin. pose proof (li_sorted _ _ Hi id) as Hso. rewrite fences_of_app in Hso.
  unfold fences_of at 2, base.filter in Hso. simpl in Hso. rewrite decide_True in Hso by done.
  by apply (StronglySorted_across later_fence (fences_of id G) [g] f g Hso);
    [apply elem_of_fences_of|left].
Qed.

Lemma void_step s g s' G id f :
  lease_step s s' g → fence_range s' → lease_inv s G → void s G id f → void s' (G ++ g) id f.
Proof.
  intros Hs Hr Hi [Hin Hno]. pose proof (lease_inv_step _ _ _ _ Hs Hr Hi) as Hi'.
  pose proof (granted_positive _ _ _ _ Hi Hin) as Hf0.
  split; [set_solver|]. intros i.
  destruct Hs as [Hw|Hw|id0 item ? Hc Hff Hw|id0 Hw|id0 item item' Hl ? Hcc Hff Hw
    |id0 item item' Hl ? Hcl Hff Hw|id0 item item' Hl ? Hcl Hcl' Hf Hw]; rewrite Hw;
    try apply Hno; rewrite ?lookup_insert_Some, ?lookup_delete_Some.
  - intros [[<- <-]|[_ Hx]]; [lia|by apply Hno].
  - intros [_ Hx]. by apply Hno.
  - intros [[<- <-]|[_ Hx]]; [rewrite Hff|]; by apply Hno.
  - intros [[<- <-]|[_ Hx]]; [|by apply Hno].
    destruct Hff as [->| ->]; [by apply Hno|lia].
  - intros [[<- <-]|[_ Hx]]; [|by apply Hno].
    pose proof (grant_is_later _ _ _ _ _ Hi' Hin). lia.
Qed.

Lemma void_steps s gs s' G id f :
  lease_steps s gs s' → fence_range s' → lease_inv s G → void s G id f → void s' (G ++ gs) id f.
Proof.
  intros Hs Hr. revert G. induction Hs as [|s g s1 gs s2 Hst Hss IH]; intros G Hi Hret.
  { by rewrite app_nil_r. }
  assert (fence_range s1) by by eapply fence_range_back.
  rewrite app_assoc. apply IH; [done|by eapply lease_inv_step|by eapply void_step].
Qed.

(** ** Properties *)

Section Properties.
Context `{!UuidOps, !ChronoOps, !JsonText, !Sha256Ops, !IterOrder ExecutionId, !IterOrder N,
  !IterOrder TenantId, !IterOrder (string * string)}.

Definition start_world : world InMemoryBackend := World InMemoryBackend_new 0 0.

Lemma history_inv ops :
  ops_ok ops start_world → let r := run_ops ops start_world in
  fence_range (store r.2) →
  lease_inv (store r.2) r.1 ∧ keys_ok (store r.2).
Proof.
  intros Hok r Hr. pose proof (run_ops_steps ops start_world keys_ok_new Hok) as Hs. split.
  - apply (lease_inv_steps _ _ _ [] Hs Hr lease_inv_new).
  - eapply lease_steps_keys; [exact Hs|apply keys_ok_new].
Qed.

Lemma run_ops_app ops1 ops2 w :
  run_ops (ops1 ++ ops2) w =
  let r1 := run_ops ops1 w in let r2 := run_ops ops2 r1.2 in (r1.1 ++ r2.1, r2.2).
Proof.
  revert w; induction ops1 as [|op ops1 IH]; intros w; simpl; [by destruct (run_ops ops2 w)|].
  rewrite IH. simpl. by rewrite app_assoc.
Qed.

Lemma ops_ok_app ops1 ops2 w :
  ops_ok (ops1 ++ ops2) w ↔ ops_ok ops1 w ∧ ops_ok ops2 (run_ops ops1 w).2.
Proof.
  revert w; induction ops1 as [|op ops1 IH]; intros w; simpl; [naive_solver|].
  rewrite IH. naive_solver.
Qed.

(** The settlements that name a lease, and whether one took effect. *)
Definition settles (op : Op) (id : WorkItemId) (f : Z) (w : world InMemoryBackend) : bool :=
  let on id' f' := bool_decide (id' = id) && bool_decide (f' = f) in
  let said (r : result StateBackendError bool) := match r with Ok b => b | Err _ => false end in
  match op with
  | OpCompleteFenced id' f' => on id' f' && said (InMemory.complete_work_item_fenced id' f' w).1
  | OpWithdraw id' f' => on id' f' && said (InMemory.withdraw_work_item_fenced id' f' w).1
  | OpFailFenced id' f' e => on id' f'
      && match (InMemory.fail_work_item_fenced id' f' e w).1 with
         | Ok (Some _) => true | _ => false end
  | OpCommit id' f' ev b => on id' f' && is_ok (InMemory.commit_turn id' f' ev b w).1
  | OpCommitUnless id' f' ev b =>
      on id' f' && is_ok (InMemory.commit_turn_unless_terminal id' f' ev b w).1
  | OpPark id' f' r n => on id' f' && said (InMemory.park_work_item id' f' r n w).1
  | OpFinalize eid id' f' => on id' f' && said (InMemory.finalize_rollover_fenced eid id' f' w).1
  | _ => false
  end.

Definition reports_failure (op : Op) : bool :=
  match op with OpFailFenced _ _ _ => true | _ => false end.
(** Those that test the fence and not the claim. *)
Definition tests_fence_only (op : Op) : bool :=
  match op with
  | OpCommit _ _ _ _ | OpCommitUnless _ _ _ _ | OpPark _ _ _ _ | OpFinalize _ _ _ => true
  | _ => false
  end.

(** What a settlement finds and leaves: an item under its fence, which then is
    gone or carries fence 0; after a failure it may keep the fence, unclaimed. *)
Definition settled_from (op : Op) (id : WorkItemId) (f : Z) (w w' : world InMemoryBackend) : Prop :=
  (∃ i, work_items (store w) !! id = Some i ∧ lease_fence i = f
     ∧ (tests_fence_only op = false → claimed i = true))
  ∧ ∀ i, work_items (store w') !! id = Some i → claimed i = false
     ∧ (reports_failure op = false → lease_fence i = 0).

Lemma remove_if_held_settles op id f w w' :
  InMemory.remove_if_held id f w = (Ok true, w') → settled_from op id f w w'.
Proof.
  unfold InMemory.remove_if_held. rewrite bind_gets.
  destruct (work_items (store w) !! id) as [i|] eqn:Hi; [|done].
  destruct (InMemory.holds f i) eqn:Hh; [|done]. intros [= <-].
  apply andb_true_iff in Hh as [Hc Hf%bool_decide_eq_true]. split; [eauto|].
  cbn. intros i'. by rewrite lookup_delete_eq.
Qed.

(** A commit that goes through found its fence and leaves the item removed. *)
Lemma commit_turn_removes id f ev b w seq w' :
  InMemory.commit_turn id f ev b w = (Ok seq, w') →
  (∃ i, work_items (store w) !! id = Some i ∧ lease_fence i = f)
  ∧ work_items (store w') !! id = None.
Proof.
  unfold InMemory.commit_turn. destruct (InMemory.is_terminal_event _); [|done]. cbn [negb].
  rewrite bind_gets. destruct (work_items (store w) !! id) as [i|] eqn:Hi; [|done].
  case_decide as Hf; [|done]. intros Hrun. split; [eauto|]. revert Hrun.
  unfold InMemory.push_event. rewrite bind_modify, bind_assoc, bind_gets.
  rewrite bind_assoc, bind_modify, bind_mret.
  destruct (InMemory.idem_effect _) as [[k v]|], b; intros [= _ <-]; cbn;
    repeat case_match; apply lookup_delete_eq.
Qed.

Lemma settles_held op id f w :
  settles op id f w = true → settled_from op id f w (run_op op w).2.
Proof.
  assert (∀ {A} (r : result StateBackendError A * world InMemoryBackend),
    is_ok r.1 = true → ∃ a, r = (Ok a, r.2)) as Hok by (intros A [[a|] ?] ?; [by exists a|done]).
  assert (∀ (r : result StateBackendError bool * world InMemoryBackend),
    match r.1 with Ok b => b | Err _ => false end = true → r = (Ok true, r.2)) as Hsaid
    by (intros [[[]|] ?] ?; done).
  destruct op; try done; unfold settles; rewrite !andb_true_iff, !bool_decide_eq_true;
    intros [[-> ->] Hr]; cbn [run_op snd].
  - by apply remove_if_held_settles, Hsaid.
  - by apply remove_if_held_settles, Hsaid.
  - unfold InMemory.fail_work_item_fenced in *. run_eff.
    destruct (work_items (store w) !! id) as [i|] eqn:Hi; [|done].
    destruct (negb (claimed i) || negb (bool_decide (lease_fence i = f))) eqn:Hg; [done|].
    apply orb_false_iff in Hg as [?%negb_false_iff ?%negb_false_iff%bool_decide_eq_true].
    split; [by eauto|].
    intros i'. match goal with |- context [if decide ?P then _ else _] => destruct (decide P) end;
      cbn; [by rewrite lookup_delete_eq|]. rewrite lookup_insert_eq.
    intros [= <-]. by destruct (payload i).
  - destruct (Hok _ _ Hr) as [seq Hc]. apply commit_turn_removes in Hc as [(i & ? & ?) Hn].
    split; [by exists i|]. by rewrite Hn.
  - unfold InMemory.commit_turn_unless_terminal in *. rewrite bind_gets in *.
    assert (∀ (m : eff InMemoryBackend StateBackendError EventSequence) v, is_ok ((x ← m; mret (Committed x)) v).1 = true → ∃ x, m v = (Ok x, ((x ← m; mret (Committed x)) v).2)) as Hm.
    { intros m v. unfold mbind, eff_bind. destruct (m v) as [[x|] ?]; [by exists x|done]. }
    assert (∀ v, is_ok ((seq ← InMemory.commit_turn id f ev snapshot; mret (Committed seq)) v).1 = true →
      settled_from (OpCommitUnless id f ev snapshot) id f v
        ((seq ← InMemory.commit_turn id f ev snapshot; mret (Committed seq)) v).2) as Hcom.
    { intros v (seq & Hc)%Hm. apply commit_turn_removes in Hc as [(i & ? & ?) Hn].
      split; [by exists i|]. by rewrite Hn. }
    destruct (executions (store w) !! _) as [x|]; [|by apply Hcom].
    destruct (WorkflowStatus.is_terminal (status x)); [|by apply Hcom].
    unfold mbind, eff_bind in Hr |- *. unfold InMemory.withdraw_work_item_fenced in *.
    destruct (InMemory.remove_if_held id f w) as [[[]|] w1] eqn:Hrm; try done.
    by apply remove_if_held_settles.
  - apply Hsaid in Hr. revert Hr. unfold InMemory.park_work_item. rewrite !bind_gets.
    destruct (work_items (store w) !! id) as [i|] eqn:Hi; [|done].
    case_decide as Hf; [done|]. intros _. split; [by exists i|].
    run_eff. cbn. intros i'. rewrite lookup_insert_eq. by intros [= <-].
  - apply Hsaid in Hr. revert Hr. unfold InMemory.finalize_rollover_fenced. rewrite !bind_gets.
    destruct (work_items (store w) !! id) as [i|] eqn:Hi; [|done].
    case_decide as Hf; [|done]. intros _. split; [by exists i|].
    run_eff. cbn. intros i'. repeat case_match; cbn; by rewrite lookup_delete_eq.
Qed.

(** C3: Fences only grow. In any history of operations, in any order and with
    any number of workers, the leases handed out for one work item carry
    strictly increasing fences, across re-queues and failovers alike. *)
Theorem fences_strictly_increase (ops : list Op) (id : WorkItemId) :
  ops_ok ops start_world → fence_range (store (run_ops ops start_world).2) →
  StronglySorted Z.lt (fences_of id (run_ops ops start_world).1).
Proof.
  intros Hok Hr. destruct (history_inv ops Hok Hr) as [[_ _ _ _ Hs] _].
  specialize (Hs id). induction Hs as [|f l _ IH Hf]; constructor; [done|].
  eapply Forall_impl; [exact Hf|]. by intros f' [? _].
Qed.

(** C2: A lease settles its item at most once, but for one gap. Let a lease of
    an item be handed out in a history whose new items are fresh and whose
    counters leave room. After a settlement under it took effect (a completion,
    withdrawal, turn commit with or without the test for the run's end, parking,
    roll-over or failure), every later settlement under the same lease is refused,
    whatever happened to the item in between. The one exception: after a reported
    failure, a commit, parking or roll-over, which test the fence and not the
    claim, may still be accepted once ([commit_turn_accepts_unclaimed]). *)
Theorem settle_at_most_once (ops1 ops2 : list Op) (op op' : Op) (id : WorkItemId) (f : Z) :
  let w1 := (run_ops ops1 start_world).2 in
  let w2 := (run_ops (ops1 ++ op :: ops2) start_world).2 in
  ops_ok (ops1 ++ op :: ops2) start_world → fence_range (store w2) →
  (id, f) ∈ (run_ops ops1 start_world).1 →
  settles op id f w1 = true → settles op' id f w2 = true →
  reports_failure op = true ∧ tests_fence_only op' = true.
Proof.
  intros w1 w2 Hok Hr Hin Hset Hset'.
  pose proof Hok as [Hok1 [Hop Hok2]]%ops_ok_app.
  assert (w2 = (run_ops ops2 (run_op op w1).2).2) as Hw2
    by (unfold w2; by rewrite run_ops_app).
  pose proof (run_ops_steps ops1 start_world keys_ok_new Hok1) as Hs1.
  assert (keys_ok (store w1)) as Hk1 by (eapply lease_steps_keys; [exact Hs1|apply keys_ok_new]).
  assert (lease_steps (store w1) (run_op op w1).1 (store (run_op op w1).2)) as Hs
    by by apply run_op_steps.
  assert (keys_ok (store (run_op op w1).2)) as Hk by by eapply lease_steps_keys.
  pose proof (run_ops_steps ops2 _ Hk Hok2) as Hs2. rewrite <- Hw2 in Hs2.
  assert (fence_range (store (run_op op w1).2)) as Hr' by by eapply fence_range_back.
  assert (fence_range (store w1)) as Hr1 by by eapply fence_range_back.
  pose proof (lease_inv_steps _ _ _ [] Hs1 Hr1 lease_inv_new) as Hi1.
  pose proof (lease_inv_steps _ _ _ _ Hs Hr' Hi1) as Hi.
  pose proof (granted_positive _ _ _ _ Hi1 Hin) as Hf0.
  assert ((id, f) ∈ ([] ++ (run_ops ops1 start_world).1) ++ (run_op op w1).1) as Hin'
    by (apply elem_of_app; by left).
  apply settles_held in Hset as [_ Hafter].
  apply settles_held in Hset' as [(i & Hii & Hif & Hic) _].
  destruct (reports_failure op) eqn:Hop'; [split; [done|]|].
  - destruct (tests_fence_only op') eqn:Hfo; [done|]. specialize (Hic eq_refl).
    destruct (retired_steps _ _ _ _ id f Hs2 Hr Hi) as [_ Hno].
    { split; [done|]. intros i' Hi'. unfold InMemory.holds. by rewrite (proj1 (Hafter i' Hi')). }
    specialize (Hno i Hii). unfold InMemory.holds in Hno. rewrite Hic, Hif in Hno.
    by rewrite bool_decide_true in Hno.
  - destruct (void_steps _ _ _ _ id f Hs2 Hr Hi) as [_ Hno]; [|by destruct (Hno i Hii)].
    split; [done|]. intros i' Hi'. rewrite (proj2 (Hafter i' Hi') eq_refl). lia.
Qed.

(** A call of [commit_turn] that no other task interrupts is its two halves in
    turn, and so is [commit_turn_unless_terminal]. *)
Lemma commit_turn_halves id f ev b w :
  InMemory.commit_turn id f ev b w
  = (InMemory.commit_turn_admit id f ev ≫= λ _, InMemory.commit_turn_settle id ev b) w.
Proof.
  unfold InMemory.commit_turn, InMemory.commit_turn_admit.
  destruct (negb _); [done|]. rewrite bind_assoc, !bind_gets.
  destruct (work_items (store w) !! id) as [i|]; [|done]. by case_decide.
Qed.

Lemma commit_unless_halves id f ev b w :
  InMemory.commit_turn_unless_terminal id f ev b w
  = (InMemory.run_terminal_status (event_execution_id ev) ≫= λ t,
     InMemory.commit_turn_given t id f ev b) w.
Proof.
  unfold InMemory.commit_turn_unless_terminal, InMemory.run_terminal_status.
  rewrite !bind_gets. destruct (executions (store w) !! _) as [e|]; [|done].
  by destruct (WorkflowStatus.is_terminal (status e)).
Qed.

(** A late heartbeat takes nothing from anyone. When a heartbeat re-attaches
    an expired lease, no lease of the item was handed out after it, the item was
    waiting, and the new fence is larger than every fence of the item. *)
Theorem reattach_only_last_lease (ops : list Op) (id : WorkItemId) (worker : string) (f : Z)
    (renewal : LeaseRenewal) :
  let w := (run_ops ops start_world).2 in
  let G := (run_ops ops start_world).1 in
  let r := InMemory.heartbeat_lease id worker f w in
  ops_ok ops start_world → fence_range (store r.2) →
  r.1 = Ok renewal → reattached renewal = true → (id, f) ∈ G →
  (∀ f', (id, f') ∈ G → f' ≤ f ∧ f' < lr_lease_fence renewal)
  ∧ ∃ i, work_items (store w) !! id = Some i ∧ claimed i = false.
Proof.
  intros w G r Hok Hr Hres Hre Hin.
  pose proof (run_ops_steps ops start_world keys_ok_new Hok) as Hs.
  pose proof (heartbeat_steps id worker f w) as Hh. fold r in Hh.
  assert (fence_range (store w)) as Hrw by by eapply fence_range_back.
  pose proof (lease_inv_steps _ _ _ [] Hs Hrw lease_inv_new) as Hi.
  pose proof (lease_inv_steps _ _ _ _ Hh Hr Hi) as Hi'.
  unfold heartbeat_grant in Hi'. rewrite Hres, Hre in Hi'. change ([] ++ _) with G in Hi, Hi'.
  change (lease_inv (store w) G) in Hi.
  assert (∃ i, work_items (store w) !! id = Some i ∧ claimed i = false
    ∧ epoch_of (store w) id = fence_epoch f + 1) as (i & Hwi & Hc & He).
  { subst r. unfold InMemory.heartbeat_lease, recover in Hres. unfold mbind, eff_bind in Hres.
    unfold InMemory.renew_lease in Hres. rewrite bind_gets in Hres.
    destruct (work_items (store w) !! id) as [i|] eqn:Hwi; [|done].
    exists i. split; [done|]. revert Hres. run_eff.
    repeat case_decide; try (by intros [= <-]); unfold InMemory.reattach; run_eff;
      (destruct (last_lease (store w) !! id) as [[lw lf]|]; [|done]);
      (case_decide; [done|]); rewrite Hwi; (destruct (claimed i); [done|]); simpl;
      (destruct (bool_decide _) eqn:Hb; [|done]); apply bool_decide_eq_true in Hb; done. }
  split; [|eauto]. intros f' Hf'. split.
  - destruct (decide (f' ≤ f)) as [|Hgt]; [done|exfalso].
    destruct (li_waiting _ _ Hi id i f' Hwi Hc Hf') as (t & e & Hm & Ht & Hee).
    assert (fence_epoch f' = e) as Hfe.
    { apply (fence_epoch_minted _ _ _ Hm); [lia|]. pose proof (proj2 Hrw id). lia. }
    assert (later_fence f f') as [_ ?]; [|lia].
    apply elem_of_fences_of in Hin, Hf'.
    apply list_elem_of_split in Hin as (l1 & l2 & Hsp).
    pose proof (li_sorted _ _ Hi id) as Hso. rewrite Hsp in Hso, Hf'.
    apply elem_of_app in Hf' as [Hf'|[->|Hf']%elem_of_cons]; [| lia |].
    + assert (later_fence f' f) as [? _]; [|lia].
      apply (StronglySorted_across _ l1 (f :: l2)); [done|done|by left].
    + apply (StronglySorted_across _ (l1 ++ [f]) l2); [by rewrite <- app_assoc|set_solver|done].
  - pose proof (li_sorted _ _ Hi' id) as Hso. rewrite fences_of_app in Hso.
    unfold fences_of at 2, base.filter in Hso. simpl in Hso. rewrite decide_True in Hso by done.
    apply (StronglySorted_across later_fence (fences_of id G) [lr_lease_fence renewal] f'
             (lr_lease_fence renewal)); [done|by apply elem_of_fences_of|by left].
Qed.

(** [commit_turn] checks the fence but not the claim. After a failure was
    reported under a lease and the item re-queued, a commit under the very same
    lease is still accepted, though a fenced completion is refused; so is a
    commit with fence 0 of an item nobody has ever claimed. *)
Theorem commit_turn_accepts_unclaimed (id : WorkItemId) (f : Z) (e : string) (ev : Event)
    (b : bool) (w w' : world InMemoryBackend) (item : WorkItem) (delay : Z) :
  is_ok (InMemory.commit_turn id f ev b w).1 = true →
  InMemory.fail_work_item_fenced id f e w = (Ok (Some (Retryable item delay)), w') →
  is_ok (InMemory.commit_turn id f ev b w').1 = true
  ∧ (InMemory.complete_work_item_fenced id f w').1 = Ok false.
Proof.
  intros Hcommit Hfail.
  assert (∃ i, work_items (store w') !! id = Some i ∧ lease_fence i = f ∧ claimed i = false)
    as (i & Hi & Hf & Hc).
  { unfold InMemory.fail_work_item_fenced in Hfail. run_eff.
    destruct (work_items (store w) !! id) as [i|] eqn:Hi; [|done].
    destruct (negb (claimed i) || negb (bool_decide (lease_fence i = f))) eqn:Hg; [done|].
    apply orb_false_iff in Hg as [_ Hf%negb_false_iff%bool_decide_eq_true].
    revert Hfail. match goal with |- context [if decide ?P then _ else _] =>
      destruct (decide P) end; [done|]. intros [= _ _ <-]. cbn. rewrite lookup_insert_eq.
    eexists. split; [reflexivity|]. by destruct (payload i). }
  split.
  - assert (InMemory.is_terminal_event (event_kind ev) = true) as Ht.
    { unfold InMemory.commit_turn in Hcommit. by destruct (InMemory.is_terminal_event _). }
    unfold InMemory.commit_turn. rewrite Ht. simpl. rewrite bind_gets, Hi, decide_True by done.
    unfold InMemory.push_event. rewrite bind_modify, bind_assoc, bind_gets.
    rewrite bind_assoc, bind_modify, bind_mret.
    destruct (InMemory.idem_effect _) as [[k v]|], b; reflexivity.
  - unfold InMemory.complete_work_item_fenced, InMemory.remove_if_held.
    rewrite bind_gets, Hi. unfold InMemory.holds. by rewrite Hc.
Qed.
End Properties.

(** ** Witnesses: two workers and an item whose lease expires *)

Module Sample.
#[local] Existing Instances plain_uuid milli_chrono code_json plain_sha256.
#[local] Instance order_exec : IterOrder ExecutionId := list_order ExecutionId.
#[local] Instance order_item : IterOrder N := list_order N.
#[local] Instance order_tenant : IterOrder TenantId := list_order TenantId.
#[local] Instance order_pair : IterOrder (string * string) := list_order (string * string).

Definition item : WorkItem := {|
  wi_id := 5; wi_execution_id := mkExecutionId 7; wi_node_id := "a"; queue_type := "tool";
  payload := Object []; attempt := 0; max_attempts := 3; wi_created_at := 0;
  lease_expires_at := None; worker_id := None; lease_fence := 0; wi_tenant_id := "default" |}.

(** Claimed, lapsed after 31 seconds, re-queued by the sweep. *)
Definition lapse : list Op :=
  [OpEnqueue item; OpClaim "w1" ["tool"] None; OpTick (31 * NANOS_PER_SEC); OpReclaim].
(** Then claimed by another worker. *)
Definition reclaim : list Op := lapse ++ [OpClaim "w2" ["tool"] None].

Definition failed : Event := {|
  event_id := 0; event_execution_id := mkExecutionId 7; sequence := 0;
  event_kind := EventKind.NodeFailed "a" "boom" 1 true; created_at := 0 |}.

Lemma range_of s id0 e :
  store_term s < 2 ^ 30 → lease_epochs s = {[id0 := e]} → e < 2 ^ 32 → fence_range s.
Proof.
  intros Ht He Hlt. split; [done|]. intros id. unfold epoch_of. rewrite He.
  destruct (decide (id = id0)) as [->|]; [by rewrite lookup_singleton_eq|].
  by rewrite lookup_singleton_ne.
Qed.

Lemma fences_witness :
  StronglySorted Z.lt [1; 3]
  ∧ fences_of 5 (run_ops reclaim start_world).1 = [1; 3].
Proof.
  split; [|vm_compute; reflexivity].
  refine (fences_strictly_increase reclaim 5 _ _).
  - repeat (split; try done).
  - apply (range_of _ 5 3); [vm_compute; reflexivity|vm_compute; reflexivity|lia].
Defined.

(** A completion, and then a commit under its lease; a failure, and then one. *)
Lemma settle_witness :
  let w := (run_ops (reclaim ++ [OpCompleteFenced 5 3]) start_world).2 in
  let w' := (run_ops (reclaim ++ [OpFailFenced 5 3 "boom"]) start_world).2 in
  settles (OpCompleteFenced 5 3) 5 3 (run_ops reclaim start_world).2 = true
  ∧ settles (OpCommit 5 3 failed false) 5 3 w = false
  ∧ settles (OpWithdraw 5 3) 5 3 w' = false
  ∧ settles (OpCommit 5 3 failed false) 5 3 w' = true
  ∧ reports_failure (OpFailFenced 5 3 "boom") = true.
Proof.
  intros w w'. split_and!; [vm_compute; reflexivity..|].
  refine (proj1 (settle_at_most_once reclaim [] (OpFailFenced 5 3 "boom")
    (OpCommit 5 3 failed false) 5 3 _ _ _ _ _)).
  - repeat (split; try done).
  - apply (range_of _ 5 4); [vm_compute; reflexivity|vm_compute; reflexivity|lia].
  - vm_compute. right; left.
  - vm_compute. reflexivity.
  - vm_compute. reflexivity.
Defined.

(** Two calls under one fence, of which neither has removed the item when the
    other looks, both go through: the log holds the turn twice. *)
Example racing_commits_both_recorded :
  let w := (run_ops [OpEnqueue item; OpClaim "w1" ["tool"] None] start_world).2 in
  let run :=
    InMemory.commit_turn_admit 5 1 failed ≫= λ _, InMemory.commit_turn_admit 5 1 failed ≫= λ _,
    InMemory.commit_turn_settle 5 failed false ≫= λ _,
    InMemory.commit_turn_settle 5 failed false in
  (run w).1 = Ok 2 ∧ length (log_of (store (run w).2) (mkExecutionId 7)) = 2%nat.
Proof. vm_compute. done. Qed.

Lemma reattach_witness :
  let w := (run_ops lapse start_world).2 in
  let r := InMemory.heartbeat_lease 5 "w1" 1 w in
  r.1 = Ok {| lr_lease_fence := 3; reattached := true |} ∧ 1 < 3.
Proof.
  intros w r. split; [vm_compute; reflexivity|].
  refine (proj2 (proj1 (reattach_only_last_lease lapse 5 "w1" 1
    {| lr_lease_fence := 3; reattached := true |} _ _ _ _ _) 1 _)).
  - repeat (split; try done).
  - apply (range_of _ 5 3); [vm_compute; reflexivity|vm_compute; reflexivity|lia].
  - vm_compute. reflexivity.
  - reflexivity.
  - vm_compute. left.
  - vm_compute. left.
Defined.

Lemma commit_unclaimed_witness :
  let w := (run_ops [OpEnqueue item; OpClaim "w1" ["tool"] None] start_world).2 in
  let w' := (InMemory.fail_work_item_fenced 5 1 "boom" w).2 in
  is_ok (InMemory.commit_turn 5 1 failed false w').1 = true.
Proof.
  intros w w'.
  refine (proj1 (commit_turn_accepts_unclaimed 5 1 "boom" failed false w w' _ _ _ _)).
  - vm_compute. reflexivity.
  - subst w'. vm_compute. reflexivity.
Defined.
End Sample.
