(* ===== verification/History.v ===== *)
(** * Event logs and snapshots of the in-memory backend over its histories

    Every operation is a sequence of history steps: append one event, store a
    snapshot, add an execution row. From these: logs are append-only with
    increasing sequences, materializing from a snapshot is replaying the whole
    log, and an approval request gets one outcome however callers interleave. *)

From S2P Require Import Prelude.
From S2P Require Import Json.
From S2P Require Import RustStr.
From S2P Require Import Core.
From S2P Require Import Condition.
From S2P Require Import Event.
From S2P Require Import Materializer.
From S2P Require Import Hashing.
From S2P Require Import Approvals.
From S2P Require Import Backend.
From S2P Require Import Memory.
From S2P Require Import Lease.

Definition input_of (s : InMemoryBackend) (id : ExecutionId) : Value :=
  match executions s !! id with Some e => initial_input e | None => obj [] end.

(** What the first event of a run's log is folded onto: the seed snapshot of a
    continuation segment, or the initial input. *)
Definition base_of (s : InMemoryBackend) (id : ExecutionId) : MaterializedState :=
  match snapshots_of s id with
  | seed :: _ => if decide (at_sequence seed = 0) then of_snapshot seed
                 else origin (input_of s id)
  | [] => origin (input_of s id)
  end.

Definition is_seeded (s : InMemoryBackend) (id : ExecutionId) : Prop :=
  match snapshots_of s id with [] => True | seed :: _ => at_sequence seed = 0 end.

(** The parts of the store a history step may not touch. *)
Definition same_snapshots (s s' : InMemoryBackend) : Prop :=
  ∀ id, snapshots_of s' id = snapshots_of s id.
Definition same_logs (s s' : InMemoryBackend) : Prop :=
  (∀ id, log_of s' id = log_of s id) ∧ next_sequence s' = next_sequence s.
Definition same_inputs (s s' : InMemoryBackend) : Prop := ∀ id, input_of s' id = input_of s id.

Section Machine.
(** Which event may be appended to which log. *)
Context (Adm : list Event → Event → Prop).

Inductive hist_step (s s' : InMemoryBackend) : Prop :=
| hist_frame :
    same_logs s s' → same_snapshots s s' → same_inputs s s' → hist_step s s'
| hist_push ev id :
    Adm (log_of s id) (set_sequence ev (next_sequence s)) → event_execution_id ev = id →
    (∀ id', log_of s' id' = if decide (id' = id)
       then log_of s id ++ [set_sequence ev (next_sequence s)] else log_of s id') →
    next_sequence s' = next_sequence s + 1 →
    same_snapshots s s' → same_inputs s s' → hist_step s s'
| hist_row id :
    is_seeded s id → same_logs s s' → same_snapshots s s' →
    (∀ id', id' ≠ id → input_of s' id' = input_of s id') → hist_step s s'
| hist_seed id seed :
    snapshots_of s id = [] → log_of s id = [] →
    at_sequence seed = 0 → snap_last_sequence seed = 0 →
    same_logs s s' → same_inputs s s' →
    (∀ id', snapshots_of s' id' = if decide (id' = id) then [seed] else snapshots_of s id') →
    hist_step s s'
| hist_snapshot id snap :
    of_snapshot snap = InMemory.materialized s id → at_sequence snap = snap_last_sequence snap →
    same_logs s s' → same_inputs s s' →
    (∀ id', snapshots_of s' id' =
       if decide (id' = id) then snapshots_of s id ++ [snap] else snapshots_of s id') →
    hist_step s s'.

Definition hist_steps : relation InMemoryBackend := rtc hist_step.

(** ** What the steps keep *)

(** Sequences grow along each log, are positive and below the counter. *)
Definition logs_inv (s : InMemoryBackend) : Prop :=
  1 ≤ next_sequence s
  ∧ ∀ id, log_sorted (log_of s id)
    ∧ ∀ e, e ∈ log_of s id → 0 < sequence e < next_sequence s ∧ event_execution_id e = id.

Lemma logs_inv_step s s' : hist_step s s' → logs_inv s → logs_inv s'.
Proof.
  intros Hs [Hn Hl].
  assert (same_logs s s' → logs_inv s') as Hsame.
  { intros [Hsl Hsn]. split; [lia|]. intros id. rewrite Hsl, Hsn. apply Hl. }
  destruct Hs as [?|ev id _ Hid Hlog Hnext _ _|? ? ?|? ? ? ? ? ? ?|? ? ? ? ?]; try by apply Hsame.
  split; [lia|]. intros id'. rewrite Hlog, Hnext. case_decide as Heq.
  - subst id'. destruct (Hl id) as [Hsrt Hb]. split.
    + apply log_sorted_app. split_and!; [done|repeat constructor|].
      intros a b Ha ->%list_elem_of_singleton. simpl. apply (Hb a Ha).
    + intros e [He| ->%list_elem_of_singleton]%elem_of_app; simpl; [|split; [lia|done]].
      destruct (Hb e He). split; [lia|done].
  - destruct (Hl id') as [? Hb]. split; [done|]. intros e He. destruct (Hb e He). split; [lia|done].
Qed.

(** Logs only grow, at the end. *)
Lemma hist_step_prefix s s' id : hist_step s s' → log_of s id `prefix_of` log_of s' id.
Proof.
  intros Hs. assert (same_logs s s' → log_of s id `prefix_of` log_of s' id) as Hsame
    by by intros [-> _].
  destruct Hs as [?|ev id' _ Hid Hlog _ _ _|? ? ?|? ? ? ? ? ? ?|? ? ? ? ?]; try by apply Hsame.
  rewrite Hlog. case_decide; [subst id|done]. by eexists.
Qed.

(** ** Snapshots *)

Definition events_upto (n : Z) (evs : list Event) : list Event :=
  base.filter (λ ev, sequence ev ≤ n) evs.

(** Every stored snapshot is the fold of a prefix of the log. *)
Definition snaps_inv (s : InMemoryBackend) : Prop :=
  ∀ id, last_sequence (base_of s id) = 0
    ∧ ∀ snap, snap ∈ snapshots_of s id →
        at_sequence snap = snap_last_sequence snap
        ∧ 0 ≤ at_sequence snap < next_sequence s
        ∧ of_snapshot snap =
            apply_events_seeded (base_of s id) (events_upto (at_sequence snap) (log_of s id)).

Lemma events_upto_all n evs :
  (∀ ev, ev ∈ evs → sequence ev ≤ n) → events_upto n evs = evs.
Proof.
  induction evs as [|ev evs IH]; intros Hall; [done|]. unfold events_upto.
  rewrite filter_cons_True by (apply Hall; left). f_equal. apply IH. intros; apply Hall. by right.
Qed.

Lemma events_upto_none n evs :
  (∀ ev, ev ∈ evs → n < sequence ev) → events_upto n evs = [].
Proof.
  induction evs as [|ev evs IH]; intros Hall; [done|]. unfold events_upto.
  rewrite filter_cons_False by (apply Z.nle_gt, Hall; left).
  apply IH. intros; apply Hall. by right.
Qed.

(** Before and after a point, in order, is the whole log. *)
Lemma events_split n evs :
  log_sorted evs → events_upto n evs ++ events_after n evs = evs.
Proof.
  induction evs as [|ev evs IH]; intros Hs; [done|].
  apply StronglySorted_inv in Hs as [Hs Hf]. unfold events_upto, events_after.
  destruct (decide (sequence ev ≤ n)).
  - rewrite filter_cons_True by done. rewrite (filter_cons_False (λ ev, n < sequence ev)) by lia.
    simpl. f_equal. by apply IH.
  - rewrite filter_cons_False by done. rewrite (filter_cons_True (λ ev, n < sequence ev)) by lia.
    rewrite Forall_forall in Hf.
    replace (base.filter (λ ev, sequence ev ≤ n) evs) with (@nil Event).
    2:{ symmetry. apply events_upto_none. intros e He. specialize (Hf e He). lia. }
    simpl. f_equal. apply events_after_all. intros e He. specialize (Hf e He). lia.
Qed.

Lemma max_by_sequence_spec l :
  match max_by_sequence l with
  | Some m => m ∈ l
  | None => l = []
  end.
Proof.
  unfold max_by_sequence. set (f := λ best s, _).
  assert (∀ l (o : option Snapshot) P, (∀ x, o = Some x → P x) → (∀ x, x ∈ l → P x) →
    (o ≠ None ∨ l ≠ [] → ∃ m, foldl f o l = Some m ∧ P m)) as Hfold.
  { clear l. induction l as [|x l IH]; intros o P Ho Hl Hne; simpl.
    - destruct o as [y|]; [|naive_solver]. eauto.
    - apply IH.
      + intros y. unfold f. destruct o as [z|]; [case_decide|]; intros [= <-];
          [apply Hl; by left|by apply Ho|apply Hl; by left].
      + intros y Hy. apply Hl. by right.
      + left. unfold f. destruct o; [case_decide|]; done. }
  destruct l as [|x l]; [done|].
  destruct (Hfold (x :: l) None (λ m, m ∈ x :: l)) as (m & -> & Hm);
    [done|done|by right|done].
Qed.

(** Materializing from whichever snapshot is latest replays the whole log. *)
Lemma materialized_replays s id :
  logs_inv s → snaps_inv s →
  InMemory.materialized s id = apply_events_seeded (base_of s id) (log_of s id).
Proof.
  intros [_ Hl] Hsn. destruct (Hl id) as [Hs Hpos]. destruct (Hsn id) as [_ Hall].
  unfold InMemory.materialized, materialize_from.
  pose proof (max_by_sequence_spec (snapshots_of s id)) as Hmax.
  destruct (max_by_sequence (snapshots_of s id)) as [snap|].
  - destruct (Hall snap Hmax) as (Hat & _ & ->).
    rewrite <- apply_events_seeded_app. by rewrite events_split.
  - unfold base_of. rewrite Hmax. change (match executions s !! id with
      | Some e => initial_input e | None => obj [] end) with (input_of s id).
    rewrite events_after_all; [done|]. intros e He. apply (Hpos e He).
Qed.

Lemma base_of_same s s' id :
  snapshots_of s' id = snapshots_of s id →
  (input_of s' id = input_of s id ∨ is_seeded s id ∧ snapshots_of s id ≠ []) →
  base_of s' id = base_of s id.
Proof.
  intros Hs Hin. unfold base_of, is_seeded in *. rewrite Hs.
  destruct (snapshots_of s id) as [|seed l]; [destruct Hin as [->|[_ []]]; done|].
  destruct Hin as [->|[-> _]]; done.
Qed.

Lemma snaps_inv_step s s' :
  hist_step s s' → logs_inv s → snaps_inv s → snaps_inv s'.
Proof.
  intros Hs Hlinv Hinv. pose proof (logs_inv_step _ _ Hs Hlinv) as [Hn' Hl'].
  pose proof Hlinv as [Hn Hl].
  destruct Hs as [[Hsl Hsn] Hss Hsi|ev id _ Hid Hlog Hnext Hss Hsi|id Hseeded [Hsl Hsn] Hss Hsi
    |id seed Hnone Hnolog Hz Hlz [Hsl Hsn] Hsi Hss|id snap Hsnap Hat [Hsl Hsn] Hsi Hss];
    intros id'.
  - rewrite (base_of_same s s') by (rewrite ?Hss; auto). rewrite Hss, Hsl, Hsn. apply Hinv.
  - rewrite (base_of_same s s') by (rewrite ?Hss; auto). rewrite Hss, Hlog, Hnext.
    destruct (Hinv id') as [Hb Hall]. split; [done|]. intros snap Hin.
    destruct (Hall snap Hin) as (? & ? & Heq). split_and!; [done|lia|lia|].
    rewrite Heq. case_decide; [|done]. subst id'. unfold events_upto.
    rewrite list.filter_app. rewrite (filter_cons_False _ (set_sequence ev _)) by (simpl; lia).
    by rewrite app_nil_r.
  - destruct (decide (id' = id)) as [->|Hne].
    + destruct (Hinv id) as [Hb Hall]. rewrite Hss, Hsl, Hsn.
      destruct (snapshots_of s id) as [|seed l] eqn:Hsnaps.
      { split; [|set_solver]. unfold base_of. by rewrite Hss, Hsnaps. }
      rewrite (base_of_same s s'); [done|by rewrite Hss|]. right. by rewrite Hsnaps.
    + rewrite (base_of_same s s') by (rewrite ?Hss; auto). rewrite Hss, Hsl, Hsn. apply Hinv.
  - rewrite Hsl, Hsn. destruct (decide (id' = id)) as [->|Hne].
    + assert (base_of s' id = of_snapshot seed) as Hb.
      { unfold base_of. by rewrite Hss, !decide_True. }
      rewrite Hb, Hss, decide_True by done. split; [done|].
      intros snap ->%list_elem_of_singleton. rewrite Hz, Hlz, Hnolog. split_and!; done || lia.
    + assert (snapshots_of s' id' = snapshots_of s id') as Hs' by by rewrite Hss, decide_False.
      rewrite (base_of_same s s') by auto. rewrite Hs'. apply Hinv.
  - rewrite Hsl, Hsn. destruct (decide (id' = id)) as [->|Hne].
    + destruct (Hinv id) as [Hb Hall].
      assert (last_sequence (InMemory.materialized s id) = at_sequence snap) as Hlast.
      { rewrite <- Hsnap, Hat. done. }
      rewrite materialized_replays in Hlast, Hsnap by done.
      rewrite last_sequence_apply_events, Hb in Hlast.
      assert (0 ≤ at_sequence snap < next_sequence s) as Hrange.
      { rewrite <- Hlast. split; [apply foldl_max_ge|].
        assert (foldl Z.max 0 (sequence <$> log_of s id) ≤ next_sequence s - 1); [|lia].
        apply foldl_max_le; [lia|]. intros y (e & -> & He)%list_elem_of_fmap.
        destruct (Hl id) as [_ Hb']. destruct (Hb' e He). lia. }
      assert (base_of s' id = base_of s id ∨ snapshots_of s id = [] ∧ at_sequence snap = 0)
        as Hbase.
      { unfold base_of. rewrite Hss, decide_True, Hsi by done.
        destruct (snapshots_of s id); [|by left]. simpl. case_decide; [by right|by left]. }
      assert (events_upto (at_sequence snap) (log_of s id) = log_of s id) as Hupto.
      { apply events_upto_all. intros e He. rewrite <- Hlast.
        by apply foldl_max_elem, list_elem_of_fmap_2. }
      destruct Hbase as [Hbase|[Hnil Hzero]].
      * rewrite Hbase, Hss, decide_True by done. split; [done|].
        intros snap' [Hin| ->%list_elem_of_singleton]%elem_of_app; [by apply Hall|].
        split_and!; [done|lia|lia|]. by rewrite Hupto.
      * assert (log_of s id = []) as Hnolog.
        { destruct (log_of s id) as [|e l] eqn:Hlog; [done|]. destruct (Hl id) as [_ Hb'].
          rewrite Hlog in Hb'. destruct (Hb' e) as [[? _] _]; [by left|].
          assert (sequence e ≤ 0); [|lia]. rewrite <- Hzero, <- Hlast.
          apply foldl_max_elem. by left. }
        assert (base_of s' id = of_snapshot snap) as Hb'.
        { unfold base_of. rewrite Hss, decide_True, Hnil by done. simpl. by rewrite decide_True. }
        rewrite Hb', Hss, decide_True, Hnil by done. split; [simpl; by rewrite <- Hat|].
        simpl. intros snap' ->%list_elem_of_singleton. rewrite Hnolog.
        split_and!; done || lia.
    + assert (snapshots_of s' id' = snapshots_of s id') as Hs' by by rewrite Hss, decide_False.
      rewrite (base_of_same s s') by auto. rewrite Hs'. apply Hinv.
Qed.
End Machine.

(** ** Every operation is a sequence of history steps *)

Definition framed (s s' : InMemoryBackend) : Prop :=
  same_logs s s' ∧ same_snapshots s s' ∧ same_inputs s s'.

#[export] Instance framed_refl : Reflexive framed.
Proof. intros s. by repeat split. Qed.
Lemma framed_trans s1 s2 s3 : framed s1 s2 → framed s2 s3 → framed s1 s3.
Proof.
  intros ([Hl Hn] & Hs & Hi) ([Hl' Hn'] & Hs' & Hi').
  split_and!; [split; [|congruence]|..]; intros id; congruence.
Qed.

(** Overwriting a row that keeps its initial input. *)
Lemma framed_put_execution s id e e' :
  executions s !! id = Some e → initial_input e' = initial_input e →
  framed s (put_execution id e' s).
Proof.
  intros He Hin. split_and!; [done|done|]. intros id'. unfold input_of. cbn.
  destruct (decide (id' = id)) as [->|]; [by rewrite lookup_insert_eq, He|].
  by rewrite lookup_insert_ne.
Qed.

Section Ops.
Context (Adm : list Event → Event → Prop).
Abbreviation M A := (eff InMemoryBackend StateBackendError A).

Definition hquiet {A} (m : M A) : Prop := ∀ w, hist_steps Adm (store w) (store (m w).2).

Lemma hist_framed s s' : framed s s' → hist_steps Adm s s'.
Proof. intros (? & ? & ?). by apply rtc_once, hist_frame. Qed.

Lemma hquiet_mret {A} (a : A) : hquiet (mret a : M A).
Proof. intros w. constructor. Qed.
Lemma hquiet_raise {A} e : hquiet (raise e : M A).
Proof. intros w. constructor. Qed.
Lemma hquiet_gets {A} (f : InMemoryBackend → A) : hquiet (gets f : M A).
Proof. intros w. constructor. Qed.
Lemma hquiet_utc_now : hquiet (utc_now : M Z).
Proof. intros w. constructor. Qed.
Lemma hquiet_new_v4 `{UuidOps} : hquiet (new_v4 : M Uuid).
Proof. intros w. constructor. Qed.
Lemma hquiet_modify f : (∀ s, framed s (f s)) → hquiet (modify f : M unit).
Proof. intros Hf w. apply hist_framed, Hf. Qed.
Lemma hquiet_bind {A B} (m : M A) (k : A → M B) :
  hquiet m → (∀ a, hquiet (k a)) → hquiet (m ≫= k).
Proof.
  intros Hm Hk w. unfold mbind, eff_bind. specialize (Hm w).
  destruct (m w) as [[a|e] w']; simpl in *; [|done].
  etransitivity; [done|apply Hk].
Qed.
Lemma hquiet_for_each {A} (l : list A) (f : A → M unit) :
  (∀ x, hquiet (f x)) → hquiet (for_each l f).
Proof. intros Hf. induction l; simpl; [apply hquiet_mret|by apply hquiet_bind]. Qed.
Lemma hquiet_lookup {A} (f : InMemoryBackend → A) {B} (k : A → M B) :
  (∀ w, hist_steps Adm (store w) (store (k (f (store w)) w).2)) → hquiet (gets f ≫= k).
Proof. intros Hk w. apply Hk. Qed.
Lemma hquiet_at {A} (m : M A) s s1 c d :
  hist_steps Adm s s1 → hquiet m → hist_steps Adm s (store (m (World s1 c d)).2).
Proof. intros Hs Hm. etransitivity; [done|]. apply (Hm (World s1 c d)). Qed.

(** One append, to a log that admits it. *)
Lemma push_step ev s :
  Adm (log_of s (event_execution_id ev)) (set_sequence ev (next_sequence s)) →
  hist_steps Adm s (push ev s).
Proof.
  intros Ha. apply rtc_once, (hist_push _ _ _ ev (event_execution_id ev)); try done.
  intros id'. unfold push, log_of. cbn. case_decide as Hid.
  - subst id'. by rewrite lookup_insert_eq.
  - by rewrite lookup_insert_ne.
Qed.

Lemma hquiet_push ev :
  (∀ log q, Adm log (set_sequence ev q)) → hquiet (modify (push ev) : M unit).
Proof. intros Ha w. by apply push_step. Qed.

Lemma fold_framed {B X} (step : B * InMemoryBackend → X → B * InMemoryBackend) l b s :
  (∀ b s x, framed s (step (b, s) x).2) → framed s (foldl step (b, s) l).2.
Proof.
  intros Hstep. revert b s; induction l as [|x l IH]; intros b s; simpl; [done|].
  specialize (Hstep b s x). destruct (step (b, s) x) as [b' s'].
  eapply framed_trans; [exact Hstep|apply IH].
Qed.
End Ops.

Ltac framed_tac :=
  repeat case_match; first [reflexivity | by repeat split].
Ltac hquiet_tac :=
  repeat first
    [ apply hquiet_mret | apply hquiet_raise | apply hquiet_gets | apply hquiet_utc_now
    | apply hquiet_new_v4
    | apply hquiet_bind; [|intros ?]
    | apply hquiet_for_each; intros ?
    | progress (repeat case_match)
    | apply hquiet_push; by auto
    | apply hquiet_modify; intros ?; framed_tac ].

Section Refinement.
Context `{!UuidOps, !ChronoOps, !JsonText, !Sha256Ops, !IterOrder ExecutionId, !IterOrder N,
  !IterOrder TenantId, !IterOrder (string * string)}.
Context (Adm : list Event → Event → Prop).

(** The kinds of events the backend appends by itself. *)
Definition lapse_kind (k : EventKind) : bool :=
  match k with EventKind.NodeFailed _ _ _ _ | EventKind.RetryScheduled _ _ _ => true | _ => false end.
Context (Hlapse : ∀ log ev, lapse_kind (event_kind ev) = true → Adm log ev).

Abbreviation hq := (hquiet Adm) (only parsing).

Lemma row_update {B} (id : ExecutionId) (f : WorkflowExecution → Z → WorkflowExecution)
    (k : unit → eff InMemoryBackend StateBackendError B) (w : world InMemoryBackend) e now :
  executions (store w) !! id = Some e → (∀ n, initial_input (f e n) = initial_input e) →
  (∀ a, hq (k a)) →
  hist_steps Adm (store w) (store ((modify (put_execution id (f e now)) ≫= k) w).2).
Proof.
  intros He Hf Hk. rewrite bind_modify. apply hquiet_at; [|apply Hk].
  apply hist_framed. by eapply framed_put_execution.
Qed.

Lemma hquiet_update_status id st : hq (InMemory.update_execution_status id st).
Proof.
  apply hquiet_lookup. intros w. destruct (executions (store w) !! id) as [e|] eqn:He; [|constructor].
  rewrite bind_now. apply hist_framed. by eapply framed_put_execution.
Qed.

Lemma hquiet_update_state id v : hq (InMemory.update_execution_current_state id v).
Proof.
  apply hquiet_lookup. intros w. destruct (executions (store w) !! id) as [e|] eqn:He; [|constructor].
  rewrite bind_now. apply hist_framed. by eapply framed_put_execution.
Qed.

Lemma hquiet_patch_array id key v : hq (InMemory.patch_append_array id key v).
Proof.
  apply hquiet_lookup. intros w. destruct (executions (store w) !! id) as [e|] eqn:He; [|constructor].
  rewrite bind_now. apply hist_framed. by eapply framed_put_execution.
Qed.

Lemma hquiet_push_event ev :
  (∀ log q, Adm log (set_sequence ev q)) → hq (InMemory.push_event ev).
Proof. intros Ha. unfold InMemory.push_event. hquiet_tac. Qed.

Lemma hquiet_finish ev st :
  (∀ log q, Adm log (set_sequence ev q)) → hq (InMemory.finish_execution ev st).
Proof.
  intros Ha. unfold InMemory.finish_execution. case_match; [hquiet_tac|].
  apply hquiet_lookup. intros w.
  destruct (executions (store w) !! _) as [e|] eqn:He; [|constructor].
  case_match; [constructor|]. rewrite bind_now.
  apply (row_update _ (λ e now, exec_with e st (current_state e) now)); [done|done|].
  intros _. apply hquiet_bind; [by apply hquiet_push_event|]. intros. apply hquiet_mret.
Qed.

Lemma hquiet_append_if ev cond :
  (∀ now log q, cond now log = true → Adm log (set_sequence ev q)) →
  hq (InMemory.append_event_if ev cond).
Proof.
  intros Ha. unfold InMemory.append_event_if. apply hquiet_lookup. intros w.
  destruct (executions (store w) !! _) as [e|] eqn:He; [|constructor].
  case_match; [constructor|]. rewrite bind_modify, bind_gets, bind_now. cbn [store clock].
  set (s1 := set_events _ (store w)).
  assert (framed (store w) s1) as Hfr.
  { split_and!; [split; [|done]|done|done]. intros id. unfold s1, log_of. cbn.
    destruct (decide (id = event_execution_id ev)) as [->|].
    - by rewrite lookup_insert_eq.
    - by rewrite lookup_insert_ne. }
  destruct (cond (clock w) (log_of s1 (event_execution_id ev))) eqn:Hc; simpl.
  - etransitivity; [by apply hist_framed|]. by apply push_step, (Ha (clock w)).
  - by apply hist_framed.
Qed.

Lemma hquiet_create_run e oseed k1 k2 item w :
  let id := execution_id e in
  (∀ log ev, event_kind ev = k1 ∨ event_kind ev = k2 → Adm log ev) →
  match oseed with
  | Some seed => snapshots_of (store w) id = [] ∧ log_of (store w) id = []
      ∧ at_sequence seed = 0 ∧ snap_last_sequence seed = 0
  | None => is_seeded (store w) id
  end →
  hist_steps Adm (store w) (store (InMemory.create_run e oseed k1 k2 item w).2).
Proof.
  intros id Ha Hpre.
  set (s1 := match oseed with Some snap => push_snapshot id snap (store w) | None => store w end).
  assert (∃ ev1 ev2, event_kind ev1 = k1 ∧ event_kind ev2 = k2
    ∧ event_execution_id ev1 = id ∧ event_execution_id ev2 = id
    ∧ store (InMemory.create_run e oseed k1 k2 item w).2 =
      put_item (wi_id item) item (put_execution id e (push ev2 (push ev1 s1))))
    as (ev1 & ev2 & Hk1 & Hk2 & Hi1 & Hi2 & ->).
  { unfold InMemory.create_run, s1.
    exists {| event_id := uuid_v4 (draws w); event_execution_id := id; sequence := 0;
              event_kind := k1; created_at := clock w |},
           {| event_id := uuid_v4 (N.succ (draws w)); event_execution_id := id; sequence := 0;
              event_kind := k2; created_at := clock w |}.
    split_and!; [done..|]. by destruct oseed. }
  assert (hist_steps Adm (store w) s1 ∧ is_seeded s1 id) as [Hs1 Hseed].
  { unfold s1. destruct oseed as [seed|]; [|split; [constructor|done]].
    destruct Hpre as (Hn & Hl & Hz & Hz').
    assert (∀ id', snapshots_of (push_snapshot id seed (store w)) id' =
      if decide (id' = id) then [seed] else snapshots_of (store w) id') as Hsn.
    { intros id'. unfold push_snapshot, snapshots_of at 1. cbn. case_decide as Heq.
      - subst id'. by rewrite lookup_insert_eq, Hn.
      - by rewrite lookup_insert_ne. }
    split; [|unfold is_seeded; by rewrite Hsn, decide_True].
    by apply rtc_once, (hist_seed _ _ _ id seed). }
  etransitivity; [exact Hs1|].
  etransitivity; [apply (push_step _ ev1), Ha; by left|].
  etransitivity; [apply (push_step _ ev2), Ha; by right|].
  etransitivity; [|apply hist_framed; by repeat split].
  apply rtc_once, (hist_row _ _ _ id); [done|done|done|].
  intros id' Hne. unfold input_of. cbn. by rewrite lookup_insert_ne.
Qed.

Lemma hquiet_event_new id seq k : hq (Event_new id seq k).
Proof. unfold Event_new. hquiet_tac. Qed.

Lemma hquiet_record_lapsed item : hq (InMemory.record_lapsed item).
Proof.
  unfold InMemory.record_lapsed. simpl.
  assert (∀ k, lapse_kind k = true → hq (
    latest ← InMemory.latest_sequence (wi_execution_id item);
    event ← Event_new (wi_execution_id item) (latest + 1) k;
    InMemory.append_event event ≫= λ _, mret tt)) as Hone.
  { intros k Hk w. unfold InMemory.append_event, InMemory.push_event.
    etransitivity; [|apply (push_step Adm {| event_id := uuid_v4 (draws w);
      event_execution_id := wi_execution_id item; sequence := 0; event_kind := k;
      created_at := clock w |} (store w)); by apply Hlapse].
    constructor. }
  apply hquiet_bind; [by apply Hone|]. intros _.
  apply hquiet_bind; [by apply Hone|]. intros _. apply hquiet_mret.
Qed.

Lemma hquiet_sweep_lapsed : hq InMemory.sweep_lapsed.
Proof.
  unfold InMemory.sweep_lapsed. intros w. rewrite bind_now, bind_gets.
  assert (framed (store w) (InMemory.lapse_items (clock w) (store w)).2) as Hf.
  { unfold InMemory.lapse_items. apply fold_framed. intros [expired withdrawn] s [k i].
    unfold InMemory.lapse_step. repeat case_match; by repeat split. }
  destruct (InMemory.lapse_items _ _) as [[expired withdrawn] s'].
  rewrite bind_modify. apply hquiet_at; [by apply hist_framed|].
  apply (hquiet_bind _ (for_each withdrawn (λ id, modify (drop_item id)))); [hquiet_tac|].
  intros _. apply hquiet_for_each, hquiet_record_lapsed.
Qed.

Lemma hquiet_claim worker qs secs : hq (InMemory.claim_work_item_with_lease worker qs secs).
Proof.
  unfold InMemory.claim_work_item_with_lease. apply hquiet_bind; [apply hquiet_sweep_lapsed|].
  intros _. intros w. rewrite bind_now, bind_gets.
  destruct (List.find _ _) as [[k i]|]; [|constructor].
  apply hist_framed. by repeat split.
Qed.

Lemma hquiet_reclaim : hq InMemory.reclaim_expired_leases.
Proof.
  unfold InMemory.reclaim_expired_leases. intros w. rewrite bind_now, bind_gets.
  assert (framed (store w) (foldl (InMemory.reclaim_step (clock w)) ([], [], store w)
    (iter_map (work_items (store w)))).2) as Hf.
  { apply fold_framed. intros [retry dead] s [k i]. unfold InMemory.reclaim_step.
    repeat case_match; by repeat split. }
  destruct (foldl _ _ _) as [[retry dead] s'].
  rewrite bind_modify. apply hquiet_at; [by apply hist_framed|]. hquiet_tac.
Qed.

Lemma hquiet_finalize eid id f : hq (InMemory.finalize_rollover_fenced eid id f).
Proof.
  apply hquiet_lookup. intros w. destruct (work_items (store w) !! id) as [i|]; [|constructor].
  case_decide; [|constructor]. rewrite bind_modify, bind_now, bind_modify. cbn [store clock].
  apply hist_framed. eapply framed_trans; [by repeat split|]. cbn.
  destruct (executions (store w) !! eid) as [e|] eqn:He; [|done].
  destruct (WorkflowStatus.is_terminal (status e)); [done|].
  apply (framed_put_execution (drop_item id (store w)) eid e); done.
Qed.

Lemma hquiet_commit_turn id f ev b :
  (∀ log q, Adm log (set_sequence ev q)) → hq (InMemory.commit_turn id f ev b).
Proof.
  intros Ha. unfold InMemory.commit_turn. case_match; [hquiet_tac|].
  apply hquiet_lookup. intros w. destruct (work_items (store w) !! id) as [i|]; [|constructor].
  case_decide; [|constructor]. cbv zeta. rewrite bind_modify.
  apply hquiet_at; [apply hist_framed; by repeat split|].
  apply hquiet_bind; [by apply hquiet_push_event|]. intros seq.
  apply hquiet_bind.
  { destruct (InMemory.idem_effect _) as [[k v]|]; hquiet_tac. }
  intros _. apply hquiet_bind; [|intros; apply hquiet_mret].
  destruct b; [|apply hquiet_mret]. intros w'.
  set (eid := event_execution_id ev).
  set (mat := InMemory.materialized (store w') eid).
  set (snap := {| snap_id := uuid_v4 (draws w'); snap_execution_id := eid;
                  at_sequence := last_sequence mat; snap_state := mat_current_state mat;
                  snap_status := mat_status mat; snap_completed_nodes := completed_nodes mat;
                  snap_active_nodes := active_nodes mat; snap_last_sequence := last_sequence mat;
                  snap_created_at := clock w' |}).
  change (hist_steps Adm (store w') (push_snapshot eid snap (store w'))).
  apply rtc_once, (hist_snapshot _ _ _ eid snap); [|done|done|done|].
  - change (of_snapshot snap = mat). unfold snap, of_snapshot. simpl. by destruct mat.
  - intros id'. unfold push_snapshot, snapshots_of. cbn. case_decide as Heq.
    + subst id'. by rewrite lookup_insert_eq.
    + by rewrite lookup_insert_ne.
Qed.

Lemma hquiet_commit_unless id f ev b :
  (∀ log q, Adm log (set_sequence ev q)) → hq (InMemory.commit_turn_unless_terminal id f ev b).
Proof.
  intros Ha. unfold InMemory.commit_turn_unless_terminal.
  apply hquiet_bind; [hquiet_tac|]. intros [e|].
  - case_match.
    + apply hquiet_bind; [|intros []; hquiet_tac].
      unfold InMemory.withdraw_work_item_fenced, InMemory.remove_if_held. hquiet_tac.
    + apply hquiet_bind; [by apply hquiet_commit_turn|]. intros. apply hquiet_mret.
  - apply hquiet_bind; [by apply hquiet_commit_turn|]. intros. apply hquiet_mret.
Qed.

Lemma hquiet_heartbeat id worker f : hq (InMemory.heartbeat_lease id worker f).
Proof.
  intros w. unfold InMemory.heartbeat_lease, recover.
  assert (hq (InMemory.renew_lease id worker f ≫= λ _,
              mret {| lr_lease_fence := f; reattached := false |})) as Hr
    by (unfold InMemory.renew_lease; hquiet_tac).
  specialize (Hr w).
  match goal with |- context [match ?m w with _ => _ end] =>
    destruct (m w) as [[a|e] w1] end; simpl in *; [done|].
  etransitivity; [exact Hr|]. generalize w1.
  change (hq (match e with FenceLost _ => InMemory.reattach id worker f | _ => raise e end)).
  unfold InMemory.reattach. hquiet_tac.
Qed.

(** What a caller guarantees for the events it appends and the rows it adds. *)
Definition op_hist_ok (s : InMemoryBackend) (op : Op) : Prop :=
  match op with
  | OpAppend ev | OpFinish ev _ | OpCommit _ _ ev _ | OpCommitUnless _ _ ev _ =>
      ∀ log q, Adm log (set_sequence ev q)
  | OpAppendIf ev cond => ∀ now log q, cond now log = true → Adm log (set_sequence ev q)
  | OpCreateExecution e => is_seeded s (execution_id e)
  | OpWriteSnapshot snap =>
      of_snapshot snap = InMemory.materialized s (snap_execution_id snap)
      ∧ at_sequence snap = snap_last_sequence snap
  | OpCreateSegment e seed k1 k2 _ =>
      snapshots_of s (execution_id e) = [] ∧ log_of s (execution_id e) = []
      ∧ at_sequence seed = 0 ∧ snap_last_sequence seed = 0
      ∧ ∀ log ev, event_kind ev = k1 ∨ event_kind ev = k2 → Adm log ev
  | OpStart e k1 k2 _ =>
      is_seeded s (execution_id e)
      ∧ ∀ log ev, event_kind ev = k1 ∨ event_kind ev = k2 → Adm log ev
  | _ => True
  end.

Lemma run_op_hist op w :
  op_hist_ok (store w) op → hist_steps Adm (store w) (store (run_op op w).2).
Proof.
  intros Hok. destruct op; simpl in Hok; cbn [run_op fst snd];
    try (apply hist_framed; by repeat split);
    try match goal with |- hist_steps _ (store ?w) (store (?m ?w).2) =>
      first [ apply hquiet_update_status | apply hquiet_update_state | apply hquiet_patch_array
            | by apply hquiet_finish | by apply hquiet_append_if | by apply hquiet_push_event
            | by apply hquiet_commit_turn | by apply hquiet_commit_unless | apply hquiet_finalize
            | apply hquiet_claim | apply hquiet_reclaim ] end;
    unfold InMemory.store_workflow, InMemory.reserve_tool_effect,
      InMemory.release_tool_reservation, InMemory.put_artifact, InMemory.renew_lease,
      InMemory.complete_work_item_fenced,
      InMemory.withdraw_work_item_fenced, InMemory.remove_if_held, InMemory.fail_work_item,
      InMemory.fail_work_item_fenced, InMemory.park_work_item, InMemory.move_to_dead_letter,
      InMemory.apply_approval_projection_batch;
    try match goal with |- hist_steps _ (store ?w) (store (?m ?w).2) =>
      cut (hquiet Adm m); [intros Hq; apply Hq|by hquiet_tac] end.
  - apply rtc_once, (hist_row _ _ _ (execution_id e)); try done.
    intros id' Hne. unfold input_of. cbn. by rewrite lookup_insert_ne.
  - destruct Hok as [Hof Hat]. apply rtc_once.
    apply (hist_snapshot _ _ _ (snap_execution_id snap) snap); try done.
    intros id'. unfold InMemory.write_snapshot, push_snapshot, snapshots_of. cbn.
    case_decide as Heq; [subst id'; by rewrite lookup_insert_eq|by rewrite lookup_insert_ne].
  - destruct Hok as (? & ? & ? & ? & ?). by apply (hquiet_create_run e (Some seed)).
  - destruct Hok as (? & ?). by apply (hquiet_create_run e None).
  - apply hquiet_heartbeat.
Qed.
End Refinement.

(** A history whose operations all keep their callers' promises. *)
Section Histories.
Context `{!UuidOps, !ChronoOps, !JsonText, !Sha256Ops, !IterOrder ExecutionId, !IterOrder N,
  !IterOrder TenantId, !IterOrder (string * string)}.
Context (Adm : list Event → Event → Prop).
Context (Hlapse : ∀ log ev, lapse_kind (event_kind ev) = true → Adm log ev).

Fixpoint ops_hist_ok (ops : list Op) (w : world InMemoryBackend) : Prop :=
  match ops with
  | [] => True
  | op :: ops => op_hist_ok Adm (store w) op ∧ ops_hist_ok ops (run_op op w).2
  end.

Lemma run_ops_hist ops w :
  ops_hist_ok ops w → hist_steps Adm (store w) (store (run_ops ops w).2).
Proof.
  revert w; induction ops as [|op ops IH]; intros w Hok; [constructor|].
  destruct Hok as [Hop Hok]. simpl. etransitivity; [by apply run_op_hist|by apply IH].
Qed.

Lemma logs_inv_new : logs_inv InMemoryBackend_new.
Proof.
  split; [done|]. intros id. unfold log_of. simpl. rewrite lookup_empty. simpl.
  split; [constructor|]. intros e He. by apply not_elem_of_nil in He.
Qed.

Lemma snaps_inv_new : snaps_inv InMemoryBackend_new.
Proof.
  intros id. unfold base_of, snapshots_of. simpl. rewrite lookup_empty. simpl.
  split; [done|]. intros snap He. by apply not_elem_of_nil in He.
Qed.

Lemma hist_steps_invs s s' :
  hist_steps Adm s s' → logs_inv s → snaps_inv s → logs_inv s' ∧ snaps_inv s'.
Proof.
  induction 1 as [|s s1 s2 Hs _ IH]; [done|]. intros Hl Hsn. apply IH.
  - by eapply logs_inv_step.
  - by eapply snaps_inv_step.
Qed.

Lemma hist_steps_prefix s s' id :
  hist_steps Adm s s' → log_of s id `prefix_of` log_of s' id.
Proof.
  induction 1 as [|s s1 s2 Hs _ IH]; [done|]. etransitivity; [by eapply hist_step_prefix|done].
Qed.
End Histories.

(** ** Properties *)

Definition any_event (log : list Event) (ev : Event) : Prop := True.
(** Approval events only under their conditions. *)
Definition guarded_event `{JsonText, ChronoOps} (log : list Event) (ev : Event) : Prop :=
  (∀ e, e ∈ log → sequence e < sequence ev) → guarded_append log (log ++ [ev]).

Lemma lapse_guarded `{JsonText, ChronoOps} log ev :
  lapse_kind (event_kind ev) = true → guarded_event log ev.
Proof.
  intros Hk Hseq. apply append_other; [| |done]; intros n r;
    unfold is_outcome, is_escalation, resolves; by destruct (event_kind ev).
Qed.

Lemma guarded_log_step `{JsonText, ChronoOps} s s' id :
  hist_step guarded_event s s' → logs_inv s →
  rtc guarded_append [] (log_of s id) → rtc guarded_append [] (log_of s' id).
Proof.
  intros Hs [_ Hl] Hr.
  assert (same_logs s s' → rtc guarded_append [] (log_of s' id)) as Hsame by by intros [-> _].
  destruct Hs as [?|ev id' Ha _ Hlog _ _ _|? ? ?|? ? ? ? ? ? ?|? ? ? ? ?]; try by apply Hsame.
  rewrite Hlog. case_decide; [|done]. subst id'. eapply rtc_r; [exact Hr|].
  apply Ha. intros e He. destruct (Hl id) as [_ Hb]. apply (Hb e He).
Qed.

Section Properties.
Context `{!UuidOps, !ChronoOps, !JsonText, !Sha256Ops, !IterOrder ExecutionId, !IterOrder N,
  !IterOrder TenantId, !IterOrder (string * string)}.

(** Logs are append-only. Over any history, an execution's log only grows
    at its end; sequences are positive and strictly increase along it, and
    every event in it belongs to the execution. *)
Theorem logs_append_only (ops1 ops2 : list Op) (id : ExecutionId) :
  ops_hist_ok any_event (ops1 ++ ops2) start_world →
  let s1 := store (run_ops ops1 start_world).2 in
  let s2 := store (run_ops (ops1 ++ ops2) start_world).2 in
  log_of s1 id `prefix_of` log_of s2 id
  ∧ log_sorted (log_of s2 id)
  ∧ ∀ e, e ∈ log_of s2 id → 0 < sequence e < next_sequence s2 ∧ event_execution_id e = id.
Proof.
  intros Hok s1 s2.
  assert (ops_hist_ok any_event ops1 start_world
    ∧ ops_hist_ok any_event ops2 (run_ops ops1 start_world).2) as [Hok1 Hok2].
  { revert Hok. generalize start_world. clear. induction ops1 as [|op ops1 IH]; intros w; [done|].
    simpl. intros [? Hok]. apply IH in Hok as [? ?]. done. }
  pose proof (run_ops_hist any_event (λ _ _ _, I) _ _ Hok) as Hh.
  destruct (hist_steps_invs _ _ _ Hh logs_inv_new snaps_inv_new) as [[_ Hl] _].
  split; [|apply Hl]. unfold s2. rewrite run_ops_app. simpl.
  apply (hist_steps_prefix any_event). by apply run_ops_hist.
Qed.

(** C32: On the in-memory backend [materialize] answers the replay of the run's
    whole log, from its initial input or from the seed of a continuation segment,
    over any history of the store's operations: the snapshots that turns' commits
    write along the way, and whichever of them is latest, make no difference. What a
    direct call of [write_snapshot] stores is assumed to be the materialization of
    its moment (the trait offers the call; apart from tests the code stores snapshots
    only in a turn's commit, where that is proved, and as seeds); a new segment's run
    is assumed to have no log or snapshot yet and its seed to be at sequence 0, as the
    rollover builds it, and a run is not created again over snapshots of its own
    (the conditions of [op_hist_ok]). *)
Theorem materialize_is_replay (ops : list Op) (id : ExecutionId) (e : WorkflowExecution) :
  let w := (run_ops ops start_world).2 in
  ops_hist_ok any_event ops start_world →
  executions (store w) !! id = Some e →
  (materialize id w).1 = Ok (apply_events_seeded (base_of (store w) id) (log_of (store w) id)).
Proof.
  intros w Hok He. pose proof (run_ops_hist any_event (λ _ _ _, I) _ _ Hok) as Hh.
  destruct (hist_steps_invs _ _ _ Hh logs_inv_new snaps_inv_new) as [Hl Hsn].
  rewrite <- materialized_replays by done.
  unfold materialize, InMemory.materialized, materialize_from. simpl.
  unfold InMemory.get_execution, InMemory.latest_snapshot, InMemory.get_events_since.
  run_eff. fold w. rewrite He. simpl. by destruct (max_by_sequence _).
Qed.

(** C1: One outcome per approval request, in the store. Over any history in
    which decisions are appended under [still_open], expiries under
    [still_pending] and escalations under [still_pending] and [not_escalated],
    each in one [append_event_if], every request of every execution has at most
    one decision or expiry, and at most one escalation. *)
Theorem one_outcome_per_request (ops : list Op) (id : ExecutionId) (n : string)
    (r : EventSequence) :
  let log := log_of (store (run_ops ops start_world).2) id in
  ops_hist_ok guarded_event ops start_world →
  (count (is_outcome n r) log ≤ 1)%nat ∧ (count (is_escalation n r) log ≤ 1)%nat.
Proof.
  intros log Hok. pose proof (run_ops_hist _ lapse_guarded _ _ Hok) as Hh.
  apply outcome_inv_bound, guarded_outcome_inv. unfold log.
  assert (∀ s s', hist_steps guarded_event s s' → logs_inv s →
    rtc guarded_append [] (log_of s id) → rtc guarded_append [] (log_of s' id)) as Hgen.
  { induction 1 as [|s s1 s2 Hs _ IH]; [done|]. intros Hl Hr. apply IH.
    - by eapply logs_inv_step.
    - by eapply guarded_log_step. }
  apply (Hgen _ _ Hh logs_inv_new). unfold log_of. simpl. by rewrite lookup_empty.
Qed.
End Properties.

(** The API's decision and the sweep's expiry keep their promise. *)
Lemma decision_guarded `{JsonText, ChronoOps} s ev n u d c pt pr dg r :
  event_kind ev = EventKind.ApprovalReceived n u d c pt pr dg (Some r) →
  op_hist_ok guarded_event s (OpAppendIf ev (λ now log, still_open log n r now)).
Proof.
  intros Hk now log q Hc Hseq. by eapply (append_decision log (set_sequence ev q)).
Qed.

Lemma expiry_guarded `{JsonText, ChronoOps} s ev n r t p :
  event_kind ev = EventKind.ApprovalExpired n r t p →
  op_hist_ok guarded_event s (OpAppendIf ev (λ _ log, still_pending log n r)).
Proof.
  intros Hk now log q Hc Hseq. by eapply (append_expiry log (set_sequence ev q)).
Qed.

(** ** Witnesses *)

Module HistorySample.
#[local] Existing Instances plain_uuid milli_chrono code_json plain_sha256.
#[local] Instance order_exec : IterOrder ExecutionId := list_order ExecutionId.
#[local] Instance order_item : IterOrder N := list_order N.
#[local] Instance order_tenant : IterOrder TenantId := list_order TenantId.
#[local] Instance order_pair : IterOrder (string * string) := list_order (string * string).

Definition run7 : WorkflowExecution := {|
  execution_id := mkExecutionId 7; workflow_id := "w"; workflow_version := "1.0.0";
  status := WorkflowStatus.Running; initial_input := Object []; current_state := Object [];
  started_at := 0; updated_at := 0; completed_at := None; session_type := None;
  parent_execution_id := None; segment_number := 0 |}.

(** A request, then a decision and an expiry racing for it. *)
Definition race : list Op :=
  [OpStart run7 (EventKind.WorkflowStarted "w" "1.0.0" (Object []) None)
     (EventKind.NodeScheduled "a" "tool") Sample.item;
   OpAppend (sample_event 0 (EventKind.ToolApprovalRequired "a" "t" "human" (Object [])));
   OpAppendIf (sample_event 0 (EventKind.ApprovalReceived "a" "ann" Approved None None None
     (Some "d") (Some 3))) (λ now log, still_open log "a" 3 now);
   OpAppendIf (sample_event 0 (EventKind.ApprovalExpired "a" 3 0 DEADLINE_PRINCIPAL))
     (λ _ log, still_pending log "a" 3)].

Lemma plain_guarded log ev :
  match event_kind ev with
  | EventKind.ApprovalReceived _ _ _ _ _ _ _ _ | EventKind.ApprovalExpired _ _ _ _
  | EventKind.ApprovalEscalated _ _ _ _ => False
  | _ => True
  end → guarded_event log ev.
Proof.
  intros Hk Hseq. apply append_other; [| |done]; intros n r;
    unfold is_outcome, is_escalation, resolves; by destruct (event_kind ev).
Qed.

Lemma one_outcome_witness :
  let log := log_of (store (run_ops race start_world).2) (mkExecutionId 7) in
  (count (is_outcome "a" 3) log ≤ 1)%nat ∧ count (is_outcome "a" 3) log = 1%nat.
Proof.
  intros log. split; [|vm_compute; reflexivity].
  refine (proj1 (one_outcome_per_request race (mkExecutionId 7) "a" 3 _)).
  split; [|split; [|split; [|split; [|exact I]]]].
  - split; [vm_compute; exact I|]. intros log0 ev [Hk|Hk]; apply plain_guarded; by rewrite Hk.
  - intros log0 q. by apply plain_guarded.
  - by eapply decision_guarded.
  - by eapply expiry_guarded.
Defined.

Lemma append_only_witness :
  log_of (store (run_ops (take 2 race) start_world).2) (mkExecutionId 7) `prefix_of`
  log_of (store (run_ops race start_world).2) (mkExecutionId 7).
Proof.
  refine (proj1 (logs_append_only (take 2 race) (drop 2 race) (mkExecutionId 7) _)).
  repeat split; done.
Defined.

(** A turn's commit that writes a snapshot, a later event, another snapshot of the
    state then, and an event after it. *)
Definition snapshotted : list Op :=
  race ++ [OpClaim "w1" ["tool"] None;
    OpCommit 5 1 (sample_event 0 (EventKind.NodeCompleted "a" Null (obj [("x", num 1)]) 3
      None None None None None None None None)) true;
    OpAppend (sample_event 0 (EventKind.NodeScheduled "b" "tool"))].
Definition snap_now : Snapshot :=
  match (from_materialized (E := StateBackendError) (mkExecutionId 7) (InMemory.materialized
    (store (run_ops snapshotted start_world).2) (mkExecutionId 7)) start_world).1 with
  | Ok snap => snap
  | Err _ => {| snap_id := 0; snap_execution_id := mkExecutionId 7; at_sequence := 0;
      snap_state := Null; snap_status := WorkflowStatus.Pending; snap_completed_nodes := ∅;
      snap_active_nodes := ∅; snap_last_sequence := 0; snap_created_at := 0 |}
  end.
Definition with_snapshots : list Op :=
  snapshotted ++ [OpWriteSnapshot snap_now;
    OpAppend (sample_event 0 (EventKind.NodeScheduled "c" "tool"))].

Lemma materialize_witness :
  let s := store (run_ops with_snapshots start_world).2 in
  (materialize (mkExecutionId 7) (run_ops with_snapshots start_world).2).1
    = Ok (apply_events_seeded (base_of s (mkExecutionId 7)) (log_of s (mkExecutionId 7)))
  ∧ at_sequence <$> snapshots_of s (mkExecutionId 7) = [5; 6]
  ∧ sequence <$> log_of s (mkExecutionId 7) = [1; 2; 3; 4; 5; 6; 7].
Proof.
  intros s. split; [|vm_compute; done].
  refine (materialize_is_replay with_snapshots (mkExecutionId 7) run7 _ _).
  - split; [split; [vm_compute; exact I|intros; exact I]|].
    do 6 (split; [cbn [op_hist_ok]; intros; exact I|]).
    split; [split; vm_compute; reflexivity|]. split; [cbn [op_hist_ok]; intros; exact I|exact I].
  - vm_compute. reflexivity.
Defined.
End HistorySample.
