(* ===== verification/MemoryLaws.v ===== *)
(** * What each operation of the in-memory backend does

    The laws clients rely on, the functional behaviour of the operations that
    settle work and end runs, and the tables that are written once. *)

From S2P Require Import Prelude.
From S2P Require Import Json.
From S2P Require Import RustStr.
From S2P Require Import Core.
From S2P Require Import Condition.
From S2P Require Import Event.
From S2P Require Import Materializer.
From S2P Require Import Hashing.
From S2P Require Import Approvals.
From S2P Require Import Backend.
From S2P Require Import Memory.
From S2P Require Import Lease.

(** ** Tables written once *)

Section KeepsOps.
Context `{!UuidOps, !ChronoOps, !JsonText, !Sha256Ops, !IterOrder ExecutionId, !IterOrder N,
  !IterOrder TenantId, !IterOrder (string * string)}.

(** An artifact is stored under the hash of its content. *)
Definition artifacts_addressed (s : InMemoryBackend) : Prop :=
  ∀ k c m, artifacts s !! k = Some (c, m) → k = ("default", sha256_hex c).

(** A workflow version, a recorded tool effect and a stored artifact stay what
    they are, and artifacts stay under their hashes. *)
Definition keeps (s s' : InMemoryBackend) : Prop :=
  (∀ k v, workflows s !! k = Some v → workflows s' !! k = Some v)
  ∧ (∀ k v, tool_effects s !! k = Some v → tool_effects s' !! k = Some v)
  ∧ (∀ k v, artifacts s !! k = Some v → artifacts s' !! k = Some v)
  ∧ (artifacts_addressed s → artifacts_addressed s').

#[export] Instance keeps_preorder : PreOrder keeps.
Proof.
  split; [by repeat split|]. intros s1 s2 s3 (K1 & K2 & K3 & K4) (L1 & L2 & L3 & L4).
  repeat split; eauto.
Qed.

Ltac keeps_tac := respects_tac ltac:(first [reflexivity | by repeat split]).

Lemma keeps_store_workflow def : respects keeps (InMemory.store_workflow def).
Proof.
  apply respects_lookup. intros w. cbv zeta.
  destruct (workflows (store w) !! _) as [d|] eqn:Hd.
  - by case_match.
  - cbn. split_and!; [|done..]. intros k v Hk. cbn. rewrite lookup_insert_ne; [done|congruence].
Qed.

Lemma keeps_put_artifact c m : respects keeps (InMemory.put_artifact c m).
Proof.
  unfold InMemory.put_artifact. cbv zeta. apply respects_bind; [apply _| |intros; keeps_tac].
  apply respects_modify. intros s. destruct (artifacts s !! _) eqn:Ha; [reflexivity|].
  split_and!; [done|done| |].
  - intros k v Hk. cbn. rewrite lookup_insert_ne; [done|congruence].
  - intros Hh k c' m' Hk. cbn in Hk.
    apply lookup_insert_Some in Hk as [[<- [= <- <-]]|[_ Hk]]; [done|by apply (Hh k c' m')].
Qed.

Lemma keeps_commit_turn id f ev b : respects keeps (InMemory.commit_turn id f ev b).
Proof.
  unfold InMemory.commit_turn, InMemory.push_event, from_materialized. case_match; [keeps_tac|].
  apply respects_bind; [apply _|keeps_tac|]. intros [i|]; [|keeps_tac]. case_decide; [|keeps_tac].
  cbv zeta. repeat (apply respects_bind; [apply _| |intros ?]); try keeps_tac.
  apply respects_modify. intros st.
  destruct (tool_effects st !! _) eqn:Ht; [reflexivity|].
  split_and!; [done| |done..]. intros k' v' Hk. cbn. rewrite lookup_insert_ne; [done|congruence].
Qed.

Lemma keeps_sweep : respects keeps InMemory.sweep_lapsed.
Proof.
  unfold InMemory.sweep_lapsed. intros w. rewrite bind_now, bind_gets.
  assert (keeps (store w) (InMemory.lapse_items (clock w) (store w)).2) as Hf.
  { unfold InMemory.lapse_items. apply (fold_respects keeps).
    intros [expired withdrawn] s [k i]. unfold InMemory.lapse_step.
    repeat case_match; by repeat split. }
  destruct (InMemory.lapse_items _ _) as [[expired withdrawn] s'].
  rewrite bind_modify. apply (respects_at keeps); [exact Hf|].
  apply (respects_bind keeps (for_each withdrawn (λ id, modify (drop_item id)))); [keeps_tac|].
  intros _. unfold InMemory.record_lapsed, InMemory.latest_sequence, InMemory.append_event,
    InMemory.push_event, Event_new. keeps_tac.
Qed.

Lemma keeps_reclaim : respects keeps InMemory.reclaim_expired_leases.
Proof.
  unfold InMemory.reclaim_expired_leases. intros w. rewrite bind_now, bind_gets.
  assert (keeps (store w) (foldl (InMemory.reclaim_step (clock w)) ([], [], store w)
    (iter_map (work_items (store w)))).2) as Hf.
  { apply (fold_respects keeps). intros [retry dead] s [k i]. unfold InMemory.reclaim_step.
    repeat case_match; by repeat split. }
  destruct (foldl _ _ _) as [[retry dead] s'].
  rewrite bind_modify. apply (respects_at keeps); [exact Hf|]. keeps_tac.
Qed.

Lemma keeps_claim worker qs secs :
  respects keeps (InMemory.claim_work_item_with_lease worker qs secs).
Proof.
  unfold InMemory.claim_work_item_with_lease.
  apply respects_bind; [apply _|apply keeps_sweep|]. intros _ w.
  rewrite bind_now, bind_gets. destruct (List.find _ _) as [[k i]|]; by repeat split.
Qed.

Lemma keeps_commit_unless id f ev b :
  respects keeps (InMemory.commit_turn_unless_terminal id f ev b).
Proof.
  unfold InMemory.commit_turn_unless_terminal, InMemory.withdraw_work_item_fenced,
    InMemory.remove_if_held.
  keeps_tac; apply keeps_commit_turn.
Qed.

Lemma keeps_run_op op w : keeps (store w) (store (run_op op w).2).
Proof.
  destruct op; cbn [run_op fst snd];
    try match goal with |- keeps (store ?w) (store (?m ?w).2) =>
      first [ apply keeps_store_workflow | apply keeps_put_artifact | apply keeps_commit_turn
            | apply keeps_reclaim ] end;
    unfold InMemory.update_execution_status, InMemory.finish_execution, InMemory.append_event_if,
      InMemory.update_execution_current_state, InMemory.patch_append_array,
      InMemory.append_event, InMemory.create_segment_atomic, InMemory.start_execution_atomic,
      InMemory.create_run, InMemory.push_event, Event_new, InMemory.reserve_tool_effect,
      InMemory.release_tool_reservation, InMemory.renew_lease, InMemory.heartbeat_lease,
      InMemory.reattach, InMemory.complete_work_item_fenced, InMemory.withdraw_work_item_fenced,
      InMemory.remove_if_held, InMemory.fail_work_item, InMemory.fail_work_item_fenced,
      InMemory.park_work_item, InMemory.finalize_rollover_fenced, InMemory.move_to_dead_letter,
      InMemory.apply_approval_projection_batch;
    try (by repeat split);
    try match goal with |- keeps (store ?w) (store (?m ?w).2) =>
      cut (respects keeps m); [intros Hq; apply Hq|by keeps_tac] end.
  - apply keeps_claim.
  - apply keeps_commit_unless.
Qed.

Lemma keeps_run_ops ops w : keeps (store w) (store (run_ops ops w).2).
Proof.
  revert w; induction ops as [|op ops IH]; intros w; [reflexivity|].
  simpl. etransitivity; [apply keeps_run_op|apply IH].
Qed.
End KeepsOps.

(** ** The client laws hold *)

Section Laws.
Context `{!UuidOps, !ChronoOps, !JsonText, !Sha256Ops, !IterOrder ExecutionId, !IterOrder N,
  !IterOrder TenantId, !IterOrder (string * string)}.

Lemma log_of_push ev s id :
  log_of (push ev s) id =
    if decide (id = event_execution_id ev)
    then log_of s id ++ [set_sequence ev (next_sequence s)] else log_of s id.
Proof.
  unfold push, log_of. cbn. case_decide as Hid.
  - subst id. by rewrite lookup_insert_eq.
  - by rewrite lookup_insert_ne.
Qed.

(** What [append_event_if] does, on each branch. *)
Lemma append_event_if_eq ev cond w :
  let id := event_execution_id ev in
  let s1 := set_events (<[id := log_of (store w) id]> (events (store w))) (store w) in
  InMemory.append_event_if ev cond w =
  match executions (store w) !! id with
  | None => (Err (NotFound (ExecutionId_display id)), w)
  | Some e =>
      if WorkflowStatus.is_terminal (status e)
      then (Ok (AppendExecutionTerminal (status e)), w)
      else if cond (clock w) (log_of s1 id)
      then (Ok (Appended (next_sequence (store w))), World (push ev s1) (clock w) (draws w))
      else (Ok Refused, World s1 (clock w) (draws w))
  end.
Proof.
  intros id s1. unfold InMemory.append_event_if. rewrite bind_gets. fold id.
  destruct (executions (store w) !! id) as [e|]; [|done].
  destruct (WorkflowStatus.is_terminal _); [done|].
  rewrite bind_modify, bind_gets, bind_now. cbn [store clock]. fold s1.
  by destruct (cond (clock w) (log_of s1 id)).
Qed.

Lemma log_of_default s id id' :
  log_of (set_events (<[id := log_of s id]> (events s)) s) id' = log_of s id'.
Proof.
  unfold log_of at 1. cbn. destruct (decide (id' = id)) as [->|].
  - by rewrite lookup_insert_eq.
  - by rewrite lookup_insert_ne.
Qed.

Lemma create_run_eq e oseed k1 k2 item w :
  ∃ ev1 ev2, event_kind ev1 = k1 ∧ event_kind ev2 = k2
    ∧ event_execution_id ev1 = execution_id e ∧ event_execution_id ev2 = execution_id e
    ∧ (InMemory.create_run e oseed k1 k2 item w).1 = Ok tt
    ∧ store (InMemory.create_run e oseed k1 k2 item w).2 =
      put_item (wi_id item) item (put_execution (execution_id e) e (push ev2 (push ev1
        match oseed with
        | Some snap => push_snapshot (execution_id e) snap (store w)
        | None => store w
        end))).
Proof.
  exists {| event_id := uuid_v4 (draws w); event_execution_id := execution_id e; sequence := 0;
            event_kind := k1; created_at := clock w |},
         {| event_id := uuid_v4 (N.succ (draws w)); event_execution_id := execution_id e;
            sequence := 0; event_kind := k2; created_at := clock w |}.
  split_and!; [done..| |]; by destruct oseed.
Qed.

(** Reclaiming leases appends nothing. *)
Definition same_events (s s' : InMemoryBackend) : Prop := ∀ id, log_of s' id = log_of s id.
#[local] Instance same_events_preorder : PreOrder same_events.
Proof. split; [done|]. intros s1 s2 s3 E1 E2 id. by rewrite E2, E1. Qed.

Lemma logs_reclaim : respects same_events InMemory.reclaim_expired_leases.
Proof.
  unfold InMemory.reclaim_expired_leases. intros w. rewrite bind_now, bind_gets.
  assert (same_events (store w) (foldl (InMemory.reclaim_step (clock w)) ([], [], store w)
    (iter_map (work_items (store w)))).2) as Hf.
  { apply (fold_respects same_events). intros [retry dead] s [k i]. unfold InMemory.reclaim_step.
    by repeat case_match. }
  destruct (foldl _ _ _) as [[retry dead] s'].
  rewrite bind_modify. apply (respects_at same_events); [exact Hf|]. respects_tac ltac:(done).
Qed.

#[export] Instance InMemory_laws : StateBackendLaws InMemoryBackend.
Proof.
  constructor.
  - done.
  - done.
  - done.
  - done.
  - done.
  - done.
  - intros w r w' Hrun id. simpl in *.
    pose proof (logs_reclaim w id) as Hl. by rewrite Hrun in Hl.
  - done.
  - done.
  - intros ev w r w' Hrun. simpl in *. unfold InMemory.append_event, InMemory.push_event in Hrun.
    rewrite bind_gets, bind_modify in Hrun. injection Hrun as <- <-. split; [done|].
    intros id. apply log_of_push.
  - intros item w r w' Hrun. simpl in *. unfold InMemory.enqueue_work_item in Hrun.
    rewrite bind_modify in Hrun. injection Hrun as <- <-. split_and!; [done|done|].
    intros i. cbn. case_bool_decide as Hi; [subst i; by rewrite lookup_insert_eq|].
    by rewrite lookup_insert_ne.
  - intros ev st w r w' Hrun. simpl in *. unfold InMemory.finish_execution in Hrun.
    destruct (WorkflowStatus.is_terminal st); simpl in Hrun; [|injection Hrun as <- <-; by split_and!].
    rewrite bind_gets in Hrun.
    destruct (executions (store w) !! _) as [e|] eqn:He; [|injection Hrun as <- <-; by split_and!].
    destruct (WorkflowStatus.is_terminal (status e)) eqn:Ht; [by injection Hrun as <- <-|].
    rewrite bind_now, bind_modify in Hrun. unfold InMemory.push_event in Hrun.
    rewrite bind_assoc, bind_gets, bind_assoc, bind_modify in Hrun. injection Hrun as <- <-.
    split_and!; [done| | | |by exists e].
    + intros id. cbn [store]. by rewrite log_of_push.
    + intros id Hne. cbn. by rewrite lookup_insert_ne.
    + cbn. by rewrite lookup_insert_eq.
  - intros ev cond w r w' Hrun. simpl in *. rewrite append_event_if_eq in Hrun.
    split; [destruct (executions (store w) !! _) as [e|]; repeat case_match; by simplify_eq/=|].
    destruct (executions (store w) !! _) as [e|]; simplify_eq/=; [|done].
    destruct (WorkflowStatus.is_terminal _); simplify_eq/=; [done|].
    rewrite log_of_default in Hrun.
    destruct (cond _ _) eqn:Hc; simplify_eq/=.
    + split; [done|]. by rewrite log_of_push, decide_True, log_of_default.
    + intros id. apply log_of_default.
  - intros ev cond w r w' id Hrun Hne. simpl in *. rewrite append_event_if_eq in Hrun.
    destruct (executions (store w) !! _) as [e|]; simplify_eq/=; [|done].
    destruct (WorkflowStatus.is_terminal _); simplify_eq/=; [done|].
    destruct (cond _ _); simplify_eq/=; [|apply log_of_default].
    by rewrite log_of_push, decide_False, log_of_default.
  - intros ev cond w seq w' Hrun. simpl in *. rewrite append_event_if_eq in Hrun.
    destruct (executions (store w) !! _) as [e|] eqn:He; rewrite ?He in Hrun |- *; [|done].
    exists e. split; [done|]. by destruct (WorkflowStatus.is_terminal _).
  - intros id st w r w' Hrun. simpl in *. unfold InMemory.update_execution_status in Hrun.
    rewrite bind_gets in Hrun.
    destruct (executions (store w) !! id) as [e|] eqn:He; [|injection Hrun as <- <-; split_and!; done].
    rewrite bind_now in Hrun. injection Hrun as <- <-. split_and!; [done|done| |].
    + intros i Hne. cbn. by rewrite lookup_insert_ne.
    + cbn. by rewrite lookup_insert_eq.
  - intros exec snap k1 k2 item w r w' Hrun. simpl in *.
    unfold InMemory.create_segment_atomic in Hrun.
    destruct (create_run_eq exec (Some snap) k1 k2 item w)
      as (ev1 & ev2 & Hk1 & Hk2 & Hi1 & Hi2 & Hok & Hst).
    rewrite Hrun in Hok, Hst. simpl in Hok, Hst. subst r. rewrite Hst. split_and!.
    + done.
    + intros id. cbn. case_decide as Hid; [subst id; by rewrite lookup_insert_eq|].
      by rewrite lookup_insert_ne.
    + intros i. cbn. case_decide as Hid; [subst i; by rewrite lookup_insert_eq|].
      by rewrite lookup_insert_ne.
    + intros id. unfold view_snapshots, snapshots_of. cbn. unfold snapshots_of.
      case_decide as Hid; [subst id; by rewrite lookup_insert_eq|].
      by rewrite lookup_insert_ne.
    + intros id Hne. change (log_of (push ev2 (push ev1
        (push_snapshot (execution_id exec) snap (store w)))) id = log_of (store w) id).
      by rewrite !log_of_push, Hi1, Hi2, !decide_False.
    + exists (set_sequence ev1 (next_sequence (store w))),
        (set_sequence ev2 (next_sequence (store w) + 1)).
      split_and!; [|exact Hk1|exact Hk2].
      change (log_of (push ev2 (push ev1 (push_snapshot (execution_id exec) snap (store w))))
        (execution_id exec) = log_of (store w) (execution_id exec) ++
          [set_sequence ev1 (next_sequence (store w));
           set_sequence ev2 (next_sequence (store w) + 1)]).
      rewrite !log_of_push, Hi1, Hi2, !decide_True by done. by rewrite <- app_assoc.
  - intros ev w. simpl. lia.
  - intros item w. simpl. lia.
Qed.
Lemma settle_keeps_record fence id : keeps_record (InMemory.remove_if_held id fence).
Proof.
  intros w. unfold InMemory.remove_if_held. rewrite bind_gets.
  destruct (work_items (store w) !! id) as [item|]; [destruct (InMemory.holds fence item)|]; by split.
Qed.

Lemma commit_turn_run id fence ev snap w r w' :
  InMemory.commit_turn id fence ev snap w = (r, w') →
  appended_to ev (match r with Ok seq => Some seq | Err _ => None end) (store w) (store w')
  ∧ executions (store w') = executions (store w)
  ∧ (∀ i, i ≠ id → work_items (store w') !! i = work_items (store w) !! i)
  ∧ match r with
    | Ok _ => (∃ item, work_items (store w) !! id = Some item ∧ lease_fence item = fence)
              ∧ work_items (store w') !! id = None
    | Err _ => True
    end.
Proof.
  unfold InMemory.commit_turn.
  destruct (negb (InMemory.is_terminal_event (event_kind ev))); [intros [= <- <-]; by split_and!|].
  rewrite bind_gets.
  destruct (work_items (store w) !! id) as [item|] eqn:Hitem; [|intros [= <- <-]; by split_and!].
  case_decide as Hf; [|intros [= <- <-]; by split_and!].
  unfold InMemory.push_event. rewrite bind_modify, bind_assoc, bind_gets, bind_assoc, bind_modify.
  intros Hrun.
  assert (r = Ok (next_sequence (store w))
    ∧ (∀ i, log_of (store w') i = log_of (push ev (drop_item id (store w))) i)
    ∧ executions (store w') = executions (store w)
    ∧ work_items (store w') = delete id (work_items (store w))) as (-> & Hlog & Hex & Hit).
  { revert Hrun. rewrite bind_mret. cbv beta zeta.
    destruct (InMemory.idem_effect (event_kind ev)) as [[key res]|];
      rewrite ?bind_modify, ?bind_mret;
      (destruct snap; [rewrite bind_assoc, bind_gets, bind_assoc|rewrite bind_mret]);
      intros [= <- <-]; cbn [store]; try (destruct (tool_effects _ !! key)); split_and!; done. }
  split_and!; [| done | |by exists item|by rewrite Hit, lookup_delete_eq].
  - intros i. unfold view_log. simpl. rewrite Hlog, log_of_push. done.
  - intros i Hne. by rewrite Hit, lookup_delete_ne.
Qed.

(** What a committed turn leaves in the effect table: the first result under its key. *)
Lemma commit_turn_effect id fence ev snap w seq w' k v :
  InMemory.commit_turn id fence ev snap w = (Ok seq, w') →
  InMemory.idem_effect (event_kind ev) = Some (k, v) →
  tool_effects (store w') !! k = Some (default v (tool_effects (store w) !! k)).
Proof.
  unfold InMemory.commit_turn.
  destruct (negb (InMemory.is_terminal_event (event_kind ev))); [done|].
  rewrite bind_gets. destruct (work_items (store w) !! id) as [item|]; [|done].
  case_decide; [|done]. unfold InMemory.push_event.
  rewrite bind_modify, bind_assoc, bind_gets, bind_assoc, bind_modify, bind_mret.
  cbv beta zeta. intros Hrun Hi. rewrite Hi, bind_modify in Hrun.
  assert (tool_effects (store w') =
    match tool_effects (store w) !! k with
    | Some _ => tool_effects (store w) | None => <[k := v]> (tool_effects (store w)) end) as ->.
  { destruct snap; [rewrite bind_assoc, bind_gets, bind_assoc in Hrun|rewrite bind_mret in Hrun];
      injection Hrun as <- <-; cbn; by destruct (tool_effects (store w) !! k). }
  destruct (tool_effects (store w) !! k) as [v0|] eqn:Hk; [done|by rewrite lookup_insert_eq].
Qed.

Lemma committed_run id fence ev snap w r w' (live : Prop) :
  (InMemory.commit_turn id fence ev snap ≫= λ seq, mret (Committed seq)) w = (r, w') → live →
  appended_to ev (match r with Ok (Committed seq) => Some seq | _ => None end) (store w) (store w')
  ∧ (∀ i, executions (store w') !! i = executions (store w) !! i)
  ∧ (∀ i, i ≠ id → work_items (store w') !! i = work_items (store w) !! i)
  ∧ match r with
    | Ok (Committed _) =>
        (∃ item, work_items (store w) !! id = Some item ∧ lease_fence item = fence)
        ∧ work_items (store w') !! id = None ∧ live
    | _ => True
    end.
Proof.
  destruct (InMemory.commit_turn id fence ev snap w) as [rc wc] eqn:Hc. unfold mbind, eff_bind.
  rewrite Hc. intros Hrun Hlive. apply commit_turn_run in Hc as (Hl & He & Hi & Hr).
  destruct rc as [seq|e]; injection Hrun as <- <-; split_and!; try done; try (intros i; by rewrite He);
    apply Hr.
Qed.

#[export] Instance InMemory_item_laws : WorkItemLaws InMemoryBackend.
Proof.
  split.
  - done.
  - intros id w. by split.
  - intros id fence. apply settle_keeps_record.
  - intros id fence. apply settle_keeps_record.
  - intros id error w. simpl. unfold InMemory.fail_work_item. rewrite bind_gets.
    destruct (work_items (store w) !! id); by split.
  - intros id fence error w. simpl. unfold InMemory.fail_work_item_fenced. rewrite bind_gets.
    destruct (work_items (store w) !! id) as [item|]; [|by split].
    destruct (_ || _); [by split|]. rewrite !bind_modify. case_decide; by split.
  - intros id cs w. simpl. unfold InMemory.update_execution_current_state. rewrite bind_gets.
    destruct (executions (store w) !! id); by split.
  - intros id fence ev snap w r w' Hrun. simpl in *. unfold InMemory.commit_turn_unless_terminal in Hrun.
    rewrite bind_gets in Hrun.
    destruct (executions (store w) !! event_execution_id ev) as [e|] eqn:He;
      [destruct (WorkflowStatus.is_terminal (status e)) eqn:Ht|].
    + unfold InMemory.withdraw_work_item_fenced, InMemory.remove_if_held in Hrun.
      rewrite bind_assoc, bind_gets in Hrun.
      destruct (work_items (store w) !! id) as [item|];
        [destruct (InMemory.holds fence item)|]; injection Hrun as <- <-; split_and!; try done.
      intros i Hne. cbn. by rewrite lookup_delete_ne.
    + eapply committed_run; [exact Hrun|by intros ? [= <-]].
    + eapply committed_run; [exact Hrun|done].
  - intros exec k1 k2 item w r w' Hrun. simpl in *. unfold InMemory.start_execution_atomic in Hrun.
    destruct (create_run_eq exec None k1 k2 item w) as (ev1 & ev2 & Hk1 & Hk2 & Hi1 & Hi2 & Hok & Hst).
    rewrite Hrun in Hok, Hst. simpl in Hok, Hst. subst r. rewrite Hst. split_and!.
    + done.
    + intros id. cbn. case_decide as Hid; [subst id; by rewrite lookup_insert_eq|].
      by rewrite lookup_insert_ne.
    + intros i. cbn. case_decide as Hid; [subst i; by rewrite lookup_insert_eq|].
      by rewrite lookup_insert_ne.
    + intros id Hne. change (log_of (push ev2 (push ev1 (store w))) id = log_of (store w) id).
      by rewrite !log_of_push, Hi1, Hi2, !decide_False.
    + exists (set_sequence ev1 (next_sequence (store w))),
        (set_sequence ev2 (next_sequence (store w) + 1)). split_and!; [|exact Hk1|exact Hk2].
      change (log_of (push ev2 (push ev1 (store w))) (execution_id exec) = log_of (store w)
        (execution_id exec) ++ [set_sequence ev1 (next_sequence (store w));
           set_sequence ev2 (next_sequence (store w) + 1)]).
      rewrite !log_of_push, Hi1, Hi2, !decide_True by done. by rewrite <- app_assoc.
Qed.

#[export] Instance InMemory_worker_laws : WorkerLaws InMemoryBackend.
Proof.
  split.
  - done.
  - done.
  - intros c m w. change (put_artifact c m) with (InMemory.put_artifact c m). unfold InMemory.put_artifact. cbv zeta. rewrite bind_modify, bind_gets. cbn [store].
    destruct (artifacts (store w) !! ("default", sha256_hex c)); by split.
  - intros c m w i. change (put_artifact c m) with (InMemory.put_artifact c m). unfold InMemory.put_artifact. cbv zeta. rewrite bind_modify, bind_gets. cbn [store].
    by destruct (artifacts (store w) !! ("default", sha256_hex c)).
  - intros key owner fence w. simpl. unfold InMemory.release_tool_reservation, modify. cbn [store snd].
    destruct (tool_reservations (store w) !! key) as [[[h f] x]|]; [case_decide|]; by split.
  - intros id fence after next w r w' Hrun. simpl in *. unfold InMemory.park_work_item in Hrun.
    rewrite bind_gets in Hrun.
    destruct (work_items (store w) !! id) as [item|]; [case_decide as Hf|]; injection Hrun as <- <-;
      split; try done. intros _. exists item. split; [done|]. by destruct (decide (lease_fence item = fence)).
  - intros id fence ev snap w r w' Hrun. simpl in *. apply commit_turn_run in Hrun as (Hl & He & Hi & Hr).
    split_and!; [done|by rewrite He|done|by destruct r].
Qed.
#[export] Instance InMemory_total : BackendTotal InMemoryBackend.
Proof.
  split; [done|done|]. intros ev st w e Hst He Ht. simpl in *.
  unfold InMemory.finish_execution. rewrite Hst. simpl. rewrite bind_gets, He, Ht. eauto.
Qed.
End Laws.

(** ** Calls take no time *)

Section Timeless.
Abbreviation M A := (eff InMemoryBackend StateBackendError A).

Definition timeless {A} (m : M A) : Prop := ∀ w, clock (m w).2 = clock w.

Lemma timeless_bind {A B} (m : M A) (k : A → M B) :
  timeless m → (∀ a, timeless (k a)) → timeless (m ≫= k).
Proof.
  intros Hm Hk w. unfold mbind, eff_bind. specialize (Hm w).
  destruct (m w) as [[a|e] w']; simpl in *; [|done]. by rewrite Hk.
Qed.
Lemma timeless_recover {A} (m : M A) (h : StateBackendError → M A) :
  timeless m → (∀ e, timeless (h e)) → timeless (recover m h).
Proof.
  intros Hm Hh w. unfold recover. specialize (Hm w).
  destruct (m w) as [[a|e] w']; simpl in *; [done|]. by rewrite Hh.
Qed.
Lemma timeless_for_each {A} (l : list A) (f : A → M unit) :
  (∀ x, timeless (f x)) → timeless (for_each l f).
Proof. intros Hf. induction l; simpl; [by intros w|by apply timeless_bind]. Qed.
End Timeless.

Ltac timeless_tac :=
  repeat first
    [ by intros ?
    | apply timeless_bind; [|intros ?]
    | apply timeless_recover; [|intros ?]
    | apply timeless_for_each; intros ?
    | progress (repeat case_match) ].

(** ** Reservations *)

(** [owner] holds [key] under [f] until [exp]. *)
Definition reserved (s : InMemoryBackend) (key owner : string) (f exp : Z) : Prop :=
  tool_reservations s !! key = Some (owner, f, exp).

(** The tables beside the runs: reservations, projections, checkpoints. *)
Definition same_sides (s s' : InMemoryBackend) : Prop :=
  tool_reservations s' = tool_reservations s ∧ proj_approvals s' = proj_approvals s
  ∧ projector_checkpoints s' = projector_checkpoints s.
#[export] Instance same_sides_preorder : PreOrder same_sides.
Proof.
  split; [done|]. intros s1 s2 s3 (? & ? & ?) (? & ? & ?). split_and!; congruence.
Qed.

(** The operations that write them. *)
Definition side_op (op : Op) : bool :=
  match op with
  | OpReserve _ _ _ _ _ _ | OpRelease _ _ _ | OpProject _ _ _ | OpProjectBatch _ _ _ _
  | OpSetCheckpoint _ _ _ => true
  | _ => false
  end.

(** The operation neither frees the reservation nor renews it for its owner. *)
Definition leaves_reservation (key owner : string) (f : Z) (op : Op) : Prop :=
  match op with
  | OpRelease k o f' => ¬ (k = key ∧ o = owner ∧ f' = f)
  | OpReserve k _ _ o _ _ => ¬ (k = key ∧ o = owner)
  | _ => True
  end.

Section Reservations.
Context `{!UuidOps, !ChronoOps, !JsonText, !Sha256Ops, !IterOrder ExecutionId, !IterOrder N,
  !IterOrder TenantId, !IterOrder (string * string)}.

Ltac res_tac := respects_tac ltac:(by split_and!).

Lemma res_sweep : respects same_sides InMemory.sweep_lapsed.
Proof.
  unfold InMemory.sweep_lapsed. intros w. rewrite bind_now, bind_gets.
  assert (same_sides (store w) (InMemory.lapse_items (clock w) (store w)).2) as Hf.
  { unfold InMemory.lapse_items. apply (fold_respects same_sides).
    intros [expired withdrawn] s [k i]. unfold InMemory.lapse_step. by repeat case_match. }
  destruct (InMemory.lapse_items _ _) as [[expired withdrawn] s'].
  rewrite bind_modify. apply (respects_at same_sides); [exact Hf|].
  apply (respects_bind same_sides (for_each withdrawn (λ id, modify (drop_item id))));
    [res_tac|].
  intros _. unfold InMemory.record_lapsed, InMemory.latest_sequence, InMemory.append_event,
    InMemory.push_event, Event_new. res_tac.
Qed.

Lemma res_claim worker qs secs :
  respects same_sides (InMemory.claim_work_item_with_lease worker qs secs).
Proof.
  unfold InMemory.claim_work_item_with_lease.
  apply respects_bind; [apply _|apply res_sweep|]. intros _ w.
  rewrite bind_now, bind_gets. by destruct (List.find _ _) as [[k i]|].
Qed.

Lemma res_reclaim : respects same_sides InMemory.reclaim_expired_leases.
Proof.
  unfold InMemory.reclaim_expired_leases. intros w. rewrite bind_now, bind_gets.
  assert (same_sides (store w) (foldl (InMemory.reclaim_step (clock w)) ([], [], store w)
    (iter_map (work_items (store w)))).2) as Hf.
  { apply (fold_respects same_sides). intros [retry dead] s [k i].
    unfold InMemory.reclaim_step. by repeat case_match. }
  destruct (foldl _ _ _) as [[retry dead] s'].
  rewrite bind_modify. apply (respects_at same_sides); [exact Hf|]. res_tac.
Qed.

Lemma res_run_op op w :
  side_op op = false →
  same_sides (store w) (store (run_op op w).2).
Proof.
  intros Hop. destruct op; try done; cbn [run_op fst snd];
    try match goal with |- same_sides (store ?w) (store (?m ?w).2) =>
      first [ apply res_claim | apply res_reclaim ] end;
    unfold InMemory.store_workflow, InMemory.put_artifact,
      InMemory.update_execution_status, InMemory.finish_execution, InMemory.append_event_if,
      InMemory.update_execution_current_state, InMemory.patch_append_array,
      InMemory.append_event, InMemory.create_segment_atomic, InMemory.start_execution_atomic,
      InMemory.create_run, InMemory.renew_lease, InMemory.heartbeat_lease,
      InMemory.reattach, InMemory.complete_work_item_fenced,
      InMemory.commit_turn_unless_terminal, InMemory.withdraw_work_item_fenced,
      InMemory.remove_if_held, InMemory.fail_work_item, InMemory.fail_work_item_fenced,
      InMemory.commit_turn, InMemory.push_event, from_materialized, Event_new,
      InMemory.park_work_item, InMemory.finalize_rollover_fenced, InMemory.move_to_dead_letter,
      InMemory.apply_approval_projection_batch;
    try reflexivity;
    try match goal with |- same_sides (store ?w) (store (?m ?w).2) =>
      cut (respects same_sides m); [intros Hq; apply Hq|by res_tac] end.
Qed.

Lemma clock_run_op op w : op_ok (store w) op → clock w ≤ clock (run_op op w).2.
Proof.
  intros Hok. destruct op; cbn [run_op fst snd];
    unfold InMemory.store_workflow, InMemory.put_artifact,
      InMemory.update_execution_status, InMemory.finish_execution, InMemory.append_event_if,
      InMemory.update_execution_current_state, InMemory.patch_append_array,
      InMemory.append_event, InMemory.create_segment_atomic, InMemory.start_execution_atomic,
      InMemory.create_run, InMemory.renew_lease, InMemory.heartbeat_lease,
      InMemory.reattach, InMemory.complete_work_item_fenced,
      InMemory.commit_turn_unless_terminal, InMemory.withdraw_work_item_fenced,
      InMemory.remove_if_held, InMemory.fail_work_item, InMemory.fail_work_item_fenced,
      InMemory.commit_turn, InMemory.push_event, from_materialized, Event_new,
      InMemory.park_work_item, InMemory.finalize_rollover_fenced, InMemory.move_to_dead_letter,
      InMemory.apply_approval_projection_batch, InMemory.reserve_tool_effect,
      InMemory.reclaim_expired_leases, InMemory.claim_work_item_with_lease,
      InMemory.sweep_lapsed, InMemory.record_lapsed;
    try (simpl in Hok; cbn; lia);
    match goal with |- _ ≤ clock (?m ?w).2 =>
      cut (timeless m); [intros Hq; rewrite Hq; lia|by timeless_tac] end.
Qed.

(** While the reservation is live it stays, through every operation that does
    not free or renew it. *)
Lemma reserved_run_op op w key owner f exp :
  op_ok (store w) op → leaves_reservation key owner f op →
  reserved (store w) key owner f exp → clock (run_op op w).2 < exp →
  reserved (store (run_op op w).2) key owner f exp.
Proof.
  intros Hok Hl Hr Hc. pose proof (clock_run_op op w Hok) as Hmono. unfold reserved in *.
  destruct (side_op op) eqn:Hop.
  2:{ destruct (res_run_op op w Hop) as (Hres & _). by rewrite Hres. }
  destruct op; try done; simpl in Hl; cbn [run_op fst snd] in *.
  - unfold InMemory.reserve_tool_effect in *. rewrite bind_now in *. cbv zeta in *.
    rewrite bind_gets in *. destruct (decide (key0 = key)) as [->|Hne].
    + rewrite Hr. case_decide as Hd; [|done]. destruct Hd as [->|]; [|cbn in *; lia].
      destruct Hl. done.
    + destruct (tool_reservations (store w) !! key0) as [[[h g] x]|]; [case_decide|];
        try done; rewrite bind_modify; cbn; by rewrite lookup_insert_ne.
  - cbn. destruct (tool_reservations (store w) !! key0) as [[[h g] x]|] eqn:Hk; [|done].
    case_decide as Hd; [|done]. destruct Hd as [-> ->]. cbn.
    destruct (decide (key0 = key)) as [->|Hne]; [|by rewrite lookup_delete_ne].
    rewrite Hr in Hk. injection Hk as <- <- <-. by destruct Hl.
  - unfold InMemory.apply_approval_projection_batch.
    change (tool_reservations (store w) !! key = Some (owner, f, exp)) in Hr. clear -Hr.
    revert w Hr. induction rows as [|r rows IH]; intros w Hr; [done|]. cbn [for_each].
    rewrite bind_assoc, bind_modify. by apply IH.
Qed.

Lemma reserved_run_ops ops w key owner f exp :
  ops_ok ops w → Forall (leaves_reservation key owner f) ops →
  reserved (store w) key owner f exp → clock (run_ops ops w).2 < exp →
  reserved (store (run_ops ops w).2) key owner f exp.
Proof.
  revert w; induction ops as [|op ops IH]; intros w Hok Hl Hr Hc; [done|].
  destruct Hok as [Hop Hok]. apply Forall_cons in Hl as [Hlo Hl]. simpl in *.
  assert (∀ w, ops_ok ops w → clock w ≤ clock (run_ops ops w).2) as Hmono.
  { clear. induction ops as [|op ops IH]; intros w; simpl; [lia|]. intros [Ho Hok].
    specialize (IH _ Hok). pose proof (clock_run_op op w Ho). lia. }
  specialize (Hmono _ Hok). apply IH; [done|done| |done].
  apply reserved_run_op; try done. lia.
Qed.
End Reservations.

(** ** Properties *)

Section Properties.
Context `{!UuidOps, !ChronoOps, !JsonText, !Sha256Ops, !IterOrder ExecutionId, !IterOrder N,
  !IterOrder TenantId, !IterOrder (string * string)}.

(** One turn, all or nothing. [commit_turn] refuses anything but a node's
    terminal event, and a fence that is not the item's, and then writes nothing.
    Otherwise the item leaves the queue, the event lands at the end of its log
    under the next sequence and no other log changes, the tool effect is
    recorded unless its key already has one, and, when asked for, a snapshot of
    the materialized state, the new event included, is stored. *)
Theorem commit_turn_correct (id : WorkItemId) (f : Z) (ev : Event) (b : bool)
    (w : world InMemoryBackend) :
  let eid := event_execution_id ev in
  let r := InMemory.commit_turn id f ev b w in
  let s := store w in let s' := store r.2 in
  match r.1 with
  | Err e => r.2 = w
      ∧ (InMemory.is_terminal_event (event_kind ev) = false
         ∨ ∀ i, work_items s !! id = Some i → lease_fence i ≠ f)
  | Ok seq =>
      InMemory.is_terminal_event (event_kind ev) = true ∧ seq = next_sequence s
      ∧ (∃ i, work_items s !! id = Some i ∧ lease_fence i = f)
      ∧ work_items s' = delete id (work_items s)
      ∧ (∀ id', log_of s' id' = if decide (id' = eid) then log_of s eid ++ [set_sequence ev seq]
                                else log_of s id')
      ∧ (∀ k v, InMemory.idem_effect (event_kind ev) = Some (k, v) →
           tool_effects s' !! k = Some (default v (tool_effects s !! k)))
      ∧ if b then ∃ snap, snapshots_of s' eid = snapshots_of s eid ++ [snap]
                    ∧ of_snapshot snap = materialize_from (match executions s !! eid with
                        | Some e => initial_input e | None => obj [] end)
                        (max_by_sequence (snapshots_of s eid))
                        (λ n, events_after n (log_of s' eid))
        else snapshots s' = snapshots s
  end.
Proof.
  intros eid r s s'. subst r s'. unfold InMemory.commit_turn.
  destruct (InMemory.is_terminal_event _) eqn:Ht; simpl; [|by split; [|left]].
  rewrite bind_gets. fold s. destruct (work_items s !! id) as [i|] eqn:Hi; simpl.
  2:{ split; [done|right]. naive_solver. }
  case_decide as Hf; simpl; [|split; [done|right]; naive_solver].
  unfold InMemory.push_event. rewrite bind_modify, bind_assoc, bind_gets, bind_assoc, bind_modify,
    bind_mret. cbn [store clock draws].
  set (s1 := push ev (drop_item id s)).
  assert (∀ id', log_of s1 id' = if decide (id' = eid) then log_of s eid ++
    [set_sequence ev (next_sequence s)] else log_of s id') as Hlog.
  { intros id'. unfold s1. rewrite log_of_push. fold eid. by case_decide; subst. }
  change (next_sequence (drop_item id s)) with (next_sequence s).
  set (m := match InMemory.idem_effect (event_kind ev) with Some _ => _ | None => _ end).
  assert (∃ te, m (World s1 (clock w) (draws w)) =
      (Ok tt, World (set_tool_effects te s1) (clock w) (draws w))
    ∧ ∀ k v, InMemory.idem_effect (event_kind ev) = Some (k, v) →
        te !! k = Some (default v (tool_effects s !! k))) as (te & Hm & Hte).
  { unfold m. destruct (InMemory.idem_effect _) as [[k v]|].
    - change (tool_effects s) with (tool_effects s1).
      destruct (tool_effects s1 !! k) as [x|] eqn:Hx.
      + exists (tool_effects s1). cbn [modify]. unfold modify. cbn [store]. rewrite Hx.
        split; [by destruct s1|]. intros k' v' [= <- <-]. by rewrite Hx.
      + exists (<[k := v]> (tool_effects s1)). unfold modify. cbn [store]. rewrite Hx.
        split; [done|]. intros k' v' [= <- <-]. by rewrite lookup_insert_eq, Hx.
    - exists (tool_effects s1). split; [by destruct s1|done]. }
  unfold s1, s in Hm. rewrite (bind_run _ _ _ _ _ Hm). fold s s1. destruct b; simpl.
  - split_and!; [done|done|eauto|done|done|done|].
    eexists. split.
    + unfold push_snapshot, snapshots_of. cbn. by rewrite lookup_insert_eq.
    + transitivity (InMemory.materialized (set_tool_effects te s1) eid); [|reflexivity].
      fold eid. by destruct (InMemory.materialized _ eid).
  - split_and!; try done. eauto.
Qed.

(** What the backend writes once. Over every sequence of operations a
    registered workflow version, a recorded tool effect and a stored artifact
    keep their value; registering a version again is accepted only with the
    same content and stores nothing. *)
Theorem write_once_tables (ops : list Op) (w : world InMemoryBackend) :
  let s := store w in let w' := (run_ops ops w).2 in let s' := store w' in
  (∀ id v d, workflows s !! (id, v) = Some d → InMemory.get_workflow id v w' = (Ok (Some d), w'))
  ∧ (∀ k v, tool_effects s !! k = Some v → InMemory.get_tool_effect k w' = (Ok (Some v), w'))
  ∧ (∀ h c m, artifacts s !! ("default", h) = Some (c, m) →
       InMemory.get_artifact h w' = (Ok (Some c), w'))
  ∧ (∀ def old, workflows s !! (wd_workflow_id def, wd_version def) = Some old →
       InMemory.store_workflow def w' =
         (if same_definition (wd_ir old) (wd_ir def) then Ok tt
          else Err (version_conflict (wd_workflow_id def) (wd_version def)), w')).
Proof.
  intros s w' s'. destruct (keeps_run_ops ops w) as (Hw & Ht & Ha & _). fold w' in Hw, Ht, Ha.
  split_and!.
  - intros id v d Hk. unfold InMemory.get_workflow, gets. by rewrite (Hw _ _ Hk).
  - intros k v Hk. unfold InMemory.get_tool_effect, gets. by rewrite (Ht _ _ Hk).
  - intros h c m Hk. unfold InMemory.get_artifact, gets. by rewrite (Ha _ _ Hk).
  - intros def old Hk. unfold InMemory.store_workflow. rewrite bind_gets.
    rewrite (Hw _ _ Hk). by destruct (same_definition _ _).
Qed.

(** Artifacts are addressed by content. What [put_artifact] stored is
    readable under the hash it answered after any further operations, and
    every readable artifact hashes to its address: with no hash collision the
    caller gets back exactly the bytes it put in. *)
Theorem artifact_roundtrip (ops1 ops2 : list Op) (now : Z) (seed : N)
    (c : list N) (m : option string) :
  let w1 := (run_ops ops1 (World InMemoryBackend_new now seed)).2 in
  let put := InMemory.put_artifact c m w1 in
  let w2 := (run_ops ops2 put.2).2 in
  ∃ r c', put.1 = Ok r ∧ ar_hash r = sha256_hex c ∧ ar_size r = Z.of_nat (length c)
    ∧ InMemory.get_artifact (ar_hash r) w2 = (Ok (Some c'), w2)
    ∧ sha256_hex c' = sha256_hex c
    ∧ (∀ h c'', InMemory.get_artifact h w2 = (Ok (Some c''), w2) → sha256_hex c'' = h).
Proof.
  intros w1 put w2.
  destruct (keeps_run_ops ops1 (World InMemoryBackend_new now seed)) as (_ & _ & _ & Hh1).
  specialize (Hh1 ltac:(intros k ? ? Hk; cbn in Hk; by rewrite lookup_empty in Hk)). fold w1 in Hh1.
  destruct (keeps_put_artifact c m w1) as (_ & _ & _ & Hh). specialize (Hh Hh1). fold put in Hh.
  destruct (keeps_run_ops ops2 put.2) as (_ & _ & Ha & Hh2). specialize (Hh2 Hh).
  fold w2 in Ha, Hh2.
  assert (∃ c' m', artifacts (store put.2) !! ("default", sha256_hex c) = Some (c', m'))
    as (c' & m' & Hc').
  { unfold put, InMemory.put_artifact. cbv zeta. rewrite bind_modify, bind_gets. simpl.
    destruct (artifacts (store w1) !! ("default", sha256_hex c)) as [[c' m']|] eqn:Hk; [eauto|].
    exists c, m. apply lookup_insert_eq. }
  eexists _, c'. split_and!; [done|done|done| | |].
  - unfold InMemory.get_artifact, gets. cbn [ar_hash]. by rewrite (Ha _ _ Hc').
  - specialize (Hh _ _ _ Hc'). congruence.
  - intros h c'' Hget. unfold InMemory.get_artifact, gets in Hget. injection Hget as Hget.
    apply fmap_Some in Hget as ([c3 m3] & Hget & ->). specialize (Hh2 _ _ _ Hget). simpl. congruence.
Qed.

(** A reservation excludes. Once [owner] has reserved a tool effect, no
    other owner acquires it before the reservation expires, whatever operations
    come between, unless the holder releases or renews it. *)
Theorem reservation_excludes (key owner other : string) (eid eid' : ExecutionId)
    (node node' : string) (f f' ttl ttl' : Z) (ops : list Op) (w : world InMemoryBackend)
    (Hacq : (InMemory.reserve_tool_effect key eid node owner f ttl w).1 = Ok Acquired)
    (Hok : ops_ok ops (InMemory.reserve_tool_effect key eid node owner f ttl w).2)
    (Hleave : Forall (leaves_reservation key owner f) ops) :
  let w1 := (InMemory.reserve_tool_effect key eid node owner f ttl w).2 in
  let exp := clock w + default (5 * 60 * NANOS_PER_SEC) (duration_from_std ttl) in
  let w2 := (run_ops ops w1).2 in
  clock w2 < exp → other ≠ owner →
  InMemory.reserve_tool_effect key eid' node' other f' ttl' w2 =
    (Ok (Held owner (rfc3339 exp)), w2).
Proof.
  intros w1 exp w2 Hlive Hne.
  assert (reserved (store w1) key owner f exp) as Hr.
  { unfold w1, reserved. clear -Hacq. unfold InMemory.reserve_tool_effect in *.
    rewrite bind_now in *. cbv zeta in *. rewrite bind_gets in *.
    destruct (tool_reservations (store w) !! key) as [[[h g] x]|]; [case_decide|];
      rewrite ?bind_modify in *; try done; cbn; by rewrite lookup_insert_eq. }
  pose proof (reserved_run_ops ops w1 key owner f exp Hok Hleave Hr Hlive) as Hr2. fold w2 in Hr2.
  unfold InMemory.reserve_tool_effect. rewrite bind_now. cbv zeta. rewrite bind_gets.
  unfold reserved in Hr2. rewrite Hr2. rewrite decide_False; [done|]. intros [->|?]; [done|lia].
Qed.
End Properties.

(** ** A concrete run *)

Module MemorySample.
#[local] Existing Instances plain_uuid milli_chrono code_json plain_sha256.
#[local] Existing Instances Sample.order_exec Sample.order_item Sample.order_tenant
  Sample.order_pair.

Definition other_calls : list Op :=
  [OpReserve "k" (mkExecutionId 8) "b" "w2" 4 60; OpTick NANOS_PER_SEC; OpRelease "k" "w2" 4].

Lemma reservation_witness :
  let w1 := (InMemory.reserve_tool_effect "k" (mkExecutionId 7) "a" "w1" 3
    (60 * NANOS_PER_SEC) start_world).2 in
  let w2 := (run_ops other_calls w1).2 in
  ∃ until, InMemory.reserve_tool_effect "k" (mkExecutionId 8) "b" "w2" 5 60 w2
    = (Ok (Held "w1" until), w2).
Proof.
  intros w1 w2. eexists.
  refine (reservation_excludes "k" "w1" "w2" (mkExecutionId 7) (mkExecutionId 8) "a" "b" 3 5 (60 * NANOS_PER_SEC) 60
    other_calls start_world _ _ _ _ _).
  - reflexivity.
  - repeat split; done.
  - repeat (constructor; [simpl; naive_solver|]). constructor.
  - reflexivity.
  - done.
Defined.
End MemorySample.
