(* ===== verification/RunEnd.v ===== *)
(** * A run ends once

    A run's terminal status is final: every operation that looks at the run's
    status before it writes leaves a finished run's status and log alone, and so
    do the lease sweeps. The operations that do not look are listed in
    [leaves_run]. *)

From S2P Require Import Prelude.
From S2P Require Import Json.
From S2P Require Import RustStr.
From S2P Require Import Core.
From S2P Require Import Condition.
From S2P Require Import Event.
From S2P Require Import Materializer.
From S2P Require Import Hashing.
From S2P Require Import Approvals.
From S2P Require Import Backend.
From S2P Require Import Memory.
From S2P Require Import Lease.
From S2P Require Import MemoryLaws.

Definition run_status (s : InMemoryBackend) (id : ExecutionId) : option WorkflowStatus :=
  status <$> executions s !! id.

(** A finished run keeps its status and its log. *)
Definition closed (id : ExecutionId) (s s' : InMemoryBackend) : Prop :=
  ∀ st, run_status s id = Some st → WorkflowStatus.is_terminal st = true →
    run_status s' id = Some st ∧ log_of s' id = log_of s id.

#[export] Instance closed_preorder id : PreOrder (closed id).
Proof.
  split; [by intros s st|]. intros s1 s2 s3 C1 C2 st Hst Ht.
  destruct (C1 st Hst Ht) as [Hst2 Hl]. destruct (C2 st Hst2 Ht) as [Hst3 Hl2].
  split; [done|congruence].
Qed.

(** The operation does not (re)create the run, does not set its status
    unconditionally and does not append to its log unconditionally. *)
Definition leaves_run (id : ExecutionId) (op : Op) : Prop :=
  match op with
  | OpCreateExecution e | OpCreateSegment e _ _ _ _ | OpStart e _ _ _ => execution_id e ≠ id
  | OpUpdateStatus i _ => i ≠ id
  | OpAppend ev | OpCommit _ _ ev _ => event_execution_id ev ≠ id
  | _ => True
  end.

Section Closed.
Context `{!UuidOps, !ChronoOps, !JsonText, !Sha256Ops, !IterOrder ExecutionId, !IterOrder N,
  !IterOrder TenantId, !IterOrder (string * string)}.
Context (id : ExecutionId).

Lemma closed_same s s' :
  executions s' !! id = executions s !! id → log_of s' id = log_of s id → closed id s s'.
Proof. intros He Hl st Hst _. unfold run_status. by rewrite He. Qed.

(** Writes to another run's row or log, or to a row that keeps its status. *)
Lemma closed_put_execution s i e :
  i ≠ id ∨ (status <$> executions s !! id = Some (status e)) ∨
    WorkflowStatus.is_terminal <$> run_status s i = Some false →
  closed id s (put_execution i e s).
Proof.
  intros Hcase st Hst Ht. split; [|done]. unfold run_status in *. cbn.
  destruct (decide (i = id)) as [->|Hne]; [|by rewrite lookup_insert_ne].
  rewrite lookup_insert_eq. destruct Hcase as [?|[Heq|Hf]]; [done|simpl; congruence|].
  rewrite Hst in Hf. simpl in Hf. congruence.
Qed.

Lemma closed_push s ev : event_execution_id ev ≠ id → closed id s (push ev s).
Proof.
  intros Hne. apply closed_same; [done|]. by rewrite log_of_push, decide_False by congruence.
Qed.

(** Nothing holds a run that is not finished. *)
Lemma closed_open s s' :
  (∀ st, run_status s id = Some st → WorkflowStatus.is_terminal st = false) → closed id s s'.
Proof. intros Ho st Hst Ht. specialize (Ho st Hst). congruence. Qed.

Ltac closed_tac := respects_tac ltac:(first [reflexivity | by apply closed_same]).

Lemma closed_finish ev st : respects (closed id) (InMemory.finish_execution ev st).
Proof.
  unfold InMemory.finish_execution. case_match; [closed_tac|]. apply respects_lookup. intros w.
  destruct (executions (store w) !! _) as [e|] eqn:He; [|reflexivity].
  destruct (WorkflowStatus.is_terminal (status e)) eqn:Ht; [reflexivity|].
  rewrite bind_now, bind_modify. cbn [store clock draws].
  destruct (decide (event_execution_id ev = id)) as [Hid|Hne].
  - apply closed_open. intros st' Hst. unfold run_status in Hst. rewrite <- Hid, He in Hst.
    by simplify_eq/=.
  - apply (respects_at (closed id)); [apply closed_put_execution; by left|].
    unfold InMemory.push_event. respects_tac ltac:(by apply closed_push).
Qed.

Lemma closed_append_if ev cond : respects (closed id) (InMemory.append_event_if ev cond).
Proof.
  intros w. rewrite append_event_if_eq.
  destruct (executions (store w) !! _) as [e|] eqn:He; [|reflexivity].
  destruct (WorkflowStatus.is_terminal (status e)) eqn:Ht; [reflexivity|].
  destruct (decide (event_execution_id ev = id)) as [Hid|Hne].
  - apply closed_open. intros st' Hst. unfold run_status in Hst. rewrite <- Hid, He in Hst.
    by simplify_eq/=.
  - case_match; cbn [snd store].
    + etransitivity; [|by apply closed_push]. apply closed_same; [done|apply log_of_default].
    + apply closed_same; [done|apply log_of_default].
Qed.

Lemma closed_row i (f : WorkflowExecution → Z → WorkflowExecution) (w : world InMemoryBackend) e :
  (∀ e n, status (f e n) = status e) → executions (store w) !! i = Some e →
  closed id (store w) (put_execution i (f e (clock w)) (store w)).
Proof.
  intros Hf He. apply closed_put_execution. destruct (decide (i = id)) as [->|]; [|by left].
  right; left. rewrite He. simpl. by rewrite Hf.
Qed.

Lemma closed_update_state i v : respects (closed id) (InMemory.update_execution_current_state i v).
Proof.
  apply respects_lookup. intros w. destruct (executions (store w) !! i) as [e|] eqn:He;
    [|reflexivity].
  by apply (closed_row i (λ e n, exec_with e (status e) v n)).
Qed.

Lemma closed_patch i key v : respects (closed id) (InMemory.patch_append_array i key v).
Proof.
  apply respects_lookup. intros w. destruct (executions (store w) !! i) as [e|] eqn:He;
    [|reflexivity].
  by apply (closed_row i
    (λ e n, exec_with e (status e) (InMemory.append_to_array key v (current_state e)) n)).
Qed.

Lemma closed_finalize eid wid f : respects (closed id) (InMemory.finalize_rollover_fenced eid wid f).
Proof.
  unfold InMemory.finalize_rollover_fenced. apply respects_bind; [apply _|closed_tac|].
  intros [i|]; [|closed_tac]. case_decide; [|closed_tac].
  apply respects_bind; [apply _|closed_tac|intros _].
  apply respects_bind; [apply _|closed_tac|intros now].
  apply respects_bind; [apply _| |intros; closed_tac]. apply respects_modify. intros s.
  destruct (executions s !! eid) as [e|] eqn:He; [|reflexivity].
  destruct (WorkflowStatus.is_terminal (status e)) eqn:Ht; [reflexivity|].
  apply closed_put_execution. right; right. unfold run_status. rewrite He. simpl. by rewrite Ht.
Qed.

Lemma closed_commit_turn wid f ev b :
  event_execution_id ev ≠ id → respects (closed id) (InMemory.commit_turn wid f ev b).
Proof.
  intros Hne. unfold InMemory.commit_turn, InMemory.push_event, from_materialized.
  case_match; [closed_tac|]. apply respects_bind; [apply _|closed_tac|].
  intros [i|]; [|closed_tac]. case_decide; [|closed_tac].
  cbv zeta. repeat (apply respects_bind; [apply _| |intros ?]); try closed_tac.
  apply respects_modify. intros s. by apply closed_push.
Qed.

Lemma closed_commit_unless wid f ev b :
  respects (closed id) (InMemory.commit_turn_unless_terminal wid f ev b).
Proof.
  unfold InMemory.commit_turn_unless_terminal, InMemory.withdraw_work_item_fenced,
    InMemory.remove_if_held.
  apply respects_lookup. intros w.
  destruct (decide (event_execution_id ev = id)) as [Hid|Hne].
  - destruct (executions (store w) !! _) as [e|] eqn:He.
    + destruct (WorkflowStatus.is_terminal (status e)) eqn:Ht.
      * match goal with |- closed _ (store ?w) (store (?m ?w).2) =>
          cut (respects (closed id) m); [intros Hq; apply Hq|closed_tac] end.
      * apply closed_open. intros st' Hst. unfold run_status in Hst. rewrite <- Hid, He in Hst.
        by simplify_eq/=.
    + apply closed_open. intros st' Hst. unfold run_status in Hst. by rewrite <- Hid, He in Hst.
  - match goal with |- closed _ (store ?w) (store (?m ?w).2) =>
      cut (respects (closed id) m); [intros Hq; apply Hq|closed_tac; by apply closed_commit_turn]
    end.
Qed.

(** The sweep records losses only on runs that are not finished. *)
Lemma lapse_items_open now s :
  let r := InMemory.lapse_items now s in
  executions r.2 = executions s ∧ events r.2 = events s
  ∧ ∀ i, i ∈ r.1.1 → is_terminal_run s (wi_execution_id i) = false.
Proof.
  unfold InMemory.lapse_items.
  set (P := λ (acc : list WorkItem * list WorkItemId * InMemoryBackend),
    executions acc.2 = executions s ∧ events acc.2 = events s
    ∧ ∀ i, i ∈ acc.1.1 → is_terminal_run s (wi_execution_id i) = false).
  assert (∀ l acc, P acc → P (foldl (InMemory.lapse_step now) acc l)) as Hfold.
  { induction l as [|[k i] l IH]; intros acc HP; [done|]. simpl. apply IH.
    destruct acc as [[expired withdrawn] s']. destruct HP as (He & Hv & Hi).
    unfold InMemory.lapse_step. case_match; [done|].
    destruct (is_terminal_run s' _) eqn:Ht; [done|]. case_decide; [|done].
    split_and!; [done|done|]. intros j [Hj| ->%list_elem_of_singleton]%elem_of_app; [by apply Hi|].
    unfold is_terminal_run in *. by rewrite <- He. }
  apply Hfold. split_and!; [done|done|]. by intros i Hi%not_elem_of_nil.
Qed.

Lemma closed_record_lapsed i :
  wi_execution_id i ≠ id → respects (closed id) (InMemory.record_lapsed i).
Proof.
  intros Hne. unfold InMemory.record_lapsed. apply respects_for_each; [apply _|]. intros k w.
  exact (closed_push (store w) {| event_id := uuid_v4 (draws w);
    event_execution_id := wi_execution_id i; sequence := _; event_kind := k;
    created_at := clock w |} Hne).
Qed.

Lemma closed_sweep : respects (closed id) InMemory.sweep_lapsed.
Proof.
  unfold InMemory.sweep_lapsed. intros w. rewrite bind_now, bind_gets.
  pose proof (lapse_items_open (clock w) (store w)) as (He & Hv & Hi).
  destruct (InMemory.lapse_items _ _) as [[expired withdrawn] s']. simpl in *.
  rewrite bind_modify. intros st Hst Ht.
  assert (closed id (store w) s') as Hs'.
  { apply closed_same; [by rewrite He|]. unfold log_of. by rewrite Hv. }
  revert st Hst Ht. change (closed id (store w)
    (store ((for_each withdrawn (λ id, modify (drop_item id)) ≫= λ _,
      for_each expired InMemory.record_lapsed) (World s' (clock w) (draws w))).2)).
  destruct (is_terminal_run (store w) id) eqn:Hrun.
  2:{ apply closed_open. intros st Hst. unfold is_terminal_run in Hrun. unfold run_status in Hst.
      destruct (executions (store w) !! id); by simplify_eq/=. }
  apply (respects_at (closed id)); [done|]. apply respects_bind; [apply _|closed_tac|].
  intros _. clear Hs'. induction expired as [|i expired IH]; [closed_tac|].
  apply (respects_bind (closed id) (InMemory.record_lapsed i)).
  - apply closed_record_lapsed. intros <-. rewrite Hi in Hrun; [done|left].
  - intros _. apply IH. intros j Hj. apply Hi. by right.
Qed.

Lemma closed_claim worker qs secs :
  respects (closed id) (InMemory.claim_work_item_with_lease worker qs secs).
Proof.
  unfold InMemory.claim_work_item_with_lease.
  apply respects_bind; [apply _|apply closed_sweep|]. intros _ w.
  rewrite bind_now, bind_gets. destruct (List.find _ _) as [[k i]|]; [|reflexivity].
  by apply closed_same.
Qed.

Lemma closed_reclaim : respects (closed id) InMemory.reclaim_expired_leases.
Proof.
  unfold InMemory.reclaim_expired_leases. intros w. rewrite bind_now, bind_gets.
  assert (closed id (store w) (foldl (InMemory.reclaim_step (clock w)) ([], [], store w)
    (iter_map (work_items (store w)))).2) as Hf.
  { apply (fold_respects (closed id)). intros [retry dead] s [k i]. unfold InMemory.reclaim_step.
    repeat case_match; by apply closed_same. }
  destruct (foldl _ _ _) as [[retry dead] s'].
  rewrite bind_modify. apply (respects_at (closed id)); [exact Hf|]. closed_tac.
Qed.

Lemma closed_create_run e oseed k1 k2 item :
  execution_id e ≠ id → respects (closed id) (InMemory.create_run e oseed k1 k2 item).
Proof.
  intros Hne w. destruct (create_run_eq e oseed k1 k2 item w)
    as (ev1 & ev2 & _ & _ & Hi1 & Hi2 & _ & ->).
  apply closed_same.
  - cbn. rewrite lookup_insert_ne by done. by destruct oseed.
  - change (log_of (push ev2 (push ev1 match oseed with
      | Some snap => push_snapshot (execution_id e) snap (store w) | None => store w end)) id
      = log_of (store w) id).
    rewrite !log_of_push, Hi1, Hi2, !decide_False by congruence. by destruct oseed.
Qed.

Lemma closed_run_op op w : leaves_run id op → closed id (store w) (store (run_op op w).2).
Proof.
  intros Hop. destruct op; simpl in Hop; cbn [run_op fst snd];
    try match goal with |- closed id (store ?w) (store (?m ?w).2) =>
      first [ apply closed_finish | apply closed_append_if | apply closed_update_state
            | apply closed_patch | apply closed_finalize | by apply closed_commit_turn
            | apply closed_commit_unless | apply closed_claim | apply closed_reclaim
            | by apply closed_create_run ] end;
    unfold InMemory.store_workflow, InMemory.put_artifact, InMemory.update_execution_status,
      InMemory.append_event, InMemory.push_event, InMemory.reserve_tool_effect,
      InMemory.release_tool_reservation, InMemory.renew_lease, InMemory.heartbeat_lease,
      InMemory.reattach, InMemory.complete_work_item_fenced, InMemory.withdraw_work_item_fenced,
      InMemory.remove_if_held, InMemory.fail_work_item, InMemory.fail_work_item_fenced,
      InMemory.park_work_item, InMemory.move_to_dead_letter, InMemory.create_execution,
      InMemory.apply_approval_projection_batch;
    match goal with
    | |- context [put_execution] =>
        match goal with |- closed id (store ?w) (store (?m ?w).2) =>
          cut (respects (closed id) m); [intros Hq; apply Hq|];
          respects_tac ltac:(apply closed_put_execution; by left) end
    | |- context [push ?ev] =>
        match goal with |- closed id (store ?w) (store (?m ?w).2) =>
          cut (respects (closed id) m); [intros Hq; apply Hq|];
          respects_tac ltac:(by apply closed_push) end
    | |- _ => try by apply closed_same
    end;
    try match goal with |- closed id (store ?w) (store (?m ?w).2) =>
      cut (respects (closed id) m); [intros Hq; apply Hq|by closed_tac] end.
Qed.

Lemma closed_run_ops ops w :
  Forall (leaves_run id) ops → closed id (store w) (store (run_ops ops w).2).
Proof.
  revert w; induction ops as [|op ops IH]; intros w Hl; [reflexivity|].
  apply Forall_cons in Hl as [Hop Hl]. simpl.
  etransitivity; [by apply closed_run_op|by apply IH].
Qed.
End Closed.

(** ** Properties *)

Section Properties.
Context `{!UuidOps, !ChronoOps, !JsonText, !Sha256Ops, !IterOrder ExecutionId, !IterOrder N,
  !IterOrder TenantId, !IterOrder (string * string)}.

(** What [finish_execution] does when it finishes the run. *)
Lemma finish_execution_finished ev st w seq w' :
  InMemory.finish_execution ev st w = (Ok (Finished seq), w') →
  let id := event_execution_id ev in
  WorkflowStatus.is_terminal st = true
  ∧ run_status (store w') id = Some st
  ∧ log_of (store w') id = log_of (store w) id ++ [set_sequence ev seq].
Proof.
  intros Hrun id. unfold InMemory.finish_execution in Hrun.
  destruct (WorkflowStatus.is_terminal st) eqn:Hst; [|done]. simpl in Hrun.
  rewrite bind_gets in Hrun. destruct (executions (store w) !! _) as [e|] eqn:He; [|done].
  destruct (WorkflowStatus.is_terminal (status e)) eqn:Ht; [done|].
  rewrite bind_now, bind_modify in Hrun. unfold InMemory.push_event in Hrun.
  rewrite bind_assoc, bind_gets, bind_assoc, bind_modify in Hrun. injection Hrun as <- <-.
  split_and!; [done| |].
  - unfold run_status. cbn. by rewrite lookup_insert_eq.
  - cbn [store]. by rewrite log_of_push, decide_True.
Qed.

(** The item is held by the lease [f]. *)
Definition held_under (s : InMemoryBackend) (wid : WorkItemId) (f : Z) : bool :=
  match work_items s !! wid with Some i => InMemory.holds f i | None => false end.

(** A turn's commit on a finished run gives the caller's item back, if the caller
    holds it, and does nothing else. *)
Lemma commit_on_finished wid f ev b (w : world InMemoryBackend) st :
  run_status (store w) (event_execution_id ev) = Some st → WorkflowStatus.is_terminal st = true →
  InMemory.commit_turn_unless_terminal wid f ev b w
  = if held_under (store w) wid f
    then (Ok (TurnExecutionTerminal st), World (drop_item wid (store w)) (clock w) (draws w))
    else (Err (FenceLost (uuid_hyphenated wid)), w).
Proof.
  intros (e & He & ->)%fmap_Some Ht. unfold InMemory.commit_turn_unless_terminal, held_under.
  rewrite bind_gets, He, Ht.
  unfold InMemory.withdraw_work_item_fenced, InMemory.remove_if_held.
  rewrite bind_assoc, bind_gets.
  destruct (work_items (store w) !! wid) as [i|]; [|done]. by destruct (InMemory.holds f i).
Qed.

(** C31: On the in-memory backend a run ends once. From the call of
    [finish_execution] that ends it, and through every later operation that does not
    overwrite the run's status or append to its log unconditionally (those are
    assumed absent, [leaves_run]), the run keeps its terminal status and its log ends
    with the finishing event. The guarded operations then leave the run alone and
    answer its status: finishing again and a conditional append change nothing of the
    store. A turn's commit records no event, no snapshot and no effect: if the caller
    holds the item it is withdrawn, which is the only change, and the answer is the
    run's status; otherwise nothing changes and the answer is [FenceLost]. Each
    operation is one step here, also a turn's commit, whose look at the status and
    whose commit the source makes separately on this backend (the SQLite ones make
    them in one transaction). *)
Theorem run_finishes_once (ev : Event) (st : WorkflowStatus) (seq : Z)
    (w w1 : world InMemoryBackend) (ops : list Op)
    (Hfin : InMemory.finish_execution ev st w = (Ok (Finished seq), w1))
    (Hops : Forall (leaves_run (event_execution_id ev)) ops) :
  let id := event_execution_id ev in
  let w2 := (run_ops ops w1).2 in
  run_status (store w2) id = Some st
  ∧ log_of (store w2) id = log_of (store w) id ++ [set_sequence ev seq]
  ∧ ∀ ev', event_execution_id ev' = id →
      (∀ st', WorkflowStatus.is_terminal st' = true →
         InMemory.finish_execution ev' st' w2 = (Ok (AlreadyTerminal st), w2))
      ∧ (∀ cond, InMemory.append_event_if ev' cond w2 = (Ok (AppendExecutionTerminal st), w2))
      ∧ (∀ wid f b, InMemory.commit_turn_unless_terminal wid f ev' b w2
           = if held_under (store w2) wid f
             then (Ok (TurnExecutionTerminal st),
                   World (set_work_items (delete wid (work_items (store w2))) (store w2))
                     (clock w2) (draws w2))
             else (Err (FenceLost (uuid_hyphenated wid)), w2)).
Proof.
  intros id w2. destruct (finish_execution_finished _ _ _ _ _ Hfin) as (Ht & Hst & Hlog).
  fold id in Hst, Hlog.
  destruct (closed_run_ops id ops w1 Hops st Hst Ht) as [Hst2 Hlog2]. fold w2 in Hst2, Hlog2.
  split_and!; [done|congruence|]. intros ev' Hev'. split_and!.
  3:{ intros wid f b. apply commit_on_finished; by rewrite ?Hev'. }
  all: apply fmap_Some in Hst2 as (e & He & ->).
  - intros st' Ht'. unfold InMemory.finish_execution. rewrite Ht'. simpl.
    by rewrite bind_gets, Hev', He, Ht.
  - intros cond. by rewrite append_event_if_eq, Hev', He, Ht.
Qed.
End Properties.

Module RunEndSample.
#[local] Existing Instances plain_uuid milli_chrono code_json plain_sha256.
#[local] Existing Instances Sample.order_exec Sample.order_item Sample.order_tenant
  Sample.order_pair.

Definition run7 : WorkflowExecution := {|
  execution_id := mkExecutionId 7; workflow_id := "w"; workflow_version := "1.0.0";
  status := WorkflowStatus.Running; initial_input := Object []; current_state := Object [];
  started_at := 0; updated_at := 0; completed_at := None; session_type := None;
  parent_execution_id := None; segment_number := 0 |}.
Definition completed : Event := {|
  event_id := 0; event_execution_id := mkExecutionId 7; sequence := 0;
  event_kind := EventKind.WorkflowCompleted (Object []); created_at := 0 |}.

(** Finished while a worker still holds the run's item; the lease then lapses
    and the claim sweep withdraws the item. *)
Lemma finishes_once_witness :
  let w := (run_ops [OpCreateExecution run7; OpEnqueue Sample.item; OpClaim "w1" ["tool"] None]
    start_world).2 in
  let r := InMemory.finish_execution completed WorkflowStatus.Completed w in
  let later := [OpCommitUnless 5 1 Sample.failed false; OpTick (60 * NANOS_PER_SEC);
    OpClaim "w2" ["tool"] None; OpAppendIf Sample.failed (λ _ _, true)] in
  run_status (store (run_ops later r.2).2) (mkExecutionId 7) = Some WorkflowStatus.Completed
  ∧ r.1 = Ok (Finished 1).
Proof.
  intros w r later. split; [|reflexivity].
  refine (proj1 (run_finishes_once completed WorkflowStatus.Completed 1 w r.2 later _ _)).
  - reflexivity.
  - repeat (constructor; [simpl; done|]). constructor.
Defined.

(** The two looks of a turn's commit apart: a run finished between them still gets
    the turn's event after its last. *)
Example commit_races_finish :
  let w := (run_ops [OpCreateExecution run7; OpEnqueue Sample.item; OpClaim "w1" ["tool"] None]
    start_world).2 in
  let run :=
    t ← InMemory.run_terminal_status (mkExecutionId 7);
    InMemory.finish_execution completed WorkflowStatus.Completed ≫= λ _,
    InMemory.commit_turn_given t 5 1 Sample.failed false in
  (run w).1 = Ok (Committed 2) ∧ length (log_of (store (run w).2) (mkExecutionId 7)) = 2%nat
  ∧ run_status (store (run w).2) (mkExecutionId 7) = Some WorkflowStatus.Completed.
Proof. vm_compute. done. Qed.
End RunEndSample.
