(* ===== verification/Artifact.v ===== *)
(** * Spilled outputs ([state/src/artifact.rs])

    An output past the threshold is stored by its hash and replaced by a
    sentinel; a reader resolves the sentinel back. *)

From S2P Require Import Prelude.
From S2P Require Import Json.
From S2P Require Import RustStr.
From S2P Require Import Core.
From S2P Require Import Condition.
From S2P Require Import Ir.
From S2P Require Import Event.
From S2P Require Import Materializer.
From S2P Require Import Hashing.
From S2P Require Import Approvals.
From S2P Require Import Backend.
From S2P Require Import Memory.
From S2P Require Import Lease.
From S2P Require Import History.
From Stdlib Require Import Ascii.

Definition ARTIFACT_SENTINEL_KEY : string := "$artifact".
Definition DEFAULT_SPILL_THRESHOLD : Z := 8 * 1024.

Definition to_sentinel (self : ArtifactRef) : Value :=
  obj [(ARTIFACT_SENTINEL_KEY,
        obj [("hash", Str (ar_hash self)); ("size", num (ar_size self));
             ("media_type", opt_val Str (ar_media_type self))])].

(** ['0'..='9' | 'a'..='f']. *)
Definition is_lower_hex (b : N) : bool :=
  ((48 <=? b)%N && (b <=? 57)%N) || ((97 <=? b)%N && (b <=? 102)%N).

(** [as_u64]. *)
Definition as_u64 (v : Value) : option Z := match v with Num (PosInt n) => Some n | _ => None end.

Definition from_sentinel (v : Value) : option ArtifactRef :=
  m ← as_object v; inner ← map_get ARTIFACT_SENTINEL_KEY m;
  h ← get "hash" inner; hash ← as_str h;
  if negb (bool_decide (length (bytes hash) = 64%nat) && forallb is_lower_hex (bytes hash)) then None
  else
    sz ← get "size" inner; size ← as_u64 sz;
    let mt := get "media_type" inner in
    if match mt with
       | Some mt => negb (is_null mt) && bool_decide (as_str mt = None)
       | None => false
       end then None
    else Some {| ar_hash := hash; ar_size := size; ar_media_type := mt ≫= as_str |}.

Definition parse_threshold (val : option string) : Z :=
  default DEFAULT_SPILL_THRESHOLD (s ← val; parse_unsigned u64_max s).

Section Spill.
Context `{!JsonText}.

(** [serde_json::to_vec], which does not fail on a [Value]. *)
Definition to_vec (v : Value) : list N := bytes (json_to_string v).

(** [serde_json::from_slice], on the bytes as a string. *)
Definition from_slice (b : list N) : option Value :=
  parse_json (String.string_of_list_ascii (ascii_of_N <$> b)).

Definition spill_bytes (value : Value) (threshold : Z) : option (list N) :=
  let b := to_vec value in
  if decide (threshold < Z.of_nat (length b)) then Some b else None.

Context {S : Type} `{HB : StateBackend S}.

Definition resolve_ref (artifact_ref : ArtifactRef) : bk S Value :=
  found ← get_artifact (ar_hash artifact_ref);
  match found with
  | Some b => of_result (ok_or (Serialization "invalid artifact bytes") (from_slice b))
  | None => raise (NotFound ("artifact " +:+ ar_hash artifact_ref +:+ " not found (dangling ref)"))
  end.

Definition resolve_one (v : Value) : bk S Value :=
  match from_sentinel v with Some r => resolve_ref r | None => mret v end.

Fixpoint resolve_fields (m out : Map) : bk S Map :=
  match m with
  | [] => mret out
  | (k, v) :: m => v ← resolve_one v; resolve_fields m (map_insert k v out)
  end.

Fixpoint resolve_items (l : list Value) : bk S (list Value) :=
  match l with
  | [] => mret []
  | v :: l => v ← resolve_one v; l ← resolve_items l; mret (v :: l)
  end.

Definition resolve_value (value : Value) : bk S Value :=
  match from_sentinel value with
  | Some r => resolve_ref r
  | None =>
      match value with
      | Object m => m ← resolve_fields m []; mret (Object m)
      | Array l => l ← resolve_items l; mret (Array l)
      | _ => mret value
      end
  end.

(** The output an event carries: inline, or a sentinel for bytes stored first. *)
Definition spill_output (value : Value) (threshold : Z) : bk S Value :=
  match spill_bytes value threshold with
  | Some b => r ← put_artifact b (Some "application/json"); mret (to_sentinel r)
  | None => mret value
  end.
End Spill.

(** ** Sentinels *)

Lemma hex_digit_lower n : (n < 16)%N → is_lower_hex (N_of_ascii (hex_digit n)) = true.
Proof.
  intros Hn. assert (∃ k, n = N.of_nat k ∧ (k < 16)%nat) as (k & -> & Hk)
    by (exists (N.to_nat n); lia).
  do 16 (destruct k as [|k]; [reflexivity|]). lia.
Qed.

Lemma bytes_cons c s : bytes (String c s) = N_of_ascii c :: bytes s.
Proof. done. Qed.

Lemma hex_wf l :
  Forall (λ b, (b < 256)%N) l →
  length (bytes (hex l)) = (2 * length l)%nat ∧ forallb is_lower_hex (bytes (hex l)) = true.
Proof.
  induction 1 as [|b l Hb Hl [IH1 IH2]]; [done|]. cbn [hex]. rewrite !bytes_cons. split.
  - cbn [length]. rewrite IH1. lia.
  - cbn [forallb]. rewrite IH2, !hex_digit_lower; [done| |].
    + apply N.mod_lt. lia.
    + apply N.Div0.div_lt_upper_bound. lia.
Qed.

Lemma from_to_sentinel h size mt :
  length (bytes h) = 64%nat → forallb is_lower_hex (bytes h) = true →
  from_sentinel (to_sentinel {| ar_hash := h; ar_size := size; ar_media_type := mt |})
  = Some {| ar_hash := h; ar_size := size; ar_media_type := mt |}.
Proof.
  intros Hl Hh. unfold from_sentinel, to_sentinel. cbn [ar_hash ar_size ar_media_type].
  set (inner := obj [("hash", _); _; _]).
  assert (get "hash" inner = Some (Str h)) as Eh by reflexivity.
  assert (get "size" inner = Some (num size)) as Es by reflexivity.
  assert (get "media_type" inner = Some (opt_val Str mt)) as Em by reflexivity.
  assert (map_get ARTIFACT_SENTINEL_KEY [(ARTIFACT_SENTINEL_KEY, inner)] = Some inner) as Ei
    by reflexivity.
  change (obj [(ARTIFACT_SENTINEL_KEY, inner)]) with (Object [(ARTIFACT_SENTINEL_KEY, inner)]).
  cbn [as_object mbind option_bind]. rewrite Ei. cbn [mbind option_bind]. rewrite Eh.
  cbn [mbind option_bind as_str]. rewrite Hl, Hh, bool_decide_eq_true_2 by done.
  cbn [andb negb]. rewrite Es. cbn [mbind option_bind as_u64 num]. rewrite Em. by destruct mt.
Qed.

Lemma string_of_bytes s : String.string_of_list_ascii (ascii_of_N <$> bytes s) = s.
Proof.
  induction s as [|c s IH]; [done|]. rewrite bytes_cons. cbn. rewrite ascii_N_embedding.
  f_equal. exact IH.
Qed.

Section InMem.
Context `{!UuidOps, !ChronoOps, !JsonText, !Sha256Ops, !IterOrder ExecutionId, !IterOrder WorkItemId,
  !IterOrder TenantId, !IterOrder (string * string)}.

(** Every artifact is stored under its own hash. *)
Definition content_addressed (s : InMemoryBackend) : Prop :=
  ∀ t h c m, artifacts s !! (t, h) = Some (c, m) → sha256_hex c = h.

Lemma put_artifact_run c mt (w : world InMemoryBackend) :
  content_addressed (store w) →
  ∃ r w', InMemory.put_artifact c mt w = (Ok r, w') ∧ ar_hash r = sha256_hex c
    ∧ content_addressed (store w')
    ∧ ∃ c' m, artifacts (store w') !! ("default", sha256_hex c) = Some (c', m)
        ∧ sha256_hex c' = sha256_hex c.
Proof.
  intros Hca. unfold InMemory.put_artifact. rewrite bind_modify, bind_gets. do 2 eexists.
  split; [reflexivity|]. split; [done|]. cbn [store].
  destruct (artifacts (store w) !! ("default", sha256_hex c)) as [[c' m]|] eqn:Hc.
  - split; [exact Hca|]. exists c', m. split; [done|]. by eapply Hca.
  - assert (content_addressed (set_artifacts
      (<[("default", sha256_hex c):=(c, mt)]> (artifacts (store w))) (store w))) as Hca'.
    { intros t h c' m. cbn. intros Hl%lookup_insert_Some.
      destruct Hl as [[[= <- <-] [= <- <-]]|[_ Hl]]; [done|by eapply Hca]. }
    split; [exact Hca'|]. exists c, mt. split; [cbn; by rewrite lookup_insert_eq|done].
Qed.

(** An output spilled to the artifact store reads back as itself, however the
    store is used in between: for a store whose artifacts lie under their hashes
    (which putting one keeps), a digest of 32 bytes that no other content shares
    with this output and a text the parser reads back, resolving what the event
    carries gives the output. *)
Theorem spill_round_trip (v : Value) (threshold : Z) (w w1 w2 : world InMemoryBackend) (out : Value)
    (Hlen : length (Sha256_digest (to_vec v)) = 32%nat)
    (Hfree : ∀ c, sha256_hex c = sha256_hex (to_vec v) → c = to_vec v)
    (Htext : parse_json (json_to_string v) = Some v)
    (Hstore : content_addressed (store w))
    (Hbig : threshold < Z.of_nat (length (to_vec v)))
    (Hspill : spill_output v threshold w = (Ok out, w1))
    (Hkept : ∀ k e, artifacts (store w1) !! k = Some e → artifacts (store w2) !! k = Some e) :
  content_addressed (store w1) ∧ (resolve_value out w2).1 = Ok v.
Proof.
  unfold spill_output, spill_bytes in Hspill. rewrite decide_True in Hspill by done.
  destruct (put_artifact_run (to_vec v) (Some "application/json") w Hstore)
    as ([h size mt] & w' & Hput & Hh & Hca & c & m & Hget & Hc).
  simpl in Hspill. rewrite (bind_run _ _ _ _ _ Hput) in Hspill. injection Hspill as <- <-.
  split; [exact Hca|]. simpl in Hh. subst h. apply Hfree in Hc. subst c. apply Hkept in Hget.
  destruct (hex_wf _ (Sha256_digest_bytes (to_vec v))) as [Hwl Hwh]. rewrite Hlen in Hwl.
  unfold resolve_value. rewrite from_to_sentinel by done. unfold resolve_ref. simpl.
  unfold InMemory.get_artifact. rewrite bind_gets, Hget. cbn.
  unfold from_slice, to_vec. by rewrite string_of_bytes, Htext.
Qed.
End InMem.

(** ** A sample *)

Module ArtifactSample.
#[local] Existing Instances plain_uuid milli_chrono.

(** Strings without quotes are their own text here. *)
Definition bare_json : JsonText.
Proof.
  refine {| parse_json := λ s, Some (Str s); json_to_string := λ v,
    match v with Str s => s | _ => "" end |}.
  abstract (by intros s v [= <-]).
Defined.

Definition long : string := "an output past the threshold".

(** A digest of 32 bytes that tells this output from the rest. *)
Definition one_sha256 : Sha256Ops.
Proof.
  refine {| Sha256_digest := λ l, if decide (l = bytes long) then replicate 32 1%N
                                  else replicate 32 0%N |}.
  abstract (intros l; case_decide; repeat constructor; lia).
Defined.
#[local] Existing Instances bare_json one_sha256 Sample.order_exec Sample.order_item
  Sample.order_tenant Sample.order_pair.

Lemma spill_witness :
  let w1 := (spill_output (Str long) 8 start_world).2 in
  (resolve_value match (spill_output (Str long) 8 start_world).1 with Ok out => out | Err _ => Null end
    w1).1 = Ok (Str long).
Proof.
  intros w1. refine (proj2 (spill_round_trip (Str long) 8 start_world w1 w1 _ _ _ _ _ _ _ _)).
  - vm_compute. reflexivity.
  - intros c. unfold sha256_hex. cbn [Sha256_digest one_sha256]. intros Hc.
    destruct (decide (c = bytes long)) as [->|Hne]; [reflexivity|]. exfalso.
    rewrite (decide_True (P := to_vec (Str long) = bytes long)) in Hc by reflexivity.
    assert (hex (replicate 32 0%N) ≠ hex (replicate 32 1%N)) as Hd by (vm_compute; discriminate).
    done.
  - reflexivity.
  - intros t h c m Hl. discriminate Hl.
  - vm_compute. reflexivity.
  - vm_compute. reflexivity.
  - done.
Defined.
End ArtifactSample.
