(* ===== verification/Segment.v ===== *)
(** * Continue-as-new ([state/src/segment.rs])

    A long run rolls over into a continuation execution; the segments of a run
    form a chain of parents. Proved against the backend's interface and laws. *)

From S2P Require Import Prelude.
From S2P Require Import Json.
From S2P Require Import RustStr.
From S2P Require Import Core.
From S2P Require Import Condition.
From S2P Require Import Event.
From S2P Require Import Materializer.
From S2P Require Import Hashing.
From S2P Require Import Approvals.
From S2P Require Import Backend.
From S2P Require Import Memory.
From S2P Require Import Lease.
From S2P Require Import MemoryLaws.

(** [Uuid::from_u128(0x6a8e_f5c3_d3a4_4b9c_8b2e_4f5d_6e7a_8c9b)]. *)
Definition SEGMENT_NS : Uuid := 0x6a8ef5c3d3a44b9c8b2e4f5d6e7a8c9b%N.

Definition SEGMENT_CHAIN_MAX_DEPTH : Z := 10000.

Section Segment.
Context `{!UuidOps} {S : Type} `{HL : StateBackendLaws S}.

Definition segment_execution_id (parent_id : ExecutionId) (next_segment_number : Z)
    : ExecutionId :=
  mkExecutionId (uuid_v5 SEGMENT_NS
    (uuid_hyphenated (exec_uuid parent_id) +:+ ":" +:+ pretty next_segment_number)).

Definition start_next_segment (parent_id : ExecutionId) (carried_state : MaterializedState)
    (workflow_id workflow_version : string) (next_segment_number : Z)
    (start_node_id queue_type tenant_id : string) : bk S ExecutionId :=
  let new_id := segment_execution_id parent_id next_segment_number in
  found ← get_execution new_id;
  match found with
  | Some _ => mret new_id
  | None =>
      now ← utc_now;
      let execution := {|
        execution_id := new_id; workflow_id := workflow_id;
        workflow_version := workflow_version; status := WorkflowStatus.Running;
        initial_input := mat_current_state carried_state;
        current_state := mat_current_state carried_state;
        started_at := now; updated_at := now; completed_at := None; session_type := None;
        parent_execution_id := Some parent_id; segment_number := next_segment_number |} in
      seed ← seed_for_segment new_id (mat_current_state carried_state);
      parent_events ← get_events parent_id;
      let initiated_by := run_initiator parent_events in
      let started_event := EventKind.WorkflowStarted workflow_id workflow_version
        (mat_current_state carried_state) initiated_by in
      let scheduled_event := EventKind.NodeScheduled start_node_id queue_type in
      item_id ← new_v4;
      let work_item := {|
        wi_id := item_id; wi_execution_id := new_id; wi_node_id := start_node_id;
        queue_type := queue_type;
        payload := obj [("workflow_id", Str workflow_id);
                        ("workflow_version", Str workflow_version)];
        attempt := 0; max_attempts := 3; wi_created_at := now; lease_expires_at := None;
        worker_id := None; lease_fence := 0; wi_tenant_id := tenant_id |} in
      create_segment_atomic execution seed started_event scheduled_event work_item ≫= λ _,
      mret new_id
  end.

(** The loop of [segment_chain]; [room] is how far [chain] is from the depth
    limit, so the guard [chain.len() >= SEGMENT_CHAIN_MAX_DEPTH] is [room = 0]. *)
Fixpoint chain_loop (room : nat) (chain : list ExecutionId) (current : ExecutionId)
    : bk S (list ExecutionId) :=
  match room with
  | O => raise (Database ("segment_chain exceeded max depth (" +:+ pretty SEGMENT_CHAIN_MAX_DEPTH
           +:+ "): possible cycle starting near " +:+ ExecutionId_display current))
  | Datatypes.S room =>
      found ← get_execution current;
      exec ← of_result (ok_or (NotFound ("segment_chain: execution "
        +:+ ExecutionId_display current +:+ " not found")) found);
      let chain := chain ++ [current] in
      match parent_execution_id exec with
      | None => mret chain
      | Some parent => chain_loop room chain parent
      end
  end.

Definition segment_chain (id : ExecutionId) : bk S (list ExecutionId) :=
  chain ← chain_loop (Z.to_nat SEGMENT_CHAIN_MAX_DEPTH) [] id;
  mret (reverse chain).

(** ** What a chain is *)

(** [l] is the run from its root down to [id]. *)
Inductive chain_to (s : S) : ExecutionId → list ExecutionId → Prop :=
| chain_root id e :
    view_execution s id = Some e → parent_execution_id e = None → chain_to s id [id]
| chain_next id e parent l :
    view_execution s id = Some e → parent_execution_id e = Some parent →
    chain_to s parent l → chain_to s id (l ++ [id]).

(** The [n]-th parent. *)
Fixpoint ancestor (s : S) (n : nat) (id : ExecutionId) : option ExecutionId :=
  match n with
  | O => Some id
  | Datatypes.S n =>
      e ← view_execution s id; parent ← parent_execution_id e; ancestor s n parent
  end.

(** A link of the chain that is not stored. *)
Definition broken_at (s : S) (n : nat) (id : ExecutionId) : Prop :=
  ∃ a, ancestor s n id = Some a ∧ view_execution s a = None.

Lemma chain_loop_eq room chain current w :
  chain_loop (Datatypes.S room) chain current w =
  match view_execution (store w) current with
  | None => (Err (NotFound ("segment_chain: execution "
               +:+ ExecutionId_display current +:+ " not found")), w)
  | Some e =>
      match parent_execution_id e with
      | None => (Ok (chain ++ [current]), w)
      | Some parent => chain_loop room (chain ++ [current]) parent w
      end
  end.
Proof.
  simpl. rewrite (bind_run _ _ _ _ _ (law_get_execution current w)).
  unfold of_result, mbind, eff_bind.
  destruct (view_execution (store w) current) as [e|]; simpl; [|done].
  by destruct (parent_execution_id e).
Qed.

(** The walk's three outcomes. *)
Lemma chain_loop_spec room chain current w :
  let s := store w in
  match chain_loop room chain current w with
  | (Ok l, w') => w' = w ∧ ∃ l', chain_to s current l' ∧ l = chain ++ reverse l'
      ∧ (length l' ≤ room)%nat
  | (Err (NotFound _), w') => w' = w ∧ ∃ n, (n < room)%nat ∧ broken_at s n current
  | (Err (Database _), w') => w' = w ∧ ancestor s room current ≠ None
  | (Err _, _) => False
  end.
Proof.
  intros s. revert chain current. induction room as [|room IH]; intros chain current; [done|].
  rewrite chain_loop_eq. fold s. destruct (view_execution s current) as [e|] eqn:He.
  2:{ split; [done|]. exists O. split; [lia|]. by exists current. }
  destruct (parent_execution_id e) as [parent|] eqn:Hp.
  - specialize (IH (chain ++ [current]) parent).
    destruct (chain_loop room (chain ++ [current]) parent w) as [[l|err] w'].
    + destruct IH as (-> & l' & Hl' & -> & Hlen). split; [done|].
      exists (l' ++ [current]). split_and!; [by eapply chain_next| |rewrite length_app; simpl; lia].
      by rewrite reverse_app, <- app_assoc.
    + destruct err; try done.
      * destruct IH as (-> & n & Hn & a & Ha & Hnone). split; [done|].
        exists (Datatypes.S n). split; [lia|]. exists a. split; [|done]. simpl. by rewrite He; simpl; rewrite Hp.
      * destruct IH as [-> Hanc]. split; [done|]. simpl. by rewrite He; simpl; rewrite Hp.
  - split; [done|]. exists [current]. split_and!; [by eapply chain_root|done|simpl; lia].
Qed.

(** A chain is the list of the ancestors, so there is only one. *)
Lemma chain_to_inj s id l l' : chain_to s id l → chain_to s id l' → l = l'.
Proof.
  intros Hc. revert l'. induction Hc as [id e He Hp|id e parent l He Hp _ IH]; intros l' Hc';
    inversion Hc'; simplify_eq; [done|]. f_equal. by apply IH.
Qed.

Lemma chain_to_end s id l : chain_to s id l → ancestor s (length l) id = None.
Proof.
  induction 1 as [id e He Hp|id e parent l He Hp _ IH].
  - simpl. by rewrite He; simpl; rewrite Hp.
  - rewrite length_app, Nat.add_comm. simpl. by rewrite He; simpl; rewrite Hp.
Qed.

Lemma chain_to_unbroken s id l n : chain_to s id l → ¬ broken_at s n id.
Proof.
  intros Hc. revert n. induction Hc as [id e He Hp|id e parent l He Hp _ IH];
    intros [|n] (a & Ha & Hn); simpl in Ha; rewrite ?He in Ha; simpl in Ha;
    rewrite ?Hp in Ha; simplify_eq/=; try congruence. apply (IH n). by exists a.
Qed.

Lemma ancestor_add s n m id a :
  ancestor s n id = Some a → ancestor s (n + m) id = ancestor s m a.
Proof.
  revert id; induction n as [|n IH]; intros id Ha; simpl in *; [by simplify_eq|].
  destruct (view_execution s id) as [e|]; simpl in *; [|done].
  destruct (parent_execution_id e); simpl in *; [|done]. by apply IH.
Qed.

Lemma ancestor_le s n m id :
  (m ≤ n)%nat → ancestor s n id ≠ None → ancestor s m id ≠ None.
Proof.
  revert n id; induction m as [|m IH]; intros n id Hle Ha; [done|].
  destruct n as [|n]; [lia|]. simpl in *.
  destruct (view_execution s id) as [e|]; simpl in *; [|done].
  destruct (parent_execution_id e); simpl in *; [|done]. apply (IH n); [lia|done].
Qed.

(** Going round a cycle is possible any number of times. *)
Lemma ancestor_cycle s k id n :
  (0 < k)%nat → ancestor s k id = Some id → ancestor s n id ≠ None.
Proof.
  intros Hk Hc. apply (ancestor_le s (n * k)); [nia|].
  induction n as [|n IH]; [done|]. simpl. by rewrite (ancestor_add _ _ _ _ _ Hc).
Qed.

Lemma ancestor_broken s n m id : broken_at s n id → (n < m)%nat → ancestor s m id = None.
Proof.
  intros (a & Ha & Hn) Hlt. replace m with (n + Datatypes.S (m - n - 1))%nat by lia.
  rewrite (ancestor_add _ _ _ _ _ Ha). simpl. by rewrite Hn.
Qed.

Lemma reverse_chain (l : list ExecutionId) : reverse ([] ++ reverse l) = l.
Proof. simpl. apply reverse_involutive. Qed.

(** Walking a chain only reads. *)
Lemma segment_chain_reads id w : (segment_chain id w).2 = w.
Proof.
  unfold segment_chain, mbind, eff_bind. pose proof (chain_loop_spec
    (Z.to_nat SEGMENT_CHAIN_MAX_DEPTH) [] id w) as Hspec.
  destruct (chain_loop _ [] id w) as [[l|[]] w']; try done; by destruct Hspec as [-> _].
Qed.

(** Walking a run's segments. The walk answers a list exactly when that
    list is the chain from the run's root down to the segment and fits the depth
    limit, reports a missing row exactly when a link within the limit is not
    stored, and the depth error exactly when the limit's worth of parents exist,
    which every cycle of parents has. It always answers and never writes. *)
Theorem segment_chain_correct (id : ExecutionId) (w : world S) :
  let s := store w in
  let max := Z.to_nat SEGMENT_CHAIN_MAX_DEPTH in
  let r := segment_chain id w in
  r.2 = w
  ∧ (∀ l, r.1 = Ok l ↔ chain_to s id l ∧ (length l ≤ max)%nat)
  ∧ ((∃ msg, r.1 = Err (NotFound msg)) ↔ ∃ n, (n < max)%nat ∧ broken_at s n id)
  ∧ ((∃ msg, r.1 = Err (Database msg)) ↔ ancestor s max id ≠ None)
  ∧ (∀ k, (0 < k)%nat → ancestor s k id = Some id → ∃ msg, r.1 = Err (Database msg)).
Proof.
  intros s max r.
  assert (r = match chain_loop max [] id w with
    | (Ok l, w') => (Ok (reverse l), w') | (Err e, w') => (Err e, w') end) as Hr by reflexivity.
  clearbody max. rewrite Hr. clear r Hr.
  pose proof (chain_loop_spec max [] id w) as Hspec. fold s in Hspec.
  set (r := match chain_loop max [] id w with (Ok l, w') => _ | (Err e, w') => _ end).
  assert ((∃ msg, r.1 = Err (Database msg)) ↔ ancestor s max id ≠ None) as Hdb.
  { subst r. destruct (chain_loop max [] id w) as [[l|[]] w']; try done; simpl.
    - destruct Hspec as (_ & l' & Hl' & _ & Hlen). split; [by intros [? ?]|]. intros Ha.
      destruct (ancestor_le s max (length l') id Hlen Ha). by apply chain_to_end.
    - destruct Hspec as (_ & n & Hn & Hb). split; [by intros [? ?]|]. intros Ha.
      by destruct Ha; apply (ancestor_broken s n max id Hb Hn).
    - destruct Hspec as [_ Ha]. split; [done|]. eauto. }
  split_and!; [| | |done|intros k Hk Hc; apply Hdb; by eapply ancestor_cycle];
    clear Hdb; subst r; destruct (chain_loop max [] id w) as [[l|[]] w']; try done; simpl in *;
    try (by destruct Hspec as [-> _]).
  - destruct Hspec as (_ & l' & Hl' & -> & Hlen). intros l. rewrite reverse_involutive. split.
    + by intros [= <-].
    + intros [Hl _]. f_equal. by eapply chain_to_inj.
  - destruct Hspec as (_ & n & Hn & Hb). intros l. split; [done|]. intros [Hl _].
    by destruct (chain_to_unbroken s id l n Hl).
  - destruct Hspec as [_ Ha]. intros l. split; [done|]. intros [Hl Hlen].
    by destruct (ancestor_le s max (length l) id Hlen Ha (chain_to_end s id l Hl)).
  - destruct Hspec as (_ & l' & Hl' & _). split; [by intros [? ?]|]. intros (n & _ & Hb).
    by destruct (chain_to_unbroken s id l' n Hl').
  - destruct Hspec as (_ & n & Hn & Hb). split; eauto.
  - destruct Hspec as [_ Ha]. split; [by intros [? ?]|]. intros (n & Hn & Hb).
    by destruct Ha; apply (ancestor_broken s n max id Hb Hn).
Qed.

(** ** Rolling over *)

(** What a new segment is made of. *)
Record fresh_segment (parent : ExecutionId) (carried : MaterializedState) (n : Z)
    (node queue : string) (now : Z) (exec : WorkflowExecution) (seed : Snapshot)
    (item : WorkItem) : Prop := {
  fs_id : execution_id exec = segment_execution_id parent n;
  fs_parent : parent_execution_id exec = Some parent;
  fs_number : segment_number exec = n;
  fs_status : status exec = WorkflowStatus.Running;
  fs_input : initial_input exec = mat_current_state carried;
  fs_state : current_state exec = mat_current_state carried;
  fs_seed : of_snapshot seed =
    {| mat_current_state := mat_current_state carried; mat_status := WorkflowStatus.Running;
       completed_nodes := ∅; active_nodes := ∅; last_sequence := 0 |};
  fs_at : at_sequence seed = 0;
  fs_item : wi_execution_id item = execution_id exec ∧ wi_node_id item = node
    ∧ queue_type item = queue ∧ claimed item = false ∧ lease_fence item = 0 ∧ attempt item = 0;
  fs_now : started_at exec = now ∧ wi_created_at item = now;
}.

Section Rollover.
Context (parent : ExecutionId) (carried : MaterializedState) (wid wver : string) (n : Z)
  (node queue tenant : string).
Abbreviation new_id := (segment_execution_id parent n).
Abbreviation roll := (start_next_segment parent carried wid wver n node queue tenant).

Lemma roll_existing w e : view_execution (store w) new_id = Some e → roll w = (Ok new_id, w).
Proof.
  intros He. unfold start_next_segment.
  by rewrite (bind_run _ _ _ _ _ (law_get_execution _ w)), He.
Qed.

Lemma roll_fresh w :
  view_execution (store w) new_id = None →
  ∃ exec seed item, fresh_segment parent carried n node queue (clock w) exec seed item
    ∧ let started := EventKind.WorkflowStarted wid wver (mat_current_state carried)
        (run_initiator (view_log (store w) parent)) in
      let s := store w in let s' := store (roll w).2 in
      (roll w).1 = Ok new_id
      ∧ (∀ id, view_execution s' id =
           if decide (id = new_id) then Some exec else view_execution s id)
      ∧ (∀ i, view_items s' i = if decide (i = wi_id item) then Some item else view_items s i)
      ∧ (∀ id, view_snapshots s' id =
           if decide (id = new_id) then view_snapshots s id ++ [seed] else view_snapshots s id)
      ∧ (∀ id, id ≠ new_id → view_log s' id = view_log s id)
      ∧ ∃ e1 e2, view_log s' new_id = view_log s new_id ++ [e1; e2]
          ∧ event_kind e1 = started ∧ event_kind e2 = EventKind.NodeScheduled node queue.
Proof.
  intros Hnone.
  set (w1 := World (store w) (clock w) (N.succ (draws w))).
  set (w2 := World (store w) (clock w) (N.succ (N.succ (draws w)))).
  assert (∃ exec seed item, fresh_segment parent carried n node queue (clock w) exec seed item
    ∧ roll w = (create_segment_atomic exec seed
        (EventKind.WorkflowStarted wid wver (mat_current_state carried)
          (run_initiator (view_log (store w) parent)))
        (EventKind.NodeScheduled node queue) item ≫= λ _, mret new_id) w2)
    as (exec & seed & item & Hfs & Hroll).
  { unfold start_next_segment. rewrite (bind_run _ _ _ _ _ (law_get_execution _ w)), Hnone.
    rewrite bind_now. unfold seed_for_segment. cbv zeta.
    rewrite bind_assoc, bind_new_v4, bind_assoc, bind_now, bind_mret.
    rewrite (bind_run _ _ _ _ _ (law_get_events parent w1)), bind_new_v4.
    eexists _, _, _. split; [|reflexivity]. by constructor. }
  exists exec, seed, item. split; [done|]. cbv zeta. rewrite Hroll.
  match goal with |- context [create_segment_atomic ?a ?b ?c ?d ?e] =>
    destruct (create_segment_atomic a b c d e w2) as [r w'] eqn:Hrun end.
  destruct (law_create_segment _ _ _ _ _ _ _ _ Hrun) as (-> & He & Hi & Hs & Hl & Hown).
  rewrite (bind_run _ _ _ _ _ Hrun). rewrite (fs_id _ _ _ _ _ _ _ _ _ Hfs) in *.
  by split_and!.
Qed.

(** Rolling over to the next segment. A segment that exists is answered and
    nothing is written, so a retry after a crash cannot fork the run; otherwise
    the execution row, the seed snapshot of the carried state, the two first
    events and the first work item appear together, the parent, every other
    run's row and log and every other item stay as they were, and the run's
    initiator is the parent's. *)
Theorem rollover_correct (w : world S) :
  let s := store w in let s' := store (roll w).2 in
  (roll w).1 = Ok new_id
  ∧ roll (roll w).2 = (Ok new_id, (roll w).2)
  ∧ match view_execution s new_id with
    | Some _ => (roll w).2 = w
    | None => ∃ exec seed item e1 e2,
        fresh_segment parent carried n node queue (clock w) exec seed item
        ∧ view_execution s' new_id = Some exec
        ∧ view_items s' (wi_id item) = Some item
        ∧ view_snapshots s' new_id = view_snapshots s new_id ++ [seed]
        ∧ view_log s' new_id = view_log s new_id ++ [e1; e2]
        ∧ event_kind e1 = EventKind.WorkflowStarted wid wver (mat_current_state carried)
            (run_initiator (view_log s parent))
        ∧ event_kind e2 = EventKind.NodeScheduled node queue
        ∧ (∀ id, id ≠ new_id → view_execution s' id = view_execution s id
             ∧ view_log s' id = view_log s id ∧ view_snapshots s' id = view_snapshots s id)
        ∧ (∀ i, i ≠ wi_id item → view_items s' i = view_items s i)
    end.
Proof.
  intros s s'. subst s s'. destruct (view_execution (store w) new_id) as [e|] eqn:He.
  - pose proof (roll_existing w e He) as Hr. rewrite Hr. cbn [fst snd]. by rewrite Hr.
  - destruct (roll_fresh w He) as (exec & seed & item & Hfs & Hok & Hex & Hit & Hsn & Hlog
      & e1 & e2 & Hown & Hk1 & Hk2).
    split_and!; [done| |].
    + apply (roll_existing _ exec). by rewrite Hex, decide_True.
    + exists exec, seed, item, e1, e2. split_and!; try done.
      * by rewrite Hex, decide_True.
      * by rewrite Hit, decide_True.
      * by rewrite Hsn, decide_True.
      * intros id Hne. rewrite Hex, Hsn, !decide_False by done. auto.
      * intros i Hne. by rewrite Hit, decide_False.
Qed.

(** Rows other than the new one keep their chains. *)
Lemma chain_to_mono s s' id l :
  (∀ i e, view_execution s i = Some e → view_execution s' i = Some e) →
  chain_to s id l → chain_to s' id l.
Proof.
  intros Hm. induction 1 as [id e He Hp|id e p l He Hp _ IH];
    [by eapply chain_root; eauto|by eapply chain_next; eauto].
Qed.

(** A rollover extends its run. After rolling over, the new segment's chain
    is the parent's chain with the new segment at its end, and its own log names
    the initiator the parent's log names, so separation of duties faces the same
    person in every segment. *)
Theorem rollover_extends_run (w : world S) (l : list ExecutionId)
    (Hnew : view_execution (store w) new_id = None)
    (Hlog : view_log (store w) new_id = [])
    (Hchain : segment_chain parent w = (Ok l, w))
    (Hlen : Z.of_nat (length l) < SEGMENT_CHAIN_MAX_DEPTH) :
  let w' := (roll w).2 in
  segment_chain new_id w' = (Ok (l ++ [new_id]), w')
  ∧ run_initiator (view_log (store w') new_id) = run_initiator (view_log (store w) parent).
Proof.
  intros w'. subst w'.
  destruct (roll_fresh w Hnew) as (exec & seed & item & Hfs & Hok & Hex & _ & _ & _
    & e1 & e2 & Hown & Hk1 & _).
  split.
  2:{ rewrite Hown, Hlog. simpl. by rewrite Hk1. }
  set (max := Z.to_nat SEGMENT_CHAIN_MAX_DEPTH).
  assert (length l < max)%nat as Hlen' by (unfold max; lia).
  unfold segment_chain in *. fold max in Hchain |- *. clearbody max. clear Hlen.
  pose proof (chain_loop_spec max [] parent w) as Hp.
  unfold mbind, eff_bind in Hchain.
  destruct (chain_loop max [] parent w) as [[lp|err] wp]; [|done]. injection Hchain as <- ->.
  destruct Hp as (_ & l' & Hl' & -> & _). rewrite reverse_chain in *.
  assert (chain_to (store (roll w).2) new_id (l' ++ [new_id])) as Hnewchain.
  { eapply chain_next; [by rewrite Hex, decide_True|apply Hfs|].
    eapply chain_to_mono; [|exact Hl']. intros i e Hi. rewrite Hex, decide_False; [done|].
    intros ->. congruence. }
  pose proof (chain_loop_spec max [] new_id (roll w).2) as Hn.
  unfold mbind, eff_bind.
  destruct (chain_loop max [] new_id (roll w).2) as [[ln|err] wn].
  - destruct Hn as (-> & l'' & Hl'' & -> & _).
    rewrite (chain_to_inj _ _ _ _ Hl'' Hnewchain). unfold mret, eff_ret. by rewrite reverse_chain.
  - destruct err; try done.
    + destruct Hn as (_ & n' & _ & Hb). by destruct (chain_to_unbroken _ _ _ n' Hnewchain).
    + destruct Hn as [_ Ha]. exfalso.
      apply (ancestor_le _ max (length (l' ++ [new_id])) _) in Ha;
        [|rewrite length_app; simpl; lia].
      by apply Ha, chain_to_end.
Qed.
End Rollover.
End Segment.

(** ** A concrete chain *)

Module SegmentSample.
#[local] Existing Instances plain_uuid milli_chrono code_json plain_sha256.
#[local] Existing Instances Sample.order_exec Sample.order_item Sample.order_tenant
  Sample.order_pair.

Definition root : ExecutionId := mkExecutionId 7.
Definition root_run : WorkflowExecution := {|
  execution_id := root; workflow_id := "w"; workflow_version := "1.0.0";
  status := WorkflowStatus.Running; initial_input := Object []; current_state := Object [];
  started_at := 0; updated_at := 0; completed_at := None; session_type := None;
  parent_execution_id := None; segment_number := 0 |}.
Definition started : world InMemoryBackend := (run_ops
  [OpStart root_run (EventKind.WorkflowStarted "w" "1.0.0" (Object []) (Some "ann"))
     (EventKind.NodeScheduled "a" "tool") Sample.item] start_world).2.

Lemma segment_chain_witness :
  (segment_chain root started).2 = started ∧ (segment_chain root started).1 = Ok [root].
Proof.
  split; [exact (proj1 (segment_chain_correct root started))|].
  refine (proj2 (proj1 (proj2 (segment_chain_correct root started)) [root]) _).
  split; [|unfold SEGMENT_CHAIN_MAX_DEPTH; simpl length; lia]. by apply (chain_root _ _ root_run).
Defined.

Lemma rollover_witness :
  (start_next_segment root (origin (Object [])) "w" "1.0.0" 1 "a" "tool" "default" started).1
  = Ok (segment_execution_id root 1).
Proof.
  exact (proj1 (rollover_correct root (origin (Object [])) "w" "1.0.0" 1 "a" "tool" "default"
    started)).
Defined.

Lemma rollover_extends_witness :
  let w' := (start_next_segment root (origin (Object [])) "w" "1.0.0" 1 "a" "tool" "default"
    started).2 in
  segment_chain (segment_execution_id root 1) w' = (Ok [root; segment_execution_id root 1], w')
  ∧ run_initiator (view_log (store w') (segment_execution_id root 1)) = Some "ann".
Proof.
  refine (rollover_extends_run root (origin (Object [])) "w" "1.0.0" 1 "a" "tool" "default"
    started [root] _ _ _ _).
  - vm_compute. reflexivity.
  - vm_compute. reflexivity.
  - vm_compute. reflexivity.
  - reflexivity.
Defined.
End SegmentSample.

