(* ===== verification/Progress.v ===== *)
(** * Scheduling progress ([scheduler/src/runner.rs]: [ExecProgress], [edge_dead],
    [is_runnable] and the skip rule)

    What the scheduler knows of a run, folded from its log, and the pure
    decisions it takes from it: which nodes can run and which never will. *)

From S2P Require Import Prelude.
From S2P Require Import Json.
From S2P Require Import RustStr.
From S2P Require Import Core.
From S2P Require Import Condition.
From S2P Require Import Ir.
From S2P Require Import Event.
From S2P Require Import Materializer.
From S2P Require Import Approvals.

Record ExecProgress := mkExecProgress {
  completed : gset string;
  scheduled : gset string;
  terminal_failed : gset string;
  final_state : Map;
  pr_last_sequence : EventSequence;
  held : gset string;
  held_request : gmap string EventSequence;
  deadline_requests : gset string;
  unreadable : bool;
  stall_recorded : bool;
  rejected : gmap string string;
  routes : gmap string string;
  skipped : gset string;
}.

Definition ExecProgress_default : ExecProgress :=
  mkExecProgress ∅ ∅ ∅ [] 0 ∅ ∅ ∅ false false ∅ ∅ ∅.

(** ** Field updates *)

Definition set_completed x '(mkExecProgress _ sc tf fs ls he hr dr un st re ro sk) :=
  mkExecProgress x sc tf fs ls he hr dr un st re ro sk.
Definition set_scheduled x '(mkExecProgress co _ tf fs ls he hr dr un st re ro sk) :=
  mkExecProgress co x tf fs ls he hr dr un st re ro sk.
Definition set_terminal_failed x '(mkExecProgress co sc _ fs ls he hr dr un st re ro sk) :=
  mkExecProgress co sc x fs ls he hr dr un st re ro sk.
Definition set_final_state x '(mkExecProgress co sc tf _ ls he hr dr un st re ro sk) :=
  mkExecProgress co sc tf x ls he hr dr un st re ro sk.
Definition set_pr_last_sequence x '(mkExecProgress co sc tf fs _ he hr dr un st re ro sk) :=
  mkExecProgress co sc tf fs x he hr dr un st re ro sk.
Definition set_held x '(mkExecProgress co sc tf fs ls _ hr dr un st re ro sk) :=
  mkExecProgress co sc tf fs ls x hr dr un st re ro sk.
Definition set_held_request x '(mkExecProgress co sc tf fs ls he _ dr un st re ro sk) :=
  mkExecProgress co sc tf fs ls he x dr un st re ro sk.
Definition set_deadline_requests x '(mkExecProgress co sc tf fs ls he hr _ un st re ro sk) :=
  mkExecProgress co sc tf fs ls he hr x un st re ro sk.
Definition set_unreadable x '(mkExecProgress co sc tf fs ls he hr dr _ st re ro sk) :=
  mkExecProgress co sc tf fs ls he hr dr x st re ro sk.
Definition set_stall_recorded x '(mkExecProgress co sc tf fs ls he hr dr un _ re ro sk) :=
  mkExecProgress co sc tf fs ls he hr dr un x re ro sk.
Definition set_rejected x '(mkExecProgress co sc tf fs ls he hr dr un st _ ro sk) :=
  mkExecProgress co sc tf fs ls he hr dr un st x ro sk.
Definition set_routes x '(mkExecProgress co sc tf fs ls he hr dr un st re _ sk) :=
  mkExecProgress co sc tf fs ls he hr dr un st re x sk.
Definition set_skipped x '(mkExecProgress co sc tf fs ls he hr dr un st re ro _) :=
  mkExecProgress co sc tf fs ls he hr dr un st re ro x.

(** [insert] and [remove] on the sets. *)
Definition complete n p := set_completed ({[n]} ∪ completed p) p.
Definition unschedule n p := set_scheduled (scheduled p ∖ {[n]}) p.
Definition unhold n p := set_held (held p ∖ {[n]}) p.
Definition unreject n p := set_rejected (delete n (rejected p)) p.
(** A node that reached a terminal outcome never goes back to [scheduled]. *)
Definition schedule n p :=
  if decide (n ∉ completed p ∧ n ∉ terminal_failed p)
  then set_scheduled ({[n]} ∪ scheduled p) p else p.
Definition merge_state (patch : Map) p :=
  set_final_state (foldl (λ m kv, map_insert kv.1 kv.2 m) (final_state p) patch) p.

Section Apply.
Context `{ChronoOps}.

(** [ExecProgress::apply]. *)
Definition apply_kind (p : ExecProgress) (event : Event) : ExecProgress :=
  match event_kind event with
  | EventKind.NodeCompleted node_id output state_patch _ _ _ _ _ _ _ _ _ =>
      let p := unhold node_id (unschedule node_id (complete node_id p)) in
      let p := match get "chosen_target" output ≫= as_str with
               | Some target => set_routes (<[node_id := target]> (routes p)) p
               | None => p
               end in
      match state_patch with Object patch => merge_state patch p | _ => p end
  | EventKind.NodeSkipped node_id _ =>
      let p := complete node_id p in
      let p := set_skipped ({[node_id]} ∪ skipped p) p in
      unhold node_id (unschedule node_id p)
  | EventKind.NodeScheduled node_id _ | EventKind.NodeStarted node_id _ _ => schedule node_id p
  | EventKind.NodeCancelled node_id =>
      unreject node_id (unhold node_id (unschedule node_id (complete node_id p)))
  | EventKind.NodeFailed node_id _ _ false =>
      let p := set_terminal_failed ({[node_id]} ∪ terminal_failed p) p in
      unhold node_id (unreject node_id (unschedule node_id p))
  | EventKind.NodeFailed node_id _ _ true => unschedule node_id p
  | EventKind.RetryScheduled node_id _ _ => schedule node_id p
  | EventKind.NodeParked _ _ _ => p
  | EventKind.ToolApprovalRequired node_id _ _ context =>
      let p := set_held ({[node_id]} ∪ held p) p in
      let p := set_held_request (<[node_id := sequence event]> (held_request p)) p in
      if existsb (λ k, if get k context then true else false) [EXPIRES_AT_KEY; ESCALATE_AT_KEY]
      then set_deadline_requests ({[node_id]} ∪ deadline_requests p) p
      else set_deadline_requests (deadline_requests p ∖ {[node_id]}) p
  | EventKind.ApprovalReceived node_id user_id decision comment _ _ _ _ =>
      if decide (node_id ∈ held p) then
        let p := unhold node_id p in
        match decision with
        | Approved => unschedule node_id p
        | Rejected =>
            let reason := "approval rejected by " +:+ user_id +:+
              match comment with Some c => ": " +:+ c | None => "" end in
            set_rejected (<[node_id := reason]> (rejected p)) p
        end
      else p
  | EventKind.Unknown => set_unreadable true p
  | EventKind.RunStalled _ => set_stall_recorded true p
  | EventKind.ApprovalExpired node_id request_sequence expires_at principal =>
      if decide (held_request p !! node_id = Some request_sequence ∧ node_id ∈ held p) then
        set_rejected (<[node_id := "approval rejected by " +:+ principal +:+ ": "
                                   +:+ expiry_comment expires_at]> (rejected p)) (unhold node_id p)
      else p
  | EventKind.WorkflowStarted _ _ (Object input) _ => merge_state input p
  | _ => p
  end.

Definition apply (p : ExecProgress) (event : Event) : ExecProgress :=
  let p := apply_kind p event in
  set_pr_last_sequence (Z.max (pr_last_sequence p) (sequence event)) p.

Definition apply_all (p : ExecProgress) (events : list Event) : ExecProgress :=
  foldl apply p events.
End Apply.

(** ** Decisions *)

Section Decisions.
Context (ir : WorkflowIr).

(** [NodeKind::Condition { branches }] with non-empty branches. *)
Definition routing_condition (node : NodeDef) : bool :=
  match kind node with NodeKind.Condition branches => negb (bool_decide (branches = [])) | _ => false end.

Definition edge_dead (src dst : string) (completed skipped : gset string)
    (routes : gmap string string) : bool :=
  if decide (src ∈ skipped) then true
  else match nodes ir !! src with
  | Some node =>
      if routing_condition node && bool_decide (src ∈ completed)
      then negb (bool_decide (routes !! src = Some dst)) else false
  | None => false
  end.

Definition in_edges (n : string) : list EdgeDef := base.filter (λ e, to e = n) (edges ir).

(** The body of [is_runnable]'s loop: has an in-edge, has a live one, every live
    one's source is done. *)
Definition runnable_step (n : string) (completed skipped : gset string)
    (routes : gmap string string) (acc : bool * bool * bool) (e : EdgeDef) : bool * bool * bool :=
  let '(has_in_edge, has_live_edge, all_live_sources_done) := acc in
  if edge_dead (from e) n completed skipped routes
  then (true, has_live_edge, all_live_sources_done)
  else (true, true, all_live_sources_done && bool_decide (from e ∈ completed)).

Definition is_runnable (n : string) (completed scheduled skipped : gset string)
    (routes : gmap string string) : bool :=
  if decide (n ∈ scheduled ∨ n ∈ completed ∨ n ∈ skipped) then false
  else
    let '(has_in_edge, has_live_edge, all_live_sources_done) :=
      foldl (runnable_step n completed skipped routes) (false, false, true) (in_edges n) in
    if negb has_in_edge then true else has_live_edge && all_live_sources_done.

(** Already resolved, for the skip rule. *)
Definition resolved (p : ExecProgress) (n : string) : Prop :=
  n ∈ completed p ∨ n ∈ scheduled p ∨ n ∈ skipped p ∨ n ∈ terminal_failed p.
#[export] Instance resolved_dec p n : Decision (resolved p n).
Proof. unfold resolved. apply _. Defined.

Definition edge_dead_in (p : ExecProgress) (n : string) (e : EdgeDef) : bool :=
  edge_dead (from e) n (completed p) (skipped p) (routes p).

(** One node's turn of the skip pass: unresolved, with in-edges, all dead. *)
Definition skippable (p : ExecProgress) (n : string) : bool :=
  negb (bool_decide (resolved p n))
  && negb (bool_decide (in_edges n = [])) && forallb (edge_dead_in p n) (in_edges n).

(** The pass: the skippable nodes, sorted. *)
Definition newly_skippable `{!IterOrder string} (p : ExecProgress) : list string :=
  merge_sort String.le (base.filter (λ n, skippable p n = true) (iter_map (nodes ir)).*1).
End Decisions.

(** ** The fold *)

Section FoldLemmas.
Context `{ChronoOps}.

Lemma apply_all_app p l1 l2 : apply_all p (l1 ++ l2) = apply_all (apply_all p l1) l2.
Proof. apply foldl_app. Qed.

(** Which node an event resolves for good, and how. *)
Definition completes (n : string) (ev : Event) : bool :=
  match event_kind ev with
  | EventKind.NodeCompleted m _ _ _ _ _ _ _ _ _ _ _ | EventKind.NodeSkipped m _
  | EventKind.NodeCancelled m => bool_decide (m = n)
  | _ => false
  end.
Definition skips (n : string) (ev : Event) : bool :=
  match event_kind ev with EventKind.NodeSkipped m _ => bool_decide (m = n) | _ => false end.
Definition fails (n : string) (ev : Event) : bool :=
  match event_kind ev with
  | EventKind.NodeFailed m _ _ false => bool_decide (m = n) | _ => false
  end.
Definition stalls (ev : Event) : bool :=
  match event_kind ev with EventKind.RunStalled _ => true | _ => false end.

(** One event's effect on each set that only grows. *)
Lemma apply_grows p ev n :
  (n ∈ completed (apply p ev) ↔ n ∈ completed p ∨ completes n ev = true)
  ∧ (n ∈ skipped (apply p ev) ↔ n ∈ skipped p ∨ skips n ev = true)
  ∧ (n ∈ terminal_failed (apply p ev) ↔ n ∈ terminal_failed p ∨ fails n ev = true)
  ∧ unreadable (apply p ev) = unreadable p || is_unknown ev
  ∧ stall_recorded (apply p ev) = stall_recorded p || stalls ev
  ∧ pr_last_sequence (apply p ev) = Z.max (pr_last_sequence p) (sequence ev).
Proof.
  destruct p as [co sc tf fs ls he hr dr un st re ro sk], ev as [eid xid sq k at_].
  unfold apply, apply_kind, completes, skips, fails, stalls, is_unknown, merge_state, schedule.
  destruct k; simpl; repeat case_match; simplify_eq/=;
    rewrite ?orb_true_r, ?orb_false_r, ?bool_decide_eq_true; split_and!;
    first [done | by split; [left|intros [?|?]] | set_solver].
Qed.

Lemma apply_all_grows l p n :
  (n ∈ completed (apply_all p l) ↔ n ∈ completed p ∨ existsb (completes n) l = true)
  ∧ (n ∈ skipped (apply_all p l) ↔ n ∈ skipped p ∨ existsb (skips n) l = true)
  ∧ (n ∈ terminal_failed (apply_all p l) ↔ n ∈ terminal_failed p ∨ existsb (fails n) l = true)
  ∧ unreadable (apply_all p l) = unreadable p || existsb is_unknown l
  ∧ stall_recorded (apply_all p l) = stall_recorded p || existsb stalls l
  ∧ pr_last_sequence (apply_all p l) = foldl Z.max (pr_last_sequence p) (sequence <$> l).
Proof.
  revert p; induction l as [|ev l IH]; intros p; simpl.
  - rewrite !orb_false_r. intuition congruence.
  - specialize (IH (apply p ev)) as (-> & -> & -> & -> & -> & ->).
    destruct (apply_grows p ev n) as (-> & -> & -> & -> & -> & ->).
    rewrite !orb_true_iff, !orb_assoc. tauto.
Qed.

(** A node in flight is neither done nor failed for good; a skipped one is done. *)
Definition progress_wf (p : ExecProgress) : Prop :=
  scheduled p ## completed p ∧ scheduled p ## terminal_failed p ∧ skipped p ⊆ completed p.

Lemma apply_wf p ev : progress_wf p → progress_wf (apply p ev).
Proof.
  destruct p as [co sc tf fs ls he hr dr un st re ro sk], ev as [eid xid sq k at_].
  unfold progress_wf, apply, apply_kind, merge_state, schedule. intros (Hc & Hf & Hs). simpl in *.
  destruct k; simpl; repeat case_match; simplify_eq/=; split_and!;
    first [done | set_solver].
Qed.

Lemma apply_all_wf p l : progress_wf p → progress_wf (apply_all p l).
Proof. revert p; induction l as [|ev l IH]; intros p Hp; simpl; [done|by apply IH, apply_wf]. Qed.
End FoldLemmas.

(** ** The skip rule *)

Section SkipLemmas.
Context `{ChronoOps} (ir : WorkflowIr).

(** [p'] is [p] with the nodes of [S] skipped. *)
Record skips_added (p : ExecProgress) (S : gset string) (p' : ExecProgress) : Prop := {
  sa_completed : completed p' = completed p ∪ S;
  sa_skipped : skipped p' = skipped p ∪ S;
  sa_scheduled : scheduled p' = scheduled p ∖ S;
  sa_failed : terminal_failed p' = terminal_failed p;
  sa_routes : routes p' = routes p;
}.

Lemma skips_added_refl p : skips_added p ∅ p.
Proof.
  constructor; [by rewrite (right_id_L ∅ _)|by rewrite (right_id_L ∅ _)
    |by rewrite difference_empty_L|done..].
Qed.
Lemma skips_added_trans p S p' S' p'' :
  skips_added p S p' → skips_added p' S' p'' → skips_added p (S ∪ S') p''.
Proof.
  intros [Hc Hs Hsc Hf Hr] [Hc' Hs' Hsc' Hf' Hr']. constructor; [| | |congruence..].
  - by rewrite Hc', Hc, (assoc_L _).
  - by rewrite Hs', Hs, (assoc_L _).
  - by rewrite Hsc', Hsc, difference_difference_l_L.
Qed.

Lemma apply_skip p ev n r :
  event_kind ev = EventKind.NodeSkipped n r → skips_added p {[n]} (apply p ev).
Proof.
  intros Hk. destruct p. unfold apply, apply_kind. rewrite Hk.
  constructor; simpl; try done; apply (comm_L _).
Qed.

Lemma edge_dead_in_iff p n e :
  edge_dead_in ir p n e = true ↔
  from e ∈ skipped p
  ∨ ∃ node, nodes ir !! from e = Some node ∧ routing_condition node = true
      ∧ from e ∈ completed p ∧ routes p !! from e ≠ Some n.
Proof.
  unfold edge_dead_in, edge_dead. case_decide as Hs; [tauto|].
  destruct (nodes ir !! from e) as [node|]; [|naive_solver].
  destruct (routing_condition node) eqn:Hr; simpl.
  - case_bool_decide as Hc; simpl.
    + rewrite negb_true_iff, bool_decide_eq_false. naive_solver.
    + split; [done|]. naive_solver.
  - split; [done|]. intros [?|(? & [= <-] & ? & ?)]; congruence.
Qed.

(** The nodes that can never run: unresolved, and every in-edge is dead already
    or comes from such a node. *)
Inductive doomed (p : ExecProgress) : string → Prop :=
| doomed_node n :
    n ∈ dom (nodes ir) → ¬ resolved p n → in_edges ir n ≠ [] →
    (∀ e, e ∈ in_edges ir n → edge_dead_in ir p n e = true ∨ doomed p (from e)) →
    doomed p n.

Lemma skippable_iff p n :
  skippable ir p n = true ↔
  ¬ resolved p n ∧ in_edges ir n ≠ [] ∧ ∀ e, e ∈ in_edges ir n → edge_dead_in ir p n e = true.
Proof.
  unfold skippable. rewrite !andb_true_iff, !negb_true_iff, !bool_decide_eq_false, forallb_forall.
  setoid_rewrite <- list_elem_of_In. tauto.
Qed.

Context `{!IterOrder string}.

Lemma newly_skippable_elem p n :
  n ∈ newly_skippable ir p ↔ n ∈ dom (nodes ir) ∧ skippable ir p n = true.
Proof.
  unfold newly_skippable. rewrite merge_sort_Permutation, list_elem_of_filter.
  rewrite list_elem_of_fmap, elem_of_dom. split.
  - intros (Hs & [k v] & -> & Hin%iter_map_elem). eauto.
  - intros [[v Hv] Hs]. split; [done|]. exists (n, v). by rewrite iter_map_elem.
Qed.

(** Where [p'] is [p] with doomed nodes skipped, a node the next pass skips is
    doomed in [p] as well. *)
Lemma newly_skippable_doomed p S p' n :
  skips_added p S p' → (∀ m, m ∈ S → doomed p m) → n ∈ newly_skippable ir p' → doomed p n.
Proof.
  intros Hsa HS [Hdom Hsk]%newly_skippable_elem. apply skippable_iff in Hsk as (Hr & Hne & Hd).
  destruct Hsa as [Hc Hs Hsc Hf Hro]. unfold resolved in Hr. rewrite Hc, Hs, Hsc, Hf in Hr.
  constructor; [done| |done|].
  - unfold resolved. set_solver.
  - intros e He. specialize (Hd e He). apply edge_dead_in_iff in Hd.
    rewrite edge_dead_in_iff. rewrite Hs, Hc, Hro in Hd.
    destruct Hd as [[?|?]%elem_of_union|(node & Hn & Hrc & [?|?]%elem_of_union & Hrt)]; eauto 10.
Qed.

(** At a fixpoint every doomed node has been skipped. *)
Lemma doomed_skipped p S p' n :
  skips_added p S p' → newly_skippable ir p' = [] → doomed p n → n ∈ skipped p'.
Proof.
  intros Hsa Hfix. pose proof Hsa as [Hc Hs Hsc Hf Hro].
  revert n. fix IH 2. intros n [n' Hdom Hr Hne Hd].
  destruct (decide (n' ∈ S)) as [Hin|Hnin]; [set_solver|]. exfalso.
  assert (n' ∈ newly_skippable ir p') as Hnew; [|rewrite Hfix in Hnew; set_solver].
  apply newly_skippable_elem. split; [done|]. apply skippable_iff. split_and!; [|done|].
  - unfold resolved in *. rewrite Hc, Hs, Hsc, Hf. set_solver.
  - intros e He. apply edge_dead_in_iff. destruct (Hd e He) as [Hde|Hdoom].
    + apply edge_dead_in_iff in Hde as [?|(node & ? & ? & ? & ?)]; [left; set_solver|].
      right. exists node. rewrite Hc, Hro. split_and!; try done. set_solver.
    + left. by apply IH.
Qed.

(** Each pass that skips something leaves fewer nodes to skip. *)
Definition unskipped (p : ExecProgress) : gset string := dom (nodes ir) ∖ skipped p.

Lemma unskipped_shrinks p p' n :
  n ∈ newly_skippable ir p → skips_added p (list_to_set (newly_skippable ir p)) p' →
  (size (unskipped p') < size (unskipped p))%nat.
Proof.
  intros Hn [_ Hs _ _ _]. apply subset_size. unfold unskipped. rewrite Hs.
  pose proof Hn as [Hdom Hsk]%newly_skippable_elem.
  apply skippable_iff in Hsk as (Hr & _ & _). unfold resolved in Hr.
  assert (n ∈ (list_to_set (newly_skippable ir p) : gset string)) by by apply elem_of_list_to_set.
  set_solver.
Qed.
End SkipLemmas.

(** ** Properties *)

Section Properties.
Context `{ChronoOps}.

(** What the fold of a log says of a node, whatever the order of its
    events. Done, skipped and failed for good are exactly what the log records,
    and stay so; a node that is done or has failed for good is never in flight
    again, even when a start or a retry is recorded after it; an event kind this
    build cannot read and a recorded stall are never forgotten. *)
Theorem progress_fold_correct (log : list Event) (n : string) :
  let p := apply_all ExecProgress_default log in
  (n ∈ completed p ↔ ∃ ev, ev ∈ log ∧ completes n ev = true)
  ∧ (n ∈ skipped p ↔ ∃ ev, ev ∈ log ∧ skips n ev = true)
  ∧ (n ∈ terminal_failed p ↔ ∃ ev, ev ∈ log ∧ fails n ev = true)
  ∧ (n ∈ scheduled p → n ∉ completed p ∧ n ∉ terminal_failed p)
  ∧ (unreadable p = true ↔ ∃ ev, ev ∈ log ∧ event_kind ev = EventKind.Unknown)
  ∧ pr_last_sequence p = foldl Z.max 0 (sequence <$> log).
Proof.
  intros p.
  assert (∀ f : Event → bool, existsb f log = true ↔ ∃ ev, ev ∈ log ∧ f ev = true) as Hex.
  { intros f. rewrite existsb_exists. by setoid_rewrite list_elem_of_In. }
  destruct (apply_all_grows log ExecProgress_default n) as (Hc & Hs & Hf & Hu & _ & Hl).
  fold p in Hc, Hs, Hf, Hu, Hl. rewrite Hc, Hs, Hf, Hu, Hl. rewrite <- !Hex.
  assert (∀ P : Prop, n ∈ (∅ : gset string) ∨ P ↔ P) as Hor by set_solver.
  split_and!; [apply Hor|apply Hor|apply Hor| | |done].
  - intros Hin. destruct (apply_all_wf ExecProgress_default log) as (Hd1 & Hd2 & _);
      [split_and!; set_solver|]. fold p in Hd1, Hd2. rewrite <- Hc, <- Hf.
    rewrite elem_of_disjoint in Hd1, Hd2. split; intros Hco; by eauto.
  - simpl. rewrite Hex. split; intros (ev & Hev & Hk); exists ev; (split; [done|]);
      unfold is_unknown in *; by destruct (event_kind ev).
Qed.

(** What comes after the progress of a prefix is the rest of the log. *)
Lemma events_since_prefix (seen new : list Event) :
  log_sorted (seen ++ new) → (∀ ev, ev ∈ seen ++ new → 0 < sequence ev) →
  events_after (pr_last_sequence (apply_all ExecProgress_default seen)) (seen ++ new) = new.
Proof.
  intros Hsorted Hpos.
  destruct (apply_all_grows seen ExecProgress_default "") as (_ & _ & _ & _ & _ & ->).
  apply log_sorted_app in Hsorted as (_ & _ & Hlt).
  rewrite events_after_app, events_after_none, events_after_all; [done| |].
  - intros ev Hev. simpl.
    assert (foldl Z.max 0 (sequence <$> seen) ≤ sequence ev - 1); [|lia].
    apply foldl_max_le.
    + assert (0 < sequence ev); [apply Hpos, elem_of_app; by right|lia].
    + intros y (e & -> & He)%list_elem_of_fmap. specialize (Hlt e ev He Hev). lia.
  - intros ev Hev. by apply foldl_max_elem, list_elem_of_fmap_2.
Qed.

(** A tick folds the new events only, and loses nothing. Over a log whose
    sequences grow, folding what comes after the last folded sequence onto the
    progress of a prefix is folding the whole log. *)
Theorem incremental_fold (seen new : list Event)
    (Hsorted : log_sorted (seen ++ new))
    (Hpos : ∀ ev, ev ∈ seen ++ new → 0 < sequence ev) :
  let p := apply_all ExecProgress_default seen in
  apply_all p (events_after (pr_last_sequence p) (seen ++ new))
  = apply_all ExecProgress_default (seen ++ new).
Proof. intros p. subst p. by rewrite apply_all_app, events_since_prefix. Qed.

(** The loop of [is_runnable] over any edges. *)
Lemma runnable_loop ir n co sk ro es acc :
  foldl (runnable_step ir n co sk ro) acc es =
  (acc.1.1 || negb (bool_decide (es = [])),
   acc.1.2 || existsb (λ e, negb (edge_dead ir (from e) n co sk ro)) es,
   acc.2 && forallb (λ e, edge_dead ir (from e) n co sk ro || bool_decide (from e ∈ co)) es).
Proof.
  revert acc; induction es as [|e es IH]; intros [[a b] c]; simpl.
  - by rewrite !orb_false_r, andb_true_r.
  - rewrite IH. unfold runnable_step.
    destruct (edge_dead ir (from e) n co sk ro); simpl;
      destruct a, b, c; simpl; rewrite ?orb_true_r, ?andb_false_r; done.
Qed.

(** When a node may run. It has not been resolved, and it is a root or has
    a live in-edge and every live in-edge comes from a node that is done; an
    edge is dead when its source was skipped or is a routing condition that is
    done and did not choose it. *)
Theorem is_runnable_correct (ir : WorkflowIr) (p : ExecProgress) (n : string) :
  is_runnable ir n (completed p) (scheduled p) (skipped p) (routes p) = true ↔
  (n ∉ scheduled p ∧ n ∉ completed p ∧ n ∉ skipped p)
  ∧ ((∀ e, e ∈ edges ir → to e ≠ n)
     ∨ let live e := e ∈ edges ir ∧ to e = n ∧ from e ∉ skipped p
         ∧ (∀ node, nodes ir !! from e = Some node → routing_condition node = true →
              from e ∈ completed p → routes p !! from e = Some n) in
       (∃ e, live e) ∧ ∀ e, live e → from e ∈ completed p).
Proof.
  assert (∀ e, e ∈ in_edges ir n ↔ e ∈ edges ir ∧ to e = n) as Hin.
  { intros e. unfold in_edges. rewrite list_elem_of_filter. tauto. }
  assert (∀ e, edge_dead_in ir p n e = false ↔ from e ∉ skipped p
    ∧ ∀ node, nodes ir !! from e = Some node → routing_condition node = true →
              from e ∈ completed p → routes p !! from e = Some n) as Hlive.
  { intros e. rewrite <- not_true_iff_false, edge_dead_in_iff. split.
    - intros Hno. split; [tauto|]. intros node Hn Hr Hc.
      destruct (decide (routes p !! from e = Some n)); [done|]. destruct Hno. eauto 10.
    - intros [Hs Hall] [?|(node & ? & ? & ? & Hne)]; [done|]. by destruct Hne; eapply Hall. }
  unfold is_runnable. rewrite runnable_loop. case_decide as Hres; [split; [done|tauto]|].
  simpl. rewrite negb_involutive. case_bool_decide as Hnil.
  - split; [|done]. intros _. split; [tauto|]. left. intros e He Hto.
    assert (e ∈ in_edges ir n) as Hbad by by apply Hin. rewrite Hnil in Hbad. set_solver.
  - rewrite andb_true_iff, existsb_exists, forallb_forall. setoid_rewrite <- list_elem_of_In.
    setoid_rewrite Hin. fold (edge_dead_in ir p n). split.
    + intros [(e & He & Hl) Hall]. split; [tauto|]. right. split.
      * exists e. apply negb_true_iff, Hlive in Hl. tauto.
      * intros e' (He' & Hto' & Hl'). specialize (Hall e' (conj He' Hto')).
        apply Hlive in Hl'. unfold edge_dead_in in Hl'. rewrite Hl' in Hall. simpl in Hall.
        by apply bool_decide_eq_true in Hall.
    + intros [_ [Hno|[(e & He & Hto & Hl) Hall]]].
      { case_eq (in_edges ir n); [done|]. intros e l Hl.
        assert (e ∈ in_edges ir n) as [He Hto]%Hin by (rewrite Hl; left). by destruct (Hno e He). }
      split.
      * exists e. split; [done|]. by apply negb_true_iff, Hlive.
      * intros e' [He' Hto']. destruct (edge_dead ir (from e') n _ _ _) eqn:Hd; [done|]. simpl.
        apply bool_decide_eq_true, Hall. split_and!; [done|done|by apply Hlive..].
Qed.
End Properties.
