(* ===== verification/Scheduler.v ===== *)
(** * The scheduler ([scheduler/src/runner.rs], [scheduler/src/payload.rs])

    One tick: reclaim expired leases, then, for each running execution, fold its
    new events, expire and escalate approvals, fail rejected nodes, skip dead
    branches, dispatch what can run, and finish what is done. Written against
    the storage interface; the caches are the scheduler's own state. A tick is
    one sequence of backend calls, with no call of another component between
    them; the clock stands still during it. *)

From S2P Require Import Prelude.
From S2P Require Import Json.
From S2P Require Import RustStr.
From S2P Require Import Core.
From S2P Require Import Condition.
From S2P Require Import Ir.
From S2P Require Import Event.
From S2P Require Import Materializer.
From S2P Require Import Hashing.
From S2P Require Import Approvals.
From S2P Require Import Budget.
From S2P Require Import Backend.
From S2P Require Import Journal.
From S2P Require Import Memory.
From S2P Require Import Progress.

(** ** Payloads ([payload.rs]) *)

Section Payload.
Definition branch_value (b : ConditionalBranch) : Value :=
  obj [("condition", opt_val Str (condition b)); ("target", Str (target b))].

Definition model_config_id (cfg : ModelConfig) : string :=
  if str_is_empty (provider cfg) then model cfg else provider cfg +:+ "/" +:+ model cfg.

Definition insert_opt (k : string) (v : option Value) (m : Map) : Map :=
  match v with Some v => map_insert k v m | None => m end.

Definition build_work_item_payload (ir : WorkflowIr) (node_id : string) (node : NodeDef)
    (state : Map) (workflow_id workflow_version : string) : Value :=
  let base := map_of [("workflow_id", Str workflow_id);
                      ("workflow_version", Str workflow_version); ("node_id", Str node_id)] in
  Object match kind node with
  | NodeKind.PythonFn module function _ _ =>
      let m := map_insert "module" (Str module) base in
      let m := map_insert "function" (Str function) m in
      map_insert "input" (Object state) m
  | NodeKind.JavaFn class_name method _ _ =>
      let m := map_insert "class" (Str class_name) base in
      let m := map_insert "method" (Str method) m in
      map_insert "input" (Object state) m
  | NodeKind.ExternalFn _ handler _ =>
      let m := map_insert "handler" (Str handler) base in
      map_insert "input" (Object state) m
  | NodeKind.Model model_ref _ _ system_prompt tools =>
      let cfg := models ir !! model_ref in
      let model_id := match cfg with Some cfg => model_config_id cfg | None => model_ref end in
      let m := map_insert "model" (Str model_id) base in
      let m := match cfg with
               | Some cfg =>
                   let m := insert_opt "temperature" (f64_to_value <$> temperature cfg) m in
                   insert_opt "max_tokens" (num <$> max_tokens cfg) m
               | None => m
               end in
      let m := insert_opt "system_prompt" (Str <$> system_prompt) m in
      let m := if decide (tools = []) then m else map_insert "tools" (Array tools) m in
      insert_opt "messages" (map_get "messages" state) m
  | NodeKind.Condition branches =>
      if decide (branches = []) then base
      else
        let m := map_insert "branches" (Array (branch_value <$> branches)) base in
        map_insert "state" (Object state) m
  | _ => base
  end.

Definition max_attempts_for (retry_policy : option string) : Z :=
  match retry_policy with
  | Some p => if decide (p = "no_retry") then 1 else if decide (p = "io_default") then 5 else 3
  | None => 3
  end.
End Payload.

(** ** Configuration and state *)

Record SchedulerConfig := {
  poll_interval : Z;
  max_concurrent_nodes_per_execution : Z;
  max_dispatch_per_tick : Z;
}.
Definition SchedulerConfig_default : SchedulerConfig := {|
  poll_interval := 500 * 1000000; max_concurrent_nodes_per_execution := 16;
  max_dispatch_per_tick := 8 |}.

(** The scheduler's caches around the backend's store. *)
Record Sched (S : Type) := mkSched {
  backend : S;
  ir_cache : gmap (string * string) WorkflowIr;
  progress : gmap ExecutionId ExecProgress;
}.
Arguments mkSched {S} _ _ _.
Arguments backend {S} _.
Arguments ir_cache {S} _.
Arguments progress {S} _.

Definition set_backend {S} (b : S) (s : Sched S) := mkSched b (ir_cache s) (progress s).
Definition set_ir_cache {S} c (s : Sched S) := mkSched (backend s) c (progress s).
Definition set_progress {S} c (s : Sched S) := mkSched (backend s) (ir_cache s) c.

(** [Box<dyn Error>]: the backend's error, or the IR's deserialization error. *)
Inductive SchedError := BackendError (e : StateBackendError) | DecodeError.

Record DeadlineSweep := { expired_nodes : list string; escalated_nodes : list string }.
Definition DeadlineSweep_default : DeadlineSweep :=
  {| expired_nodes := []; escalated_nodes := [] |}.

(** Code the scheduler calls that is not here: the derived deserializer of the
    IR, the debug printer of a failed tenant read, and the audit sealer's answer
    (its own store is not modelled). *)
Class SchedEnv := {
  ir_from_value : Value → option WorkflowIr;
  debug_tenant : result StateBackendError (option TenantId) → string;
  sealer : option (Event → string → result string unit);
}.

Section Scheduler.
Context `{!UuidOps, !ChronoOps, !JsonText, !SchedEnv, !IterOrder string} {S : Type}
  `{HB : StateBackend S} (config : SchedulerConfig).

Abbreviation M A := (eff (Sched S) SchedError A).

(** A backend call. *)
Definition call {A} (m : bk S A) : M A := λ w,
  let '(r, w') := m (World (backend (store w)) (clock w) (draws w)) in
  (map_err BackendError r, World (set_backend (store w') (store w)) (clock w') (draws w')).

(** [backend.append_event(Event::new(id, latest_sequence + 1, kind))]: the event. *)
Definition append_next (execution_id : ExecutionId) (kind : EventKind) : M Event :=
  latest ← call (latest_sequence execution_id);
  event ← Event_new execution_id (latest + 1) kind;
  call (append_event event) ≫= λ _, mret event.

(** ** Sealing *)

Definition seal (event : Event) (appended : EventSequence) : M unit :=
  match sealer with
  | None => mret tt
  | Some sl =>
      (* the read's own result is matched, errors included *)
      tenant ← (λ w, let '(r, w') := execution_tenant (event_execution_id event)
                       (World (backend (store w)) (clock w) (draws w)) in
                (Ok r, World (set_backend (store w') (store w)) (clock w') (draws w')));
      match tenant with
      | Ok (Some t) => call (seal_appended (Some sl) event appended (tenant_str t))
      | other =>
          call (record_seal_gap (set_sequence event appended)
            ("the run's tenant could not be read (" +:+ debug_tenant other +:+ ")"))
      end
  end.

(** ** The deadline sweep *)

Definition sweep_action (execution_id : ExecutionId) (action : DeadlineAction)
    (sweep : DeadlineSweep) : M DeadlineSweep :=
  match action with
  | Expire node_id request_sequence expires_at =>
      event ← Event_new execution_id 0
        (EventKind.ApprovalExpired node_id request_sequence expires_at DEADLINE_PRINCIPAL);
      appended ← call (append_event_if event
        (λ _ log, still_pending log node_id request_sequence));
      match appended with
      | Appended seq =>
          seal event seq ≫= λ _,
          mret {| expired_nodes := expired_nodes sweep ++ [node_id];
                  escalated_nodes := escalated_nodes sweep |}
      | _ => mret sweep
      end
  | DlEscalate node_id request_sequence escalate_at expires_at =>
      event ← Event_new execution_id 0
        (EventKind.ApprovalEscalated node_id request_sequence escalate_at expires_at);
      appended ← call (append_event_if event
        (λ _ log, still_pending log node_id request_sequence
                  && not_escalated log node_id request_sequence));
      match appended with
      | Appended seq =>
          seal event seq ≫= λ _,
          mret {| expired_nodes := expired_nodes sweep;
                  escalated_nodes := escalated_nodes sweep ++ [node_id] |}
      | _ => mret sweep
      end
  end.

Fixpoint sweep_actions (execution_id : ExecutionId) (actions : list DeadlineAction)
    (sweep : DeadlineSweep) : M DeadlineSweep :=
  match actions with
  | [] => mret sweep
  | action :: actions =>
      sweep ← sweep_action execution_id action sweep;
      sweep_actions execution_id actions sweep
  end.

Definition sweep_approval_deadlines (execution_id : ExecutionId) (now : DateTime)
    : M DeadlineSweep :=
  events ← call (get_events execution_id);
  sweep_actions execution_id (due_deadline_actions events now) DeadlineSweep_default.

(** ** Reclaiming leases *)

Definition emit_retry (item : WorkItem) : M unit :=
  append_next (wi_execution_id item)
    (EventKind.NodeFailed (wi_node_id item) "lease expired: worker presumed dead"
       (usat_sub (attempt item) 1) true) ≫= λ _,
  append_next (wi_execution_id item)
    (EventKind.RetryScheduled (wi_node_id item) (attempt item)
       (InMemory.retry_delay_ms (attempt item))) ≫= λ _, mret tt.

Definition emit_exhausted (item : WorkItem) : M unit :=
  append_next (wi_execution_id item)
    (EventKind.NodeFailed (wi_node_id item)
       ("exhausted " +:+ pretty (max_attempts item) +:+ " attempts: lease expired")
       (attempt item) false) ≫= λ _, mret tt.

Definition sched_reclaim_expired_leases : M unit :=
  reclaimed ← call reclaim_expired_leases;
  for_each (retryable reclaimed) emit_retry ≫= λ _,
  for_each (exhausted reclaimed) emit_exhausted.

(** ** Scheduling one execution *)

Definition load_ir (workflow_id workflow_version : string) : M (option WorkflowIr) :=
  cached ← gets (λ s, ir_cache s !! (workflow_id, workflow_version));
  match cached with
  | Some ir => mret (Some ir)
  | None =>
      def ← call (get_workflow workflow_id workflow_version);
      match def with
      | None => mret None
      | Some def =>
          match ir_from_value (wd_ir def) with
          | None => raise DecodeError
          | Some ir =>
              modify (λ s, set_ir_cache (<[(workflow_id, workflow_version) := ir]> (ir_cache s)) s)
                ≫= λ _, mret (Some ir)
          end
      end
  end.

Definition put_progress (id : ExecutionId) (p : ExecProgress) : M unit :=
  modify (λ s, set_progress (<[id := p]> (progress s)) s).

(** Read the cached progress and fold the new events into it. *)
Definition advance (execution_id : ExecutionId) : M ExecProgress :=
  p ← gets (λ s, default ExecProgress_default (progress s !! execution_id));
  new_events ← call (get_events_since execution_id (pr_last_sequence p));
  let p := apply_all p new_events in
  put_progress execution_id p ≫= λ _, mret p.

Definition no_stall_yet (log : list Event) : bool :=
  negb (existsb (λ e, match event_kind e with EventKind.RunStalled _ => true | _ => false end) log).

(** What an unreadable log gets: a stall, recorded once. *)
Definition record_stall (execution_id : ExecutionId) (p : ExecProgress) : M unit :=
  if stall_recorded p then mret tt
  else
    event ← Event_new execution_id 0 (EventKind.RunStalled UNREADABLE_LOG_REASON);
    call (append_event_if event (λ _ log, no_stall_yet log)) ≫= λ _, mret tt.

Definition sweep_if_due (execution_id : ExecutionId) (p : ExecProgress) : M unit :=
  if existsb (λ n, bool_decide (n ∈ deadline_requests p)) (elements (held p)) then
    now ← utc_now;
    recover (sweep_approval_deadlines execution_id now ≫= λ _, mret tt) (λ _, mret tt)
  else mret tt.

(** The rejected nodes not yet failed. *)
Definition to_fail (p : ExecProgress) : list (string * string) :=
  base.filter (λ nr, nr.1 ∉ terminal_failed p) (iter_map (rejected p)).

Definition fail_rejected (execution_id : ExecutionId) (p : ExecProgress) : M unit :=
  for_each (to_fail p) (λ nr,
    append_next execution_id (EventKind.NodeFailed nr.1 nr.2 0 false) ≫= λ _, mret tt).

Fixpoint skip_nodes (execution_id : ExecutionId) (ns : list string) (p : ExecProgress)
    : M ExecProgress :=
  match ns with
  | [] => mret p
  | n :: ns =>
      event ← append_next execution_id (EventKind.NodeSkipped n "branch not taken");
      skip_nodes execution_id ns (apply p event)
  end.

(** The cascade's passes, until one skips nothing. *)
Fixpoint skip_cascade (execution_id : ExecutionId) (ir : WorkflowIr) (passes : nat)
    (p : ExecProgress) : M ExecProgress :=
  match passes with
  | O => mret p
  | Datatypes.S passes =>
      match newly_skippable ir p with
      | [] => mret p
      | ns => p ← skip_nodes execution_id ns p; skip_cascade execution_id ir passes p
      end
  end.

Definition queue_name (node : NodeDef) : string := QueueType.as_str (NodeKind.queue_type (kind node)).

Definition runnable_in (ir : WorkflowIr) (p : ExecProgress) (n : string) : bool :=
  is_runnable ir n (completed p) (scheduled p) (skipped p) (routes p).

(** Schedule one node: its event, then its work item. *)
Definition dispatch (execution_id : ExecutionId) (ir : WorkflowIr) (p : ExecProgress)
    (workflow_id workflow_version node_id : string) (node : NodeDef) : M unit :=
  let queue_type := queue_name node in
  append_next execution_id (EventKind.NodeScheduled node_id queue_type) ≫= λ _,
  let max_attempts := max_attempts_for (retry_policy node) in
  let payload := build_work_item_payload ir node_id node (final_state p) workflow_id
                   workflow_version in
  item_id ← new_v4; now ← utc_now;
  let item := {|
    wi_id := item_id; wi_execution_id := execution_id; wi_node_id := node_id;
    queue_type := queue_type; payload := payload; attempt := 0; max_attempts := max_attempts;
    wi_created_at := now; lease_expires_at := None; worker_id := None; lease_fence := 0;
    wi_tenant_id := DEFAULT_TENANT |} in
  call (enqueue_work_item item) ≫= λ _, mret tt.

(** The dispatch loop; the result is how many nodes were enqueued. *)
Fixpoint dispatch_loop (execution_id : ExecutionId) (ir : WorkflowIr) (p : ExecProgress)
    (workflow_id workflow_version : string) (ns : list (string * NodeDef)) (enqueued : Z)
    : M Z :=
  match ns with
  | [] => mret enqueued
  | (node_id, node) :: ns =>
      if decide (max_dispatch_per_tick config ≤ enqueued) then mret enqueued
      else if decide (max_concurrent_nodes_per_execution config
                        ≤ Z.of_nat (size (scheduled p)) + enqueued) then mret enqueued
      else if decide (node_id ∈ terminal_failed p)
      then dispatch_loop execution_id ir p workflow_id workflow_version ns enqueued
      else if runnable_in ir p node_id then
        dispatch execution_id ir p workflow_id workflow_version node_id node ≫= λ _,
        dispatch_loop execution_id ir p workflow_id workflow_version ns (enqueued + 1)
      else dispatch_loop execution_id ir p workflow_id workflow_version ns enqueued
  end.

(** The terminal status and event a run ends with. *)
Definition outcome (p : ExecProgress) : WorkflowStatus * EventKind :=
  if decide (terminal_failed p = ∅)
  then (WorkflowStatus.Completed, EventKind.WorkflowCompleted (Object (final_state p)))
  else (WorkflowStatus.Failed, EventKind.WorkflowFailed
    ("node(s) failed terminally: "
     +:+ String.concat ", " (merge_sort String.le (elements (terminal_failed p))))).

Definition finish (execution_id : ExecutionId) (p : ExecProgress) : M unit :=
  let '(status, kind) := outcome p in
  event ← Event_new execution_id 0 kind;
  call (finish_execution event status) ≫= λ _,
  modify (λ s, set_progress (delete execution_id (progress s)) s).

Definition schedule_runnable_nodes (execution_id : ExecutionId)
    (workflow_id workflow_version : string) : M unit :=
  loaded ← load_ir workflow_id workflow_version;
  match loaded with
  | None => mret tt
  | Some ir =>
      p ← advance execution_id;
      if unreadable p then record_stall execution_id p
      else
        sweep_if_due execution_id p ≫= λ _,
        fail_rejected execution_id p ≫= λ _,
        p ← skip_cascade execution_id ir (size (nodes ir) + 1) p;
        put_progress execution_id p ≫= λ _,
        if decide (max_concurrent_nodes_per_execution config ≤ Z.of_nat (size (scheduled p)))
        then mret tt
        else
          enqueued ← dispatch_loop execution_id ir p workflow_id workflow_version
                       (iter_map (nodes ir)) 0;
          if decide (enqueued = 0 ∧ scheduled p = ∅) then finish execution_id p else mret tt
  end.

(** ** The tick *)

Definition tick : M unit :=
  recover sched_reclaim_expired_leases (λ _, mret tt) ≫= λ _,
  running ← call (list_executions (Some WorkflowStatus.Running) 100 0);
  for_each running (λ execution,
    recover (schedule_runnable_nodes (execution_id execution) (workflow_id execution)
               (workflow_version execution))
      (λ _, mret tt)).
End Scheduler.
