(* ===== verification/SchedulerCorrect.v ===== *)
(** * The scheduler's theorems

    What a tick does to a run, proved against the storage interface's laws. *)

From S2P Require Import Prelude.
From S2P Require Import Json.
From S2P Require Import RustStr.
From S2P Require Import Core.
From S2P Require Import Condition.
From S2P Require Import Ir.
From S2P Require Import Event.
From S2P Require Import Materializer.
From S2P Require Import Hashing.
From S2P Require Import Approvals.
From S2P Require Import Budget.
From S2P Require Import Backend.
From S2P Require Import Journal.
From S2P Require Import Memory.
From S2P Require Import Lease.
From S2P Require Import MemoryLaws.
From S2P Require Import Progress.
From S2P Require Import Scheduler.

Section Effects.
Context `{!UuidOps, !ChronoOps, !JsonText, !SchedEnv, !IterOrder string} {S : Type}
  `{HL : StateBackendLaws S} (config : SchedulerConfig).

Abbreviation M A := (eff (Sched S) SchedError A).

Definition run_log (s : Sched S) (id : ExecutionId) : list Event := view_log (backend s) id.
Definition run_row (s : Sched S) (id : ExecutionId) : option WorkflowExecution :=
  view_execution (backend s) id.
Definition item_at (s : Sched S) (i : WorkItemId) : option WorkItem := view_items (backend s) i.

(** [kinds] were appended to the log of [id], and nothing to another's. *)
Definition logged (id : ExecutionId) (kinds : list EventKind) (s s' : Sched S) : Prop :=
  (∃ evs, run_log s' id = run_log s id ++ evs ∧ event_kind <$> evs = kinds)
  ∧ ∀ id', id' ≠ id → run_log s' id' = run_log s id'.

(** Run rows are as they were; so are work items; so are both. *)
Definition same_rows (s s' : Sched S) : Prop := ∀ id, run_row s' id = run_row s id.
Definition same_items (s s' : Sched S) : Prop := ∀ i, item_at s' i = item_at s i.
Definition same_tables (s s' : Sched S) : Prop := same_rows s s' ∧ same_items s s'.

Lemma logged_nil id s : logged id [] s s.
Proof. split; [|done]. exists []. by rewrite app_nil_r. Qed.
Lemma logged_app id k k' s s' s'' :
  logged id k s s' → logged id k' s' s'' → logged id (k ++ k') s s''.
Proof.
  intros [(l & Hl & <-) Ho] [(l' & Hl' & <-) Ho']. split.
  - exists (l ++ l'). by rewrite Hl', Hl, fmap_app, (assoc_L _).
  - intros id' Hne. by rewrite Ho', Ho.
Qed.

#[export] Instance same_tables_preorder : PreOrder same_tables.
Proof.
  split; [done|]. intros s1 s2 s3 [R1 I1] [R2 I2].
  split; intros x; [by rewrite R2|by rewrite I2].
Qed.

Lemma call_run {A} (m : bk S A) w r w' :
  call m w = (r, w') →
  ∃ r0 wb, m (World (backend (store w)) (clock w) (draws w)) = (r0, wb)
    ∧ r = map_err BackendError r0
    ∧ w' = World (set_backend (store wb) (store w)) (clock wb) (draws wb).
Proof. unfold call. destruct (m _) as [r0 wb]. intros [= <- <-]. eauto. Qed.

Lemma call_pure {A} (m : bk S A) a w :
  (∀ wb, m wb = (Ok (a (store wb)), wb)) → call m w = (Ok (a (backend (store w))), w).
Proof. intros Hm. unfold call. rewrite Hm. by destruct w as [[]]. Qed.

Lemma bind_inv {A B} (m : M A) (k : A → M B) w r w' :
  (m ≫= k) w = (r, w') →
  (∃ a w1, m w = (Ok a, w1) ∧ k a w1 = (r, w')) ∨ (∃ e, m w = (Err e, w') ∧ r = Err e).
Proof.
  unfold mbind, eff_bind. destruct (m w) as [[a|e] w1]; [eauto 10|].
  intros [= <- <-]. eauto.
Qed.

Lemma append_next_run id k w r w' :
  append_next id k w = (r, w') →
  same_tables (store w) (store w') ∧ ir_cache (store w') = ir_cache (store w)
  ∧ progress (store w') = progress (store w)
  ∧ match r with
    | Ok ev => event_kind ev = k ∧ sequence ev = log_end (run_log (store w) id) + 1
        ∧ logged id [k] (store w) (store w')
    | Err _ => logged id [] (store w) (store w')
    end.
Proof.
  unfold append_next.
  rewrite (bind_run _ _ _ _ _ (call_pure _ (λ s, log_end (view_log s id)) w
    (law_latest_sequence id))).
  unfold Event_new. rewrite bind_assoc, bind_new_v4, bind_assoc, bind_now, bind_mret.
  cbn [store clock draws]. set (ev := {| event_execution_id := id |}). intros Hrun.
  apply bind_inv in Hrun as [(u & w1 & Hc & [= <- <-])|(e & Hc & ->)];
    apply call_run in Hc as (r0 & wb & Hap & Hr & ->); destruct r0 as [q|e0]; simplify_eq/=;
    apply law_append_event in Hap as [[Hrow Hit] Hlog]; (split; [done|]).
  - split_and!; try done. split; 
      [|intros id' Hne; unfold run_log; cbn; by rewrite (Hlog id'), decide_False].
    exists [set_sequence ev q]. split; [|done]. unfold run_log; cbn. by rewrite (Hlog id), decide_True.
  - split_and!; try done. split; [|intros id' Hne; exact (Hlog id')].
    exists []. split; [|done]. rewrite app_nil_r. exact (Hlog id).
Qed.

Lemma append_next_draws id k w r w' :
  append_next id k w = (r, w') → (draws w < draws w')%N.
Proof.
  unfold append_next.
  rewrite (bind_run _ _ _ _ _ (call_pure _ (λ s, log_end (view_log s id)) w
    (law_latest_sequence id))).
  unfold Event_new. rewrite bind_assoc, bind_new_v4, bind_assoc, bind_now, bind_mret.
  cbn [store clock draws]. set (ev := {| event_execution_id := id |}). intros Hrun.
  apply bind_inv in Hrun as [(u & w1 & Hc & [= <- <-])|(e & Hc & ->)];
    apply call_run in Hc as (r0 & wb & Hap & Hr & ->); cbn;
    match type of Hap with append_event _ ?w0 = _ =>
      pose proof (law_append_event_draws ev w0) as Hd end;
    rewrite Hap in Hd; cbn in Hd; lia.
Qed.

(** ** The skip cascade *)

Lemma skip_nodes_run id ns p w r w' :
  skip_nodes id ns p w = (r, w') →
  same_tables (store w) (store w')
  ∧ (∃ done, done `prefix_of` ns
      ∧ logged id ((λ n, EventKind.NodeSkipped n "branch not taken") <$> done) (store w) (store w'))
  ∧ match r with
    | Ok p' => skips_added p (list_to_set ns) p'
        ∧ logged id ((λ n, EventKind.NodeSkipped n "branch not taken") <$> ns) (store w) (store w')
    | Err _ => True
    end.
Proof.
  revert p w. induction ns as [|n ns IH]; intros p w; simpl.
  - intros [= <- <-]. split_and!; [done| |apply skips_added_refl|apply logged_nil].
    exists []. split; [done|apply logged_nil].
  - intros Hrun. apply bind_inv in Hrun as [(ev & w1 & Hap & Hrest)|(e & Hap & ->)].
    + apply append_next_run in Hap as (Ht & _ & _ & Hk & _ & Hl).
      apply IH in Hrest as (Ht' & (done & Hpre & Hd) & Hr).
      split; [by etransitivity|]. split.
      { exists (n :: done). split; [by apply prefix_cons|]. by eapply (logged_app _ [_]). }
      destruct r as [p'|]; [|done]. destruct Hr as [Hsa Hl']. split.
      * eapply skips_added_trans; [by eapply apply_skip|done].
      * by eapply (logged_app _ [_]).
    + apply append_next_run in Hap as (Ht & _ & _ & Hl). split_and!; [done| |done].
      exists []. split; [apply prefix_nil|done].
Qed.

(** The nodes a cascade skips, in order. *)
Lemma skip_cascade_run id ir passes p w r w' :
  skip_cascade id ir passes p w = (r, w') →
  same_tables (store w) (store w')
  ∧ (∃ ns, (∀ n, n ∈ ns → doomed ir p n)
      ∧ logged id ((λ n, EventKind.NodeSkipped n "branch not taken") <$> ns) (store w) (store w')
      ∧ match r with
        | Ok p' => skips_added p (list_to_set ns) p'
            ∧ ((size (unskipped ir p) < passes)%nat → newly_skippable ir p' = [])
        | Err _ => True
        end).
Proof.
  assert (∀ passes q S w, skips_added p S q → (∀ n, n ∈ S → doomed ir p n) →
    skip_cascade id ir passes q w = (r, w') →
    same_tables (store w) (store w')
    ∧ ∃ ns, (∀ n, n ∈ ns → doomed ir p n)
      ∧ logged id ((λ n, EventKind.NodeSkipped n "branch not taken") <$> ns) (store w) (store w')
      ∧ match r with
        | Ok p' => skips_added p (S ∪ list_to_set ns) p'
            ∧ ((size (unskipped ir q) < passes)%nat → newly_skippable ir p' = [])
        | Err _ => True
        end) as Hgen.
  { clear passes w. induction passes as [|passes IH]; intros q S0 w Hq HS;
      cbn [skip_cascade].
    - intros [= <- <-]. split; [done|]. exists []. split_and!; [by intros ? ?%not_elem_of_nil| | |lia].
      + apply logged_nil.
      + simpl. by rewrite (right_id_L ∅ _).
    - destruct (newly_skippable ir q) as [|n ns] eqn:Hnew.
      { intros [= <- <-]. split; [done|]. exists [].
        split_and!; [by intros ? ?%not_elem_of_nil|apply logged_nil| |done].
        simpl. by rewrite (right_id_L ∅ _). }
      assert (∀ m, m ∈ n :: ns → doomed ir p m) as Hdoom.
      { intros m Hm. apply (newly_skippable_doomed ir p S0 q m Hq HS). by rewrite Hnew. }
      intros Hrun. apply bind_inv in Hrun as [(q' & w1 & Hsk & Hrest)|(e & Hsk & ->)].
      + apply skip_nodes_run in Hsk as (Ht & _ & Hsa & Hl).
        apply (IH q' (S0 ∪ list_to_set (n :: ns))) in Hrest as (Ht' & ns' & Hd' & Hl' & Hr).
        * split; [by etransitivity|]. exists ((n :: ns) ++ ns'). split_and!.
          -- intros m [Hm|Hm]%elem_of_app; [by apply Hdoom|by apply Hd'].
          -- rewrite fmap_app. by eapply logged_app.
          -- destruct r as [p'|]; [|done]. destruct Hr as [Hr Hfix]. split.
             ++ by rewrite list_to_set_app_L, (assoc_L _).
             ++ intros Hlt. apply Hfix.
                assert (size (unskipped ir q') < size (unskipped ir q))%nat; [|lia].
                apply (unskipped_shrinks ir q q' n); rewrite Hnew; [by left|done].
        * by eapply skips_added_trans.
        * intros m [Hm|Hm%elem_of_list_to_set]%elem_of_union; [by apply HS|by apply Hdoom].
      + apply skip_nodes_run in Hsk as (Ht & (done & Hpre & Hl) & _).
        split; [done|]. exists done. split_and!; [|done|done].
        intros m Hm. apply Hdoom. destruct Hpre as [k ->]. apply elem_of_app. by left. }
  intros Hrun. destruct (Hgen passes p ∅ w (skips_added_refl p)) as (Ht & ns & Hd & Hl & Hr);
    [set_solver|done|]. split; [done|]. exists ns. split_and!; [done|done|].
  destruct r; [|done]. by rewrite (left_id_L ∅ _) in Hr.
Qed.

(** ** Dispatch *)

(** The nodes a tick hands out: the first runnable ones that have not failed, as
    many as the two limits leave room for. *)
Definition room (p : ExecProgress) (enqueued : Z) : Z :=
  Z.min (max_dispatch_per_tick config - enqueued)
    (max_concurrent_nodes_per_execution config - Z.of_nat (size (scheduled p)) - enqueued).
Definition dispatchable (ir : WorkflowIr) (p : ExecProgress) (nd : string * NodeDef) : Prop :=
  nd.1 ∉ terminal_failed p ∧ runnable_in ir p nd.1 = true.
#[export] Instance dispatchable_dec ir p nd : Decision (dispatchable ir p nd).
Proof. unfold dispatchable. apply _. Defined.
Definition plan (ir : WorkflowIr) (p : ExecProgress) (ns : list (string * NodeDef))
    (enqueued : Z) : list (string * NodeDef) :=
  take (Z.to_nat (room p enqueued)) (base.filter (dispatchable ir p) ns).

Definition scheduled_kind (nd : string * NodeDef) : EventKind :=
  EventKind.NodeScheduled nd.1 (queue_name nd.2).

(** The work item of a dispatched node. *)
Record item_for (id : ExecutionId) (ir : WorkflowIr) (p : ExecProgress) (wf ver : string)
    (item : WorkItem) (nd : string * NodeDef) : Prop := {
  if_run : wi_execution_id item = id;
  if_node : wi_node_id item = nd.1;
  if_queue : queue_type item = queue_name nd.2;
  if_payload : payload item = build_work_item_payload ir nd.1 nd.2 (final_state p) wf ver;
  if_attempts : attempt item = 0 ∧ max_attempts item = max_attempts_for (retry_policy nd.2);
  if_free : claimed item = false ∧ lease_fence item = 0 ∧ lease_expires_at item = None;
  if_tenant : wi_tenant_id item = DEFAULT_TENANT;
}.

(** The ids still to be drawn are new: no two alike, none in the queue. *)
Definition ids_fresh (w : world (Sched S)) : Prop :=
  draws_apart (draws w) ∧ ∀ d, (draws w ≤ d)%N → item_at (store w) (uuid_v4 d) = None.

(** The items of [items] were put in the queue, and nothing else of it changed. *)
Definition queued (items : list WorkItem) (s s' : Sched S) : Prop :=
  (∀ i, i ∉ wi_id <$> items → item_at s' i = item_at s i)
  ∧ ∀ i, i ∈ wi_id <$> items → ∃ item, item ∈ items ∧ wi_id item = i ∧ item_at s' i = Some item.

Lemma queued_nil s s' : same_items s s' → queued [] s s'.
Proof. intros Hs. split; [auto|]. by intros i Hi%not_elem_of_nil. Qed.

Lemma queued_cons item items s s' s'' :
  (∀ i, item_at s' i = if decide (i = wi_id item) then Some item else item_at s i) →
  queued items s' s'' → queued (item :: items) s s''.
Proof.
  intros Hs [Hno Hin]. split; intros i; rewrite fmap_cons, ?not_elem_of_cons, ?elem_of_cons.
  - intros [Hne Hi]. by rewrite (Hno i Hi), Hs, decide_False.
  - intros Hi. destruct (decide (i ∈ wi_id <$> items)) as [Hi'|Hi'].
    + destruct (Hin i Hi') as (it & ? & ? & ?). exists it. split; [by right|done].
    + destruct Hi as [->|?]; [|done]. exists item. split; [by left|]. split; [done|].
      by rewrite (Hno _ Hi'), Hs, decide_True.
Qed.

(** With distinct new ids, each item has its own place in the queue. *)
Lemma queued_each items (w w' : world (Sched S)) :
  ids_fresh w → drawn (draws w) (draws w') (wi_id <$> items) →
  queued items (store w) (store w') →
  NoDup (wi_id <$> items)
  ∧ ∀ item, item ∈ items → item_at (store w) (wi_id item) = None
      ∧ item_at (store w') (wi_id item) = Some item.
Proof.
  intros [Hap Hnew] Hdr [_ Hin]. pose proof (drawn_nodup _ _ _ Hap Hdr) as Hnd.
  split; [done|]. intros item Hit.
  assert (wi_id item ∈ wi_id <$> items) as Hid by by apply list_elem_of_fmap_2.
  split.
  - destruct Hdr as (ds & Heq & _ & Hf). rewrite Heq in Hid.
    apply list_elem_of_fmap in Hid as (d & -> & Hd). rewrite Forall_forall in Hf.
    apply Hnew, (Hf d Hd).
  - destruct (Hin _ Hid) as (it & Hit' & Heq & ->). f_equal.
    apply list_elem_of_lookup in Hit as [k Hk], Hit' as [k' Hk'].
    assert (k' = k) as ->; [|congruence].
    eapply NoDup_lookup; [exact Hnd| |]; rewrite list_lookup_fmap;
      [by rewrite Hk'|by rewrite Hk; simpl; rewrite Heq].
Qed.

Lemma dispatch_run id ir p wf ver n node w r w' :
  dispatch id ir p wf ver n node w = (r, w') →
  same_rows (store w) (store w')
  ∧ match r with
    | Ok _ => logged id [scheduled_kind (n, node)] (store w) (store w')
        ∧ ∃ item, item_for id ir p wf ver item (n, node)
          ∧ (∃ d, (draws w ≤ d < draws w')%N ∧ wi_id item = uuid_v4 d)
          ∧ ∀ i, item_at (store w') i =
              if decide (i = wi_id item) then Some item else item_at (store w) i
    | Err _ => same_items (store w) (store w')
        ∧ ∃ k, k `prefix_of` [scheduled_kind (n, node)] ∧ logged id k (store w) (store w')
    end.
Proof.
  unfold dispatch. intros Hrun. apply bind_inv in Hrun as [(ev & w1 & Hap & Hrest)|(e & Hap & ->)].
  2:{ apply append_next_run in Hap as ([Hrow Hit] & _ & _ & Hl). split; [done|].
      split; [done|]. exists []. split; [apply prefix_nil|done]. }
  pose proof (append_next_draws _ _ _ _ _ Hap) as Hdr.
  apply append_next_run in Hap as ([Hrow Hit] & _ & _ & _ & _ & Hl).
  rewrite bind_new_v4, bind_now in Hrest. cbn [store clock draws] in Hrest.
  match type of Hrest with context [enqueue_work_item ?it] => set (item := it) in * end.
  apply bind_inv in Hrest as [(u & w2 & Hc & [= <- <-])|(e & Hc & ->)];
    apply call_run in Hc as (r0 & wb & Hen & Hr & ->);
    match type of Hen with enqueue_work_item _ ?w0 = _ =>
      pose proof (law_enqueue_draws item w0) as Hdr' end;
    rewrite Hen in Hdr'; cbn [snd draws] in Hdr';
    apply law_enqueue in Hen as (Hrow' & Hlog' & Hit');
    destruct r0 as [q|e0]; simplify_eq/=.
  - split; [intros id'; by etransitivity; [apply Hrow'|apply Hrow]|]. split.
    + destruct Hl as [(evs & Hevs & Hk) Ho]. split; [exists evs; split; [|done]|];
        [by etransitivity; [apply Hlog'|]|]. intros id' Hne. by etransitivity; [apply Hlog'|apply Ho].
    + exists item. split; [by constructor|]. split; [exists (draws w1); split; [lia|done]|].
      intros i. etransitivity; [apply Hit'|].
      case_bool_decide; [by rewrite decide_True|]. rewrite decide_False by done. apply Hit.
  - split; [intros id'; by etransitivity; [apply Hrow'|apply Hrow]|]. split.
    + intros i. by etransitivity; [apply Hit'|apply Hit].
    + exists [scheduled_kind (n, node)]. split; [done|].
      destruct Hl as [(evs & Hevs & Hk) Ho]. split; [exists evs; split; [|done]|];
        [by etransitivity; [apply Hlog'|]|]. intros id' Hne. by etransitivity; [apply Hlog'|apply Ho].
Qed.

Lemma plan_cons_yes ir p nd ns enq :
  dispatchable ir p nd → 0 < room p enq →
  plan ir p (nd :: ns) enq = nd :: plan ir p ns (enq + 1).
Proof.
  intros Hd Hr. unfold plan. rewrite filter_cons_True by done.
  replace (Z.to_nat (room p enq)) with (Datatypes.S (Z.to_nat (room p (enq + 1))))
    by (unfold room in *; lia). done.
Qed.
Lemma plan_cons_no ir p nd ns enq :
  ¬ dispatchable ir p nd → plan ir p (nd :: ns) enq = plan ir p ns enq.
Proof. intros Hd. unfold plan. by rewrite filter_cons_False. Qed.
Lemma plan_full ir p ns enq : room p enq ≤ 0 → plan ir p ns enq = [].
Proof. intros Hr. unfold plan. by replace (Z.to_nat (room p enq)) with O by lia. Qed.

Lemma dispatch_draws id ir p wf ver n node w r w' :
  dispatch id ir p wf ver n node w = (r, w') → (draws w ≤ draws w')%N.
Proof.
  unfold dispatch. intros Hrun. apply bind_inv in Hrun as [(ev & w1 & Hap & Hrest)|(e & Hap & ->)];
    apply append_next_draws in Hap; [|lia].
  rewrite bind_new_v4, bind_now in Hrest.
  match type of Hrest with context [enqueue_work_item ?it] => set (item := it) in * end.
  apply bind_inv in Hrest as [(u & w2 & Hc & [= <- <-])|(e & Hc & ->)];
    apply call_run in Hc as (r0 & wb & Hen & Hr & ->);
    match type of Hen with enqueue_work_item _ ?w0 = _ =>
      pose proof (law_enqueue_draws item w0) as Hdr' end;
    rewrite Hen in Hdr'; cbn in *; lia.
Qed.

Lemma dispatch_loop_draws id ir p wf ver ns enq w r w' :
  dispatch_loop config id ir p wf ver ns enq w = (r, w') → (draws w ≤ draws w')%N.
Proof.
  revert enq w. induction ns as [|[n node] ns IH]; intros enq w; cbn [dispatch_loop];
    [by intros [= <- <-]|].
  case_decide; [by intros [= <- <-]|]. case_decide; [by intros [= <- <-]|].
  case_decide; [apply IH|]. destruct (runnable_in ir p n); [|apply IH]. intros Hrun.
  apply bind_inv in Hrun as [(u & w1 & Hd%dispatch_draws & Hrest%IH)|(e & Hd%dispatch_draws & ->)]; lia.
Qed.

Lemma dispatch_loop_run id ir p wf ver ns enq w r w' :
  dispatch_loop config id ir p wf ver ns enq w = (r, w') →
  same_rows (store w) (store w')
  ∧ (∃ done, done `prefix_of` scheduled_kind <$> plan ir p ns enq
      ∧ logged id done (store w) (store w'))
  ∧ match r with
    | Ok n => n = enq + Z.of_nat (length (plan ir p ns enq))
        ∧ logged id (scheduled_kind <$> plan ir p ns enq) (store w) (store w')
        ∧ ∃ items, Forall2 (item_for id ir p wf ver) items (plan ir p ns enq)
            ∧ drawn (draws w) (draws w') (wi_id <$> items)
            ∧ queued items (store w) (store w')
    | Err _ => True
    end.
Proof.
  revert enq w. induction ns as [|[n node] ns IH]; intros enq w; cbn [dispatch_loop].
  { intros [= <- <-]. replace (plan ir p [] enq) with (@nil (string * NodeDef))
      by (unfold plan; by destruct (Z.to_nat _)). split; [done|]. split.
    - exists []. split; [done|apply logged_nil].
    - split; [simpl; lia|]. split; [apply logged_nil|]. exists [].
      split_and!; [constructor|apply drawn_nil|by apply queued_nil]. }
  assert (room p enq ≤ 0 → (mret enq : M Z) w = (r, w') → same_rows (store w) (store w')
    ∧ (∃ done, done `prefix_of` scheduled_kind <$> plan ir p ((n, node) :: ns) enq
        ∧ logged id done (store w) (store w'))
    ∧ match r with
      | Ok n' => n' = enq + Z.of_nat (length (plan ir p ((n, node) :: ns) enq))
          ∧ logged id (scheduled_kind <$> plan ir p ((n, node) :: ns) enq) (store w) (store w')
          ∧ ∃ items, Forall2 (item_for id ir p wf ver) items (plan ir p ((n, node) :: ns) enq)
              ∧ drawn (draws w) (draws w') (wi_id <$> items)
              ∧ queued items (store w) (store w')
      | Err _ => True
      end) as Hfull.
  { intros Hr [= <- <-]. rewrite plan_full by done. split; [done|]. split.
    - exists []. split; [done|apply logged_nil].
    - split; [simpl; lia|]. split; [apply logged_nil|]. exists [].
      split_and!; [constructor|apply drawn_nil|by apply queued_nil]. }
  case_decide as H1d; [apply Hfull; unfold room; lia|].
  case_decide as H2d; [apply Hfull; unfold room; lia|]. clear Hfull.
  assert (0 < room p enq) as Hroom by (unfold room; lia).
  case_decide as Hf.
  { rewrite plan_cons_no by (unfold dispatchable; simpl; tauto). apply IH. }
  destruct (runnable_in ir p n) eqn:Hrn.
  2:{ rewrite plan_cons_no by (unfold dispatchable; simpl; intros [_ ?]; congruence). apply IH. }
  rewrite plan_cons_yes by done. intros Hrun.
  apply bind_inv in Hrun as [(u & w1 & Hd & Hrest)|(e & Hd & ->)].
  - apply dispatch_run in Hd as (Hrow & Hl & item & Hif & (d & Hdr & Hid) & Hit).
    pose proof (dispatch_loop_draws _ _ _ _ _ _ _ _ _ _ Hrest) as Hmono.
    apply IH in Hrest as (Hrow' & (done & Hpre & Hld) & Hr).
    split; [intros i; by rewrite Hrow'|]. split.
    { exists (scheduled_kind (n, node) :: done). split; [by apply prefix_cons|].
      by eapply (logged_app _ [_]). }
    destruct r as [m|]; [|done]. destruct Hr as (-> & Hlr & items & HF & Hdi & Hq). split_and!.
    + simpl. lia.
    + by eapply (logged_app _ [_]).
    + exists (item :: items). split; [by constructor|]. split; [|by eapply queued_cons].
      rewrite fmap_cons, Hid. apply drawn_cons; [lia..|]. eapply drawn_weaken; [|exact Hdi]. lia.
  - apply dispatch_run in Hd as (Hrow & _ & k & Hk & Hl). split; [done|]. split; [|done].
    exists k. split; [|done]. etransitivity; [exact Hk|]. simpl. apply prefix_cons, prefix_nil.
Qed.

(** ** A store that cannot fail *)

Section Total.
Context `{!BackendTotal S}.

Lemma append_next_total id k w : is_ok (append_next id k w).1 = true.
Proof.
  unfold append_next.
  rewrite (bind_run _ _ _ _ _ (call_pure _ (λ s, log_end (view_log s id)) w
    (law_latest_sequence id))).
  unfold Event_new. rewrite bind_assoc, bind_new_v4, bind_assoc, bind_now, bind_mret.
  cbn [store clock draws]. set (ev := {| event_execution_id := id |}).
  unfold mbind, eff_bind, call. cbn [store clock draws].
  pose proof (total_append_event ev (World (backend (store w)) (clock w) (N.succ (draws w)))) as Ht.
  destruct (append_event ev _) as [[q|e] wb]; done.
Qed.

Lemma skip_nodes_total id ns p w : is_ok (skip_nodes id ns p w).1 = true.
Proof.
  revert p w; induction ns as [|n ns IH]; intros p w; simpl; [done|].
  pose proof (append_next_total id (EventKind.NodeSkipped n "branch not taken") w) as Ht.
  destruct (append_next _ _ w) as [[ev|e] w1] eqn:Hap; [|done].
  rewrite (bind_run _ _ _ _ _ Hap). apply IH.
Qed.

Lemma skip_cascade_total id ir passes p w : is_ok (skip_cascade id ir passes p w).1 = true.
Proof.
  revert p w; induction passes as [|passes IH]; intros p w; cbn [skip_cascade]; [done|].
  destruct (newly_skippable ir p) as [|n ns]; [done|].
  pose proof (skip_nodes_total id (n :: ns) p w) as Ht.
  destruct (skip_nodes id (n :: ns) p w) as [[q|e] w1] eqn:Hsk; [|done].
  rewrite (bind_run _ _ _ _ _ Hsk). apply IH.
Qed.

Lemma dispatch_total id ir p wf ver n node w : is_ok (dispatch id ir p wf ver n node w).1 = true.
Proof.
  unfold dispatch. pose proof (append_next_total id (EventKind.NodeScheduled n (queue_name node)) w) as Ht.
  destruct (append_next _ _ w) as [[ev|e] w1] eqn:Hap; [|done].
  cbv zeta. rewrite (bind_run _ _ _ _ _ Hap), bind_new_v4, bind_now. cbn [store clock draws].
  match goal with |- context [enqueue_work_item ?it] => set (item := it) end.
  unfold mbind, eff_bind, call. cbn [store clock draws].
  pose proof (total_enqueue item (World (backend (store w1)) (clock w1) (N.succ (draws w1)))) as He.
  destruct (enqueue_work_item item _) as [[q|e] wb]; done.
Qed.

Lemma dispatch_loop_total id ir p wf ver ns enq w :
  is_ok (dispatch_loop config id ir p wf ver ns enq w).1 = true.
Proof.
  revert enq w; induction ns as [|[n node] ns IH]; intros enq w; cbn [dispatch_loop]; [done|].
  repeat case_decide; try done. destruct (runnable_in ir p n); [|done].
  pose proof (dispatch_total id ir p wf ver n node w) as Ht.
  destruct (dispatch id ir p wf ver n node w) as [[q|e] w1] eqn:Hd; [|done].
  rewrite (bind_run _ _ _ _ _ Hd). apply IH.
Qed.
End Total.

(** ** What the other steps leave alone *)

(** Only events of [P]'s kinds are appended, to the log of [id] alone. *)
Definition logs_only (P : EventKind → Prop) (id : ExecutionId) (s s' : Sched S) : Prop :=
  (∃ evs, run_log s' id = run_log s id ++ evs ∧ Forall (λ ev, P (event_kind ev)) evs)
  ∧ ∀ id', id' ≠ id → run_log s' id' = run_log s id'.

(** Rows and items stay, and only such events are appended. *)
Definition tame (P : EventKind → Prop) (id : ExecutionId) (s s' : Sched S) : Prop :=
  same_tables s s' ∧ logs_only P id s s'.

#[export] Instance tame_preorder P id : PreOrder (tame P id).
Proof.
  split.
  - intros s. split; [done|]. split; [|done]. exists []. by rewrite app_nil_r.
  - intros s1 s2 s3 [T1 [(l1 & E1 & F1) O1]] [T2 [(l2 & E2 & F2) O2]].
    split; [by etransitivity|]. split.
    + exists (l1 ++ l2). by rewrite E2, E1, (assoc_L _), Forall_app.
    + intros id' Hne. by rewrite O2, O1.
Qed.

Lemma logged_tame P id ks s s' :
  same_tables s s' → logged id ks s s' → Forall P ks → tame P id s s'.
Proof.
  intros Ht [(evs & Hl & <-) Ho] HF. split; [done|]. split; [|done]. exists evs.
  split; [done|]. by rewrite Forall_fmap in HF.
Qed.

Lemma tame_append_next P id k : P k → respects (tame P id) (append_next id k).
Proof.
  intros HP w. destruct (append_next id k w) as [r w'] eqn:Hrun.
  apply append_next_run in Hrun as (Ht & _ & _ & Hl). destruct r as [ev|e].
  - destruct Hl as (_ & _ & Hl). eapply logged_tame; [done|done|by constructor].
  - eapply logged_tame; [done|done|constructor].
Qed.

(** A call whose outcome the laws describe. *)
Lemma tame_call {A} P id (m : bk S A) :
  (∀ wb r wb', m wb = (r, wb') → same_runs (store wb) (store wb')
     ∧ ∃ ev seq, appended_to ev seq (store wb) (store wb') ∧ event_execution_id ev = id
       ∧ P (event_kind ev)) →
  respects (tame P id) (call m).
Proof.
  intros Hm w. unfold call. destruct (m _) as [r wb'] eqn:Hrun.
  destruct (Hm _ _ _ Hrun) as ([Hrow Hit] & ev & seq & Hlog & <- & HP).
  split; [done|]. split.
  - unfold run_log. cbn. rewrite (Hlog (event_execution_id ev)). destruct seq as [seq|].
    + rewrite decide_True by done. exists [set_sequence ev seq]. split; [done|by constructor].
    + exists []. by rewrite app_nil_r.
  - intros id' Hne. unfold run_log. cbn. rewrite (Hlog id'). destruct seq; [|done].
    by rewrite decide_False.
Qed.

Lemma tame_read {A} P id (m : bk S A) : (∀ wb, (m wb).2 = wb) → respects (tame P id) (call m).
Proof.
  intros Hm w. unfold call. specialize (Hm (World (backend (store w)) (clock w) (draws w))).
  destruct (m _) as [r wb]. simpl in Hm. subst wb. cbn. split; [done|]. split; [|done].
  exists []. by rewrite app_nil_r.
Qed.

Lemma tame_append P id ev :
  event_execution_id ev = id → P (event_kind ev) → respects (tame P id) (call (append_event ev)).
Proof.
  intros Hid HP. apply tame_call. intros wb r wb' [Hs Hl]%law_append_event. eauto 10.
Qed.

Lemma tame_append_if P id ev cond :
  event_execution_id ev = id → P (event_kind ev) →
  respects (tame P id) (call (append_event_if ev cond)).
Proof.
  intros Hid HP. apply tame_call. intros wb r wb' Hrun.
  pose proof (law_append_event_if_other ev cond wb r wb') as Ho.
  pose proof (law_append_event_if ev cond wb r wb' Hrun) as [Hs Hlog]. split; [done|].
  exists ev, (match r with Ok (Appended seq) => Some seq | _ => None end).
  split; [|done]. intros i.
  destruct r as [[seq| |st]|e]; simpl in Hlog |- *; try apply Hlog.
  case_decide as Hi; [subst i; apply Hlog|by apply Ho].
Qed.

Lemma tame_new {A} P id eid k (f : Event → M A) :
  (∀ e, event_execution_id e = eid → event_kind e = k → respects (tame P id) (f e)) →
  respects (tame P id) (Event_new eid 0 k ≫= f).
Proof.
  intros Hf w. unfold Event_new. rewrite bind_assoc, bind_new_v4, bind_assoc, bind_now, bind_mret.
  match goal with |- tame _ _ _ (store (f ?e ?w').2) => apply (Hf e eq_refl eq_refl w') end.
Qed.

(** The kinds of events scheduling a run can append. *)
Definition sched_kind (k : EventKind) : Prop :=
  match k with
  | EventKind.ApprovalExpired _ _ _ by_ => by_ = DEADLINE_PRINCIPAL
  | EventKind.NodeFailed _ _ _ retryable => retryable = false
  | EventKind.ApprovalEscalated _ _ _ _ | EventKind.AuditSealFailed _ _ _ _
  | EventKind.NodeSkipped _ _ | EventKind.NodeScheduled _ _
  | EventKind.WorkflowCompleted _ | EventKind.WorkflowFailed _ => True
  | _ => False
  end.

Ltac tame_tac :=
  repeat first
    [ apply respects_mret; apply _ | apply respects_raise; apply _ | apply respects_utc_now; apply _
    | apply tame_append_next; done
    | apply respects_bind; [apply _| |intros ?]
    | apply respects_recover; [apply _| |intros ?]
    | apply respects_for_each; [apply _|intros ?]
    | progress (repeat case_match) ].

(** A component that records events in the run's log, called by the scheduler. *)
Lemma tame_journals {A} P id (m : bk S A) :
  respects (journals P id) m → respects (tame P id) (call m).
Proof.
  intros Hm w. unfold call. specialize (Hm (World (backend (store w)) (clock w) (draws w))).
  destruct (m _) as [r wb]. simpl in Hm. destruct Hm as ([Hr Hi] & Hl & Ho). by split_and!.
Qed.

Lemma tame_seal id ev seq :
  event_execution_id ev = id → respects (tame sched_kind id) (seal ev seq).
Proof.
  intros Hid. unfold seal. destruct sealer as [sl|]; [|tame_tac].
  apply respects_bind; [apply _| |].
  - intros w. pose proof (law_execution_tenant (event_execution_id ev)
      (World (backend (store w)) (clock w) (draws w))) as Ht.
    destruct (execution_tenant _ _) as [r wb]. simpl in Ht. subst wb. cbn. split; [done|].
    split; [|done]. exists []. by rewrite app_nil_r.
  - assert (∀ k, is_seal_gap k → sched_kind k) as HP by (by intros []).
    intros t. repeat case_match; apply tame_journals; by first [apply journals_seal|apply journals_gap].
Qed.

Lemma tame_sweep id now : respects (tame sched_kind id) (sweep_approval_deadlines id now).
Proof.
  unfold sweep_approval_deadlines. apply respects_bind; [apply _| |intros evs].
  - apply tame_read. intros wb. by rewrite law_get_events.
  - generalize (due_deadline_actions evs now) DeadlineSweep_default. intros acts.
    induction acts as [|a acts IH]; intros sw; simpl; [tame_tac|].
    apply respects_bind; [apply _| |intros; apply IH].
    unfold sweep_action. destruct a; (apply tame_new; intros ev Hev Hk;
      apply respects_bind; [apply _|apply tame_append_if; [done|by rewrite Hk]|intros res]);
      destruct res as [seq| |]; try (apply respects_bind; [apply _|by apply tame_seal|intros _]);
      apply respects_mret, _.
Qed.

Lemma tame_sweep_if_due id p : respects (tame sched_kind id) (sweep_if_due id p).
Proof.
  unfold sweep_if_due. case_match; [|tame_tac].
  apply respects_bind; [apply _|tame_tac|intros now].
  apply respects_recover; [apply _| |intros; tame_tac].
  apply respects_bind; [apply _|apply tame_sweep|intros; tame_tac].
Qed.

Lemma tame_fail_rejected id p : respects (tame sched_kind id) (fail_rejected id p).
Proof. unfold fail_rejected. tame_tac. Qed.

Lemma recover_ok {A} (m : M A) (h : SchedError → M A) w :
  (∀ e w, is_ok (h e w).1 = true) → is_ok (recover m h w).1 = true.
Proof. intros Hh. unfold recover. destruct (m w) as [[a|e] w1]; [done|apply Hh]. Qed.

Lemma sweep_if_due_ok id p w : is_ok (sweep_if_due id p w).1 = true.
Proof. unfold sweep_if_due. case_match; [|done]. rewrite bind_now. by apply recover_ok. Qed.

Lemma fail_rejected_total `{!BackendTotal S} id p w : is_ok (fail_rejected id p w).1 = true.
Proof.
  unfold fail_rejected. revert w. induction (to_fail p) as [|nr l IH]; intros w; [done|].
  cbn [for_each]. rewrite bind_assoc.
  pose proof (append_next_total id (EventKind.NodeFailed nr.1 nr.2 0 false) w) as Ht.
  destruct (append_next _ _ w) as [[ev|e] w1] eqn:Hap; [|done].
  rewrite (bind_run _ _ _ _ _ Hap). apply IH.
Qed.

(** Reading the IR touches only the cache. *)
Lemma load_ir_run wf ver w r w' :
  load_ir wf ver w = (r, w') →
  backend (store w') = backend (store w) ∧ progress (store w') = progress (store w).
Proof.
  unfold load_ir. rewrite bind_gets. destruct (ir_cache (store w) !! (wf, ver)) as [ir|].
  { by intros [= <- <-]. }
  intros Hrun. apply bind_inv in Hrun as [(d & w1 & Hc & Hrest)|(e & Hc & ->)];
    apply call_run in Hc as (r0 & wb & Hg & Hr & ->);
    pose proof (law_get_workflow wf ver (World (backend (store w)) (clock w) (draws w))) as Hl;
    rewrite Hg in Hl; simpl in Hl; subst wb; [|done].
  destruct d as [d|]; [|by injection Hrest as <- <-].
  destruct (ir_from_value (wd_ir d)); by injection Hrest as <- <-.
Qed.

(** The progress a tick works from: the cached fold and the new events. *)
Definition cached (s : Sched S) (id : ExecutionId) : ExecProgress :=
  default ExecProgress_default (progress s !! id).
Definition folded (s : Sched S) (id : ExecutionId) : ExecProgress :=
  apply_all (cached s id) (events_after (pr_last_sequence (cached s id)) (run_log s id)).

Lemma advance_run id w :
  advance id w = (Ok (folded (store w) id),
    World (set_progress (<[id := folded (store w) id]> (progress (store w))) (store w))
      (clock w) (draws w)).
Proof.
  unfold advance. rewrite bind_gets. fold (cached (store w) id).
  rewrite (bind_run _ _ _ _ _ (call_pure _ (λ s, events_after _ (view_log s id)) w
    (law_get_events_since id _))). done.
Qed.

Lemma tame_same_backend P id s s' : backend s' = backend s → tame P id s s'.
Proof.
  intros Hb. split; [split; intros x; unfold run_row, item_at; by rewrite Hb|].
  split; [|intros x _; unfold run_log; by rewrite Hb].
  exists []. unfold run_log. by rewrite Hb, app_nil_r.
Qed.

(** What follows the cascade. *)
Definition after_cascade (id : ExecutionId) (ir : WorkflowIr) (p : ExecProgress)
    (wf ver : string) : M unit :=
  put_progress id p ≫= λ _,
  if decide (max_concurrent_nodes_per_execution config ≤ Z.of_nat (size (scheduled p)))
  then mret tt
  else
    enqueued ← dispatch_loop config id ir p wf ver (iter_map (nodes ir)) 0;
    if decide (enqueued = 0 ∧ scheduled p = ∅) then finish id p else mret tt.

(** A run's turn, up to the dispatch: it stops early having touched no row and
    no item, or reaches the dispatch with the cascade at its fixpoint. *)
Lemma schedule_run id wf ver w r w' :
  schedule_runnable_nodes config id wf ver w = (r, w') →
  (unreadable (folded (store w) id) = true → tame (λ k, k = EventKind.RunStalled UNREADABLE_LOG_REASON) id (store w) (store w'))
  ∧ (tame sched_kind id (store w) (store w')
       ∧ (BackendTotal S → ∀ ir, (load_ir wf ver w).1 ≠ Ok (Some ir))
     ∨ unreadable (folded (store w) id) = true
     ∨ ∃ ir p S w1, tame sched_kind id (store w) (store w1)
        ∧ skips_added (folded (store w) id) S p
        ∧ (∀ n, n ∈ S → doomed ir (folded (store w) id) n)
        ∧ newly_skippable ir p = []
        ∧ after_cascade id ir p wf ver w1 = (r, w')).
Proof.
  unfold schedule_runnable_nodes. intros Hrun.
  apply bind_inv in Hrun as [(loaded & w1 & Hl & Hrun)|(e & Hl & ->)];
    pose proof (load_ir_run _ _ _ _ _ Hl) as [Hb Hp].
  2:{ split; [intros _; by apply tame_same_backend|]. left.
      split; [by apply tame_same_backend|]. intros _ ir. by rewrite Hl. }
  destruct loaded as [ir|].
  2:{ injection Hrun as <- <-. split; [intros _; by apply tame_same_backend|]. left.
      split; [by apply tame_same_backend|]. intros _ ir. by rewrite Hl. }
  assert (folded (store w1) id = folded (store w) id) as Hfold.
  { unfold folded, cached, run_log. by rewrite Hb, Hp. }
  rewrite (bind_run _ _ _ _ _ (advance_run id w1)), Hfold in Hrun.
  set (p0 := folded (store w) id) in *. set (w2 := World _ (clock w1) (draws w1)) in Hrun.
  assert (∀ P, tame P id (store w) (store w2)) as Hw2 by (intros P; by apply tame_same_backend).
  destruct (unreadable p0) eqn:Hu.
  - split; [intros _|by right; left]. unfold record_stall in Hrun.
    destruct (stall_recorded p0); [by injection Hrun as <- <-|].
    etransitivity; [apply Hw2|].
    match type of Hrun with ?m w2 = _ =>
      assert (respects (tame (λ k, k = EventKind.RunStalled UNREADABLE_LOG_REASON) id) m) as Hm end.
    { apply tame_new. intros ev Hev Hk. apply respects_bind; [apply _| |intros; apply respects_mret, _].
      by apply tame_append_if. }
    specialize (Hm w2). by rewrite Hrun in Hm.
  - split; [done|].
    pose proof (tame_sweep_if_due id p0 w2) as Ht3.
    apply bind_inv in Hrun as [(u & w3 & Hs & Hrun)|(e & Hs & ->)]; rewrite Hs in Ht3;
      apply (transitivity (Hw2 sched_kind)) in Ht3; cbn [snd] in Ht3.
    2:{ pose proof (sweep_if_due_ok id p0 w2) as Hok. by rewrite Hs in Hok. }
    pose proof (tame_fail_rejected id p0 w3) as Ht4.
    apply bind_inv in Hrun as [(u' & w4 & Hf & Hrun)|(e & Hf & ->)]; rewrite Hf in Ht4;
      apply (transitivity Ht3) in Ht4; cbn [snd] in Ht4.
    2:{ left. split; [done|]. intros Htot. pose proof (fail_rejected_total id p0 w3) as Hok.
        by rewrite Hf in Hok. }
    assert (∀ ns, Forall sched_kind ((λ n, EventKind.NodeSkipped n "branch not taken") <$> ns))
      as Hkinds by (intros ns; by apply Forall_fmap, Forall_true).
    apply bind_inv in Hrun as [(p & w5 & Hc & Hrun)|(e & Hc & ->)];
      pose proof (skip_cascade_run _ _ _ _ _ _ _ Hc) as (Ht5 & ns & Hdoom & Hlog & Hsk);
      pose proof (transitivity Ht4 (logged_tame _ _ _ _ _ Ht5 Hlog (Hkinds ns))) as Ht6.
    2:{ left. split; [done|]. intros Htot.
        pose proof (skip_cascade_total id ir (size (nodes ir) + 1) p0 w4) as Hok.
        by rewrite Hc in Hok. }
    right; right. destruct Hsk as [Hsa Hfix].
    exists ir, p, (list_to_set ns), w5. split_and!; [done|done| | |done].
    + intros n Hn%elem_of_list_to_set. by apply Hdoom.
    + apply Hfix. assert (size (unskipped ir p0) ≤ size (dom (nodes ir)))%nat.
      { apply subseteq_size. unfold unskipped. set_solver. }
      rewrite size_dom in *. lia.
Qed.

(** ** Finishing *)

Lemma finish_run id p w r w' :
  finish id p w = (r, w') →
  same_items (store w) (store w')
  ∧ ((same_rows (store w) (store w') ∧ logged id [] (store w) (store w'))
     ∨ status <$> run_row (store w') id = Some (outcome p).1
       ∧ (∃ e, run_row (store w) id = Some e ∧ WorkflowStatus.is_terminal (status e) = false)
       ∧ (∀ id', id' ≠ id → run_row (store w') id' = run_row (store w) id')
       ∧ logged id [(outcome p).2] (store w) (store w')).
Proof.
  unfold finish. destruct (outcome p) as [st k]. unfold Event_new.
  rewrite bind_assoc, bind_new_v4, bind_assoc, bind_now, bind_mret. cbn [store clock draws].
  set (ev := {| event_execution_id := id |}). intros Hrun.
  assert (∃ r0 wb, finish_execution ev st (World (backend (store w)) (clock w) (N.succ (draws w)))
    = (r0, wb) ∧ backend (store w') = store wb) as (r0 & wb & Hfin & Hb).
  { apply bind_inv in Hrun as [(u & w1 & Hc & Hrest)|(e & Hc & ->)];
      apply call_run in Hc as (r0 & wb & Hf & Hr & ->); [|by eauto].
    injection Hrest as <- <-. by eauto. }
  apply law_finish in Hfin as (Hit & Hlog & Ho & Hst). cbn [store] in *.
  unfold same_items, same_rows, item_at, run_row, logged, run_log. rewrite Hb.
  split; [exact Hit|]. change (event_execution_id ev) with id in *.
  destruct r0 as [[seq|prior]|e]; [right|left..].
  - destruct Hst as [Hst He]. split_and!; [done|done|done| |].
    + exists [set_sequence ev seq]. split; [|done]. by rewrite (Hlog id), decide_True.
    + intros id' Hne. by rewrite (Hlog id'), decide_False.
  - split; [intros id'; destruct (decide (id' = id)) as [->|]; [done|by apply Ho]|].
    split; [exists []; by rewrite app_nil_r, (Hlog id)|intros id' _; apply Hlog].
  - split; [intros id'; destruct (decide (id' = id)) as [->|]; [done|by apply Ho]|].
    split; [exists []; by rewrite app_nil_r, (Hlog id)|intros id' _; apply Hlog].
Qed.

Lemma after_cascade_run id ir p wf ver w r w' :
  after_cascade id ir p wf ver w = (r, w') →
  (∃ done, done `prefix_of` scheduled_kind <$> plan ir p (iter_map (nodes ir)) 0
     ∧ same_rows (store w) (store w') ∧ logged id done (store w) (store w')
     ∧ (BackendTotal S → is_ok r = true)
     ∧ (is_ok r = true →
          max_concurrent_nodes_per_execution config ≤ Z.of_nat (size (scheduled p))
          ∨ scheduled p ≠ ∅ ∧ done = scheduled_kind <$> plan ir p (iter_map (nodes ir)) 0
          ∨ done = scheduled_kind <$> plan ir p (iter_map (nodes ir)) 0 ∧ done ≠ []))
  ∨ (scheduled p = ∅ ∧ 0 < max_concurrent_nodes_per_execution config
     ∧ plan ir p (iter_map (nodes ir)) 0 = []
     ∧ ∃ w1, tame (λ _, False) id (store w) (store w1) ∧ finish id p w1 = (r, w')).
Proof.
  unfold after_cascade, put_progress. rewrite bind_modify.
  set (w0 := World _ (clock w) (draws w)).
  case_decide as Hcap.
  { intros [= <- <-]. left. exists []. split_and!; [apply prefix_nil|done|exact (logged_nil id (store w))|done|by left]. }
  intros Hrun. apply bind_inv in Hrun as [(n & w1 & Hd & Hrun)|(e & Hd & ->)].
  2:{ pose proof Hd as (Hrow & (done & Hpre & Hl) & _)%dispatch_loop_run. left. exists done.
      split_and!; [done|exact Hrow|exact Hl| |done]. intros Htot.
      pose proof (dispatch_loop_total id ir p wf ver (iter_map (nodes ir)) 0 w0) as Hok.
      by rewrite Hd in Hok. }
  apply dispatch_loop_run in Hd as (Hrow & _ & Hn & Hl & items & HF & _ & Hq).
  case_decide as Hfin.
  - destruct Hfin as [Hzero Hs]. right. split; [done|].
    split; [rewrite Hs, size_empty in Hcap; lia|].
    destruct (plan ir p (iter_map (nodes ir)) 0) as [|nd l] eqn:Hp; [|simpl in Hn; lia].
    split; [done|]. exists w1. split; [|done]. split; [split; [exact Hrow|]|].
    + inversion HF; subst. intros i. by apply (proj1 Hq), not_elem_of_nil.
    + destruct Hl as [(evs & Hevs & Hk) Ho]. split; [|exact Ho]. exists evs. split; [exact Hevs|].
      apply fmap_nil_inv in Hk. by subst evs.
  - injection Hrun as <- <-. left. eexists. split_and!; [reflexivity|exact Hrow|exact Hl|done|].
    intros _. right. destruct (decide (scheduled p = ∅)) as [Hs|Hs]; [right|by left].
    split; [done|]. intros Hnil. apply Hfin. split; [|done].
    apply fmap_nil_inv in Hnil. rewrite Hnil in Hn. done.
Qed.

(** ** Properties *)

(** C5: The skip cascade. It always ends at a fixpoint, the set it skips is
    exactly the least set closed under "every in-edge is dead or comes from the
    set" (so a node any live edge can still reach is never skipped), the only
    events it appends are those skips, to this run's log alone, and on a store
    that does not fail it returns. *)
Theorem skip_cascade_correct (id : ExecutionId) (ir : WorkflowIr) (p : ExecProgress)
    (w : world (Sched S)) :
  let r := skip_cascade id ir (size (nodes ir) + 1) p w in
  same_tables (store w) (store r.2)
  ∧ (∃ ns, (∀ n, n ∈ ns → doomed ir p n)
       ∧ logged id ((λ n, EventKind.NodeSkipped n "branch not taken") <$> ns)
           (store w) (store r.2))
  ∧ match r.1 with
    | Ok p' => newly_skippable ir p' = []
        ∧ ∀ n, n ∈ skipped p' ↔ n ∈ skipped p ∨ doomed ir p n
    | Err _ => True
    end
  ∧ (BackendTotal S → is_ok r.1 = true).
Proof.
  intros res. destruct res as [r w'] eqn:Hrun. subst res. cbn [fst snd].
  pose proof (skip_cascade_run _ _ _ _ _ _ _ Hrun) as (Ht & ns & Hd & Hl & Hr).
  split; [done|]. split; [by eauto|]. split.
  2:{ intros Htot. pose proof (skip_cascade_total id ir (size (nodes ir) + 1) p w) as Hok.
      by rewrite Hrun in Hok. }
  destruct r as [p'|]; [|done]. destruct Hr as [Hsa Hfix].
  assert (newly_skippable ir p' = []) as Hnew.
  { apply Hfix. assert (size (unskipped ir p) ≤ size (dom (nodes ir)))%nat.
    { apply subseteq_size. unfold unskipped. set_solver. }
    rewrite size_dom in *. lia. }
  split; [done|]. intros n. split.
  - rewrite (sa_skipped _ _ _ Hsa). intros [Hn|Hn%elem_of_list_to_set]%elem_of_union; auto.
  - intros [Hn|Hn]; [rewrite (sa_skipped _ _ _ Hsa); set_solver|by eapply doomed_skipped].
Qed.

(** C6: What a tick hands out. The nodes it dispatches are the first runnable
    ones that have not failed, within the per-tick limit and the run's
    concurrency limit; each gets its event and, in the queue, one unclaimed item
    of its own with its payload, retry budget and a newly drawn id: as long as the
    generator repeats no id, the items' ids are distinct, were not in the queue
    before, and each item is there under its id; no other item, log or row
    changes; and on a store that does not fail the loop returns. *)
Theorem dispatch_correct (id : ExecutionId) (ir : WorkflowIr) (p : ExecProgress)
    (wf ver : string) (w : world (Sched S)) :
  let ns := iter_map (nodes ir) in
  let chosen := plan ir p ns 0 in
  let r := dispatch_loop config id ir p wf ver ns 0 w in
  (∀ n node, (n, node) ∈ chosen →
     nodes ir !! n = Some node ∧ n ∉ terminal_failed p ∧ runnable_in ir p n = true)
  ∧ NoDup chosen.*1
  ∧ Z.of_nat (length chosen) ≤ Z.max 0 (max_dispatch_per_tick config)
  ∧ Z.of_nat (length chosen) ≤
      Z.max 0 (max_concurrent_nodes_per_execution config - Z.of_nat (size (scheduled p)))
  ∧ same_rows (store w) (store r.2)
  ∧ (∃ done, done `prefix_of` scheduled_kind <$> chosen ∧ logged id done (store w) (store r.2))
  ∧ match r.1 with
    | Ok n => n = Z.of_nat (length chosen)
        ∧ logged id (scheduled_kind <$> chosen) (store w) (store r.2)
        ∧ ∃ items, Forall2 (item_for id ir p wf ver) items chosen
            ∧ drawn (draws w) (draws r.2) (wi_id <$> items)
            ∧ queued items (store w) (store r.2)
            ∧ (ids_fresh w → NoDup (wi_id <$> items)
                 ∧ ∀ item, item ∈ items → item_at (store w) (wi_id item) = None
                     ∧ item_at (store r.2) (wi_id item) = Some item)
    | Err _ => True
    end
  ∧ (BackendTotal S → is_ok r.1 = true).
Proof.
  intros ns chosen res. destruct res as [r w'] eqn:Hrun. subst res.
  assert (length chosen ≤ Z.to_nat (room p 0))%nat as Hlen by (unfold chosen, plan; rewrite length_take; lia).
  unfold room in Hlen.
  assert (chosen `sublist_of` ns) as Hsub.
  { unfold chosen, plan. etransitivity; [apply sublist_take|apply sublist_filter]. }
  split_and!; [| |lia|lia|..].
  - intros n node Hin. assert ((n, node) ∈ ns) as Hns by by eapply elem_of_sublist.
    split; [by apply iter_map_elem|]. unfold chosen, plan in Hin.
    apply elem_of_take in Hin as (i & Hi & _). apply list_elem_of_lookup_2 in Hi.
    apply list_elem_of_filter in Hi as [Hdis _]. exact Hdis.
  - eapply sublist_NoDup; [|by apply fmap_sublist, Hsub]. apply iter_map_nodup.
  - by apply dispatch_loop_run in Hrun as (? & _).
  - by apply dispatch_loop_run in Hrun as (_ & ? & _).
  - apply dispatch_loop_run in Hrun as (_ & _ & Hr). destruct r as [k|]; [|done].
    destruct Hr as (? & ? & items & ? & Hdr & Hq). split; [done|]. split; [done|].
    exists items. split_and!; [done..|]. intros Hf. by apply queued_each.
  - intros Ht. pose proof (dispatch_loop_total id ir p wf ver ns 0 w) as Hok.
    by rewrite Hrun in Hok.
Qed.

(** The cached progress of a run is the fold of a prefix of its log, whose
    sequences grow from one. *)
Definition synced (s : Sched S) (id : ExecutionId) : Prop :=
  log_sorted (run_log s id) ∧ (∀ ev, ev ∈ run_log s id → 0 < sequence ev)
  ∧ ∃ seen new, run_log s id = seen ++ new
      ∧ cached s id = apply_all ExecProgress_default seen.

Lemma synced_folded s id :
  synced s id → folded s id = apply_all ExecProgress_default (run_log s id).
Proof.
  intros (Hs & Hpos & seen & new & Hlog & Hc). unfold folded. rewrite Hc, Hlog.
  rewrite Hlog in Hs, Hpos. rewrite events_since_prefix by done. by rewrite apply_all_app.
Qed.

(** A scheduler that has not cached the run is in step with its log. *)
Lemma synced_uncached s id :
  progress s !! id = None → log_sorted (run_log s id) →
  (∀ ev, ev ∈ run_log s id → 0 < sequence ev) → synced s id.
Proof.
  intros Hn Hs Hpos. split_and!; [done..|]. exists [], (run_log s id). split; [done|].
  unfold cached. by rewrite Hn.
Qed.

Lemma folded_unreadable s id :
  unreadable (folded s id) = true ↔
  unreadable (cached s id) = true
  ∨ ∃ ev, ev ∈ run_log s id ∧ pr_last_sequence (cached s id) < sequence ev
      ∧ event_kind ev = EventKind.Unknown.
Proof.
  unfold folded.
  destruct (apply_all_grows (events_after (pr_last_sequence (cached s id)) (run_log s id))
    (cached s id) "") as (_ & _ & _ & -> & _).
  rewrite orb_true_iff, existsb_exists. split; (intros [?|(ev & Hev & Hk)]; [by left|right]); exists ev.
  - apply list_elem_of_In, list_elem_of_filter in Hev as [? ?]. split_and!; [done..|].
    unfold is_unknown in Hk. by destruct (event_kind ev).
  - destruct Hk as [Hlt Hk]. split; [apply list_elem_of_In, list_elem_of_filter; done|].
    unfold is_unknown. by rewrite Hk.
Qed.

(** A turn that reads an unknown kind leaves the progress it read cached. *)
Lemma stalled_stays id wf ver w :
  unreadable (folded (store w) id) = true →
  unreadable (folded (store (schedule_runnable_nodes config id wf ver w).2) id) = true.
Proof.
  intros Hu. destruct (schedule_runnable_nodes config id wf ver w) as [r w'] eqn:Hrun. cbn [snd].
  pose proof (proj1 (schedule_run id wf ver w r w' Hrun) Hu) as [_ [(evs & Hlog & _) _]].
  assert (progress (store w') !! id = Some (folded (store w) id)
    ∨ progress (store w') !! id = progress (store w) !! id) as Hp.
  { unfold schedule_runnable_nodes in Hrun.
    apply bind_inv in Hrun as [(loaded & w1 & Hl & Hrun)|(e & Hl & ->)];
      pose proof (load_ir_run _ _ _ _ _ Hl) as [Hb Hp]; [|right; by rewrite Hp].
    destruct loaded as [ir|]; [|injection Hrun as <- <-; right; by rewrite Hp].
    left. assert (folded (store w1) id = folded (store w) id) as Hfold
      by (unfold folded, cached, run_log; by rewrite Hb, Hp).
    rewrite (bind_run _ _ _ _ _ (advance_run id w1)), Hfold, Hu in Hrun.
    set (w2 := World _ (clock w1) (draws w1)) in Hrun.
    assert (progress (store w2) !! id = Some (folded (store w) id)) as Hp2
      by (cbn; by rewrite lookup_insert_eq).
    rewrite <- Hp2. clearbody w2. clear Hp2. unfold record_stall in Hrun.
    destruct (stall_recorded _); [by injection Hrun as _ <-|].
    unfold Event_new in Hrun. rewrite bind_assoc, bind_new_v4, bind_assoc, bind_now, bind_mret in Hrun.
    apply bind_inv in Hrun as [(u & w3 & Hc & Hrest)|(e & Hc & ->)];
      apply call_run in Hc as (r0 & wb & _ & _ & ->); [|done]. by injection Hrest as _ <-. }
  apply folded_unreadable in Hu as Hu'. apply folded_unreadable. unfold cached.
  destruct Hp as [-> | ->]; [left; exact Hu|].
  destruct Hu' as [Hc|(ev & Hev & Hlt & Hk)]; [by left|right]. exists ev.
  split_and!; [|done..]. rewrite Hlog. apply elem_of_app. by left.
Qed.

(** C8: A log this build cannot read stops the run. When among the events a turn
    has folded, on this turn or before, one is of an unknown kind, the turn
    dispatches, skips, fails, expires and finishes nothing: no row and no item
    changes, no other log changes, and the run's own log grows at most by the
    recorded stall; and the run stays so, its next turn being stopped too. While
    the scheduler's cache is in step with the log, every event of the log is
    folded; a skip cascade can put it out of step ([skip_hides_earlier]), and an
    event it hides is the only one that does not count here. *)
Theorem unreadable_log_stalls (id : ExecutionId) (wf ver : string) (w : world (Sched S)) :
  (unreadable (cached (store w) id) = true
   ∨ ∃ ev, ev ∈ run_log (store w) id ∧ event_kind ev = EventKind.Unknown
       ∧ (pr_last_sequence (cached (store w) id) < sequence ev ∨ synced (store w) id)) →
  let w' := (schedule_runnable_nodes config id wf ver w).2 in
  tame (λ k, k = EventKind.RunStalled UNREADABLE_LOG_REASON) id (store w) (store w')
  ∧ unreadable (folded (store w') id) = true.
Proof.
  intros Hunknown w'. assert (unreadable (folded (store w) id) = true) as Hu.
  { destruct Hunknown as [Hc|(ev & Hev & Hk & [Hlt|Hsync])]; [by apply folded_unreadable; left
      |apply folded_unreadable; right; by exists ev|].
    rewrite synced_folded by done.
    destruct (apply_all_grows (run_log (store w) id) ExecProgress_default "")
      as (_ & _ & _ & -> & _). apply existsb_exists. exists ev.
    split; [by apply list_elem_of_In|]. unfold is_unknown. by rewrite Hk. }
  split; [|by apply stalled_stays]. subst w'.
  destruct (schedule_runnable_nodes config id wf ver w) as [r w'] eqn:Hrun.
  by apply (schedule_run id wf ver w r w' Hrun).
Qed.


(** A run in progress that is finished is finished. *)
Lemma finish_total `{!BackendTotal S} id p w e :
  run_row (store w) id = Some e → WorkflowStatus.is_terminal (status e) = false →
  status <$> run_row (store (finish id p w).2) id = Some (outcome p).1.
Proof.
  intros He Ht. unfold finish.
  assert (WorkflowStatus.is_terminal (outcome p).1 = true) as Hterm
    by (unfold outcome; by case_decide).
  destruct (outcome p) as [st k]. unfold Event_new. simpl in Hterm.
  rewrite bind_assoc, bind_new_v4, bind_assoc, bind_now, bind_mret. cbn [store clock draws].
  set (ev := {| event_execution_id := id |}).
  set (wb0 := World (backend (store w)) (clock w) (N.succ (draws w))).
  destruct (total_finish ev st wb0 e Hterm He Ht) as [seq Hok].
  unfold mbind, eff_bind, call. cbn [store clock draws]. fold wb0.
  destruct (finish_execution ev st wb0) as [r0 wb] eqn:Hfin. simpl in Hok. subst r0.
  apply law_finish in Hfin as (_ & _ & _ & [Hst _]). exact Hst.
Qed.

(** C7: A run in progress does not idle. Let both limits be positive, the store
    not fail, and [p] be the progress the turn works from: the cached one and the
    events of the log past it, which is the fold of the whole log while the two
    are in step. When the run's graph loads, [p] met no event of an unknown kind
    and has nothing in flight, the run's turn either dispatches a node or ends the
    run. (A run whose cache a skip cascade put out of step can still show as in
    flight a node that has ended, and then idles: [skip_hides_earlier].) *)
Theorem idle_run_moves (id : ExecutionId) (wf ver : string) (w : world (Sched S))
    (ir : WorkflowIr) (e : WorkflowExecution)
    (Htotal : BackendTotal S)
    (Hlimits : 0 < max_dispatch_per_tick config ∧ 0 < max_concurrent_nodes_per_execution config)
    (Hread : unreadable (folded (store w) id) = false)
    (Hload : (load_ir wf ver w).1 = Ok (Some ir))
    (Hrow : run_row (store w) id = Some e ∧ WorkflowStatus.is_terminal (status e) = false)
    (Hidle : scheduled (folded (store w) id) = ∅) :
  (synced (store w) id → folded (store w) id = apply_all ExecProgress_default (run_log (store w) id)) ∧
  let s' := store (schedule_runnable_nodes config id wf ver w).2 in
  ((∃ st, status <$> run_row s' id = Some st ∧ WorkflowStatus.is_terminal st = true)
   ∨ ∃ evs ev n q, run_log s' id = run_log (store w) id ++ evs ∧ ev ∈ evs
      ∧ event_kind ev = EventKind.NodeScheduled n q).
Proof.
  split; [by apply synced_folded|].
  intros s'. subst s'. destruct Hrow as [Hrow Hterm].
  destruct (schedule_runnable_nodes config id wf ver w) as [r w'] eqn:Hrun. cbn [snd].
  destruct (schedule_run id wf ver w r w' Hrun) as [_ Hcases].
  set (p := folded _ _) in *.
  destruct Hcases as [[_ Hno]|[Hu|(ir' & q & S0 & w1 & Ht & Hsa & HS & Hfix & Haft)]].
  { by destruct (Hno Htotal ir). }
  { congruence. }
  assert (scheduled q = ∅) as Hs0.
  { rewrite (sa_scheduled _ _ _ Hsa), Hidle. set_solver. }
  destruct Ht as [[Hrow1 _] [(evs1 & Hl1 & _) _]].
  apply after_cascade_run in Haft as [(done & _ & _ & Hl & Htot & Hmoved)
    |(_ & _ & _ & w2 & Ht2 & Hfin)].
  - right. destruct (Hmoved (Htot Htotal)) as [Hcap|[[Hne _]|[Hplan Hdone]]].
    + rewrite Hs0, size_empty in Hcap. lia.
    + done.
    + destruct Hl as [(evs2 & Hl2 & Hk) _]. rewrite Hplan in Hk, Hdone.
      destruct (plan _ _ _ _) as [|[n node] l]; [done|].
      destruct evs2 as [|ev evs2]; [done|]. injection Hk as Hk _.
      exists (evs1 ++ ev :: evs2), ev, n, (queue_name node). split_and!; [|set_solver|done].
      by rewrite Hl2, Hl1, (assoc_L _).
  - left. destruct Ht2 as [[Hrow2 _] _].
    assert (run_row (store w2) id = Some e) as He by by rewrite Hrow2, Hrow1.
    pose proof (finish_total id q w2 e He Hterm) as Hst. rewrite Hfin in Hst. simpl in Hst.
    eexists. split; [exact Hst|]. unfold outcome. by case_decide.
Qed.

(** A skip hides what landed before it. The cascade folds its own skip at once,
    under the sequence it read for it, so every event the log already held is
    behind the cached sequence from then on, folded or not. *)
Lemma skip_hides_earlier (id : ExecutionId) (n : string) (p p' : ExecProgress)
    (w w' : world (Sched S)) (ev : Event) :
  skip_nodes id [n] p w = (Ok p', w') → log_sorted (run_log (store w) id) →
  ev ∈ run_log (store w) id →
  ev ∉ events_after (pr_last_sequence p') (run_log (store w') id).
Proof.
  intros Hrun Hs Hev. cbn [skip_nodes] in Hrun.
  apply bind_inv in Hrun as [(sk & w1 & Hap & [= <- <-])|(e & _ & [=])].
  apply append_next_run in Hap as (_ & _ & _ & _ & Hseq & _).
  unfold events_after. rewrite list_elem_of_filter. intros [Hlt _].
  destruct (apply_grows p sk "") as (_ & _ & _ & _ & _ & Hl). rewrite Hl in Hlt.
  assert (sequence ev ≤ log_end (run_log (store w) id)); [|lia].
  apply list_elem_of_split in Hev as (l1 & l2 & Hlog). rewrite Hlog in Hs |- *.
  unfold log_end. rewrite last_app, last_cons. destruct (last l2) as [z|] eqn:Hz; [|simpl; lia].
  apply log_sorted_app in Hs as (_ & Hs & _). apply StronglySorted_inv in Hs as [_ Hf].
  rewrite Forall_forall in Hf. apply last_Some in Hz as [l' ->].
  specialize (Hf z ltac:(apply elem_of_app; right; by left)). simpl. lia.
Qed.

(** ** The tick *)

(** The kinds of events a tick can append. *)
Definition tick_kind (k : EventKind) : Prop :=
  sched_kind k ∨ match k with
    | EventKind.RunStalled _ | EventKind.NodeFailed _ _ _ _ | EventKind.RetryScheduled _ _ _ => True
    | _ => False
    end.

(** Every log grows, at its end, by events of such kinds. *)
Definition grows (s s' : Sched S) : Prop :=
  ∀ id, ∃ evs, run_log s' id = run_log s id ++ evs ∧ Forall (λ ev, tick_kind (event_kind ev)) evs.

#[export] Instance grows_preorder : PreOrder grows.
Proof.
  split.
  - intros s id. exists []. by rewrite app_nil_r.
  - intros s1 s2 s3 G1 G2 id. destruct (G1 id) as (l1 & E1 & F1), (G2 id) as (l2 & E2 & F2).
    exists (l1 ++ l2). by rewrite E2, E1, (assoc_L _), Forall_app.
Qed.

Lemma tame_grows P id s s' : (∀ k, P k → tick_kind k) → tame P id s s' → grows s s'.
Proof.
  intros HP [_ [(evs & Hl & HF) Ho]] id'. destruct (decide (id' = id)) as [->|Hne].
  - exists evs. split; [done|]. eapply Forall_impl; [exact HF|]. auto.
  - exists []. by rewrite app_nil_r, Ho.
Qed.

Lemma logged_grows id ks s s' : Forall tick_kind ks → logged id ks s s' → grows s s'.
Proof.
  intros HF [(evs & Hl & <-) Ho] id'. destruct (decide (id' = id)) as [->|Hne].
  - exists evs. split; [done|]. by rewrite Forall_fmap in HF.
  - exists []. by rewrite app_nil_r, Ho.
Qed.

Lemma grows_append_next id k : tick_kind k → respects grows (append_next id k).
Proof.
  intros Hk w. destruct (append_next id k w) as [r w'] eqn:Hrun.
  apply append_next_run in Hrun as (_ & _ & _ & Hl). destruct r as [ev|e].
  - destruct Hl as (_ & _ & Hl). eapply logged_grows; [by constructor|exact Hl].
  - eapply logged_grows; [constructor|exact Hl].
Qed.

Lemma grows_schedule id wf ver : respects grows (schedule_runnable_nodes config id wf ver).
Proof.
  intros w. destruct (schedule_runnable_nodes config id wf ver w) as [r w'] eqn:Hrun.
  destruct (schedule_run id wf ver w r w' Hrun) as [Hstall
    [[Ht _]|[Hu|(ir & p & S0 & w1 & Ht & _ & _ & _ & Haft)]]].
  - eapply tame_grows; [|exact Ht]. by left.
  - eapply tame_grows; [|exact (Hstall Hu)]. intros k ->. by right.
  - etransitivity; [eapply tame_grows; [|exact Ht]; by left|].
    apply after_cascade_run in Haft as [(done & Hpre & _ & Hl & _)|(_ & _ & _ & w2 & Ht2 & Hfin)].
    + eapply logged_grows; [|exact Hl]. apply Forall_forall. intros k Hk. left.
      destruct Hpre as [l Hpre]. assert (k ∈ scheduled_kind <$> plan ir p (iter_map (nodes ir)) 0) as Hin
        by (rewrite Hpre; apply elem_of_app; by left).
      by apply list_elem_of_fmap in Hin as (nd & -> & _).
    + etransitivity; [eapply tame_grows; [|exact Ht2]; done|].
      apply finish_run in Hfin as [_ [[_ Hl]|(_ & _ & _ & Hl)]];
        (eapply logged_grows; [|exact Hl]); [constructor|]. constructor; [|constructor].
      left. unfold outcome. by case_decide.
Qed.

Lemma grows_reclaim : respects grows sched_reclaim_expired_leases.
Proof.
  unfold sched_reclaim_expired_leases. apply respects_bind; [apply _| |intros rc].
  - intros w id. unfold call.
    destruct (reclaim_expired_leases _) as [r wb] eqn:Hr. exists []. rewrite app_nil_r.
    split; [|done]. unfold run_log. cbn. by rewrite (law_reclaim _ _ _ Hr).
  - unfold emit_retry, emit_exhausted.
    apply respects_bind; [apply _| |intros _]; apply respects_for_each; try apply _; intros item;
      repeat (apply respects_bind; [apply _|apply grows_append_next; by right|intros _]);
      apply respects_mret, _.
Qed.

(** C9: The scheduler decides nothing for anyone. Over a whole tick every
    run's log only grows, and only by schedules, skips, final failures, retries,
    stalls, escalations, ends of runs and audit gaps: no approval, no node
    completion and no cancellation is ever of the scheduler's making, and the
    one rejection it records is the deadline's, under its own principal. *)
Theorem tick_never_decides (w : world (Sched S)) (id : ExecutionId) :
  let s' := store (tick config w).2 in
  ∃ evs, run_log s' id = run_log (store w) id ++ evs
    ∧ ∀ ev, ev ∈ evs → match event_kind ev with
        | EventKind.NodeScheduled _ _ | EventKind.NodeSkipped _ _ | EventKind.NodeFailed _ _ _ _
        | EventKind.RetryScheduled _ _ _ | EventKind.RunStalled _
        | EventKind.ApprovalEscalated _ _ _ _ | EventKind.AuditSealFailed _ _ _ _
        | EventKind.WorkflowCompleted _ | EventKind.WorkflowFailed _ => True
        | EventKind.ApprovalExpired _ _ _ principal => principal = DEADLINE_PRINCIPAL
        | _ => False
        end.
Proof.
  intros s'. subst s'.
  assert (respects grows (tick config)) as Hg.
  { unfold tick. apply respects_bind; [apply _| |intros _].
    - apply respects_recover; [apply _|apply grows_reclaim|intros; apply respects_mret, _].
    - apply respects_bind; [apply _| |intros running].
      + intros w'. eapply tame_grows; [|apply (tame_read (λ _, False) id)]; [done|].
        intros wb. apply law_list_executions.
      + apply respects_for_each; [apply _|]. intros e.
        apply respects_recover; [apply _|apply grows_schedule|intros; apply respects_mret, _]. }
  destruct (Hg w id) as (evs & Hl & HF). exists evs. split; [done|].
  intros ev Hev. rewrite Forall_forall in HF. specialize (HF ev Hev).
  unfold tick_kind, sched_kind in HF. destruct (event_kind ev); tauto.
Qed.
End Effects.

(** ** A concrete run *)

Module SchedulerSample.
#[local] Existing Instances plain_uuid milli_chrono code_json plain_sha256.
#[local] Existing Instances Sample.order_exec Sample.order_item Sample.order_tenant
  Sample.order_pair.
#[local] Instance order_string : IterOrder string := list_order string.

Definition run : ExecutionId := mkExecutionId 7.

Definition node_of (n : string) (k : NodeKind) : NodeDef := {|
  id := n; kind := k; retry_policy := None; node_timeout_secs := None; nd_description := None;
  nd_labels := ∅; nd_policy := None; nd_data_policy := None; nd_agent_ref := None |}.

(** A condition [c] choosing between [x] and [y], beside a tool [h]. *)
Definition fork : WorkflowIr := {|
  ir_workflow_id := "w"; version := "1.0.0"; name := None; ir_description := None;
  state_schema := ""; start_node := "c";
  nodes := list_to_map [
    ("c", node_of "c" (NodeKind.Condition [{| condition := None; target := "x" |}]));
    ("x", node_of "x" (NodeKind.PythonFn "m" "f" "" false));
    ("y", node_of "y" (NodeKind.PythonFn "m" "g" "" false));
    ("h", node_of "h" (NodeKind.Tool "t" ∅ ""))];
  edges := [{| from := "c"; to := "x"; edge_condition := None |};
            {| from := "c"; to := "y"; edge_condition := None |}];
  retry_policies := ∅;
  timeouts := {| node_timeout := None; workflow_timeout := None; heartbeat_interval := 0 |};
  models := ∅; tools := ∅; mcp_servers := ∅; remote_agents := ∅; labels := ∅; policy := None;
  token_budget := None; cost_budget_usd := None; on_budget_exceeded := None;
  continue_as_new := false; data_policy := None; agent_ref := None |}.

#[local] Instance env : SchedEnv := {|
  ir_from_value := λ _, Some fork; debug_tenant := λ _, ""; sealer := None |}.

Definition run7 : WorkflowExecution := {|
  execution_id := run; workflow_id := "w"; workflow_version := "1.0.0";
  status := WorkflowStatus.Running; initial_input := Object []; current_state := Object [];
  started_at := 0; updated_at := 0; completed_at := None; session_type := None;
  parent_execution_id := None; segment_number := 0 |}.

Definition deadline : Z := 60 * NANOS_PER_SEC.
Definition request : EventKind := EventKind.ToolApprovalRequired "h" "t" "human"
  (obj [("expires_at", Str (rfc3339_millis deadline))]).
Definition chose_x : EventKind := EventKind.NodeCompleted "c" (obj [("chosen_target", Str "x")])
  (Object []) 0 None None None None None None None None.

(** [c] is done and [h] waits for its approval; then time passes the deadline. *)
Definition before (d : Z) : world (Sched InMemoryBackend) :=
  let w := (run_ops [
    OpStoreWorkflow {| wd_workflow_id := "w"; wd_version := "1.0.0"; wd_ir := Null;
                       wd_created_at := 0; wd_tenant_id := "default" |};
    OpStart run7 (EventKind.WorkflowStarted "w" "1.0.0" (Object []) None)
      (EventKind.NodeScheduled "c" "general") Sample.item;
    OpAppend (sample_event 0 (EventKind.NodeScheduled "h" "tool"));
    OpAppend (sample_event 0 request);
    OpAppend (sample_event 0 chose_x); OpComplete 5; OpTick d] start_world).2 in
  World (mkSched (store w) ∅ ∅) (clock w) (draws w).

Definition tick1 (w : world (Sched InMemoryBackend)) : world (Sched InMemoryBackend) :=
  (tick SchedulerConfig_default w).2.

Lemma iter_fix {A} (f : A → A) x n : f x = x → Nat.iter n f x = x.
Proof. intros Hf. induction n as [|n IH]; [done|]. simpl. by rewrite IH. Qed.

(** An approval expiry recorded in the tick that skips a branch is lost to
    the scheduler. The skip cascade folds its own [NodeSkipped] and so moves the
    fold past the [ApprovalExpired] the same tick's sweep appended: the log
    rejects [h], yet however often the scheduler ticks on, it holds [h] in
    flight, and the run neither fails nor ends. *)
Theorem expiry_lost_in_skip_tick (n : nat) :
  let w := Nat.iter n tick1 (tick1 (tick1 (before (deadline + NANOS_PER_SEC)))) in
  let log := run_log (store w) run in
  expired_by_deadline log "h" = true
  ∧ rejected (apply_all ExecProgress_default log) !! "h" ≠ None
  ∧ "h" ∈ scheduled (cached (store w) run) ∧ rejected (cached (store w) run) = ∅
  ∧ status <$> run_row (store w) run = Some WorkflowStatus.Running.
Proof.
  set (w2 := tick1 (tick1 (before (deadline + NANOS_PER_SEC)))).
  assert (tick1 w2 = w2) as Hfix by (vm_compute; reflexivity).
  rewrite (iter_fix tick1 w2 n Hfix). cbv zeta.
  split_and!; [vm_compute; reflexivity| | |vm_compute; reflexivity|vm_compute; reflexivity].
  - vm_compute. done.
  - apply (bool_decide_eq_true_1 _). vm_compute. reflexivity.
Qed.

(** *** The properties at this run *)

Lemma sorted_by_compute (l : list Event) :
  bool_decide (StronglySorted Z.lt (sequence <$> l)) = true → log_sorted l.
Proof.
  rewrite bool_decide_eq_true. induction l as [|e l IH]; intros Hs; [constructor|].
  simpl in Hs. apply StronglySorted_inv in Hs as [Hs Hf]. constructor; [by apply IH|].
  by rewrite Forall_fmap in Hf.
Qed.
Lemma positive_by_compute (l : list Event) :
  forallb (λ ev, bool_decide (0 < sequence ev)) l = true → ∀ ev, ev ∈ l → 0 < sequence ev.
Proof.
  rewrite forallb_forall. intros Hl ev Hev%list_elem_of_In. specialize (Hl ev Hev).
  by apply bool_decide_eq_true in Hl.
Qed.

(** A fresh scheduler is in step with every log. *)
Lemma synced_fresh (w : world (Sched InMemoryBackend)) :
  bool_decide (StronglySorted Z.lt (sequence <$> run_log (store w) run)) = true →
  forallb (λ ev, bool_decide (0 < sequence ev)) (run_log (store w) run) = true →
  progress (store w) = ∅ → synced (store w) run.
Proof.
  intros Hs Hp Hc. split; [by apply sorted_by_compute|]. split; [by apply positive_by_compute|].
  exists [], (run_log (store w) run). split; [done|]. unfold cached. by rewrite Hc.
Qed.

Definition in_run (ks : list EventKind) : world (Sched InMemoryBackend) :=
  let w := (run_ops (
    OpStoreWorkflow {| wd_workflow_id := "w"; wd_version := "1.0.0"; wd_ir := Null;
                       wd_created_at := 0; wd_tenant_id := "default" |} ::
    OpStart run7 (EventKind.WorkflowStarted "w" "1.0.0" (Object []) None)
      (EventKind.NodeScheduled "c" "general") Sample.item ::
    ((λ k, OpAppend (sample_event 0 k)) <$> ks) ++ [OpComplete 5]) start_world).2 in
  World (mkSched (store w) ∅ ∅) (clock w) (draws w).
Definition done_node (n : string) : EventKind :=
  EventKind.NodeCompleted n (Object []) (Object []) 0 None None None None None None None None.

Lemma incremental_witness :
  let log := run_log (store (in_run [chose_x; done_node "x"])) run in
  let p := apply_all ExecProgress_default (take 2 log) in
  apply_all p (events_after (pr_last_sequence p) (take 2 log ++ drop 2 log))
  = apply_all ExecProgress_default (take 2 log ++ drop 2 log).
Proof.
  refine (incremental_fold _ _ _ _).
  - apply sorted_by_compute. vm_compute. reflexivity.
  - apply positive_by_compute. vm_compute. reflexivity.
Defined.

Lemma stalls_witness :
  let w := in_run [EventKind.Unknown; chose_x] in
  run_row (store (schedule_runnable_nodes SchedulerConfig_default run "w" "1.0.0" w).2) run
  = run_row (store w) run.
Proof.
  intros w. refine (proj1 (proj1 (proj1 (unreadable_log_stalls SchedulerConfig_default run "w" "1.0.0" w
    _))) run).
  right. exists (set_sequence (sample_event 0 EventKind.Unknown) 3). split_and!; [|reflexivity|].
  - apply list_elem_of_In. vm_compute. tauto.
  - left. vm_compute. reflexivity.
Defined.


Lemma idle_witness :
  let w := in_run [chose_x] in
  let s' := store (schedule_runnable_nodes SchedulerConfig_default run "w" "1.0.0" w).2 in
  (∃ st, status <$> run_row s' run = Some st ∧ WorkflowStatus.is_terminal st = true)
  ∨ ∃ evs ev n q, run_log s' run = run_log (store w) run ++ evs ∧ ev ∈ evs
      ∧ event_kind ev = EventKind.NodeScheduled n q.
Proof.
  intros w. apply (idle_run_moves SchedulerConfig_default run "w" "1.0.0" w fork run7
    InMemory_total).
  - split; reflexivity.
  - vm_compute. reflexivity.
  - reflexivity.
  - split; vm_compute; reflexivity.
  - vm_compute. reflexivity.
Defined.

Lemma cascade_witness :
  is_ok (skip_cascade run fork (size (nodes fork) + 1)
    (folded (store (in_run [chose_x])) run) (in_run [chose_x])).1 = true.
Proof.
  exact (proj2 (proj2 (proj2 (skip_cascade_correct run fork _ _))) InMemory_total).
Defined.

Lemma dispatch_witness :
  let w := in_run [chose_x] in
  let r := dispatch_loop SchedulerConfig_default run fork (folded (store w) run) "w" "1.0.0"
             (iter_map (nodes fork)) 0 w in
  r.1 = Ok 2
  ∧ ∃ item, item_at (store w) (wi_id item) = None ∧ item_at (store r.2) (wi_id item) = Some item.
Proof.
  intros w r. split; [vm_compute; reflexivity|].
  pose proof (dispatch_correct SchedulerConfig_default run fork (folded (store w) run) "w" "1.0.0" w)
    as (_ & _ & _ & _ & _ & _ & Hr & _). fold r in Hr.
  assert (r.1 = Ok 2) as Hok by (vm_compute; reflexivity). rewrite Hok in Hr.
  destruct Hr as (Hn & _ & items & Hf & _ & _ & Heach).
  destruct Heach as [_ Hin].
  { split; [intros d d' _ _ [=]; lia|]. intros d _. vm_compute. reflexivity. }
  apply Forall2_length in Hf. rewrite <- Hf in Hn. destruct items as [|item items]; [discriminate Hn|].
  exists item. apply Hin. by left.
Defined.

Lemma tick_witness :
  ∃ evs, run_log (store (tick SchedulerConfig_default (in_run [chose_x])).2) run
    = run_log (store (in_run [chose_x])) run ++ evs.
Proof.
  destruct (tick_never_decides SchedulerConfig_default (in_run [chose_x]) run) as (evs & Hl & _).
  exists evs. exact Hl.
Defined.
End SchedulerSample.
