(* ===== verification/Policy.v ===== *)
(** * Policy evaluation and agent limits ([runtime/policy]: [lib.rs],
    [engine.rs], [autonomy.rs]; [agents/src/card.rs])

    Which decision a stack of policy sets takes on a node, how name patterns
    match, and when an agent's limits refuse its next step. *)

From S2P Require Import Prelude.
From S2P Require Import Json.
From S2P Require Import RustStr.
From S2P Require Import Core.
From S2P Require Import Condition.
From S2P Require Import Ir.
From S2P Require Import Budget.
From Stdlib Require Import Ascii.

(** ** Glob matching *)

Definition STAR : N := 42.
Definition QUESTION : N := 63.

(** [glob_match_inner]. *)
Fixpoint glob_match_inner (p : list N) : list N → bool :=
  match p with
  | [] => λ v, match v with [] => true | _ :: _ => false end
  | pc :: p' =>
      if decide (pc = STAR) then
        fix star (v : list N) : bool :=
          glob_match_inner p' v || match v with [] => false | _ :: v' => star v' end
      else λ v, match v with
        | [] => false
        | vc :: v' =>
            if decide (pc = QUESTION) then glob_match_inner p' v'
            else if decide (pc = vc) then glob_match_inner p' v' else false
        end
  end.

Definition glob_match (pattern value : string) : bool :=
  glob_match_inner (chars pattern) (chars value).

Definition glob_matches (pattern value : string) : bool := glob_match pattern value.

(** ** Evaluation *)

Inductive PolicyDecision :=
| Allow
| Block (reason : string)
| RequireApproval (approver : string).

Record EvaluationContext := {
  ec_node_id : string;
  node_kind_tag : string;
  tool_name : option string;
  ec_model_ref : option string;
}.

Definition FUNCTION_KIND_TAGS : list string := ["python_fn"; "java_fn"; "external_fn"].
Definition PYTHON_REF_TAG : string := "python_ref".

(** [node_kind_tag]: the serde tag of the kind. *)
Definition node_kind_tag_of (k : NodeKind) : string :=
  match k with
  | NodeKind.Model _ _ _ _ _ => "model"
  | NodeKind.Tool _ _ _ => "tool"
  | NodeKind.PythonFn _ _ _ _ => "python_fn"
  | NodeKind.JavaFn _ _ _ _ => "java_fn"
  | NodeKind.ExternalFn _ _ _ => "external_fn"
  | NodeKind.Condition _ => "condition"
  | NodeKind.Parallel _ => "parallel"
  | NodeKind.Join _ _ => "join"
  | NodeKind.HumanApproval _ _ _ => "human_approval"
  | NodeKind.Wait _ _ _ => "wait"
  | NodeKind.Subgraph _ _ _ _ => "subgraph"
  | NodeKind.MemoryRetrieval _ _ _ => "memory_retrieval"
  | NodeKind.Policy _ _ => "policy"
  | NodeKind.Finalizer _ _ => "finalizer"
  | NodeKind.Agent _ _ _ => "agent"
  | NodeKind.McpTool _ _ _ _ => "mcp_tool"
  | NodeKind.A2aTask _ _ _ _ _ _ _ => "a2a_task"
  | NodeKind.AgentDiscovery _ _ _ => "agent_discovery"
  | NodeKind.Coordinator _ _ _ _ _ _ _ _ _ _ => "coordinator"
  | NodeKind.AgentTool _ _ _ _ _ _ => "agent_tool"
  | NodeKind.Eval _ _ _ _ => "eval"
  | NodeKind.LimitExceeded => "limit_exceeded"
  end.

(** [extract_names]: the tool name and the model reference. *)
Definition extract_names (k : NodeKind) : option string * option string :=
  match k with
  | NodeKind.Tool tool_ref _ _ | NodeKind.Finalizer tool_ref _ => (Some tool_ref, None)
  | NodeKind.McpTool _ tool _ _ => (Some tool, None)
  | NodeKind.AgentTool (Explicit uri) _ _ _ _ _ => (Some uri, None)
  | NodeKind.A2aTask _ skill _ _ _ _ _ => (Some skill, None)
  | NodeKind.Model model_ref _ _ _ _ => (None, Some model_ref)
  | NodeKind.PythonFn module function _ _ => (Some (module +:+ ":" +:+ function), None)
  | NodeKind.JavaFn class_name method _ _ => (Some (class_name +:+ "/" +:+ method), None)
  | NodeKind.ExternalFn queue handler _ => (Some (queue +:+ "/" +:+ handler), None)
  | NodeKind.Agent agent_ref _ _ => (Some agent_ref, None)
  | _ => (None, None)
  end.

Definition from_node_kind (node_id : string) (k : NodeKind) : EvaluationContext := {|
  ec_node_id := node_id; node_kind_tag := node_kind_tag_of k;
  tool_name := (extract_names k).1; ec_model_ref := (extract_names k).2 |}.

Definition policy_names (ctx : EvaluationContext) : list string :=
  match tool_name ctx with Some t => [t] | None => [] end
  ++ (if decide (node_kind_tag ctx ∈ FUNCTION_KIND_TAGS) then [ec_node_id ctx] else []).

Definition canonical_handler (ctx : EvaluationContext) : option string :=
  name ← tool_name ctx;
  if decide (node_kind_tag ctx = "python_fn" ∨ node_kind_tag ctx = PYTHON_REF_TAG)
  then Some (replace_chars [":"%char] "."%char name)
  else if decide (node_kind_tag ctx = "java_fn")
  then Some (replace_chars ["/"%char] "."%char name)
  else None.

Definition canonical_pattern (pattern : string) : string :=
  replace_chars [":"%char; "/"%char] "."%char pattern.

(** [EvaluationContext::matches]. *)
Definition matches (ctx : EvaluationContext) (pattern : string) : option string :=
  match List.find (glob_match pattern) (policy_names ctx) with
  | Some name => Some name
  | None =>
      canonical ← canonical_handler ctx;
      if glob_match (canonical_pattern pattern) canonical then Some canonical else None
  end.

Definition model_matches (pattern model : string) : bool :=
  if glob_match pattern model then true
  else if str_contains "/"%char pattern then false
  else glob_match pattern (before_char "/"%char model).

Fixpoint blocked_by (ctx : EvaluationContext) (patterns : list string) : option PolicyDecision :=
  match patterns with
  | [] => None
  | pattern :: patterns =>
      match matches ctx pattern with
      | Some name => Some (Block ("tool '" +:+ name +:+ "' matches blocked pattern '"
                                  +:+ pattern +:+ "'"))
      | None => blocked_by ctx patterns
      end
  end.
Fixpoint approval_by (ctx : EvaluationContext) (patterns : list string) : option PolicyDecision :=
  match patterns with
  | [] => None
  | pattern :: patterns =>
      match matches ctx pattern with
      | Some _ => Some (RequireApproval "human")
      | None => approval_by ctx patterns
      end
  end.

(** One turn of [evaluate]'s loop: the decision of one policy set, if it takes one. *)
Definition level_decision (ctx : EvaluationContext) (policy : PolicySetIr) : option PolicyDecision :=
  if decide (node_kind_tag ctx = "model" ∧ model_allowlist policy ≠ []) then
    let allowed := existsb (λ pattern,
      match ec_model_ref ctx with Some m => model_matches pattern m | None => false end)
      (model_allowlist policy) in
    if negb allowed
    then Some (Block ("model '" +:+ default "unknown" (ec_model_ref ctx)
                      +:+ "' is not in the allowlist"))
    else Some Allow
  else
    match blocked_by ctx (blocked_tools policy) with
    | Some d => Some d
    | None => approval_by ctx (require_approval_for policy)
    end.

Fixpoint evaluate_levels (ctx : EvaluationContext) (most_specific_first : list PolicySetIr)
    : PolicyDecision :=
  match most_specific_first with
  | [] => Allow
  | policy :: rest =>
      match level_decision ctx policy with
      | Some d => d
      | None => evaluate_levels ctx rest
      end
  end.

(** [PolicyEvaluator::evaluate]; the sets come least specific first. *)
Definition evaluate (ctx : EvaluationContext) (policy_sets : list PolicySetIr) : PolicyDecision :=
  evaluate_levels ctx (reverse policy_sets).

(** ** Agent limits *)

Inductive OnLimitExceeded := OnLimitFail | EscalateToHuman.

Record AutonomyConstraints := {
  max_iterations : option Z;
  max_tool_calls : option Z;
  ac_token_budget : option Z;
  ac_cost_budget_usd : option f64;
  ac_allowed_tools : list string;
  ac_blocked_tools : list string;
  allowed_delegations : list string;
  ac_require_approval_for : list string;
  time_budget_secs : option Z;
  max_consecutive_errors : option Z;
  on_limit_exceeded : option OnLimitExceeded;
}.

Definition DEFAULT_MAX_CONSECUTIVE_ERRORS : Z := 3.

Record AgentUsage := {
  iterations : Z;
  au_tool_calls : Z;
  au_tokens : Z;
  au_cost_usd : f64;
  au_consecutive_errors : Z;
  elapsed_ms : option Z;
}.

Record Step := { step_tool_calls : Z }.

Inductive AutonomyDecision :=
| Proceed
| LimitReached (limit_type : string) (limit_value actual_value : Value)
| CircuitBreakerTripped (consecutive_errors threshold : Z).

(** [autonomy::check]: the limits in the code's order, each an early return. *)
Definition check (constraints : option AutonomyConstraints) (usage : AgentUsage) (step : Step)
    : AutonomyDecision :=
  let threshold := default DEFAULT_MAX_CONSECUTIVE_ERRORS
                     (constraints ≫= max_consecutive_errors) in
  if decide (threshold ≤ au_consecutive_errors usage)
  then CircuitBreakerTripped (au_consecutive_errors usage) threshold
  else match constraints with
  | None => Proceed
  | Some c =>
      let after_time :=
        match time_budget_secs c, elapsed_ms usage with
        | Some secs, Some elapsed =>
            if decide (u64_sat_mul secs 1000 ≤ elapsed)
            then LimitReached "time_budget" (num secs) (num elapsed) else Proceed
        | _, _ => Proceed
        end in
      let after_cost :=
        match ac_cost_budget_usd c with
        | Some max =>
            if negb (f64_lt (au_cost_usd usage) max)
            then LimitReached "cost_budget" (f64_to_value max) (f64_to_value (au_cost_usd usage))
            else after_time
        | None => after_time
        end in
      let after_tokens :=
        match ac_token_budget c with
        | Some max => if decide (max ≤ au_tokens usage)
            then LimitReached "token_budget" (num max) (num (au_tokens usage)) else after_cost
        | None => after_cost
        end in
      let after_calls :=
        match max_tool_calls c with
        | Some max =>
            let would_be := u64_add (au_tool_calls usage) (step_tool_calls step) in
            if decide (0 < step_tool_calls step ∧ max < would_be)
            then LimitReached "max_tool_calls" (num max) (num would_be) else after_tokens
        | None => after_tokens
        end in
      match max_iterations c with
      | Some max => if decide (max ≤ iterations usage)
          then LimitReached "max_iterations" (num max) (num (iterations usage)) else after_calls
      | None => after_calls
      end
  end.

(** ** What a glob means *)

(** [*] stands for any run of characters, [?] for one, the rest for itself. *)
Inductive glob : list N → list N → Prop :=
| glob_end : glob [] []
| glob_star p w v : glob p v → glob (STAR :: p) (w ++ v)
| glob_question p c v : glob p v → glob (QUESTION :: p) (c :: v)
| glob_literal p c v : c ≠ STAR → c ≠ QUESTION → glob p v → glob (c :: p) (c :: v).

Lemma glob_star_eq p v :
  glob_match_inner (STAR :: p) v =
    glob_match_inner p v || match v with [] => false | _ :: v' => glob_match_inner (STAR :: p) v' end.
Proof. by destruct v. Qed.

Lemma glob_match_inner_iff p v : glob_match_inner p v = true ↔ glob p v.
Proof.
  split.
  - revert v. induction p as [|c p IH]; intros v; [destruct v; [constructor|done]|].
    destruct (decide (c = STAR)) as [->|Hs].
    + induction v as [|d v IHv]; rewrite glob_star_eq, orb_true_iff; intros [Hm|Hm]; try done.
      * by apply (glob_star p []), IH.
      * by apply (glob_star p []), IH.
      * specialize (IHv Hm). inversion IHv as [|? w v' Hg| |]; subst; [|done].
        by apply (glob_star p (d :: w)).
    + simpl. rewrite decide_False by done. destruct v as [|d v]; [done|].
      case_decide as Hq; [subst; intros; by apply glob_question, IH|].
      case_decide; [subst; intros; by apply glob_literal, IH|done].
  - induction 1 as [|p w v _ IH|p c v _ IH|p c v Hs Hq _ IH]; [done| | |].
    + induction w as [|d w IHw]; simpl app; rewrite glob_star_eq; [by rewrite IH|].
      by rewrite IHw, orb_true_r.
    + done.
    + simpl. by rewrite decide_False, decide_False, decide_True.
Qed.

(** A substitution of characters that keeps the wildcards keeps matches. *)
Lemma glob_fmap (f : N → N) p v :
  (∀ c, f c = STAR ↔ c = STAR) → (∀ c, f c = QUESTION ↔ c = QUESTION) →
  glob p v → glob (f <$> p) (f <$> v).
Proof.
  intros Hs Hq. induction 1 as [|p w v _ IH|p c v _ IH|p c v Hcs Hcq _ IH]; csimpl.
  - constructor.
  - rewrite fmap_app. rewrite (proj2 (Hs STAR)) by done. by constructor.
  - rewrite (proj2 (Hq QUESTION)) by done. by constructor.
  - constructor; [by rewrite Hs|by rewrite Hq|done].
Qed.

(** ** What a stack of policies means *)

(** The set says nothing of the node. *)
Definition silent (ctx : EvaluationContext) (policy : PolicySetIr) : Prop :=
  ¬ (node_kind_tag ctx = "model" ∧ model_allowlist policy ≠ [])
  ∧ (∀ pat, pat ∈ blocked_tools policy → matches ctx pat = None)
  ∧ (∀ pat, pat ∈ require_approval_for policy → matches ctx pat = None).

(** An allowlist of the set decides the node, and admits its model or not. *)
Definition allowlisted (ctx : EvaluationContext) (policy : PolicySetIr) : Prop :=
  node_kind_tag ctx = "model" ∧ model_allowlist policy ≠ [].
Definition admits (ctx : EvaluationContext) (policy : PolicySetIr) : Prop :=
  ∃ m pat, ec_model_ref ctx = Some m ∧ pat ∈ model_allowlist policy ∧ model_matches pat m = true.
Definition names (ctx : EvaluationContext) (patterns : list string) : Prop :=
  ∃ pat, pat ∈ patterns ∧ is_Some (matches ctx pat).

Lemma names_none ctx patterns :
  ¬ names ctx patterns ↔ ∀ pat, pat ∈ patterns → matches ctx pat = None.
Proof.
  unfold names. split.
  - intros Hn pat Hp. destruct (matches ctx pat) eqn:Hm; [|done]. destruct Hn.
    exists pat. by rewrite Hm.
  - intros Ha (pat & Hp & [n Hm]). by rewrite Ha in Hm.
Qed.

Lemma blocked_by_spec ctx patterns :
  match blocked_by ctx patterns with
  | Some (Block _) => names ctx patterns
  | Some _ => False
  | None => ¬ names ctx patterns
  end.
Proof.
  induction patterns as [|pat patterns IH]; simpl; [by intros (? & ?%not_elem_of_nil & _)|].
  destruct (matches ctx pat) eqn:Hm.
  - exists pat. split; [left|by rewrite Hm].
  - destruct (blocked_by ctx patterns) as [[]|]; try done.
    + destruct IH as (q & Hq & Hs). exists q. split; [by right|done].
    + intros (q & [->|Hq]%elem_of_cons & Hs); [rewrite Hm in Hs; by destruct Hs|].
      apply IH. by exists q.
Qed.

Lemma approval_by_spec ctx patterns :
  match approval_by ctx patterns with
  | Some (RequireApproval a) => names ctx patterns ∧ a = "human"
  | Some _ => False
  | None => ¬ names ctx patterns
  end.
Proof.
  induction patterns as [|pat patterns IH]; simpl; [by intros (? & ?%not_elem_of_nil & _)|].
  destruct (matches ctx pat) eqn:Hm.
  - split; [|done]. exists pat. split; [left|by rewrite Hm].
  - destruct (approval_by ctx patterns) as [[]|]; try done.
    + destruct IH as ((q & Hq & Hs) & ->). split; [|done]. exists q. split; [by right|done].
    + intros (q & [->|Hq]%elem_of_cons & Hs); [rewrite Hm in Hs; by destruct Hs|].
      apply IH. by exists q.
Qed.

Lemma level_decision_spec ctx policy :
  match level_decision ctx policy with
  | None => silent ctx policy
  | Some Allow => allowlisted ctx policy ∧ admits ctx policy
  | Some (Block _) => (allowlisted ctx policy ∧ ¬ admits ctx policy)
      ∨ (¬ allowlisted ctx policy ∧ names ctx (blocked_tools policy))
  | Some (RequireApproval a) => a = "human" ∧ ¬ allowlisted ctx policy
      ∧ ¬ names ctx (blocked_tools policy) ∧ names ctx (require_approval_for policy)
  end.
Proof.
  unfold level_decision. case_decide as Ha.
  - set (ok := existsb _ _). assert (ok = true ↔ admits ctx policy) as Hok.
    { unfold ok, admits. rewrite existsb_exists. setoid_rewrite <- list_elem_of_In. split.
      - intros (pat & Hp & Hm). destruct (ec_model_ref ctx) as [m|]; [|done]. eauto.
      - intros (m & pat & -> & Hp & Hm). eauto. }
    destruct ok; simpl.
    + split; [done|]. by apply Hok.
    + left. split; [done|]. by rewrite <- Hok.
  - pose proof (blocked_by_spec ctx (blocked_tools policy)) as Hb.
    destruct (blocked_by ctx (blocked_tools policy)) as [[]|]; try done; [by right|].
    pose proof (approval_by_spec ctx (require_approval_for policy)) as Hq.
    destruct (approval_by ctx _) as [[]|]; try done.
    + by destruct Hq.
    + split_and!; [done|by apply names_none|by apply names_none].
Qed.

(** The first set that speaks, from the most specific. *)
Lemma evaluate_levels_first ctx l :
  (Forall (silent ctx) l ∧ evaluate_levels ctx l = Allow)
  ∨ ∃ l1 policy l2 d, l = l1 ++ policy :: l2 ∧ Forall (silent ctx) l1
      ∧ level_decision ctx policy = Some d ∧ evaluate_levels ctx l = d.
Proof.
  induction l as [|policy l IH]; simpl; [left; by split|].
  pose proof (level_decision_spec ctx policy) as Hs.
  destruct (level_decision ctx policy) as [d|] eqn:Hd.
  - right. exists [], policy, l, d. by split_and!.
  - destruct IH as [[HF He]|(l1 & q & l2 & d & -> & HF & Hq & He)].
    + left. split; [by constructor|done].
    + right. exists (policy :: l1), q, l2, d. split_and!; [done|by constructor|done|done].
Qed.

(** ** Properties *)

(** What a pattern matches. [glob_match] holds exactly when the value is the
    pattern with each [*] replaced by some run of characters and each [?] by one. *)
Theorem glob_match_correct (pattern value : string) :
  glob_matches pattern value = true ↔ glob (chars pattern) (chars value).
Proof. apply glob_match_inner_iff. Qed.

(** What a stack of policy sets decides. Either no set speaks of the node
    and it is allowed, or the most specific set that speaks decides alone: by
    its model allowlist when it has one and the node is a model, else by its
    blocked patterns, else by its approval patterns. A block is never overridden
    by a less specific set, nor an approval requirement dropped. *)
Theorem evaluate_correct (ctx : EvaluationContext) (sets : list PolicySetIr) :
  (Forall (silent ctx) sets ∧ evaluate ctx sets = Allow)
  ∨ ∃ outer policy inner, sets = outer ++ policy :: inner ∧ Forall (silent ctx) inner
      ∧ ¬ silent ctx policy
      ∧ match evaluate ctx sets with
        | Allow => allowlisted ctx policy ∧ admits ctx policy
        | Block _ => (allowlisted ctx policy ∧ ¬ admits ctx policy)
            ∨ (¬ allowlisted ctx policy ∧ names ctx (blocked_tools policy))
        | RequireApproval approver => approver = "human" ∧ ¬ allowlisted ctx policy
            ∧ ¬ names ctx (blocked_tools policy) ∧ names ctx (require_approval_for policy)
        end.
Proof.
  unfold evaluate. destruct (evaluate_levels_first ctx (reverse sets))
    as [[HF He]|(l1 & policy & l2 & d & Hl & HF & Hd & He)].
  - left. split; [|done]. by rewrite Forall_reverse in HF.
  - right. exists (reverse l2), policy, (reverse l1).
    pose proof (level_decision_spec ctx policy) as Hs. rewrite Hd in Hs. rewrite He.
    split_and!.
    + rewrite <- (reverse_involutive sets), Hl, reverse_app, reverse_cons. by rewrite <- app_assoc.
    + by apply Forall_reverse.
    + intros (Ha & Hb%names_none & Hq%names_none).
      destruct d; [by apply Ha, Hs|destruct Hs as [[Hal _]|[_ Hn]]; [by apply Ha|done]|].
      by destruct Hs as (_ & _ & _ & Hn).
    + done.
Qed.

(** ASCII text: its characters are its bytes. *)
Definition ascii_only (s : string) : Prop := ∀ b, b ∈ bytes s → (b < 128)%N.

Lemma chars_ascii s : ascii_only s → chars s = bytes s.
Proof.
  unfold ascii_only, chars. induction (bytes s) as [|b l IH]; intros Hs; simpl; [done|].
  assert (b < 128)%N as Hb by (apply Hs; left). apply N.ltb_lt in Hb as ->.
  f_equal. apply IH. intros c Hc. apply Hs. by right.
Qed.

Definition replaced (cs : list ascii) (c : N) : N :=
  if decide (c ∈ N_of_ascii <$> cs) then N_of_ascii "."%char else c.

Lemma bytes_replace cs s : bytes (replace_chars cs "."%char s) = replaced cs <$> bytes s.
Proof.
  unfold bytes. induction s as [|a s IH]; [done|]. cbn. f_equal; [|done]. unfold replaced.
  assert (a ∈ cs ↔ N_of_ascii a ∈ N_of_ascii <$> cs) as Hin.
  { split; [apply list_elem_of_fmap_2|]. intros (b & Hb & Hin)%list_elem_of_fmap.
    apply (f_equal ascii_of_N) in Hb. rewrite !ascii_N_embedding in Hb. by subst. }
  case_decide; case_decide; tauto.
Qed.

Lemma ascii_replace cs s : ascii_only s → ascii_only (replace_chars cs "."%char s).
Proof.
  intros Hs b. rewrite bytes_replace. intros (c & -> & Hc)%list_elem_of_fmap. unfold replaced.
  case_decide; [done|by apply Hs].
Qed.

(** The two characters a pattern's canonical form rewrites are not wildcards. *)
Lemma replaced_wild c : let f := replaced [":"%char; "/"%char] in
  (f c = STAR ↔ c = STAR) ∧ (f c = QUESTION ↔ c = QUESTION).
Proof.
  unfold replaced. simpl. case_decide as Hc; [|done].
  repeat (apply elem_of_cons in Hc as [->|Hc]; [done|]). by apply not_elem_of_nil in Hc.
Qed.

(** A pattern that matches a Python handler as written matches its canonical form. *)
Lemma glob_canonical pattern name :
  ascii_only pattern → ascii_only name → N_of_ascii "/"%char ∉ bytes name →
  glob_match pattern name = true →
  glob_match (canonical_pattern pattern) (replace_chars [":"%char] "."%char name) = true.
Proof.
  intros Hp Hn Hslash. unfold glob_match, canonical_pattern.
  rewrite !chars_ascii, !bytes_replace by auto using ascii_replace.
  rewrite !glob_match_inner_iff. intros Hg.
  replace (replaced [":"%char] <$> bytes name) with (replaced [":"%char; "/"%char] <$> bytes name).
  - apply glob_fmap; [intros c; apply replaced_wild|intros c; apply replaced_wild|done].
  - apply list_fmap_ext. intros i c Hc%list_elem_of_lookup_2. unfold replaced. simpl.
    assert (c ≠ N_of_ascii "/"%char) by (by intros ->).
    repeat case_decide; set_solver.
Qed.

(** Re-spelling a handler does not change what names it. Two Python function
    nodes with the same id whose [module:function] references are the same
    dotted path are named by the same patterns, so a policy that blocks or gates
    one spelling blocks or gates the other. *)
Theorem respelled_handler_same_names (node_id t1 t2 pattern : string)
    (Hascii : ascii_only t1 ∧ ascii_only t2 ∧ ascii_only pattern)
    (Hslash : N_of_ascii "/"%char ∉ bytes t1 ∧ N_of_ascii "/"%char ∉ bytes t2) :
  let ctx t := {| ec_node_id := node_id; node_kind_tag := "python_fn"; tool_name := Some t;
                  ec_model_ref := None |} in
  canonical_handler (ctx t1) = canonical_handler (ctx t2) →
  is_Some (matches (ctx t1) pattern) ↔ is_Some (matches (ctx t2) pattern).
Proof.
  intros ctx Hcan.
  assert (∀ t, ascii_only t → N_of_ascii "/"%char ∉ bytes t →
    is_Some (matches (ctx t) pattern) ↔ glob_match pattern node_id = true
      ∨ glob_match (canonical_pattern pattern) (replace_chars [":"%char] "."%char t) = true) as Hm.
  { intros t Ht Hs. unfold matches. cbn [policy_names tool_name ctx]. unfold policy_names. simpl.
    destruct (glob_match pattern t) eqn:H1g.
    { split; [|eauto]. right. apply glob_canonical; tauto. }
    destruct (glob_match pattern node_id) eqn:H2g; [split; eauto|].
    destruct (glob_match (canonical_pattern pattern) _) eqn:H3g; [split; eauto|].
    split; [by intros [? [=]]|intros [?|?]; done]. }
  injection Hcan as Hcan. rewrite (Hm t1), (Hm t2) by tauto. by rewrite Hcan.
Qed.

(** When an agent's next step may fire. Exactly when its run of failed
    steps is below the breaker's threshold and, for each limit its card sets:
    fewer steps taken than allowed, this step's tool calls within the limit (a
    step with none is not limited), tokens, cost and time all strictly below
    their budgets. A cost that is not a number never passes. *)
Theorem autonomy_check_correct (constraints : option AutonomyConstraints) (usage : AgentUsage)
    (step : Step) :
  check constraints usage step = Proceed ↔
  au_consecutive_errors usage
    < default DEFAULT_MAX_CONSECUTIVE_ERRORS (constraints ≫= max_consecutive_errors)
  ∧ ∀ c, constraints = Some c →
      (∀ m, max_iterations c = Some m → iterations usage < m)
      ∧ (∀ m, max_tool_calls c = Some m → step_tool_calls step ≤ 0
           ∨ u64_add (au_tool_calls usage) (step_tool_calls step) ≤ m)
      ∧ (∀ m, ac_token_budget c = Some m → au_tokens usage < m)
      ∧ (∀ m, ac_cost_budget_usd c = Some m →
           f64_lt (au_cost_usd usage) m = true ∧ f64_is_nan (au_cost_usd usage) = false)
      ∧ (∀ s t, time_budget_secs c = Some s → elapsed_ms usage = Some t →
           t < u64_sat_mul s 1000).
Proof.
  assert (∀ x y, f64_lt x y = true → f64_is_nan x = false) as Hnan
    by (intros [] []; done).
  unfold check. destruct constraints as [c|]; simpl.
  2:{ case_decide; split; [done|lia| |done]. intros _. split; [lia|done]. }
  destruct c as [mi mt tk co al bt ad ra ts ce ol]; simpl.
  split.
  - intros Hc. repeat (case_decide || case_match); simplify_eq/=; try done;
      (split; [lia|]; intros c [= <-]; simpl; split_and!; intros; simplify_eq;
       try lia; rewrite ?negb_false_iff in *; eauto).
  - intros [Herr Hall]. destruct (Hall _ eq_refl) as (H1i & H2c & H3t & H4c & H5e). simpl in *.
    rewrite decide_False by lia.
    destruct mi as [m|]; [specialize (H1i m eq_refl); rewrite decide_False by lia|];
    (destruct mt as [m'|]; [specialize (H2c m' eq_refl); rewrite decide_False by lia|]);
    (destruct tk as [m''|]; [specialize (H3t m'' eq_refl); rewrite decide_False by lia|]);
    (destruct co as [x|]; [destruct (H4c x eq_refl) as [-> _]; simpl|]);
    (destruct ts as [s|]; [|done]); (destruct (elapsed_ms usage) as [t|]; [|done]);
    specialize (H5e s t eq_refl eq_refl); by rewrite decide_False by lia.
Qed.

(** ** Concrete inputs *)

Module PolicySample.
Lemma respelled_witness :
  let ctx t := {| ec_node_id := "pay"; node_kind_tag := "python_fn"; tool_name := Some t;
                  ec_model_ref := None |} in
  (is_Some (matches (ctx "payments.transfer:send") "payments:transfer.*")
   ↔ is_Some (matches (ctx "payments:transfer.send") "payments:transfer.*"))
  ∧ matches (ctx "payments.transfer:send") "payments:transfer.*" = Some "payments.transfer.send".
Proof.
  intros ctx. split; [|vm_compute; reflexivity].
  assert (∀ s, forallb (λ b, (b <? 128)%N) (bytes s) = true → ascii_only s) as Hasc.
  { intros s Hs b Hb. rewrite forallb_forall in Hs. apply N.ltb_lt, Hs. by apply list_elem_of_In. }
  assert (∀ s, existsb (λ b, (b =? 47)%N) (bytes s) = false → N_of_ascii "/"%char ∉ bytes s) as Hsl.
  { intros s Hs Hin. rewrite <- not_true_iff_false, existsb_exists in Hs. apply Hs.
    exists 47%N. split; [by apply list_elem_of_In|done]. }
  refine (respelled_handler_same_names "pay" _ _ _ _ _ _).
  - split_and!; apply Hasc; vm_compute; reflexivity.
  - split; apply Hsl; vm_compute; reflexivity.
  - vm_compute. reflexivity.
Defined.
End PolicySample.
