(* ===== verification/ToolDispatch.v ===== *)
(** * Tool lists and agent tool dispatch ([policy/src/allowed_tools.rs],
    [policy/src/dispatch.rs])

    Which tools an agent card's lists name, which calls an agent's tool-dispatch
    node is about to make, and what a policy stack decides about the batch. *)

From S2P Require Import Prelude.
From S2P Require Import Json.
From S2P Require Import RustStr.
From S2P Require Import Core.
From S2P Require Import Ir.
From S2P Require Import Policy.
From Stdlib Require Import Ascii.

(** ** The calls of a dispatch ([dispatch.rs]) *)

Record PendingToolCall := {
  pc_name : string; pc_arguments : Value; pc_handler : option string;
}.

Definition MAX_TOOL_NAME_LEN : Z := 512.
Definition MAX_PENDING_CALLS : Z := 256.

Inductive UnreadableCalls :=
| NotAnObject | NotAList | UnnamedCall | NameTooLong | TooManyCalls | ToolsMapNotAnObject
| UnresolvableHandler.

Definition handler_function_name (handler : string) : string :=
  let function := match split_once ":"%char handler with Some (_, f) => f | None => handler end in
  last_segment ["."%char] function.

Definition too_long (s : string) : bool :=
  bool_decide (MAX_TOOL_NAME_LEN < Z.of_nat (length (chars s))).

(** A path one of whose segments is empty or starts with [p]. *)
Definition has_bad_segment (p path : string) : bool :=
  existsb (λ seg, str_is_empty seg || starts_with p seg) (split_char "."%char path).

Definition handler_ref (entry : Value) : option string :=
  match as_str entry with
  | None => None
  | Some s =>
      if too_long s then None
      else match split_once ":"%char s with
      | None => None
      | Some (module, function) =>
          if str_is_empty module || str_is_empty function then None
          else if has_bad_segment "_" function || has_bad_segment "__" module then None
          else Some s
      end
  end.

(** The first of the two call-list keys that is present and not null. *)
Definition call_list (m : Map) : option Value :=
  let present key := match map_get key m with Some v => if is_null v then None else Some v
                     | None => None end in
  match present "tool_calls" with Some v => Some v | None => present "last_model_tool_calls" end.

(** The [tools] map; [None] inside when calls resolve by name. *)
Definition tools_map (m : Map) : result UnreadableCalls (option Map) :=
  match map_get "tools" m with
  | None | Some Null => Ok None
  | Some (Object map) => Ok (Some map)
  | Some _ => Err ToolsMapNotAnObject
  end.

Definition read_call (tools : option Map) (call : Value) : result UnreadableCalls PendingToolCall :=
  match n ← get "name" call; as_str n with
  | None => Err UnnamedCall
  | Some name =>
      if too_long name then Err NameTooLong
      else
        handler ← match t ← tools; map_get name t with
                  | None => Ok None
                  | Some entry => Some <$> ok_or UnresolvableHandler (handler_ref entry)
                  end;
        Ok {| pc_name := name; pc_arguments := default Null (get "arguments" call);
              pc_handler := handler |}
  end.

Fixpoint read_calls (tools : option Map) (calls : list Value)
    : result UnreadableCalls (list PendingToolCall) :=
  match calls with
  | [] => Ok []
  | call :: calls =>
      c ← read_call tools call;
      cs ← read_calls tools calls;
      Ok (c :: cs)
  end.

Definition read_pending_tool_calls (input : Value) : result UnreadableCalls (list PendingToolCall) :=
  obj ← ok_or NotAnObject (as_object input);
  match call_list obj with
  | None => Ok []
  | Some raw =>
      arr ← ok_or NotAList (as_array raw);
      tools ← tools_map obj;
      if decide (MAX_PENDING_CALLS < Z.of_nat (length arr)) then Err TooManyCalls
      else read_calls tools arr
  end.

Definition pending_tool_calls (input : Value) : option (list PendingToolCall) :=
  match read_pending_tool_calls input with Ok calls => Some calls | Err _ => None end.

(** ** One decision for a batch *)

Inductive DispatchDecision :=
| DispatchAllow
| DispatchBlock (tool reason : string)
| DispatchRequireApproval (approver : string) (gated : list string).

Definition tool_ctx (node_id name : string) : EvaluationContext := {|
  ec_node_id := node_id; node_kind_tag := "tool"; tool_name := Some name;
  ec_model_ref := None |}.

Definition handler_ctx (node_id handler : string) : EvaluationContext := {|
  ec_node_id := node_id; node_kind_tag := PYTHON_REF_TAG; tool_name := Some handler;
  ec_model_ref := None |}.

(** Every identity a call is matched on: its name, the reference its [tools]
    entry resolves to, and that function's own name. *)
Definition call_ctxs (node_id : string) (call : PendingToolCall) : list EvaluationContext :=
  tool_ctx node_id (pc_name call) ::
  match pc_handler call with
  | Some h => [handler_ctx node_id h; tool_ctx node_id (handler_function_name h)]
  | None => []
  end.

(** The decisions of one call: the first block, else the first approver asked for. *)
Fixpoint collapse (sets : list PolicySetIr) (ctxs : list EvaluationContext)
    (needs_approval : option string) : result DispatchDecision (option string) :=
  match ctxs with
  | [] => Ok needs_approval
  | ctx :: ctxs =>
      match evaluate ctx sets with
      | Block reason => Err (DispatchBlock (default "" (tool_name ctx)) reason)
      | RequireApproval a =>
          collapse sets ctxs (Some (default a needs_approval))
      | Allow => collapse sets ctxs needs_approval
      end
  end.

Fixpoint evaluate_calls (node_id : string) (calls : list PendingToolCall)
    (sets : list PolicySetIr) (gated : list string) (approver : option string)
    : DispatchDecision :=
  match calls with
  | [] =>
      match approver with
      | Some a => DispatchRequireApproval a gated
      | None => DispatchAllow
      end
  | call :: calls =>
      match collapse sets (call_ctxs node_id call) None with
      | Err block => block
      | Ok None => evaluate_calls node_id calls sets gated approver
      | Ok (Some a) =>
          evaluate_calls node_id calls sets (gated ++ [pc_name call])
            (Some (default a approver))
      end
  end.

Definition evaluate_dispatch (node_id : string) (calls : list PendingToolCall)
    (policy_sets : list PolicySetIr) : DispatchDecision :=
  evaluate_calls node_id calls policy_sets [] None.

(** ** An agent card's lists ([allowed_tools.rs]) *)

Definition RUN_TIME_TARGET_TAGS : list string := ["coordinator"; "agent_discovery"; "agent_tool"].

Definition listed (patterns : list string) (name : string) : bool :=
  existsb (λ p, glob_match p name) patterns.

Definition PATH_CHARS : list ascii := [":"%char; "."%char; "/"%char].

Definition is_path_pattern (pattern : string) : bool :=
  existsb (λ c, str_contains c pattern) PATH_CHARS.

Definition function_name (handler : string) : string := last_segment PATH_CHARS handler.

Definition handler_listed (ctx : EvaluationContext) (handler : string) (allowed : list string)
    : bool :=
  let canonical := canonical_handler ctx in
  existsb (λ p,
    if is_path_pattern p then
      glob_match p handler
      || match canonical with Some c => glob_match (canonical_pattern p) c | None => false end
    else glob_match p (function_name handler)) allowed.

(** A node whose tool name is a handler reference. *)
Definition runs_code (ctx : EvaluationContext) : bool :=
  bool_decide (node_kind_tag ctx ∈ FUNCTION_KIND_TAGS)
  || bool_decide (node_kind_tag ctx = PYTHON_REF_TAG).

Definition run_time_target (ctx : EvaluationContext) : string :=
  node_kind_tag ctx +:+ " (target chosen at run time)".

Definition node_allowed (ctx : EvaluationContext) (allowed : list string) : result string unit :=
  if decide (allowed = []) then Ok tt
  else match tool_name ctx with
  | None => if decide (node_kind_tag ctx ∈ RUN_TIME_TARGET_TAGS) then Err (run_time_target ctx)
            else Ok tt
  | Some name =>
      let ok := if runs_code ctx then handler_listed ctx name allowed
                else listed allowed name in
      if ok then Ok tt else Err name
  end.

Definition node_named_by (ctx : EvaluationContext) (patterns : list string) : option string :=
  if decide (patterns = []) then None
  else match tool_name ctx with
  | None => if decide (node_kind_tag ctx ∈ RUN_TIME_TARGET_TAGS) then Some (run_time_target ctx)
            else None
  | Some name =>
      let hit := if runs_code ctx then handler_listed ctx name patterns
                 else listed patterns name in
      if hit then Some name else None
  end.

Definition as_ref (handler : string) : EvaluationContext := handler_ctx "" handler.

Definition call_named_by (call : PendingToolCall) (patterns : list string) : option string :=
  if decide (patterns = []) then None
  else if listed patterns (pc_name call) then Some (pc_name call)
  else
    handler ← pc_handler call;
    if handler_listed (as_ref handler) handler patterns then Some handler else None.

Inductive CallRefused :=
| RefusedName (tool : string)
| RefusedHandler (tool handler : string).

Definition call_allowed (call : PendingToolCall) (allowed : list string)
    : result CallRefused unit :=
  if decide (allowed = []) then Ok tt
  else if negb (listed allowed (pc_name call)) then Err (RefusedName (pc_name call))
  else match pc_handler call with
  | None => Ok tt
  | Some handler =>
      if handler_listed (as_ref handler) handler allowed then Ok tt
      else Err (RefusedHandler (pc_name call) handler)
  end.

(** ** What a readable batch is *)

(** A [module:function] reference whose path no other spelling reaches: no
    empty segment, none of the function's starts with [_] and none of the
    module's with [__]. *)
Definition plain_ref (s : string) : Prop :=
  Z.of_nat (length (chars s)) ≤ MAX_TOOL_NAME_LEN ∧
  ∃ m f, split_once ":"%char s = Some (m, f)
    ∧ (∀ seg, seg ∈ split_char "."%char f → seg ≠ "" ∧ starts_with "_" seg = false)
    ∧ (∀ seg, seg ∈ split_char "."%char m → seg ≠ "" ∧ starts_with "__" seg = false).

Record call_read (tools : option Map) (call : Value) (c : PendingToolCall) : Prop := {
  cr_name : get "name" call = Some (Str (pc_name c));
  cr_bound : Z.of_nat (length (chars (pc_name c))) ≤ MAX_TOOL_NAME_LEN;
  cr_arguments : pc_arguments c = default Null (get "arguments" call);
  cr_handler : match t ← tools; map_get (pc_name c) t with
    | None => pc_handler c = None
    | Some entry => ∃ s, entry = Str s ∧ pc_handler c = Some s ∧ plain_ref s
    end;
}.

Lemma too_long_false s : too_long s = false ↔ Z.of_nat (length (chars s)) ≤ MAX_TOOL_NAME_LEN.
Proof. unfold too_long. rewrite bool_decide_eq_false. lia. Qed.

Lemma str_is_empty_false s : str_is_empty s = false ↔ s ≠ "".
Proof. by destruct s. Qed.

Lemma has_bad_segment_false p path :
  has_bad_segment p path = false ↔
  ∀ seg, seg ∈ split_char "."%char path → seg ≠ "" ∧ starts_with p seg = false.
Proof.
  unfold has_bad_segment. split.
  - intros Hb seg Hin. destruct (str_is_empty seg || starts_with p seg) eqn:Hs.
    + enough (existsb (λ seg, str_is_empty seg || starts_with p seg) (split_char "."%char path) = true)
        by congruence. apply existsb_exists. exists seg. by rewrite <- list_elem_of_In.
    + apply orb_false_iff in Hs as [He Hp]. by apply str_is_empty_false in He.
  - intros Hall. apply not_true_iff_false. rewrite existsb_exists.
    intros (seg & Hin%list_elem_of_In & Hs). destruct (Hall seg Hin) as [He Hp].
    apply str_is_empty_false in He. by rewrite He, Hp in Hs.
Qed.

(** A path with no empty segment is not empty. *)
Lemma has_bad_segment_nonempty p path : has_bad_segment p path = false → str_is_empty path = false.
Proof. by destruct path. Qed.

Lemma handler_ref_iff entry s : handler_ref entry = Some s ↔ entry = Str s ∧ plain_ref s.
Proof.
  unfold handler_ref, plain_ref. destruct entry as [| | |t| |]; simpl;
    try (split; [done|by intros [? _]]).
  destruct (too_long t) eqn:Hl.
  { split; [done|]. intros ([= ->] & Hb & _). apply too_long_false in Hb. congruence. }
  apply too_long_false in Hl.
  destruct (split_once ":"%char t) as [[m f]|] eqn:Hs.
  2:{ split; [done|]. intros ([= ->] & _ & m & f & Hmf & _). congruence. }
  destruct (str_is_empty m || str_is_empty f) eqn:He.
  - split; [done|]. intros ([= ->] & _ & m' & f' & Hmf & Hf & Hm). simplify_eq.
    apply has_bad_segment_false, has_bad_segment_nonempty in Hf.
    apply has_bad_segment_false, has_bad_segment_nonempty in Hm. by rewrite Hf, Hm in He.
  - destruct (has_bad_segment "_" f || has_bad_segment "__" m) eqn:Hb.
    + split; [done|]. intros ([= ->] & _ & m' & f' & Hmf & Hf & Hm). simplify_eq.
      apply has_bad_segment_false in Hf. apply has_bad_segment_false in Hm.
      by rewrite Hf, Hm in Hb.
    + apply orb_false_iff in Hb as [Hf Hm]. rewrite has_bad_segment_false in Hf, Hm.
      split; [intros [= ->]|by intros ([= ->] & _)]. split_and!; eauto 6.
Qed.

Lemma read_call_iff tools call c : read_call tools call = Ok c ↔ call_read tools call c.
Proof.
  unfold read_call. split.
  - destruct (n ← get "name" call; as_str n) as [name|] eqn:Hn; [|done].
    destruct (too_long name) eqn:Hl; [done|]. apply too_long_false in Hl.
    destruct (get "name" call) as [[]|] eqn:Hg; simplify_eq/=.
    destruct (t ← tools; map_get name t) as [entry|] eqn:Ht; simpl.
    + destruct (handler_ref entry) as [s|] eqn:Hh; simpl; [|done]. intros [= <-].
      apply handler_ref_iff in Hh as [-> Hp]. constructor; simpl; [done..|]. rewrite Ht. eauto.
    + intros [= <-]. constructor; simpl; [done..|]. by rewrite Ht.
  - intros [Hg Hb Ha Hh]. rewrite Hg. simpl. rewrite (proj2 (too_long_false _) Hb).
    destruct (t ← tools; map_get (pc_name c) t) as [entry|] eqn:Ht.
    + destruct Hh as (s & -> & Hc & Hp). rewrite (proj2 (handler_ref_iff (Str s) s)) by done.
      simpl. destruct c; simplify_eq/=. done.
    + simpl. destruct c; simplify_eq/=. done.
Qed.

Lemma read_calls_iff tools arr calls :
  read_calls tools arr = Ok calls ↔ Forall2 (call_read tools) arr calls.
Proof.
  revert calls. induction arr as [|call arr IH]; intros calls; simpl.
  - split; [by intros [= <-]|by inversion 1].
  - split.
    + destruct (read_call tools call) as [c|] eqn:Hc; simpl; [|done].
      destruct (read_calls tools arr) as [cs|]; simpl; [|done]. intros [= <-].
      constructor; [by apply read_call_iff|by apply IH].
    + inversion 1 as [|? c ? cs Hc Hcs]; subst. apply read_call_iff in Hc as ->. simpl.
      apply IH in Hcs. by rewrite Hcs.
Qed.

(** ** What the batch's decision means *)

Section Decision.
Context (sets : list PolicySetIr).

Lemma approver_human ctx a : evaluate ctx sets = RequireApproval a → a = "human".
Proof.
  intros He. destruct (evaluate_levels_first ctx (reverse sets))
    as [[_ Ha]|(l1 & policy & l2 & d & _ & _ & Hd & Ha)]; unfold evaluate in He; [congruence|].
  rewrite He in Ha. subst d. pose proof (level_decision_spec ctx policy) as Hs. rewrite Hd in Hs.
  by destruct Hs.
Qed.

(** Some identity of the call is stopped for approval. *)
Definition wants_approval (node_id : string) (call : PendingToolCall) : Prop :=
  Exists (λ ctx, evaluate ctx sets ≠ Allow) (call_ctxs node_id call).
#[export] Instance wants_approval_dec node_id call : Decision (wants_approval node_id call).
Proof.
  unfold wants_approval. apply Exists_dec. intros ctx.
  destruct (evaluate ctx sets); [right; tauto|left|left]; done.
Defined.

Lemma collapse_spec ctxs needs :
  match collapse sets ctxs needs with
  | Err d => ∃ ctx reason, ctx ∈ ctxs ∧ evaluate ctx sets = Block reason
               ∧ d = DispatchBlock (default "" (tool_name ctx)) reason
  | Ok r => (∀ ctx reason, ctx ∈ ctxs → evaluate ctx sets ≠ Block reason)
      ∧ match r with
        | None => needs = None ∧ ∀ ctx, ctx ∈ ctxs → evaluate ctx sets = Allow
        | Some a => (needs = Some a ∨ (needs = None ∧ a = "human"))
            ∧ (needs = None → Exists (λ ctx, evaluate ctx sets ≠ Allow) ctxs)
        end
  end.
Proof.
  revert needs. induction ctxs as [|ctx ctxs IH]; intros needs; simpl.
  - split; [by intros ? ? ?%not_elem_of_nil|]. destruct needs; [|split; [done|]].
    + split; [by left|done].
    + by intros ? ?%not_elem_of_nil.
  - destruct (evaluate ctx sets) as [|reason|a] eqn:He.
    + specialize (IH needs). destruct (collapse sets ctxs needs) as [[a|]|d].
      * destruct IH as (Hb & Ha & Hx). split_and!; [|done|intros; right; auto].
        intros c r [->|Hc]%elem_of_cons; [congruence|eauto].
      * destruct IH as (Hb & -> & Hx). split_and!; [|done|].
        -- intros c r [->|Hc]%elem_of_cons; [congruence|eauto].
        -- intros c [->|Hc]%elem_of_cons; [done|auto].
      * destruct IH as (c & r & Hc & ?). exists c, r. split; [by right|done].
    + exists ctx, reason. split_and!; [left|done|done].
    + apply approver_human in He as Ha. subst a. specialize (IH (Some (default "human" needs))).
      destruct (collapse sets ctxs _) as [[b|]|d].
      * destruct IH as (Hb & Hx & _). split_and!.
        -- intros c r [->|Hc]%elem_of_cons; [congruence|eauto].
        -- destruct Hx as [[= <-]|[? _]]; [|done]. destruct needs; [by left|by right].
        -- intros _. left. congruence.
      * by destruct IH as (_ & ? & _).
      * destruct IH as (c & r & Hc & ?). exists c, r. split; [by right|done].
Qed.

Lemma evaluate_calls_spec node_id calls gated approver :
  (approver = None ∧ gated = [] ∨ approver = Some "human" ∧ gated ≠ []) →
  match evaluate_calls node_id calls sets gated approver with
  | DispatchBlock tool reason => ∃ c ctx, c ∈ calls ∧ ctx ∈ call_ctxs node_id c
      ∧ evaluate ctx sets = Block reason ∧ tool_name ctx = Some tool
  | DispatchAllow => gated = [] ∧
      ∀ c ctx, c ∈ calls → ctx ∈ call_ctxs node_id c → evaluate ctx sets = Allow
  | DispatchRequireApproval a names =>
      (∀ c ctx reason, c ∈ calls → ctx ∈ call_ctxs node_id c → evaluate ctx sets ≠ Block reason)
      ∧ a = "human" ∧ names ≠ []
      ∧ names = gated ++ (pc_name <$> base.filter (wants_approval node_id) calls)
  end.
Proof.
  revert gated approver. induction calls as [|call calls IH]; intros gated approver Hinv;
    cbn [evaluate_calls].
  { destruct Hinv as [[-> ->]|[-> Hg]].
    - split; [done|]. by intros ? ? ?%not_elem_of_nil.
    - split_and!; [by intros ? ? ? ?%not_elem_of_nil|done|done|by rewrite app_nil_r]. }
  pose proof (collapse_spec (call_ctxs node_id call) None) as Hc.
  destruct (collapse sets (call_ctxs node_id call) None) as [[a|]|d].
  - destruct Hc as (Hb & [?|[_ ->]] & Hw); [done|]. specialize (Hw eq_refl).
    assert (gated ++ [pc_name call] ≠ []) as Hne by (by destruct gated).
    specialize (IH (gated ++ [pc_name call]) (Some "human") (or_intror (conj eq_refl Hne))).
    replace (default "human" approver) with "human"
      by (by destruct Hinv as [[-> _]|[-> _]]).
    rewrite filter_cons_True by done. csimpl. rewrite <- app_assoc in IH.
    destruct (evaluate_calls _ _ _ _ _).
    + destruct IH as [IH _]. by destruct gated.
    + destruct IH as (c & ctx & Hc & ?). exists c, ctx. split; [by right|done].
    + destruct IH as (Hbl & ? & ? & ?). split_and!; try done.
      intros c ctx r [->|Hc]%elem_of_cons; eauto.
  - destruct Hc as (Hb & _ & Hw). specialize (IH gated approver Hinv).
    rewrite filter_cons_False.
    2:{ intros (ctx & Hin & Hne)%Exists_exists. by apply Hne, Hw. }
    destruct (evaluate_calls _ _ _ _ _).
    + destruct IH as [-> Ha]. split; [done|]. intros c ctx [->|Hc]%elem_of_cons; eauto.
    + destruct IH as (c & ctx & Hc & ?). exists c, ctx. split; [by right|done].
    + destruct IH as (Hbl & ? & ? & ?). split_and!; try done.
      intros c ctx r' [->|Hc]%elem_of_cons; eauto.
  - destruct Hc as (ctx & reason & Hin & Hr & ->). exists call, ctx.
    split_and!; [left|done|done|]. unfold call_ctxs in Hin.
    destruct (pc_handler call); set_solver.
Qed.
End Decision.

(** ** Properties *)

(** What a dispatch payload may hold. The calls read from it are exactly the
    entries of the list the dispatcher runs (its first present key, in order),
    at most 256 of them, each with a name of at most 512 characters and, when
    the run maps that name to code, with a reference no other spelling of the
    path reaches. Anything else is refused, and only a payload with neither key
    is an empty batch. *)
Theorem pending_calls_correct (input : Value) (calls : list PendingToolCall) :
  read_pending_tool_calls input = Ok calls ↔
  ∃ m, input = Object m
    ∧ ((call_list m = None ∧ calls = [])
       ∨ ∃ arr tools, call_list m = Some (Array arr) ∧ tools_map m = Ok tools
           ∧ Z.of_nat (length arr) ≤ MAX_PENDING_CALLS ∧ Forall2 (call_read tools) arr calls).
Proof.
  unfold read_pending_tool_calls. destruct input as [| | | | |m]; simpl;
    try (split; [done|by intros (? & ? & _)]).
  destruct (call_list m) as [raw|] eqn:Hl.
  2:{ split; [intros [= <-]; exists m; auto|]. intros (m' & [= <-] & [[_ ->]|(a & t & Ha & _)]);
      [done|congruence]. }
  destruct raw as [| | | |arr|]; simpl;
    try (split; [done|intros (m' & [= <-] & [[? _]|(a & t & ? & _)]); congruence]).
  destruct (tools_map m) as [tools|] eqn:Ht; simpl.
  2:{ split; [done|]. intros (m' & [= <-] & [[? _]|(a & t & _ & ? & _)]); congruence. }
  case_decide as Hb.
  - split; [done|]. intros (m' & [= <-] & [[? _]|(a & t & Ha & _ & ? & _)]); [congruence|].
    assert (a = arr) as -> by congruence. lia.
  - rewrite read_calls_iff. split.
    + intros HF. exists m. split; [done|]. right. exists arr, tools. split_and!; [done..|lia|done].
    + intros (m' & [= <-] & [[? _]|(a & t & Ha & ? & ? & HF)]); congruence.
Qed.

(** One decision for the batch. It is blocked when some identity of some call
    (its name, the code it resolves to, that function's own name) is blocked by
    the stack, whatever the other calls are; otherwise it is held for a human
    when some identity needs approval, naming exactly those calls in order;
    otherwise every identity of every call is allowed. *)
Theorem dispatch_decision_correct (node_id : string) (calls : list PendingToolCall)
    (sets : list PolicySetIr) :
  match evaluate_dispatch node_id calls sets with
  | DispatchBlock tool reason => ∃ c ctx, c ∈ calls ∧ ctx ∈ call_ctxs node_id c
      ∧ evaluate ctx sets = Block reason ∧ tool_name ctx = Some tool
  | DispatchAllow => ∀ c ctx, c ∈ calls → ctx ∈ call_ctxs node_id c → evaluate ctx sets = Allow
  | DispatchRequireApproval approver gated =>
      (∀ c ctx reason, c ∈ calls → ctx ∈ call_ctxs node_id c → evaluate ctx sets ≠ Block reason)
      ∧ approver = "human" ∧ gated ≠ []
      ∧ gated = pc_name <$> base.filter (wants_approval sets node_id) calls
  end.
Proof.
  pose proof (evaluate_calls_spec sets node_id calls [] None (or_introl (conj eq_refl eq_refl)))
    as Hs.
  unfold evaluate_dispatch. destruct (evaluate_calls _ _ _ _ _); try done. by destruct Hs.
Qed.

(** An agent card's lists fail closed, both ways. Under a list that is not
    empty, an allowlist lets a node with a tool name run exactly when a block
    list with the same patterns would name it, whatever its node id; a node that
    picks its target at run time is refused by the one and named by the other; a
    call that is allowed is also nameable. And a bare name never reaches across
    a module path: it is compared with the function's own name, which holds no
    separator. *)
Theorem card_lists_fail_closed (l : list string) (ctx : EvaluationContext)
    (call : PendingToolCall) (Hl : l ≠ []) :
  (is_Some (tool_name ctx) → (node_allowed ctx l = Ok tt ↔ is_Some (node_named_by ctx l)))
  ∧ (tool_name ctx = None → node_kind_tag ctx ∈ RUN_TIME_TARGET_TAGS →
       node_allowed ctx l ≠ Ok tt ∧ is_Some (node_named_by ctx l))
  ∧ (call_allowed call l = Ok tt → is_Some (call_named_by call l))
  ∧ (∀ id, node_allowed {| ec_node_id := id; node_kind_tag := node_kind_tag ctx;
             tool_name := tool_name ctx; ec_model_ref := ec_model_ref ctx |} l = node_allowed ctx l)
  ∧ (∀ h p, Forall (λ p, is_path_pattern p = false) l → handler_listed ctx h l = true →
       p = function_name h → listed l p = true ∧ ∀ c, c ∈ PATH_CHARS → str_contains c p = false).
Proof.
  unfold node_allowed, node_named_by, call_allowed, call_named_by.
  rewrite !(decide_False (P := l = [])) by done. split_and!.
  - intros [n ->]. destruct (if runs_code ctx then _ else _); split; eauto; [done|by intros []].
  - intros -> Ht. rewrite !decide_True by done. split; [done|eauto].
  - destruct (listed l (pc_name call)); [eauto|done].
  - intros id. rewrite !(decide_False (P := l = [])) by done. by destruct ctx.
  - intros h p HF Hh ->. split; [|apply last_segment_spec].
    unfold handler_listed in Hh. apply existsb_exists in Hh as (p & Hin & Hp).
    apply existsb_exists. exists p. split; [done|].
    rewrite Forall_forall in HF. rewrite HF in Hp; [done|by apply list_elem_of_In].
Qed.

Module DispatchSample.
Definition transfer : PendingToolCall :=
  {| pc_name := "lookup"; pc_arguments := Null; pc_handler := Some "bank.wires:send_wire" |}.

Lemma lists_witness :
  call_allowed transfer ["lookup"] = Err (RefusedHandler "lookup" "bank.wires:send_wire")
  ∧ (call_allowed transfer ["lookup"; "send_wire"] = Ok tt →
     is_Some (call_named_by transfer ["lookup"; "send_wire"])).
Proof.
  split; [vm_compute; reflexivity|].
  refine (proj1 (proj2 (proj2 (card_lists_fail_closed ["lookup"; "send_wire"]
    (as_ref "bank.wires:send_wire") transfer _)))). discriminate.
Defined.
End DispatchSample.
