(* ===== verification/AgentLimits.v ===== *)
(** * Agent autonomy limits from the run's log ([workers/src/agent_limits.rs])

    The fold of a run's log into what each agent has used, the plan of a step,
    and its admission: the step is appended only if the limits still allow it on
    the log as it stands at the append. *)

From S2P Require Import Prelude.
From S2P Require Import Json.
From S2P Require Import RustStr.
From S2P Require Import Core.
From S2P Require Import Condition.
From S2P Require Import Ir.
From S2P Require Import Event.
From S2P Require Import Materializer.
From S2P Require Import Budget.
From S2P Require Import Hashing.
From S2P Require Import Approvals.
From S2P Require Import Backend.
From S2P Require Import Journal.
From S2P Require Import Memory.
From S2P Require Import Segment.
From S2P Require Import Policy.

(** ** What the guards answer ([dispatch_guard.rs]: [DispatchGuardOutcome]) *)

Module GuardOutcome.
Inductive GuardOutcome :=
| Allow
| Blocked (reason : string)
| Held (gated : list string)
| Unavailable (reason : string).
End GuardOutcome.
Abbreviation GuardOutcome := GuardOutcome.GuardOutcome.

Definition AUTONOMY_RULE : string := "agent autonomy".
Definition ESCALATION_KEY : string := "autonomy_limit".

(** The agents a node acts for, each with its card's constraints. *)
Abbreviation Agents := (list (string * option AutonomyConstraints)) (only parsing).

(** ** The fold *)

Record Spent := {
  sp_iterations : Z;
  sp_tool_calls : Z;
  sp_tokens : Z;
  sp_cost_usd : f64;
  sp_consecutive_errors : Z;
  first_step_at : option DateTime;
}.
Definition Spent_default : Spent := {|
  sp_iterations := 0; sp_tool_calls := 0; sp_tokens := 0; sp_cost_usd := f64_zero;
  sp_consecutive_errors := 0; first_step_at := None |}.

Record Ledger := {
  lg_agents : gmap string Spent;
  lg_open : gmap string (list (list string));
}.
Definition Ledger_default : Ledger := {| lg_agents := ∅; lg_open := ∅ |}.

Definition spent_of (l : gmap string Spent) (a : string) : Spent := default Spent_default (l !! a).

(** [for a in agents { let s = entry(a).or_default(); .. }]. *)
Definition charge (f : Spent → Spent) (l : gmap string Spent) (agents : list string)
    : gmap string Spent :=
  foldl (λ l a, <[a := f (spent_of l a)]> l) l agents.

Definition admit_charge (tool_calls : Z) (at_ : DateTime) (s : Spent) : Spent := {|
  sp_iterations := u64_sat_add (sp_iterations s) 1;
  sp_tool_calls := u64_sat_add (sp_tool_calls s) tool_calls;
  sp_tokens := sp_tokens s; sp_cost_usd := sp_cost_usd s;
  sp_consecutive_errors := sp_consecutive_errors s;
  first_step_at := match first_step_at s with None => Some at_ | t => t end |}.

Definition complete_charge (tokens : Z) (cost : f64) (s : Spent) : Spent := {|
  sp_iterations := sp_iterations s; sp_tool_calls := sp_tool_calls s;
  sp_tokens := u64_sat_add (sp_tokens s) tokens; sp_cost_usd := f64_add (sp_cost_usd s) cost;
  sp_consecutive_errors := 0; first_step_at := first_step_at s |}.

Definition fail_charge (s : Spent) : Spent := {|
  sp_iterations := sp_iterations s; sp_tool_calls := sp_tool_calls s;
  sp_tokens := sp_tokens s; sp_cost_usd := sp_cost_usd s;
  sp_consecutive_errors := u32_sat_add (sp_consecutive_errors s) 1;
  first_step_at := first_step_at s |}.

(** What a reported cost adds: one that is not finite spends everything, a
    negative one nothing. *)
Definition step_cost (cost_usd : option f64) : f64 :=
  match cost_usd with
  | Some c => if negb (f64_is_finite c) then S754_infinity false
              else if f64_lt f64_zero c then c else f64_zero
  | None => f64_zero
  end.

(** [end]: the node's oldest open step and what is open after it. *)
Definition end_step (open : gmap string (list (list string))) (node_id : string)
    : option (list string * gmap string (list (list string))) :=
  match open !! node_id with
  | Some (agents :: rest) => Some (agents, <[node_id := rest]> open)
  | _ => None
  end.

(** [Ledger::apply]; [None] is [Unreadable]. *)
Definition ledger_apply (l : Ledger) (e : Event) : option Ledger :=
  match event_kind e with
  | EventKind.AgentStepAdmitted node_id _ agents tool_calls _ =>
      Some {| lg_agents := charge (admit_charge tool_calls (created_at e)) (lg_agents l) agents;
              lg_open := <[node_id := default [] (lg_open l !! node_id) ++ [agents]]> (lg_open l) |}
  | EventKind.NodeCompleted node_id _ _ _ _ _ input_tokens output_tokens _ cost_usd _ _ =>
      match end_step (lg_open l) node_id with
      | None => Some l
      | Some (agents, open) =>
          let tokens := u64_sat_add (default 0 input_tokens) (default 0 output_tokens) in
          Some {| lg_agents := charge (complete_charge tokens (step_cost cost_usd))
                                 (lg_agents l) agents;
                  lg_open := open |}
      end
  | EventKind.NodeFailed node_id _ _ _ =>
      match end_step (lg_open l) node_id with
      | None => Some l
      | Some (agents, open) =>
          Some {| lg_agents := charge fail_charge (lg_agents l) agents; lg_open := open |}
      end
  | EventKind.Unknown => None
  | _ => Some l
  end.

Fixpoint apply_events_ledger (l : Ledger) (events : list Event) : option Ledger :=
  match events with
  | [] => Some l
  | e :: events => l ← ledger_apply l e; apply_events_ledger l events
  end.

(** [Ledger::apply_segment]: steps still open at a segment's end are dropped. *)
Definition apply_segment (l : Ledger) (events : list Event) : option Ledger :=
  apply_events_ledger {| lg_agents := lg_agents l; lg_open := ∅ |} events.

Definition usage (l : Ledger) (agent : string) (now : DateTime) : AgentUsage :=
  let s := spent_of (lg_agents l) agent in {|
  iterations := sp_iterations s; au_tool_calls := sp_tool_calls s; au_tokens := sp_tokens s;
  au_cost_usd := sp_cost_usd s; au_consecutive_errors := sp_consecutive_errors s;
  elapsed_ms := (λ t, Z.max 0 (Z.quot (now - t) 1000000)) <$> first_step_at s |}.

(** ** Which agents stop a step *)

#[export] Instance OnLimitExceeded_eq_dec : EqDecision OnLimitExceeded.
Proof. solve_decision. Defined.

Definition on_limit (constraints : option AutonomyConstraints) : OnLimitExceeded :=
  default OnLimitFail (constraints ≫= on_limit_exceeded).

Definition is_proceed (d : AutonomyDecision) : bool :=
  match d with Proceed => true | _ => false end.

Definition agent_check (l : Ledger) (step : Step) (now : DateTime)
    (agent : string * option AutonomyConstraints) : AutonomyDecision :=
  check agent.2 (usage l agent.1 now) step.

Fixpoint stop_loop (l : Ledger) (agents : Agents) (step : Step) (now : DateTime)
    (escalation : option (string * AutonomyDecision * OnLimitExceeded))
    : option (string * AutonomyDecision * OnLimitExceeded) :=
  match agents with
  | [] => escalation
  | agent :: agents =>
      let decision := agent_check l step now agent in
      if is_proceed decision then stop_loop l agents step now escalation
      else match on_limit agent.2 with
      | OnLimitFail => Some (agent.1, decision, OnLimitFail)
      | EscalateToHuman =>
          stop_loop l agents step now
            (match escalation with None => Some (agent.1, decision, EscalateToHuman)
             | e => e end)
      end
  end.

Definition first_stop (l : Ledger) (agents : Agents) (step : Step) (now : DateTime)
    : option (string * AutonomyDecision * OnLimitExceeded) :=
  stop_loop l agents step now None.

Definition fail_stop (l : Ledger) (agents : Agents) (step : Step) (now : DateTime) : bool :=
  existsb (λ agent, bool_decide (on_limit agent.2 = OnLimitFail)
                    && negb (is_proceed (agent_check l step now agent))) agents.

(** ** Releasing one step past a limit *)

Definition uses_approval (s : Z) (e : Event) : bool :=
  match event_kind e with
  | EventKind.AgentStepAdmitted _ _ _ _ (Some s') => bool_decide (s' = s)
  | _ => false
  end.

Section Escalations.
Context `{JsonText, ChronoOps}.

Definition unused_escalation (events : list Event) (node_id : string) : option Z :=
  match node_approval_status events node_id with
  | StatusApproved _ _ _ =>
      request ← answered_request events node_id;
      _ ← get ESCALATION_KEY (pa_context request);
      if existsb (uses_approval (pa_sequence request)) events then None
      else Some (pa_sequence request)
  | _ => None
  end.

Record Escalation := { esc_agent : string; esc_decision : AutonomyDecision }.

Definition escalation_context (self : Escalation) : Value :=
  obj (("agent_ref", Str (esc_agent self)) ::
    match esc_decision self with
    | LimitReached limit_type limit_value actual_value =>
        [("limit_type", Str limit_type); ("limit_value", limit_value);
         ("actual_value", actual_value)]
    | CircuitBreakerTripped consecutive_errors threshold =>
        [("limit_type", Str "circuit_breaker"); ("limit_value", num threshold);
         ("actual_value", num consecutive_errors)]
    | Proceed => []
    end).

Record Plan := {
  pl_agents : Agents; pl_step : Step; pl_earlier : Ledger; pl_now : DateTime;
  pl_escalation : option Escalation;
}.

(** [describe]. *)
Definition describe (agent : string) (decision : AutonomyDecision) : string :=
  match decision with
  | LimitReached limit_type limit_value actual_value =>
      AUTONOMY_RULE +:+ ": agent '" +:+ agent +:+ "' reached " +:+ limit_type +:+ " (limit "
      +:+ json_to_string limit_value +:+ ", at " +:+ json_to_string actual_value +:+ ")"
  | CircuitBreakerTripped consecutive_errors threshold =>
      AUTONOMY_RULE +:+ ": agent '" +:+ agent +:+ "' circuit breaker tripped ("
      +:+ pretty consecutive_errors +:+ " consecutive errors, threshold "
      +:+ pretty threshold +:+ ")"
  | Proceed => AUTONOMY_RULE +:+ ": agent '" +:+ agent +:+ "'"
  end.
End Escalations.

(** ** Planning and admitting a step *)

Section Steps.
Context `{!UuidOps, !ChronoOps, !JsonText} {S : Type} `{HB : StateBackend S}.

(** An early [return Err(outcome)] is the error. *)
Abbreviation G A := (eff S GuardOutcome A).

Definition counters_unavailable (what : string) : GuardOutcome :=
  GuardOutcome.Unavailable
    ("agent autonomy counters unavailable; refusing to run without checking them: " +:+ what).

Definition backend_unavailable (e : StateBackendError) : GuardOutcome :=
  counters_unavailable (StateBackendError_display e).

Fixpoint fold_segments (earlier : Ledger) (chain : list ExecutionId) : G Ledger :=
  match chain with
  | [] => mret earlier
  | id :: chain =>
      events ← with_err backend_unavailable (get_events id);
      match apply_segment earlier events with
      | None => raise (counters_unavailable
          ("segment " +:+ ExecutionId_display id +:+ " holds an unreadable event"))
      | Some earlier => fold_segments earlier chain
      end
  end.

(** The stop's own record; [None] for [Proceed]. *)
Definition stop_kind (node_id agent : string) (decision : AutonomyDecision)
    : option (EventKind * string) :=
  match decision with
  | LimitReached limit_type limit_value actual_value =>
      Some (EventKind.AutonomyLimitReached node_id agent limit_type limit_value actual_value,
            "autonomy_limit:" +:+ limit_type)
  | CircuitBreakerTripped consecutive_errors threshold =>
      Some (EventKind.CircuitBreakerTripped node_id agent consecutive_errors threshold,
            "circuit_breaker")
  | Proceed => None
  end.

(** [record_stop]: best effort. *)
Definition record_stop (execution_id : ExecutionId) (node_id agent : string)
    (decision : AutonomyDecision) (escalated_to : option string) : G unit :=
  match stop_kind node_id agent decision with
  | None => mret tt
  | Some (stop, reason) =>
      let kinds := stop :: match escalated_to with
        | Some target => [EventKind.EscalationRequired node_id agent reason target]
        | None => [] end in
      for_each kinds (λ kind,
        event ← Event_new execution_id 0 kind;
        as_result (append_event event) ≫= λ _, mret tt)
  end.

Definition plan (execution_id : ExecutionId) (node_id : string) (agents : Agents)
    (tool_calls : Z) : G Plan :=
  chain ← with_err backend_unavailable (segment_chain execution_id);
  earlier ← fold_segments Ledger_default (base.filter (λ id, id ≠ execution_id) chain);
  events ← with_err backend_unavailable (get_events execution_id);
  match apply_segment earlier events with
  | None => raise (counters_unavailable "the run's log holds an unreadable event")
  | Some ledger =>
      now ← utc_now;
      let step := {| step_tool_calls := tool_calls |} in
      let planned esc := {| pl_agents := agents; pl_step := step; pl_earlier := earlier;
                            pl_now := now; pl_escalation := esc |} in
      match first_stop ledger agents step now with
      | None => mret (planned None)
      | Some (agent, decision, OnLimitFail) =>
          record_stop execution_id node_id agent decision None ≫= λ _,
          raise (GuardOutcome.Blocked (describe agent decision))
      | Some (agent, decision, EscalateToHuman) =>
          mret (planned (Some {| esc_agent := agent; esc_decision := decision |}))
      end
  end.

(** The condition the admission is appended under. *)
Definition still_allowed (p : Plan) (node : string) (approval_sequence : option Z)
    (log : list Event) : bool :=
  match apply_segment (pl_earlier p) log with
  | None => false
  | Some ledger =>
      match approval_sequence with
      | None => match first_stop ledger (pl_agents p) (pl_step p) (pl_now p) with
                | None => true | Some _ => false end
      | Some seq =>
          bool_decide (unused_escalation log node = Some seq)
          && negb (fail_stop ledger (pl_agents p) (pl_step p) (pl_now p))
      end
  end.

(** The approval an escalated step fires on, read now. *)
Definition release (execution_id : ExecutionId) (node_id : string) (p : Plan) : G (option Z) :=
  match pl_escalation p with
  | None => mret None
  | Some _ =>
      events ← with_err (λ e, GuardOutcome.Unavailable
        ("agent steps unreadable: " +:+ StateBackendError_display e)) (get_events execution_id);
      match unused_escalation events node_id with
      | Some seq => mret (Some seq)
      | None => raise (GuardOutcome.Unavailable
          "the approval releasing this step past the agent's limit was used or withdrawn; deciding again on the next attempt")
      end
  end.

Definition admit_step (execution_id : ExecutionId) (node_id : string) (work_item_id : option Uuid)
    (p : Plan) : G GuardOutcome :=
  approval_sequence ← release execution_id node_id p;
  event ← Event_new execution_id 0
    (EventKind.AgentStepAdmitted node_id work_item_id (pl_agents p).*1
       (step_tool_calls (pl_step p)) approval_sequence);
  appended ← as_result (append_event_if event (λ _, still_allowed p node_id approval_sequence));
  mret match appended with
  | Ok (Appended _) => GuardOutcome.Allow
  | Ok Refused => GuardOutcome.Unavailable
      "another step of the agent was recorded while this one was decided; deciding again on the next attempt"
  | Ok (AppendExecutionTerminal status) =>
      GuardOutcome.Unavailable ("execution is " +:+ status_debug status)
  | Err e => GuardOutcome.Unavailable
      ("agent step could not be recorded; refusing to run it unrecorded: "
       +:+ StateBackendError_display e)
  end.

(** ** Recording a result *)

Definition admits_item (item : Uuid) (e : Event) : bool :=
  match event_kind e with
  | EventKind.AgentStepAdmitted _ (Some id) _ _ _ => bool_decide (id = item)
  | _ => false
  end.

(** The events from the item's latest admission on. *)
Fixpoint from_last_admission (item : Uuid) (events : list Event) : option (list Event) :=
  match events with
  | [] => None
  | e :: events' =>
      match from_last_admission item events' with
      | Some tail => Some tail
      | None => if admits_item item e then Some events else None
      end
  end.

Definition opens_step (node : string) (e : Event) : bool :=
  match event_kind e with
  | EventKind.AgentStepAdmitted n _ _ _ _ => bool_decide (n = node)
  | _ => false
  end.
Definition ends_step (node : string) (e : Event) : bool :=
  match event_kind e with
  | EventKind.NodeCompleted n _ _ _ _ _ _ _ _ _ _ _ | EventKind.NodeFailed n _ _ _ =>
      bool_decide (n = node)
  | _ => false
  end.

Definition step_open (events : list Event) (item : Uuid) : bool :=
  match from_last_admission item events with
  | None | Some [] => false
  | Some ((at_ :: _) as tail) =>
      let node := default "" (EventKind.node_id (event_kind at_)) in
      bool_decide (count (ends_step node) tail < count (opens_step node) tail)%nat
  end.

Definition completion_admitted (execution_id : ExecutionId) (work_item_id : option Uuid)
    : G unit :=
  match work_item_id with
  | None => raise (GuardOutcome.Blocked (AUTONOMY_RULE +:+
      ": a result for a node acting for an agent needs the work item it was admitted as"))
  | Some item =>
      events ← with_err (λ e, GuardOutcome.Unavailable
        ("agent steps unreadable; refusing to record the result: "
         +:+ StateBackendError_display e)) (get_events execution_id);
      if step_open events item then mret tt
      else raise (GuardOutcome.Blocked (AUTONOMY_RULE +:+ ": work item " +:+ uuid_hyphenated item
        +:+ " acts for an agent and was never admitted by the claim gate, so its result cannot be recorded"))
  end.
End Steps.

(** ** What the fold counts *)

(** The agents an event admits a step for, and how often it names [a]. *)
Definition step_agents (e : Event) : list string :=
  match event_kind e with EventKind.AgentStepAdmitted _ _ agents _ _ => agents | _ => [] end.
Definition occurrences (a : string) (agents : list string) : nat :=
  length (base.filter (λ b, b = a) agents).
Definition step_calls (e : Event) : Z :=
  match event_kind e with EventKind.AgentStepAdmitted _ _ _ calls _ => calls | _ => 0 end.

(** Steps of [a], and tool calls of its steps, in a log. *)
Definition steps_named (a : string) (events : list Event) : Z :=
  foldr (λ e n, Z.of_nat (occurrences a (step_agents e)) + n) 0 events.
Definition calls_named (a : string) (events : list Event) : Z :=
  foldr (λ e n, Z.of_nat (occurrences a (step_agents e)) * step_calls e + n) 0 events.

Section LedgerLemmas.
Context (a : string).

Lemma spent_of_insert l b s : spent_of (<[b := s]> l) a = if decide (b = a) then s else spent_of l a.
Proof.
  unfold spent_of. case_decide as Hb; [subst b; by rewrite lookup_insert_eq|by rewrite lookup_insert_ne].
Qed.

Lemma charge_spec f l agents :
  spent_of (charge f l agents) a = Nat.iter (occurrences a agents) f (spent_of l a).
Proof.
  unfold charge, occurrences. revert l. induction agents as [|b agents IH]; intros l; simpl; [done|].
  rewrite IH, spent_of_insert, filter_cons. case_decide as Hb; [subst b|done].
  cbn [length]. by rewrite Nat.iter_succ_r.
Qed.

Lemma iter_sat (g : Spent → Z) f n s c :
  0 ≤ c → (∀ s, g (f s) = u64_sat_add (g s) c) → g s ≤ u64_max →
  g (Nat.iter n f s) = Z.min u64_max (g s + Z.of_nat n * c).
Proof.
  intros Hc Hf Hs. induction n as [|n IH]; [simpl; lia|]. rewrite Nat.iter_succ, Hf, IH.
  unfold u64_sat_add. lia.
Qed.

Lemma iter_same (g : Spent → Z) f n s : (∀ s, g (f s) = g s) → g (Nat.iter n f s) = g s.
Proof. intros Hf. induction n as [|n IH]; [done|]. by rewrite Nat.iter_succ, Hf. Qed.

Lemma ledger_apply_counts l e l' :
  ledger_apply l e = Some l' → 0 ≤ step_calls e →
  sp_iterations (spent_of (lg_agents l) a) ≤ u64_max →
  sp_tool_calls (spent_of (lg_agents l) a) ≤ u64_max →
  sp_iterations (spent_of (lg_agents l') a)
    = Z.min u64_max (sp_iterations (spent_of (lg_agents l) a) + Z.of_nat (occurrences a (step_agents e)))
  ∧ sp_tool_calls (spent_of (lg_agents l') a)
    = Z.min u64_max (sp_tool_calls (spent_of (lg_agents l) a)
        + Z.of_nat (occurrences a (step_agents e)) * step_calls e).
Proof.
  unfold ledger_apply, step_agents, step_calls, end_step. intros Hap Hcalls Hi Ht.
  destruct (event_kind e); try (injection Hap as <-; cbn; split; lia); try discriminate Hap.
  - destruct (lg_open l !! node_id) as [[|]|]; injection Hap as <-; try (cbn; split; lia).
    cbn [lg_agents]. rewrite charge_spec, !(iter_same sp_iterations), !(iter_same sp_tool_calls) by done.
    cbn; split; lia.
  - destruct (lg_open l !! node_id) as [[|]|]; injection Hap as <-; try (cbn; split; lia).
    cbn [lg_agents]. rewrite charge_spec, !(iter_same sp_iterations), !(iter_same sp_tool_calls) by done.
    cbn; split; lia.
  - injection Hap as <-. cbn [lg_agents]. rewrite charge_spec. split.
    + rewrite (iter_sat sp_iterations _ _ _ 1); [lia|lia|done|done].
    + rewrite (iter_sat sp_tool_calls _ _ _ tool_calls); [lia|done|done|done].
Qed.

Lemma occurrences_nonneg e : 0 ≤ Z.of_nat (occurrences a (step_agents e)).
Proof. lia. Qed.

Lemma steps_named_nonneg evs : 0 ≤ steps_named a evs.
Proof. induction evs; simpl; lia. Qed.

Lemma calls_named_nonneg evs :
  Forall (λ e, 0 ≤ step_calls e) evs → 0 ≤ calls_named a evs.
Proof. induction 1; simpl; lia. Qed.

Lemma steps_named_app evs evs' : steps_named a (evs ++ evs') = steps_named a evs + steps_named a evs'.
Proof. induction evs; simpl; lia. Qed.

Lemma calls_named_app evs evs' : calls_named a (evs ++ evs') = calls_named a evs + calls_named a evs'.
Proof. induction evs; simpl; lia. Qed.

Lemma apply_events_counts l evs l' :
  apply_events_ledger l evs = Some l' → Forall (λ e, 0 ≤ step_calls e) evs →
  sp_iterations (spent_of (lg_agents l) a) ≤ u64_max →
  sp_tool_calls (spent_of (lg_agents l) a) ≤ u64_max →
  sp_iterations (spent_of (lg_agents l') a)
    = Z.min u64_max (sp_iterations (spent_of (lg_agents l) a) + steps_named a evs)
  ∧ sp_tool_calls (spent_of (lg_agents l') a)
    = Z.min u64_max (sp_tool_calls (spent_of (lg_agents l) a) + calls_named a evs).
Proof.
  intros Hap HF. revert l Hap. induction HF as [|e evs He HF IH]; intros l; simpl.
  - intros [= <-] ? ?. lia.
  - destruct (ledger_apply l e) as [l1|] eqn:Hl1; simpl; [|done]. intros Hap Hi Ht.
    destruct (ledger_apply_counts l e l1 Hl1 He Hi Ht) as [Ei Et].
    destruct (IH l1 Hap) as [Ei' Et']; [lia|lia|]. rewrite Ei', Et', Ei, Et.
    pose proof (steps_named_nonneg evs). pose proof (calls_named_nonneg evs HF). split; lia.
Qed.
End LedgerLemmas.

Lemma ledger_apply_unknown l e : ledger_apply l e = None ↔ is_unknown e = true.
Proof.
  unfold ledger_apply, is_unknown. destruct (event_kind e); try done;
    (split; [|done]); repeat case_match; done.
Qed.

(** The counters of a log that holds an unreadable event are not known. *)
Lemma apply_segment_none l evs : apply_segment l evs = None ↔ has_unreadable_events evs = true.
Proof.
  unfold apply_segment. generalize {| lg_agents := lg_agents l; lg_open := ∅ |}. clear l.
  induction evs as [|e evs IH]; intros l; simpl; [done|]. rewrite orb_true_iff.
  destruct (ledger_apply l e) as [l1|] eqn:Hl; simpl.
  - rewrite IH. split; [by right|]. intros [Hu|?]; [|done].
    apply (ledger_apply_unknown l) in Hu. congruence.
  - apply ledger_apply_unknown in Hl. split; [by left|done].
Qed.

Lemma apply_segment_counts a l evs l' :
  apply_segment l evs = Some l' → Forall (λ e, 0 ≤ step_calls e) evs →
  sp_iterations (spent_of (lg_agents l) a) ≤ u64_max →
  sp_tool_calls (spent_of (lg_agents l) a) ≤ u64_max →
  sp_iterations (spent_of (lg_agents l') a)
    = Z.min u64_max (sp_iterations (spent_of (lg_agents l) a) + steps_named a evs)
  ∧ sp_tool_calls (spent_of (lg_agents l') a)
    = Z.min u64_max (sp_tool_calls (spent_of (lg_agents l) a) + calls_named a evs).
Proof. intros Hap. by apply (apply_events_counts a {| lg_agents := lg_agents l; lg_open := ∅ |}). Qed.

(** ** Stops *)

Lemma is_proceed_true d : is_proceed d = true ↔ d = Proceed.
Proof. by destruct d. Qed.

Lemma stop_loop_none l agents step now esc :
  stop_loop l agents step now esc = None ↔
  esc = None ∧ ∀ ag, ag ∈ agents → agent_check l step now ag = Proceed.
Proof.
  revert esc. induction agents as [|ag agents IH]; intros esc; simpl.
  - split; [intros ->; split; [done|by intros ? ?%not_elem_of_nil]|by intros [-> _]].
  - destruct (is_proceed (agent_check l step now ag)) eqn:Hp.
    + apply is_proceed_true in Hp. rewrite IH. split; intros [-> Hall]; (split; [done|]).
      * intros b [->|Hb]%elem_of_cons; auto.
      * intros b Hb. apply Hall. by right.
    + assert (agent_check l step now ag ≠ Proceed) as Hne by (intros E; by rewrite E in Hp).
      destruct (on_limit ag.2).
      * split; [done|]. intros [_ Hall]. destruct Hne. apply Hall. left.
      * rewrite IH. split; [by destruct esc; intros []|].
        intros [_ Hall]. destruct Hne. apply Hall. left.
Qed.

Lemma first_stop_none l agents step now :
  first_stop l agents step now = None ↔
  ∀ ag, ag ∈ agents → agent_check l step now ag = Proceed.
Proof. unfold first_stop. rewrite stop_loop_none. tauto. Qed.

Lemma fail_stop_false l agents step now :
  fail_stop l agents step now = false ↔
  ∀ ag, ag ∈ agents → on_limit ag.2 = OnLimitFail → agent_check l step now ag = Proceed.
Proof.
  unfold fail_stop. split.
  - intros Hf ag Hin Hol. destruct (is_proceed (agent_check l step now ag)) eqn:Hp;
      [by apply is_proceed_true|].
    enough (existsb (λ agent, bool_decide (on_limit agent.2 = OnLimitFail)
      && negb (is_proceed (agent_check l step now agent))) agents = true) by congruence.
    apply existsb_exists. exists ag. rewrite <- list_elem_of_In, Hp, bool_decide_eq_true_2 by done.
    done.
  - intros Hall. apply not_true_iff_false. rewrite existsb_exists.
    intros (ag & Hin%list_elem_of_In & [Hol%bool_decide_eq_true Hp]%andb_true_iff).
    by rewrite (Hall ag Hin Hol) in Hp.
Qed.

(** A [fail] card's stop is answered before any escalation. *)
Lemma first_stop_fail l agents step now agent decision ol :
  first_stop l agents step now = Some (agent, decision, ol) →
  ∃ c, (agent, c) ∈ agents ∧ on_limit c = ol ∧ decision = agent_check l step now (agent, c)
    ∧ decision ≠ Proceed
    ∧ (ol = EscalateToHuman → fail_stop l agents step now = false).
Proof.
  unfold first_stop.
  enough (∀ esc, stop_loop l agents step now esc = Some (agent, decision, ol) →
    (esc = Some (agent, decision, ol) ∧ (ol = EscalateToHuman → fail_stop l agents step now = false))
    ∨ ∃ c, (agent, c) ∈ agents ∧ on_limit c = ol ∧ decision = agent_check l step now (agent, c)
      ∧ decision ≠ Proceed ∧ (ol = EscalateToHuman → fail_stop l agents step now = false)) as Hgen.
  { intros Hs. destruct (Hgen None Hs) as [[? _]|?]; done. }
  induction agents as [|[ag c] agents IH]; intros esc; cbn [stop_loop].
  - intros ->. left. done.
  - unfold fail_stop. cbn [existsb]. fold (fail_stop l agents step now). cbn [fst snd].
    destruct (is_proceed (agent_check l step now (ag, c))) eqn:Hp.
    + cbn [negb]. rewrite andb_false_r, orb_false_l. intros Hs.
      destruct (IH _ Hs) as [?|(c' & Hin & ?)]; [by left|]. right. exists c'.
      split; [by right|done].
    + assert (agent_check l step now (ag, c) ≠ Proceed) as Hne by (intros E; by rewrite E in Hp).
      destruct (on_limit c) eqn:Hol.
      * intros [= <- <- <-]. right. exists c. split_and!; [left|done..].
      * rewrite bool_decide_eq_false_2 by done. rewrite andb_false_l, orb_false_l.
        intros Hs. destruct (IH _ Hs) as [[He Hf]|(c' & Hin & ?)].
        -- destruct esc as [e|]; [left; by split|]. injection He as <- <- <-.
           right. exists c. split_and!; [left|done..].
        -- right. exists c'. split; [by right|done].
Qed.
