(* ===== verification/AgentSteps.v ===== *)
(** * What the autonomy limits guarantee ([workers/src/agent_limits.rs])

    Theorems about [AgentLimits]: the counters a log gives, how far an agent
    can go past its card however many workers admit its steps at once, what
    planning and admitting a step do to the run. *)

From S2P Require Import Prelude.
From S2P Require Import Json.
From S2P Require Import RustStr.
From S2P Require Import Core.
From S2P Require Import Condition.
From S2P Require Import Ir.
From S2P Require Import Event.
From S2P Require Import Materializer.
From S2P Require Import Budget.
From S2P Require Import Hashing.
From S2P Require Import Approvals.
From S2P Require Import Backend.
From S2P Require Import Journal.
From S2P Require Import Memory.
From S2P Require Import Lease.
From S2P Require Import MemoryLaws.
From S2P Require Import Segment.
From S2P Require Import Policy.
From S2P Require Import AgentLimits.

(** ** Counters over a run's segments *)

(** [fold_segments], on the logs themselves. *)
Fixpoint fold_logs (earlier : Ledger) (logs : list (list Event)) : option Ledger :=
  match logs with
  | [] => Some earlier
  | log :: logs => earlier ← apply_segment earlier log; fold_logs earlier logs
  end.

Definition counted (evs : list Event) : Prop := Forall (λ e, 0 ≤ step_calls e) evs.

Lemma fold_logs_counts a l logs l' :
  fold_logs l logs = Some l' → counted (concat logs) →
  0 ≤ sp_iterations (spent_of (lg_agents l) a) ≤ u64_max →
  0 ≤ sp_tool_calls (spent_of (lg_agents l) a) ≤ u64_max →
  sp_iterations (spent_of (lg_agents l') a)
    = Z.min u64_max (sp_iterations (spent_of (lg_agents l) a) + steps_named a (concat logs))
  ∧ sp_tool_calls (spent_of (lg_agents l') a)
    = Z.min u64_max (sp_tool_calls (spent_of (lg_agents l) a) + calls_named a (concat logs)).
Proof.
  revert l. induction logs as [|log logs IH]; intros l; simpl.
  - intros [= <-] _ Hi Ht. simpl. lia.
  - destruct (apply_segment l log) as [l1|] eqn:Hl1; simpl; [|done].
    intros Hf [Hc1 Hc2]%Forall_app Hi Ht.
    destruct (apply_segment_counts a l log l1 Hl1 Hc1) as [Ei Et]; [lia|lia|].
    pose proof (steps_named_nonneg a log). pose proof (calls_named_nonneg a log Hc1).
    destruct (IH l1 Hf Hc2) as [Ei' Et']; [lia|lia|].
    pose proof (steps_named_nonneg a (concat logs)). pose proof (calls_named_nonneg a _ Hc2).
    rewrite Ei', Et', Ei, Et, steps_named_app, calls_named_app. lia.
Qed.

Lemma fold_logs_none l logs :
  fold_logs l logs = None ↔ has_unreadable_events (concat logs) = true.
Proof.
  revert l. induction logs as [|log logs IH]; intros l; simpl; [done|].
  unfold has_unreadable_events in *. rewrite existsb_app, orb_true_iff.
  destruct (apply_segment l log) as [l1|] eqn:Hl1; simpl.
  - rewrite IH. split; [by right|]. intros [Hu|?]; [|done].
    apply (apply_segment_none l) in Hu. congruence.
  - apply apply_segment_none in Hl1. split; [by left|done].
Qed.

(** ** How far an agent can go *)

Section Limits.
Context `{!JsonText, !ChronoOps}.

Definition is_step (e : Event) : bool :=
  match event_kind e with EventKind.AgentStepAdmitted _ _ _ _ _ => true | _ => false end.
(** A step fired on no person's approval, and the approval one was fired on. *)
Definition free_step (e : Event) : bool :=
  match event_kind e with EventKind.AgentStepAdmitted _ _ _ _ None => true | _ => false end.
Definition released_by (e : Event) : option Z :=
  match event_kind e with EventKind.AgentStepAdmitted _ _ _ _ s => s | _ => None end.
Definition free_steps (log : list Event) : list Event :=
  base.filter (λ e, free_step e = true) log.

(** A segment's log, as any number of workers write it: an event that admits
    no step, or a step of a plan, appended while its condition held on the log
    at the append. Every plan of a step of [a] carries [a]'s card. *)
Inductive step_log (a : string) (card : AutonomyConstraints) (earlier : Ledger)
    : list Event → Prop :=
| log_empty : step_log a card earlier []
| log_other log e :
    is_step e = false →
    step_log a card earlier log → step_log a card earlier (log ++ [e])
| log_step log e p node item seq :
    event_kind e = EventKind.AgentStepAdmitted node item (pl_agents p).*1
      (step_tool_calls (pl_step p)) seq →
    pl_earlier p = earlier →
    NoDup (pl_agents p).*1 → (∀ c, (a, c) ∈ pl_agents p → c = Some card) →
    0 ≤ step_tool_calls (pl_step p) →
    still_allowed p node seq log = true →
    step_log a card earlier log → step_log a card earlier (log ++ [e]).

Lemma step_log_counted a card earlier log : step_log a card earlier log → counted log.
Proof.
  induction 1 as [|log e He _ IH|log e p node item seq He _ _ _ Hc _ _ IH]; [constructor| |];
    (apply Forall_app; split; [done|]; constructor; [|done]).
  - unfold is_step, step_calls in *. by destruct (event_kind e).
  - unfold step_calls. by rewrite He.
Qed.

Lemma occurrences_nodup a l : NoDup l → occurrences a l = if decide (a ∈ l) then 1%nat else 0%nat.
Proof.
  unfold occurrences. induction 1 as [|b l Hb _ IH]; [done|]. rewrite filter_cons.
  destruct (decide (b = a)) as [->|Hba].
  - cbn [length]. rewrite (decide_True (P := a ∈ a :: l)) by left.
    rewrite decide_False in IH by done. by rewrite IH.
  - rewrite IH. apply decide_ext. rewrite elem_of_cons. naive_solver.
Qed.

(** What a limit that lets the step pass says of the counters. *)
Lemma check_proceed_counts card usage step :
  check (Some card) usage step = Proceed →
  (∀ m, max_iterations card = Some m → iterations usage < m)
  ∧ (∀ m, max_tool_calls card = Some m → 0 < step_tool_calls step →
       u64_add (au_tool_calls usage) (step_tool_calls step) ≤ m).
Proof.
  unfold check. case_decide; [done|]. cbn [mbind option_bind]. intros Hc.
  destruct (max_iterations card) as [m|] eqn:Hm.
  - case_decide; [done|]. split; [intros ? [= <-]; lia|]. intros m' Hm' Hpos.
    rewrite Hm' in Hc. case_decide as Hd; [done|]. lia.
  - split; [done|]. intros m' Hm' Hpos. rewrite Hm' in Hc. case_decide as Hd; [done|]. lia.
Qed.

(** The counters a step of [a] is let through on. *)
Lemma step_counts a card earlier p log ledger :
  apply_segment earlier log = Some ledger → counted log →
  0 ≤ sp_iterations (spent_of (lg_agents earlier) a) ≤ u64_max →
  0 ≤ sp_tool_calls (spent_of (lg_agents earlier) a) ≤ u64_max →
  agent_check ledger (pl_step p) (pl_now p) (a, Some card) = Proceed →
  (∀ m, max_iterations card = Some m → m ≤ u64_max →
     sp_iterations (spent_of (lg_agents earlier) a) + steps_named a log < m)
  ∧ (∀ m, max_tool_calls card = Some m → 0 < step_tool_calls (pl_step p) →
     sp_tool_calls (spent_of (lg_agents earlier) a) + calls_named a log
       + step_tool_calls (pl_step p) ≤ u64_max →
     sp_tool_calls (spent_of (lg_agents earlier) a) + calls_named a log
       + step_tool_calls (pl_step p) ≤ m).
Proof.
  intros Hl Hc Hi Ht [Hit Htc]%check_proceed_counts.
  destruct (apply_segment_counts a earlier log ledger Hl Hc) as [Ei Et]; [lia|lia|].
  cbn [usage iterations au_tool_calls fst] in *. rewrite Ei in Hit. rewrite Et in Htc.
  pose proof (steps_named_nonneg a log). pose proof (calls_named_nonneg a log Hc).
  split; intros m Hm.
  - specialize (Hit m Hm). lia.
  - intros Hpos Hmax. specialize (Htc m Hm Hpos). unfold u64_add in Htc.
    rewrite wrap_u64_small in Htc; unfold u64_max in *; lia.
Qed.

Lemma still_allowed_free p node log :
  still_allowed p node None log = true →
  ∃ ledger, apply_segment (pl_earlier p) log = Some ledger
    ∧ ∀ ag, ag ∈ pl_agents p → agent_check ledger (pl_step p) (pl_now p) ag = Proceed.
Proof.
  unfold still_allowed. destruct (apply_segment _ log) as [ledger|]; [|done].
  destruct (first_stop _ _ _ _) eqn:Hs; [done|]. intros _. exists ledger. split; [done|].
  by apply first_stop_none.
Qed.

Lemma still_allowed_released p node seq log :
  still_allowed p node (Some seq) log = true →
  unused_escalation log node = Some seq
  ∧ ∃ ledger, apply_segment (pl_earlier p) log = Some ledger
    ∧ ∀ ag, ag ∈ pl_agents p → on_limit ag.2 = OnLimitFail →
        agent_check ledger (pl_step p) (pl_now p) ag = Proceed.
Proof.
  unfold still_allowed. destruct (apply_segment _ log) as [ledger|]; [|done].
  intros [Hu%bool_decide_eq_true Hf%negb_true_iff]%andb_true_iff. split; [done|].
  exists ledger. split; [done|]. by apply fail_stop_false.
Qed.

(** An approval that may release a step has released none in the log. *)
Lemma unused_escalation_fresh log node seq :
  unused_escalation log node = Some seq → ∀ e, e ∈ log → released_by e ≠ Some seq.
Proof.
  unfold unused_escalation. destruct (node_approval_status log node); try done.
  destruct (answered_request log node) as [r|]; simpl; [|done].
  destruct (get ESCALATION_KEY (pa_context r)); simpl; [|done].
  destruct (existsb _ log) eqn:Hex; [done|]. intros [= <-] e He Hr.
  apply not_true_iff_false in Hex. apply Hex, existsb_exists. exists e.
  rewrite <- list_elem_of_In. split; [done|]. unfold uses_approval, released_by in *.
  destruct (event_kind e); try done. subst approval_sequence. by apply bool_decide_eq_true.
Qed.

(** The approvals released steps fired on. *)
Definition approvals_used (log : list Event) : list Z := omap released_by log.

Lemma step_log_approvals a card earlier log :
  step_log a card earlier log → NoDup (approvals_used log).
Proof.
  unfold approvals_used.
  induction 1 as [|log e He _ IH|log e p node item seq He _ _ _ _ Hok _ IH]; [constructor| |];
    rewrite omap_app, NoDup_app; (split; [done|]); simpl.
  - replace (released_by e) with (@None Z)
      by (unfold is_step, released_by in *; by destruct (event_kind e)).
    split; [by intros ? _ ?%not_elem_of_nil|constructor].
  - replace (released_by e) with seq by (unfold released_by; by rewrite He).
    destruct seq as [seq|]; [|split; [by intros ? _ ?%not_elem_of_nil|constructor]].
    apply still_allowed_released in Hok as [Hu _]. split.
    + intros x (y & Hy & Hx)%list_elem_of_omap ->%list_elem_of_singleton.
      by eapply unused_escalation_fresh.
    + apply NoDup_singleton.
Qed.

(** What [e] adds to the counts of a log it is appended to. *)
Lemma named_snoc a log e :
  steps_named a (log ++ [e]) = steps_named a log + Z.of_nat (occurrences a (step_agents e))
  ∧ calls_named a (log ++ [e])
    = calls_named a log + Z.of_nat (occurrences a (step_agents e)) * step_calls e.
Proof. rewrite steps_named_app, calls_named_app. simpl. lia. Qed.

Lemma free_steps_snoc log e :
  free_steps (log ++ [e]) = if free_step e then free_steps log ++ [e] else free_steps log.
Proof.
  unfold free_steps. rewrite filter_app, filter_cons, filter_nil.
  destruct (free_step e); [by rewrite decide_True|]. rewrite decide_False by done.
  by rewrite app_nil_r.
Qed.

Lemma free_steps_le a log : counted log →
  0 ≤ steps_named a (free_steps log) ≤ steps_named a log
  ∧ 0 ≤ calls_named a (free_steps log) ≤ calls_named a log.
Proof.
  unfold free_steps. induction 1 as [|e log He Hlog IH]; [simpl; lia|]. rewrite filter_cons.
  assert (0 ≤ Z.of_nat (occurrences a (step_agents e)) * step_calls e) by lia.
  case_decide; simpl; lia.
Qed.

(** Where a step of [a] stands on no approval, or [a]'s card fails at its
    limit, the card let it through. *)
Lemma step_let_through a card p node seq log :
  (∀ c, (a, c) ∈ pl_agents p → c = Some card) →
  still_allowed p node seq log = true → a ∈ (pl_agents p).*1 →
  (seq = None ∨ on_limit (Some card) = OnLimitFail) →
  ∃ ledger, apply_segment (pl_earlier p) log = Some ledger
    ∧ agent_check ledger (pl_step p) (pl_now p) (a, Some card) = Proceed.
Proof.
  intros Hcard Hok ([a' c] & -> & Hin)%list_elem_of_fmap Hcase. simpl in *.
  pose proof (Hcard c Hin) as ->. destruct seq as [seq|].
  - apply still_allowed_released in Hok as (_ & ledger & Hl & Hp). exists ledger.
    destruct Hcase as [?|Hfail]; [done|]. split; [done|]. by apply Hp.
  - apply still_allowed_free in Hok as (ledger & Hl & Hp). exists ledger.
    split; [done|]. by apply Hp.
Qed.

(** One bound for steps and one for tool calls: [n] what the agent had before
    the segment, [f] what the segment adds. *)
Definition within (card : AutonomyConstraints) (m n : Z) (f : list Event → Z) (log : list Event)
    : Prop :=
  (f (free_steps log) = 0 ∨ n + f (free_steps log) ≤ m)
  ∧ (on_limit (Some card) = OnLimitFail → f log = 0 ∨ n + f log ≤ m).

(** The induction both bounds share: what a step let through leaves within
    the limit stays there. *)
Lemma step_log_within a card earlier (f : list Event → Z) (d : Event → Z) m n B log :
  (∀ log e, f (log ++ [e]) = f log + d e) → (∀ log, counted log → f (free_steps log) ≤ f log) →
  f [] = 0 → (∀ e, is_step e = false → d e = 0) →
  (∀ log e p node item seq, event_kind e = EventKind.AgentStepAdmitted node item (pl_agents p).*1
      (step_tool_calls (pl_step p)) seq → pl_earlier p = earlier → NoDup (pl_agents p).*1 →
      step_log a card earlier log → counted (log ++ [e]) → n + f (log ++ [e]) ≤ B →
      d e = 0 ∨ a ∈ (pl_agents p).*1
        ∧ ∀ ledger, apply_segment earlier log = Some ledger →
          agent_check ledger (pl_step p) (pl_now p) (a, Some card) = Proceed →
          n + f (log ++ [e]) ≤ m) →
  (∀ e, 0 ≤ step_calls e → 0 ≤ d e) →
  step_log a card earlier log → n + f log ≤ B → within card m n f log.
Proof.
  intros Happ Hle Hnil Hother Hstep Hnn Hlog Hmax. unfold within.
  induction Hlog as [|log e He Hlog IH|log e p node item seq He Hp Hnd Hcard Hc Hok Hlog IH].
  - unfold free_steps. rewrite filter_nil, Hnil. by split; [left|left].
  - rewrite Happ, Hother, Z.add_0_r in Hmax |- * by done.
    rewrite free_steps_snoc. replace (free_step e) with false
      by (unfold is_step, free_step in *; by destruct (event_kind e)). auto.
  - assert (counted (log ++ [e])) as Hce.
    { eapply step_log_counted, log_step; eauto. }
    assert (0 ≤ d e) as Hd by (apply Hnn; apply Forall_app in Hce as [_ Hce]; by inversion Hce).
    assert (n + f log ≤ B) as Hmax' by (rewrite Happ in Hmax; lia).
    specialize (IH Hmax') as [IHf IHfail].
    destruct (Hstep log e p node item seq He Hp Hnd Hlog Hce Hmax) as [Hz|[Hin Hthrough]].
    + rewrite free_steps_snoc. split.
      * destruct (free_step e); [by rewrite Happ, Hz, Z.add_0_r|done].
      * by rewrite Happ, Hz, Z.add_0_r.
    + pose proof (step_let_through a card p node seq log Hcard Hok Hin) as Hthr. rewrite Hp in Hthr.
      split.
      * pose proof (Hle _ Hce) as Hfle. rewrite free_steps_snoc in Hfle |- *. unfold free_step in *.
        rewrite He in *. destruct seq as [seq|]; [done|].
        destruct (Hthr (or_introl eq_refl)) as (ledger & Hl & Hpr).
        specialize (Hthrough ledger Hl Hpr). lia.
      * intros Hfail. destruct (Hthr (or_intror Hfail)) as (ledger & Hl & Hpr). right. eauto.
Qed.

Lemma occurrences_step a p e node item seq :
  event_kind e = EventKind.AgentStepAdmitted node item (pl_agents p).*1
    (step_tool_calls (pl_step p)) seq → NoDup (pl_agents p).*1 →
  occurrences a (step_agents e) = (if decide (a ∈ (pl_agents p).*1) then 1%nat else 0%nat)
  ∧ step_calls e = step_tool_calls (pl_step p).
Proof.
  intros He Hnd. unfold step_agents, step_calls. rewrite He. by rewrite occurrences_nodup.
Qed.

Lemma is_step_agents e : is_step e = false → step_agents e = [].
Proof. unfold is_step, step_agents. by destruct (event_kind e). Qed.

(** What the fold of the earlier segments holds of [a]. *)
Lemma earlier_counts a segs earlier :
  fold_logs Ledger_default segs = Some earlier → counted (concat segs) →
  sp_iterations (spent_of (lg_agents earlier) a) = Z.min u64_max (steps_named a (concat segs))
  ∧ sp_tool_calls (spent_of (lg_agents earlier) a) = Z.min u64_max (calls_named a (concat segs)).
Proof.
  intros Hf Hc. destruct (fold_logs_counts a Ledger_default segs earlier Hf Hc) as [-> ->];
    [done|done|]. done.
Qed.

(** C30: However many workers admit steps of an agent at once, the steps it takes on
    nobody's approval, over the run's earlier segments and this one, stay within
    its card's [max_iterations], and their tool calls within [max_tool_calls];
    a card that fails at its limit has no step past it at all; and an approval
    releases at most one step. *)
Theorem agent_never_exceeds (a : string) (card : AutonomyConstraints) (segs : list (list Event))
    (earlier : Ledger) (log : list Event)
    (Hearlier : fold_logs Ledger_default segs = Some earlier)
    (Hsegs : counted (concat segs))
    (Hlog : step_log a card earlier log) :
  (∀ m, max_iterations card = Some m → m ≤ u32_max →
     within card m (steps_named a (concat segs)) (steps_named a) log)
  ∧ (∀ m, max_tool_calls card = Some m → m ≤ u32_max →
     calls_named a (concat segs) + calls_named a log ≤ u64_max →
     within card m (calls_named a (concat segs)) (calls_named a) log)
  ∧ NoDup (approvals_used log).
Proof.
  destruct (earlier_counts a segs earlier Hearlier Hsegs) as [Ei Et].
  pose proof (steps_named_nonneg a (concat segs)). pose proof (calls_named_nonneg a _ Hsegs).
  assert (u32_max < u64_max) as Hmax by done. assert (0 ≤ u64_max) as Hu by done.
  split_and!; [| |by eapply step_log_approvals].
  - intros m Hm Hm32. eapply (step_log_within a card earlier (steps_named a)
      (λ e, Z.of_nat (occurrences a (step_agents e)))); [| | | | |intros; lia|exact Hlog|reflexivity];
      [intros; apply named_snoc|intros l Hl; by apply free_steps_le|done
      |intros e He; by rewrite is_step_agents|].
    intros l e p node item seq He Hp Hnd _ Hce _.
    destruct (occurrences_step a p e node item seq He Hnd) as [-> _]. case_decide as Hin; [|by left].
    right. split; [done|]. intros ledger Hl Hpr. apply Forall_app in Hce as [Hc _].
    destruct (step_counts a card earlier p l ledger Hl Hc) as [Hs _]; [lia|lia|done|].
    specialize (Hs m Hm ltac:(lia)). destruct (named_snoc a l e) as [-> _].
    destruct (occurrences_step a p e node item seq He Hnd) as [-> _]. rewrite decide_True by done.
    pose proof (steps_named_nonneg a l). lia.
  - intros m Hm Hm32 Hb. eapply (step_log_within a card earlier (calls_named a)
      (λ e, Z.of_nat (occurrences a (step_agents e)) * step_calls e));
      [| | | | |intros; lia|exact Hlog|exact Hb];
      [intros; apply named_snoc|intros l Hl; by apply free_steps_le|done
      |intros e He; by rewrite is_step_agents|].
    intros l e p node item seq He Hp Hnd _ Hce Hb'. apply Forall_app in Hce as [Hc Hce].
    destruct (named_snoc a l e) as [_ Hsn]. rewrite Hsn in Hb' |- *.
    destruct (occurrences_step a p e node item seq He Hnd) as [-> Hcalls].
    destruct (occurrences_step a p e node item seq He Hnd) as [Hocc _]. rewrite Hocc, Hcalls in *.
    case_decide as Hin; [|left; lia].
    assert (0 ≤ step_tool_calls (pl_step p)) by (rewrite <- Hcalls; by inversion Hce).
    destruct (decide (step_tool_calls (pl_step p) = 0)) as [Hz|Hz]; [left; lia|].
    right. split; [done|]. intros ledger Hl Hpr. pose proof (calls_named_nonneg a l Hc).
    destruct (step_counts a card earlier p l ledger Hl Hc) as [_ Hs]; [lia|lia|done|].
    specialize (Hs m Hm ltac:(lia) ltac:(lia)). lia.
Qed.
End Limits.

(** ** The latest admission of an item *)

Lemma from_last_admission_spec i log :
  match from_last_admission i log with
  | Some (e :: later) => ∃ earlier, log = earlier ++ e :: later ∧ admits_item i e = true
      ∧ ∀ e', e' ∈ later → admits_item i e' = false
  | Some [] => False
  | None => ∀ e, e ∈ log → admits_item i e = false
  end.
Proof.
  induction log as [|e log IH]; cbn [from_last_admission]; [by intros ? ?%not_elem_of_nil|].
  destruct (from_last_admission i log) as [[|e' later]|]; [done| |].
  - destruct IH as (earlier & -> & He & Hl). exists (e :: earlier). done.
  - destruct (admits_item i e) eqn:He; [by exists []|].
    intros e' [->|?]%elem_of_cons; auto.
Qed.

Lemma last_split_unique {A} (f : A → bool) l1 l1' x x' l2 l2' :
  l1 ++ x :: l2 = l1' ++ x' :: l2' →
  f x = true → (∀ y, y ∈ l2 → f y = false) → f x' = true → (∀ y, y ∈ l2' → f y = false) →
  l1 = l1' ∧ x = x' ∧ l2 = l2'.
Proof.
  intros Heq Hx H2 Hx' H2'. apply app_eq_inv in Heq as [(k & -> & Hk)|(k & -> & Hk)].
  - destruct k as [|y k]; simplify_eq/=; [by rewrite app_nil_r|].
    rewrite H2' in Hx; [done|]. apply elem_of_app. right. left.
  - destruct k as [|y k]; simplify_eq/=; [by rewrite app_nil_r|].
    rewrite H2 in Hx'; [done|]. apply elem_of_app. right. left.
Qed.

(** ** Planning and admitting a step *)

Section Effects.
Context `{!UuidOps, !ChronoOps, !JsonText} {S : Type} `{HL : StateBackendLaws S}.

Lemma fold_segments_run chain : ∀ earlier (w : world S),
  (fold_segments earlier chain w).2 = w
  ∧ match (fold_segments earlier chain w).1 with
    | Ok l => fold_logs earlier (view_log (store w) <$> chain) = Some l
    | Err e => fold_logs earlier (view_log (store w) <$> chain) = None
        ∧ ∃ msg, e = GuardOutcome.Unavailable msg
    end.
Proof.
  induction chain as [|id chain IH]; intros earlier w; [done|]. cbn [fold_segments].
  rewrite (with_err_run _ _ _ _ _ _ (law_get_events id w)). csimpl.
  destruct (apply_segment earlier (view_log (store w) id)) as [l1|]; simpl; [apply IH|].
  split_and!; [done..|]. eexists. reflexivity.
Qed.

Definition is_stop (k : EventKind) : Prop :=
  match k with
  | EventKind.AutonomyLimitReached _ _ _ _ _ | EventKind.CircuitBreakerTripped _ _ _ _
  | EventKind.EscalationRequired _ _ _ _ => True
  | _ => False
  end.

Lemma record_stop_journals id node agent decision target :
  respects (journals is_stop id) (record_stop (S := S) id node agent decision target).
Proof.
  unfold record_stop. destruct (stop_kind node agent decision) as [[stop reason]|] eqn:Hk;
    [|apply respects_mret, _].
  assert (is_stop stop) as Hstop by (unfold stop_kind in Hk; by destruct decision; simplify_eq/=).
  cut (Forall is_stop (stop :: match target with
    | Some t => [EventKind.EscalationRequired node agent reason t] | None => [] end)).
  2:{ constructor; [done|]. destruct target; by repeat constructor. }
  generalize (stop :: match target with
    | Some t => [EventKind.EscalationRequired node agent reason t] | None => [] end).
  induction 1 as [|k kinds Hkind _ IH]; cbn [for_each]; [apply respects_mret, _|].
  apply respects_bind; [apply _| |intros _; exact IH].
  apply journals_new. intros e He Hek. apply respects_bind; [apply _| |intros; apply respects_mret, _].
  apply respects_as_result. apply journals_append; [done|by rewrite Hek].
Qed.

(** A call whose result is dropped: the next one runs whatever it answered. *)
Lemma best_effort_run {A E B} (m : bk S A) (k : unit → eff S E B) w :
  ∃ w', (((as_result m : eff S E _) ≫= λ _, mret tt) ≫= k) w = k tt w'.
Proof.
  rewrite bind_assoc. destruct (m w) as [r w'] eqn:Hm. exists w'.
  by rewrite (as_result_run _ _ _ _ _ Hm).
Qed.

Lemma record_stop_ok id node agent decision target (w : world S) :
  (record_stop (S := S) id node agent decision target w).1 = Ok tt.
Proof.
  unfold record_stop. destruct (stop_kind node agent decision) as [[stop reason]|]; [|done].
  generalize (stop :: match target with
    | Some t => [EventKind.EscalationRequired node agent reason t] | None => [] end).
  intros kinds. revert w. induction kinds as [|k kinds IH]; intros w; [done|]. cbn [for_each].
  rewrite bind_assoc. unfold Event_new. rewrite bind_assoc, bind_new_v4, bind_assoc, bind_now, bind_mret.
  match goal with |- fst (((as_result ?m ≫= _) ≫= ?k) ?w1) = _ =>
    destruct (best_effort_run m k w1) as [w' ->] end. apply IH.
Qed.

(** The ledger a plan is made on: the earlier segments' logs, then this one's. *)
Definition planned_on (s : S) (id : ExecutionId) (chain : list ExecutionId) (earlier ledger : Ledger)
    : Prop :=
  fold_logs Ledger_default (view_log s <$> base.filter (λ i, i ≠ id) chain) = Some earlier
  ∧ apply_segment earlier (view_log s id) = Some ledger.

(** A plan is made on the counters of the whole run and writes nothing: with no
    escalation every agent's limits let the step through, with one some
    escalating card stops it and no failing card does. A failing card's stop
    blocks, recording nothing but the stop; a log that cannot be read answers
    [Unavailable] and writes nothing. *)
Theorem plan_correct (id : ExecutionId) (node : string) (agents : Agents) (tool_calls : Z)
    (w : world S) :
  let step := {| step_tool_calls := tool_calls |} in
  let '(r, w') := plan id node agents tool_calls w in
  match r with
  | Ok p =>
      w' = w ∧ pl_agents p = agents ∧ pl_step p = step ∧ pl_now p = clock w
      ∧ ∃ chain ledger, (segment_chain id w).1 = Ok chain
          ∧ planned_on (store w) id chain (pl_earlier p) ledger
          ∧ match pl_escalation p with
            | None => ∀ ag, ag ∈ agents → agent_check ledger step (clock w) ag = Proceed
            | Some esc => fail_stop ledger agents step (clock w) = false
                ∧ ∃ c, (esc_agent esc, c) ∈ agents ∧ on_limit c = EscalateToHuman
                  ∧ esc_decision esc = agent_check ledger step (clock w) (esc_agent esc, c)
                  ∧ esc_decision esc ≠ Proceed
            end
  | Err (GuardOutcome.Blocked _) =>
      journals is_stop id (store w) (store w')
      ∧ ∃ chain earlier ledger a c, (segment_chain id w).1 = Ok chain
          ∧ planned_on (store w) id chain earlier ledger
          ∧ (a, c) ∈ agents ∧ on_limit c = OnLimitFail
          ∧ agent_check ledger step (clock w) (a, c) ≠ Proceed
  | Err (GuardOutcome.Unavailable _) => store w' = store w
  | Err _ => False
  end.
Proof.
  intros step. unfold plan. pose proof (segment_chain_reads id w) as Hread.
  destruct (segment_chain id w) as [r w0] eqn:Hch. simpl in Hread. subst w0.
  rewrite (with_err_run _ _ _ _ _ _ Hch). destruct r as [chain|e]; [|done].
  destruct (fold_segments_run (base.filter (λ i, i ≠ id) chain) Ledger_default w) as [Hw Hfold].
  unfold mbind at 1, eff_bind at 1.
  destruct (fold_segments _ _ w) as [[earlier|e] w1]; simpl in Hw, Hfold; subst w1;
    [|by destruct Hfold as (_ & msg & ->)].
  rewrite (with_err_run _ _ _ _ _ _ (law_get_events id w)).
  destruct (apply_segment earlier (view_log (store w) id)) as [ledger|] eqn:Hap; [|done].
  rewrite bind_now. fold step. assert (planned_on (store w) id chain earlier ledger) by done.
  destruct (first_stop ledger agents step (clock w)) as [[[agent decision] ol]|] eqn:Hs.
  - apply first_stop_fail in Hs as (c & Hin & Hol & -> & Hne & Hfs). destruct ol.
    + unfold mbind, eff_bind.
      pose proof (record_stop_ok id node agent (agent_check ledger step (clock w) (agent, c)) None w) as Hok.
      pose proof (record_stop_journals id node agent
        (agent_check ledger step (clock w) (agent, c)) None w) as Hj.
      destruct (record_stop _ _ _ _ _ w) as [r w1]. simpl in *. subst r. simpl.
      split; [done|]. naive_solver.
    + simpl. split_and!; [done..|]. exists chain, ledger. split_and!; [done..|by apply Hfs|].
      exists c. done.
  - simpl. split_and!; [done..|]. exists chain, ledger. split_and!; [done..|].
    by apply first_stop_none.
Qed.

Lemma release_run id node p (w : world S) :
  (release id node p w).2 = w
  ∧ match (release id node p w).1 with
    | Ok seq => (pl_escalation p = None ↔ seq = None)
    | Err e => pl_escalation p ≠ None ∧ ∃ msg, e = GuardOutcome.Unavailable msg
    end.
Proof.
  unfold release. destruct (pl_escalation p); [|done].
  rewrite (with_err_run _ _ _ _ _ _ (law_get_events id w)).
  destruct (unused_escalation _ node); simpl; [done|]. split; [done|]. eauto.
Qed.

(** [admit_step] answers [Allow] exactly when it appended the step, and then the
    limits still allowed it on the log it was appended to, an escalated step on
    an approval no other step used; else it wrote nothing and answers
    [Unavailable]. *)
Theorem admit_correct (id : ExecutionId) (node : string) (item : option Uuid) (p : Plan)
    (w : world S) :
  let '(r, w') := admit_step id node item p w in
  let log := view_log (store w) id in
  same_runs (store w) (store w') ∧ (∀ i, i ≠ id → view_log (store w') i = view_log (store w) i)
  ∧ match r with
    | Ok GuardOutcome.Allow =>
        ∃ seq e, (pl_escalation p = None ↔ seq = None)
          ∧ still_allowed p node seq log = true
          ∧ event_kind e = EventKind.AgentStepAdmitted node item (pl_agents p).*1
              (step_tool_calls (pl_step p)) seq
          ∧ view_log (store w') id = log ++ [e]
    | Ok (GuardOutcome.Unavailable _) | Err (GuardOutcome.Unavailable _) =>
        view_log (store w') id = log
    | _ => False
    end.
Proof.
  unfold admit_step. destruct (release_run id node p w) as [Hw Hrel].
  unfold mbind at 1, eff_bind at 1.
  destruct (release id node p w) as [[seq|e] w0]; simpl in Hw, Hrel; subst w0.
  2:{ destruct Hrel as (_ & msg & ->). done. }
  unfold Event_new. rewrite bind_assoc, bind_new_v4, bind_assoc, bind_now, bind_mret.
  set (ev := {| event_id := _ |}). set (w1 := World _ _ _).
  destruct (append_event_if ev (λ _, still_allowed p node seq) w1) as [r w'] eqn:Hrun.
  rewrite (as_result_run _ _ _ _ _ Hrun). cbn [mret eff_ret].
  pose proof (λ i, law_append_event_if_other _ _ _ _ _ i Hrun) as Ho.
  apply law_append_event_if in Hrun as [Hs Hlog].
  split; [exact Hs|]. split; [intros i Hi; exact (Ho i Hi)|].
  destruct r as [[sq| |st]|e]; [|exact (Hlog id)..].
  destruct Hlog as [Hok Hlog]. exists seq, (set_sequence ev sq). done.
Qed.

(** A result of an agent's node is recorded only for a work item whose step is
    open: admitted, and with fewer results than admissions of its node since.
    Nothing is written either way. *)
Theorem completion_admitted_correct (id : ExecutionId) (item : option Uuid) (w : world S) :
  (completion_admitted id item w).2 = w
  ∧ ((completion_admitted id item w).1 = Ok tt ↔
      ∃ i earlier e later, item = Some i
        ∧ view_log (store w) id = earlier ++ e :: later
        ∧ admits_item i e = true ∧ (∀ e', e' ∈ later → admits_item i e' = false)
        ∧ let node := default "" (EventKind.node_id (event_kind e)) in
          (count (ends_step node) (e :: later) < count (opens_step node) (e :: later))%nat).
Proof.
  unfold completion_admitted. destruct item as [i|].
  2:{ split; [done|]. split; [done|]. by intros (? & ? & ? & ? & ? & _). }
  rewrite (with_err_run _ _ _ _ _ _ (law_get_events id w)).
  split; [by case_match|]. transitivity (step_open (view_log (store w) id) i = true).
  { destruct (step_open _ i); done. }
  unfold step_open. pose proof (from_last_admission_spec i (view_log (store w) id)) as Hspec.
  destruct (from_last_admission i (view_log (store w) id)) as [[|e later]|]; [done| |].
  - destruct Hspec as (earlier & Heq & He & Hl). rewrite bool_decide_eq_true. split.
    + intros Hc. exists i, earlier, e, later. done.
    + intros (i' & earlier' & e' & later' & [= <-] & Heq' & He' & Hl' & Hc).
      rewrite Heq in Heq'.
      destruct (last_split_unique (admits_item i) _ _ _ _ _ _ Heq' He Hl He' Hl') as (_ & <- & <-).
      done.
  - split; [done|]. intros (i' & earlier' & e' & later' & [= <-] & Heq' & He' & _).
    rewrite (Hspec e') in He'; [done|]. rewrite Heq'. apply elem_of_app. right. left.
Qed.
End Effects.

(** ** Samples *)

Module AgentSample.
#[local] Existing Instances plain_uuid milli_chrono code_json plain_sha256.
#[local] Existing Instances Sample.order_exec Sample.order_item Sample.order_tenant
  Sample.order_pair.

(** A card of two steps and three tool calls, and what lies past it. *)
Definition card : AutonomyConstraints := {|
  max_iterations := Some 2; max_tool_calls := Some 3; ac_token_budget := None;
  ac_cost_budget_usd := None; ac_allowed_tools := []; ac_blocked_tools := [];
  allowed_delegations := []; ac_require_approval_for := []; time_budget_secs := None;
  max_consecutive_errors := None; on_limit_exceeded := Some EscalateToHuman |}.

Definition step_event (seq : Z) (item : Uuid) (s : option Z) : Event :=
  sample_event seq (EventKind.AgentStepAdmitted "pay" (Some item) ["ann"] 1 s).
Definition segments : list (list Event) := [[step_event 1 1 None]].
Definition earlier : Ledger := default Ledger_default (fold_logs Ledger_default segments).

Definition step_plan (esc : option Escalation) : Plan := {|
  pl_agents := [("ann", Some card)]; pl_step := {| step_tool_calls := 1 |};
  pl_earlier := earlier; pl_now := 0; pl_escalation := esc |}.
Definition escalation : Escalation := {|
  esc_agent := "ann"; esc_decision := LimitReached "max_iterations" (num 2) (num 2) |}.

Definition request : Event :=
  sample_event 2 (EventKind.ToolApprovalRequired "pay" "tool" "human"
    (obj [(ESCALATION_KEY, escalation_context escalation)])).
Definition decision : Event :=
  sample_event 3 (EventKind.ApprovalReceived "pay" "bob" Approved None None None None (Some 2)).
(** The second step is the card's last; the third runs on an approval. *)
Definition log : list Event := [step_event 1 2 None; request; decision; step_event 4 3 (Some 2)].

Lemma exceeds_witness :
  within card 2 (steps_named "ann" (concat segments)) (steps_named "ann") log
  ∧ steps_named "ann" (concat segments) + steps_named "ann" (free_steps log) = 2
  ∧ NoDup (approvals_used log) ∧ approvals_used log = [2].
Proof.
  destruct (agent_never_exceeds "ann" card segments earlier log) as (Hs & _ & Hd).
  - vm_compute. reflexivity.
  - repeat constructor; vm_compute; discriminate.
  - assert (∀ esc (c : option AutonomyConstraints), ("ann", c) ∈ pl_agents (step_plan esc) →
      c = Some card) as Hcard by (intros esc c Hc%list_elem_of_singleton; congruence).
    apply (log_step _ _ _ [step_event 1 2 None; request; decision] _
      (step_plan (Some escalation)) "pay" (Some 3%N) (Some 2));
      [reflexivity|reflexivity|apply NoDup_singleton|apply Hcard|vm_compute; discriminate
      |vm_compute; reflexivity|].
    apply (log_other _ _ _ [step_event 1 2 None; request]); [reflexivity|].
    apply (log_other _ _ _ [step_event 1 2 None]); [reflexivity|].
    apply (log_step _ _ _ [] _ (step_plan None) "pay" (Some 2%N) None);
      [reflexivity|reflexivity|apply NoDup_singleton|apply Hcard|vm_compute; discriminate
      |vm_compute; reflexivity|apply log_empty].
  - split_and!; [apply Hs; vm_compute; congruence|vm_compute; reflexivity|done
    |vm_compute; reflexivity].
Defined.

(** The same step without the approval, or on it a second time, is refused. *)
Example past_the_limit :
  still_allowed (step_plan None) "pay" None [step_event 1 2 None] = false
  ∧ still_allowed (step_plan None) "pay" (Some 2) log = false.
Proof. vm_compute. done. Qed.

(** The run of [Segment]'s samples. *)
Abbreviation started := SegmentSample.started (only parsing).
Abbreviation root := SegmentSample.root (only parsing).

Lemma plan_witness :
  let '(r, w') := plan root "a" [("ann", Some card)] 1 started in
  ∃ p, r = Ok p ∧ store w' = store started ∧ pl_agents p = [("ann", Some card)].
Proof.
  pose proof (plan_correct root "a" [("ann", Some card)] 1 started) as Hp. cbv zeta in Hp.
  assert (is_ok (plan root "a" [("ann", Some card)] 1 started).1 = true) as Hok
    by (vm_compute; reflexivity).
  destruct (plan root "a" [("ann", Some card)] 1 started) as [[p|e] w']; [|done].
  destruct Hp as (-> & Ha & _). exists p. done.
Defined.

Lemma admit_witness :
  (admit_step root "a" (Some 5%N) (step_plan None) started).1 = Ok GuardOutcome.Allow
  ∧ ∃ e, view_log (store (admit_step root "a" (Some 5%N) (step_plan None) started).2) root
      = view_log (store started) root ++ [e].
Proof.
  pose proof (admit_correct root "a" (Some 5%N) (step_plan None) started) as Ha.
  assert ((admit_step root "a" (Some 5%N) (step_plan None) started).1 = Ok GuardOutcome.Allow) as Hok
    by (vm_compute; reflexivity).
  destruct (admit_step root "a" (Some 5%N) (step_plan None) started) as [r w']. cbn [fst snd] in *. subst r.
  destruct Ha as (_ & _ & seq & e & _ & _ & _ & He). split; [done|]. by exists e.
Defined.

Lemma completion_witness :
  (completion_admitted root (Some 5%N) started).2 = started
  ∧ (completion_admitted root (Some 5%N) started).1 ≠ Ok tt.
Proof.
  destruct (completion_admitted_correct root (Some 5%N) started) as [Hw _]. split; [exact Hw|].
  vm_compute. discriminate.
Defined.
End AgentSample.
