(* ===== verification/Agents.v ===== *)
(** * Agents: cards, lifecycle and the in-memory registry ([agents/src/])

    [AutonomyConstraints] is in [Policy], with the check that reads it. The
    SQLite registry is not modelled. *)

From S2P Require Import Prelude.
From S2P Require Import Json.
From S2P Require Import RustStr.
From S2P Require Import Core.
From S2P Require Import Hashing.
From S2P Require Import Policy.

(** ** Cards ([card.rs]) *)

Module LatencyClass.
Inductive LatencyClass := Realtime | Fast | Medium | Slow.
End LatencyClass.
Abbreviation LatencyClass := LatencyClass.LatencyClass.

Module CostClass.
Inductive CostClass := Free | Low | Medium | High.
End CostClass.
Abbreviation CostClass := CostClass.CostClass.

Module AutonomyLevel.
Inductive AutonomyLevel := Deterministic | Guided | BoundedAutonomous | FullyAutonomous.
End AutonomyLevel.
Abbreviation AutonomyLevel := AutonomyLevel.AutonomyLevel.

Record Skill := {
  sk_name : string; sk_description : string; input_schema : string; output_schema : string;
}.

Record AgentCapabilities := {
  skills : list Skill; protocols : list string;
  tools_provided : list string; tools_consumed : list string;
}.

Module AuthSpec.
Inductive AuthSpec := BearerToken (scopes : list string) | ApiKey (header : string) | NoAuth.
End AuthSpec.
Abbreviation AuthSpec := AuthSpec.AuthSpec.

Record AgentCard := {
  card_id : string; uri : string; card_name : string; card_description : string;
  card_version : string; capabilities : AgentCapabilities; autonomy : AutonomyLevel;
  constraints : option AutonomyConstraints; auth : AuthSpec;
  latency_class : option LatencyClass; cost_class : option CostClass;
  reasoning_modes : list string; card_labels : gmap string string;
}.

(** ** Lifecycle ([lifecycle.rs]) *)

Module AgentStatus.
Inductive AgentStatus := Registered | Active | Paused | Deactivated | Archived.
#[global] Instance AgentStatus_eq_dec : EqDecision AgentStatus.
Proof. solve_decision. Defined.

Definition can_accept_tasks (self : AgentStatus) : bool := bool_decide (self = Active).

(** [{:?}]. *)
Definition debug (self : AgentStatus) : string :=
  match self with
  | Registered => "Registered" | Active => "Active" | Paused => "Paused"
  | Deactivated => "Deactivated" | Archived => "Archived"
  end.

Definition validate_transition (self next : AgentStatus) : result string unit :=
  let valid := match self, next with
    | Registered, Active | Active, Paused | Active, Deactivated | Paused, Active
    | Paused, Deactivated | Deactivated, Archived => true
    | _, _ => false
    end in
  if valid then Ok tt
  else Err ("invalid agent status transition: " +:+ debug self +:+ " → " +:+ debug next).
End AgentStatus.
Abbreviation AgentStatus := AgentStatus.AgentStatus.

(** ** The registry ([registry.rs], [memory_registry.rs]) *)

Abbreviation AgentId := Uuid (only parsing).

Record Agent := {
  ag_id : AgentId; card : AgentCard; ag_status : AgentStatus;
  registered_at : DateTime; ag_updated_at : DateTime; last_heartbeat : option DateTime;
}.

Record AgentFilter := {
  af_skill : option string; af_protocol : option string; af_status : option AgentStatus;
}.

(** [register_lock] makes [register] one step, as every operation is here. *)
Record InMemoryAgentRegistry := { agents : gmap AgentId Agent }.

(** [eq_ignore_ascii_case]. *)
Definition ascii_lower (b : N) : N := if ((65 <=? b) && (b <=? 90))%N then (b + 32)%N else b.
Definition eq_ignore_ascii_case (s t : string) : bool :=
  bool_decide (ascii_lower <$> bytes s = ascii_lower <$> bytes t).

(** [str::ends_with] and [trim_end_matches(c)]. *)
Definition ends_with (p s : string) : bool :=
  bool_decide (drop (length (bytes s) - length (bytes p)) (bytes s) = bytes p).
Fixpoint drop_all (c : N) (l : list N) : list N :=
  match l with b :: l' => if decide (b = c) then drop_all c l' else l | [] => [] end.
Definition trim_end_char (c : N) (s : string) : string :=
  of_bytes (reverse (drop_all c (reverse (bytes s)))).

Section Registry.
Context `{!UuidOps, !IterOrder AgentId}.

Abbreviation reg A := (eff InMemoryAgentRegistry string A).

(** The agents in the map's order of iteration. *)
Definition listed_agents (s : InMemoryAgentRegistry) : list Agent := (iter_map (agents s)).*2.

Definition has_uri (u : string) (a : Agent) : bool := bool_decide (uri (card a) = u).

Definition register (c : AgentCard) : reg AgentId :=
  gets (λ s, existsb (has_uri (uri c)) (listed_agents s)) ≫= λ taken : bool,
  if taken then raise ("an agent is already registered at uri " +:+ uri c)
  else
    id ← new_v4;
    now ← utc_now;
    let agent := {| ag_id := id; card := c; ag_status := AgentStatus.Registered;
                    registered_at := now; ag_updated_at := now; last_heartbeat := None |} in
    modify (λ s, {| agents := <[id := agent]> (agents s) |}) ≫= λ _, mret id.

Definition get_agent (id : AgentId) : reg (option Agent) := gets (λ s, agents s !! id).

Definition get_by_uri (u : string) : reg (option Agent) :=
  gets (λ s, snd <$> list_find (λ a, has_uri u a = true) (listed_agents s)).

Definition matches_filter (filter : AgentFilter) (a : Agent) : bool :=
  match af_status filter with Some st => bool_decide (ag_status a = st) | None => true end
  && match af_skill filter with
     | Some s => existsb (λ k, eq_ignore_ascii_case (sk_name k) s) (skills (capabilities (card a)))
     | None => true end
  && match af_protocol filter with
     | Some p => existsb (λ q, eq_ignore_ascii_case q p) (protocols (capabilities (card a)))
     | None => true end.

Definition find (filter : AgentFilter) : reg (list Agent) :=
  gets (λ s, base.filter (λ a, matches_filter filter a = true) (listed_agents s)).

Definition not_found (id : AgentId) : string := "agent not found: " +:+ uuid_hyphenated id.

Definition update_status (id : AgentId) (st : AgentStatus) : reg unit :=
  found ← get_agent id;
  match found with
  | None => raise (not_found id)
  | Some a =>
      now ← utc_now;
      modify (λ s, {| agents := <[id := {| ag_id := ag_id a; card := card a; ag_status := st;
        registered_at := registered_at a; ag_updated_at := now;
        last_heartbeat := last_heartbeat a |}]> (agents s) |})
  end.

Definition heartbeat (id : AgentId) : reg unit :=
  found ← get_agent id;
  match found with
  | None => raise (not_found id)
  | Some a =>
      now ← utc_now;
      modify (λ s, {| agents := <[id := {| ag_id := ag_id a; card := card a;
        ag_status := ag_status a; registered_at := registered_at a;
        ag_updated_at := ag_updated_at a; last_heartbeat := Some now |}]> (agents s) |})
  end.

Definition WELL_KNOWN : string := "/.well-known/agent.json".
Definition card_url (url : string) : string :=
  if ends_with WELL_KNOWN url then url else trim_end_char 47 url +:+ WELL_KNOWN.

(** The fetch and the parse of the response are the HTTP client's. *)
Definition discover_remote (fetch : string → result string AgentCard) (url : string) : reg Agent :=
  c ← of_result (fetch (card_url url));
  id ← register c;
  found ← get_agent id;
  of_result (ok_or "agent registered but not found" found).
End Registry.

(** ** Sequences of operations *)

Inductive AgentOp :=
| OpRegister (c : AgentCard)
| OpUpdateStatus (id : AgentId) (st : AgentStatus)
| OpHeartbeat (id : AgentId)
| OpDiscover (fetched : result string AgentCard) (url : string)
| OpRead
| OpClock (t : DateTime).

Section Ops.
Context `{!UuidOps, !IterOrder AgentId}.

Definition agent_op (op : AgentOp) (w : world InMemoryAgentRegistry) : world InMemoryAgentRegistry :=
  match op with
  | OpRegister c => (register c w).2
  | OpUpdateStatus id st => (update_status id st w).2
  | OpHeartbeat id => (heartbeat id w).2
  | OpDiscover r url => (discover_remote (λ _, r) url w).2
  | OpRead => w
  | OpClock t => World (store w) t (draws w)
  end.
Definition agent_ops (ops : list AgentOp) (w : world InMemoryAgentRegistry)
    : world InMemoryAgentRegistry := foldl (λ w op, agent_op op w) w ops.

Definition empty_registry : world InMemoryAgentRegistry := World {| agents := ∅ |} 0 0.
End Ops.

(** ** One card per URI *)

Section Uniqueness.
Context `{!UuidOps, !IterOrder AgentId}.
Context (uuid_v4_inj : ∀ m n, uuid_v4 m = uuid_v4 n → m = n).

(** Every agent sits under its own id, a drawn one, and no two share a URI. *)
Record reg_ok (w : world InMemoryAgentRegistry) : Prop := {
  own_id : ∀ id a, agents (store w) !! id = Some a → ag_id a = id;
  drawn_id : ∀ id a, agents (store w) !! id = Some a → ∃ n, (n < draws w)%N ∧ id = uuid_v4 n;
  one_per_uri : ∀ i j a b, agents (store w) !! i = Some a → agents (store w) !! j = Some b →
    uri (card a) = uri (card b) → i = j;
}.

(** Agents stay, with their ids and cards. *)
Definition kept (w w' : world InMemoryAgentRegistry) : Prop :=
  ∀ id a, agents (store w) !! id = Some a →
    ∃ a', agents (store w') !! id = Some a' ∧ ag_id a' = ag_id a ∧ card a' = card a.

Lemma listed_agents_elem s a : a ∈ listed_agents s ↔ ∃ id, agents s !! id = Some a.
Proof.
  unfold listed_agents. rewrite list_elem_of_fmap. split.
  - intros ([id b] & -> & Hin). exists id. by apply iter_map_elem in Hin.
  - intros [id Hin]. exists (id, a). split; [done|]. by apply iter_map_elem.
Qed.

Lemma kept_refl w w' : store w' = store w → kept w w'.
Proof. intros E id a Ha. rewrite E. eauto. Qed.
Lemma kept_trans w1 w2 w3 : kept w1 w2 → kept w2 w3 → kept w1 w3.
Proof.
  intros H12 H23 id a (a' & Ha' & Hi & Hc)%H12.
  destruct (H23 id a' Ha') as (a'' & Ha'' & Hi' & Hc'). exists a''. split; [done|]. by rewrite Hi', Hc'.
Qed.

(** The two ways an operation writes: an agent again, or a new one. *)
Lemma reg_rewrite w id a a' c d :
  reg_ok w → agents (store w) !! id = Some a → ag_id a' = ag_id a → card a' = card a →
  (draws w ≤ d)%N →
  let w' := World {| agents := <[id := a']> (agents (store w)) |} c d in reg_ok w' ∧ kept w w'.
Proof.
  intros [Hown Hdrawn Huri] Ha Hi Hc Hd. cbn zeta.
  assert (∀ j b, <[id := a']> (agents (store w)) !! j = Some b →
    ∃ b', agents (store w) !! j = Some b' ∧ ag_id b = ag_id b' ∧ card b = card b') as Hback.
  { intros j b [[<- <-]|[Hne Hb]]%lookup_insert_Some; eauto. }
  split.
  - constructor; simpl.
    + intros j b (b' & Hb & -> & _)%Hback. by apply Hown.
    + intros j b (b' & Hb & _ & _)%Hback. destruct (Hdrawn j b' Hb) as (n & Hn & ->).
      exists n. split; [lia|done].
    + intros i j x y (x' & Hx & _ & ->)%Hback (y' & Hy & _ & ->)%Hback. by apply Huri.
  - intros j b Hb. simpl. destruct (decide (j = id)) as [->|Hne].
    + rewrite lookup_insert_eq. simplify_eq. eauto.
    + rewrite lookup_insert_ne by done. eauto.
Qed.

Lemma reg_add w a c :
  reg_ok w → ag_id a = uuid_v4 (draws w) →
  (∀ i b, agents (store w) !! i = Some b → uri (card b) ≠ uri (card a)) →
  let w' := World {| agents := <[uuid_v4 (draws w) := a]> (agents (store w)) |} c (N.succ (draws w)) in
  reg_ok w' ∧ kept w w'.
Proof.
  intros [Hown Hdrawn Huri] Hi Hnew. cbn zeta.
  assert (∀ j b, agents (store w) !! j = Some b → uuid_v4 (draws w) ≠ j) as Hfresh.
  { intros j b Hb E. destruct (Hdrawn j b Hb) as (n & Hn & Ej). rewrite <- E in Ej.
    apply uuid_v4_inj in Ej. lia. }
  split.
  - constructor; simpl.
    + intros j b [[<- <-]|[_ Hb]]%lookup_insert_Some; [done|by apply Hown].
    + intros j b [[<- <-]|[_ Hb]]%lookup_insert_Some; [exists (draws w); split; [lia|done]|].
      destruct (Hdrawn j b Hb) as (n & Hn & ->). exists n. split; [lia|done].
    + intros i j x y [[<- <-]|[_ Hx]]%lookup_insert_Some [[<- <-]|[_ Hy]]%lookup_insert_Some E;
        [done| |  |by eapply Huri].
      * by destruct (Hnew j y Hy).
      * by destruct (Hnew i x Hx).
  - intros j b Hb. simpl. rewrite lookup_insert_ne by (by eapply Hfresh). eauto.
Qed.

(** What [register] does, on each branch. *)
Lemma register_run c w :
  register c w = if existsb (has_uri (uri c)) (listed_agents (store w))
    then (Err ("an agent is already registered at uri " +:+ uri c), w)
    else (Ok (uuid_v4 (draws w)), World {| agents := <[uuid_v4 (draws w) :=
      {| ag_id := uuid_v4 (draws w); card := c; ag_status := AgentStatus.Registered;
         registered_at := clock w; ag_updated_at := clock w; last_heartbeat := None |}]>
      (agents (store w)) |} (clock w) (N.succ (draws w))).
Proof. unfold register. rewrite bind_gets. by destruct (existsb _ _). Qed.

Lemma uri_taken u s :
  existsb (has_uri u) (listed_agents s) = true ↔ ∃ id a, agents s !! id = Some a ∧ uri (card a) = u.
Proof.
  rewrite existsb_exists. split.
  - intros (a & [id Ha]%list_elem_of_In%listed_agents_elem & Hu%bool_decide_eq_true). eauto.
  - intros (id & a & Ha & Hu). exists a. rewrite <- list_elem_of_In, listed_agents_elem.
    split; [eauto|]. by apply bool_decide_eq_true.
Qed.

Lemma register_ok c w : reg_ok w → reg_ok (register c w).2 ∧ kept w (register c w).2.
Proof.
  intros Hw. rewrite register_run. destruct (existsb _ _) eqn:Hex; [split; [done|by apply kept_refl]|].
  apply reg_add; [done..|]. intros i b Hb Hu. apply not_true_iff_false in Hex. apply Hex, uri_taken.
  eauto.
Qed.

Lemma agent_op_ok op w : reg_ok w → reg_ok (agent_op op w) ∧ kept w (agent_op op w).
Proof.
  intros Hw. destruct op as [c|id st|id|[c|e] url| |t]; simpl.
  - by apply register_ok.
  - unfold update_status, get_agent. rewrite bind_gets. destruct (agents (store w) !! id) as [a|] eqn:Ha;
      [|split; [done|by apply kept_refl]].
    rewrite bind_now. by eapply reg_rewrite.
  - unfold heartbeat, get_agent. rewrite bind_gets. destruct (agents (store w) !! id) as [a|] eqn:Ha;
      [|split; [done|by apply kept_refl]].
    rewrite bind_now. by eapply reg_rewrite.
  - replace ((discover_remote (λ _, Ok c) url w).2) with (register c w).2; [by apply register_ok|].
    unfold discover_remote, mbind, eff_bind, of_result. simpl.
    destruct (register c w) as [[id|e] w']; [|done]. by unfold get_agent, gets.
  - split; [done|by apply kept_refl].
  - split; [done|by apply kept_refl].
  - split; [|by apply kept_refl]. by destruct Hw.
Qed.

Lemma agent_ops_ok ops w : reg_ok w → reg_ok (agent_ops ops w) ∧ kept w (agent_ops ops w).
Proof.
  revert w. induction ops as [|op ops IH]; intros w Hw; [split; [done|by apply kept_refl]|].
  destruct (agent_op_ok op w Hw) as [Hw1 Hk1]. destruct (IH _ Hw1) as [Hw2 Hk2].
  split; [done|by eapply kept_trans].
Qed.

Lemma get_by_uri_spec u w a : reg_ok w →
  (get_by_uri u w).1 = Ok (Some a) ↔ ∃ id, agents (store w) !! id = Some a ∧ uri (card a) = u.
Proof.
  intros Hw. unfold get_by_uri, gets. cbn [fst]. split.
  - destruct (list_find _ _) as [[i b]|] eqn:Hf; [|done]. simpl. intros [= ->].
    apply list_find_Some in Hf as (Hl & Hu%bool_decide_eq_true & _).
    apply list_elem_of_lookup_2, listed_agents_elem in Hl as [id Ha]. eauto.
  - intros (id & Ha & Hu).
    destruct (list_find_elem_of (λ a, has_uri u a = true) (listed_agents (store w)) a)
      as [[i b] Hf]; [apply listed_agents_elem; eauto|by apply bool_decide_eq_true|].
    rewrite Hf. simpl. apply list_find_Some in Hf as (Hl & Hub%bool_decide_eq_true & _).
    apply list_elem_of_lookup_2, listed_agents_elem in Hl as [id' Hb].
    assert (id' = id) as -> by (eapply (one_per_uri w Hw); [done..|congruence]).
    congruence.
Qed.

(** However calls interleave, a URI names one agent: the one [get_by_uri]
    answers keeps its id and its card for good, so a card that restricts a node
    cannot be shadowed by a later registration. A registration is refused
    exactly when its URI is taken, and changes nothing then. *)
Theorem registered_card_stays (ops ops' : list AgentOp) (u : string) (c : AgentCard) :
  let w := agent_ops ops empty_registry in
  let w' := agent_ops ops' w in
  (∀ a, (get_by_uri u w).1 = Ok (Some a) →
     ∃ a', (get_by_uri u w').1 = Ok (Some a') ∧ ag_id a' = ag_id a ∧ card a' = card a)
  ∧ (is_ok (register c w).1 = false ↔ ∃ a, (get_by_uri (uri c) w).1 = Ok (Some a))
  ∧ (is_ok (register c w).1 = false → (register c w).2 = w)
  ∧ (∀ id, (register c w).1 = Ok id →
     ∃ a, (get_by_uri (uri c) (register c w).2).1 = Ok (Some a) ∧ ag_id a = id ∧ card a = c
       ∧ ag_status a = AgentStatus.Registered).
Proof.
  intros w w'. assert (reg_ok w) as Hw by (apply agent_ops_ok; constructor; by intros).
  destruct (agent_ops_ok ops' w Hw) as [Hw' Hk]. split_and!.
  - intros a (id & Ha & Hu)%(get_by_uri_spec u w a Hw).
    destruct (Hk id a Ha) as (a' & Ha' & Hi & Hc). exists a'. split; [|done].
    apply get_by_uri_spec; [done|]. exists id. rewrite Hc. done.
  - rewrite register_run. destruct (existsb _ _) eqn:Hex; simpl.
    + split; [|done]. intros _. apply uri_taken in Hex as (id & a & Ha & Hu). exists a.
      apply get_by_uri_spec; eauto.
    + split; [done|]. intros [a (id & Ha & Hu)%(get_by_uri_spec _ w a Hw)].
      apply not_true_iff_false in Hex. destruct Hex. apply uri_taken. eauto.
  - rewrite register_run. by destruct (existsb _ _).
  - intros id. destruct (register_ok c w Hw) as [Hr _]. revert Hr. rewrite register_run.
    destruct (existsb _ _); [done|]. intros Hr [= <-]. eexists. split.
    + apply get_by_uri_spec; [exact Hr|]. exists (uuid_v4 (draws w)). simpl.
      split; [apply lookup_insert_eq|done].
    + done.
Qed.

(** Nothing keeps an agent's status to [validate_transition]'s transitions: an
    update puts any known agent in any status, an archived one back to work. *)
Theorem update_status_unchecked (id : AgentId) (st : AgentStatus) (w : world InMemoryAgentRegistry)
    (a : Agent) (Ha : agents (store w) !! id = Some a) :
  (update_status id st w).1 = Ok tt
  ∧ ag_status <$> agents (store (update_status id st w).2) !! id = Some st
  ∧ is_ok (AgentStatus.validate_transition AgentStatus.Archived AgentStatus.Active) = false.
Proof.
  unfold update_status, get_agent. rewrite bind_gets, Ha, bind_now. simpl.
  by rewrite lookup_insert_eq.
Qed.
End Uniqueness.

Module AgentsSample.
#[local] Existing Instance plain_uuid.
#[local] Instance order_agent : IterOrder AgentId := list_order AgentId.

Definition card_of (u : string) : AgentCard := {|
  card_id := "c"; uri := u; card_name := "n"; card_description := ""; card_version := "1";
  capabilities := {| skills := []; protocols := []; tools_provided := []; tools_consumed := [] |};
  autonomy := AutonomyLevel.Guided; constraints := None; auth := AuthSpec.NoAuth;
  latency_class := None; cost_class := None; reasoning_modes := []; card_labels := ∅ |}.

Example card_urls :
  card_url "https://a.b//" = "https://a.b/.well-known/agent.json"
  ∧ card_url "https://a.b/.well-known/agent.json" = "https://a.b/.well-known/agent.json"
  ∧ eq_ignore_ascii_case "Search" "sEARCH" = true.
Proof. vm_compute. done. Qed.

Lemma card_stays_witness :
  let w := agent_ops [OpRegister (card_of "u")] empty_registry in
  let w' := agent_ops [OpRegister (card_of "u"); OpUpdateStatus (uuid_v4 0) AgentStatus.Active] w in
  is_ok (register (card_of "u") w).1 = false ∧ is_Some (agents (store w') !! uuid_v4 0).
Proof.
  intros w w'. assert (∀ m n, uuid_v4 m = uuid_v4 n → m = n) as Hinj by (intros m n E; exact E).
  destruct (registered_card_stays Hinj
    [OpRegister (card_of "u")] [OpRegister (card_of "u"); OpUpdateStatus (uuid_v4 0) AgentStatus.Active]
    "u" (card_of "u")) as (_ & [_ Hr] & _).
  split; [|vm_compute; eauto]. apply Hr. eexists. vm_compute. reflexivity.
Defined.

Lemma unchecked_witness :
  let w := agent_ops [OpRegister (card_of "u"); OpUpdateStatus (uuid_v4 0) AgentStatus.Archived]
    empty_registry in
  (update_status (uuid_v4 0) AgentStatus.Active w).1 = Ok tt.
Proof.
  intros w. eapply (update_status_unchecked (uuid_v4 0) AgentStatus.Active w).
  vm_compute. reflexivity.
Defined.
End AgentsSample.
