(* ===== verification/DispatchGuard.v ===== *)
(** * The dispatch guard ([workers/src/dispatch_guard.rs]), tenant policies
    ([state/src/tenant.rs]) and what both guards share of
    [workers/src/node_guard.rs]

    Whether an agent's tool-dispatch node may run its batch of calls: the policy
    chain on every call, and the approval bound to exactly these calls. *)

From S2P Require Import Prelude.
From S2P Require Import Json.
From S2P Require Import RustStr.
From S2P Require Import Core.
From S2P Require Import Condition.
From S2P Require Import Ir.
From S2P Require Import Event.
From S2P Require Import Materializer.
From S2P Require Import Budget.
From S2P Require Import Hashing.
From S2P Require Import Approvals.
From S2P Require Import Backend.
From S2P Require Import Journal.
From S2P Require Import Memory.
From S2P Require Import Policy.
From S2P Require Import ToolDispatch.
From S2P Require Import Segment.
From S2P Require Import AgentLimits.

(** The serializers serde derives, and [{:?}] on a string. *)
Class GuardSerde := {
  policy_from_value : Value → result string PolicySetIr;
  node_def_to_value : NodeDef → result string Value;
  node_kind_to_value : NodeKind → Value;
  policy_to_value : PolicySetIr → Value;
  str_debug : string → string;
}.

(** An audit sealer, as [seal_appended] takes it. *)
Abbreviation Sealer := (option (Event → string → result string unit)) (only parsing).

(** ** Tenant policies ([tenant.rs]) *)

Definition TENANT_POLICY_FIELDS : list string :=
  ["blocked_tools"; "require_approval_for"; "model_allowlist"; "approval_timeout_secs";
   "escalate_after_secs"].

Section Tenant.
Context `{!GuardSerde}.

Definition parse_tenant_policy (value : Value) : result string (option PolicySetIr) :=
  if is_null value then Ok None
  else
    obj ← ok_or "a tenant policy must be a JSON object" (as_object value);
    match List.find (λ k, negb (bool_decide (k ∈ TENANT_POLICY_FIELDS))) obj.*1 with
    | Some field => Err ("unknown tenant policy field " +:+ str_debug field
        +:+ "; the fields are " +:+ str_join ", " TENANT_POLICY_FIELDS)
    | None =>
        policy ← map_err (λ e, "tenant policy does not parse: " +:+ e) (policy_from_value value);
        _ ← map_err (λ e, "tenant policy has an invalid approval deadline: " +:+ e)
              (validate_approval_deadline policy);
        Ok (Some policy)
    end.

(** [Tenant::policy_set]. *)
Definition policy_set (self : Tenant) : result string (option PolicySetIr) :=
  match tn_policy self with
  | None => Ok None
  | Some v => parse_tenant_policy v
  end.
End Tenant.

(** ** Pure parts *)

Definition QUOTE : string := String (Ascii.ascii_of_nat 34) "".

Module GuardMode.
Inductive GuardMode := Fire | Complete.
#[global] Instance GuardMode_eq_dec : EqDecision GuardMode.
Proof. solve_decision. Defined.
End GuardMode.
Abbreviation GuardMode := GuardMode.GuardMode.

Definition UNREADABLE : string := "agent dispatch tool calls unreadable".
Definition APPROVAL_MISMATCH : string := "approved tool calls do not match pending calls".

Definition is_agent_tool_dispatch (kind : NodeKind) : bool :=
  match kind with
  | NodeKind.PythonFn module function _ agent_tool_dispatch =>
      agent_tool_dispatch || is_adk_dispatch_coordinates module function
  | NodeKind.JavaFn _ _ _ agent_tool_dispatch => agent_tool_dispatch
  | _ => false
  end.

Definition payload_input (payload : Value) : Value := default Null (get "input" payload).

Definition unreadable_rule (cause : UnreadableCalls) : string :=
  UNREADABLE +:+ ": " +:+
  match cause with
  | NotAnObject => "input is not an object"
  | NotAList => "the call list is not an array"
  | UnnamedCall => "a call has no readable name"
  | NameTooLong => "a call name exceeds the length bound"
  | TooManyCalls => "the call list exceeds the batch bound"
  | ToolsMapNotAnObject => "the tools map is not an object"
  | UnresolvableHandler => "a called tool's tools entry is not a module:function reference"
  end.

(** [sets]: tenant, workflow, node, where each is there. *)
Definition policy_chain (tenant workflow node : option PolicySetIr) : list PolicySetIr :=
  option_list tenant ++ option_list workflow ++ option_list node.

Definition decides (ctx : EvaluationContext) (policy : option PolicySetIr) : bool :=
  match policy with
  | Some p => match evaluate ctx [p] with Allow => false | _ => true end
  | None => false
  end.

Definition identify_policy_scope (ctx : EvaluationContext)
    (tenant_policy workflow_policy node_policy : option PolicySetIr) : string :=
  if decides ctx node_policy then "node"
  else if decides ctx workflow_policy then "workflow"
  else if decides ctx tenant_policy then "tenant"
  else "unknown".

(** The calls a card's gate adds to a batch's decision. *)
Definition with_card_gates (decision : DispatchDecision) (card_gated : list string)
    : DispatchDecision :=
  match decision with
  | DispatchAllow =>
      match card_gated with [] => DispatchAllow | _ => DispatchRequireApproval "human" card_gated end
  | DispatchRequireApproval approver gated =>
      DispatchRequireApproval approver
        (foldl (λ gated name, if decide (name ∈ gated) then gated else gated ++ [name])
           gated card_gated)
  | other => other
  end.

(** What an approval of a batch binds of each call. *)
Definition call_json (c : PendingToolCall) : Value :=
  match pc_handler c with
  | Some h => obj [("name", Str (pc_name c)); ("arguments", pc_arguments c); ("handler", Str h)]
  | None => obj [("name", Str (pc_name c)); ("arguments", pc_arguments c)]
  end.
Definition calls_json (calls : list PendingToolCall) : Value := Array (call_json <$> calls).

(** [latest_request_calls_hash]. *)
Definition requests_node (node_id : string) (e : Event) : bool :=
  match event_kind e with
  | EventKind.ToolApprovalRequired n _ _ _ => bool_decide (n = node_id)
  | _ => false
  end.
Definition latest_request_calls_hash (events : list Event) (node_id : string) : option string :=
  e ← List.find (requests_node node_id) (rev events);
  match event_kind e with
  | EventKind.ToolApprovalRequired _ _ _ context => h ← get CALLS_HASH_KEY context; as_str h
  | _ => None
  end.

Section Definitions.
Context `{!JsonText, !Sha256Ops, !GuardSerde}.

(** [node_definition] ([node_guard.rs]). *)
Definition node_definition (node_def : NodeDef) : result string string :=
  map_err (λ e, "node definition unreadable; refusing to run unapproved: " +:+ e)
    (definition_hash <$> node_def_to_value node_def).

(** [basis_preview] ([node_guard.rs]). *)
Definition basis_preview (payload : Value) (step : Z) (node_def : NodeDef) : Value :=
  let payload_bytes := str_len (json_to_string payload) in
  let truncated := bool_decide (ACTION_BASIS_STATE_CAP < payload_bytes) in
  obj [("payload", if truncated then Null else payload);
       ("payload_truncated", Bool truncated);
       ("payload_bytes", num payload_bytes);
       ("step", num step);
       ("node", obj [("id", Str (Ir.id node_def)); ("kind", node_kind_to_value (Ir.kind node_def));
                     ("description", opt_val Str (nd_description node_def));
                     ("policy", opt_val policy_to_value (nd_policy node_def))])].
End Definitions.

(** ** Effects both guards share *)

Section Shared.
Context `{!UuidOps, !ChronoOps, !JsonText, !Sha256Ops, !GuardSerde} {S : Type}
  `{HB : StateBackend S}.

(** An early [return outcome] is the error. *)
Abbreviation G A := (eff S GuardOutcome A).

(** A guard's outcome, early or at its end. *)
Definition settle {E} (m : G GuardOutcome) : eff S E GuardOutcome := λ w,
  match m w with (Ok o, w') | (Err o, w') => (Ok o, w') end.

(** Best effort. *)
Definition record_policy_violation {E} (execution_id : ExecutionId) (node_id rule policy_scope : string)
    : eff S E unit :=
  latest ← as_result (latest_sequence execution_id);
  match latest with
  | Ok latest =>
      event ← Event_new execution_id (latest + 1)
        (EventKind.PolicyViolation node_id rule "blocked" policy_scope);
      as_result (append_event event) ≫= λ _, mret tt
  | Err _ => mret tt
  end.

(** The record a refusal leaves, on a firing check. *)
Definition record_if_firing {E} (mode : GuardMode) (execution_id : ExecutionId)
    (node_id rule policy_scope : string) : eff S E unit :=
  if decide (mode = GuardMode.Fire)
  then record_policy_violation execution_id node_id rule policy_scope else mret tt.

Definition unparseable_tenant_policy (mode : GuardMode) (execution_id : ExecutionId)
    (node_id tenant_id : string) (parsed : option (result string (option PolicySetIr)))
    : G (option PolicySetIr) :=
  match parsed with
  | None => mret None
  | Some (Ok set) => mret set
  | Some (Err cause) =>
      let reason := "tenant policy for tenant " +:+ tenant_id +:+ " cannot be read (" +:+ cause
        +:+ "); every node is refused until it is fixed with PUT /tenants/" +:+ tenant_id
        +:+ " (send a corrected policy, or {" +:+ QUOTE +:+ "policy" +:+ QUOTE
        +:+ ": {}} to clear it; a null policy keeps the stored one)" in
      record_if_firing mode execution_id node_id reason "tenant" ≫= λ _,
      raise (GuardOutcome.Blocked reason)
  end.

(** The tenant's layer of the chain, as both guards read it. *)
Definition tenant_policy_set (mode : GuardMode) (execution_id : ExecutionId)
    (node_id tenant_id : string) : G (option PolicySetIr) :=
  tenant ← with_err (λ e, GuardOutcome.Unavailable
    ("tenant policy unavailable; refusing to run unpoliced: " +:+ StateBackendError_display e))
    (get_tenant (mkTenantId tenant_id));
  unparseable_tenant_policy mode execution_id node_id tenant_id (policy_set <$> tenant).

(** [record_request] ([node_guard.rs]): append, then seal. *)
Definition record_request (sealer : Sealer) (request : Event) (tenant_id : string)
    : eff S string unit :=
  appended ← with_err (λ e, "approval required but could not be recorded: "
    +:+ StateBackendError_display e) (append_event request);
  with_err StateBackendError_display (seal_appended sealer request appended tenant_id).

(** [deadline_or_block] ([node_guard.rs]). *)
Definition deadline_or_block (execution_id : ExecutionId) (node_id : string)
    (sets : list PolicySetIr) : G (option ApprovalDeadline) :=
  match resolve sets with
  | Ok r => mret (deadline r)
  | Err cause =>
      let reason := "approval deadline policy is invalid (" +:+ cause
        +:+ "); the node is refused until the policy is fixed" in
      record_policy_violation execution_id node_id reason "unknown" ≫= λ _,
      raise (GuardOutcome.Blocked reason)
  end.

(** Append a request with its deadline stamped into its context. *)
Definition raise_request (execution_id : ExecutionId) (node_id : string) (tenant_id : string)
    (sealer : Sealer) (tool_name approver : string) (context : Map)
    (deadline : option ApprovalDeadline) : G unit :=
  now ← utc_now;
  context ← of_result match deadline with
    | Some d => map_err (λ e, GuardOutcome.Unavailable
        ("approval required but its deadline could not be set: " +:+ e))
        (stamp_deadline context d now)
    | None => Ok context
    end;
  request ← Event_new execution_id 0
    (EventKind.ToolApprovalRequired node_id tool_name approver (Object context));
  with_err GuardOutcome.Unavailable (record_request sealer request tenant_id).

(** ** The dispatch guard *)

(** Everything a call of the guard is given. *)
Record DispatchArgs := {
  dg_mode : GuardMode;
  dg_execution_id : ExecutionId;
  dg_node_id : string;
  dg_tenant_id : string;
  dg_workflow_policy : option PolicySetIr;
  dg_node_def : NodeDef;
  dg_payload_input : Value;
  dg_node_approved : bool;
  dg_sealer : Sealer;
  dg_card_gated : list string;
}.

(** The scope of a refusal of [tool]. *)
Definition dispatch_scope (args : DispatchArgs) (tenant : option PolicySetIr) (tool : string)
    : string :=
  identify_policy_scope (tool_ctx (dg_node_id args) tool) tenant (dg_workflow_policy args)
    (nd_policy (dg_node_def args)).

(** The [RequireApproval] arm: one read of the log decides. *)
Definition dispatch_approval (args : DispatchArgs) (tenant : option PolicySetIr)
    (sets : list PolicySetIr) (calls : list PendingToolCall) (approver : string)
    (gated : list string) : G GuardOutcome :=
  let eid := dg_execution_id args in
  let node_id := dg_node_id args in
  let current_hash := content_hash (calls_json calls) in
  events ← with_err (λ e, GuardOutcome.Unavailable
    ("approval state unavailable; refusing to run unapproved: " +:+ StateBackendError_display e))
    (get_events eid);
  let status := node_approval_status events node_id in
  match status with
  | Indeterminate => raise (GuardOutcome.Unavailable UNREADABLE_LOG_REASON)
  | Pending _ | StatusRejected _ _ _ => mret (GuardOutcome.Held gated)
  | _ =>
      let approved := match status with StatusApproved _ _ _ => true | _ => false end in
      if approved && negb (bool_decide (latest_request_calls_hash events node_id = Some current_hash))
      then
        let policy_scope := match gated with
          | tool :: _ => dispatch_scope args tenant tool
          | [] => "unknown" end in
        record_if_firing (dg_mode args) eid node_id APPROVAL_MISMATCH policy_scope ≫= λ _,
        raise (GuardOutcome.Blocked APPROVAL_MISMATCH)
      else
        definition ← of_result (map_err GuardOutcome.Unavailable
          (node_definition (dg_node_def args)));
        basis ← with_err (λ e, GuardOutcome.Unavailable
          ("approval binding unavailable; refusing to run unapproved: "
           +:+ StateBackendError_display e))
          (action_basis eid node_id definition (obj [("calls", calls_json calls)]));
        let current_digest := ab_digest basis node_id in
        if approval_covers status current_digest then mret GuardOutcome.Allow
        else if negb (bool_decide (dg_mode args = GuardMode.Fire)) then mret (GuardOutcome.Held gated)
        else
          deadline ← deadline_or_block eid node_id sets;
          let context := map_of
            [("node_id", Str node_id); ("gated_tools", Array (Str <$> gated));
             ("calls", calls_json calls); (CALLS_HASH_KEY, Str current_hash);
             (ACTION_DIGEST_KEY, Str current_digest); (ACTION_DEFINITION_KEY, Str definition);
             (ACTION_STEP_KEY, num (ab_step basis));
             (ACTION_BASIS_KEY, basis_preview (ab_payload basis) (ab_step basis) (dg_node_def args))]
            in
          raise_request eid node_id (dg_tenant_id args) (dg_sealer args) (str_join ", " gated)
            approver context deadline ≫= λ _,
          mret (GuardOutcome.Held gated)
  end.

(** The decision on the calls, once they are read. *)
Definition decide_calls (args : DispatchArgs) (tenant : option PolicySetIr)
    (sets : list PolicySetIr) (calls : list PendingToolCall) : G GuardOutcome :=
  match with_card_gates (evaluate_dispatch (dg_node_id args) calls sets) (dg_card_gated args) with
  | DispatchAllow => mret GuardOutcome.Allow
  | DispatchBlock tool reason =>
      record_if_firing (dg_mode args) (dg_execution_id args) (dg_node_id args) reason
        (dispatch_scope args tenant tool) ≫= λ _, raise (GuardOutcome.Blocked reason)
  | DispatchRequireApproval approver gated =>
      if dg_node_approved args then mret GuardOutcome.Allow
      else dispatch_approval args tenant sets calls approver gated
  end.

(** [guard_dispatch_in]. *)
Definition guard_dispatch_in (args : DispatchArgs) : G GuardOutcome :=
  let eid := dg_execution_id args in
  let node_id := dg_node_id args in
  tenant ← tenant_policy_set (dg_mode args) eid node_id (dg_tenant_id args);
  let sets := policy_chain tenant (dg_workflow_policy args) (nd_policy (dg_node_def args)) in
  if bool_decide (sets = []) && bool_decide (dg_card_gated args = []) then mret GuardOutcome.Allow
  else match read_pending_tool_calls (dg_payload_input args) with
  | Err cause =>
      record_if_firing (dg_mode args) eid node_id (unreadable_rule cause) "unknown" ≫= λ _,
      raise (GuardOutcome.Blocked (unreadable_rule cause))
  | Ok calls => decide_calls args tenant sets calls
  end.

(** [guard_dispatch]: the transports' entry, firing, with no card gates. *)
Definition guard_dispatch (execution_id : ExecutionId) (node_id tenant_id : string)
    (ir : WorkflowIr) (node_def : NodeDef) (payload_input : Value) : G GuardOutcome :=
  guard_dispatch_in {|
    dg_mode := GuardMode.Fire; dg_execution_id := execution_id; dg_node_id := node_id;
    dg_tenant_id := tenant_id; dg_workflow_policy := policy ir; dg_node_def := node_def;
    dg_payload_input := payload_input; dg_node_approved := false; dg_sealer := None;
    dg_card_gated := [] |}.
End Shared.
