(* ===== verification/NodeGuard.v ===== *)
(** * The node guard ([workers/src/node_guard.rs])

    Whether a work item may fire, or its result be recorded: the agent's card,
    its autonomy limits, the policy chain, the approval bound to the action and,
    for a dispatch node, the guard on its calls. *)

From S2P Require Import Prelude.
From S2P Require Import Json.
From S2P Require Import RustStr.
From S2P Require Import Core.
From S2P Require Import Condition.
From S2P Require Import Ir.
From S2P Require Import Event.
From S2P Require Import Materializer.
From S2P Require Import Budget.
From S2P Require Import Hashing.
From S2P Require Import Approvals.
From S2P Require Import Backend.
From S2P Require Import Journal.
From S2P Require Import Memory.
From S2P Require Import Policy.
From S2P Require Import ToolDispatch.
From S2P Require Import Segment.
From S2P Require Import AgentLimits.
From S2P Require Import Agents.
From S2P Require Import DispatchGuard.

(** ** Who a node acts for, and whom it delegates to *)

(** The registry as the guard reads it: [get_by_uri]. *)
Record AgentScope := {
  workflow_agent : option string;
  scope_remote_agents : option (gmap string RemoteAgentConfig);
  registry : option (string → result string (option Agent));
}.

Definition AGENT_SCOPE : string := "agent".
Definition ALLOWED_TOOLS_RULE : string := "agent allowed_tools".
Definition BLOCKED_TOOLS_RULE : string := "agent blocked_tools".
Definition ALLOWED_DELEGATIONS_RULE : string := "agent allowed_delegations".

Inductive Delegation :=
| DelegateTo (target : string)
| DelegateRunTime
| DelegateUnresolved (name : string).

Definition delegation_target (kind : NodeKind) (remote_agents : option (gmap string RemoteAgentConfig))
    : option Delegation :=
  match kind with
  | NodeKind.Agent agent_ref _ _ => Some (DelegateTo agent_ref)
  | NodeKind.AgentTool (Explicit uri) _ _ _ _ _ => Some (DelegateTo uri)
  | NodeKind.A2aTask remote_agent _ _ _ _ _ _ =>
      Some match m ← remote_agents; m !! remote_agent with
           | Some config => DelegateTo (remote_url config)
           | None => DelegateUnresolved remote_agent
           end
  | NodeKind.AgentTool Auto _ _ _ _ _ | NodeKind.Coordinator _ _ _ _ _ _ _ _ _ _
  | NodeKind.AgentDiscovery _ _ _ => Some DelegateRunTime
  | _ => None
  end.

Record CardGate := {
  gate_node : option string;
  gate_calls : list string;
  gate_agents : Agents;
}.
Definition CardGate_default : CardGate := {| gate_node := None; gate_calls := []; gate_agents := [] |}.

(** [refs]: the workflow's agent and the node's own, once each. *)
Definition agent_refs (workflow_agent node_agent : option string) : list string :=
  foldl (λ refs r, if decide (r ∈ refs) then refs else refs ++ [r]) []
    (option_list workflow_agent ++ option_list node_agent).

(** [calls_only]: the ADK dispatcher itself, whose own name is no tool use. *)
Definition calls_only (kind : NodeKind) : bool :=
  match kind with
  | NodeKind.PythonFn module function _ _ =>
      is_agent_tool_dispatch kind && is_adk_dispatch_coordinates module function
  | _ => false
  end.

Definition step_tool_calls (node_def : NodeDef) (payload : Value) : result string Z :=
  let is_dispatch := is_agent_tool_dispatch (kind node_def) in
  let ctx := from_node_kind (Ir.id node_def) (kind node_def) in
  let own_call := negb (calls_only (kind node_def))
    && (bool_decide (is_Some (tool_name ctx))
        || bool_decide (node_kind_tag ctx ∈ RUN_TIME_TARGET_TAGS)) in
  batch ← (if is_dispatch
    then map_err unreadable_rule
           ((λ c, Z.of_nat (length c)) <$> read_pending_tool_calls (payload_input payload))
    else Ok 0);
  Ok (u32_sat_add (Z.min u32_max batch) (if own_call then 1 else 0)).

(** The agent an [agent] node calls, with its constraints. *)
Definition callee (registry : option (string → result string (option Agent))) (kind : NodeKind)
    : result GuardOutcome (option (string * option AutonomyConstraints)) :=
  match kind, registry with
  | NodeKind.Agent agent_ref _ _, Some get_by_uri =>
      match get_by_uri agent_ref with
      | Ok (Some agent) => Ok (Some (agent_ref, constraints (card agent)))
      | Ok None => Ok None
      | Err e => Err (GuardOutcome.Unavailable
          ("agent registry unavailable; refusing to run without checking the autonomy limits of agent '"
           +:+ agent_ref +:+ "': " +:+ e))
      end
  | _, _ => Ok None
  end.

(** ** What one card says of a node *)

Section Card.
Context (ctx : EvaluationContext) (agent_ref : string).

(** A refusal's rule. *)
Definition not_allowed (tool : string) : string :=
  ALLOWED_TOOLS_RULE +:+ ": tool '" +:+ tool +:+ "' is not allowed for agent '" +:+ agent_ref
  +:+ "'".
Definition is_blocked (tool : string) : string :=
  BLOCKED_TOOLS_RULE +:+ ": tool '" +:+ tool +:+ "' is blocked for agent '" +:+ agent_ref +:+ "'".

Definition check_delegation (allowed : list string) (target : option Delegation)
    : result string unit :=
  match allowed with
  | [] => Ok tt
  | _ =>
      match target with
      | Some (DelegateTo target) =>
          if existsb (λ p, glob_matches p target) allowed then Ok tt
          else Err (ALLOWED_DELEGATIONS_RULE +:+ ": agent '" +:+ agent_ref
            +:+ "' may not delegate to '" +:+ target +:+ "'")
      | Some (DelegateUnresolved name) =>
          Err (ALLOWED_DELEGATIONS_RULE +:+ ": agent '" +:+ agent_ref
            +:+ "' has a delegation list, and remote agent '" +:+ name
            +:+ "' is not in the workflow's remote_agents, so the URL it calls is unknown")
      | Some DelegateRunTime =>
          Err (ALLOWED_DELEGATIONS_RULE +:+ ": agent '" +:+ agent_ref
            +:+ "' has a delegation list, and a " +:+ node_kind_tag ctx
            +:+ " node picks its target at run time")
      | None => Ok tt
      end
  end.

(** The node's own name against the card's lists; the gate after it. *)
Definition check_own (allowed blocked gated : list string) (gate : CardGate)
    : result string CardGate :=
  _ ← map_err not_allowed (node_allowed ctx allowed);
  match node_named_by ctx blocked with
  | Some tool => Err (is_blocked tool)
  | None => Ok {|
      gate_node := match gate_node gate with None => node_named_by ctx gated | g => g end;
      gate_calls := gate_calls gate; gate_agents := gate_agents gate |}
  end.

Fixpoint check_calls (allowed blocked gated : list string) (calls : list PendingToolCall)
    (gate : CardGate) : result string CardGate :=
  match calls with
  | [] => Ok gate
  | call :: calls =>
      match call_allowed call allowed with
      | Err (RefusedName tool) => Err (not_allowed tool)
      | Err (RefusedHandler name handler) =>
          Err (ALLOWED_TOOLS_RULE +:+ ": tool '" +:+ name +:+ "' resolves to '" +:+ handler
               +:+ "', which is not allowed for agent '" +:+ agent_ref +:+ "'")
      | Ok _ =>
          match call_named_by call blocked with
          | Some tool => Err (is_blocked tool)
          | None =>
              let hit := bool_decide (is_Some (call_named_by call gated))
                         && negb (bool_decide (pc_name call ∈ gate_calls gate)) in
              check_calls allowed blocked gated calls
                (if hit then {| gate_node := gate_node gate;
                                gate_calls := gate_calls gate ++ [pc_name call];
                                gate_agents := gate_agents gate |}
                 else gate)
          end
      end
  end.
End Card.

(** One card, in the code's order. *)
Definition check_card (ctx : EvaluationContext) (node_def : NodeDef) (payload : Value)
    (remote_agents : option (gmap string RemoteAgentConfig)) (agent_ref : string)
    (c : AutonomyConstraints) (gate : CardGate) : result string CardGate :=
  _ ← check_delegation ctx agent_ref (allowed_delegations c)
        (delegation_target (kind node_def) remote_agents);
  match ac_allowed_tools c, ac_blocked_tools c, ac_require_approval_for c with
  | [], [], [] => Ok gate
  | allowed, blocked, gated =>
      gate ← (if calls_only (kind node_def) then Ok gate
              else check_own ctx agent_ref allowed blocked gated gate);
      if is_agent_tool_dispatch (kind node_def)
      then
        calls ← map_err unreadable_rule (read_pending_tool_calls (payload_input payload));
        check_calls agent_ref allowed blocked gated calls gate
      else Ok gate
  end.

(** ** The guard *)

Section Guard.
Context `{!UuidOps, !ChronoOps, !JsonText, !Sha256Ops, !GuardSerde} {S : Type}
  `{HB : StateBackend S}.

Abbreviation G A := (eff S GuardOutcome A).

(** What every stage is given. *)
Record GuardArgs := {
  ga_mode : GuardMode;
  ga_execution_id : ExecutionId;
  ga_node_id : string;
  ga_tenant_id : string;
  ga_workflow_policy : option PolicySetIr;
  ga_node_def : NodeDef;
  ga_payload : Value;
  ga_sealer : Sealer;
  ga_agents : AgentScope;
  ga_work_item_id : option Uuid;
}.

(** [refuse]: record the rule on a firing check, then block. *)
Definition refuse {A} (args : GuardArgs) (rule : string) : G A :=
  record_if_firing (ga_mode args) (ga_execution_id args) (ga_node_id args) rule AGENT_SCOPE
    ≫= λ _, raise (GuardOutcome.Blocked rule).

(** The cards of [refs], one after the other. *)
Fixpoint card_loop (args : GuardArgs) (get_by_uri : string → result string (option Agent))
    (refs : list string) (gate : CardGate) : G CardGate :=
  match refs with
  | [] => mret gate
  | agent_ref :: refs =>
      match get_by_uri agent_ref with
      | Ok (Some agent) =>
          let gate := {| gate_node := gate_node gate; gate_calls := gate_calls gate;
            gate_agents := gate_agents gate ++ [(agent_ref, constraints (card agent))] |} in
          match constraints (card agent) with
          | None => card_loop args get_by_uri refs gate
          | Some c =>
              let ctx := from_node_kind (ga_node_id args) (kind (ga_node_def args)) in
              match check_card ctx (ga_node_def args) (ga_payload args)
                      (scope_remote_agents (ga_agents args)) agent_ref c gate with
              | Ok gate => card_loop args get_by_uri refs gate
              | Err rule => refuse args rule
              end
          end
      | Ok None => refuse args (ALLOWED_TOOLS_RULE +:+ ": agent '" +:+ agent_ref
          +:+ "' is not registered, so its card cannot be checked")
      | Err e => raise (GuardOutcome.Unavailable
          ("agent registry unavailable; refusing to run without checking the card of agent '"
           +:+ agent_ref +:+ "': " +:+ e))
      end
  end.

Definition agent_card (args : GuardArgs) : G CardGate :=
  match agent_refs (workflow_agent (ga_agents args)) (nd_agent_ref (ga_node_def args)) with
  | [] => mret CardGate_default
  | (first :: _) as refs =>
      match registry (ga_agents args) with
      | None => refuse args (ALLOWED_TOOLS_RULE +:+ ": node acts for agent '" +:+ first
          +:+ "', but this runtime has no agent registry to read its card")
      | Some get_by_uri => card_loop args get_by_uri refs CardGate_default
      end
  end.

Definition require_approval (execution_id : ExecutionId) (node_id : string) (node_def : NodeDef)
    (payload : Value) (tool_name approver : string) (context : Value)
    (deadline : option ApprovalDeadline) (tenant_id : string) (sealer : Sealer)
    (escalation : bool) : G GuardOutcome :=
  let gated := [tool_name] in
  events ← with_err (λ e, GuardOutcome.Unavailable
    ("approval state unavailable; refusing to run unapproved: " +:+ StateBackendError_display e))
    (get_events execution_id);
  let status := node_approval_status events node_id in
  match status with
  | Indeterminate => raise (GuardOutcome.Unavailable UNREADABLE_LOG_REASON)
  | Pending _ | StatusRejected _ _ _ => mret (GuardOutcome.Held gated)
  | _ =>
      definition ← of_result (map_err GuardOutcome.Unavailable (node_definition node_def));
      basis ← with_err (λ e, GuardOutcome.Unavailable
        ("approval binding unavailable; refusing to run unapproved: "
         +:+ StateBackendError_display e))
        (action_basis execution_id node_id definition payload);
      let current := ab_digest basis node_id in
      if approval_covers status current
         && (negb escalation || bool_decide (is_Some (unused_escalation events node_id)))
      then mret GuardOutcome.Allow
      else
        let context := match context with Object m => m | _ => map_of [("context", context)] end in
        let context := map_insert ACTION_DIGEST_KEY (Str current) context in
        let context := map_insert ACTION_DEFINITION_KEY (Str definition) context in
        let context := map_insert ACTION_STEP_KEY (num (ab_step basis)) context in
        let context := map_insert ACTION_BASIS_KEY
          (basis_preview (ab_payload basis) (ab_step basis) node_def) context in
        raise_request execution_id node_id tenant_id sealer tool_name approver context deadline
          ≫= λ _, mret (GuardOutcome.Held gated)
  end.

(** [Value::as_u64]. *)
Definition as_u64 (v : Value) : option Z := match v with Num (PosInt n) => Some n | _ => None end.

Definition completion_covered (execution_id : ExecutionId) (node_id : string) (node_def : NodeDef)
    (payload : Value) (tool_name : string) : G GuardOutcome :=
  let gated := [tool_name] in
  let unavailable e := GuardOutcome.Unavailable
    ("approval state unavailable; refusing to record an unapproved result: "
     +:+ StateBackendError_display e) in
  events ← with_err unavailable (get_events execution_id);
  let status := node_approval_status events node_id in
  match status with
  | StatusApproved _ _ _ =>
      match answered_request events node_id with
      | None => mret (GuardOutcome.Held gated)
      | Some request =>
          step ← with_err unavailable (count_node_completions execution_id node_id);
          match v ← get ACTION_STEP_KEY (pa_context request); as_u64 v with
          | Some requested_step =>
              mret (if decide (requested_step = step) then GuardOutcome.Allow
                    else GuardOutcome.Held gated)
          | None =>
              definition ← of_result (map_err GuardOutcome.Unavailable (node_definition node_def));
              current ← with_err unavailable
                (derive_action_digest execution_id node_id definition payload);
              mret (if approval_covers status current then GuardOutcome.Allow
                    else GuardOutcome.Held gated)
          end
      end
  | _ => mret (GuardOutcome.Held gated)
  end.

(** [per_call]. *)
Definition per_call (args : GuardArgs) (card_calls : list string) (node_approved : bool)
    : G GuardOutcome :=
  guard_dispatch_in {|
    dg_mode := ga_mode args; dg_execution_id := ga_execution_id args;
    dg_node_id := ga_node_id args; dg_tenant_id := ga_tenant_id args;
    dg_workflow_policy := ga_workflow_policy args; dg_node_def := ga_node_def args;
    dg_payload_input := payload_input (ga_payload args); dg_node_approved := node_approved;
    dg_sealer := ga_sealer args; dg_card_gated := card_calls |}.

(** A card gate or an escalation turns an allow into an approval. *)
Definition gated_decision (decision : PolicyDecision) (gate : option string)
    (escalation : option Escalation) : PolicyDecision :=
  match decision with
  | Allow => match gate, escalation with
             | None, None => Allow
             | _, _ => RequireApproval "human" end
  | d => d
  end.

(** The node's own approval, in either mode. *)
Definition own_approval (args : GuardArgs) (sets : list PolicySetIr) (tool approver : string)
    (escalation : option Escalation) : G GuardOutcome :=
  let eid := ga_execution_id args in
  let node_id := ga_node_id args in
  match ga_mode args with
  | GuardMode.Fire =>
      deadline ← deadline_or_block eid node_id sets;
      let context := obj (("node_id", Str node_id) ::
        match escalation with
        | Some e => [(ESCALATION_KEY, escalation_context e)] | None => [] end) in
      require_approval eid node_id (ga_node_def args) (ga_payload args) tool approver context
        deadline (ga_tenant_id args) (ga_sealer args) (bool_decide (is_Some escalation))
  | GuardMode.Complete =>
      completion_covered eid node_id (ga_node_def args) (ga_payload args) tool
  end.

Definition guard_policy (args : GuardArgs) (gate : CardGate) (escalation : option Escalation)
    : G GuardOutcome :=
  let eid := ga_execution_id args in
  let node_id := ga_node_id args in
  let node_def := ga_node_def args in
  let is_dispatch := is_agent_tool_dispatch (kind node_def) in
  tenant ← tenant_policy_set (ga_mode args) eid node_id (ga_tenant_id args);
  let sets := policy_chain tenant (ga_workflow_policy args) (nd_policy node_def) in
  let ctx := from_node_kind node_id (kind node_def) in
  let decision := match sets with [] => Allow | _ => evaluate ctx sets end in
  match gated_decision decision (gate_node gate) escalation with
  | Allow =>
      if is_dispatch then per_call args (gate_calls gate) false else mret GuardOutcome.Allow
  | Block reason =>
      record_if_firing (ga_mode args) eid node_id reason
        (identify_policy_scope ctx tenant (ga_workflow_policy args) (nd_policy node_def))
        ≫= λ _, raise (GuardOutcome.Blocked reason)
  | RequireApproval approver =>
      let tool := match gate_node gate with
        | Some t => t
        | None => default node_id (tool_name ctx) end in
      outcome ← own_approval args sets tool approver escalation;
      match outcome with
      | GuardOutcome.Allow => if is_dispatch then per_call args (gate_calls gate) true
                              else mret GuardOutcome.Allow
      | other => mret other
      end
  end.

(** The agents whose limits apply: those of the cards, and the callee. *)
Definition agents_of_node (args : GuardArgs) (gate : CardGate) : G Agents :=
  c ← of_result (callee (registry (ga_agents args)) (kind (ga_node_def args)));
  mret match c with
  | Some c => if decide (c.1 ∈ (gate_agents gate).*1) then gate_agents gate
              else gate_agents gate ++ [c]
  | None => gate_agents gate
  end.

(** The plan of a firing step; a completion has to belong to an admitted one. *)
Definition step_plan (args : GuardArgs) (agents : Agents) : G (option Plan) :=
  match agents with
  | [] => mret None
  | _ =>
      match ga_mode args with
      | GuardMode.Fire =>
          calls ← of_result (map_err GuardOutcome.Blocked
            (step_tool_calls (ga_node_def args) (ga_payload args)));
          p ← plan (ga_execution_id args) (ga_node_id args) agents calls;
          mret (Some p)
      | GuardMode.Complete =>
          completion_admitted (ga_execution_id args) (ga_work_item_id args) ≫= λ _, mret None
      end
  end.

(** Whether the decision raised a request of its own since [before]. *)
Definition raised_since (args : GuardArgs) (before : EventSequence) : G bool :=
  events ← as_result (get_events_since (ga_execution_id args) before);
  mret match events with
       | Ok events => existsb (requests_node (ga_node_id args)) events
       | Err _ => true
       end.

(** [guard_item]. *)
Definition guard_item (args : GuardArgs) : G GuardOutcome :=
  let eid := ga_execution_id args in
  let node_id := ga_node_id args in
  gate ← agent_card args;
  agents ← agents_of_node args gate;
  p ← step_plan args agents;
  let escalation := p ≫= pl_escalation in
  before ← match escalation with
    | Some _ =>
        seq ← with_err (λ e, GuardOutcome.Unavailable
          ("run log unreadable: " +:+ StateBackendError_display e)) (latest_sequence eid);
        mret (Some seq)
    | None => mret None
    end;
  outcome ← settle (guard_policy args gate escalation);
  match escalation, before, outcome with
  | Some e, Some before, GuardOutcome.Held _ =>
      raised_since args before ≫= λ raised : bool,
      if raised
      then record_stop eid node_id (esc_agent e) (esc_decision e) (Some "human_approval")
      else mret tt
  | _, _, _ => mret tt
  end ≫= λ _,
  match outcome, p with
  | GuardOutcome.Allow, Some p => admit_step eid node_id (ga_work_item_id args) p
  | outcome, _ => mret outcome
  end.
End Guard.
