(* ===== verification/GuardCorrect.v ===== *)
(** * What the guards guarantee ([workers/src/node_guard.rs], [dispatch_guard.rs])

    Theorems about [DispatchGuard] and [NodeGuard], from the interface's laws:
    what a guard writes, when it lets a node run, what holding a node leaves in
    the log. *)

From S2P Require Import Prelude.
From S2P Require Import Json.
From S2P Require Import RustStr.
From S2P Require Import Core.
From S2P Require Import Condition.
From S2P Require Import Ir.
From S2P Require Import Event.
From S2P Require Import Materializer.
From S2P Require Import Budget.
From S2P Require Import Hashing.
From S2P Require Import Approvals.
From S2P Require Import Backend.
From S2P Require Import Journal.
From S2P Require Import Memory.
From S2P Require Import Lease.
From S2P Require Import MemoryLaws.
From S2P Require Import Segment.
From S2P Require Import Policy.
From S2P Require Import ToolDispatch.
From S2P Require Import AgentLimits.
From S2P Require Import AgentSteps.
From S2P Require Import Agents.
From S2P Require Import DispatchGuard.
From S2P Require Import NodeGuard.

(** ** What a guard writes *)

(** The kinds of events a firing guard appends: no decision, no expiry, no
    step of the node itself. *)
Definition guard_kind (k : EventKind) : Prop :=
  match k with
  | EventKind.PolicyViolation _ _ _ _ | EventKind.ToolApprovalRequired _ _ _ _
  | EventKind.AuditSealFailed _ _ _ _ | EventKind.AutonomyLimitReached _ _ _ _ _
  | EventKind.CircuitBreakerTripped _ _ _ _ | EventKind.EscalationRequired _ _ _ _
  | EventKind.AgentStepAdmitted _ _ _ _ _ => True
  | _ => False
  end.

Section Writes.
Context `{!UuidOps, !ChronoOps, !JsonText, !Sha256Ops, !GuardSerde} {S : Type}
  `{HL : StateBackendLaws S}.

(** A firing guard journals its kinds in its run's log; a completing one leaves
    the store as it was. *)
Definition guard_writes (mode : GuardMode) (id : ExecutionId) (s s' : S) : Prop :=
  match mode with
  | GuardMode.Fire => journals guard_kind id s s'
  | GuardMode.Complete => s' = s
  end.

#[export] Instance guard_writes_preorder mode id : PreOrder (guard_writes mode id).
Proof. destruct mode; [apply _|]. split; [done|]. intros s1 s2 s3 ??. simpl in *. congruence. Qed.

Lemma writes_read {E A} mode id (m : eff S E A) :
  (∀ w, (m w).2 = w) → respects (guard_writes mode id) m.
Proof. intros Hm w. rewrite Hm. reflexivity. Qed.

Lemma writes_fire {E A} mode id (m : eff S E A) :
  mode = GuardMode.Fire → respects (journals guard_kind id) m → respects (guard_writes mode id) m.
Proof. intros -> Hm w. apply Hm. Qed.

Lemma get_events_reads id w : (get_events id w).2 = w.
Proof. by rewrite law_get_events. Qed.
Lemma latest_sequence_reads id w : (latest_sequence id w).2 = w.
Proof. by rewrite law_latest_sequence. Qed.
Lemma get_events_since_reads id n w : (get_events_since id n w).2 = w.
Proof. by rewrite law_get_events_since. Qed.

Lemma count_node_completions_run id node (w : world S) :
  count_node_completions id node w = (Ok (Z.of_nat (length (base.filter
    (λ e, is_completion_of node e = true) (view_log (store w) id)))), w).
Proof.
  unfold count_node_completions. by rewrite (bind_run _ _ _ _ _ (law_get_events id w)).
Qed.

(** The idempotency key of the item's current occurrence. *)
Definition engine_key (s : S) (wi : WorkItem) : string :=
  idempotency_key (ExecutionId_display (wi_execution_id wi)) 0
    (Z.of_nat (length (base.filter (λ e, is_completion_of (wi_node_id wi) e = true)
       (view_log s (wi_execution_id wi)))))
    (wi_node_id wi)
    (content_hash match view_execution s (wi_execution_id wi) with
                  | Some e => current_state e | None => obj [] end).

Lemma derive_key_run wi (w : world S) :
  derive_idempotency_key (wi_execution_id wi) (wi_node_id wi) w = (Ok (engine_key (store w) wi), w).
Proof.
  unfold derive_idempotency_key. rewrite (bind_run _ _ _ _ _ (count_node_completions_run _ _ w)).
  by rewrite (bind_run _ _ _ _ _ (law_get_execution _ w)).
Qed.

(** The basis of an action at a store, and what reading it answers. *)
Definition basis_at (s : S) (id : ExecutionId) (node definition : string) (payload : Value)
    : ActionBasis := {|
  ab_run := ExecutionId_display id;
  ab_step := Z.of_nat (length (base.filter (λ e, is_completion_of node e = true) (view_log s id)));
  ab_definition := definition; ab_payload := action_payload payload |}.

Lemma action_basis_run id node definition payload (w : world S) :
  action_basis id node definition payload w = (Ok (basis_at (store w) id node definition payload), w).
Proof.
  unfold action_basis. by rewrite (bind_run _ _ _ _ _ (count_node_completions_run id node w)).
Qed.

Lemma derive_action_digest_run id node definition payload (w : world S) :
  derive_action_digest id node definition payload w
  = (Ok (ab_digest (basis_at (store w) id node definition payload) node), w).
Proof.
  unfold derive_action_digest.
  by rewrite (bind_run _ _ _ _ _ (action_basis_run id node definition payload w)).
Qed.

Lemma completion_admitted_reads id item (w : world S) : (completion_admitted id item w).2 = w.
Proof.
  unfold completion_admitted. destruct item as [i|]; [|done].
  rewrite (with_err_run _ _ _ _ _ _ (law_get_events id w)). by destruct (step_open _ _).
Qed.

Lemma record_policy_violation_journals {E} id node rule scope :
  respects (E := E) (journals guard_kind id) (record_policy_violation (S := S) id node rule scope).
Proof.
  unfold record_policy_violation. apply respects_bind; [apply _| |].
  - apply respects_as_result. intros w. rewrite latest_sequence_reads. reflexivity.
  - intros [e|n]; [|apply respects_mret, _]. apply journals_new. intros ev He Hk.
    apply respects_bind; [apply _| |intros; apply respects_mret, _].
    apply respects_as_result. apply journals_append; [done|by rewrite Hk].
Qed.

Lemma record_if_firing_writes {E} mode id node rule scope :
  respects (E := E) (guard_writes mode id) (record_if_firing (S := S) mode id node rule scope).
Proof.
  unfold record_if_firing. case_decide as Hm; [|apply respects_mret, _].
  apply writes_fire; [done|]. apply record_policy_violation_journals.
Qed.

Lemma record_request_journals id sl request tenant :
  event_execution_id request = id → guard_kind (event_kind request) →
  respects (journals guard_kind id) (record_request (S := S) sl request tenant).
Proof.
  intros Hid Hk. unfold record_request. apply respects_bind; [apply _| |intros seq].
  - apply respects_with_err. by apply journals_append.
  - apply respects_with_err. apply journals_seal; [|done]. by intros [].
Qed.

Lemma raise_request_journals id node tenant sl tool approver context dl :
  respects (journals guard_kind id)
    (raise_request (S := S) id node tenant sl tool approver context dl).
Proof.
  unfold raise_request. apply respects_bind; [apply _|apply respects_utc_now, _|intros now].
  apply respects_bind; [apply _|by intros w|intros ctx].
  apply journals_new. intros ev He Hk. apply respects_with_err.
  apply record_request_journals; [done|by rewrite Hk].
Qed.

Lemma deadline_or_block_journals id node sets :
  respects (journals guard_kind id) (deadline_or_block (S := S) id node sets).
Proof.
  unfold deadline_or_block. case_match; [apply respects_mret, _|].
  apply respects_bind; [apply _|apply record_policy_violation_journals|intros; apply respects_raise, _].
Qed.

Lemma tenant_policy_set_writes mode id node tenant :
  respects (guard_writes mode id) (tenant_policy_set (S := S) mode id node tenant).
Proof.
  unfold tenant_policy_set. apply respects_bind; [apply _| |intros t].
  - apply respects_with_err. intros w. rewrite law_get_tenant. reflexivity.
  - unfold unparseable_tenant_policy. repeat case_match; try (apply respects_mret; apply _).
    apply respects_bind; [apply _|apply record_if_firing_writes|intros; apply respects_raise, _].
Qed.

(** A read whose errors the guard answers itself. *)
Lemma writes_with_err {F A} mode id (f : F → GuardOutcome) (m : eff S F A) :
  (∀ w, (m w).2 = w) → respects (guard_writes mode id) (with_err f m).
Proof. intros Hm. apply respects_with_err. intros w. rewrite Hm. reflexivity. Qed.

Lemma writes_of_result {A} mode id (r : result GuardOutcome A) :
  respects (guard_writes mode id) (of_result r).
Proof. by intros w. Qed.
End Writes.

(** One step of a walk over a guard's calls. *)
Ltac writes_step :=
  match goal with
  | |- respects _ (mret _) => apply respects_mret, _
  | |- respects _ (raise _) => apply respects_raise, _
  | |- respects _ (of_result _) => apply writes_of_result
  | |- respects _ (record_if_firing _ _ _ _ _) => apply record_if_firing_writes
  | |- respects _ (tenant_policy_set _ _ _ _) => apply tenant_policy_set_writes
  | |- respects _ (with_err _ _) => apply writes_with_err; intros ?
  | |- respects _ (_ ≫= _) => apply respects_bind; [apply _| |intros ?]
  | |- respects _ (if ?b then _ else _) => destruct b eqn:?
  | |- respects _ (match ?x with _ => _ end) => destruct x eqn:?
  end.

Section GuardWrites.
Context `{!UuidOps, !ChronoOps, !JsonText, !Sha256Ops, !GuardSerde} {S : Type}
  `{HL : StateBackendLaws S}.

Lemma dispatch_approval_writes args tenant sets calls approver gated :
  respects (guard_writes (dg_mode args) (dg_execution_id args))
    (dispatch_approval (S := S) args tenant sets calls approver gated).
Proof.
  unfold dispatch_approval. repeat writes_step;
    rewrite ?law_get_events, ?action_basis_run; try done;
    match goal with Hm : negb (bool_decide _) = false |- _ =>
      apply negb_false_iff, bool_decide_eq_true in Hm; rewrite Hm end.
  - apply writes_fire; [done|]. apply deadline_or_block_journals.
  - apply writes_fire; [done|]. apply raise_request_journals.
  - apply writes_fire; [done|]. apply deadline_or_block_journals.
  - apply writes_fire; [done|]. apply raise_request_journals.
Qed.

Lemma guard_dispatch_in_writes args :
  respects (guard_writes (dg_mode args) (dg_execution_id args)) (guard_dispatch_in (S := S) args).
Proof.
  unfold guard_dispatch_in, decide_calls. repeat writes_step; apply dispatch_approval_writes.
Qed.

Lemma require_approval_journals id node def payload tool approver context dl tenant sl esc :
  respects (journals guard_kind id)
    (require_approval (S := S) id node def payload tool approver context dl tenant sl esc).
Proof.
  change (journals guard_kind id) with (guard_writes (S := S) GuardMode.Fire id).
  unfold require_approval. repeat writes_step; rewrite ?law_get_events, ?action_basis_run; try done;
    apply raise_request_journals.
Qed.

Lemma completion_covered_reads id node def payload tool (w : world S) :
  store (completion_covered (S := S) id node def payload tool w).2 = store w.
Proof.
  enough (respects (guard_writes (S := S) GuardMode.Complete id)
    (completion_covered (S := S) id node def payload tool)) as Hr by apply (Hr w).
  unfold completion_covered. repeat writes_step;
    by rewrite ?law_get_events, ?count_node_completions_run, ?derive_action_digest_run.
Qed.
End GuardWrites.

Section ItemWrites.
Context `{!UuidOps, !ChronoOps, !JsonText, !Sha256Ops, !GuardSerde} {S : Type}
  `{HL : StateBackendLaws S}.

Lemma refuse_writes {A} args rule :
  respects (guard_writes (ga_mode args) (ga_execution_id args)) (refuse (S := S) (A := A) args rule).
Proof. unfold refuse. repeat writes_step. Qed.

Lemma agent_card_writes args :
  respects (guard_writes (ga_mode args) (ga_execution_id args)) (agent_card (S := S) args).
Proof.
  unfold agent_card. repeat writes_step; try apply refuse_writes.
  match goal with |- respects _ (card_loop _ ?g ?r ?gate) => generalize r, gate end.
  intros refs. induction refs as [|ref refs IH]; intros gate; cbn [card_loop]; [apply respects_mret, _|].
  repeat case_match; try apply refuse_writes; try apply respects_raise, _; apply IH.
Qed.

Lemma is_stop_guard k : is_stop k → guard_kind k.
Proof. by destruct k. Qed.

Lemma record_stop_guard id node agent d target :
  respects (journals guard_kind id) (record_stop (S := S) id node agent d target).
Proof.
  intros w. eapply journals_weaken; [exact is_stop_guard|]. apply record_stop_journals.
Qed.

Lemma plan_journals id node agents calls :
  respects (journals guard_kind id) (plan (S := S) id node agents calls).
Proof.
  change (journals guard_kind id) with (guard_writes (S := S) GuardMode.Fire id).
  unfold plan. repeat writes_step; rewrite ?segment_chain_reads, ?law_get_events; try done.
  - intros w. destruct (fold_segments_run (base.filter (λ i, i ≠ id) a) Ledger_default w) as [-> _].
    reflexivity.
  - apply respects_utc_now, _.
  - apply record_stop_guard.
Qed.

Lemma admit_journals id node item p :
  respects (journals guard_kind id) (admit_step (S := S) id node item p).
Proof.
  unfold admit_step. apply respects_bind; [apply _| |intros seq].
  - intros w. destruct (release_run id node p w) as [-> _]. reflexivity.
  - apply journals_new. intros ev He Hk. apply respects_bind; [apply _| |intros; apply respects_mret, _].
    apply respects_as_result. apply journals_append_if; [done|by rewrite Hk].
Qed.

Lemma per_call_writes args calls approved :
  respects (guard_writes (ga_mode args) (ga_execution_id args))
    (per_call (S := S) args calls approved).
Proof. apply (guard_dispatch_in_writes {| dg_mode := ga_mode args |}). Qed.

Lemma own_approval_writes args sets tool approver esc :
  respects (guard_writes (ga_mode args) (ga_execution_id args))
    (own_approval (S := S) args sets tool approver esc).
Proof.
  unfold own_approval. destruct (ga_mode args).
  - apply respects_bind; [apply _|apply deadline_or_block_journals|intros dl].
    apply require_approval_journals.
  - intros w. apply completion_covered_reads.
Qed.

Lemma guard_policy_writes args gate esc :
  respects (guard_writes (ga_mode args) (ga_execution_id args)) (guard_policy (S := S) args gate esc).
Proof.
  unfold guard_policy.
  repeat (writes_step || apply per_call_writes || apply own_approval_writes).
Qed.

Lemma settle_writes {E} mode id (m : eff S GuardOutcome GuardOutcome) :
  respects (guard_writes mode id) m → respects (E := E) (guard_writes mode id) (settle m).
Proof. intros Hm w. specialize (Hm w). unfold settle. by destruct (m w) as [[] ?]. Qed.

(** A completion plans nothing. *)
Lemma step_plan_run args agents (w : world S) :
  ga_mode args = GuardMode.Complete →
  (step_plan args agents w).2 = w ∧ ∀ p, (step_plan args agents w).1 = Ok p → p = None.
Proof.
  intros Hm. unfold step_plan. destruct agents as [|ag agents]; [by split; [|intros p [= <-]]|].
  rewrite Hm. unfold mbind, eff_bind.
  pose proof (completion_admitted_reads (ga_execution_id args) (ga_work_item_id args) w) as Hr.
  destruct (completion_admitted _ _ w) as [[u|e] w']; simpl in *; subst w'.
  - by split; [|intros p [= <-]].
  - by split.
Qed.

Lemma step_plan_writes args agents :
  respects (guard_writes (ga_mode args) (ga_execution_id args)) (step_plan (S := S) args agents).
Proof.
  intros w. destruct (ga_mode args) eqn:Hm.
  - unfold step_plan. rewrite Hm. destruct agents as [|ag agents]; [apply respects_mret, _|].
    apply respects_bind; [apply _|by intros ?|intros calls].
    apply respects_bind; [apply _|apply plan_journals|intros; apply respects_mret, _].
  - by destruct (step_plan_run args agents w Hm) as [-> _].
Qed.

Lemma raised_since_run args before (w : world S) :
  raised_since args before w
  = (Ok (existsb (requests_node (ga_node_id args))
           (events_after before (view_log (store w) (ga_execution_id args)))), w).
Proof.
  unfold raised_since.
  by rewrite (as_result_run _ _ _ _ _ (law_get_events_since (ga_execution_id args) before w)).
Qed.

(** What comes after the plan, for the plan there is. *)
Definition guard_tail (args : GuardArgs) (gate : CardGate) (p : option Plan)
    : eff S GuardOutcome GuardOutcome :=
  let eid := ga_execution_id args in
  let node_id := ga_node_id args in
  let escalation := p ≫= pl_escalation in
  before ← match escalation with
    | Some _ =>
        seq ← with_err (λ e, GuardOutcome.Unavailable
          ("run log unreadable: " +:+ StateBackendError_display e)) (latest_sequence eid);
        mret (Some seq)
    | None => mret None
    end;
  outcome ← settle (guard_policy args gate escalation);
  match escalation, before, outcome with
  | Some e, Some before, GuardOutcome.Held _ =>
      raised_since args before ≫= λ raised : bool,
      if raised
      then record_stop eid node_id (esc_agent e) (esc_decision e) (Some "human_approval")
      else mret tt
  | _, _, _ => mret tt
  end ≫= λ _,
  match outcome, p with
  | GuardOutcome.Allow, Some p => admit_step eid node_id (ga_work_item_id args) p
  | outcome, _ => mret outcome
  end.

Lemma guard_item_eq args : guard_item (S := S) args =
  (gate ← agent_card args; agents ← agents_of_node args gate;
   p ← step_plan args agents; guard_tail args gate p).
Proof. done. Qed.

Lemma guard_tail_writes args gate p :
  (ga_mode args = GuardMode.Complete → p = None) →
  respects (guard_writes (ga_mode args) (ga_execution_id args)) (guard_tail args gate p).
Proof.
  intros Hp. unfold guard_tail.
  destruct p as [p|].
  - assert (ga_mode args = GuardMode.Fire) as Hm
      by (destruct (ga_mode args); [done|by specialize (Hp eq_refl)]).
    repeat (writes_step || (apply settle_writes, guard_policy_writes));
      rewrite ?law_latest_sequence; try done;
      try (apply writes_fire; [done|]; first [apply record_stop_guard | apply admit_journals]).
    all: apply writes_read; intros w; by rewrite raised_since_run.
  - simpl. repeat (writes_step || (apply settle_writes, guard_policy_writes)).
Qed.

Lemma guard_item_respects args :
  respects (guard_writes (ga_mode args) (ga_execution_id args)) (guard_item args).
Proof.
  rewrite guard_item_eq. apply respects_bind; [apply _|apply agent_card_writes|intros gate].
  apply respects_bind; [apply _|unfold agents_of_node; repeat writes_step|intros agents].
  intros w1. unfold mbind, eff_bind. pose proof (step_plan_writes args agents w1) as Hw1.
  destruct (step_plan args agents w1) as [[p|e] w2] eqn:Hp; [|done]. etransitivity; [exact Hw1|].
  apply guard_tail_writes. intros Hm. destruct (step_plan_run args agents w1 Hm) as [_ Hnone].
  rewrite Hp in Hnone. by apply Hnone.
Qed.

(** In [Complete] mode the guard writes nothing; in [Fire] mode it only appends,
    to its own run's log, records of its refusals, approval requests, the stops
    of autonomy limits and an admitted step: never a decision on an approval,
    never an outcome of the node, and no row or work item changes. *)
Theorem guard_item_writes (args : GuardArgs) (w : world S) :
  let s' := store (guard_item args w).2 in
  match ga_mode args with
  | GuardMode.Complete => s' = store w
  | GuardMode.Fire => journals guard_kind (ga_execution_id args) (store w) s'
  end.
Proof. pose proof (guard_item_respects args w) as Hw. by destruct (ga_mode args). Qed.
End ItemWrites.
