(* ===== verification/GuardSound.v ===== *)
(** * When the guards let a node run, and what holding one leaves
    ([workers/src/node_guard.rs], [dispatch_guard.rs])

    [Allow] means: no layer of the policy chain blocks the node or any of its
    calls, every card of the node permits it, an approval on file covers the
    action where one is asked for, and the agents' limits admitted the step.
    [Held] means: a request somebody can answer is in the log. *)

From S2P Require Import Prelude.
From S2P Require Import Json.
From S2P Require Import RustStr.
From S2P Require Import Core.
From S2P Require Import Condition.
From S2P Require Import Ir.
From S2P Require Import Event.
From S2P Require Import Materializer.
From S2P Require Import Budget.
From S2P Require Import Hashing.
From S2P Require Import Approvals.
From S2P Require Import Backend.
From S2P Require Import Journal.
From S2P Require Import Memory.
From S2P Require Import Lease.
From S2P Require Import MemoryLaws.
From S2P Require Import Segment.
From S2P Require Import Policy.
From S2P Require Import ToolDispatch.
From S2P Require Import AgentLimits.
From S2P Require Import AgentSteps.
From S2P Require Import Agents.
From S2P Require Import DispatchGuard.
From S2P Require Import NodeGuard.
From S2P Require Import GuardCorrect.

(** ** Early returns

    A guard returns early only to refuse: what it raises is [Blocked] or
    [Unavailable]. *)

Definition is_refusal (o : GuardOutcome) : Prop :=
  match o with GuardOutcome.Blocked _ | GuardOutcome.Unavailable _ => True | _ => False end.

Section Refusals.
Context {S : Type}.

Definition refuses {A} (m : eff S GuardOutcome A) : Prop :=
  ∀ w e w', m w = (Err e, w') → is_refusal e.

Lemma refuses_mret {A} (a : A) : refuses (mret a).
Proof. by intros w e w'. Qed.
Lemma refuses_raise {A} e : is_refusal e → refuses (raise (A := A) e).
Proof. by intros He w e' w' [= <- _]. Qed.
Lemma refuses_of_result {A} (r : result GuardOutcome A) :
  (∀ e, r = Err e → is_refusal e) → refuses (of_result r).
Proof. intros Hr w e w' [= -> _]. by apply Hr. Qed.
Lemma refuses_with_err {F A} (f : F → GuardOutcome) (m : eff S F A) :
  (∀ e, is_refusal (f e)) → refuses (with_err f m).
Proof.
  intros Hf w e w'. unfold with_err. destruct (m w) as [[a|e'] w1]; [done|]. by intros [= <- _].
Qed.
Lemma refuses_bind {A B} (m : eff S GuardOutcome A) (k : A → eff S GuardOutcome B) :
  refuses m → (∀ a, refuses (k a)) → refuses (m ≫= k).
Proof.
  intros Hm Hk w e w'. unfold mbind, eff_bind. destruct (m w) as [[a|e'] w1] eqn:Hmw.
  - apply Hk.
  - intros [= <- _]. by eapply Hm.
Qed.
(** A best-effort record never fails. *)
Lemma refuses_record `{!UuidOps, !StateBackend S} mode id node rule scope :
  refuses (record_if_firing (S := S) mode id node rule scope).
Proof.
  unfold record_if_firing, record_policy_violation. case_decide; [|apply refuses_mret].
  apply refuses_bind; [|intros [n|e]; [|apply refuses_mret]].
  { intros w e w'. unfold as_result. by destruct (latest_sequence id w). }
  apply refuses_bind; [by intros w e w'|intros ev].
  apply refuses_bind; [|intros; apply refuses_mret].
  intros w e w'. unfold as_result. by destruct (append_event ev w).
Qed.
End Refusals.

Ltac refuses_step :=
  match goal with
  | |- refuses (mret _) => apply refuses_mret
  | |- refuses (raise _) => apply refuses_raise
  | |- refuses (of_result _) => apply refuses_of_result; intros ? ?
  | |- refuses (with_err _ _) => apply refuses_with_err; intros ?
  | |- refuses (record_if_firing _ _ _ _ _) => apply refuses_record
  | |- refuses (_ ≫= _) => apply refuses_bind; [|intros ?]
  | |- refuses (if ?b then _ else _) => destruct b eqn:?
  | |- refuses (match ?x with _ => _ end) => destruct x eqn:?
  | |- is_refusal _ => done
  end.

Section GuardRefuses.
Context `{!UuidOps, !ChronoOps, !JsonText, !Sha256Ops, !GuardSerde} {S : Type}
  `{HB : StateBackend S}.

Lemma map_err_unavailable {A} (r : result string A) e :
  map_err GuardOutcome.Unavailable r = Err e → is_refusal e.
Proof. destruct r; [done|]. by intros [= <-]. Qed.

Lemma tenant_policy_set_refuses mode id node tenant :
  refuses (tenant_policy_set (S := S) mode id node tenant).
Proof. unfold tenant_policy_set, unparseable_tenant_policy. repeat refuses_step. Qed.

Lemma deadline_or_block_refuses id node sets : refuses (deadline_or_block (S := S) id node sets).
Proof.
  unfold deadline_or_block. repeat refuses_step. apply (refuses_record GuardMode.Fire).
Qed.

Lemma raise_request_refuses id node tenant sl tool approver context dl :
  refuses (raise_request (S := S) id node tenant sl tool approver context dl).
Proof.
  unfold raise_request, Event_new. repeat refuses_step; try (by intros w ? ?).
  by destruct dl; [destruct (stamp_deadline _ _ _)|]; simplify_eq/=.
Qed.

Lemma dispatch_approval_refuses args tenant sets calls approver gated :
  refuses (dispatch_approval (S := S) args tenant sets calls approver gated).
Proof.
  unfold dispatch_approval. repeat refuses_step; try (by eapply map_err_unavailable);
    first [apply deadline_or_block_refuses|apply raise_request_refuses].
Qed.

Lemma guard_dispatch_refuses args : refuses (guard_dispatch_in (S := S) args).
Proof.
  unfold guard_dispatch_in, decide_calls.
  repeat refuses_step; first [apply tenant_policy_set_refuses|apply dispatch_approval_refuses].
Qed.

Lemma guard_policy_refuses args gate esc : refuses (guard_policy (S := S) args gate esc).
Proof.
  unfold guard_policy, own_approval, require_approval, completion_covered.
  repeat refuses_step; try (by eapply map_err_unavailable);
    first [apply tenant_policy_set_refuses|apply deadline_or_block_refuses
          |apply raise_request_refuses|apply guard_dispatch_refuses].
Qed.
End GuardRefuses.

(** ** Letting a node run *)

Section Allow.
Context `{!UuidOps, !ChronoOps, !JsonText, !Sha256Ops, !GuardSerde} {S : Type}
  `{HL : StateBackendLaws S}.

(** The tenant's layer of the policy chain, as it is stored at [w]. *)
Definition tenant_layer (w : world S) (tenant_id : string) (t : option PolicySetIr) : Prop :=
  ∃ tn, (get_tenant (mkTenantId tenant_id) w).1 = Ok tn
    ∧ match policy_set <$> tn with
      | None => t = None
      | Some (Ok set) => t = set
      | Some (Err _) => False
      end.

(** An approval on file covers [payload] as an action of the node, now. *)
Definition approved_now (s : S) (id : ExecutionId) (node_id : string) (node_def : NodeDef)
    (payload : Value) : Prop :=
  ∃ definition, node_definition node_def = Ok definition
    ∧ approval_covers (node_approval_status (view_log s id) node_id)
        (ab_digest (basis_at s id node_id definition payload) node_id) = true.

(** What lets a batch's decision pass: a gated call stands on the node's own
    approval or on one of exactly these calls. *)
Definition decision_passes (s : S) (args : DispatchArgs) (calls : list PendingToolCall)
    (d : DispatchDecision) : Prop :=
  match d with
  | DispatchAllow => True
  | DispatchBlock _ _ => False
  | DispatchRequireApproval _ _ =>
      dg_node_approved args = true
      ∨ latest_request_calls_hash (view_log s (dg_execution_id args)) (dg_node_id args)
          = Some (content_hash (calls_json calls))
        ∧ approved_now s (dg_execution_id args) (dg_node_id args) (dg_node_def args)
            (obj [("calls", calls_json calls)])
  end.

(** The policy chain and the cards let the batch run. *)
Definition batch_permitted (s : S) (args : DispatchArgs) (sets : list PolicySetIr) : Prop :=
  (sets = [] ∧ dg_card_gated args = []) ∨
  ∃ calls, read_pending_tool_calls (dg_payload_input args) = Ok calls
    ∧ decision_passes s args calls
        (with_card_gates (evaluate_dispatch (dg_node_id args) calls sets) (dg_card_gated args)).

Lemma tenant_policy_set_ok mode id node tenant t (w w' : world S) :
  tenant_policy_set mode id node tenant w = (Ok t, w') → w' = w ∧ tenant_layer w tenant t.
Proof.
  unfold tenant_policy_set, tenant_layer. pose proof (law_get_tenant (mkTenantId tenant) w) as Hr.
  destruct (get_tenant _ w) as [[tn|e] w1] eqn:Hg; simpl in Hr; subst w1;
    rewrite (with_err_run _ _ _ _ _ _ Hg); [|done].
  unfold unparseable_tenant_policy. intros Ht.
  destruct (policy_set <$> tn) as [[set|cause]|] eqn:Hp; simpl in Ht.
  - injection Ht as <- <-. split; [done|]. exists tn. by rewrite Hp.
  - by apply bind_ok_inv in Ht as (? & ? & _ & ?).
  - injection Ht as <- <-. split; [done|]. exists tn. by rewrite Hp.
Qed.

(** A continuation that holds whatever came before cannot allow. *)
Lemma held_not_allow {A} (m : eff S GuardOutcome A) (g : list string) w w' :
  (m ≫= λ _, mret (GuardOutcome.Held g)) w ≠ (Ok GuardOutcome.Allow, w').
Proof. intros Hm. by apply bind_ok_inv in Hm as (? & ? & _ & ?). Qed.

Lemma dispatch_approval_allow args tenant sets calls approver gated (w w' : world S) :
  dispatch_approval args tenant sets calls approver gated w = (Ok GuardOutcome.Allow, w') →
  w' = w
  ∧ latest_request_calls_hash (view_log (store w) (dg_execution_id args)) (dg_node_id args)
    = Some (content_hash (calls_json calls))
  ∧ approved_now (store w) (dg_execution_id args) (dg_node_id args) (dg_node_def args)
      (obj [("calls", calls_json calls)]).
Proof.
  unfold dispatch_approval, approved_now.
  rewrite (with_err_run _ _ _ _ _ _ (law_get_events (dg_execution_id args) w)).
  set (st := node_approval_status _ _).
  destruct st as [|p|user seq digest|user comment seq|] eqn:Hst; try done;
    cbn [andb];
    [|case_match eqn:Hhash; [intros Hb; by apply bind_ok_inv in Hb as (? & ? & _ & ?)|]];
    rewrite of_result_run; destruct (node_definition (dg_node_def args)) as [definition|e]; try done;
    cbn [map_err];
    rewrite (with_err_run _ _ _ _ _ _ (action_basis_run _ _ _ _ w));
    (destruct (approval_covers _ _) eqn:Hcov; [|case_match; [done|]; intros Hb;
       apply bind_ok_inv in Hb as (dl & w1 & _ & Hb); by apply held_not_allow in Hb]);
    [done|].
  intros [= <-]. apply negb_false_iff, bool_decide_eq_true in Hhash.
  split; [done|]. split; [done|]. by exists definition.
Qed.

Lemma decide_calls_allow args tenant sets calls (w w' : world S) :
  decide_calls args tenant sets calls w = (Ok GuardOutcome.Allow, w') →
  w' = w ∧ decision_passes (store w) args calls
    (with_card_gates (evaluate_dispatch (dg_node_id args) calls sets) (dg_card_gated args)).
Proof.
  unfold decide_calls, decision_passes. destruct (with_card_gates _ _) as [|tool reason|ap gated].
  - by intros [= <-].
  - intros Hb. by apply bind_ok_inv in Hb as (? & ? & _ & ?).
  - destruct (dg_node_approved args); [intros [= <-]; by auto|].
    intros (-> & ? & ?)%dispatch_approval_allow. auto.
Qed.

Lemma guard_dispatch_allow args (w w' : world S) :
  guard_dispatch_in args w = (Ok GuardOutcome.Allow, w') →
  w' = w ∧ ∃ t, tenant_layer w (dg_tenant_id args) t
    ∧ batch_permitted (store w) args
        (policy_chain t (dg_workflow_policy args) (nd_policy (dg_node_def args))).
Proof.
  unfold guard_dispatch_in. intros (t & w1 & Ht & Hk)%bind_ok_inv.
  apply tenant_policy_set_ok in Ht as [-> Ht].
  set (sets := policy_chain _ _ _) in *.
  enough (w' = w ∧ batch_permitted (store w) args sets) as [-> Hb] by (split; [done|by exists t]).
  unfold batch_permitted.
  destruct (bool_decide (sets = []) && bool_decide (dg_card_gated args = [])) eqn:Hnone.
  { apply andb_true_iff in Hnone as [?%bool_decide_eq_true ?%bool_decide_eq_true].
    injection Hk as <-. split; [done|by left]. }
  destruct (read_pending_tool_calls _) as [calls|cause];
    [|by apply bind_ok_inv in Hk as (? & ? & _ & ?)].
  apply decide_calls_allow in Hk as [-> Hd]. split; [done|]. right. by exists calls.
Qed.
End Allow.

Section AllowItem.
Context `{!UuidOps, !ChronoOps, !JsonText, !Sha256Ops, !GuardSerde} {S : Type}
  `{HL : StateBackendLaws S}.

(** ** What a card that lets a node pass says *)

Lemma check_calls_ok agent allowed blocked gated calls gate gate' :
  check_calls agent allowed blocked gated calls gate = Ok gate' →
  (∀ call, call ∈ calls → call_allowed call allowed = Ok tt ∧ call_named_by call blocked = None)
  ∧ gate_node gate' = gate_node gate ∧ gate_agents gate' = gate_agents gate
  ∧ (∀ n, n ∈ gate_calls gate → n ∈ gate_calls gate')
  ∧ ∀ call, call ∈ calls → is_Some (call_named_by call gated) → pc_name call ∈ gate_calls gate'.
Proof.
  revert gate. induction calls as [|call calls IH]; intros gate; cbn [check_calls].
  { intros [= <-]. split_and!; try done; by intros ? ?%not_elem_of_nil. }
  destruct (call_allowed call allowed) as [[]|[|]] eqn:Ha; try done.
  destruct (call_named_by call blocked) eqn:Hb; [done|].
  set (hit := bool_decide (is_Some (call_named_by call gated)) && _).
  intros (Hall & Hn & Hag & Hkeep & Hg)%IH.
  assert ((hit = true → pc_name call ∈ gate_calls gate')
    ∧ ∀ n, n ∈ gate_calls gate → n ∈ gate_calls gate') as [Hhit Hkeep'].
  { destruct hit; simpl in *; (split; [|intros n Hin; apply Hkeep]); try done.
    - intros _. apply Hkeep, elem_of_app. right. left.
    - apply elem_of_app. by left. }
  split_and!.
  - intros c [->|Hc]%elem_of_cons; [done|by apply Hall].
  - rewrite Hn. by destruct hit.
  - rewrite Hag. by destruct hit.
  - exact Hkeep'.
  - intros c [->|Hc]%elem_of_cons Hs; [|by apply Hg]. unfold hit in Hhit.
    rewrite (bool_decide_eq_true_2 _ Hs) in Hhit. cbn [andb] in Hhit.
    destruct (decide (pc_name call ∈ gate_calls gate)) as [Hin|Hin]; [by apply Hkeep'|].
    apply Hhit. by rewrite bool_decide_eq_false_2.
Qed.

(** [c] lets the node pass, and what it gates is in [gate]. *)
Definition card_permits (args : GuardArgs) (agent_ref : string) (c : AutonomyConstraints)
    (gate : CardGate) : Prop :=
  let k := kind (ga_node_def args) in
  let ctx := from_node_kind (ga_node_id args) k in
  check_delegation ctx agent_ref (allowed_delegations c)
    (delegation_target k (scope_remote_agents (ga_agents args))) = Ok tt
  ∧ (calls_only k = false →
       node_allowed ctx (ac_allowed_tools c) = Ok tt ∧ node_named_by ctx (ac_blocked_tools c) = None
       ∧ (is_Some (node_named_by ctx (ac_require_approval_for c)) → is_Some (gate_node gate)))
  ∧ (is_agent_tool_dispatch k = true →
       (ac_allowed_tools c, ac_blocked_tools c, ac_require_approval_for c) ≠ ([], [], []) →
       ∃ calls, read_pending_tool_calls (payload_input (ga_payload args)) = Ok calls
         ∧ ∀ call, call ∈ calls →
             call_allowed call (ac_allowed_tools c) = Ok tt
             ∧ call_named_by call (ac_blocked_tools c) = None
             ∧ (is_Some (call_named_by call (ac_require_approval_for c)) →
                pc_name call ∈ gate_calls gate)).

(** What later cards keep of a gate. *)
Definition gate_le (g g' : CardGate) : Prop :=
  (is_Some (gate_node g) → is_Some (gate_node g')) ∧ (∀ n, n ∈ gate_calls g → n ∈ gate_calls g').

#[local] Instance gate_le_preorder : PreOrder gate_le.
Proof. split; [by intros ?|]. intros g1 g2 g3 [] []. split; auto. Qed.

Lemma card_permits_le args r c g g' :
  gate_le g g' → card_permits args r c g → card_permits args r c g'.
Proof.
  intros [Hn Hc] (Hd & Ho & Hk). split; [done|]. split.
  - intros Hco. destruct (Ho Hco) as (? & ? & ?). auto.
  - intros Hdis Hl. destruct (Hk Hdis Hl) as (calls & Hr & Hall). exists calls. split; [done|].
    intros call Hin. destruct (Hall call Hin) as (? & ? & ?). auto.
Qed.

Lemma check_own_ok ctx r allowed blocked gated g g' :
  check_own ctx r allowed blocked gated g = Ok g' →
  node_allowed ctx allowed = Ok tt ∧ node_named_by ctx blocked = None
  ∧ (is_Some (node_named_by ctx gated) → is_Some (gate_node g'))
  ∧ gate_le g g' ∧ gate_agents g' = gate_agents g.
Proof.
  unfold check_own. intros (u & Ha & Hk)%result_bind_inv. destruct (node_allowed ctx allowed) as [[]|];
    [|done]. destruct (node_named_by ctx blocked); [done|]. injection Hk as <-. simpl.
  split_and!; [done|done|destruct (gate_node g); eauto| |done].
  split; simpl; [|done]. destruct (gate_node g); [done|by intros []].
Qed.

Lemma check_card_ok args r c g g' :
  check_card (from_node_kind (ga_node_id args) (kind (ga_node_def args))) (ga_node_def args)
    (ga_payload args) (scope_remote_agents (ga_agents args)) r c g = Ok g' →
  card_permits args r c g' ∧ gate_le g g' ∧ gate_agents g' = gate_agents g.
Proof.
  unfold check_card, card_permits. cbv zeta. intros ([] & Hd & Hk)%result_bind_inv.
  set (ctx := from_node_kind _ _) in *.
  set (al := ac_allowed_tools c) in *. set (bl := ac_blocked_tools c) in *.
  set (ga := ac_require_approval_for c) in *.
  destruct (decide ((al, bl, ga) = ([], [], []))) as [[= Ea Eb Eg]|Hne].
  { rewrite Ea, Eb, Eg in *. injection Hk as <-. split; [|done]. split; [done|]. split; [|done].
    intros _. split_and!; try done. by intros []. }
  assert ((g1 ← (if calls_only (kind (ga_node_def args)) then Ok g else check_own ctx r al bl ga g);
    if is_agent_tool_dispatch (kind (ga_node_def args)) then
      calls ← map_err unreadable_rule (read_pending_tool_calls (payload_input (ga_payload args)));
      check_calls r al bl ga calls g1 else Ok g1) = Ok g') as Hk'.
  { by destruct al, bl, ga. }
  clear Hk. apply result_bind_inv in Hk' as (g1 & Hown & Hcalls).
  assert (gate_le g g1 ∧ gate_agents g1 = gate_agents g
    ∧ (calls_only (kind (ga_node_def args)) = false → node_allowed ctx al = Ok tt
       ∧ node_named_by ctx bl = None ∧ (is_Some (node_named_by ctx ga) → is_Some (gate_node g1))))
    as (Hle & Hag & Ho).
  { destruct (calls_only _); [by injection Hown as <-|].
    apply check_own_ok in Hown as (? & ? & ? & ? & ?). auto. }
  clear Hown. destruct (is_agent_tool_dispatch _); [|by injection Hcalls as <-].
  apply result_bind_inv in Hcalls as (calls & Hr & Hcalls).
  destruct (read_pending_tool_calls _) as [calls'|]; [|done]. injection Hr as ->.
  apply check_calls_ok in Hcalls as (Hall & Hn & Hag' & Hkeep & Hg).
  split_and!; [done| | |etransitivity; [done|split; [by rewrite Hn|done]]|congruence].
  - intros Hc. destruct (Ho Hc) as (? & ? & ?). rewrite Hn. auto.
  - intros _ _. exists calls. split; [done|]. intros call Hin. destruct (Hall call Hin). auto.
Qed.

Lemma foldl_refs (refs : list string) : ∀ acc, NoDup acc →
  NoDup (foldl (λ refs r, if decide (r ∈ refs) then refs else refs ++ [r]) acc refs).
Proof.
  induction refs as [|r refs IH]; intros acc Hnd; simpl; [done|]. apply IH.
  case_decide as Hr; [done|]. apply NoDup_app. split_and!; [done| |apply NoDup_singleton].
  by intros x Hx ->%list_elem_of_singleton.
Qed.

Lemma agent_refs_nodup w n : NoDup (agent_refs w n).
Proof. apply foldl_refs. constructor. Qed.

Lemma card_loop_ok args get refs : ∀ gate gate' (w w' : world S),
  card_loop args get refs gate w = (Ok gate', w') →
  w' = w ∧ gate_le gate gate' ∧ (gate_agents gate').*1 = (gate_agents gate).*1 ++ refs
  ∧ (∀ x, x ∈ gate_agents gate → x ∈ gate_agents gate')
  ∧ ∀ r, r ∈ refs → ∃ agent, get r = Ok (Some agent)
      ∧ (r, constraints (card agent)) ∈ gate_agents gate'
      ∧ ∀ c, constraints (card agent) = Some c → card_permits args r c gate'.
Proof.
  induction refs as [|r refs IH]; intros gate gate' w w'; cbn [card_loop].
  { intros [= <- <-]. rewrite app_nil_r. split_and!; try done. by intros ? ?%not_elem_of_nil. }
  destruct (get r) as [[agent|]|e] eqn:Hr; try done;
    [|intros Hb; by apply bind_ok_inv in Hb as (? & ? & _ & ?)].
  set (g1 := {| gate_node := _ |}). intros Hloop.
  assert (∃ g2, card_loop args get refs g2 w = (Ok gate', w') ∧ gate_le gate g2
    ∧ gate_agents g2 = gate_agents g1
    ∧ ∀ c, constraints (card agent) = Some c → card_permits args r c g2) as (g2 & Hl2 & Hle & Hag & Hc).
  { destruct (constraints (card agent)) as [c|]; [|by exists g1].
    destruct (check_card _ _ _ _ r c g1) as [g2|rule] eqn:Hk;
      [|by apply bind_ok_inv in Hloop as (? & ? & _ & ?)].
    apply check_card_ok in Hk as (? & ? & ?). exists g2. split_and!; [done..|]. by intros ? [= <-]. }
  apply IH in Hl2 as (-> & Hle' & Hag' & Hin & Hall). split; [done|]. split; [by etransitivity|].
  rewrite Hag', Hag. unfold g1. simpl. rewrite fmap_app, <- (assoc_L (++)). split; [done|].
  assert (∀ x, x ∈ gate_agents g1 → x ∈ gate_agents gate') as Hin1 by (rewrite <- Hag; apply Hin).
  split; [intros x Hx; apply Hin1, elem_of_app; by left|].
  intros r' [->|Hr']%elem_of_cons; [|by apply Hall]. exists agent. split; [done|]. split.
  - apply Hin1, elem_of_app. right. by apply list_elem_of_singleton.
  - intros c Hcs. by eapply card_permits_le, Hc.
Qed.

(** Every agent the node acts for has a registered card, which lets it pass. *)
Definition cards_permit (args : GuardArgs) (gate : CardGate) : Prop :=
  ∀ r, r ∈ agent_refs (workflow_agent (ga_agents args)) (nd_agent_ref (ga_node_def args)) →
    ∃ get agent, registry (ga_agents args) = Some get ∧ get r = Ok (Some agent)
      ∧ (r, constraints (card agent)) ∈ gate_agents gate
      ∧ ∀ c, constraints (card agent) = Some c → card_permits args r c gate.

Lemma agent_card_ok args gate (w w' : world S) :
  agent_card args w = (Ok gate, w') →
  w' = w ∧ cards_permit args gate
  ∧ (gate_agents gate).*1
    = agent_refs (workflow_agent (ga_agents args)) (nd_agent_ref (ga_node_def args)).
Proof.
  unfold agent_card, cards_permit. destruct (agent_refs _ _) as [|r refs] eqn:Hrefs.
  { intros [= <- <-]. split_and!; try done. by intros ? ?%not_elem_of_nil. }
  destruct (registry (ga_agents args)) as [get|];
    [|intros Hb; by apply bind_ok_inv in Hb as (? & ? & _ & ?)].
  intros (-> & _ & Hag & _ & Hall)%card_loop_ok. split_and!; [done| |exact Hag].
  intros r' Hr'. destruct (Hall r' Hr') as (agent & ? & ? & ?). by exists get, agent.
Qed.

(** The agents whose limits hold the node: those of its cards, each once, and
    the agent it calls. *)
Lemma agents_of_node_ok args gate agents (w w' : world S) :
  agents_of_node args gate w = (Ok agents, w') → NoDup (gate_agents gate).*1 →
  w' = w ∧ NoDup agents.*1 ∧ (∀ x, x ∈ gate_agents gate → x ∈ agents)
  ∧ ∀ c, callee (registry (ga_agents args)) (kind (ga_node_def args)) = Ok (Some c) →
      c.1 ∈ agents.*1.
Proof.
  unfold agents_of_node. rewrite of_result_run. destruct (callee _ _) as [[c|]|e]; [| |done].
  - intros [= <- <-] Hnd. split; [done|]. case_decide as Hc.
    + split_and!; [done..|]. by intros ? [= <-].
    + rewrite fmap_app. split_and!.
      * apply NoDup_app. split_and!; [done| |apply NoDup_singleton].
        by intros x Hx ->%list_elem_of_singleton.
      * intros x Hx. apply elem_of_app. by left.
      * intros ? [= <-]. apply elem_of_app. right. by apply list_elem_of_singleton.
  - intros [= <- <-] Hnd. split_and!; done.
Qed.

(** ** The policy chain and the approvals *)

Lemma tenant_layer_inj w tenant t t' : tenant_layer w tenant t → tenant_layer w tenant t' → t = t'.
Proof.
  unfold tenant_layer. intros (tn & Hg & Ht) (tn' & Hg' & Ht'). rewrite Hg in Hg'.
  injection Hg' as <-. destruct (policy_set <$> tn) as [[|]|]; simpl in *; by subst.
Qed.

Lemma require_approval_allow id node def payload tool approver context dl tenant sl esc
    (w w' : world S) :
  require_approval id node def payload tool approver context dl tenant sl esc w
    = (Ok GuardOutcome.Allow, w') →
  w' = w ∧ approved_now (store w) id node def payload
  ∧ (esc = true → is_Some (unused_escalation (view_log (store w) id) node)).
Proof.
  unfold require_approval, approved_now. rewrite (with_err_run _ _ _ _ _ _ (law_get_events id w)).
  destruct (node_approval_status (view_log (store w) id) node) eqn:Hst; try done;
    (rewrite of_result_run; destruct (node_definition def) as [definition|e]; [|done]; cbn [map_err];
     rewrite (with_err_run _ _ _ _ _ _ (action_basis_run _ _ _ _ w));
     destruct (approval_covers _ _ && _) eqn:Hcov;
     [|intros Hb; by apply held_not_allow in Hb]).
  - done.
  - intros [= <-]. apply andb_true_iff in Hcov as [Hcov Hesc]. split; [done|]. split.
    + by exists definition.
    + intros ->. by apply bool_decide_eq_true in Hesc.
Qed.

Lemma deadline_or_block_ok id node sets dl (w w' : world S) :
  deadline_or_block id node sets w = (Ok dl, w') → w' = w.
Proof.
  unfold deadline_or_block. destruct (resolve sets); [by intros [= _ <-]|].
  intros Hb. by apply bind_ok_inv in Hb as (? & ? & _ & ?).
Qed.

(** What [per_call] gives the dispatch guard. *)
Definition dispatch_args (args : GuardArgs) (card_calls : list string) (approved : bool)
    : DispatchArgs := {|
  dg_mode := ga_mode args; dg_execution_id := ga_execution_id args;
  dg_node_id := ga_node_id args; dg_tenant_id := ga_tenant_id args;
  dg_workflow_policy := ga_workflow_policy args; dg_node_def := ga_node_def args;
  dg_payload_input := payload_input (ga_payload args); dg_node_approved := approved;
  dg_sealer := ga_sealer args; dg_card_gated := card_calls |}.

(** The chain's decision on the node's own names, the cards' gate and an
    escalation added. *)
Definition node_decision (args : GuardArgs) (gate : CardGate) (esc : option Escalation)
    (sets : list PolicySetIr) : PolicyDecision :=
  gated_decision (match sets with
    | [] => Allow
    | _ => evaluate (from_node_kind (ga_node_id args) (kind (ga_node_def args))) sets end)
    (gate_node gate) esc.

(** The chain lets the node run: it does not block it, an approval of this very
    action is on file if one is asked for, an escalated step's is unused, and
    a dispatch node's calls pass. *)
Definition policy_permits (s : S) (args : GuardArgs) (gate : CardGate) (esc : option Escalation)
    (sets : list PolicySetIr) : Prop :=
  let id := ga_execution_id args in
  let is_dispatch := is_agent_tool_dispatch (kind (ga_node_def args)) in
  match node_decision args gate esc sets with
  | Allow => is_dispatch = true → batch_permitted s (dispatch_args args (gate_calls gate) false) sets
  | Block _ => False
  | RequireApproval _ =>
      approved_now s id (ga_node_id args) (ga_node_def args) (ga_payload args)
      ∧ (is_Some esc → is_Some (unused_escalation (view_log s id) (ga_node_id args)))
      ∧ (is_dispatch = true → batch_permitted s (dispatch_args args (gate_calls gate) true) sets)
  end.

Lemma per_call_allow args calls approved t (w w' : world S) :
  per_call args calls approved w = (Ok GuardOutcome.Allow, w') →
  tenant_layer w (ga_tenant_id args) t →
  w' = w ∧ batch_permitted (store w) (dispatch_args args calls approved)
    (policy_chain t (ga_workflow_policy args) (nd_policy (ga_node_def args))).
Proof.
  intros (-> & t' & Ht' & Hb)%(guard_dispatch_allow (dispatch_args args calls approved)) Ht.
  by rewrite (tenant_layer_inj _ _ _ _ Ht Ht').
Qed.

Lemma guard_policy_allow args gate esc (w w' : world S) :
  ga_mode args = GuardMode.Fire →
  guard_policy args gate esc w = (Ok GuardOutcome.Allow, w') →
  w' = w ∧ ∃ t, tenant_layer w (ga_tenant_id args) t
    ∧ policy_permits (store w) args gate esc
        (policy_chain t (ga_workflow_policy args) (nd_policy (ga_node_def args))).
Proof.
  intros Hfire. unfold guard_policy. intros (t & w1 & Ht & Hk)%bind_ok_inv.
  apply tenant_policy_set_ok in Ht as [-> Ht].
  set (sets := policy_chain _ _ _) in *.
  enough (w' = w ∧ policy_permits (store w) args gate esc sets) as [-> Hp] by (split; [done|by exists t]).
  unfold policy_permits. fold (node_decision args gate esc sets) in Hk.
  destruct (node_decision args gate esc sets) as [|reason|approver].
  - destruct (is_agent_tool_dispatch _); [|by injection Hk as <-].
    eapply per_call_allow in Hk as [-> Hb]; [|exact Ht]. done.
  - by apply bind_ok_inv in Hk as (? & ? & _ & ?).
  - apply bind_ok_inv in Hk as (o & w1 & Hown & Hk).
    destruct o; try done. unfold own_approval in Hown. rewrite Hfire in Hown.
    apply bind_ok_inv in Hown as (dl & w2 & ->%deadline_or_block_ok & Hown).
    apply require_approval_allow in Hown as (-> & Happ & Hesc).
    assert (is_Some esc → is_Some (unused_escalation
      (view_log (store w) (ga_execution_id args)) (ga_node_id args))) as Hesc'
      by (intros Hs; by apply Hesc, bool_decide_eq_true).
    destruct (is_agent_tool_dispatch _); [|by injection Hk as <-].
    eapply per_call_allow in Hk as [-> Hb]; [|exact Ht]. done.
Qed.

(** ** The whole guard *)

(** The tool calls a step counts: the batch of a dispatch node, and one of its own
    for a node that calls a tool or chooses its target at run time. *)
Definition counts_calls (args : GuardArgs) (n : Z) : Prop :=
  let k := kind (ga_node_def args) in
  let ctx := from_node_kind (Ir.id (ga_node_def args)) k in
  ∃ batch own : Z, n = Z.min u32_max (batch + own)
    ∧ (if is_agent_tool_dispatch k
       then ∃ calls, read_pending_tool_calls (payload_input (ga_payload args)) = Ok calls
              ∧ batch = Z.of_nat (length calls)
       else batch = 0)
    ∧ (own = 1 ∧ calls_only k = false
         ∧ (is_Some (tool_name ctx) ∨ node_kind_tag ctx ∈ RUN_TIME_TARGET_TAGS)
       ∨ own = 0 ∧ (calls_only k = true
         ∨ tool_name ctx = None ∧ node_kind_tag ctx ∉ RUN_TIME_TARGET_TAGS)).

Lemma step_tool_calls_counts args n :
  NodeGuard.step_tool_calls (ga_node_def args) (ga_payload args) = Ok n → counts_calls args n.
Proof.
  unfold NodeGuard.step_tool_calls, counts_calls. cbv zeta.
  set (k := kind (ga_node_def args)). set (ctx := from_node_kind _ k).
  set (own := negb (calls_only k) && _).
  intros (batch & Hb & [= <-])%result_bind_inv. unfold u32_sat_add.
  assert ((if own then 1 else 0) = 1 ∧ calls_only k = false
      ∧ (is_Some (tool_name ctx) ∨ node_kind_tag ctx ∈ RUN_TIME_TARGET_TAGS)
    ∨ (if own then 1 else 0) = 0 ∧ (calls_only k = true
         ∨ tool_name ctx = None ∧ node_kind_tag ctx ∉ RUN_TIME_TARGET_TAGS)) as Hown.
  { subst own. destruct (calls_only k); [right; by auto|]. cbn [negb andb].
    destruct (bool_decide (is_Some _) || _) eqn:Ho; [left|right].
    - apply orb_true_iff in Ho as [Ho%bool_decide_eq_true|Ho%bool_decide_eq_true]; auto.
    - apply orb_false_iff in Ho as [Hn%bool_decide_eq_false Ht%bool_decide_eq_false].
      split; [done|]. right. split; [by destruct (tool_name ctx); [destruct Hn|]|done]. }
  assert (0 ≤ (if own then 1 else 0)) by (destruct own; lia). clearbody own.
  destruct (is_agent_tool_dispatch k).
  - destruct (read_pending_tool_calls _) as [calls|e]; [|done]. injection Hb as <-.
    exists (Z.of_nat (length calls)), (if own then 1 else 0). split_and!; [|by exists calls|done].
    unfold u32_max in *. lia.
  - injection Hb as <-. exists 0, (if own then 1 else 0). split_and!; [|done..]. done.
Qed.

(** What the limits of the node's agents leave behind: nothing where it acts for
    none; else exactly the admitted step in the run's log, and nothing elsewhere.
    The step was planned at this time on the counters of the whole run with all
    the node's calls counted: every agent's limits let it pass, or the one that
    escalates it had an approval no other step used. *)
Definition step_admitted (args : GuardArgs) (agents : Agents) (esc : option Escalation)
    (w : world S) (s' : S) : Prop :=
  let id := ga_execution_id args in
  let s := store w in
  (agents = [] ∧ esc = None ∧ s' = s) ∨
  ∃ calls chain earlier ledger seq e,
    counts_calls args calls
    ∧ (segment_chain id w).1 = Ok chain ∧ planned_on s id chain earlier ledger
    ∧ (let step := {| Policy.step_tool_calls := calls |} in
       match esc with
       | None => ∀ ag, ag ∈ agents → agent_check ledger step (clock w) ag = Proceed
       | Some esc => fail_stop ledger agents step (clock w) = false
           ∧ (∃ c, (esc_agent esc, c) ∈ agents ∧ on_limit c = EscalateToHuman
               ∧ esc_decision esc = agent_check ledger step (clock w) (esc_agent esc, c)
               ∧ esc_decision esc ≠ Proceed)
           ∧ unused_escalation (view_log s id) (ga_node_id args) = seq ∧ is_Some seq
       end)
    ∧ (esc = None ↔ seq = None)
    ∧ event_kind e = EventKind.AgentStepAdmitted (ga_node_id args) (ga_work_item_id args)
        agents.*1 calls seq
    ∧ view_log s' id = view_log s id ++ [e]
    ∧ (∀ i, i ≠ id → view_log s' i = view_log s i) ∧ same_runs s s'.

(** The plan of a firing step, and what it was made on. *)
Definition planned (args : GuardArgs) (agents : Agents) (p : Plan) (w : world S) : Prop :=
  let id := ga_execution_id args in
  pl_agents p = agents ∧ pl_now p = clock w
  ∧ counts_calls args (Policy.step_tool_calls (pl_step p))
  ∧ ∃ chain ledger, (segment_chain id w).1 = Ok chain
      ∧ planned_on (store w) id chain (pl_earlier p) ledger
      ∧ match pl_escalation p with
        | None => ∀ ag, ag ∈ agents → agent_check ledger (pl_step p) (clock w) ag = Proceed
        | Some esc => fail_stop ledger agents (pl_step p) (clock w) = false
            ∧ ∃ c, (esc_agent esc, c) ∈ agents ∧ on_limit c = EscalateToHuman
              ∧ esc_decision esc = agent_check ledger (pl_step p) (clock w) (esc_agent esc, c)
              ∧ esc_decision esc ≠ Proceed
        end.

Lemma step_plan_fire args agents p (w w' : world S) :
  ga_mode args = GuardMode.Fire → step_plan args agents w = (Ok p, w') →
  w' = w ∧ match p with None => agents = [] | Some p => planned args agents p w end.
Proof.
  intros Hfire. unfold step_plan. destruct agents as [|ag agents]; [by intros [= <- <-]|].
  rewrite Hfire, of_result_run. destruct (NodeGuard.step_tool_calls _ _) as [calls|e] eqn:Hcalls; [|done].
  cbn [map_err]. intros (pl & w1 & Hp & Hk)%bind_ok_inv. injection Hk as <- <-.
  pose proof (plan_correct (ga_execution_id args) (ga_node_id args) (ag :: agents) calls w) as Hplan.
  cbv zeta in Hplan. rewrite Hp in Hplan.
  destruct Hplan as (-> & Ha & Hst & Hnow & chain & ledger & Hch & Hon & Hlim).
  split; [done|]. unfold planned. rewrite Hst. cbn [Policy.step_tool_calls].
  split_and!; [done|done|by apply step_tool_calls_counts|]. by exists chain, ledger.
Qed.

(** An admitted step's entry, from its plan. *)
Lemma admitted_from_plan args agents p (w w' : world S) :
  planned args agents p w →
  admit_step (ga_execution_id args) (ga_node_id args) (ga_work_item_id args) p w
    = (Ok GuardOutcome.Allow, w') →
  step_admitted args agents (pl_escalation p) w (store w').
Proof.
  intros (Ha & Hnow & Hcalls & chain & ledger & Hch & Hon & Hlim) Hk. right.
  pose proof (admit_correct (ga_execution_id args) (ga_node_id args) (ga_work_item_id args) p w)
    as Had. rewrite Hk in Had.
  destruct Had as (Hruns & Hother & seq & e & Hesc & Hok & He & Hl).
  exists (Policy.step_tool_calls (pl_step p)), chain, (pl_earlier p), ledger, seq, e.
  rewrite <- Ha. destruct (pl_step p) as [n] eqn:Hn. cbn [Policy.step_tool_calls] in *.
  split_and!; try done. destruct (pl_escalation p) as [esc|]; [|by rewrite Ha].
  destruct Hlim as [Hfs Hc]. rewrite Ha. split_and!; [done|done| |].
  - unfold still_allowed in Hok. destruct Hon as [_ ->] in Hok.
    destruct seq as [seq|]; [|by pose proof (proj2 Hesc eq_refl)].
    by apply andb_true_iff in Hok as [?%bool_decide_eq_true _].
  - destruct seq; [by eauto|by pose proof (proj2 Hesc eq_refl)].
Qed.

Lemma guard_tail_allow args gate agents p (w w' : world S) :
  ga_mode args = GuardMode.Fire →
  match p with None => agents = [] | Some p => planned args agents p w end →
  guard_tail args gate p w = (Ok GuardOutcome.Allow, w') →
  (∃ t, tenant_layer w (ga_tenant_id args) t
    ∧ policy_permits (store w) args gate (p ≫= pl_escalation)
        (policy_chain t (ga_workflow_policy args) (nd_policy (ga_node_def args))))
  ∧ step_admitted args agents (p ≫= pl_escalation) w (store w').
Proof.
  intros Hfire Hp. unfold guard_tail. intros (before & w1 & Hb & Hk)%bind_ok_inv.
  assert (w1 = w) as ->.
  { destruct (p ≫= pl_escalation); [|by injection Hb].
    rewrite (with_err_run _ _ _ _ _ _ (law_latest_sequence _ _)) in Hb. by injection Hb. }
  apply bind_ok_inv in Hk as (o & w2 & Ho & Hk). apply bind_ok_inv in Hk as (u & w3 & Hs & Hk).
  assert (o = GuardOutcome.Allow) as ->.
  { destruct o, p; try done. }
  assert (w3 = w2) as -> by (destruct (p ≫= pl_escalation), before; by injection Hs).
  assert (guard_policy args gate (p ≫= pl_escalation) w = (Ok GuardOutcome.Allow, w2)
    ∨ guard_policy args gate (p ≫= pl_escalation) w = (Err GuardOutcome.Allow, w2)) as [Hg|Hg].
  { unfold settle in Ho. destruct (guard_policy _ _ _ w) as [[]]; injection Ho as <- <-; auto. }
  2:{ by destruct (guard_policy_refuses _ _ _ _ _ _ Hg). }
  apply guard_policy_allow in Hg as (-> & Hpol); [|done]. split; [done|].
  destruct p as [p|]; [by apply admitted_from_plan|]. left. by injection Hk as <-.
Qed.

End AllowItem.

(** ** Holding a node *)

Section Held.
Context `{!UuidOps, !ChronoOps, !JsonText, !Sha256Ops, !GuardSerde} {S : Type}
  `{HL : StateBackendLaws S}.

(** Somebody can answer for the node: a request is open, or was rejected. *)
Definition outstanding (s : S) (id : ExecutionId) (node_id : string) : Prop :=
  match node_approval_status (view_log s id) node_id with
  | Pending _ | StatusRejected _ _ _ => True
  | _ => False
  end.

(** Events that say nothing about an approval leave a node's status alone. *)
Definition inert (e : Event) : Prop := is_stop (event_kind e) ∨ is_seal_gap (event_kind e).

Lemma status_inert log evs node :
  Forall inert evs → node_approval_status (log ++ evs) node = node_approval_status log node.
Proof.
  intros Hevs. rewrite !node_approval_status_spec.
  assert (has_unreadable_events evs = false ∧ ∀ st, foldl (approval_step node) st evs = st)
    as [Hu Hf].
  { induction Hevs as [|e evs He _ [IHu IHf]]; [done|]. simpl. rewrite IHu, orb_false_r. split.
    - unfold inert, is_unknown in *. by destruct (event_kind e), He.
    - intros st. rewrite <- (IHf st) at 2. f_equal. unfold inert, approval_step in *.
      by destruct (event_kind e), He. }
  unfold has_unreadable_events in *. by rewrite existsb_app, Hu, orb_false_r, foldl_app, Hf.
Qed.

Lemma outstanding_inert s s' id node evs :
  view_log s' id = view_log s id ++ evs → Forall inert evs →
  outstanding s id node → outstanding s' id node.
Proof. intros El Hevs. unfold outstanding. by rewrite El, status_inert. Qed.

(** A raised request is appended with its context, the deadline aside; what
    follows it in the log says nothing about approvals. *)
Lemma raise_request_log id node tenant sl tool approver context dl (w w' : world S) :
  raise_request id node tenant sl tool approver context dl w = (Ok tt, w') →
  ∃ ctx req evs,
    match dl with Some d => stamp_deadline context d (clock w) = Ok ctx | None => ctx = context end
    ∧ event_kind req = EventKind.ToolApprovalRequired node tool approver (Object ctx)
    ∧ view_log (store w') id = view_log (store w) id ++ req :: evs
    ∧ Forall (λ e, is_seal_gap (event_kind e)) evs.
Proof.
  unfold raise_request. rewrite bind_now, of_result_run. intros Hr.
  destruct (match dl with Some d => _ | None => Ok context end) as [ctx|e] eqn:Hctx; [|done].
  unfold Event_new in Hr. rewrite bind_assoc, bind_new_v4, bind_assoc, bind_now, bind_mret in Hr.
  match type of Hr with context [record_request sl ?e _] => set (ev := e) in Hr end.
  set (w1 := World _ _ _) in Hr.
  unfold with_err at 1 in Hr. destruct (record_request sl ev tenant w1) as [[u|e] w2] eqn:Hrec; [|done].
  injection Hr as _ <-. unfold record_request in Hrec.
  destruct (append_event ev w1) as [r w3] eqn:Happ. rewrite (with_err_run _ _ _ _ _ _ Happ) in Hrec.
  destruct r as [seq|e]; [|done]. apply law_append_event in Happ as [_ Hlog].
  specialize (Hlog id). simpl in Hlog. rewrite decide_True in Hlog by done.
  assert (journals is_seal_gap id (store w3) (store w2)) as (_ & (evs & Hevs & HF) & _).
  { pose proof (journals_seal is_seal_gap id sl ev seq tenant (λ k Hk, Hk) eq_refl w3) as Hj.
    unfold with_err in Hrec. destruct (seal_appended sl ev seq tenant w3). by injection Hrec as _ <-. }
  exists ctx, (set_sequence ev seq), evs. split_and!; [|done| |exact HF].
  - destruct dl as [d|]; [|by injection Hctx as ->].
    destruct (stamp_deadline context d (clock w)); simpl in Hctx; congruence.
  - by rewrite Hevs, Hlog, <- app_assoc.
Qed.

(** A raised request is open. *)
Lemma raised_status log node tool approver context req evs :
  has_unreadable_events log = false →
  event_kind req = EventKind.ToolApprovalRequired node tool approver context →
  Forall (λ e, is_seal_gap (event_kind e)) evs →
  node_approval_status (log ++ req :: evs) node
  = Pending (from_request node tool approver context (sequence req)).
Proof.
  intros Hun Hk Hevs. change (req :: evs) with ([req] ++ evs). rewrite (assoc_L _), status_inert.
  2:{ eapply Forall_impl; [exact Hevs|]. intros e He. by right. }
  rewrite node_approval_status_spec. unfold has_unreadable_events in *.
  rewrite existsb_app, Hun, foldl_app. simpl. unfold approval_step at 1, is_unknown. rewrite Hk. simpl.
  by rewrite decide_True by done.
Qed.

Lemma raise_request_outstanding id node tenant sl tool approver context dl (w w' : world S) :
  raise_request id node tenant sl tool approver context dl w = (Ok tt, w') →
  has_unreadable_events (view_log (store w) id) = false → outstanding (store w') id node.
Proof.
  intros (ctx & req & evs & _ & Hk & Hl & Hevs)%raise_request_log Hun.
  unfold outstanding. by rewrite Hl, (raised_status _ _ _ _ _ _ _ Hun Hk Hevs).
Qed.

Lemma readable_log log node :
  node_approval_status log node ≠ Indeterminate → has_unreadable_events log = false.
Proof. rewrite node_approval_status_spec. by destruct (has_unreadable_events log). Qed.

Lemma asked_held id node tenant sl tool approver context sets g g' (w w' : world S) :
  (dl ← deadline_or_block id node sets;
   raise_request id node tenant sl tool approver context dl ≫= λ _, mret (GuardOutcome.Held g)) w
    = (Ok (GuardOutcome.Held g'), w') →
  has_unreadable_events (view_log (store w) id) = false → outstanding (store w') id node.
Proof.
  intros (dl & w1 & ->%deadline_or_block_ok & Hk)%bind_ok_inv Hun.
  apply bind_ok_inv in Hk as ([] & w2 & Hr & Hk). injection Hk as _ <-.
  by eapply raise_request_outstanding.
Qed.

Lemma dispatch_approval_held args tenant sets calls approver gated g (w w' : world S) :
  dg_mode args = GuardMode.Fire →
  dispatch_approval args tenant sets calls approver gated w = (Ok (GuardOutcome.Held g), w') →
  outstanding (store w') (dg_execution_id args) (dg_node_id args).
Proof.
  intros Hfire. unfold dispatch_approval.
  rewrite (with_err_run _ _ _ _ _ _ (law_get_events (dg_execution_id args) w)).
  pose proof (readable_log (view_log (store w) (dg_execution_id args)) (dg_node_id args)) as Hun.
  destruct (node_approval_status _ _) eqn:Hst; try done;
    try (intros [= _ <-]; unfold outstanding; by rewrite Hst); specialize (Hun ltac:(done));
    cbn [andb]; try (destruct (negb _); [intros Hb; by apply bind_ok_inv in Hb as (? & ? & _ & ?)|]);
    rewrite of_result_run; destruct (node_definition _) as [definition|e]; try done; cbn [map_err];
    rewrite (with_err_run _ _ _ _ _ _ (action_basis_run _ _ _ _ w));
    (destruct (approval_covers _ _); [done|]); rewrite bool_decide_eq_true_2 by done; cbn [negb];
    intros Hk; by eapply asked_held.
Qed.

Lemma guard_dispatch_held args g (w w' : world S) :
  dg_mode args = GuardMode.Fire →
  guard_dispatch_in args w = (Ok (GuardOutcome.Held g), w') →
  outstanding (store w') (dg_execution_id args) (dg_node_id args).
Proof.
  intros Hfire. unfold guard_dispatch_in. intros (t & w1 & [-> _]%tenant_policy_set_ok & Hk)%bind_ok_inv.
  destruct (_ && _); [done|]. destruct (read_pending_tool_calls _) as [calls|cause];
    [|by apply bind_ok_inv in Hk as (? & ? & _ & ?)].
  unfold decide_calls in Hk. destruct (with_card_gates _ _) as [|tool reason|approver gated]; [done| |].
  - by apply bind_ok_inv in Hk as (? & ? & _ & ?).
  - destruct (dg_node_approved args); [done|]. by eapply dispatch_approval_held.
Qed.

Lemma own_approval_held args sets tool approver esc g (w w' : world S) :
  ga_mode args = GuardMode.Fire →
  own_approval args sets tool approver esc w = (Ok (GuardOutcome.Held g), w') →
  outstanding (store w') (ga_execution_id args) (ga_node_id args).
Proof.
  intros Hfire. unfold own_approval. rewrite Hfire.
  intros (dl & w1 & ->%deadline_or_block_ok & Hk)%bind_ok_inv. unfold require_approval in Hk.
  rewrite (with_err_run _ _ _ _ _ _ (law_get_events (ga_execution_id args) w)) in Hk.
  pose proof (readable_log (view_log (store w) (ga_execution_id args)) (ga_node_id args)) as Hun.
  destruct (node_approval_status _ _) eqn:Hst; try done;
    try (injection Hk as _ <-; unfold outstanding; by rewrite Hst); specialize (Hun ltac:(done));
    rewrite of_result_run in Hk; destruct (node_definition _) as [definition|e]; try done;
    cbn [map_err] in Hk; rewrite (with_err_run _ _ _ _ _ _ (action_basis_run _ _ _ _ w)) in Hk;
    (destruct (approval_covers _ _ && _); [done|]);
    apply bind_ok_inv in Hk as ([] & w2 & Hr & Hk); injection Hk as _ <-;
    by eapply raise_request_outstanding.
Qed.

Lemma guard_policy_held args gate esc g (w w' : world S) :
  ga_mode args = GuardMode.Fire →
  guard_policy args gate esc w = (Ok (GuardOutcome.Held g), w') →
  outstanding (store w') (ga_execution_id args) (ga_node_id args).
Proof.
  intros Hfire. unfold guard_policy. intros (t & w1 & [-> _]%tenant_policy_set_ok & Hk)%bind_ok_inv.
  destruct (gated_decision _ _ _) as [|reason|approver].
  - destruct (is_agent_tool_dispatch _); [|done].
    by apply (guard_dispatch_held (dispatch_args args (gate_calls gate) false)) in Hk.
  - by apply bind_ok_inv in Hk as (? & ? & _ & ?).
  - apply bind_ok_inv in Hk as (o & w2 & Hown & Hk). destruct o; try done.
    + destruct (is_agent_tool_dispatch _); [|done].
      by apply (guard_dispatch_held (dispatch_args args (gate_calls gate) true)) in Hk.
    + injection Hk as _ <-. by eapply own_approval_held.
Qed.

(** C11: A node held by a firing check is never held invisibly: whatever made the
    guard hold it, the run's log then has a request for the node that is open,
    or one that was rejected and the scheduler has yet to act on. *)
Theorem guard_held_outstanding (args : GuardArgs) (w w' : world S) (g : list string)
    (Hfire : ga_mode args = GuardMode.Fire)
    (Hheld : guard_item args w = (Ok (GuardOutcome.Held g), w')) :
  outstanding (store w') (ga_execution_id args) (ga_node_id args).
Proof.
  rewrite guard_item_eq in Hheld. apply bind_ok_inv in Hheld as (gate & w1 & _ & Hk).
  apply bind_ok_inv in Hk as (agents & w2 & _ & Hk). apply bind_ok_inv in Hk as (p & w3 & _ & Hk).
  clear w w1 w2. unfold guard_tail in Hk. apply bind_ok_inv in Hk as (before & w4 & _ & Hk).
  apply bind_ok_inv in Hk as (o & w5 & Ho & Hk). apply bind_ok_inv in Hk as (u & w6 & Hs & Hk).
  destruct o as [|reason|gated|reason]; try done.
  { destruct p as [p|]; [|done].
    pose proof (admit_correct (ga_execution_id args) (ga_node_id args) (ga_work_item_id args) p w6)
      as Had. rewrite Hk in Had. by destruct Had as (_ & _ & ?). }
  assert (w6 = w') as -> by (by destruct p; injection Hk).
  assert (outstanding (store w5) (ga_execution_id args) (ga_node_id args)) as Hout.
  { unfold settle in Ho. destruct (guard_policy _ _ _ w4) as [[o|o] w5'] eqn:Hg;
      injection Ho as -> ->; [by eapply guard_policy_held|].
    by destruct (guard_policy_refuses _ _ _ _ _ _ Hg). }
  enough (journals is_stop (ga_execution_id args) (store w5) (store w')) as (_ & (evs & El & HF) & _).
  { eapply outstanding_inert; [exact El| |done]. eapply Forall_impl; [exact HF|]. by left. }
  destruct (p ≫= pl_escalation) as [e|], before as [before|]; try (injection Hs as _ <-; reflexivity).
  rewrite (bind_run _ _ _ _ _ (raised_since_run args before w5)) in Hs.
  destruct (existsb _ _); [|injection Hs as _ <-; reflexivity].
  pose proof (record_stop_journals (ga_execution_id args) (ga_node_id args) (esc_agent e)
    (esc_decision e) (Some "human_approval") w5) as Hj. by rewrite Hs in Hj.
Qed.
End Held.

(** The whole guard raises nothing but refusals: what it allows, it answers. *)
Section Raises.
Context `{!UuidOps, !ChronoOps, !JsonText, !Sha256Ops, !GuardSerde} {S : Type}
  `{HL : StateBackendLaws S}.

Lemma refuses_never {A} (m : eff S GuardOutcome A) : (∀ w, is_ok (m w).1 = true) → refuses m.
Proof. intros Hm w e w' Hrun. specialize (Hm w). by rewrite Hrun in Hm. Qed.

Lemma refuse_refuses {A} args rule : refuses (refuse (S := S) (A := A) args rule).
Proof. unfold refuse. repeat refuses_step. Qed.

Lemma agent_card_refuses args : refuses (agent_card (S := S) args).
Proof.
  unfold agent_card. repeat refuses_step; try apply refuse_refuses.
  match goal with |- refuses (card_loop _ ?g ?r ?gate) => generalize r, gate end.
  intros refs. induction refs as [|ref refs IH]; intros gate; cbn [card_loop]; [apply refuses_mret|].
  repeat case_match; try apply refuse_refuses; try by apply refuses_raise. all: apply IH.
Qed.

Lemma agents_of_node_refuses args gate : refuses (agents_of_node (S := S) args gate).
Proof.
  unfold agents_of_node. repeat refuses_step. unfold callee in *. repeat case_match; by simplify_eq.
Qed.

Lemma plan_refuses id node agents calls : refuses (plan (S := S) id node agents calls).
Proof.
  intros w e w' Hp. pose proof (plan_correct id node agents calls w) as Hpl. cbv zeta in Hpl.
  rewrite Hp in Hpl. by destruct e.
Qed.

Lemma step_plan_refuses args agents : refuses (step_plan (S := S) args agents).
Proof.
  unfold step_plan, completion_admitted.
  repeat refuses_step; try apply plan_refuses. by destruct (NodeGuard.step_tool_calls _ _); simplify_eq/=.
Qed.

Lemma never_bind {E A B} (m : eff S E A) (k : A → eff S E B) :
  (∀ w, is_ok (m w).1 = true) → (∀ a w, is_ok (k a w).1 = true) →
  ∀ w, is_ok ((m ≫= k) w).1 = true.
Proof.
  intros Hm Hk w. specialize (Hm w). unfold mbind, eff_bind.
  destruct (m w) as [[a|e] w1]; [apply Hk|done].
Qed.
Lemma record_stop_never id node agent d target w :
  is_ok (record_stop (S := S) id node agent d target w).1 = true.
Proof.
  unfold record_stop. destruct (stop_kind _ _ _) as [[stop reason]|]; [|done].
  cbv zeta. match goal with |- context [for_each ?l _] => generalize l end. intros kinds. revert w.
  induction kinds as [|k kinds IH]; intros w; [done|]. cbn [for_each].
  apply never_bind; [|intros _; exact IH]. apply never_bind; [by intros|intros ev].
  apply never_bind; [|by intros]. intros w1. unfold as_result. by destruct (append_event ev w1).
Qed.

Lemma guard_tail_refuses args gate p : refuses (guard_tail (S := S) args gate p).
Proof.
  unfold guard_tail. repeat refuses_step.
  - apply refuses_never. intros w. unfold settle. by destruct (guard_policy _ _ _ w) as [[] ?].
  - apply refuses_never. intros w. by rewrite raised_since_run.
  - apply refuses_never. intros w. apply record_stop_never.
  - unfold admit_step, release, Event_new. repeat refuses_step; apply refuses_never; intros w; [done..|].
    unfold as_result. by destruct (append_event_if _ _ w).
Qed.

Lemma guard_item_refuses args : refuses (guard_item (S := S) args).
Proof.
  rewrite guard_item_eq. repeat refuses_step;
    [apply agent_card_refuses|apply agents_of_node_refuses|apply step_plan_refuses|apply guard_tail_refuses].
Qed.
End Raises.

(** ** Samples *)

Module GuardSample.
#[local] Existing Instances plain_uuid milli_chrono code_json plain_sha256.
#[local] Existing Instances Sample.order_exec Sample.order_item Sample.order_tenant
  Sample.order_pair.

(** Serializers that keep a node's id and its kind's tag. *)
Definition plain_serde : GuardSerde := {|
  policy_from_value v := Ok PolicySetIr_default;
  node_def_to_value d := Ok (obj [("id", Str (Ir.id d))]);
  node_kind_to_value k := Str (node_kind_tag_of k);
  policy_to_value p := Null;
  str_debug s := s |}.
#[local] Existing Instance plain_serde.

Definition pay_node : NodeDef := {|
  Ir.id := "pay"; kind := NodeKind.Tool "wire" ∅ ""; retry_policy := None;
  node_timeout_secs := None; nd_description := None; nd_labels := ∅; nd_policy := None;
  nd_data_policy := None; nd_agent_ref := Some "ann" |}.

Definition ann : Agent := {|
  ag_id := 1%N; ag_status := AgentStatus.Active; registered_at := 0; ag_updated_at := 0;
  last_heartbeat := None;
  card := {| card_id := "c"; uri := "ann"; card_name := "n"; card_description := "";
    card_version := "1"; autonomy := AutonomyLevel.Guided; auth := AuthSpec.NoAuth;
    capabilities := {| skills := []; protocols := []; tools_provided := []; tools_consumed := [] |};
    constraints := Some {|
      max_iterations := Some 2; max_tool_calls := None; ac_token_budget := None;
      ac_cost_budget_usd := None; ac_allowed_tools := ["wire"; "search_*"]; ac_blocked_tools := [];
      allowed_delegations := []; ac_require_approval_for := []; time_budget_secs := None;
      max_consecutive_errors := None; on_limit_exceeded := None |};
    latency_class := None; cost_class := None; reasoning_modes := []; card_labels := ∅ |} |}.

Definition item (policy : option PolicySetIr) : GuardArgs := {|
  ga_mode := GuardMode.Fire; ga_execution_id := SegmentSample.root; ga_node_id := "pay";
  ga_tenant_id := "default"; ga_workflow_policy := policy; ga_node_def := pay_node;
  ga_payload := obj [("input", obj [("x", num 1)])]; ga_sealer := None;
  ga_agents := {| workflow_agent := None; scope_remote_agents := None;
                  registry := Some (λ u, Ok (if decide (u = "ann") then Some ann else None)) |};
  ga_work_item_id := Some 9%N |}.

Definition gate_wire : PolicySetIr := {|
  blocked_tools := []; require_approval_for := ["wire"]; model_allowlist := [];
  approval_timeout_secs := None; escalate_after_secs := None |}.

Abbreviation started := SegmentSample.started (only parsing).


Lemma held_witness :
  let args := item (Some gate_wire) in
  let w' := (guard_item args started).2 in
  outstanding (store w') SegmentSample.root "pay"
  ∧ (guard_item args w').1 = Ok (GuardOutcome.Held ["wire"]).
Proof.
  intros args w'.
  assert ((guard_item args started).1 = Ok (GuardOutcome.Held ["wire"])) as Hok
    by (vm_compute; reflexivity).
  split; [|vm_compute; reflexivity].
  exact (guard_held_outstanding args started w' ["wire"] eq_refl
    (injective_projections _ (_, _) Hok eq_refl)).
Defined.

(** A completion of the same item writes nothing. *)
Lemma writes_witness :
  let args := item (Some gate_wire) in
  journals guard_kind SegmentSample.root (store started) (store (guard_item args started).2).
Proof. intros args. exact (guard_item_writes args started). Defined.
End GuardSample.
