(* ===== verification/Redaction.v ===== *)
(** * Redaction of personal data ([policy/src/redaction.rs])

    Field paths and pattern detectors over JSON, and what is left at a path a
    policy names. Regular expressions are the [regex] crate's. *)

From S2P Require Import Prelude.
From S2P Require Import Json.
From S2P Require Import RustStr.
From S2P Require Import Core.
From S2P Require Import Condition.
From S2P Require Import Ir.
From S2P Require Import Hashing.
From Stdlib Require Import Ascii.

Class RegexOps := {
  Regex : Type;
  regex_new : string → option Regex;
  (** [replace_all(text, |caps| f(caps[0]))]. *)
  replace_all : Regex → string → (string → string) → string;
}.

Module RedactionMode.
Inductive RedactionMode := Mask | Hash | Remove.

Definition parse (s : string) : RedactionMode :=
  if decide (s = "hash") then Hash else if decide (s = "remove") then Remove else Mask.
End RedactionMode.
Abbreviation RedactionMode := RedactionMode.RedactionMode.
#[export] Instance RedactionMode_eq_dec : EqDecision RedactionMode.
Proof. solve_decision. Defined.

Definition builtin_pattern (name : string) : option string :=
  if decide (name = "email") then Some "[a-zA-Z0-9._%+-]+@[a-zA-Z0-9.-]+\.[a-zA-Z]{2,}"
  else if decide (name = "ssn") then Some "\b\d{3}-\d{2}-\d{4}\b"
  else if decide (name = "credit_card") then Some "\b\d{4}[- ]?\d{4}[- ]?\d{4}[- ]?\d{4}\b"
  else if decide (name = "phone")
  then Some "\b\+?1?[-.\s]?\(?\d{3}\)?[-.\s]?\d{3}[-.\s]?\d{4}\b"
  else if decide (name = "ip_address") then Some "\b\d{1,3}\.\d{1,3}\.\d{1,3}\.\d{1,3}\b"
  else None.

Section Redactor.
Context `{!RegexOps, !JsonText, !Sha256Ops}.

Record PiiRedactor := {
  detectors : list Regex;
  field_paths : list (list string);
  mode : RedactionMode;
}.

(** [$.patient.ssn] is [patient], then [ssn]. *)
Definition field_path (p : string) : list string :=
  split_char "." match strip_prefix "$." p with Some s => s | None => p end.

Definition from_policy (policy : DataPolicyIr) : PiiRedactor := {|
  detectors := omap (λ name, p ← builtin_pattern name; regex_new p) (pii_detectors policy);
  field_paths := field_path <$> pii_fields policy;
  mode := RedactionMode.parse (redaction_mode policy) |}.

Definition is_active (self : PiiRedactor) : bool :=
  negb (bool_decide (length (detectors self) = 0%nat)) || negb (bool_decide (field_paths self = [])).

(** The pseudonym of a text. *)
Definition pseudonym (original : string) : string :=
  "[HASH:" +:+ hex (take 8 (Sha256_digest (bytes original))) +:+ "]".

Definition redact_value (m : RedactionMode) (original : string) : string :=
  match m with
  | RedactionMode.Mask => "[REDACTED]"
  | RedactionMode.Hash => pseudonym original
  | RedactionMode.Remove => ""
  end.

Definition redact_str (self : PiiRedactor) (s : string) : string :=
  foldl (λ result d, replace_all d result (redact_value (mode self))) s (detectors self).

Definition apply_redaction (m : Map) (key : string) (md : RedactionMode) : Map :=
  match md with
  | RedactionMode.Remove => map_remove key m
  | RedactionMode.Mask =>
      if map_contains key m then map_insert key (Str "[REDACTED]") m else m
  | RedactionMode.Hash =>
      match map_get key m with
      | Some v =>
          let original := match v with Str s => s | other => json_to_string other end in
          map_insert key (Str (pseudonym original)) m
      | None => m
      end
  end.

(** [values_mut] with [f] on every value; [get_mut] of one key. *)
Definition map_values (f : Value → Value) (m : Map) : Map := (λ kv, (kv.1, f kv.2)) <$> m.
Definition map_alter (f : Value → Value) (key : string) (m : Map) : Map :=
  (λ kv, if decide (kv.1 = key) then (kv.1, f kv.2) else kv) <$> m.

Fixpoint redact_at_path (path : list string) (md : RedactionMode) (value : Value) : Value :=
  match path, value with
  | [], _ => value
  | [key], Object m =>
      if decide (key = "*") then Object (foldl (λ m k, apply_redaction m k md) m m.*1)
      else Object (apply_redaction m key md)
  | key :: rest, Object m =>
      if decide (key = "*") then Object (map_values (redact_at_path rest md) m)
      else Object (map_alter (redact_at_path rest md) key m)
  | _, _ => value
  end.

Fixpoint redact_strings_recursive (self : PiiRedactor) (value : Value) : Value :=
  match value with
  | Str s => Str (redact_str self s)
  | Object m =>
      Object ((fix go m := match m with
        | [] => []
        | (k, v) :: m => (k, redact_strings_recursive self v) :: go m
        end) m)
  | Array l =>
      Array ((fix go l := match l with
        | [] => []
        | v :: l => redact_strings_recursive self v :: go l
        end) l)
  | _ => value
  end.

(** The field-path pass of [redact_json]. *)
Definition redact_fields (self : PiiRedactor) (value : Value) : Value :=
  foldl (λ result path, redact_at_path path (mode self) result) value (field_paths self).

Definition redact_json (self : PiiRedactor) (value : Value) : Value :=
  let result := redact_fields self value in
  match detectors self with
  | [] => result
  | _ => redact_strings_recursive self result
  end.

(** ** Paths *)

(** The value at a path of keys. *)
Fixpoint get_path (q : list string) (v : Value) : option Value :=
  match q with
  | [] => Some v
  | k :: q => x ← get k v; get_path q x
  end.

(** A policy's path names [q]: keys equal, [*] any key. *)
Definition path_matches (p q : list string) : Prop :=
  p ≠ [] ∧ Forall2 (λ x k, x = "*" ∨ x = k) p q.

(** What a redacted value may be. *)
Definition redacted_form (md : RedactionMode) (v : Value) : Prop :=
  match md with
  | RedactionMode.Mask => v = Str "[REDACTED]"
  | RedactionMode.Hash => ∃ original, v = Str (pseudonym original)
  | RedactionMode.Remove => False
  end.

(** The value at [q] is gone or redacted. *)
Definition cleared (md : RedactionMode) (q : list string) (v : Value) : Prop :=
  match get_path q v with Some x => redacted_form md x | None => True end.

Lemma get_map_values f m k : map_get k (map_values f m) = f <$> map_get k m.
Proof. induction m as [|[k' v] m IH]; simpl; [done|]. by case_decide. Qed.
Lemma get_map_alter f key m k :
  map_get k (map_alter f key m) = if decide (k = key) then f <$> map_get k m else map_get k m.
Proof.
  induction m as [|[k' v] m IH]; simpl; [by case_decide|].
  destruct (decide (k' = key)) as [->|]; simpl; repeat case_decide; subst; done.
Qed.

Lemma apply_redaction_get m key md k :
  map_get k (apply_redaction m key md) =
  if decide (k = key) then
    match md, map_get k m with
    | RedactionMode.Mask, Some _ => Some (Str "[REDACTED]")
    | RedactionMode.Hash, Some v =>
        Some (Str (pseudonym match v with Str s => s | other => json_to_string other end))
    | _, _ => None
    end
  else map_get k m.
Proof.
  unfold apply_redaction, map_contains. destruct md.
  - destruct (map_get key m) eqn:Hk; rewrite ?map_get_insert; case_decide; subst; rewrite ?Hk; done.
  - destruct (map_get key m) eqn:Hk; rewrite ?map_get_insert; case_decide; subst; rewrite ?Hk; done.
  - rewrite map_get_remove. by repeat case_decide; subst.
Qed.

(** One redacted key: its value is cleared, or was so and stays. *)
Definition key_cleared (md : RedactionMode) (k : string) (m : Map) : Prop :=
  match map_get k m with Some v => redacted_form md v | None => True end.

Lemma apply_redaction_clears m k md : key_cleared md k (apply_redaction m k md).
Proof.
  unfold key_cleared. rewrite apply_redaction_get, decide_True by done.
  destruct md, (map_get k m); simpl; eauto.
Qed.

Lemma apply_redaction_keeps m key md k :
  key_cleared md k m → key_cleared md k (apply_redaction m key md).
Proof.
  intros Hk. destruct (decide (k = key)) as [->|Hne]; [apply apply_redaction_clears|].
  unfold key_cleared. by rewrite apply_redaction_get, decide_False.
Qed.

Lemma redact_all_keys md : ∀ (keys : list string) (m' : Map),
  (∀ k, k ∉ keys → is_Some (map_get k m') → key_cleared md k m') →
  ∀ k, key_cleared md k (foldl (λ m k, apply_redaction m k md) m' keys).
Proof.
  induction keys as [|key keys IH]; simpl; intros m' Hm k.
  - unfold key_cleared. destruct (map_get k m') eqn:Hk; [|done].
    pose proof (Hm k (not_elem_of_nil _) (mk_is_Some _ _ Hk)) as Hc. unfold key_cleared in Hc.
    by rewrite Hk in Hc.
  - apply IH. intros k' Hk' Hs. destruct (decide (k' = key)) as [->|Hne].
    + apply apply_redaction_clears.
    + rewrite apply_redaction_get, decide_False in Hs by done. apply apply_redaction_keeps, Hm; [set_solver|done].
Qed.

Lemma key_cleared_path md k q m : key_cleared md k m → cleared md (k :: q) (Object m).
Proof.
  unfold key_cleared, cleared. simpl. destruct (map_get k m) as [v|]; [|done]. simpl. intros Hv.
  destruct q as [|k' q]; [exact Hv|]. destruct md; simpl in Hv; [by subst| |done].
  destruct Hv as [original ->]. done.
Qed.

Lemma cleared_cons md k q m :
  cleared md (k :: q) (Object m) ↔ match map_get k m with Some x => cleared md q x | None => True end.
Proof. unfold cleared. simpl. by destruct (map_get k m). Qed.

Lemma redacted_not_object md v : redacted_form md v → is_object v = false.
Proof. destruct md; simpl; [by intros ->|by intros [? ->]|done]. Qed.

Lemma redact_at_last key md m :
  redact_at_path [key] md (Object m) =
  if decide (key = "*") then Object (foldl (λ m k, apply_redaction m k md) m m.*1)
  else Object (apply_redaction m key md).
Proof. done. Qed.

Lemma redact_at_cons key rest md m :
  rest ≠ [] → redact_at_path (key :: rest) md (Object m) =
  if decide (key = "*") then Object (map_values (redact_at_path rest md) m)
  else Object (map_alter (redact_at_path rest md) key m).
Proof. by destruct rest. Qed.

Lemma redact_at_scalar p md v : is_object v = false → redact_at_path p md v = v.
Proof. by destruct p as [|? []], v. Qed.

Lemma redact_star_clears md m k :
  key_cleared md k (foldl (λ m k, apply_redaction m k md) m m.*1).
Proof.
  apply redact_all_keys. intros k' Hk' [v Hv]. destruct Hk'. apply map_get_elem in Hv.
  apply list_elem_of_fmap. by exists (k', v).
Qed.

Lemma redact_clears md p : ∀ q v, path_matches p q → cleared md q (redact_at_path p md v).
Proof.
  induction p as [|key rest IH]; intros q v [Hne Hm]; [done|].
  apply Forall2_cons_inv_l in Hm as (k & q' & Hk & Hm & ->).
  destruct (is_object v) eqn:Ho; [|rewrite redact_at_scalar by done; by destruct v].
  destruct v as [| | | | |m]; try done.
  destruct (decide (rest = [])) as [->|Hrest].
  - apply Forall2_nil_inv_l in Hm as ->. rewrite redact_at_last.
    case_decide as Hs; apply key_cleared_path; [apply redact_star_clears|].
    destruct Hk as [?| ->]; [done|]. apply apply_redaction_clears.
  - rewrite redact_at_cons by done. case_decide as Hs; rewrite cleared_cons.
    + rewrite get_map_values. destruct (map_get k m) as [x|]; [|done]. by apply IH.
    + destruct Hk as [?| ->]; [done|]. rewrite get_map_alter, decide_True by done.
      destruct (map_get k m) as [x|]; [|done]. by apply IH.
Qed.

Lemma redact_keeps md p : ∀ q v, cleared md q v → cleared md q (redact_at_path p md v).
Proof.
  induction p as [|key rest IH]; intros q v Hc; [done|].
  destruct (is_object v) eqn:Ho; [|by rewrite redact_at_scalar].
  destruct v as [| | | | |m]; try done.
  destruct q as [|k q]; [by apply redacted_not_object in Hc|].
  destruct (decide (rest = [])) as [->|Hrest].
  - rewrite redact_at_last. case_decide as Hs; [apply key_cleared_path, redact_star_clears|].
    destruct (decide (k = key)) as [->|Hne]; [apply key_cleared_path, apply_redaction_clears|].
    rewrite cleared_cons in Hc |- *. by rewrite apply_redaction_get, decide_False.
  - rewrite redact_at_cons by done. rewrite cleared_cons in Hc.
    case_decide as Hs; rewrite cleared_cons, ?get_map_values, ?get_map_alter;
      try case_decide; destruct (map_get k m) as [x|]; simpl; auto.
Qed.

Lemma redact_untouched md p : ∀ q v x,
  (∀ q1, q1 `prefix_of` q → ¬ path_matches p q1) →
  get_path q v = Some x → is_object x = false → get_path q (redact_at_path p md v) = Some x.
Proof.
  induction p as [|key rest IH]; intros q v x Hno Hx Hs; [done|].
  destruct (is_object v) eqn:Ho; [|by rewrite redact_at_scalar].
  destruct v as [| | | | |m]; try done. destruct q as [|k q]; [by injection Hx as <-|].
  assert (∀ q1, q1 `prefix_of` q → key = "*" ∨ key = k → ¬ Forall2 (λ x k, x = "*" ∨ x = k) rest q1)
    as Hrest.
  { intros q1 Hp Hk Hm. apply (Hno (k :: q1)); [by apply prefix_cons|]. split; [done|].
    by constructor. }
  simpl in Hx. destruct (map_get k m) as [y|] eqn:Hy; [|done]. simpl in Hx.
  destruct (decide (rest = [])) as [->|Hne].
  - specialize (Hrest [] (prefix_nil _)). rewrite redact_at_last.
    rewrite decide_False by (intros ->; apply Hrest; auto). simpl.
    rewrite apply_redaction_get, decide_False by (intros ->; apply Hrest; auto). by rewrite Hy.
  - rewrite redact_at_cons by done.
    case_decide as Hstar; simpl; rewrite ?get_map_values, ?get_map_alter; [|case_decide as Hk];
      rewrite ?Hy; simpl; try done; apply IH; try done; intros q1 Hp [_ Hm];
      eapply Hrest; eauto.
Qed.

(** After the field-path pass, whatever a policy's path names (with [*] standing
    for any key) is gone or redacted in the policy's mode, also when several
    paths overlap; and a value no path names, nor lies above, is unchanged. *)
Theorem redact_fields_correct (self : PiiRedactor) (v : Value) (q : list string) :
  ((∃ p, p ∈ field_paths self ∧ path_matches p q) →
   cleared (mode self) q (redact_fields self v))
  ∧ (∀ x, get_path q v = Some x → is_object x = false →
     (∀ p q1, p ∈ field_paths self → q1 `prefix_of` q → ¬ path_matches p q1) →
     get_path q (redact_fields self v) = Some x).
Proof.
  unfold redact_fields. split.
  - intros (p & Hp & Hm). revert v. induction (field_paths self) as [|p' ps IH]; intros v;
      [by apply not_elem_of_nil in Hp|]. simpl.
    apply elem_of_cons in Hp as [->|Hp]; [|by apply IH].
    clear IH. generalize (redact_clears (mode self) p' q v Hm).
    generalize (redact_at_path p' (mode self) v) as v'. induction ps as [|p ps IH]; [done|].
    intros v' Hv'. simpl. by apply IH, redact_keeps.
  - intros x Hx Hs Hno. revert v Hx. induction (field_paths self) as [|p ps IH]; intros v Hx; [done|].
    simpl. apply IH; [intros; apply Hno; [by right|done]|].
    apply redact_untouched; [|done|done]. intros q1 Hq1. apply Hno; [left|done].
Qed.

(** A path does not descend into arrays. *)
Example array_elements_keep_fields :
  let policy := {| pii_fields := ["patients.ssn"; "patients.*.ssn"]; pii_detectors := [];
    redaction_mode := "mask"; retain_prompts := true; retain_outputs := true;
    retention_days := None |} in
  let v := obj [("patients", Array [obj [("ssn", Str "1")]])] in
  redact_json (from_policy policy) v = v.
Proof. reflexivity. Qed.
End Redactor.
