(* ===== verification/AuditLog.v ===== *)
(** * The audit log ([audit/src/entry.rs], [signer.rs], [chain.rs], [enricher.rs],
    [backend.rs], [sqlite.rs])

    Entries, their content hash and signature, the chain they form, how an
    event becomes a sealed entry, and verification. The cryptographic
    primitives and the hexadecimal decoder are libraries'. *)

From S2P Require Import Prelude.
From S2P Require Import Json.
From S2P Require Import RustStr.
From S2P Require Import Core.
From S2P Require Import Condition.
From S2P Require Import Ir.
From S2P Require Import Event.
From S2P Require Import Hashing.
From S2P Require Import Redaction.
From Stdlib Require Import Ascii.

Module ActorType.
Inductive ActorType := Human | Agent | System.

Definition as_str (a : ActorType) : string :=
  match a with Human => "human" | Agent => "agent" | System => "system" end.

(** [parse_actor_type] of the store. *)
Definition parse (s : string) : ActorType :=
  if decide (s = "human") then Human else if decide (s = "agent") then Agent else System.
End ActorType.
Abbreviation ActorType := ActorType.ActorType.
#[export] Instance ActorType_eq_dec : EqDecision ActorType.
Proof. solve_decision. Defined.

Record AuditLogEntry := {
  ae_id : Uuid;
  ae_event_id : Uuid;
  ae_execution_id : string;
  ae_sequence : Z;
  ae_event_type : string;
  ae_actor_id : string;
  ae_actor_type : ActorType;
  tool_call_hash : option string;
  policy_decision : option string;
  http_request_id : option string;
  http_method : option string;
  http_path : option string;
  ip_address : option string;
  ae_created_at : DateTime;
  raw_event : Value;
  ae_tenant_id : string;
  ae_expires_at : option DateTime;
  redacted : bool;
  prev_hash : option string;
  entry_hash : option string;
  signature : option string;
}.

(** ** Signing *)

Class CryptoOps := {
  hmac_sha256 : list N → list N → list N;
  SigningKey : Type;
  VerifyingKey : Type;
  signing_key_from_bytes : list N → SigningKey;
  verifying_key : SigningKey → VerifyingKey;
  verifying_key_bytes : VerifyingKey → list N;
  (** [VerifyingKey::from_bytes], on 32 bytes. *)
  verifying_key_from_bytes : list N → option VerifyingKey;
  is_weak : VerifyingKey → bool;
  ed25519_sign : SigningKey → list N → list N;
  verify_strict : VerifyingKey → list N → list N → bool;
  hex_decode : string → option (list N);
  from_utf8 : list N → option string;
}.

Definition ED25519_SIG_SPEC : string := "jamjet.audit.entry/v1".
Definition ED25519_SIG_PREFIX : string := "ed25519:".
Definition DEV_DEFAULT_KEY : string :=
  "jamjet-insecure-dev-audit-signing-key-set-JAMJET_AUDIT_SIGNING_KEY-in-prod".

Inductive KeyError :=
| MalformedSeed (source : string) | Ambiguous | Missing | KeyFileUnreadable (msg : string)
| BadPublicKey.

Section Signer.
Context `{!CryptoOps, !JsonText, !Sha256Ops}.

Inductive Key :=
| KeyNone
| Hmac (key : list N)
| Ed25519Signing (key : SigningKey) (kid : string)
| Ed25519Verifying (key : VerifyingKey) (kid : string).

Record AuditSigner := { sg_key : Key; is_dev_key : bool }.

Definition ed25519_kid (public_key : list N) : string :=
  str_take 16 (hex (Sha256_digest public_key)).

Definition ed25519_statement (entry_hash kid : string) : list N :=
  bytes (json_to_string (obj [("alg", Str "Ed25519"); ("entry_hash", Str entry_hash);
    ("kid", Str kid); ("spec", Str ED25519_SIG_SPEC)])).

Definition signer_new (key : list N) : AuditSigner := {| sg_key := Hmac key; is_dev_key := false |}.
Definition unsigned : AuditSigner := {| sg_key := KeyNone; is_dev_key := false |}.
Definition ed25519 (seed : list N) : AuditSigner :=
  let key := signing_key_from_bytes seed in
  {| sg_key := Ed25519Signing key (ed25519_kid (verifying_key_bytes (verifying_key key)));
     is_dev_key := false |}.

Definition parse_seed (text source : string) : result KeyError (list N) :=
  let text := trim text in
  if negb (str_len text =? 64) then Err (MalformedSeed source)
  else ok_or (MalformedSeed source) (hex_decode text).

Definition ed25519_verifier (public_key : list N) : result KeyError AuditSigner :=
  if negb (length public_key =? 32)%nat then Err BadPublicKey
  else
    key ← ok_or BadPublicKey (verifying_key_from_bytes public_key);
    if is_weak key then Err BadPublicKey
    else Ok {| sg_key := Ed25519Verifying key (ed25519_kid public_key); is_dev_key := false |}.

(** What [from_env] reads: the variables, and the key file's contents. *)
Record SignerEnv := {
  signing_mode : option string;
  signing_key : option string;
  allow_insecure_key : option string;
  ed25519_key : option string;
  ed25519_key_file : option string;
  read_key_file : string → result string string;
}.

Definition non_empty (v : option string) : option string :=
  match v with Some s => if str_is_empty s then None else Some s | None => None end.

Definition hmac_from_env (env : SignerEnv) : AuditSigner :=
  match non_empty (signing_key env) with
  | Some key => signer_new (bytes key)
  | None =>
      match non_empty (allow_insecure_key env) with
      | Some _ => {| sg_key := Hmac (bytes DEV_DEFAULT_KEY); is_dev_key := true |}
      | None => unsigned
      end
  end.

Definition ed25519_from_env (env : SignerEnv) : result KeyError AuditSigner :=
  seed ← match non_empty (ed25519_key env), non_empty (ed25519_key_file env) with
    | Some _, Some _ => Err Ambiguous
    | None, None => Err Missing
    | Some text, None => parse_seed text "JAMJET_AUDIT_ED25519_KEY"
    | None, Some path =>
        text ← map_err KeyFileUnreadable (read_key_file env path);
        parse_seed text "JAMJET_AUDIT_ED25519_KEY_FILE"
    end;
  Ok (ed25519 seed).

(** [lower] is [to_ascii_lowercase]. *)
Definition signer_from_env (lower : string → string) (env : SignerEnv) : AuditSigner :=
  let mode := lower (trim (default "" (signing_mode env))) in
  if bool_decide (mode = "") || bool_decide (mode = "hmac") then hmac_from_env env
  else if decide (mode = "ed25519") then
    match ed25519_from_env env with Ok signer => signer | Err _ => unsigned end
  else unsigned.

Definition can_sign (self : AuditSigner) : bool :=
  match sg_key self with Hmac _ | Ed25519Signing _ _ => true | _ => false end.

Definition sign (self : AuditSigner) (data : list N) : option string :=
  match sg_key self with
  | KeyNone | Ed25519Verifying _ _ => None
  | Hmac key => Some (hex (hmac_sha256 key data))
  | Ed25519Signing key kid =>
      entry_hash ← from_utf8 data;
      Some (ED25519_SIG_PREFIX +:+ kid +:+ ":" +:+ hex (ed25519_sign key (ed25519_statement entry_hash kid)))
  end.

Definition verify_ed25519 (key : VerifyingKey) (kid : string) (data : list N) (signature : string)
    : bool :=
  match strip_prefix ED25519_SIG_PREFIX signature with
  | None => false
  | Some rest =>
      match split_once ":" rest with
      | None => false
      | Some (sig_kid, sig_hex) =>
          if decide (sig_kid ≠ kid) then false
          else match hex_decode sig_hex with
          | None => false
          | Some raw =>
              if negb (length raw =? 64)%nat then false
              else match from_utf8 data with
              | None => false
              | Some entry_hash => verify_strict key (ed25519_statement entry_hash kid) raw
              end
          end
      end
  end.

Definition verify (self : AuditSigner) (data : list N) (signature : string) : bool :=
  match sg_key self with
  | KeyNone => false
  | Hmac key =>
      match hex_decode signature with
      | None => false
      | Some expected => bool_decide (hmac_sha256 key data = expected)
      end
  | Ed25519Signing key kid => verify_ed25519 (verifying_key key) kid data signature
  | Ed25519Verifying key kid => verify_ed25519 key kid data signature
  end.
End Signer.
#[global] Arguments AuditSigner {_}.

(** ** Content hashes *)

Definition FIELD_SEP : N := 31.

(** [Uuid::as_bytes]: 16 bytes, big end first. [i64::to_le_bytes]: 8 bytes,
    little end first. *)
Fixpoint le_bytes (n : nat) (z : Z) : list N :=
  match n with
  | O => []
  | Datatypes.S n => Z.to_N (z `mod` 256) :: le_bytes n (z `div` 256)
  end.
Definition uuid_bytes (u : Uuid) : list N := reverse (le_bytes 16 (Z.of_N u)).
Definition i64_bytes (z : Z) : list N := le_bytes 8 (z `mod` 2 ^ 64).

Section Content.
Context `{!ChronoOps, !JsonText, !Sha256Ops}.

Definition or_empty (o : option string) : string := default "" o.

(** The fields hashed, in order. *)
Definition content_fields (self : AuditLogEntry) (prev : option string) : list (list N) :=
  [uuid_bytes (ae_id self); uuid_bytes (ae_event_id self); bytes (ae_execution_id self);
   i64_bytes (ae_sequence self); bytes (ae_event_type self); bytes (ae_actor_id self);
   bytes (ActorType.as_str (ae_actor_type self)); bytes (or_empty (tool_call_hash self));
   bytes (or_empty (policy_decision self)); bytes (or_empty (http_request_id self));
   bytes (or_empty (http_method self)); bytes (or_empty (http_path self));
   bytes (or_empty (ip_address self)); bytes (rfc3339 (ae_created_at self));
   bytes (json_to_string (raw_event self)); bytes (ae_tenant_id self);
   bytes (or_empty (rfc3339 <$> ae_expires_at self)); [if redacted self then 1%N else 0%N];
   bytes (or_empty prev)].

(** Each field followed by the separator. *)
Definition separated_fields (fields : list (list N)) : list N :=
  concat ((λ f, f ++ [FIELD_SEP]) <$> fields).

Definition entry_content_hash (self : AuditLogEntry) (prev : option string) : string :=
  sha256_hex (separated_fields (content_fields self prev)).
End Content.

(** Chained: its three derived fields set. *)
Definition with_seal (self : AuditLogEntry) (prev : option string) (hash : string)
    (sg : option string) : AuditLogEntry := {|
  ae_id := ae_id self; ae_event_id := ae_event_id self; ae_execution_id := ae_execution_id self;
  ae_sequence := ae_sequence self; ae_event_type := ae_event_type self;
  ae_actor_id := ae_actor_id self; ae_actor_type := ae_actor_type self;
  tool_call_hash := tool_call_hash self; policy_decision := policy_decision self;
  http_request_id := http_request_id self; http_method := http_method self;
  http_path := http_path self; ip_address := ip_address self; ae_created_at := ae_created_at self;
  raw_event := raw_event self; ae_tenant_id := ae_tenant_id self;
  ae_expires_at := ae_expires_at self; redacted := redacted self;
  prev_hash := prev; entry_hash := Some hash; signature := sg |}.

Section Chain.
Context `{!CryptoOps, !ChronoOps, !JsonText, !Sha256Ops}.

(** [AuditLogEntry::seal]. *)
Definition seal (self : AuditLogEntry) (prev : option string) (signer : AuditSigner)
    : AuditLogEntry :=
  let hash := entry_content_hash self prev in
  with_seal self prev hash (sign signer (bytes hash)).

Inductive ChainError :=
| Unsealed (index : Z) | Unsigned (index : Z) | BrokenLink (index : Z) | HashMismatch (index : Z)
| BadSignature (index : Z).

Definition chain_error_index (e : ChainError) : Z :=
  match e with
  | Unsealed i | Unsigned i | BrokenLink i | HashMismatch i | BadSignature i => i
  end.

Definition verify_entry (entry : AuditLogEntry) (signer : AuditSigner) : result ChainError unit :=
  hash ← ok_or (Unsealed 0) (entry_hash entry);
  sg ← ok_or (Unsigned 0) (signature entry);
  if decide (entry_content_hash entry (prev_hash entry) ≠ hash) then Err (HashMismatch 0)
  else if negb (verify signer (bytes hash) sg) then Err (BadSignature 0)
  else Ok tt.

(** One turn of the loop: the hash the next entry must link to. *)
Definition verify_step (signer : AuditSigner) (prev : option string) (index : Z)
    (entry : AuditLogEntry) : result ChainError string :=
  hash ← ok_or (Unsealed index) (entry_hash entry);
  sg ← ok_or (Unsigned index) (signature entry);
  if decide (prev_hash entry ≠ prev) then Err (BrokenLink index)
  else if decide (entry_content_hash entry (prev_hash entry) ≠ hash) then Err (HashMismatch index)
  else if negb (verify signer (bytes hash) sg) then Err (BadSignature index)
  else Ok hash.

Fixpoint verify_from (signer : AuditSigner) (prev : option string) (index : Z)
    (entries : list AuditLogEntry) : result ChainError unit :=
  match entries with
  | [] => Ok tt
  | entry :: entries =>
      hash ← verify_step signer prev index entry;
      verify_from signer (Some hash) (index + 1) entries
  end.

Definition verify_chain (entries : list AuditLogEntry) (signer : AuditSigner)
    : result ChainError unit := verify_from signer None 0 entries.
End Chain.

(** ** The enricher *)

Record RequestContext := {
  rc_request_id : option string;
  rc_method : option string;
  rc_path : option string;
  rc_ip : option string;
  rc_actor_id : string;
  rc_actor_type : ActorType;
  rc_tenant_id : string;
  rc_data_policy : option DataPolicyIr;
}.

Definition system_for_tenant (worker_id tenant_id : string) : RequestContext := {|
  rc_request_id := None; rc_method := None; rc_path := None; rc_ip := None;
  rc_actor_id := worker_id; rc_actor_type := ActorType.System; rc_tenant_id := tenant_id;
  rc_data_policy := None |}.
Definition system (worker_id : string) : RequestContext := system_for_tenant worker_id "default".

Definition derive_actor_id (kind : EventKind) (dflt : string) : string :=
  match kind with
  | EventKind.ApprovalReceived _ _ _ _ _ (Some principal) _ _ => principal
  | EventKind.ApprovalReceived _ user_id _ _ _ _ _ _ => user_id
  | EventKind.ApprovalExpired _ _ _ principal => principal
  | EventKind.NodeStarted _ worker_id _ => worker_id
  | _ => dflt
  end.

Definition derive_actor_type (kind : EventKind) (dflt : ActorType) : ActorType :=
  match kind with
  | EventKind.ApprovalReceived _ _ _ _ _ _ _ _ => ActorType.Human
  | EventKind.NodeStarted _ _ _ | EventKind.NodeCompleted _ _ _ _ _ _ _ _ _ _ _ _
  | EventKind.NodeFailed _ _ _ _ | EventKind.NodeScheduled _ _ => ActorType.System
  | EventKind.PolicyViolation _ _ _ _ | EventKind.ToolApprovalRequired _ _ _ _
  | EventKind.ApprovalExpired _ _ _ _ | EventKind.ApprovalEscalated _ _ _ _
  | EventKind.AutonomyLimitReached _ _ _ _ _ | EventKind.CircuitBreakerTripped _ _ _ _
  | EventKind.EscalationRequired _ _ _ _ | EventKind.TokenBudgetExceeded _ _ _ _
  | EventKind.CostBudgetExceeded _ _ _ => ActorType.System
  | _ => dflt
  end.

Definition extract_policy_decision (kind : EventKind) : option string :=
  match kind with
  | EventKind.PolicyViolation _ _ decision _ => Some decision
  | EventKind.ToolApprovalRequired _ _ _ _ => Some "require_approval"
  | _ => None
  end.

Definition strip_keys (keys : list string) (raw : Value) : Value :=
  match raw with Object m => Object (foldl (λ m k, map_remove k m) m keys) | _ => raw end.
Definition strip_prompts : Value → Value :=
  strip_keys ["prompt"; "system_prompt"; "input_messages"].
Definition strip_outputs : Value → Value := strip_keys ["output"; "completion"; "response"].

Inductive AuditError := AuditDatabase (msg : string) | AuditSerialization (msg : string).
Definition AuditError_display (e : AuditError) : string :=
  match e with
  | AuditDatabase m => "database error: " +:+ m
  | AuditSerialization m => "serialization error: " +:+ m
  end.

Record AuditQuery := {
  aq_from : option DateTime;
  aq_to : option DateTime;
  aq_actor_id : option string;
  aq_event_type : option string;
  aq_execution_id : option string;
  aq_tenant_id : option string;
  aq_limit : Z;
  aq_offset : Z;
}.
Definition AuditQuery_default : AuditQuery := {|
  aq_from := None; aq_to := None; aq_actor_id := None; aq_event_type := None;
  aq_execution_id := None; aq_tenant_id := None; aq_limit := 0; aq_offset := 0 |}.

(** [AuditBackend] over a store of type [S]. *)
Class AuditBackend (S : Type) := {
  audit_append : AuditLogEntry → eff S AuditError unit;
  audit_query : AuditQuery → eff S AuditError (list AuditLogEntry);
  audit_count : AuditQuery → eff S AuditError Z;
}.

(** The serializer of event kinds (derived). *)
Class EventSerde := { event_kind_to_value : EventKind → result string Value }.

(** The enricher over its backend: the chain's head and its failure count. *)
Record Enricher (S : Type) := {
  en_backend : S;
  en_seeded : bool;
  en_head : option string;
  en_failures : Z;
}.
Arguments en_backend {S} _.
Arguments en_seeded {S} _.
Arguments en_head {S} _.
Arguments en_failures {S} _.

(** How a seal fails: an error, counted, or a panic, which unwinds past the count. *)
Inductive SealFailure := SealError (msg : string) | SealPanic (msg : string).

Section Enricher.
Context `{!UuidOps, !ChronoOps, !JsonText, !Sha256Ops, !CryptoOps, !RegexOps, !EventSerde}
  {S : Type} `{AB : AuditBackend S} (signer : AuditSigner).

Abbreviation E A := (eff (Enricher S) SealFailure A).

(** A call on the backend the enricher holds. *)
Definition on_backend {F A} (m : eff S F A) : eff (Enricher S) F A := λ w,
  let en := store w in
  let '(r, w') := m (World (en_backend en) (clock w) (draws w)) in
  (r, World {| en_backend := store w'; en_seeded := en_seeded en; en_head := en_head en;
               en_failures := en_failures en |} (clock w') (draws w')).

Definition set_head (head : option string) (en : Enricher S) : Enricher S := {|
  en_backend := en_backend en; en_seeded := true; en_head := head;
  en_failures := en_failures en |}.

Definition extract_event_type (kind : EventKind) : string :=
  match event_kind_to_value kind with
  | Ok v => match t ← get "type" v; as_str t with Some s => s | None => "unknown" end
  | Err _ => "unknown"
  end.

Definition call_hash (tool input : string) : string :=
  sha256_hex (bytes tool ++ bytes ":" ++ bytes input).
Definition extract_tool_call_hash (kind : EventKind) : option string :=
  match kind with
  | EventKind.ToolCalled _ tool => Some (call_hash tool "{}")
  | EventKind.ToolApprovalRequired _ tool_name _ context =>
      Some (call_hash tool_name (json_to_string context))
  | _ => None
  end.

Definition NANOS_PER_DAY : Z := 24 * 60 * 60 * NANOS_PER_SEC.

(** The data policy's changes to an entry: what is redacted, whether it is
    marked so, and when it expires. *)
Definition apply_data_policy (policy : option DataPolicyIr) (created_at : DateTime) (raw : Value)
    : result SealFailure (Value * bool * option DateTime) :=
  match policy with
  | None => Ok (raw, false, None)
  | Some p =>
      let redactor := from_policy p in
      let active := is_active redactor in
      let raw := if active then redact_json redactor raw else raw in
      expires ← match retention_days p with
        | Some days =>
            match checked_add_signed created_at (days * NANOS_PER_DAY) with
            | Some t => Ok (Some t)
            | None => Err (SealPanic "`DateTime + TimeDelta` overflowed")
            end
        | None => Ok None
        end;
      let raw := if retain_prompts p then raw else strip_prompts raw in
      let raw := if retain_outputs p then raw else strip_outputs raw in
      Ok (raw, active, expires)
  end.

(** The first half of [seal_entry]: the entry an event becomes, unsealed. *)
Definition derive_entry (event : Event) (ctx : option RequestContext) : E AuditLogEntry :=
  let ctx := default (system "system") ctx in
  let kind := event_kind event in
  raw ← of_result (map_err (λ e, SealError ("event does not serialize for the audit log: " +:+ e))
    (event_kind_to_value kind));
  id ← new_v4; now ← utc_now;
  data ← of_result (apply_data_policy (rc_data_policy ctx) now raw);
  let '(raw, redacted, expires) := (data : Value * bool * option DateTime) in
  mret {|
    ae_id := id; ae_event_id := event_id event;
    ae_execution_id := ExecutionId_display (event_execution_id event);
    ae_sequence := sequence event; ae_event_type := extract_event_type kind;
    ae_actor_id := derive_actor_id kind (rc_actor_id ctx);
    ae_actor_type := derive_actor_type kind (rc_actor_type ctx);
    tool_call_hash := extract_tool_call_hash kind;
    policy_decision := extract_policy_decision kind;
    http_request_id := rc_request_id ctx; http_method := rc_method ctx; http_path := rc_path ctx;
    ip_address := rc_ip ctx; ae_created_at := now; raw_event := raw;
    ae_tenant_id := rc_tenant_id ctx; ae_expires_at := expires; redacted := redacted;
    prev_hash := None; entry_hash := None; signature := None |}.

(** [latest_entry_hash]: any failure reads as an empty log. *)
Definition latest_entry_hash : E (option string) :=
  latest ← as_result (on_backend (audit_query {|
    aq_from := None; aq_to := None; aq_actor_id := None; aq_event_type := None;
    aq_execution_id := None; aq_tenant_id := None; aq_limit := 1; aq_offset := 0 |}));
  mret match (latest : result AuditError (list AuditLogEntry)) with
  | Ok (e :: _) => entry_hash e
  | _ => None
  end.

(** The second half, under the chain's lock. *)
Definition append_sealed (entry : AuditLogEntry) : E unit :=
  seeded ← gets en_seeded;
  (if seeded : bool then mret tt else head ← latest_entry_hash; modify (set_head head)) ≫= λ _,
  head ← gets en_head;
  let sealed := seal entry head signer in
  appended ← as_result (on_backend (audit_append sealed));
  match (appended : result AuditError unit) with
  | Ok _ => modify (set_head (entry_hash sealed))
  | Err e => raise (SealError ("audit log write failed: " +:+ AuditError_display e))
  end.

Definition seal_entry (event : Event) (ctx : option RequestContext) : E unit :=
  entry ← derive_entry event ctx; append_sealed entry.

Definition count_failure (en : Enricher S) : Enricher S := {|
  en_backend := en_backend en; en_seeded := en_seeded en; en_head := en_head en;
  en_failures := wrap_u64 (en_failures en + 1) |}.

Definition try_enrich_and_append (event : Event) (ctx : option RequestContext) : E unit := λ w,
  match seal_entry event ctx w with
  | (Err (SealError e), w') =>
      (Err (SealError e), World (count_failure (store w')) (clock w') (draws w'))
  | out => out
  end.

Definition enrich_and_append (event : Event) (ctx : option RequestContext) : E unit :=
  recover (try_enrich_and_append event ctx) (λ e,
    match e with SealError _ => mret tt | SealPanic _ => raise e end).

(** [ApprovalSealer for AuditEnricher]. *)
Definition seal_approval_record (event : Event) (tenant_id : string) : E unit :=
  try_enrich_and_append event (Some (system_for_tenant "system" tenant_id)).
End Enricher.

(** ** The table ([sqlite.rs]) *)

Section Sqlite.
Context `{!ChronoOps}.

(** The [WHERE] clause the query and the count build from a query. *)
Definition where_clause (q : AuditQuery) : string :=
  let cond (column op : string) (v : option string) :=
    match v with Some v => [column +:+ " " +:+ op +:+ " '" +:+ v +:+ "'"] | None => [] end in
  str_join " AND " (["1=1"]
    ++ cond "created_at" ">=" (rfc3339 <$> aq_from q) ++ cond "created_at" "<=" (rfc3339 <$> aq_to q)
    ++ cond "actor_id" "=" (aq_actor_id q) ++ cond "event_type" "=" (aq_event_type q)
    ++ cond "execution_id" "=" (aq_execution_id q) ++ cond "tenant_id" "=" (aq_tenant_id q)).

Definition select_sql (q : AuditQuery) : string :=
  "SELECT * FROM audit_log WHERE " +:+ where_clause q +:+ " ORDER BY created_at DESC LIMIT "
    +:+ pretty (aq_limit q) +:+ " OFFSET " +:+ pretty (aq_offset q).
Definition count_sql (q : AuditQuery) : string :=
  "SELECT COUNT(*) FROM audit_log WHERE " +:+ where_clause q.
End Sqlite.

(** A table of entries in insertion order, with the statements' documented
    effect: an insert ignored on a known id, a select of the rows the
    conditions hold of, newest first. *)
Abbreviation AuditTable := (list AuditLogEntry) (only parsing).

Definition selects (q : AuditQuery) (e : AuditLogEntry) : bool :=
  let eq (v : option string) (s : string) :=
    match v with Some v => bool_decide (v = s) | None => true end in
  match aq_from q with Some t => bool_decide (t ≤ ae_created_at e) | None => true end
  && match aq_to q with Some t => bool_decide (ae_created_at e ≤ t) | None => true end
  && eq (aq_actor_id q) (ae_actor_id e) && eq (aq_event_type q) (ae_event_type e)
  && eq (aq_execution_id q) (ae_execution_id e) && eq (aq_tenant_id q) (ae_tenant_id e).

Definition newer (a b : AuditLogEntry) : Prop := ae_created_at b ≤ ae_created_at a.
#[export] Instance newer_dec : RelDecision newer.
Proof. intros a b. unfold newer. apply _. Defined.

Definition table_rows (q : AuditQuery) (t : AuditTable) : list AuditLogEntry :=
  take (Z.to_nat (aq_limit q)) (drop (Z.to_nat (aq_offset q))
    (merge_sort newer (base.filter (λ e, selects q e = true) t))).

#[export] Instance AuditTable_backend : AuditBackend AuditTable := {|
  audit_append entry := modify (λ t,
    if existsb (λ e, bool_decide (ae_id e = ae_id entry)) t then t else t ++ [entry]);
  audit_query q := gets (table_rows q);
  audit_count q := gets (λ t, Z.of_nat (length (base.filter (λ e, selects q e = true) t)));
|}.

(** [purge_expired], at [now]. *)
Definition purge_expired : eff AuditTable AuditError Z :=
  now ← utc_now;
  let stale e := match ae_expires_at e with Some t => bool_decide (t < now) | None => false end in
  n ← gets (λ t, Z.of_nat (length (base.filter (λ e, stale e = true) t)));
  modify (λ t, base.filter (λ e, stale e = false) t) ≫= λ _, mret n.
