(* ===== verification/AuditCorrect.v ===== *)
(** * What the audit chain proves ([audit/src/chain.rs], [entry.rs], [signer.rs],
    [enricher.rs])

    Signatures verify, sealing keeps a chain that verifies, a verified chain's
    last hash determines every entry's content, and what breaks a chain. *)

From S2P Require Import Prelude.
From S2P Require Import Json.
From S2P Require Import RustStr.
From S2P Require Import Core.
From S2P Require Import Condition.
From S2P Require Import Ir.
From S2P Require Import Event.
From S2P Require Import Hashing.
From S2P Require Import Approvals.
From S2P Require Import Redaction.
From S2P Require Import AuditLog.
From Stdlib Require Import Ascii.

(** ** Signatures *)

(** The documented behaviour of the primitives: what is signed verifies, tags
    are bytes, signatures are 64 bytes, hexadecimal and UTF-8 read back. *)
Record crypto_laws `{CryptoOps} : Prop := {
  law_hmac_bytes k d : Forall (λ b, (b < 256)%N) (hmac_sha256 k d);
  law_sign_bytes k d : Forall (λ b, (b < 256)%N) (ed25519_sign k d);
  law_sign_len k d : length (ed25519_sign k d) = 64%nat;
  law_sign_verifies k d : verify_strict (verifying_key k) d (ed25519_sign k d) = true;
  law_hex l : Forall (λ b, (b < 256)%N) l → hex_decode (hex l) = Some l;
  law_utf8 s : from_utf8 (bytes s) = Some s;
}.

Lemma before_sep c s t : str_contains c s = false →
  split_once c (s +:+ String c "" +:+ t) = Some (s, t).
Proof.
  induction s as [|a s IH]; simpl; [by rewrite decide_True|].
  destruct (decide (a = c)) as [->|Hne]; simpl.
  - by rewrite bool_decide_eq_true_2.
  - rewrite bool_decide_eq_false_2 by done. intros Hs. by rewrite IH.
Qed.

Lemma hex_digit_not_colon n : (n < 16)%N → hex_digit n ≠ ":"%char.
Proof.
  intros Hn Heq. assert (n ∈ N.of_nat <$> seq 0 16) as Hin.
  { apply list_elem_of_fmap. exists (N.to_nat n). split; [lia|]. apply elem_of_seq. lia. }
  cbn in Hin. repeat (apply elem_of_cons in Hin as [->|Hin]; [by vm_compute in Heq|]).
  by apply not_elem_of_nil in Hin.
Qed.

Lemma hex_no_colon l : Forall (λ b, (b < 256)%N) l → str_contains ":" (hex l) = false.
Proof.
  induction 1 as [|b l Hb _ IH]; [done|]. cbn [hex str_contains].
  rewrite !bool_decide_eq_false_2, IH; [done| |].
  - apply hex_digit_not_colon, N.mod_lt. lia.
  - apply hex_digit_not_colon, N.Div0.div_lt_upper_bound. lia.
Qed.

Lemma str_take_no_sep c n s : str_contains c s = false → str_contains c (str_take n s) = false.
Proof.
  revert s; induction n as [|n IH]; intros [|a s]; simpl; try done.
  intros [Ha Hs]%orb_false_iff. by rewrite Ha, IH.
Qed.

Section Signatures.
Context `{!CryptoOps, !JsonText, !Sha256Ops}.

(** An Ed25519 key's id is its public key's. *)
Definition signer_wf (sg : AuditSigner) : Prop :=
  match sg_key sg with
  | Ed25519Signing key kid => kid = ed25519_kid (verifying_key_bytes (verifying_key key))
  | _ => True
  end.

Lemma kid_no_colon pk : str_contains ":" (ed25519_kid pk) = false.
Proof. apply str_take_no_sep, hex_no_colon, Sha256_digest_bytes. Qed.

Lemma sign_verifies sg s t :
  crypto_laws → signer_wf sg → sign sg (bytes s) = Some t → verify sg (bytes s) t = true.
Proof.
  intros HL Hwf. unfold sign, verify, signer_wf in *.
  destruct (sg_key sg) as [|key|key kid|key kid]; try done.
  - intros [= <-]. rewrite (law_hex HL) by apply (law_hmac_bytes HL). by apply bool_decide_eq_true.
  - rewrite (law_utf8 HL). intros [= <-]. unfold verify_ed25519.
    rewrite strip_prefix_app. cbn [mbind option_bind].
    rewrite before_sep by (subst; apply kid_no_colon).
    rewrite decide_False by auto. rewrite (law_hex HL) by apply (law_sign_bytes HL).
    rewrite (law_sign_len HL), (law_utf8 HL). apply (law_sign_verifies HL).
Qed.

Lemma hmac_from_env_key env :
  (∃ key, sg_key (hmac_from_env env) = Hmac key) ∨ hmac_from_env env = unsigned.
Proof. unfold hmac_from_env. repeat case_match; simpl; eauto. Qed.

(** What [from_env] can build. *)
Lemma signer_from_env_cases lower env :
  let sg := signer_from_env lower env in
  sg = hmac_from_env env ∨ (∃ seed, sg = ed25519 seed) ∨ sg = unsigned.
Proof.
  unfold signer_from_env. destruct (bool_decide _ || bool_decide _); [by left|].
  case_decide; [|by right; right].
  destruct (ed25519_from_env env) as [sg|e] eqn:He; [|by right; right]. right; left.
  unfold ed25519_from_env in He. apply result_bind_inv in He as (seed & _ & [= <-]). by exists seed.
Qed.

Lemma from_env_wf lower env : signer_wf (signer_from_env lower env).
Proof.
  unfold signer_wf. destruct (signer_from_env_cases lower env) as [->|[[seed ->]| ->]]; [|done..].
  by destruct (hmac_from_env_key env) as [[key ->]| ->].
Qed.

(** A configured signer never misleads. Whatever the environment holds, if the
    signer can sign then every signature it makes verifies; if it cannot (no
    key, a malformed or doubly configured one, an unknown mode) it signs
    nothing and accepts no signature; and the built-in key everybody knows
    is used only when no key is set and the insecure opt-in is. *)
Theorem signer_from_env_correct (lower : string → string) (env : SignerEnv) :
  crypto_laws →
  let sg := signer_from_env lower env in
  (can_sign sg = true → ∀ s, ∃ t, sign sg (bytes s) = Some t ∧ verify sg (bytes s) t = true)
  ∧ (can_sign sg = false → ∀ data t, sign sg data = None ∧ verify sg data t = false)
  ∧ (is_dev_key sg = true →
     non_empty (signing_key env) = None ∧ is_Some (non_empty (allow_insecure_key env))).
Proof.
  intros HL sg. pose proof (from_env_wf lower env) as Hwf. fold sg in Hwf. split_and!.
  - intros Hc s. assert (∃ t, sign sg (bytes s) = Some t) as [t Ht].
    { unfold can_sign, sign in *. destruct (sg_key sg); try done; [eauto|].
      rewrite (law_utf8 HL). simpl. eauto. }
    exists t. split; [done|]. by apply sign_verifies.
  - intros Hc data t. assert (sg_key sg = KeyNone) as Hk; [|by unfold sign, verify; rewrite Hk].
    unfold can_sign in Hc. destruct (signer_from_env_cases lower env) as [Hs|[[seed Hs]|Hs]];
      fold sg in Hs; rewrite Hs in Hc |- *; [|done|done].
    destruct (hmac_from_env_key env) as [[key Hk]| ->]; [by rewrite Hk in Hc|done].
  - destruct (signer_from_env_cases lower env) as [Hs|[[seed Hs]|Hs]]; fold sg in Hs; rewrite Hs;
      [|done|done].
    unfold hmac_from_env. destruct (non_empty (signing_key env)); [done|].
    by destruct (non_empty (allow_insecure_key env)).
Qed.
End Signatures.

(** ** Separated fields are read back *)

(** Two fields that cannot be confused: neither holds the separator, or both
    have one length. *)
Definition field_like (f f' : list N) : Prop :=
  FIELD_SEP ∉ f ∧ FIELD_SEP ∉ f' ∨ length f = length f'.

Lemma sep_split f f' r r' :
  field_like f f' → f ++ FIELD_SEP :: r = f' ++ FIELD_SEP :: r' → f = f' ∧ r = r'.
Proof.
  intros [[Hf Hf']|Hlen] Heq.
  - revert f' Hf' Heq. induction f as [|b f IH]; intros [|b' f'] Hf' Heq.
    + by injection Heq.
    + injection Heq as Hb _. subst b'. set_solver.
    + injection Heq as Hb _. subst b. set_solver.
    + injection Heq as Hb Heq. apply IH in Heq as [-> ->]; [by subst|set_solver|set_solver].
  - apply app_inj_1 in Heq as [-> Heq]; [|done]. by injection Heq.
Qed.

Lemma separated_fields_inj fs fs' :
  Forall2 field_like fs fs' → separated_fields fs = separated_fields fs' → fs = fs'.
Proof.
  induction 1 as [|f f' fs fs' Hf _ IH]; intros Heq; [done|].
  unfold separated_fields in Heq. simpl in Heq. rewrite <- !(assoc_L (++)) in Heq. simpl in Heq.
  apply sep_split in Heq as [-> Heq]; [|done]. f_equal. by apply IH.
Qed.

Lemma le_bytes_length n z : length (le_bytes n z) = n.
Proof. revert z; induction n; intros z; simpl; [done|]. by f_equal. Qed.

Lemma le_bytes_inj n z z' :
  0 ≤ z < 2 ^ (8 * Z.of_nat n) → 0 ≤ z' < 2 ^ (8 * Z.of_nat n) → le_bytes n z = le_bytes n z' → z = z'.
Proof.
  revert z z'; induction n as [|n IH]; intros z z' Hz Hz' Heq; [simpl in *; lia|].
  cbn [le_bytes] in Heq. injection Heq as Hb Hr.
  replace (2 ^ (8 * Z.of_nat (Datatypes.S n))) with (256 * 2 ^ (8 * Z.of_nat n)) in Hz, Hz'
    by (rewrite <- (Z.pow_add_r 2 8) by lia; f_equal; lia).
  apply IH in Hr; [|split; [apply Z.div_pos; lia|apply Z.div_lt_upper_bound; lia]..].
  assert (z `mod` 256 = z' `mod` 256) as Hm.
  { pose proof (Z.mod_pos_bound z 256). pose proof (Z.mod_pos_bound z' 256). lia. }
  rewrite (Z.div_mod z 256), (Z.div_mod z' 256) by lia. congruence.
Qed.

Lemma uuid_bytes_inj u u' : (u < 2 ^ 128)%N → (u' < 2 ^ 128)%N → uuid_bytes u = uuid_bytes u' → u = u'.
Proof.
  intros Hu Hu' Heq. apply (inj reverse) in Heq. apply le_bytes_inj in Heq; [lia| |];
    change (2 ^ (8 * Z.of_nat 16)) with (Z.of_N (2 ^ 128)); lia.
Qed.

Lemma i64_bytes_inj z z' :
  - 2 ^ 63 ≤ z < 2 ^ 63 → - 2 ^ 63 ≤ z' < 2 ^ 63 → i64_bytes z = i64_bytes z' → z = z'.
Proof.
  intros Hz Hz' Heq. apply le_bytes_inj in Heq; [|apply Z.mod_pos_bound; lia..].
  rewrite (Z.div_mod z (2 ^ 64)), (Z.div_mod z' (2 ^ 64)) by lia. rewrite Heq. f_equal.
  assert (∀ x, - 2 ^ 63 ≤ x < 2 ^ 63 → x / 2 ^ 64 = if decide (x < 0) then -1 else 0) as Hd.
  { intros x Hx. case_decide.
    - symmetry. apply (Z.div_unique x (2 ^ 64) (-1) (x + 2 ^ 64)); lia.
    - apply Z.div_small. lia. }
  rewrite !Hd in * by done. 
  assert (z `mod` 2 ^ 64 = z - 2 ^ 64 * (if decide (z < 0) then -1 else 0)) by (rewrite Z.mod_eq, Hd by lia; lia).
  assert (z' `mod` 2 ^ 64 = z' - 2 ^ 64 * (if decide (z' < 0) then -1 else 0)) by (rewrite Z.mod_eq, Hd by lia; lia).
  repeat case_decide; lia.
Qed.

Lemma hex_digit_not_sep n : (n < 16)%N → N_of_ascii (hex_digit n) ≠ FIELD_SEP.
Proof.
  intros Hn Heq. assert (n ∈ N.of_nat <$> seq 0 16) as Hin.
  { apply list_elem_of_fmap. exists (N.to_nat n). split; [lia|]. apply elem_of_seq. lia. }
  cbn in Hin. repeat (apply elem_of_cons in Hin as [->|Hin]; [by vm_compute in Heq|]).
  by apply not_elem_of_nil in Hin.
Qed.

Lemma hex_no_sep l : Forall (λ b, (b < 256)%N) l → FIELD_SEP ∉ bytes (hex l).
Proof.
  induction 1 as [|b l Hb _ IH]; [by apply not_elem_of_nil|].
  change (bytes (hex (b :: l))) with
    (N_of_ascii (hex_digit (b / 16)) :: N_of_ascii (hex_digit (b mod 16)) :: bytes (hex l)).
  intros [Heq|[Heq|Hin]%elem_of_cons]%elem_of_cons; [| |by apply IH].
  - symmetry in Heq. revert Heq. apply hex_digit_not_sep, N.Div0.div_lt_upper_bound. lia.
  - symmetry in Heq. revert Heq. apply hex_digit_not_sep, N.mod_lt. lia.
Qed.

Lemma hex_nonempty l : l ≠ [] → hex l ≠ "".
Proof. by destruct l. Qed.

(** ** Verification, from the end *)

Section Verified.
Context `{!CryptoOps, !ChronoOps, !JsonText, !Sha256Ops}.

(** The hash the entry after [l] links to. *)
Definition head_after (prev : option string) (l : list AuditLogEntry) : option string :=
  match last l with Some e => entry_hash e | None => prev end.

(** [e] is sealed after [prev] and its signature verifies. *)
Definition sealed_after (sg : AuditSigner) (prev : option string) (e : AuditLogEntry) : Prop :=
  ∃ t, prev_hash e = prev ∧ entry_hash e = Some (entry_content_hash e prev)
    ∧ signature e = Some t ∧ verify sg (bytes (entry_content_hash e prev)) t = true.

Lemma verify_step_ok sg prev i e h :
  verify_step sg prev i e = Ok h ↔ sealed_after sg prev e ∧ entry_hash e = Some h.
Proof.
  unfold verify_step, sealed_after. split.
  - intros (h' & Hh & Hk)%result_bind_inv. apply result_bind_inv in Hk as (t & Ht & Hk).
    unfold ok_or in *. destruct (entry_hash e) as [h''|]; [|done]. injection Hh as ->.
    destruct (signature e) as [t'|]; [|done]. injection Ht as ->.
    case_decide as Hp; [done|]. case_decide as Hc; [done|].
    destruct (negb _) eqn:Hv; [done|]. injection Hk as <-.
    rewrite Hp in Hc. subst h'. split; [|done]. exists t. split_and!; try done.
    by apply negb_false_iff.
  - intros [(t & Hp & Hh & Ht & Hv) Hh']. rewrite Hh' in Hh. injection Hh as ->.
    rewrite Hh', Ht. cbn [ok_or mbind result_bind]. rewrite decide_False by (rewrite Hp; auto).
    rewrite Hp. rewrite decide_False by auto. by rewrite Hv.
Qed.

Lemma head_after_cons prev e l : head_after prev (e :: l) = head_after (entry_hash e) l.
Proof. unfold head_after. rewrite last_cons. by destruct (last l). Qed.

Lemma verify_app sg prev i l1 l2 :
  verify_from sg prev i (l1 ++ l2) = Ok tt ↔
  verify_from sg prev i l1 = Ok tt
  ∧ verify_from sg (head_after prev l1) (i + Z.of_nat (length l1)) l2 = Ok tt.
Proof.
  revert prev i; induction l1 as [|e l1 IH]; intros prev i; simpl.
  - rewrite Z.add_0_r. unfold head_after. simpl. naive_solver.
  - rewrite head_after_cons. destruct (verify_step sg prev i e) as [h|] eqn:Hs; simpl; [|naive_solver].
    apply verify_step_ok in Hs as [_ ->]. rewrite IH.
    by replace (i + 1 + Z.of_nat (length l1)) with (i + Z.of_nat (Datatypes.S (length l1))) by lia.
Qed.

Lemma verify_snoc sg l e :
  verify_chain (l ++ [e]) sg = Ok tt ↔
  verify_chain l sg = Ok tt ∧ sealed_after sg (head_after None l) e.
Proof.
  unfold verify_chain. rewrite verify_app. cbn [verify_from].
  split; intros [Hl He]; split; try done.
  - apply result_bind_inv in He as (h & He & _). by apply verify_step_ok in He as [? _].
  - assert (∃ h, entry_hash e = Some h) as [h Hh] by (destruct He as (? & _ & ? & _); eauto).
    by rewrite (proj2 (verify_step_ok _ _ _ _ h) (conj He Hh)).
Qed.

(** ** What the last hash determines *)

(** Field values as the runtime writes them: ids and sequences at their width,
    texts without the separator. *)
Record entry_wf (e : AuditLogEntry) : Prop := {
  wf_id : (ae_id e < 2 ^ 128)%N;
  wf_event_id : (ae_event_id e < 2 ^ 128)%N;
  wf_sequence : - 2 ^ 63 ≤ ae_sequence e < 2 ^ 63;
  wf_texts : Forall (λ s, FIELD_SEP ∉ bytes s)
    [ae_execution_id e; ae_event_type e; ae_actor_id e; or_empty (tool_call_hash e);
     or_empty (policy_decision e); or_empty (http_request_id e); or_empty (http_method e);
     or_empty (http_path e); or_empty (ip_address e); rfc3339 (ae_created_at e);
     json_to_string (raw_event e); ae_tenant_id e; or_empty (rfc3339 <$> ae_expires_at e)];
}.

(** The records agree: every field, an absent optional text and an empty one
    alike, times and the event by their text. *)
Definition same_record (a b : AuditLogEntry) : Prop :=
  (ae_id a, ae_event_id a, ae_execution_id a, ae_sequence a, ae_event_type a, ae_actor_id a,
   ae_actor_type a) = (ae_id b, ae_event_id b, ae_execution_id b, ae_sequence b, ae_event_type b,
   ae_actor_id b, ae_actor_type b)
  ∧ (or_empty (tool_call_hash a), or_empty (policy_decision a), or_empty (http_request_id a),
     or_empty (http_method a), or_empty (http_path a), or_empty (ip_address a))
    = (or_empty (tool_call_hash b), or_empty (policy_decision b), or_empty (http_request_id b),
       or_empty (http_method b), or_empty (http_path b), or_empty (ip_address b))
  ∧ (rfc3339 (ae_created_at a), json_to_string (raw_event a), ae_tenant_id a,
     or_empty (rfc3339 <$> ae_expires_at a), redacted a)
    = (rfc3339 (ae_created_at b), json_to_string (raw_event b), ae_tenant_id b,
       or_empty (rfc3339 <$> ae_expires_at b), redacted b).

Lemma list_cons_inv {A} (x y : A) l k : x :: l = y :: k → x = y ∧ l = k.
Proof. by intros [= -> ->]. Qed.

Lemma content_fields_inj a b p q :
  entry_wf a → entry_wf b → FIELD_SEP ∉ bytes (or_empty p) → FIELD_SEP ∉ bytes (or_empty q) →
  separated_fields (content_fields a p) = separated_fields (content_fields b q) →
  same_record a b ∧ or_empty p = or_empty q.
Proof.
  intros [Hi Hv Hs Ht] [Hi' Hv' Hs' Ht'] Hp Hq Heq. rewrite !Forall_cons in Ht, Ht'. deex.
  assert (∀ x y, length (i64_bytes x) = length (i64_bytes y)) as Hli
    by (intros; unfold i64_bytes; by rewrite !le_bytes_length).
  assert (∀ x y, length (uuid_bytes x) = length (uuid_bytes y)) as Hlu
    by (intros; unfold uuid_bytes; by rewrite !length_reverse, !le_bytes_length).
  assert (∀ t, FIELD_SEP ∉ bytes (ActorType.as_str t)) as Hat
    by (intros []; vm_compute; repeat (apply not_elem_of_cons; split; [done|]); apply not_elem_of_nil).
  apply separated_fields_inj in Heq.
  2:{ unfold content_fields, field_like.
      repeat (apply Forall2_cons; split; [first [left; by auto|right; by auto]|]). constructor. }
  do 2 (apply list_cons_inv in Heq as [?%uuid_bytes_inj Heq]; [|done..]).
  apply list_cons_inv in Heq as [?%bytes_inj Heq].
  apply list_cons_inv in Heq as [?%i64_bytes_inj Heq]; [|done..].
  do 2 apply list_cons_inv in Heq as [?%bytes_inj Heq].
  apply list_cons_inv in Heq as [Hact%bytes_inj Heq].
  do 10 apply list_cons_inv in Heq as [?%bytes_inj Heq].
  apply list_cons_inv in Heq as [Hred Heq]. apply list_cons_inv in Heq as [?%bytes_inj _].
  assert (ae_actor_type a = ae_actor_type b) as Hty by (by destruct (ae_actor_type a), (ae_actor_type b)).
  assert (redacted a = redacted b) as Hre by (by destruct (redacted a), (redacted b)).
  split; [|done]. unfold same_record. split_and!; congruence.
Qed.

(** SHA-256 finds no collision among the contents of these entries, and a
    digest is not empty. *)
Definition contents_collision_free (es : list AuditLogEntry) : Prop :=
  (∀ l, l ≠ [] → Sha256_digest l ≠ [])
  ∧ ∀ a b, a ∈ es → b ∈ es →
      let pre e := separated_fields (content_fields e (prev_hash e)) in
      Sha256_digest (pre a) = Sha256_digest (pre b) → pre a = pre b.

Lemma entry_hash_inj es a b :
  contents_collision_free es → a ∈ es → b ∈ es →
  entry_content_hash a (prev_hash a) = entry_content_hash b (prev_hash b) →
  separated_fields (content_fields a (prev_hash a)) = separated_fields (content_fields b (prev_hash b)).
Proof.
  intros [_ Hc] Ha Hb Heq. unfold entry_content_hash, sha256_hex in Heq.
  apply hex_inj in Heq; [|apply Sha256_digest_bytes..]. by apply Hc.
Qed.

Lemma separated_nonempty f fs : separated_fields (f :: fs) ≠ [].
Proof. unfold separated_fields. simpl. by destruct f. Qed.

(** The link of a verified entry: nothing at the start, a hash after. *)
Lemma head_after_hash sg l :
  verify_chain l sg = Ok tt →
  match head_after None l with
  | None => l = []
  | Some h => l ≠ [] ∧ FIELD_SEP ∉ bytes h
      ∧ ((∀ l, l ≠ [] → Sha256_digest l ≠ []) → h ≠ "")
  end.
Proof.
  destruct l as [|e l _] using rev_ind; [done|]. intros [_ (t & _ & Hh & _)]%verify_snoc.
  unfold head_after at 1. rewrite last_snoc, Hh. split_and!.
  - by destruct l.
  - apply hex_no_sep, Sha256_digest_bytes.
  - intros Hne. apply hex_nonempty, Hne, separated_nonempty.
Qed.

Lemma head_after_no_sep sg l :
  verify_chain l sg = Ok tt → FIELD_SEP ∉ bytes (or_empty (head_after None l)).
Proof.
  intros Hl. apply head_after_hash in Hl. destruct (head_after None l); [by destruct Hl as (_ & ? & _)|].
  apply not_elem_of_nil.
Qed.

Lemma collision_free_incl es es' :
  contents_collision_free es → es' ⊆ es → contents_collision_free es'.
Proof. intros [Hn Hc] Hs. split; [done|]. intros a b Ha Hb. apply Hc; by apply Hs. Qed.

(** C39: The chain is tamper evident, as far as its hash tells entries apart. Two
    logs that both verify, under whichever signers, and end in the same entry hash
    have as many entries, in the same order, with the same content. So a log cannot
    be altered, cut, extended or reordered under a head hash somebody kept. Three
    things are assumed of both logs, the altered one included: no text field of an
    entry holds the unit separator the fields are joined by (with one in a field two
    different entries have the same hash, [separator_in_a_field_collides]), ids and
    sequences are in their machine ranges, and SHA-256 does not collide on the
    contents hashed here. The same content is up to what the code hashes alike: an
    absent optional field and an empty one are not told apart, a time counts as its
    text and the raw event as its. *)
Theorem chain_binds_content sg sg' (l l' : list AuditLogEntry) :
  contents_collision_free (l ++ l') → Forall entry_wf (l ++ l') →
  verify_chain l sg = Ok tt → verify_chain l' sg' = Ok tt →
  head_after None l = head_after None l' →
  Forall2 same_record l l'.
Proof.
  revert l'. induction l as [|a l IH] using rev_ind; intros l' Hc Hwf Hl Hl' Hh.
  - apply head_after_hash in Hl'. rewrite <- Hh in Hl'. simpl in Hl'. by subst.
  - destruct l' as [|b l' _] using rev_ind.
    { apply head_after_hash in Hl. rewrite Hh in Hl. by destruct l. }
    apply verify_snoc in Hl as [Hl (ta & Hpa & Hha & _)], Hl' as [Hl' (tb & Hpb & Hhb & _)].
    unfold head_after in Hh at 1 2. rewrite !last_snoc, Hha, Hhb in Hh. injection Hh as Hh.
    rewrite <- Hpa, <- Hpb in Hh. eapply entry_hash_inj in Hh; [|exact Hc|set_solver|set_solver].
    rewrite !Forall_app, !Forall_singleton in Hwf. destruct Hwf as [[Hwl Hwa] [Hwl' Hwb]].
    apply content_fields_inj in Hh as [Hab Hp]; [|done|done|rewrite Hpa|rewrite Hpb];
      [|by eapply head_after_no_sep..].
    rewrite Hpa, Hpb in Hp. apply Forall2_app; [|by constructor].
    apply IH; [eapply collision_free_incl; [exact Hc|set_solver]|by apply Forall_app|done|done|].
    pose proof (head_after_hash _ _ Hl) as Ho. pose proof (head_after_hash _ _ Hl') as Ho'.
    destruct Hc as [Hn _].
    destruct (head_after None l) as [h|], (head_after None l') as [h'|]; simpl in Hp; try done.
    + by subst.
    + subst h. by destruct Ho as (_ & _ & []).
    + subst h'. by destruct Ho' as (_ & _ & []).
Qed.

(** Purging the front of a log breaks what is left: once expired entries at
    the start of a verified chain are deleted, the rest no longer verifies,
    whatever the signer. *)
Theorem purged_chain_rejected sg sg' (old rest : list AuditLogEntry) :
  verify_chain (old ++ rest) sg = Ok tt → old ≠ [] → rest ≠ [] →
  ∃ e, verify_chain rest sg' = Err e ∧ chain_error_index e = 0.
Proof.
  intros Hv Hold Hrest. unfold verify_chain in Hv. apply verify_app in Hv as [Hv1 Hv].
  destruct rest as [|e rest]; [done|]. cbn [verify_from] in Hv.
  apply result_bind_inv in Hv as (h & Hs & _). apply verify_step_ok in Hs as [(t & Hp & Hh & Ht & _) _].
  assert (head_after None old ≠ None) as Hne.
  { intros Hn. apply Hold. pose proof (head_after_hash sg old Hv1) as Ho. by rewrite Hn in Ho. }
  exists (BrokenLink 0). split; [|done]. unfold verify_chain. cbn [verify_from]. unfold verify_step.
  rewrite Hh, Ht. cbn [ok_or mbind result_bind]. by rewrite decide_True by congruence.
Qed.
End Verified.

(** ** Sealing *)

(** The entries a store holds, oldest insertion first. *)
Class AuditView (S : Type) := audit_rows : S → list AuditLogEntry.

(** Entries stamped in the order they were appended. *)
Definition stamped_in_order (l : list AuditLogEntry) : Prop :=
  StronglySorted (λ a b, ae_created_at a < ae_created_at b) l.

(** The query [latest_entry_hash] makes. *)
Definition newest_query : AuditQuery := {|
  aq_from := None; aq_to := None; aq_actor_id := None; aq_event_type := None;
  aq_execution_id := None; aq_tenant_id := None; aq_limit := 1; aq_offset := 0 |}.

(** What the enricher relies on. *)
Class AuditBackendLaws (S : Type) `{AuditBackend S, AuditView S} := {
  law_audit_append e w r w' :
    audit_append e w = (r, w') → ae_id e ∉ ae_id <$> audit_rows (store w) →
    audit_rows (store w') =
      match r with Ok _ => audit_rows (store w) ++ [e] | Err _ => audit_rows (store w) end;
  law_audit_query q w : audit_rows (store (audit_query q w).2) = audit_rows (store w);
  law_audit_newest w l :
    (audit_query newest_query w).1 = Ok l → stamped_in_order (audit_rows (store w)) →
    l = option_list (last (audit_rows (store w)));
}.

#[export] Instance AuditTable_view : AuditView AuditTable := λ t, t.

Lemma newest_of_sorted t :
  stamped_in_order t → table_rows newest_query t = option_list (last t).
Proof.
  intros Ht. unfold table_rows.
  assert (base.filter (λ e, selects newest_query e = true) t = t) as ->.
  { clear Ht. induction t as [|e t IH]; [done|]. rewrite filter_cons_True by done. by rewrite IH. }
  assert (StronglySorted newer (merge_sort newer t)) as Hs.
  { apply StronglySorted_merge_sort; [intros a b c; unfold newer; lia|intros a b; unfold newer; lia]. }
  pose proof (merge_sort_Permutation newer t) as Hp.
  destruct t as [|e t _] using rev_ind; [done|]. rewrite last_snoc. simpl.
  destruct (merge_sort newer (t ++ [e])) as [|x l] eqn:Hm.
  { symmetry in Hp. apply Permutation_nil_r in Hp. by destruct t. }
  change ([x] = [e]). f_equal.
  assert (x ∈ t ++ [e]) as Hx by (rewrite <- Hp; left).
  apply elem_of_app in Hx as [Hx|Hx]; [|by apply list_elem_of_singleton in Hx; subst]. exfalso.
  assert (e ∈ x :: l) as He by (rewrite Hp; apply elem_of_app; right; left).
  assert (ae_created_at x < ae_created_at e) as Hlt.
  { clear -Ht Hx. induction t as [|a t IH]; [by apply not_elem_of_nil in Hx|].
    apply StronglySorted_inv in Ht as [Ht Hf]. rewrite Forall_app, Forall_singleton in Hf.
    apply elem_of_cons in Hx as [->|Hx]; [by destruct Hf|by apply IH]. }
  apply StronglySorted_inv in Hs as [_ Hf]. rewrite Forall_forall in Hf.
  apply elem_of_cons in He as [->|He]; [lia|]. specialize (Hf e He). unfold newer in Hf. lia.
Qed.

#[export] Instance AuditTable_laws : AuditBackendLaws AuditTable.
Proof.
  split.
  - intros e w r w' Hr Hid. injection Hr as <- <-. unfold audit_rows, AuditTable_view. simpl.
    destruct (existsb _ _) eqn:He; [|done]. apply existsb_exists in He as (x & Hx & Heq).
    apply bool_decide_eq_true in Heq. destruct Hid. rewrite <- Heq.
    by apply list_elem_of_fmap_2, list_elem_of_In.
  - done.
  - intros w l [= <-] Hs. by apply newest_of_sorted.
Qed.

Section Sealing.
Context `{!UuidOps, !ChronoOps, !JsonText, !Sha256Ops, !CryptoOps, !RegexOps, !EventSerde}
  {S : Type} `{HL : AuditBackendLaws S} (sg : AuditSigner).

(** The log verifies and the head kept in memory is its last hash. *)
Definition chain_inv (en : Enricher S) : Prop :=
  verify_chain (audit_rows (en_backend en)) sg = Ok tt
  ∧ (en_seeded en = true → en_head en = head_after None (audit_rows (en_backend en))).

(** The enricher knows, or can find, the last entry: it has read the head, the
    log is empty, or the log was stamped in order and can be read. *)
Definition head_known (w : world (Enricher S)) : Prop :=
  let rows := audit_rows (en_backend (store w)) in
  en_seeded (store w) = true ∨ rows = []
  ∨ stamped_in_order rows
    ∧ is_ok (audit_query newest_query (World (en_backend (store w)) (clock w) (draws w))).1 = true.

Lemma seal_seals e prev : crypto_laws → signer_wf sg → can_sign sg = true →
  sealed_after sg prev (seal e prev sg).
Proof.
  intros HL' Hwf Hc. set (h := entry_content_hash e prev).
  assert (∃ t, sign sg (bytes h) = Some t) as [t Ht].
  { unfold can_sign, sign in *. destruct (sg_key sg); try done; [eauto|].
    rewrite (law_utf8 HL'). simpl. eauto. }
  exists t. split_and!; [done|done|exact Ht|]. by apply sign_verifies.
Qed.

Lemma latest_entry_hash_run (w : world (Enricher S)) :
  ∃ head w1, latest_entry_hash w = (Ok head, w1)
    ∧ audit_rows (en_backend (store w1)) = audit_rows (en_backend (store w))
    ∧ en_failures (store w1) = en_failures (store w)
    ∧ (head_known w → en_seeded (store w) = false →
       head = head_after None (audit_rows (en_backend (store w)))).
Proof.
  unfold latest_entry_hash, on_backend, as_result, mbind, eff_bind, head_known.
  fold newest_query. set (wb := World _ (clock w) (draws w)).
  destruct (audit_query newest_query wb) as [r wb'] eqn:Hq.
  pose proof (law_audit_query newest_query wb) as Hrows. rewrite Hq in Hrows. simpl in *.
  eexists _, _. split; [reflexivity|]. split_and!; [done|done|]. intros Hk Hs.
  assert (∀ l, r = Ok l → stamped_in_order (audit_rows (store wb)) →
    l = option_list (last (audit_rows (store wb)))) as Hnew.
  { intros l ->. apply law_audit_newest. by rewrite Hq. }
  unfold head_after. simpl in Hnew. destruct Hk as [Hk|[Hk|[Hsorted Hok]]].
  - congruence.
  - rewrite Hk in *. simpl. destruct r as [l|e]; [|done].
    rewrite (Hnew l eq_refl); [done|constructor].
  - destruct r as [l|e]; [|done]. rewrite (Hnew l eq_refl Hsorted).
    by destruct (last _).
Qed.

(** Sealing keeps the chain. Under a signer that can sign, whether the write
    lands or fails, after sealing an entry the log still verifies and the
    next entry links to its last hash; a landed entry is the log's last, and a
    failed write leaves the log as it was. *)
Theorem seal_keeps_chain (entry : AuditLogEntry) (w w' : world (Enricher S)) r :
  crypto_laws → signer_wf sg → can_sign sg = true →
  chain_inv (store w) → head_known w →
  ae_id entry ∉ ae_id <$> audit_rows (en_backend (store w)) →
  append_sealed sg entry w = (r, w') →
  chain_inv (store w') ∧ en_seeded (store w') = true
  ∧ audit_rows (en_backend (store w')) = match r with
    | Ok _ => audit_rows (en_backend (store w))
              ++ [seal entry (head_after None (audit_rows (en_backend (store w)))) sg]
    | Err _ => audit_rows (en_backend (store w))
    end.
Proof.
  intros HL' Hwf Hc [Hv Hhead] Hknown Hid. unfold append_sealed. rewrite bind_gets.
  set (head := head_after None (audit_rows (en_backend (store w)))) in *.
  assert (∃ w1, (if en_seeded (store w) then mret tt
      else head ← latest_entry_hash; modify (set_head head)) w = (Ok tt, w1)
    ∧ audit_rows (en_backend (store w1)) = audit_rows (en_backend (store w))
    ∧ en_head (store w1) = head ∧ en_seeded (store w1) = true) as (w1 & Hrun & Hrows & Hh1 & Hs1).
  { destruct (en_seeded (store w)) eqn:Hs.
    - exists w. split_and!; try done. by apply Hhead.
    - destruct (latest_entry_hash_run w) as (h & w1 & Hrun & Hr & _ & Hh).
      rewrite (bind_run _ _ _ _ _ Hrun). eexists. split; [reflexivity|]. split_and!; [done| |done].
      by apply Hh. }
  rewrite (bind_run _ _ _ _ _ Hrun), bind_gets, Hh1.
  set (sealed := seal entry head sg). unfold on_backend, as_result, mbind at 1, eff_bind at 1.
  destruct (audit_append sealed _) as [ra wb] eqn:Happ.
  apply law_audit_append in Happ; [|simpl; by rewrite Hrows]. simpl in Happ. rewrite Hrows in Happ.
  destruct ra as [[]|e]; intros [= <- <-]; simpl; rewrite Happ; split_and!; try done;
    unfold chain_inv; simpl; rewrite Happ; split; try done.
  - apply verify_snoc. split; [done|]. by apply seal_seals.
  - intros _. unfold head_after. by rewrite last_snoc.
Qed.
End Sealing.

(** ** Samples *)

Definition hex_value (a : ascii) : option N :=
  let n := N_of_ascii a in
  if ((48 <=? n) && (n <=? 57))%N then Some (n - 48)%N
  else if ((97 <=? n) && (n <=? 102))%N then Some (n - 87)%N else None.
Fixpoint hex_read (s : string) : option (list N) :=
  match s with
  | EmptyString => Some []
  | String a (String b s) =>
      x ← hex_value a; y ← hex_value b; l ← hex_read s; Some ((16 * x + y)%N :: l)
  | _ => None
  end.

Lemma hex_value_digit n : (n < 16)%N → hex_value (hex_digit n) = Some n.
Proof.
  intros Hn. assert (n ∈ N.of_nat <$> seq 0 16) as Hin.
  { apply list_elem_of_fmap. exists (N.to_nat n). split; [lia|]. apply elem_of_seq. lia. }
  cbn in Hin. repeat (apply elem_of_cons in Hin as [->|Hin]; [reflexivity|]).
  by apply not_elem_of_nil in Hin.
Qed.

Lemma hex_read_hex l : Forall (λ b, (b < 256)%N) l → hex_read (hex l) = Some l.
Proof.
  induction 1 as [|b l Hb _ IH]; [done|]. cbn [hex hex_read].
  rewrite !hex_value_digit by (first [apply N.mod_lt; lia|apply N.Div0.div_lt_upper_bound; lia]).
  rewrite IH. cbn [mbind option_bind]. do 2 f_equal. rewrite (N.div_mod b 16) at 3 by lia. lia.
Qed.

(** Keys are byte lists; a signature is the key and the data, cut to length. *)
Definition plain_signature (k d : list N) : list N :=
  take 64 (((λ b, b `mod` 256)%N <$> k ++ d) ++ replicate 64 0%N).
Definition plain_crypto : CryptoOps := {|
  hmac_sha256 k d := (λ b, b `mod` 256)%N <$> k ++ d;
  SigningKey := list N; VerifyingKey := list N;
  signing_key_from_bytes l := l; verifying_key k := k; verifying_key_bytes k := k;
  verifying_key_from_bytes l := Some l; is_weak _ := false;
  ed25519_sign := plain_signature;
  verify_strict k d s := bool_decide (s = plain_signature k d);
  hex_decode := hex_read; from_utf8 l := Some (of_bytes l) |}.

Lemma of_bytes_bytes s : of_bytes (bytes s) = s.
Proof.
  unfold of_bytes, bytes. rewrite <- list_fmap_compose.
  transitivity (String.string_of_list_ascii (String.list_ascii_of_string s)).
  - f_equal. rewrite <- (list_fmap_id (String.list_ascii_of_string s)) at 2.
    apply list_fmap_ext. intros _ a _. simpl. apply ascii_N_embedding.
  - apply String.string_of_list_ascii_of_string.
Qed.

Lemma mod_bytes (l : list N) : Forall (λ b, (b < 256)%N) ((λ b, b `mod` 256)%N <$> l).
Proof. apply Forall_fmap, Forall_true. intros b. apply N.mod_lt. lia. Qed.

Lemma plain_crypto_laws : @crypto_laws plain_crypto.
Proof.
  split; simpl.
  - intros k d. apply mod_bytes.
  - intros k d. apply Forall_take, Forall_app. split; [apply mod_bytes|]. apply Forall_replicate. lia.
  - intros k d. unfold plain_signature. rewrite length_take, length_app, length_replicate. lia.
  - intros k d. by apply bool_decide_eq_true.
  - apply hex_read_hex.
  - intros s. by rewrite of_bytes_bytes.
Qed.

Module AuditSample.
#[local] Existing Instances plain_uuid milli_chrono code_json plain_sha256 plain_crypto.
Definition no_regex : RegexOps := {|
  Regex := unit; regex_new _ := None; replace_all _ s _ := s |}.
Definition tag_serde : EventSerde := {|
  event_kind_to_value k := Ok (obj [("type", Str (EventKind.type_tag k))]) |}.
#[local] Existing Instances no_regex tag_serde.

Definition key : AuditSigner := signer_new [1; 2; 3]%N.

Definition request (n : N) : Event := {|
  event_id := n; event_execution_id := mkExecutionId 7; sequence := Z.of_N n;
  event_kind := EventKind.ToolApprovalRequired "pay" "wire" "human" Null; created_at := 0 |}.

Definition world_at (en : Enricher AuditTable) (t : Z) (n : N) : world (Enricher AuditTable) :=
  World en (t * 1000000) n.
Definition fresh (t : AuditTable) : Enricher AuditTable := {|
  en_backend := t; en_seeded := false; en_head := None; en_failures := 0 |}.

(** Seal the [n]-th event at [t] milliseconds. *)
Definition sealed (n : N) (t : Z) (en : Enricher AuditTable) : Enricher AuditTable :=
  store (seal_approval_record key (request n) "default" (world_at en t n)).2.

Definition two : AuditTable := en_backend (sealed 2 2 (sealed 1 1 (fresh []))).

(** The entry an event becomes, stamped at [t]. *)
Definition stamped (n : N) (t : Z) (en : Enricher AuditTable) : option AuditLogEntry :=
  match (derive_entry (request n) None (world_at en t n)).1 with
  | Ok e => Some e | Err _ => None end.
Definition append (e : option AuditLogEntry) (en : Enricher AuditTable) : Enricher AuditTable :=
  match e with Some e => store (append_sealed key e (world_at en 9 9)).2 | None => en end.

(** Two seals interleave: the first is stamped, the second is stamped and
    appended, then the first is. The log verifies; but the process restarts,
    the next seal resumes from the entry stamped last, which is not the one
    appended last, and the log no longer verifies. *)
Example interleaved_seals_fork_after_restart :
  let first := stamped 1 1 (fresh []) in
  let second := stamped 2 2 (fresh []) in
  let log := en_backend (append first (append second (fresh []))) in
  verify_chain log key = Ok tt
  ∧ verify_chain (en_backend (sealed 3 3 (fresh log))) key = Err (BrokenLink 2).
Proof. vm_compute. by split. Qed.

(** Fields are not told apart when a text holds the separator: two different
    entries with one content hash. *)
Definition entry_by (event_type actor : string) : AuditLogEntry := {|
  ae_id := 1%N; ae_event_id := 1%N; ae_execution_id := "exec_1"; ae_sequence := 1;
  ae_event_type := event_type; ae_actor_id := actor; ae_actor_type := ActorType.Human;
  tool_call_hash := None; policy_decision := None; http_request_id := None; http_method := None;
  http_path := None; ip_address := None; ae_created_at := 0; raw_event := Null;
  ae_tenant_id := "default"; ae_expires_at := None; redacted := false; prev_hash := None;
  entry_hash := None; signature := None |}.
Definition SEP : string := String (ascii_of_N 31) "".

Example separator_in_a_field_collides :
  entry_by ("approval_received" +:+ SEP +:+ "bob") "x"
    ≠ entry_by "approval_received" ("bob" +:+ SEP +:+ "x")
  ∧ ∀ `{Sha256Ops} prev,
      entry_content_hash (entry_by ("approval_received" +:+ SEP +:+ "bob") "x") prev
      = entry_content_hash (entry_by "approval_received" ("bob" +:+ SEP +:+ "x")) prev.
Proof. split; [done|]. intros. reflexivity. Qed.

(** A caller's filter is pasted into the statement: it can close the quote and
    drop the tenant condition. *)
Example audit_filter_drops_tenant :
  where_clause {| aq_from := None; aq_to := None; aq_actor_id := Some "x' OR 1=1 --";
    aq_event_type := None; aq_execution_id := None; aq_tenant_id := Some "acme";
    aq_limit := 50; aq_offset := 0 |}
  = "1=1 AND actor_id = 'x' OR 1=1 --' AND tenant_id = 'acme'".
Proof. reflexivity. Qed.

Lemma keeps_chain_witness :
  let en := sealed 1 1 (fresh []) in
  match stamped 2 2 en with
  | Some e => chain_inv key (store (append_sealed key e (world_at en 2 2)).2)
  | None => False
  end.
Proof.
  intros en. assert (chain_inv key en) as Hinv by (vm_compute; by split).
  assert (match stamped 2 2 en with
    | Some e => bool_decide (ae_id e ∈ ae_id <$> en_backend en) = false
    | None => False end) as Hid by (vm_compute; reflexivity).
  destruct (stamped 2 2 en) as [e|]; [|exact Hid]. apply bool_decide_eq_false in Hid.
  destruct (append_sealed key e (world_at en 2 2)) as [r w'] eqn:Hrun.
  exact (proj1 (seal_keeps_chain key e (world_at en 2 2) w' r plain_crypto_laws I eq_refl Hinv
    (or_introl eq_refl) Hid Hrun)).
Defined.

(** The last entry with an empty address where it had none, and a log of another
    first event, sealed with the same key. *)
Definition with_empty_ip (e : AuditLogEntry) : AuditLogEntry := {|
  ae_id := ae_id e; ae_event_id := ae_event_id e; ae_execution_id := ae_execution_id e;
  ae_sequence := ae_sequence e; ae_event_type := ae_event_type e; ae_actor_id := ae_actor_id e;
  ae_actor_type := ae_actor_type e; tool_call_hash := tool_call_hash e;
  policy_decision := policy_decision e; http_request_id := http_request_id e;
  http_method := http_method e; http_path := http_path e; ip_address := Some "";
  ae_created_at := ae_created_at e; raw_event := raw_event e; ae_tenant_id := ae_tenant_id e;
  ae_expires_at := ae_expires_at e; redacted := redacted e; prev_hash := prev_hash e;
  entry_hash := entry_hash e; signature := signature e |}.
Definition rewritten : AuditTable :=
  match two with [a; b] => [a; with_empty_ip b] | _ => [] end.
Definition forged : AuditTable := en_backend (sealed 2 2 (sealed 3 1 (fresh []))).

Lemma four_entries (l : list AuditLogEntry) d :
  length l = 4%nat → l = [nth 0 l d; nth 1 l d; nth 2 l d; nth 3 l d].
Proof. by destruct l as [|? [|? [|? [|? []]]]]. Qed.

Ltac entries_wf :=
  match goal with |- Forall _ ?l => rewrite (four_entries l (entry_by "" "") eq_refl) end;
  repeat (constructor; [split;
    first [ vm_compute; reflexivity
          | split; vm_compute; [discriminate|reflexivity]
          | refine (bool_decide_eq_true_1 _ _); vm_compute; reflexivity ]|]); constructor.

Definition hashed (e : AuditLogEntry) : list N :=
  separated_fields (content_fields e (prev_hash e)).
Lemma collision_free_check es :
  forallb (λ a, forallb (λ b,
    negb (bool_decide (Sha256_digest (hashed a) = Sha256_digest (hashed b)))
    || bool_decide (hashed a = hashed b)) es) es = true →
  contents_collision_free es.
Proof.
  intros Hall. split; [by intros [|]|]. intros a b Ha Hb pre Heq.
  rewrite forallb_forall in Hall. specialize (Hall a ltac:(by apply list_elem_of_In)).
  rewrite forallb_forall in Hall. specialize (Hall b ltac:(by apply list_elem_of_In)).
  unfold hashed in Hall. subst pre. cbv beta in Heq |- *. rewrite (bool_decide_eq_true_2 _ Heq) in Hall.
  by apply bool_decide_eq_true_1 in Hall.
Qed.

(** The log and its rewriting have one head and the same content, though they are
    not equal; the forged log verifies too, and its head gives it away. *)
Lemma binds_witness :
  (Forall2 same_record two rewritten ∧ two ≠ rewritten)
  ∧ verify_chain forged key = Ok tt ∧ head_after None two ≠ head_after None forged.
Proof.
  assert (verify_chain two key = Ok tt) as Hv by (vm_compute; reflexivity).
  assert (verify_chain rewritten key = Ok tt) as Hr by (vm_compute; reflexivity).
  assert (verify_chain forged key = Ok tt) as Hf by (vm_compute; reflexivity).
  split; [split|split].
  - apply (chain_binds_content key key two rewritten); [| |exact Hv|exact Hr|].
    + apply collision_free_check. vm_compute. reflexivity.
    + entries_wf.
    + vm_compute. reflexivity.
  - vm_compute. discriminate.
  - exact Hf.
  - intros Hh. assert (Forall2 same_record two forged) as Hsame.
    { apply (chain_binds_content key key two forged); [| |exact Hv|exact Hf|exact Hh].
      - apply collision_free_check. vm_compute. reflexivity.
      - entries_wf. }
    apply Forall2_cons_1 in Hsame as [[Hrec _] _]. vm_compute in Hrec. discriminate Hrec.
Defined.

Lemma purged_witness :
  ∃ e, verify_chain (drop 1 two) key = Err e ∧ chain_error_index e = 0.
Proof.
  assert (verify_chain (take 1 two ++ drop 1 two) key = Ok tt) as Hv by (vm_compute; reflexivity).
  apply (purged_chain_rejected key key _ _ Hv); by vm_compute.
Defined.

Lemma from_env_witness :
  let env := {| signing_mode := None; signing_key := Some "k"; allow_insecure_key := None;
    ed25519_key := None; ed25519_key_file := None; read_key_file _ := Err "" |} in
  ∃ t, sign (signer_from_env (λ s, s) env) (bytes "h") = Some t
    ∧ verify (signer_from_env (λ s, s) env) (bytes "h") t = true.
Proof.
  intros env. destruct (signer_from_env_correct (λ s, s) env plain_crypto_laws) as (Hs & _ & _).
  by apply Hs.
Defined.
End AuditSample.
