(* ===== verification/Projector.v ===== *)
(** * The approval projector ([scheduler/src/projector.rs])

    A background pass folds the approval events each running execution gained
    since its checkpoint into rows keyed by node. The rows are the fold of the
    log up to the checkpoint, whatever the batches were; on a log this build can
    read they say what [node_approval_status] says. *)

From S2P Require Import Prelude.
From S2P Require Import Json.
From S2P Require Import RustStr.
From S2P Require Import Core.
From S2P Require Import Condition.
From S2P Require Import Event.
From S2P Require Import Materializer.
From S2P Require Import Hashing.
From S2P Require Import Approvals.
From S2P Require Import Backend.
From S2P Require Import Memory.
From S2P Require Import Lease.
From S2P Require Import History.
From S2P Require Import MemoryLaws.

Definition PROJECTOR : string := "approvals".
Definition PAGE_SIZE : Z := 100.

Definition seq_le (a b : Event) : Prop := sequence a ≤ sequence b.
#[export] Instance seq_le_dec : RelDecision seq_le.
Proof. intros a b. unfold seq_le. apply _. Defined.
#[export] Instance seq_le_trans : Transitive seq_le.
Proof. intros a b c. unfold seq_le. lia. Qed.
#[export] Instance seq_le_total : Total seq_le.
Proof. intros a b. unfold seq_le. lia. Qed.

Section Projector.
Context `{!UuidOps, !ChronoOps, !IterOrder string}.

(** The row of a request, of a decision and of an expiry. *)
Definition requested_row (id : ExecutionId) (node_id tool_name approver : string) (context : Value)
    (seq : Z) : ApprovalProjectionRow := {|
  ap_execution_id := id; ap_node_id := node_id; ap_status := "pending"; ap_user_id := None;
  ap_comment := None; ap_last_sequence := seq; ap_tool_name := Some tool_name;
  ap_approver := Some approver; ap_context := Some context |}.

Definition decided_row (id : ExecutionId) (node_id status user_id : string) (comment : option string)
    (seq : Z) (context : option Value) : ApprovalProjectionRow := {|
  ap_execution_id := id; ap_node_id := node_id; ap_status := status; ap_user_id := Some user_id;
  ap_comment := comment; ap_last_sequence := seq; ap_tool_name := None; ap_approver := None;
  ap_context := context |}.

Definition decision_status (d : ApprovalDecision) : string :=
  match d with Approved => "approved" | Rejected => "rejected" end.

Definition is_pending_row (r : option ApprovalProjectionRow) : bool :=
  match r with Some r => bool_decide (ap_status r = "pending") | None => false end.

(** What one event does to the row of a node: the new row, if it writes one. *)
Definition event_row (id : ExecutionId) (row : string → option ApprovalProjectionRow) (e : Event)
    : option ApprovalProjectionRow :=
  match event_kind e with
  | EventKind.ToolApprovalRequired n tool_name approver context =>
      Some (requested_row id n tool_name approver context (sequence e))
  | EventKind.ApprovalReceived n user_id decision comment _ _ approved_digest _ =>
      if is_pending_row (row n)
      then Some (decided_row id n (decision_status decision) user_id comment (sequence e)
        ((λ d, obj [("approved_digest", Str d)]) <$> approved_digest))
      else None
  | EventKind.ApprovalExpired n request_sequence expires_at principal =>
      if is_pending_row (row n)
         && bool_decide (ap_last_sequence <$> row n = Some request_sequence)
      then Some (decided_row id n "rejected" principal (Some (expiry_comment expires_at))
        (sequence e) None)
      else None
  | _ => None
  end.

(** The loop's [node_map] and [touched]. *)
Record Fold := { node_map : gmap string ApprovalProjectionRow; touched : gset string }.

Definition fold_event (id : ExecutionId) (f : Fold) (e : Event) : Fold :=
  match event_row id (λ n, node_map f !! n) e with
  | Some row => {| node_map := <[ap_node_id row := row]> (node_map f);
                   touched := {[ap_node_id row]} ∪ touched f |}
  | None => f
  end.

(** [touched.iter().filter_map(|n| node_map.remove(n))]. *)
Definition rows_to_write (f : Fold) : list ApprovalProjectionRow :=
  omap (λ n, node_map f !! n) (iter_map (gset_to_gmap tt (touched f))).*1.

Section Pass.
Context {S : Type} `{HB : StateBackend S}.

Definition project_execution (execution_id : ExecutionId) : bk S Z :=
  cp ← get_projector_checkpoint PROJECTOR execution_id;
  events ← get_events_since execution_id cp;
  let events := merge_sort seq_le events in
  match events with
  | [] => mret 0
  | _ =>
      let batch_max := foldr Z.max 0 (sequence <$> events) in
      existing ← get_approval_projection execution_id;
      let f := foldl (fold_event execution_id)
        {| node_map := foldl (λ m r, <[ap_node_id r := r]> m) ∅ existing; touched := ∅ |} events in
      let rows := rows_to_write f in
      if decide (rows = []) then
        set_projector_checkpoint PROJECTOR execution_id batch_max ≫= λ _, mret 0
      else
        apply_approval_projection_batch rows PROJECTOR execution_id batch_max ≫= λ _,
        mret (Z.of_nat (length rows))
  end.

(** One page of a tick: an execution that fails is skipped. *)
Fixpoint project_page (page : list WorkflowExecution) (total : Z) : bk S Z :=
  match page with
  | [] => mret total
  | exec :: page =>
      n ← recover (project_execution (execution_id exec)) (λ _, mret 0);
      project_page page (total + n)
  end.

(** The page loop; [None] if [pages] ran out before it ended. *)
Fixpoint tick_pages (pages : nat) (offset total : Z) : bk S (option Z) :=
  match pages with
  | O => mret None
  | Datatypes.S pages =>
      page ← list_executions (Some WorkflowStatus.Running) PAGE_SIZE offset;
      let page_len := Z.of_nat (length page) in
      total ← project_page page total;
      if decide (page_len < PAGE_SIZE) then mret (Some total)
      else tick_pages pages (u32_add offset page_len) total
  end.

Definition project_tick (pages : nat) : bk S (option Z) := tick_pages pages 0 0.
End Pass.
End Projector.

(** ** The fold, node by node *)

Section Folding.
Context `{!UuidOps, !ChronoOps, !IterOrder string}.

(** What an event does to the row of [n]. *)
Definition row_step (id : ExecutionId) (n : string) (o : option ApprovalProjectionRow) (e : Event)
    : option ApprovalProjectionRow :=
  match event_row id (λ _, o) e with
  | Some row => if decide (ap_node_id row = n) then Some row else o
  | None => o
  end.

(** The row of [n] after these events. *)
Definition projected (id : ExecutionId) (n : string) (events : list Event)
    : option ApprovalProjectionRow := foldl (row_step id n) None events.

Lemma fold_event_lookup id f e n :
  node_map (fold_event id f e) !! n = row_step id n (node_map f !! n) e.
Proof.
  unfold fold_event, row_step, event_row.
  destruct (event_kind e); try done; cbn [ap_node_id requested_row].
  - destruct (decide (node_id = n)) as [->|Hn].
    + destruct (is_pending_row (node_map f !! n)); [|done]. cbn.
      by rewrite decide_True, lookup_insert_eq.
    + destruct (is_pending_row (node_map f !! node_id)), (is_pending_row (node_map f !! n)); cbn;
        try (rewrite decide_False by done); try (rewrite lookup_insert_ne by done); done.
  - case_decide as Hn; [subst; cbn; by rewrite lookup_insert_eq|cbn; by rewrite lookup_insert_ne].
  - destruct (decide (node_id = n)) as [->|Hn].
    + destruct (_ && _); [|done]. cbn. by rewrite decide_True, lookup_insert_eq.
    + destruct (is_pending_row (node_map f !! node_id) && _), (is_pending_row (node_map f !! n) && _);
        cbn; try (rewrite decide_False by done); try (rewrite lookup_insert_ne by done); done.
Qed.

Lemma fold_events_lookup id evs f n :
  node_map (foldl (fold_event id) f evs) !! n = foldl (row_step id n) (node_map f !! n) evs.
Proof.
  revert f. induction evs as [|e evs IH]; intros f; [done|]. cbn. by rewrite IH, fold_event_lookup.
Qed.

(** The rows to write are those the fold changed, each under its own node. *)
Definition fold_ok (id : ExecutionId) (m0 : gmap string ApprovalProjectionRow) (f : Fold) : Prop :=
  (∀ n, n ∉ touched f → node_map f !! n = m0 !! n)
  ∧ ∀ n, n ∈ touched f → ∃ r, node_map f !! n = Some r ∧ ap_node_id r = n ∧ ap_execution_id r = id.

Lemma event_row_run id row e r : event_row id row e = Some r → ap_execution_id r = id.
Proof.
  unfold event_row. destruct (event_kind e); try done; try (by intros [= <-]);
    case_match; try done; by intros [= <-].
Qed.

Lemma fold_event_ok id m0 f e : fold_ok id m0 f → fold_ok id m0 (fold_event id f e).
Proof.
  unfold fold_event. destruct (event_row _ _ e) as [r|] eqn:Hr; [|done].
  apply event_row_run in Hr. intros [Hout Hin]. split; cbn.
  - intros n Hn. apply not_elem_of_union in Hn as [Hn Hn']. apply not_elem_of_singleton in Hn.
    rewrite lookup_insert_ne by done. by apply Hout.
  - intros n Hn. destruct (decide (n = ap_node_id r)) as [->|Hne].
    + exists r. by rewrite lookup_insert_eq.
    + apply elem_of_union in Hn as [Hn%elem_of_singleton|Hn]; [done|].
      rewrite lookup_insert_ne by done. by apply Hin.
Qed.

Lemma fold_events_ok id m0 evs f : fold_ok id m0 f → fold_ok id m0 (foldl (fold_event id) f evs).
Proof.
  revert f. induction evs as [|e evs IH]; intros f Hf; [done|]. by apply IH, fold_event_ok.
Qed.

Lemma elem_of_rows_to_write f r :
  r ∈ rows_to_write f ↔ ∃ n, n ∈ touched f ∧ node_map f !! n = Some r.
Proof.
  unfold rows_to_write. rewrite list_elem_of_omap. split.
  - intros (n & Hn & Hr). exists n. split; [|done].
    apply list_elem_of_fmap in Hn as ([n' u] & -> & Hn). apply iter_map_elem in Hn.
    by apply lookup_gset_to_gmap_Some in Hn as [? _].
  - intros (n & Hn & Hr). exists n. split; [|done]. apply list_elem_of_fmap. exists (n, tt).
    split; [done|]. apply iter_map_elem. by apply lookup_gset_to_gmap_Some.
Qed.
End Folding.

(** ** Inserting a list under its own keys *)

Section Keyed.
Context {K A : Type} `{Countable K} (key : A → K).

Definition insert_all (m : gmap K A) (l : list A) : gmap K A := foldl (λ m x, <[key x := x]> m) m l.

Lemma insert_all_out l m k : (∀ x, x ∈ l → key x ≠ k) → insert_all m l !! k = m !! k.
Proof.
  revert m. induction l as [|y l IH]; intros m Hl; [done|]. cbn. rewrite IH.
  - apply lookup_insert_ne, Hl. left.
  - intros x Hx. apply Hl. by right.
Qed.

Lemma insert_all_in l m k x :
  x ∈ l → key x = k → (∀ y, y ∈ l → key y = k → y = x) → insert_all m l !! k = Some x.
Proof.
  revert m. induction l as [|y l IH]; intros m Hx Hk Hu; [by apply not_elem_of_nil in Hx|]. cbn.
  destruct (decide (Exists (λ z, key z = k) l)) as [Hin|Hout].
  - apply Exists_exists in Hin as (z & Hz & Hzk). rewrite (Hu z) in Hz; [|by right|done].
    apply IH; [done|done|]. intros z' Hz'. apply Hu. by right.
  - rewrite Exists_exists in Hout. apply elem_of_cons in Hx as [->|Hx]; [|destruct Hout; by exists x].
    change (insert_all (<[key y := y]> m) l !! k = Some y). rewrite insert_all_out.
    + by rewrite Hk, lookup_insert_eq.
    + intros z Hz Hzk. apply Hout. by exists z.
Qed.
End Keyed.

(** ** The projection of a run is the fold of its log *)

Section InMem.
Context `{!UuidOps, !ChronoOps, !JsonText, !Sha256Ops, !IterOrder string, !IterOrder ExecutionId,
  !IterOrder N, !IterOrder TenantId, !IterOrder (string * string)}.

Definition row_key (r : ApprovalProjectionRow) : string * string :=
  (uuid_hyphenated (exec_uuid (ap_execution_id r)), ap_node_id r).

Definition view_row (s : InMemoryBackend) (id : ExecutionId) (n : string)
    : option ApprovalProjectionRow := proj_approvals s !! (uuid_hyphenated (exec_uuid id), n).

Definition checkpoint_of (s : InMemoryBackend) (id : ExecutionId) : Z :=
  default 0 (projector_checkpoints s !! (PROJECTOR, uuid_hyphenated (exec_uuid id))).

Definition rows_keyed (s : InMemoryBackend) : Prop :=
  ∀ k r, proj_approvals s !! k = Some r → k = row_key r.

(** The run's rows are the fold of its log up to its checkpoint. *)
Definition projects (s : InMemoryBackend) (id : ExecutionId) : Prop :=
  rows_keyed s ∧ checkpoint_of s id < next_sequence s
  ∧ ∀ n, view_row s id n = projected id n (events_upto (checkpoint_of s id) (log_of s id)).

(** The rows read at the start of a pass, as its node map. *)
Lemma seeded s id n (w : world InMemoryBackend) :
  rows_keyed s → store w = s →
  ∃ rows, InMemory.get_approval_projection id w = (Ok rows, w)
        ∧ (foldl (λ m r, <[ap_node_id r := r]> m) ∅ rows : gmap string ApprovalProjectionRow) !! n
          = view_row s id n.
Proof.
  intros Hk <-. eexists. split; [reflexivity|].
  set (rows := merge_sort row_le _).
  assert (∀ r, r ∈ rows ↔ ∃ n, view_row (store w) id n = Some r) as Hin.
  { intros r. subst rows. rewrite merge_sort_Permutation, list_elem_of_fmap. split.
    - intros ([[e m] r'] & -> & Hf). apply list_elem_of_filter in Hf as [He Hf].
      apply iter_map_elem in Hf. cbn in He. subst e. by exists m.
    - intros [m Hm]. exists ((uuid_hyphenated (exec_uuid id), m), r). split; [done|].
      apply list_elem_of_filter. split; [done|]. by apply iter_map_elem. }
  assert (∀ m r, view_row (store w) id m = Some r → ap_node_id r = m) as Hnode.
  { intros m r Hr. apply Hk in Hr. by injection Hr. }
  change (insert_all ap_node_id ∅ rows !! n = view_row (store w) id n).
  destruct (view_row (store w) id n) as [r|] eqn:Hv.
  - apply insert_all_in; [apply Hin; eauto|by apply Hnode|].
    intros r' [m Hm]%Hin Hn. rewrite (Hnode _ _ Hm) in Hn. congruence.
  - rewrite insert_all_out; [apply lookup_empty|]. intros r [m Hm]%Hin Hn.
    rewrite (Hnode _ _ Hm) in Hn. congruence.
Qed.

(** The batch a pass writes. *)
Lemma batch_run rows name id cp (w : world InMemoryBackend) :
  ∃ w', InMemory.apply_approval_projection_batch rows name id cp w = (Ok tt, w')
    ∧ store w' = InMemory.put_checkpoint name id cp
        (set_proj_approvals (insert_all row_key (proj_approvals (store w)) rows) (store w)).
Proof.
  unfold InMemory.apply_approval_projection_batch. revert w.
  induction rows as [|r rows IH]; intros w; cbn [for_each].
  - rewrite bind_mret. eexists. split; [reflexivity|]. by destruct w as [[]].
  - rewrite bind_assoc, bind_modify.
    destruct (IH (World (InMemory.put_projection r (store w)) (clock w) (draws w))) as (w' & -> & Hw').
    eexists. split; [reflexivity|]. rewrite Hw'. done.
Qed.

Lemma sorted_after cp log : log_sorted log → merge_sort seq_le (events_after cp log) = events_after cp log.
Proof.
  intros Hs.
  assert (log_sorted (events_after cp log)) as Ha.
  { rewrite <- (events_split cp log Hs) in Hs. by apply log_sorted_app in Hs as (_ & ? & _). }
  apply (StronglySorted_unique_strong seq_le).
  - intros a b Hin Hb Hab Hba. rewrite merge_sort_Permutation in Hin.
    eapply log_sorted_inj; [exact Ha|done|done|]. unfold seq_le in *. lia.
  - apply (StronglySorted_merge_sort seq_le).
  - clear Hs. induction Ha as [|a l _ IH Hf]; constructor; [done|].
    eapply Forall_impl; [exact Hf|]. intros b Hlt. cbn in Hlt. unfold seq_le. lia.
  - apply merge_sort_Permutation.
Qed.

Lemma max_ge (l : list Z) x : x ∈ l → x ≤ foldr Z.max 0 l.
Proof. induction 1 as [l'|y l' z Hx IH]; cbn; lia. Qed.
Lemma max_lt (l : list Z) b : 0 < b → (∀ x, x ∈ l → x < b) → foldr Z.max 0 l < b.
Proof.
  intros Hb. induction l as [|x l IH]; intros Hl; [done|]. cbn.
  pose proof (Hl x ltac:(left)). assert (foldr Z.max 0 l < b); [|lia]. apply IH. intros y Hy.
  apply Hl. by right.
Qed.

(** The checkpoint a pass leaves covers the whole log. *)
Lemma batch_max_covers cp log :
  log_sorted log → events_after cp log ≠ [] → ∀ e, e ∈ log →
  sequence e ≤ foldr Z.max 0 (sequence <$> events_after cp log).
Proof.
  intros Hs Hne e He. rewrite <- (events_split cp log Hs) in He.
  apply elem_of_app in He as [He|He]; [|by apply max_ge, list_elem_of_fmap_2].
  destruct (events_after cp log) as [|a l] eqn:Ha; [done|].
  assert (a ∈ events_after cp log) as Hin by (rewrite Ha; left).
  apply list_elem_of_filter in He as [He _], Hin as [Hin _].
  assert (sequence a ≤ foldr Z.max 0 (sequence <$> a :: l)) by (apply max_ge; left). lia.
Qed.

Lemma fold_all id s n :
  projects s id → log_sorted (log_of s id) →
  foldl (row_step id n) (view_row s id n) (events_after (checkpoint_of s id) (log_of s id))
  = projected id n (log_of s id).
Proof.
  intros (_ & _ & Hrows) Hs. rewrite Hrows. unfold projected.
  by rewrite <- foldl_app, events_split.
Qed.

Lemma fold_ok_start id m : fold_ok id m {| node_map := m; touched := ∅ |}.
Proof. split; cbn; [done|]. intros n Hn. by apply not_elem_of_empty in Hn. Qed.

(** What the written batch makes of the rows: the fold's map. *)
Lemma written_rows id f m0 s n :
  fold_ok id m0 f → rows_keyed s → m0 !! n = view_row s id n →
  insert_all row_key (proj_approvals s) (rows_to_write f) !! (uuid_hyphenated (exec_uuid id), n)
  = node_map f !! n.
Proof.
  intros [Hout Hin] Hk Hseed. destruct (decide (n ∈ touched f)) as [Ht|Ht].
  - destruct (Hin n Ht) as (r & Hr & Hn & Hid). rewrite Hr. apply insert_all_in.
    + apply elem_of_rows_to_write. by exists n.
    + unfold row_key. by rewrite Hn, Hid.
    + intros y (m & Hm & Hy)%elem_of_rows_to_write Hkey. destruct (Hin m Hm) as (r' & Hr' & Hn' & _).
      unfold row_key in Hkey. injection Hkey as _ Hkey. congruence.
  - rewrite insert_all_out, Hout, Hseed; [done..|].
    intros y (m & Hm & Hy)%elem_of_rows_to_write Hkey. destruct (Hin m Hm) as (r' & Hr' & Hn' & _).
    unfold row_key in Hkey. injection Hkey as _ Hkey. congruence.
Qed.

Lemma insert_all_keyed s rows :
  rows_keyed s → ∀ k r, insert_all row_key (proj_approvals s) rows !! k = Some r → k = row_key r.
Proof.
  intros Hk. unfold insert_all. revert Hk. unfold rows_keyed. generalize (proj_approvals s).
  induction rows as [|y rows IH]; intros m Hm k r; [apply Hm|]. cbn. apply IH.
  intros k' r' [[<- <-]|[_ Hk']]%lookup_insert_Some; [done|by apply Hm].
Qed.

Lemma checkpoint_put s id cp : checkpoint_of (InMemory.put_checkpoint PROJECTOR id cp s) id = cp.
Proof. unfold checkpoint_of, InMemory.put_checkpoint. cbn. by rewrite lookup_insert_eq. Qed.

(** A pass over one run answers; it touches no log; and the run's rows are then
    the fold of its whole log. *)
Lemma project_execution_run id (w : world InMemoryBackend) :
  logs_inv (store w) → projects (store w) id →
  ∃ n w', project_execution id w = (Ok n, w')
    ∧ (∀ i, log_of (store w') i = log_of (store w) i)
    ∧ next_sequence (store w') = next_sequence (store w)
    ∧ executions (store w') = executions (store w)
    ∧ projects (store w') id
    ∧ (∀ m, view_row (store w') id m = projected id m (log_of (store w) id))
    ∧ ∀ i, uuid_hyphenated (exec_uuid i) ≠ uuid_hyphenated (exec_uuid id) →
        checkpoint_of (store w') i = checkpoint_of (store w) i
        ∧ ∀ m, view_row (store w') i m = view_row (store w) i m.
Proof.
  intros [Hnext Hlogs] Hp. pose proof Hp as (Hk & Hcp & Hrows). destruct (Hlogs id) as [Hs Hpos].
  set (log := log_of (store w) id). set (cp := checkpoint_of (store w) id).
  unfold project_execution.
  assert (get_projector_checkpoint PROJECTOR id w = (Ok cp, w)) as Hget by done.
  rewrite (bind_run _ _ _ _ _ Hget), (bind_run _ _ _ _ _ (law_get_events_since id cp w)).
  change (view_log (store w) id) with log. cbv zeta. rewrite (sorted_after cp log Hs).
  pose proof (fold_all id (store w)) as Hfold. fold log cp in Hfold.
  assert (∀ m, events_after cp log = m → m ≠ [] →
    (∀ e, e ∈ log → sequence e ≤ foldr Z.max 0 (sequence <$> m))
    ∧ foldr Z.max 0 (sequence <$> m) < next_sequence (store w)) as Hmax.
  { intros m <- Hne. split; [by apply batch_max_covers|]. apply max_lt; [lia|].
    intros x (a & -> & Ha)%list_elem_of_fmap. apply list_elem_of_filter in Ha as [_ Ha]. by apply Hpos. }
  destruct (events_after cp log) as [|e evs].
  { exists 0, w. split_and!; try done. intros m. by rewrite <- (Hfold m Hp Hs). }
  assert (∀ s i, uuid_hyphenated (exec_uuid i) ≠ uuid_hyphenated (exec_uuid id) → ∀ b,
    checkpoint_of (InMemory.put_checkpoint PROJECTOR id b s) i = checkpoint_of s i) as Hothers.
  { intros s i Hi b. unfold checkpoint_of, InMemory.put_checkpoint. cbn.
    rewrite lookup_insert_ne; [done|congruence]. }
  set (batch := e :: evs) in *. destruct (Hmax batch eq_refl ltac:(done)) as [Hcover Hbm].
  set (bm := foldr Z.max 0 (sequence <$> batch)) in *.
  assert (events_upto bm log = log) as Hall by (by apply events_upto_all).
  destruct (seeded (store w) id "" w Hk eq_refl) as (rows & Hrd & _).
  change (InMemory.get_approval_projection id w) with (get_approval_projection id w) in Hrd.
  rewrite (bind_run _ _ _ _ _ Hrd). set (m0 := foldl _ ∅ rows).
  assert (∀ n, m0 !! n = view_row (store w) id n) as Hseed.
  { intros n. destruct (seeded (store w) id n w Hk eq_refl) as (rows' & Hrd' & Hn).
    change (InMemory.get_approval_projection id w) with (get_approval_projection id w) in Hrd'.
    rewrite Hrd in Hrd'. injection Hrd' as <-. exact Hn. }
  set (f := foldl (fold_event id) _ _).
  pose proof (fold_events_ok id m0 batch _ (fold_ok_start id m0)) as Hok. fold f in Hok.
  assert (∀ n, node_map f !! n = projected id n log) as Hf.
  { intros n. subst f. rewrite fold_events_lookup. cbn [node_map]. rewrite Hseed. by apply Hfold. }
  case_decide as Hempty.
  - do 2 eexists. split; [reflexivity|]. cbn [store snd].
    assert (∀ n, view_row (store w) id n = projected id n log) as Hsame.
    { intros n. rewrite <- Hf, <- Hseed. symmetry. apply Hok. intros Hn.
      destruct (proj2 Hok n Hn) as (r & Hr & _).
      assert (r ∈ rows_to_write f) as Hin by (apply elem_of_rows_to_write; by exists n).
      rewrite Hempty in Hin. by apply not_elem_of_nil in Hin. }
    split_and!; try done; [|by intros i Hi; rewrite Hothers].
    unfold projects. rewrite checkpoint_put. split_and!; [exact Hk|exact Hbm|].
    intros n. change (view_row (store w) id n = projected id n (events_upto bm log)). by rewrite Hall.
  - destruct (batch_run (rows_to_write f) PROJECTOR id bm w) as (w' & Hrun & Hst).
    change (InMemory.apply_approval_projection_batch (rows_to_write f) PROJECTOR id bm w) with
      (apply_approval_projection_batch (rows_to_write f) PROJECTOR id bm w) in Hrun.
    rewrite (bind_run _ _ _ _ _ Hrun). do 2 eexists. split; [reflexivity|].
    assert (∀ n, view_row (store w') id n = projected id n log) as Hnew.
    { intros n. rewrite Hst, <- Hf. unfold view_row. cbn. by eapply written_rows. }
    rewrite Hst. split_and!; try done; [|by rewrite <- Hst|]; cycle 1.
    { intros i Hi. rewrite Hothers by done. split; [done|]. intros m. unfold view_row. cbn.
      rewrite insert_all_out; [done|]. intros r (n & Hn & Hr)%elem_of_rows_to_write Hkey.
      destruct Hok as [_ Hin]. destruct (Hin n Hn) as (r' & Hr' & _ & Hid).
      change (node_map f !! n = Some r) in Hr. assert (r' = r) as -> by congruence. unfold row_key in Hkey. rewrite Hid in Hkey.
      injection Hkey as Hkey _. by apply Hi. }
    unfold projects. rewrite checkpoint_put. split_and!.
    + exact (insert_all_keyed (store w) (rows_to_write f) Hk).
    + exact Hbm.
    + intros n. transitivity (projected id n (events_upto bm log)); [by rewrite Hall, <- Hnew, Hst|done].
Qed.
End InMem.

(** ** Passes between other callers *)

Section Interleaved.
Context `{!UuidOps, !ChronoOps, !JsonText, !Sha256Ops, !IterOrder string, !IterOrder ExecutionId,
  !IterOrder N, !IterOrder TenantId, !IterOrder (string * string)}.

(** Over any history the log grows by events past its store's counter. *)
Lemma hist_steps_grow Adm s s' id :
  hist_steps Adm s s' →
  next_sequence s ≤ next_sequence s'
  ∧ ∃ new, log_of s' id = log_of s id ++ new ∧ ∀ e, e ∈ new → next_sequence s ≤ sequence e.
Proof.
  induction 1 as [|s s1 s2 Hs _ (Hn & new & Hlog & Hnew)].
  { split; [done|]. exists []. split; [by rewrite app_nil_r|]. intros e He.
    by apply not_elem_of_nil in He. }
  assert (same_logs s s1 → next_sequence s ≤ next_sequence s2
    ∧ ∃ new, log_of s2 id = log_of s id ++ new ∧ ∀ e, e ∈ new → next_sequence s ≤ sequence e) as Hsame.
  { intros [Hl Hn']. split; [lia|]. exists new. rewrite Hlog, Hl. split; [done|].
    intros e He. specialize (Hnew e He). lia. }
  destruct Hs as [?|ev id' _ _ Hl Hn1 _ _|? ? ?|? ? ? ? ? ? ?|? ? ? ? ?]; try by apply Hsame.
  split; [lia|]. rewrite Hlog, Hl. case_decide; [subst id'|exists new].
  - exists ([set_sequence ev (next_sequence s)] ++ new). split; [by rewrite <- app_assoc|].
    intros e [->%list_elem_of_singleton|He]%elem_of_app; [done|]. specialize (Hnew e He). lia.
  - split; [done|]. intros e He. specialize (Hnew e He). lia.
Qed.

(** What others do to the store keeps a projection one of its log's prefix. *)
Lemma projects_kept op id (w : world InMemoryBackend) :
  op_hist_ok any_event (store w) op → side_op op = false →
  projects (store w) id → projects (store (run_op op w).2) id.
Proof.
  intros Hok Hside (Hk & Hcp & Hrows).
  destruct (res_run_op op w Hside) as (_ & Hp & Hc).
  destruct (hist_steps_grow any_event _ _ id (run_op_hist any_event (λ _ _ _, I) op w Hok)) as (Hn & new & Hlog & Hnew).
  unfold projects, rows_keyed, checkpoint_of, view_row. rewrite Hp, Hc.
  fold (checkpoint_of (store w) id). split_and!; [done|lia|].
  intros n. rewrite Hlog. unfold events_upto. rewrite filter_app.
  fold (events_upto (checkpoint_of (store w) id) (log_of (store w) id)).
  fold (events_upto (checkpoint_of (store w) id) new).
  rewrite (events_upto_none _ new), app_nil_r; [apply Hrows|]. intros e He. specialize (Hnew e He). lia.
Qed.

(** The text of an id determines it. *)
Context `{Htext : !Inj (=) (=) uuid_hyphenated}.

Definition all_project (s : InMemoryBackend) : Prop := ∀ id, projects s id.
(** The run's rows are the fold of its whole log. *)
Definition up_to_date (s : InMemoryBackend) (id : ExecutionId) : Prop :=
  ∀ n, view_row s id n = projected id n (log_of s id).

(** A pass brings its run up to date and leaves every other where it was. *)
Lemma pass_run id (w : world InMemoryBackend) :
  logs_inv (store w) → all_project (store w) →
  ∃ n w', project_execution id w = (Ok n, w')
    ∧ logs_inv (store w') ∧ all_project (store w') ∧ executions (store w') = executions (store w)
    ∧ (∀ i, log_of (store w') i = log_of (store w) i)
    ∧ up_to_date (store w') id
    ∧ ∀ i, up_to_date (store w) i → up_to_date (store w') i.
Proof.
  intros Hl Hp.
  destruct (project_execution_run id w Hl (Hp id))
    as (n & w' & Hrun & Hlog & Hnext & Hex & [Hk Hp'] & Hview & Hothers).
  assert (∀ i, i ≠ id → uuid_hyphenated (exec_uuid i) ≠ uuid_hyphenated (exec_uuid id)) as Hne.
  { intros [i] Hi Heq. apply Hi. apply (inj uuid_hyphenated) in Heq. cbn in Heq. subst. by destruct id. }
  exists n, w'. split_and!; try done.
  - destruct Hl as [Hn Hl]. split; [lia|]. intros i. rewrite Hlog, Hnext. apply Hl.
  - intros i. destruct (decide (i = id)) as [->|Hi]; [done|]. destruct (Hothers i (Hne i Hi)) as [Hc Hv].
    destruct (Hp i) as (_ & Hb & Hr). unfold projects. rewrite Hc, Hnext. split_and!; [done..|].
    intros m. rewrite Hv, Hlog. apply Hr.
  - intros m. by rewrite Hview, Hlog.
  - intros i Hi m. destruct (decide (i = id)) as [->|Hid]; [by rewrite Hview, Hlog|].
    destruct (Hothers i (Hne i Hid)) as [_ ->]. by rewrite Hlog.
Qed.

(** A caller's operation, or a pass of the projector over one run. *)
Inductive Step := Call (op : Op) | Pass (id : ExecutionId).

Definition run_step (st : Step) (w : world InMemoryBackend) : world InMemoryBackend :=
  match st with
  | Call op => (run_op op w).2
  | Pass id => (project_execution id w).2
  end.
Definition run_steps (l : list Step) (w : world InMemoryBackend) : world InMemoryBackend :=
  foldl (λ w st, run_step st w) w l.

(** Callers keep to their contract and leave the projection to the projector. *)
Fixpoint steps_ok (l : list Step) (w : world InMemoryBackend) : Prop :=
  match l with
  | [] => True
  | st :: l =>
      match st with
      | Call op => op_hist_ok any_event (store w) op ∧ side_op op = false
      | Pass _ => True
      end ∧ steps_ok l (run_step st w)
  end.

Lemma run_steps_projects l (w : world InMemoryBackend) :
  steps_ok l w → logs_inv (store w) → all_project (store w) →
  logs_inv (store (run_steps l w)) ∧ all_project (store (run_steps l w)).
Proof.
  revert w. induction l as [|[op|i] l IH]; intros w Hok Hl Hp; [done| |]; cbn [run_steps foldl];
    destruct Hok as [Hst Hok].
  - destruct Hst as [Hop Hside].
    apply (IH (run_op op w).2); [done| |by intros i; eapply projects_kept].
    assert (hist_steps any_event (store w) (store (run_op op w).2)) as Hs
      by (by apply (run_op_hist any_event (λ _ _ _, I))).
    clear -Hs Hl. induction Hs as [|s s1 s2 Hs _ IHs]; [done|]. apply IHs. by eapply logs_inv_step.
  - destruct (pass_run i w Hl Hp) as (n & w' & Hrun & Hl' & Hp' & _). cbn [run_step] in *.
    rewrite Hrun in *. by apply IH.
Qed.

Lemma start_projects : all_project (store start_world).
Proof.
  intros i. split_and!; [|done|done]. intros k r Hk. cbn in Hk. by rewrite lookup_empty in Hk.
Qed.

(** ** A tick *)

Lemma project_page_run page total (w : world InMemoryBackend) :
  logs_inv (store w) → all_project (store w) →
  ∃ n w', project_page page total w = (Ok n, w')
    ∧ logs_inv (store w') ∧ all_project (store w') ∧ executions (store w') = executions (store w)
    ∧ (∀ i, log_of (store w') i = log_of (store w) i)
    ∧ (∀ e, e ∈ page → up_to_date (store w') (execution_id e))
    ∧ ∀ i, up_to_date (store w) i → up_to_date (store w') i.
Proof.
  revert total w. induction page as [|e page IH]; intros total w Hl Hp; cbn [project_page].
  { do 2 eexists. split; [reflexivity|]. split_and!; try done. intros e He.
    by apply not_elem_of_nil in He. }
  destruct (pass_run (execution_id e) w Hl Hp) as (n & w1 & Hrun & Hl1 & Hp1 & He1 & Hlog1 & Hup & Hk1).
  assert (recover (project_execution (execution_id e)) (λ _, mret 0) w = (Ok n, w1)) as Hrec.
  { unfold recover. by rewrite Hrun. }
  rewrite (bind_run _ _ _ _ _ Hrec).
  destruct (IH (total + n) w1 Hl1 Hp1) as (n' & w' & Hrun' & Hl' & Hp' & He' & Hlog' & Hup' & Hk').
  exists n', w'. split_and!; try done; [congruence|..].
  - intros i. by rewrite Hlog'.
  - intros e' [->|He2]%elem_of_cons; [by apply Hk'|by apply Hup'].
  - intros i Hi. by apply Hk', Hk1.
Qed.

(** The running executions in the order a tick lists them. *)
Definition running_list (s : InMemoryBackend) : list WorkflowExecution :=
  merge_sort started_later (base.filter
    (λ e, status_matches (Some WorkflowStatus.Running) e = true) (iter_map (executions s)).*2).

Lemma tick_pages_run pages offset total (w : world InMemoryBackend) :
  let L := running_list (store w) in
  logs_inv (store w) → all_project (store w) →
  Z.of_nat (length L) < 2 ^ 32 → 0 ≤ offset ≤ Z.of_nat (length L) →
  Z.of_nat (length L) - offset < PAGE_SIZE * Z.of_nat pages →
  ∃ n w', tick_pages pages offset total w = (Ok (Some n), w')
    ∧ (∀ e, e ∈ drop (Z.to_nat offset) L → up_to_date (store w') (execution_id e))
    ∧ (∀ i, log_of (store w') i = log_of (store w) i)
    ∧ ∀ i, up_to_date (store w) i → up_to_date (store w') i.
Proof.
  cbv zeta. revert offset total w.
  induction pages as [|pages IH]; intros offset total w Hl Hp Hlen Hoff Hfuel; [unfold PAGE_SIZE in *; lia|].
  cbn [tick_pages]. set (L := running_list (store w)) in *.
  set (page := take (Z.to_nat PAGE_SIZE) (drop (Z.to_nat offset) L)).
  assert (list_executions (Some WorkflowStatus.Running) PAGE_SIZE offset w = (Ok page, w)) as Hlist by done.
  rewrite (bind_run _ _ _ _ _ Hlist).
  destruct (project_page_run page total w Hl Hp) as (n & w1 & Hrun & Hl1 & Hp1 & He1 & Hlog1 & Hup & Hk).
  cbv zeta. rewrite (bind_run _ _ _ _ _ Hrun).
  assert (Z.of_nat (length page) = Z.min PAGE_SIZE (Z.of_nat (length L) - offset)) as Hpl.
  { subst page. rewrite length_take, length_drop. unfold PAGE_SIZE in *. lia. }
  case_decide as Hend.
  - do 2 eexists. split; [reflexivity|]. split_and!; [|done|done]. intros e He. apply Hup. subst page.
    rewrite take_ge; [done|]. rewrite length_drop. unfold PAGE_SIZE in *. lia.
  - assert (running_list (store w1) = L) as HL by (unfold running_list; by rewrite He1).
    assert (u32_add offset (Z.of_nat (length page)) = offset + Z.of_nat (length page)) as Hadd.
    { unfold u32_add, wrap_u32. apply Z.mod_small. lia. }
    rewrite Hadd. destruct (IH (offset + Z.of_nat (length page)) n w1) as (n' & w' & Hrun' & Hup' & Hlog' & Hk');
      [done|done|rewrite HL; unfold PAGE_SIZE in *; lia..|].
    exists n', w'. rewrite HL in Hup'. split_and!; [done| |intros i; by rewrite Hlog'|by intros i Hi; apply Hk', Hk].
    intros e He. rewrite <- (take_drop (Z.to_nat PAGE_SIZE) (drop (Z.to_nat offset) L)) in He.
    apply elem_of_app in He as [He|He]; [by apply Hk', Hup|]. apply Hup'.
    rewrite drop_drop in He. eapply eq_ind; [exact He|]. do 2 f_equal. unfold PAGE_SIZE in *. lia.
Qed.

(** What a row says of a status. *)
Definition row_agrees (id : ExecutionId) (n : string) (st : NodeApprovalStatus)
    (o : option ApprovalProjectionRow) : Prop :=
  match st with
  | NotRequested => o = None
  | Pending p => o = Some (requested_row id n (pa_tool_name p) (pa_approver p) (pa_context p)
                       (pa_sequence p))
  | StatusApproved user seq digest => ∃ comment, o = Some (decided_row id n "approved" user comment
      seq ((λ d, obj [("approved_digest", Str d)]) <$> digest))
  | StatusRejected user comment seq => ∃ ctx, o = Some (decided_row id n "rejected" user comment
      seq ctx)
  | Indeterminate => True
  end.

(** The event names the deadline as the principal of an expiry, as the sweep does. *)
Definition expiry_signed (e : Event) : Prop :=
  match event_kind e with
  | EventKind.ApprovalExpired _ _ _ principal => principal = DEADLINE_PRINCIPAL
  | _ => True
  end.

Lemma row_agrees_step id n st o e :
  expiry_signed e → st ≠ Indeterminate → row_agrees id n st o →
  row_agrees id n (approval_step n st e) (row_step id n o e) ∧ approval_step n st e ≠ Indeterminate.
Proof.
  unfold expiry_signed, approval_step, row_step, event_row. intros Hsig Hst Hrow.
  destruct (event_kind e); try done.
  - (* a decision *)
    destruct (decide (node_id = n)) as [->|Hne].
    + destruct st as [|p|u s d|u c s|]; cbn in Hrow; try done.
      * by subst o.
      * subst o. cbn. rewrite bool_decide_eq_true_2 by done. cbn. rewrite decide_True by done.
        destruct decision; (split; [|done]); eexists; done.
      * destruct Hrow as [c ->]. cbn. rewrite bool_decide_eq_false_2 by done. split; [by eexists|done].
      * destruct Hrow as [ctx ->]. cbn. rewrite bool_decide_eq_false_2 by done.
        split; [by eexists|done].
    + destruct (is_pending_row o); [cbn; by rewrite decide_False|done].
  - (* a request *)
    cbn. case_decide; [|done]. subst. by split.
  - (* an expiry *)
    destruct (decide (node_id = n)) as [->|Hne].
    + destruct st as [|p|u s d|u c s|]; cbn in Hrow; try done.
      * by subst o.
      * subst o principal. cbn. destruct (decide (pa_sequence p = request_sequence)) as [->|Hseq].
        -- rewrite !bool_decide_eq_true_2 by done. cbn. rewrite decide_True by done.
           split; [by eexists|done].
        -- rewrite bool_decide_eq_true_2 by done. rewrite bool_decide_eq_false_2 by congruence. by split.
      * destruct Hrow as [c ->]. cbn. rewrite bool_decide_eq_false_2 by done. split; [by eexists|done].
      * destruct Hrow as [ctx ->]. cbn. rewrite bool_decide_eq_false_2 by done.
        split; [by eexists|done].
    + destruct (is_pending_row o && _); [cbn; by rewrite decide_False|done].
Qed.

Lemma projected_agrees id n log :
  has_unreadable_events log = false → (∀ e, e ∈ log → expiry_signed e) →
  row_agrees id n (node_approval_status log n) (projected id n log).
Proof.
  intros Hread Hsig. rewrite node_approval_status_spec, Hread. unfold projected.
  enough (∀ st o, st ≠ Indeterminate → row_agrees id n st o →
    row_agrees id n (foldl (approval_step n) st log) (foldl (row_step id n) o log)) as Hgen
    by (by apply Hgen).
  clear Hread. induction log as [|e log IH]; intros st o Hst Hrow; [done|]. cbn.
  destruct (row_agrees_step id n st o e) as [Hrow' Hst']; [apply Hsig; left|done|done|].
  apply IH; [|done|done]. intros e' He'. apply Hsig. by right.
Qed.

(** C35: The approval rows are the approvals. However passes of the projector fall
    between other callers' operations, after a pass a run's rows are the fold of
    its whole log, each node's the same whatever the batches were; and when this
    build can read the log they say of every node what [node_approval_status]
    says: pending on the same request, approved or rejected by the same person
    at the same event, an approval binding the same action. *)
Theorem projection_agrees (id : ExecutionId) (steps : list Step)
    (Hok : steps_ok steps start_world) :
  let w := run_step (Pass id) (run_steps steps start_world) in
  let log := log_of (store w) id in
  (∀ n, view_row (store w) id n = projected id n log)
  ∧ (has_unreadable_events log = false → (∀ e, e ∈ log → expiry_signed e) →
     ∀ n, row_agrees id n (node_approval_status log n) (view_row (store w) id n)).
Proof.
  intros w log.
  destruct (run_steps_projects steps start_world Hok logs_inv_new start_projects) as [Hl Hp].
  destruct (pass_run id _ Hl Hp) as (k & w' & Hrun & _ & _ & _ & _ & Hup & _).
  subst log w. cbn [run_step]. rewrite Hrun. cbn [snd].
  split; [exact Hup|]. intros Hread Hsig n. rewrite Hup. by apply projected_agrees.
Qed.

(** A tick covers every running execution. After any interleaving, a tick
    given one page more than the running executions fill ends, with an answer;
    it appends nothing to any log, and every execution that was running when it
    began, past the first page too, has the rows of its whole log. *)
Theorem tick_covers (steps : list Step) (pages : nat)
    (Hok : steps_ok steps start_world) :
  let w := run_steps steps start_world in
  Z.of_nat (length (running_list (store w))) < Z.min (2 ^ 32) (PAGE_SIZE * Z.of_nat pages) →
  ∃ n w', project_tick pages w = (Ok (Some n), w')
    ∧ (∀ i, log_of (store w') i = log_of (store w) i)
    ∧ ∀ k e, executions (store w) !! k = Some e → status e = WorkflowStatus.Running →
        ∀ m, view_row (store w') (execution_id e) m
             = projected (execution_id e) m (log_of (store w') (execution_id e)).
Proof.
  intros w Hfuel.
  destruct (run_steps_projects steps start_world Hok logs_inv_new start_projects) as [Hl Hp].
  destruct (tick_pages_run pages 0 0 w Hl Hp) as (n & w' & Hrun & Hup & Hlog & _); [lia..|].
  exists n, w'. split_and!; [exact Hrun|done|]. intros k e He Hst. apply Hup. cbn [drop Z.to_nat].
  unfold running_list. rewrite merge_sort_Permutation. apply list_elem_of_filter. split.
  - unfold status_matches. by apply bool_decide_eq_true.
  - apply list_elem_of_fmap. exists (k, e). split; [done|]. by apply iter_map_elem.
Qed.
End Interleaved.

(** ** Witnesses *)

Module ProjectorSample.
#[local] Existing Instances plain_uuid milli_chrono code_json plain_sha256.
#[local] Existing Instances HistorySample.order_exec HistorySample.order_item
  HistorySample.order_tenant HistorySample.order_pair.
#[local] Instance order_node : IterOrder string := list_order string.
#[local] Instance text_inj : Inj (=) (=) uuid_hyphenated.
Proof. intros a b. cbn. intros Heq. destruct (bits_reads_back (N.succ_pos a) (N.succ_pos b) "" "") as [? _];
  [by rewrite Heq|lia]. Qed.

Definition run_id : ExecutionId := mkExecutionId 7.
Definition start : Step :=
  Call (OpStart HistorySample.run7 (EventKind.WorkflowStarted "w" "1.0.0" (Object []) None)
    (EventKind.NodeScheduled "a" "tool") Sample.item).
Definition append (k : EventKind) : Step := Call (OpAppend (sample_event 0 k)).
Definition requested : EventKind := EventKind.ToolApprovalRequired "a" "t" "human" (Object []).
Definition received (user : string) (d : ApprovalDecision) : EventKind :=
  EventKind.ApprovalReceived "a" user d None None None (Some "d") (Some 3).

(** The request is projected in one pass, the decision and a late one in the next. *)
Definition two_batches : list Step :=
  [start; append requested; Pass run_id; append (received "ann" Approved);
   append (received "bob" Rejected)].

Lemma two_batches_ok : steps_ok two_batches start_world.
Proof. repeat split; done. Qed.

Lemma agrees_witness :
  let w := run_step (Pass run_id) (run_steps two_batches start_world) in
  view_row (store w) run_id "a" = projected run_id "a" (log_of (store w) run_id)
  ∧ view_row (store w) run_id "a"
    = Some (decided_row run_id "a" "approved" "ann" None 4 (Some (obj [("approved_digest", Str "d")]))).
Proof.
  intros w. split.
  - apply (proj1 (projection_agrees run_id two_batches two_batches_ok)).
  - vm_compute. reflexivity.
Defined.

Lemma projector_tick_witness :
  match (project_tick 1 (run_steps two_batches start_world)).1 with Ok (Some _) => True | _ => False end.
Proof.
  destruct (tick_covers two_batches 1 two_batches_ok) as (n & w' & Hrun & _).
  - vm_compute. reflexivity.
  - by rewrite Hrun.
Defined.

(** On a log this build cannot read a row still says what the readable events
    said, where the fold of the log has no status. *)
Example unreadable_log_still_listed :
  let w := run_step (Pass run_id) (run_steps (two_batches ++ [append EventKind.Unknown]) start_world) in
  ap_status <$> view_row (store w) run_id "a" = Some "approved"
  ∧ node_approval_status (log_of (store w) run_id) "a" = Indeterminate.
Proof. vm_compute. split; reflexivity. Qed.

(** A run that ends between a decision and the next tick is not listed again:
    its row stays pending although its log holds the approval. *)
Example ended_run_stays_pending :
  let w := run_steps [start; append requested; Pass run_id; append (received "ann" Approved);
    Call (OpUpdateStatus run_id WorkflowStatus.Failed)] start_world in
  ap_status <$> view_row (store (project_tick 1 w).2) run_id "a" = Some "pending"
  ∧ node_approval_status (log_of (store (project_tick 1 w).2) run_id) "a"
    = StatusApproved "ann" 4 (Some "d").
Proof. vm_compute. split; reflexivity. Qed.
End ProjectorSample.
