(* ===== verification/Sql.v ===== *)
(** * The relational store ([state/migrations/], the statements of
    [state/src/sqlite.rs] and [state/src/tenant_scoped.rs])

    The tables of the database as the migrations leave them, with their keys and
    references, and the SQL statements the backends execute as operations on
    them. SQLite itself is the library: what the model uses of it is that a
    statement acts on the rows its [WHERE] selects, that a transaction which does
    not commit leaves the database as it was, that [PRIMARY KEY] and [UNIQUE]
    columns are unique, and that references are checked when a row is inserted
    ([sqlx] turns [foreign_keys] on). The order in which an unordered query
    returns rows is a parameter. *)

From S2P Require Import Prelude.
From S2P Require Import Core.
From S2P Require Import Event.
From S2P Require Import Backend.

(** ** Rows, with the columns of the migrations *)

Record DefRow := {
  d_workflow_id : string; d_version : string; d_ir_json : string; d_created_at : string;
  d_tenant_id : string;
}.

Record ExecRow := {
  x_execution_id : string; x_workflow_id : string; x_workflow_version : string;
  x_status : string; x_initial_input : string; x_current_state : string;
  x_started_at : string; x_updated_at : string; x_completed_at : option string;
  x_tenant_id : string; x_parent_execution_id : option string; x_segment_number : Z;
}.

Record EventRow := {
  v_id : string; v_execution_id : string; v_sequence : Z; v_kind_json : string;
  v_created_at : string; v_tenant_id : string;
}.

Record SnapRow := {
  n_id : string; n_execution_id : string; n_at_sequence : Z; n_state_json : string;
  n_created_at : string; n_tenant_id : string; n_status : string;
  n_completed_nodes_json : string; n_active_nodes_json : string; n_last_sequence : Z;
}.

Record ItemRow := {
  i_id : string; i_execution_id : string; i_node_id : string; i_queue_type : string;
  i_payload_json : string; i_attempt : Z; i_status : string; i_worker_id : option string;
  i_lease_expires_at : option string; i_created_at : string; i_claimed_at : option string;
  i_completed_at : option string; i_max_attempts : Z; i_retry_after : option string;
  i_tenant_id : string; i_lease_epoch : Z; i_lease_fence : Z; i_lease_secs : option Z;
  i_last_worker_id : option string; i_last_lease_fence : option Z;
}.

Record DeadRow := {
  l_id : string; l_execution_id : string; l_node_id : string; l_queue_type : string;
  l_payload_json : string; l_attempt : Z; l_last_error : string; l_created_at : string;
  l_dead_lettered_at : string; l_tenant_id : string;
}.

Record EffectRow := {
  f_idempotency_key : string; f_execution_id : string; f_node_id : string;
  f_result_json : string; f_tenant_id : string; f_recorded_at : string;
}.

Record ReservationRow := {
  r_idempotency_key : string; r_execution_id : string; r_node_id : string; r_owner : string;
  r_lease_fence : Z; r_expires_at : string; r_tenant_id : string; r_reserved_at : string;
}.

Record ArtifactRow := {
  a_tenant_id : string; a_hash : string; a_bytes : list N; a_size : Z;
  a_media_type : option string; a_created_at : string;
}.

Record ApprovalRow := {
  p_execution_id : string; p_node_id : string; p_status : string; p_user_id : option string;
  p_comment : option string; p_last_sequence : Z; p_tool_name : option string;
  p_approver : option string; p_context_json : option string; p_tenant_id : string;
  p_updated_at : string;
}.

Record CheckpointRow := {
  c_projection_name : string; c_execution_id : string; c_last_sequence : Z;
  c_tenant_id : string; c_updated_at : string;
}.

Record TokenRow := {
  k_id : string; k_token_hash : string; k_name : string; k_role : string;
  k_created_at : string; k_expires_at : option string; k_last_used_at : option string;
  k_revoked_at : option string; k_tenant_id : string;
}.

Record TenantRow := {
  t_id : string; t_name : string; t_status : string; t_policy_json : option string;
  t_limits_json : option string; t_created_at : string; t_updated_at : string;
}.

(** ** The database *)

Record Db := {
  workflow_definitions : list DefRow;
  workflow_executions : list ExecRow;
  event_rows : list EventRow;
  snapshot_rows : list SnapRow;
  item_rows : list ItemRow;
  dead_letter_items : list DeadRow;
  effect_rows : list EffectRow;
  reservation_rows : list ReservationRow;
  artifact_rows : list ArtifactRow;
  approval_rows : list ApprovalRow;
  checkpoint_rows : list CheckpointRow;
  token_rows : list TokenRow;
  tenant_rows : list TenantRow;
  db_term : Z;  (* the one row of [store_identity] *)
}.

(** A table by name. *)
Inductive Table :=
| Definitions | Executions | Events | Snapshots | WorkItems | DeadLetters | ToolEffects
| ToolReservations | Artifacts | ProjApprovals | Checkpoints | ApiTokens | Tenants.

#[export] Instance Table_eq_dec : EqDecision Table.
Proof. solve_decision. Defined.

Definition row (T : Table) : Type :=
  match T with
  | Definitions => DefRow | Executions => ExecRow | Events => EventRow | Snapshots => SnapRow
  | WorkItems => ItemRow | DeadLetters => DeadRow | ToolEffects => EffectRow
  | ToolReservations => ReservationRow | Artifacts => ArtifactRow
  | ProjApprovals => ApprovalRow | Checkpoints => CheckpointRow | ApiTokens => TokenRow
  | Tenants => TenantRow
  end.

Definition rows (T : Table) (db : Db) : list (row T) :=
  match T with
  | Definitions => workflow_definitions db | Executions => workflow_executions db
  | Events => event_rows db | Snapshots => snapshot_rows db | WorkItems => item_rows db
  | DeadLetters => dead_letter_items db | ToolEffects => effect_rows db
  | ToolReservations => reservation_rows db | Artifacts => artifact_rows db
  | ProjApprovals => approval_rows db | Checkpoints => checkpoint_rows db
  | ApiTokens => token_rows db | Tenants => tenant_rows db
  end.

Definition set_rows (T : Table) : list (row T) → Db → Db :=
  match T with
  | Definitions => λ l db, Build_Db l (workflow_executions db) (event_rows db)
      (snapshot_rows db) (item_rows db) (dead_letter_items db) (effect_rows db)
      (reservation_rows db) (artifact_rows db) (approval_rows db) (checkpoint_rows db)
      (token_rows db) (tenant_rows db) (db_term db)
  | Executions => λ l db, Build_Db (workflow_definitions db) l (event_rows db)
      (snapshot_rows db) (item_rows db) (dead_letter_items db) (effect_rows db)
      (reservation_rows db) (artifact_rows db) (approval_rows db) (checkpoint_rows db)
      (token_rows db) (tenant_rows db) (db_term db)
  | Events => λ l db, Build_Db (workflow_definitions db) (workflow_executions db) l
      (snapshot_rows db) (item_rows db) (dead_letter_items db) (effect_rows db)
      (reservation_rows db) (artifact_rows db) (approval_rows db) (checkpoint_rows db)
      (token_rows db) (tenant_rows db) (db_term db)
  | Snapshots => λ l db, Build_Db (workflow_definitions db) (workflow_executions db)
      (event_rows db) l (item_rows db) (dead_letter_items db) (effect_rows db)
      (reservation_rows db) (artifact_rows db) (approval_rows db) (checkpoint_rows db)
      (token_rows db) (tenant_rows db) (db_term db)
  | WorkItems => λ l db, Build_Db (workflow_definitions db) (workflow_executions db)
      (event_rows db) (snapshot_rows db) l (dead_letter_items db) (effect_rows db)
      (reservation_rows db) (artifact_rows db) (approval_rows db) (checkpoint_rows db)
      (token_rows db) (tenant_rows db) (db_term db)
  | DeadLetters => λ l db, Build_Db (workflow_definitions db) (workflow_executions db)
      (event_rows db) (snapshot_rows db) (item_rows db) l (effect_rows db)
      (reservation_rows db) (artifact_rows db) (approval_rows db) (checkpoint_rows db)
      (token_rows db) (tenant_rows db) (db_term db)
  | ToolEffects => λ l db, Build_Db (workflow_definitions db) (workflow_executions db)
      (event_rows db) (snapshot_rows db) (item_rows db) (dead_letter_items db) l
      (reservation_rows db) (artifact_rows db) (approval_rows db) (checkpoint_rows db)
      (token_rows db) (tenant_rows db) (db_term db)
  | ToolReservations => λ l db, Build_Db (workflow_definitions db) (workflow_executions db)
      (event_rows db) (snapshot_rows db) (item_rows db) (dead_letter_items db)
      (effect_rows db) l (artifact_rows db) (approval_rows db) (checkpoint_rows db)
      (token_rows db) (tenant_rows db) (db_term db)
  | Artifacts => λ l db, Build_Db (workflow_definitions db) (workflow_executions db)
      (event_rows db) (snapshot_rows db) (item_rows db) (dead_letter_items db)
      (effect_rows db) (reservation_rows db) l (approval_rows db) (checkpoint_rows db)
      (token_rows db) (tenant_rows db) (db_term db)
  | ProjApprovals => λ l db, Build_Db (workflow_definitions db) (workflow_executions db)
      (event_rows db) (snapshot_rows db) (item_rows db) (dead_letter_items db)
      (effect_rows db) (reservation_rows db) (artifact_rows db) l (checkpoint_rows db)
      (token_rows db) (tenant_rows db) (db_term db)
  | Checkpoints => λ l db, Build_Db (workflow_definitions db) (workflow_executions db)
      (event_rows db) (snapshot_rows db) (item_rows db) (dead_letter_items db)
      (effect_rows db) (reservation_rows db) (artifact_rows db) (approval_rows db) l
      (token_rows db) (tenant_rows db) (db_term db)
  | ApiTokens => λ l db, Build_Db (workflow_definitions db) (workflow_executions db)
      (event_rows db) (snapshot_rows db) (item_rows db) (dead_letter_items db)
      (effect_rows db) (reservation_rows db) (artifact_rows db) (approval_rows db)
      (checkpoint_rows db) l (tenant_rows db) (db_term db)
  | Tenants => λ l db, Build_Db (workflow_definitions db) (workflow_executions db)
      (event_rows db) (snapshot_rows db) (item_rows db) (dead_letter_items db)
      (effect_rows db) (reservation_rows db) (artifact_rows db) (approval_rows db)
      (checkpoint_rows db) (token_rows db) l (db_term db)
  end.

Definition set_term (t : Z) (db : Db) : Db :=
  Build_Db (workflow_definitions db) (workflow_executions db) (event_rows db)
    (snapshot_rows db) (item_rows db) (dead_letter_items db) (effect_rows db)
    (reservation_rows db) (artifact_rows db) (approval_rows db) (checkpoint_rows db)
    (token_rows db) (tenant_rows db) t.

(** ** Keys and references *)

(** Two rows no table may hold at once: [PRIMARY KEY] and [UNIQUE]. *)
Definition clash (T : Table) : row T → row T → bool :=
  match T with
  | Definitions => λ a b, bool_decide (d_tenant_id a = d_tenant_id b
      ∧ d_workflow_id a = d_workflow_id b ∧ d_version a = d_version b)
  | Executions => λ a b, bool_decide (x_execution_id a = x_execution_id b)
  | Events => λ a b, bool_decide (v_id a = v_id b)
      || bool_decide (v_execution_id a = v_execution_id b ∧ v_sequence a = v_sequence b)
  | Snapshots => λ a b, bool_decide (n_id a = n_id b)
      || bool_decide (n_execution_id a = n_execution_id b ∧ n_at_sequence a = n_at_sequence b)
  | WorkItems => λ a b, bool_decide (i_id a = i_id b)
  | DeadLetters => λ a b, bool_decide (l_id a = l_id b)
  | ToolEffects => λ a b, bool_decide (f_idempotency_key a = f_idempotency_key b)
  | ToolReservations => λ a b, bool_decide (r_tenant_id a = r_tenant_id b
      ∧ r_idempotency_key a = r_idempotency_key b)
  | Artifacts => λ a b, bool_decide (a_tenant_id a = a_tenant_id b ∧ a_hash a = a_hash b)
  | ProjApprovals => λ a b, bool_decide (p_execution_id a = p_execution_id b
      ∧ p_node_id a = p_node_id b)
  | Checkpoints => λ a b, bool_decide (c_projection_name a = c_projection_name b
      ∧ c_execution_id a = c_execution_id b)
  | ApiTokens => λ a b, bool_decide (k_id a = k_id b) || bool_decide (k_token_hash a = k_token_hash b)
  | Tenants => λ a b, bool_decide (t_id a = t_id b)
  end.

(** The run a row must belong to, and the tenant ([REFERENCES]). *)
Definition run_ref (T : Table) : row T → option string :=
  match T with
  | Events => λ r, Some (v_execution_id r) | Snapshots => λ r, Some (n_execution_id r)
  | WorkItems => λ r, Some (i_execution_id r) | DeadLetters => λ r, Some (l_execution_id r)
  | _ => λ _, None
  end.
Definition tenant_ref (T : Table) : row T → option string :=
  match T with
  | Definitions => λ r, Some (d_tenant_id r) | Executions => λ r, Some (x_tenant_id r)
  | Events => λ r, Some (v_tenant_id r) | Snapshots => λ r, Some (n_tenant_id r)
  | WorkItems => λ r, Some (i_tenant_id r) | DeadLetters => λ r, Some (l_tenant_id r)
  | ApiTokens => λ r, Some (k_tenant_id r)
  | _ => λ _, None
  end.

Definition has_run (db : Db) (id : string) : bool :=
  existsb (λ x, bool_decide (x_execution_id x = id)) (workflow_executions db).
Definition has_tenant (db : Db) (id : string) : bool :=
  existsb (λ t, bool_decide (t_id t = id)) (tenant_rows db).
Definition refs_ok (T : Table) (db : Db) (r : row T) : bool :=
  match run_ref T r with Some id => has_run db id | None => true end
  && match tenant_ref T r with Some id => has_tenant db id | None => true end.

(** ** Statements *)

Class SqlOps := {
  (** The order an unordered query returns its rows in. *)
  scan : ∀ {A}, list A → list A;
  scan_perm : ∀ {A} (l : list A), scan l ≡ₚ l;
  (** The driver's message for a statement that breaks a constraint. *)
  constraint_failed : string;
  (** Its messages for [json_extract] on text that is not JSON, and for
      [fetch_one] without a row. *)
  malformed_json : string;
  row_not_found : string;
}.

Section Statements.
Context `{!SqlOps}.
Abbreviation M A := (eff Db StateBackendError A).

(** [SELECT .. WHERE p]. *)
Definition select_rows (T : Table) (p : row T → bool) : M (list (row T)) :=
  gets (λ db, scan (base.filter (λ r, p r = true) (rows T db))).
(** [fetch_optional]: the first row. *)
Definition fetch_optional {A} (m : M (list A)) : M (option A) := l ← m; mret (head l).

(** [UPDATE .. SET f WHERE p]: the number of rows affected. *)
Definition update_rows (T : Table) (p : row T → bool) (f : row T → row T) : M Z :=
  n ← gets (λ db, length (base.filter (λ r, p r = true) (rows T db)));
  modify (λ db, set_rows T ((λ r, if p r then f r else r) <$> rows T db) db) ≫= λ _,
  mret (Z.of_nat n).

(** [DELETE .. WHERE p]. *)
Definition delete_rows (T : Table) (p : row T → bool) : M unit :=
  modify (λ db, set_rows T (base.filter (λ r, p r = false) (rows T db)) db).

Definition append_row (T : Table) (r : row T) : M unit :=
  ok ← gets (λ db, refs_ok T db r);
  if ok : bool then modify (λ db, set_rows T (rows T db ++ [r]) db)
  else raise (Database constraint_failed).

(** [INSERT], [INSERT OR IGNORE], [INSERT OR REPLACE]. *)
Definition insert_row (T : Table) (r : row T) : M unit :=
  taken ← gets (λ db, existsb (clash T r) (rows T db));
  if taken : bool then raise (Database constraint_failed) else append_row T r.

Definition insert_or_ignore (T : Table) (r : row T) : M Z :=
  taken ← gets (λ db, existsb (clash T r) (rows T db));
  if taken : bool then mret 0 else append_row T r ≫= λ _, mret 1.

Definition insert_or_replace (T : Table) (r : row T) : M unit :=
  ok ← gets (λ db, refs_ok T db r);
  if ok : bool then
    modify (λ db, set_rows T (base.filter (λ r', clash T r r' = false) (rows T db) ++ [r]) db)
  else raise (Database constraint_failed).

(** [INSERT .. ON CONFLICT DO UPDATE SET f WHERE p]: the rows affected. *)
Definition upsert (T : Table) (r : row T) (p : row T → bool) (f : row T → row T) : M Z :=
  taken ← gets (λ db, existsb (clash T r) (rows T db));
  if taken : bool then update_rows T (λ r', clash T r r' && p r') f
  else append_row T r ≫= λ _, mret 1.

(** How a transaction ends. Leaving it by [?] or by dropping it rolls back. *)
Inductive TxEnd A := Commit (a : A) | Rollback (a : A).
Arguments Commit {A} a.
Arguments Rollback {A} a.

(** [BEGIN IMMEDIATE .. COMMIT]. *)
Definition transaction {A} (m : M (TxEnd A)) : M A := λ w,
  match m w with
  | (Ok (Commit a), w') => (Ok a, w')
  | (Ok (Rollback a), w') => (Ok a, World (store w) (clock w') (draws w'))
  | (Err e, w') => (Err e, World (store w) (clock w') (draws w'))
  end.
End Statements.
Arguments Commit {A} a.
Arguments Rollback {A} a.

(** SQLite compares text byte by byte. *)
Definition text_le (a b : string) : bool := String.leb a b.
Definition text_lt (a b : string) : bool := String.leb a b && negb (bool_decide (a = b)).
(** A comparison with [NULL] is not true. *)
Definition null_or (p : string → bool) (o : option string) : bool :=
  match o with Some s => p s | None => true end.
Definition not_null (p : string → bool) (o : option string) : bool :=
  match o with Some s => p s | None => false end.

(** ** Lemmas *)

Lemma rows_set T l db : rows T (set_rows T l db) = l.
Proof. by destruct T. Qed.
Lemma rows_set_ne T T' l db : T ≠ T' → rows T' (set_rows T l db) = rows T' db.
Proof. by destruct T, T'. Qed.
Lemma term_set T l db : db_term (set_rows T l db) = db_term db.
Proof. by destruct T. Qed.

Lemma clash_comm T r r' : clash T r r' = clash T r' r.
Proof.
  destruct T; cbn; try (apply bool_decide_ext; naive_solver);
    f_equal; apply bool_decide_ext; naive_solver.
Qed.
Lemma clash_refl T r : clash T r r = true.
Proof. destruct T; cbn; rewrite ?bool_decide_eq_true_2 by done; done. Qed.

(** ** Times as text

    Texts of times that sort as the times do: what RFC 3339 text of one zone and
    four-digit years does. *)

Section TimeText.
Context (text_of : Z → string) (horizon : Z).
Context (Htext : ∀ a b, 0 ≤ a → a < b → b < horizon → text_le (text_of b) (text_of a) = false).

Lemma text_le_refl s : text_le s s = true.
Proof. unfold text_le. by destruct (String.leb_total s s). Qed.

Lemma text_le_iff a b : 0 ≤ a < horizon → 0 ≤ b < horizon →
  text_le (text_of a) (text_of b) = true ↔ a ≤ b.
Proof.
  intros Ha Hb. split; intros Hle.
  - destruct (decide (a ≤ b)) as [|Hgt]; [done|]. by rewrite Htext in Hle by lia.
  - destruct (decide (a = b)) as [->|Hne]; [apply text_le_refl|].
    pose proof (Htext a b ltac:(lia) ltac:(lia) ltac:(lia)) as Hf. unfold text_le in *.
    destruct (String.leb_total (text_of a) (text_of b)); congruence.
Qed.

Lemma text_lt_iff a b : 0 ≤ a < horizon → 0 ≤ b < horizon →
  text_lt (text_of a) (text_of b) = true ↔ a < b.
Proof.
  intros Ha Hb. unfold text_lt. change (String.leb _ _) with (text_le (text_of a) (text_of b)).
  rewrite andb_true_iff, text_le_iff, negb_true_iff, bool_decide_eq_false by done. split.
  - intros [Hle Hne]. destruct (decide (a = b)) as [->|]; [done|lia].
  - intros Hlt. split; [lia|]. intros Heq. pose proof (Htext a b ltac:(lia) Hlt ltac:(lia)) as Hf.
    by rewrite Heq, text_le_refl in Hf.
Qed.
End TimeText.

(** For the examples: numbers as binary digits of a fixed width. *)
Fixpoint digits (w : nat) (n : Z) : string :=
  match w with
  | O => ""
  | Datatypes.S w => (if 2 ^ Z.of_nat w <=? n then "1" else "0") +:+ digits w (n `mod` 2 ^ Z.of_nat w)
  end.
Fixpoint read_digits (acc : Z) (s : string) : option Z :=
  match s with
  | EmptyString => Some acc
  | String a s => read_digits (2 * acc + (if decide (a = Ascii.ascii_of_nat 49) then 1 else 0)) s
  end.

Lemma digits_lt w a b :
  0 ≤ a → a < b → b < 2 ^ Z.of_nat w → text_le (digits w b) (digits w a) = false.
Proof.
  revert a b. induction w as [|w IH]; intros a b Ha Hab Hb; [cbn in Hb; lia|].
  cbn [digits]. rewrite Nat2Z.inj_succ, Z.pow_succ_r in Hb by lia.
  set (p := 2 ^ Z.of_nat w) in *. assert (0 < p) by (by apply Z.pow_pos_nonneg; lia).
  destruct (Z.leb_spec p b), (Z.leb_spec p a); try lia.
  - apply IH; [by apply Z.mod_pos_bound| |by apply Z.mod_pos_bound].
    rewrite <- (Z.mod_add a (-1) p), <- (Z.mod_add b (-1) p) by lia. rewrite !Z.mod_small; lia.
  - done.
  - rewrite !Z.mod_small by lia. by apply IH.
Qed.

Lemma digits_read w n acc : 0 ≤ n < 2 ^ Z.of_nat w →
  read_digits acc (digits w n) = Some (acc * 2 ^ Z.of_nat w + n).
Proof.
  revert n acc. induction w as [|w IH]; intros n acc Hn.
  { cbn in *. f_equal. lia. }
  cbn [digits]. rewrite Nat2Z.inj_succ, Z.pow_succ_r in Hn |- * by lia.
  set (p := 2 ^ Z.of_nat w) in *. assert (0 < p) by (by apply Z.pow_pos_nonneg; lia).
  destruct (Z.leb_spec p n).
  - change (read_digits (2 * acc + 1) (digits w (n `mod` p)) = Some (acc * (2 * p) + n)).
    rewrite IH by (by apply Z.mod_pos_bound). f_equal.
    rewrite <- (Z.mod_add n (-1) p), Z.mod_small by lia. fold p. lia.
  - change (read_digits (2 * acc + 0) (digits w (n `mod` p)) = Some (acc * (2 * p) + n)).
    rewrite IH by (by apply Z.mod_pos_bound). f_equal. rewrite Z.mod_small by lia. fold p. lia.
Qed.
