(* ===== verification/Calls.v ===== *)
(** * The calls of a backend as data ([state/src/backend.rs])

    One constructor per method of the [StateBackend] trait, indexed by what the
    method answers, and [call], which runs one. What is proved of every call of a
    backend is proved of [call c] for every [c]. *)

From S2P Require Import Prelude.
From S2P Require Import Json.
From S2P Require Import Core.
From S2P Require Import Event.
From S2P Require Import Materializer.
From S2P Require Import Backend.

Inductive Call : Type → Type :=
| StoreWorkflow (def : WorkflowDefinition) : Call unit
| GetWorkflow (workflow_id version : string) : Call (option WorkflowDefinition)
| CreateExecution (e : WorkflowExecution) : Call unit
| GetExecution (id : ExecutionId) : Call (option WorkflowExecution)
| ExecutionTenant (id : ExecutionId) : Call (option TenantId)
| UpdateExecutionStatus (id : ExecutionId) (st : WorkflowStatus) : Call unit
| FinishExecution (event : Event) (st : WorkflowStatus) : Call ExecutionFinish
| AppendEventIf (event : Event) (condition : DateTime → list Event → bool)
    : Call ConditionalAppend
| UpdateExecutionCurrentState (id : ExecutionId) (cs : Value) : Call unit
| PatchAppendArray (id : ExecutionId) (key : string) (value : Value) : Call unit
| ListExecutions (st : option WorkflowStatus) (limit offset : Z) : Call (list WorkflowExecution)
| AppendEvent (event : Event) : Call EventSequence
| GetEvents (id : ExecutionId) : Call (list Event)
| GetEventsSince (id : ExecutionId) (since : EventSequence) : Call (list Event)
| LatestSequence (id : ExecutionId) : Call EventSequence
| WriteSnapshot (snap : Snapshot) : Call unit
| LatestSnapshot (id : ExecutionId) : Call (option Snapshot)
| CreateSegmentAtomic (e : WorkflowExecution) (seed : Snapshot) (started scheduled : EventKind)
    (item : WorkItem) : Call unit
| StartExecutionAtomic (e : WorkflowExecution) (started scheduled : EventKind)
    (item : WorkItem) : Call unit
| GetToolEffect (key : string) : Call (option Value)
| ReserveToolEffect (key : string) (id : ExecutionId) (node_id owner : string) (fence ttl : Z)
    : Call ReserveOutcome
| ReleaseToolReservation (key owner : string) (fence : Z) : Call unit
| PutArtifact (content : list N) (media_type : option string) : Call ArtifactRef
| GetArtifact (hash : string) : Call (option (list N))
| EnqueueWorkItem (item : WorkItem) : Call WorkItemId
| ClaimWorkItem (worker : string) (queue_types : list string) : Call (option WorkItem)
| RenewLease (id : WorkItemId) (worker : string) (fence : Z) : Call unit
| ClaimWorkItemWithLease (worker : string) (queue_types : list string) (secs : option Z)
    : Call (option WorkItem)
| HeartbeatLease (id : WorkItemId) (worker : string) (fence : Z) : Call LeaseRenewal
| GetWorkItem (id : WorkItemId) : Call (option WorkItem)
| CompleteWorkItem (id : WorkItemId) : Call unit
| CompleteWorkItemFenced (id : WorkItemId) (fence : Z) : Call bool
| FailWorkItem (id : WorkItemId) (error : string) : Call unit
| FailWorkItemFenced (id : WorkItemId) (fence : Z) (error : string) : Call (option FailOutcome)
| CommitTurn (id : WorkItemId) (fence : Z) (event : Event) (snapshot : bool) : Call EventSequence
| CommitTurnUnlessTerminal (id : WorkItemId) (fence : Z) (event : Event) (snapshot : bool)
    : Call TurnCommit
| WithdrawWorkItemFenced (id : WorkItemId) (fence : Z) : Call bool
| ParkWorkItem (id : WorkItemId) (fence : Z) (retry_after : string) (next_attempt : Z) : Call bool
| FinalizeRolloverFenced (eid : ExecutionId) (id : WorkItemId) (fence : Z) : Call bool
| ReclaimExpiredLeases : Call ReclaimResult
| MoveToDeadLetter (id : WorkItemId) (error : string) : Call unit
| CreateToken (name role : string) : Call (string * ApiToken)
| ValidateToken (token : string) : Call (option ApiToken)
| ApplyApprovalProjection (row : ApprovalProjectionRow) (name : string) (cp : Z) : Call unit
| ApplyApprovalProjectionBatch (rows : list ApprovalProjectionRow) (name : string)
    (id : ExecutionId) (cp : Z) : Call unit
| GetApprovalProjection (id : ExecutionId) : Call (list ApprovalProjectionRow)
| GetProjectorCheckpoint (name : string) (id : ExecutionId) : Call Z
| SetProjectorCheckpoint (name : string) (id : ExecutionId) (cp : Z) : Call unit
| CreateTenant (t : Tenant) : Call unit
| GetTenant (id : TenantId) : Call (option Tenant)
| ListTenants : Call (list Tenant)
| UpdateTenant (t : Tenant) : Call unit.

Definition call {S A} (HB : StateBackend S) (c : Call A) : bk S A :=
  match c in Call A return bk S A with
  | StoreWorkflow def => store_workflow def
  | GetWorkflow w v => get_workflow w v
  | CreateExecution e => create_execution e
  | GetExecution id => get_execution id
  | ExecutionTenant id => execution_tenant id
  | UpdateExecutionStatus id st => update_execution_status id st
  | FinishExecution ev st => finish_execution ev st
  | AppendEventIf ev c => append_event_if ev c
  | UpdateExecutionCurrentState id v => update_execution_current_state id v
  | PatchAppendArray id k v => patch_append_array id k v
  | ListExecutions st l o => list_executions st l o
  | AppendEvent ev => append_event ev
  | GetEvents id => get_events id
  | GetEventsSince id n => get_events_since id n
  | LatestSequence id => latest_sequence id
  | WriteSnapshot s => write_snapshot s
  | LatestSnapshot id => latest_snapshot id
  | CreateSegmentAtomic e s k1 k2 i => create_segment_atomic e s k1 k2 i
  | StartExecutionAtomic e k1 k2 i => start_execution_atomic e k1 k2 i
  | GetToolEffect k => get_tool_effect k
  | ReserveToolEffect k id n o f ttl => reserve_tool_effect k id n o f ttl
  | ReleaseToolReservation k o f => release_tool_reservation k o f
  | PutArtifact b m => put_artifact b m
  | GetArtifact h => get_artifact h
  | EnqueueWorkItem i => enqueue_work_item i
  | ClaimWorkItem w q => claim_work_item w q
  | RenewLease id w f => renew_lease id w f
  | ClaimWorkItemWithLease w q s => claim_work_item_with_lease w q s
  | HeartbeatLease id w f => heartbeat_lease id w f
  | GetWorkItem id => get_work_item id
  | CompleteWorkItem id => complete_work_item id
  | CompleteWorkItemFenced id f => complete_work_item_fenced id f
  | FailWorkItem id e => fail_work_item id e
  | FailWorkItemFenced id f e => fail_work_item_fenced id f e
  | CommitTurn id f ev s => commit_turn id f ev s
  | CommitTurnUnlessTerminal id f ev s => commit_turn_unless_terminal id f ev s
  | WithdrawWorkItemFenced id f => withdraw_work_item_fenced id f
  | ParkWorkItem id f r n => park_work_item id f r n
  | FinalizeRolloverFenced eid id f => finalize_rollover_fenced eid id f
  | ReclaimExpiredLeases => reclaim_expired_leases
  | MoveToDeadLetter id e => move_to_dead_letter id e
  | CreateToken n r => create_token n r
  | ValidateToken s => validate_token s
  | ApplyApprovalProjection r n cp => apply_approval_projection r n cp
  | ApplyApprovalProjectionBatch rs n id cp => apply_approval_projection_batch rs n id cp
  | GetApprovalProjection id => get_approval_projection id
  | GetProjectorCheckpoint n id => get_projector_checkpoint n id
  | SetProjectorCheckpoint n id cp => set_projector_checkpoint n id cp
  | CreateTenant t => create_tenant t
  | GetTenant id => get_tenant id
  | ListTenants => list_tenants
  | UpdateTenant t => update_tenant t
  end.
