(* ===== verification/Sqlite.v ===== *)
(** * The SQLite backends ([state/src/sqlite.rs], [state/src/tenant_scoped.rs])

    The two backends execute the same statements; the tenant-scoped one adds
    [AND tenant_id = ?] to each and stamps its tenant on the rows it inserts,
    where the plain one leaves the column at its default. As the helpers the two
    share do ([create_run_in] and the others take [tenant_id: Option<&str>]), the
    operations here take the [scope]; [SqliteBackend] and
    [TenantScopedSqliteBackend] at the end are the two instances. *)

From S2P Require Import Prelude.
From S2P Require Import Json.
From S2P Require Import RustStr.
From S2P Require Import Core.
From S2P Require Import Condition.
From S2P Require Import Event.
From S2P Require Import Materializer.
From S2P Require Import Hashing.
From S2P Require Import Backend.
From S2P Require Import Memory.
From S2P Require Import Sql.

(** The derived (de)serializers of the columns, the parsers of ids and times the
    row readers use, and the texts of their errors. *)
Class RowSerde := {
  uuid_from_str : string → option Uuid;
  kind_to_json : EventKind → string;
  kind_from_json : string → option EventKind;
  nodes_to_json : gmap string Value → string;
  nodes_from_json : string → option (gmap string Value);
  names_to_json : gset string → string;
  names_from_json : string → option (gset string);
  limits_to_json : TenantLimits → string;
  limits_from_json : string → option TenantLimits;
  (** SQLite's [datetime('now')] format. *)
  naive_from_str : string → option DateTime;
  (** [DateTime]'s [FromStr]. *)
  datetime_from_str : string → option DateTime;
  (** [rand::thread_rng().gen()], by draw. *)
  random_32 : N → list N;
  uuid_error : string → string;
  datetime_error : string → string;
  serde_error : string → string;
}.

Definition status_to_str (s : WorkflowStatus) : string :=
  match s with
  | WorkflowStatus.Pending => "pending" | WorkflowStatus.Running => "running"
  | WorkflowStatus.Paused => "paused" | WorkflowStatus.Completed => "completed"
  | WorkflowStatus.Failed => "failed" | WorkflowStatus.Cancelled => "cancelled"
  | WorkflowStatus.LimitExceeded => "limit_exceeded"
  end.

Definition str_to_status (s : string) : result StateBackendError WorkflowStatus :=
  if decide (s = "pending") then Ok WorkflowStatus.Pending
  else if decide (s = "running") then Ok WorkflowStatus.Running
  else if decide (s = "paused") then Ok WorkflowStatus.Paused
  else if decide (s = "completed") then Ok WorkflowStatus.Completed
  else if decide (s = "failed") then Ok WorkflowStatus.Failed
  else if decide (s = "cancelled") then Ok WorkflowStatus.Cancelled
  else if decide (s = "limit_exceeded") then Ok WorkflowStatus.LimitExceeded
  else Err (Database ("unknown status: " +:+ s)).

(** [Option::map(f).transpose()?]. *)
Definition try_opt {E A B} (f : A → result E B) (o : option A) : result E (option B) :=
  match o with Some a => b ← f a; Ok (Some b) | None => Ok None end.

(** ** The columns an [UPDATE] of a work item sets *)

Definition i_edit (r : ItemRow) st worker lease claimed completed att retry epoch fence secs
    lastw lastf : ItemRow := {|
  i_id := i_id r; i_execution_id := i_execution_id r; i_node_id := i_node_id r;
  i_queue_type := i_queue_type r; i_payload_json := i_payload_json r; i_attempt := att;
  i_status := st; i_worker_id := worker; i_lease_expires_at := lease;
  i_created_at := i_created_at r; i_claimed_at := claimed; i_completed_at := completed;
  i_max_attempts := i_max_attempts r; i_retry_after := retry; i_tenant_id := i_tenant_id r;
  i_lease_epoch := epoch; i_lease_fence := fence; i_lease_secs := secs;
  i_last_worker_id := lastw; i_last_lease_fence := lastf |}.

Section Sets.
Variable r : ItemRow.
Definition set_status st := i_edit r st (i_worker_id r) (i_lease_expires_at r) (i_claimed_at r)
  (i_completed_at r) (i_attempt r) (i_retry_after r) (i_lease_epoch r) (i_lease_fence r)
  (i_lease_secs r) (i_last_worker_id r) (i_last_lease_fence r).
Definition set_worker w := i_edit r (i_status r) w (i_lease_expires_at r) (i_claimed_at r)
  (i_completed_at r) (i_attempt r) (i_retry_after r) (i_lease_epoch r) (i_lease_fence r)
  (i_lease_secs r) (i_last_worker_id r) (i_last_lease_fence r).
Definition set_expires e := i_edit r (i_status r) (i_worker_id r) e (i_claimed_at r)
  (i_completed_at r) (i_attempt r) (i_retry_after r) (i_lease_epoch r) (i_lease_fence r)
  (i_lease_secs r) (i_last_worker_id r) (i_last_lease_fence r).
Definition set_claimed c := i_edit r (i_status r) (i_worker_id r) (i_lease_expires_at r) c
  (i_completed_at r) (i_attempt r) (i_retry_after r) (i_lease_epoch r) (i_lease_fence r)
  (i_lease_secs r) (i_last_worker_id r) (i_last_lease_fence r).
Definition set_completed c := i_edit r (i_status r) (i_worker_id r) (i_lease_expires_at r)
  (i_claimed_at r) c (i_attempt r) (i_retry_after r) (i_lease_epoch r) (i_lease_fence r)
  (i_lease_secs r) (i_last_worker_id r) (i_last_lease_fence r).
Definition set_attempt a := i_edit r (i_status r) (i_worker_id r) (i_lease_expires_at r)
  (i_claimed_at r) (i_completed_at r) a (i_retry_after r) (i_lease_epoch r) (i_lease_fence r)
  (i_lease_secs r) (i_last_worker_id r) (i_last_lease_fence r).
Definition set_retry t := i_edit r (i_status r) (i_worker_id r) (i_lease_expires_at r)
  (i_claimed_at r) (i_completed_at r) (i_attempt r) t (i_lease_epoch r) (i_lease_fence r)
  (i_lease_secs r) (i_last_worker_id r) (i_last_lease_fence r).
Definition set_lease epoch fence := i_edit r (i_status r) (i_worker_id r) (i_lease_expires_at r)
  (i_claimed_at r) (i_completed_at r) (i_attempt r) (i_retry_after r) epoch fence
  (i_lease_secs r) (i_last_worker_id r) (i_last_lease_fence r).
Definition set_secs n := i_edit r (i_status r) (i_worker_id r) (i_lease_expires_at r)
  (i_claimed_at r) (i_completed_at r) (i_attempt r) (i_retry_after r) (i_lease_epoch r)
  (i_lease_fence r) n (i_last_worker_id r) (i_last_lease_fence r).
Definition set_last w f := i_edit r (i_status r) (i_worker_id r) (i_lease_expires_at r)
  (i_claimed_at r) (i_completed_at r) (i_attempt r) (i_retry_after r) (i_lease_epoch r)
  (i_lease_fence r) (i_lease_secs r) w f.
End Sets.

Definition x_edit (r : ExecRow) st cs updated completed : ExecRow := {|
  x_execution_id := x_execution_id r; x_workflow_id := x_workflow_id r;
  x_workflow_version := x_workflow_version r; x_status := st;
  x_initial_input := x_initial_input r; x_current_state := cs;
  x_started_at := x_started_at r; x_updated_at := updated; x_completed_at := completed;
  x_tenant_id := x_tenant_id r; x_parent_execution_id := x_parent_execution_id r;
  x_segment_number := x_segment_number r |}.

(** [COALESCE]. *)
Definition coalesce {A} (a b : option A) : option A := match a with Some _ => a | None => b end.

Definition updated_later (a b : ExecRow) : Prop := text_le (x_updated_at b) (x_updated_at a) = true.
Definition created_earlier (a b : ItemRow) : Prop := text_le (i_created_at a) (i_created_at b) = true.
Definition seq_asc (a b : EventRow) : Prop := v_sequence a ≤ v_sequence b.
Definition at_sequence_desc (a b : SnapRow) : Prop := n_at_sequence b ≤ n_at_sequence a.
Definition node_asc (a b : ApprovalRow) : Prop := text_le (p_node_id a) (p_node_id b) = true.
Definition tenant_created_earlier (a b : TenantRow) : Prop :=
  text_le (t_created_at a) (t_created_at b) = true.
#[export] Instance updated_later_dec : RelDecision updated_later.
Proof. intros a b. unfold updated_later. apply _. Defined.
#[export] Instance created_earlier_dec : RelDecision created_earlier.
Proof. intros a b. unfold created_earlier. apply _. Defined.
#[export] Instance seq_asc_dec : RelDecision seq_asc.
Proof. intros a b. unfold seq_asc. apply _. Defined.
#[export] Instance at_sequence_desc_dec : RelDecision at_sequence_desc.
Proof. intros a b. unfold at_sequence_desc. apply _. Defined.
#[export] Instance node_asc_dec : RelDecision node_asc.
Proof. intros a b. unfold node_asc. apply _. Defined.
#[export] Instance tenant_created_earlier_dec : RelDecision tenant_created_earlier.
Proof. intros a b. unfold tenant_created_earlier. apply _. Defined.

Section Rows.
Context `{!UuidOps, !ChronoOps, !JsonText, !RowSerde}.
Abbreviation R A := (result StateBackendError A).

(** ** Reading rows *)

Definition execution_id_str (id : ExecutionId) : string := uuid_hyphenated (exec_uuid id).

Definition parse_execution_id (s : string) : R ExecutionId :=
  match uuid_from_str s with
  | Some u => Ok (mkExecutionId u)
  | None => Err (Database ("invalid execution_id: " +:+ uuid_error s))
  end.

Definition parse_uuid (s : string) : R Uuid :=
  ok_or (Database (uuid_error s)) (uuid_from_str s).

Definition parse_datetime (s : string) : R DateTime :=
  match parse_rfc3339 s with
  | Some t => Ok t
  | None => Err (Database ("invalid datetime: " +:+ datetime_error s))
  end.

Definition from_json {A} (f : string → option A) (s : string) : R A :=
  ok_or (Serialization (serde_error s)) (f s).

Definition row_to_execution (row : ExecRow) : R WorkflowExecution :=
  execution_id ← parse_execution_id (x_execution_id row);
  status ← str_to_status (x_status row);
  initial_input ← from_json parse_json (x_initial_input row);
  current_state ← from_json parse_json (x_current_state row);
  started_at ← parse_datetime (x_started_at row);
  updated_at ← parse_datetime (x_updated_at row);
  completed_at ← try_opt parse_datetime (x_completed_at row);
  parent ← try_opt parse_execution_id (x_parent_execution_id row);
  Ok {| execution_id := execution_id; workflow_id := x_workflow_id row;
        workflow_version := x_workflow_version row; status := status;
        initial_input := initial_input; current_state := current_state;
        started_at := started_at; updated_at := updated_at; completed_at := completed_at;
        session_type := None; parent_execution_id := parent;
        segment_number := wrap_u32 (Z.max (x_segment_number row) 0) |}.

Definition row_to_event (row : EventRow) : R Event :=
  id ← parse_uuid (v_id row);
  execution_id ← parse_execution_id (v_execution_id row);
  kind ← from_json kind_from_json (v_kind_json row);
  created ← parse_datetime (v_created_at row);
  Ok {| event_id := id; event_execution_id := execution_id; sequence := v_sequence row;
        event_kind := kind; created_at := created |}.

Definition row_to_work_item (row : ItemRow) : R WorkItem :=
  id ← parse_uuid (i_id row);
  execution_id ← parse_execution_id (i_execution_id row);
  payload ← from_json parse_json (i_payload_json row);
  lease_expires ← try_opt parse_datetime (i_lease_expires_at row);
  created ← parse_datetime (i_created_at row);
  Ok {| wi_id := id; wi_execution_id := execution_id; wi_node_id := i_node_id row;
        queue_type := i_queue_type row; payload := payload;
        attempt := wrap_u32 (i_attempt row); max_attempts := wrap_u32 (i_max_attempts row);
        wi_created_at := created; lease_expires_at := lease_expires;
        worker_id := i_worker_id row; lease_fence := i_lease_fence row;
        wi_tenant_id := i_tenant_id row |}.

Definition row_to_snapshot (row : SnapRow) : R Snapshot :=
  id ← parse_uuid (n_id row);
  execution_id ← parse_execution_id (n_execution_id row);
  state ← from_json parse_json (n_state_json row);
  created ← parse_datetime (n_created_at row);
  let status := match str_to_status (n_status row) with
                | Ok s => s | Err _ => WorkflowStatus.Running end in
  completed ← from_json nodes_from_json (n_completed_nodes_json row);
  active ← from_json names_from_json (n_active_nodes_json row);
  Ok {| snap_id := id; snap_execution_id := execution_id; at_sequence := n_at_sequence row;
        snap_state := state; snap_status := status; snap_completed_nodes := completed;
        snap_active_nodes := active; snap_last_sequence := n_last_sequence row;
        snap_created_at := created |}.

Definition parse_datetime_flexible (s : string) : R DateTime :=
  match parse_rfc3339 s with
  | Some t => Ok t
  | None =>
      match naive_from_str s with
      | Some t => Ok t
      | None => Err (Database ("invalid datetime: " +:+ s))
      end
  end.

Definition row_to_tenant (row : TenantRow) : R Tenant :=
  policy ← try_opt (from_json parse_json) (t_policy_json row);
  limits ← try_opt (from_json limits_from_json) (t_limits_json row);
  created ← parse_datetime_flexible (t_created_at row);
  updated ← parse_datetime_flexible (t_updated_at row);
  Ok {| tn_id := mkTenantId (t_id row); tn_name := t_name row;
        tn_status := TenantStatus.parse (t_status row); tn_policy := policy;
        tn_limits := limits; tn_created_at := created; tn_updated_at := updated |}.

(** ** Writing rows *)

Definition execution_row (e : WorkflowExecution) (tenant : string) : ExecRow := {|
  x_execution_id := execution_id_str (execution_id e); x_workflow_id := workflow_id e;
  x_workflow_version := workflow_version e; x_status := status_to_str (status e);
  x_initial_input := json_to_string (initial_input e);
  x_current_state := json_to_string (current_state e);
  x_started_at := rfc3339 (started_at e); x_updated_at := rfc3339 (updated_at e);
  x_completed_at := rfc3339 <$> completed_at e; x_tenant_id := tenant;
  x_parent_execution_id := execution_id_str <$> parent_execution_id e;
  x_segment_number := segment_number e |}.

Definition event_row (id : Uuid) (execution_id : string) (seq : Z) (kind : EventKind)
    (created : DateTime) (tenant : string) : EventRow := {|
  v_id := uuid_hyphenated id; v_execution_id := execution_id; v_sequence := seq;
  v_kind_json := kind_to_json kind; v_created_at := rfc3339 created; v_tenant_id := tenant |}.

Definition snapshot_row (s : Snapshot) (execution_id tenant : string) : SnapRow := {|
  n_id := uuid_hyphenated (snap_id s); n_execution_id := execution_id;
  n_at_sequence := at_sequence s; n_state_json := json_to_string (snap_state s);
  n_created_at := rfc3339 (snap_created_at s); n_tenant_id := tenant;
  n_status := status_to_str (snap_status s);
  n_completed_nodes_json := nodes_to_json (snap_completed_nodes s);
  n_active_nodes_json := names_to_json (snap_active_nodes s);
  n_last_sequence := snap_last_sequence s |}.

Definition item_row (i : WorkItem) (tenant : string) : ItemRow := {|
  i_id := uuid_hyphenated (wi_id i); i_execution_id := execution_id_str (wi_execution_id i);
  i_node_id := wi_node_id i; i_queue_type := queue_type i;
  i_payload_json := json_to_string (payload i); i_attempt := attempt i; i_status := "pending";
  i_worker_id := None; i_lease_expires_at := None; i_created_at := rfc3339 (wi_created_at i);
  i_claimed_at := None; i_completed_at := None; i_max_attempts := max_attempts i;
  i_retry_after := None; i_tenant_id := tenant; i_lease_epoch := 0; i_lease_fence := 0;
  i_lease_secs := None; i_last_worker_id := None; i_last_lease_fence := None |}.

Definition dead_letter_row (id_str : string) (i : WorkItem) (att : Z) (error : string)
    (at_ : DateTime) (tenant : string) : DeadRow := {|
  l_id := id_str; l_execution_id := execution_id_str (wi_execution_id i);
  l_node_id := wi_node_id i; l_queue_type := queue_type i;
  l_payload_json := json_to_string (payload i); l_attempt := att; l_last_error := error;
  l_created_at := rfc3339 (wi_created_at i); l_dead_lettered_at := rfc3339 at_;
  l_tenant_id := tenant |}.

Definition approval_row (execution_id : string) (r : ApprovalProjectionRow) (tenant : string)
    (now : DateTime) : ApprovalRow := {|
  p_execution_id := execution_id; p_node_id := ap_node_id r; p_status := ap_status r;
  p_user_id := ap_user_id r; p_comment := ap_comment r; p_last_sequence := ap_last_sequence r;
  p_tool_name := ap_tool_name r; p_approver := ap_approver r;
  p_context_json := json_to_string <$> ap_context r; p_tenant_id := tenant;
  p_updated_at := rfc3339 now |}.

(** [ON CONFLICT DO UPDATE]: every column but the key and the tenant. *)
Definition approval_overwrite (new old : ApprovalRow) : ApprovalRow := {|
  p_execution_id := p_execution_id old; p_node_id := p_node_id old; p_status := p_status new;
  p_user_id := p_user_id new; p_comment := p_comment new;
  p_last_sequence := p_last_sequence new; p_tool_name := p_tool_name new;
  p_approver := p_approver new; p_context_json := p_context_json new;
  p_tenant_id := p_tenant_id old; p_updated_at := p_updated_at new |}.

Definition row_to_approval (execution_id : ExecutionId) (r : ApprovalRow)
    : R ApprovalProjectionRow :=
  context ← try_opt (from_json parse_json) (p_context_json r);
  Ok {| ap_execution_id := execution_id; ap_node_id := p_node_id r; ap_status := p_status r;
        ap_user_id := p_user_id r; ap_comment := p_comment r;
        ap_last_sequence := p_last_sequence r; ap_tool_name := p_tool_name r;
        ap_approver := p_approver r; ap_context := context |}.
End Rows.

(** ** The operations *)

Module Sqlite.
Section Operations.
Context `{!UuidOps, !ChronoOps, !JsonText, !Sha256Ops, !SqlOps, !RowSerde}.
Abbreviation M A := (eff Db StateBackendError A).

Variable scope : option TenantId.

(** [AND tenant_id = ?], when scoped. *)
Definition in_scope (tenant_id : string) : bool :=
  match scope with Some t => bool_decide (tenant_id = tenant_str t) | None => true end.
(** The [tenant_id] of an inserted row: the scope's, or the column's default. *)
Definition stamp : string := match scope with Some t => tenant_str t | None => DEFAULT_TENANT end.

Definition eqs (a b : string) : bool := bool_decide (a = b).

Definition decode {A B} (f : A → result StateBackendError B) (o : option A) : M (option B) :=
  of_result (try_opt f o).

(** *** The failover generation *)

Definition current_term : M Z := gets db_term.
Definition bump_store_term : M Z :=
  modify (λ db, set_term (db_term db + 1) db) ≫= λ _, current_term.
Definition set_store_term_at_least (t : Z) : M Z :=
  modify (λ db, set_term (Z.max (db_term db) t) db) ≫= λ _, current_term.

(** *** Workflow definitions *)

(** The tenant a definition is stored under. *)
Definition def_tenant (def : WorkflowDefinition) : string :=
  match scope with Some t => tenant_str t | None => wd_tenant_id def end.

Definition store_workflow (def : WorkflowDefinition) : M unit :=
  inserted ← insert_or_ignore Definitions {|
    d_workflow_id := wd_workflow_id def; d_version := wd_version def;
    d_ir_json := json_to_string (wd_ir def); d_created_at := rfc3339 (wd_created_at def);
    d_tenant_id := def_tenant def |};
  if decide (inserted = 1) then mret tt else
  stored ← fetch_optional (select_rows Definitions (λ r,
    eqs (d_tenant_id r) (def_tenant def) && eqs (d_workflow_id r) (wd_workflow_id def)
    && eqs (d_version r) (wd_version def)));
  match stored with
  | None => raise (version_conflict (wd_workflow_id def) (wd_version def))
  | Some stored =>
      stored_ir ← of_result (from_json parse_json (d_ir_json stored));
      if same_definition stored_ir (wd_ir def) then mret tt
      else raise (version_conflict (wd_workflow_id def) (wd_version def))
  end.

Definition get_workflow (workflow_id version : string) : M (option WorkflowDefinition) :=
  row ← fetch_optional (select_rows Definitions (λ r,
    eqs (d_workflow_id r) workflow_id && eqs (d_version r) version && in_scope (d_tenant_id r)));
  match row with
  | None => mret None
  | Some row =>
      ir ← of_result (from_json parse_json (d_ir_json row));
      created ← of_result (parse_datetime (d_created_at row));
      mret (Some {| wd_workflow_id := d_workflow_id row; wd_version := d_version row;
        wd_ir := ir; wd_created_at := created;
        wd_tenant_id := match scope with Some t => tenant_str t | None => d_tenant_id row end |})
  end.

(** *** Executions *)

Definition create_execution (e : WorkflowExecution) : M unit :=
  insert_row Executions (execution_row e stamp).

Definition is_run (id_str : string) (r : ExecRow) : bool :=
  eqs (x_execution_id r) id_str && in_scope (x_tenant_id r).

Definition get_execution (id : ExecutionId) : M (option WorkflowExecution) :=
  row ← fetch_optional (select_rows Executions (is_run (execution_id_str id)));
  decode row_to_execution row.

Definition update_execution_status (id : ExecutionId) (st : WorkflowStatus) : M unit :=
  now ← utc_now;
  let completed := if WorkflowStatus.is_terminal st then Some (rfc3339 now) else None in
  affected ← update_rows Executions (is_run (execution_id_str id)) (λ r,
    x_edit r (status_to_str st) (x_current_state r) (rfc3339 now)
      (coalesce completed (x_completed_at r)));
  if decide (affected = 0) then raise (NotFound (execution_id_str id)) else mret tt.

Definition update_execution_current_state (id : ExecutionId) (cs : Value) : M unit :=
  now ← utc_now;
  update_rows Executions (is_run (execution_id_str id)) (λ r,
    x_edit r (x_status r) (json_to_string cs) (rfc3339 now) (x_completed_at r)) ≫= λ _,
  mret tt.

Definition patch_append_array (id : ExecutionId) (key : string) (value : Value) : M unit :=
  found ← get_execution id;
  exec ← of_result (ok_or (NotFound ("execution " +:+ ExecutionId_display id)) found);
  match current_state exec with
  | Object m =>
      match default (Array []) (map_get key m) with
      | Array a =>
          update_execution_current_state id (Object (map_insert key (Array (a ++ [value])) m))
      | _ => raise (Database (key +:+ " is not an array"))
      end
  | _ => raise (Database "state is not a JSON object")
  end.

Definition list_executions (st : option WorkflowStatus) (limit offset : Z)
    : M (list WorkflowExecution) :=
  found ← select_rows Executions (λ r,
    match st with Some s => eqs (x_status r) (status_to_str s) | None => true end
    && in_scope (x_tenant_id r));
  let page := take (Z.to_nat limit) (drop (Z.to_nat offset) (merge_sort updated_later found)) in
  of_result (mapM row_to_execution page).

(** The status of the run when it is terminal. *)
Definition terminal_status_of (execution_id : string) : M (option WorkflowStatus) :=
  row ← fetch_optional (select_rows Executions (is_run execution_id));
  match row with
  | None => mret None
  | Some row =>
      status ← of_result (str_to_status (x_status row));
      mret (if WorkflowStatus.is_terminal status then Some status else None)
  end.

Definition execution_tenant_in (id : ExecutionId) : M (option TenantId) :=
  row ← fetch_optional (select_rows Executions (is_run (execution_id_str id)));
  mret ((λ r, mkTenantId (x_tenant_id r)) <$> row).

(** *** Event log *)

(** [SELECT COALESCE(MAX(sequence), 0)]. *)
Definition max_sequence (p : EventRow → bool) : M Z :=
  found ← select_rows Events p;
  mret match v_sequence <$> found with [] => 0 | s :: l => foldr Z.max s l end.

(** The next sequence of a run, whatever the tenants of its events. *)
Definition next_seq (execution_id : string) : M Z :=
  max ← max_sequence (λ r, eqs (v_execution_id r) execution_id); mret (max + 1).

Definition append_event (event : Event) : M EventSequence :=
  let execution_id := execution_id_str (event_execution_id event) in
  transaction (
    seq ← next_seq execution_id;
    insert_row Events (event_row (event_id event) execution_id seq (event_kind event)
      (created_at event) stamp) ≫= λ _,
    mret (Commit seq)).

Definition is_event_of (execution_id : string) (r : EventRow) : bool :=
  eqs (v_execution_id r) execution_id && in_scope (v_tenant_id r).

Definition get_events (id : ExecutionId) : M (list Event) :=
  found ← select_rows Events (is_event_of (execution_id_str id));
  of_result (mapM row_to_event (merge_sort seq_asc found)).

Definition get_events_since (id : ExecutionId) (since : EventSequence) : M (list Event) :=
  found ← select_rows Events (λ r,
    is_event_of (execution_id_str id) r && bool_decide (since < v_sequence r));
  of_result (mapM row_to_event (merge_sort seq_asc found)).

Definition latest_sequence (id : ExecutionId) : M EventSequence :=
  max_sequence (is_event_of (execution_id_str id)).

Definition finish_execution_in (event : Event) (st : WorkflowStatus) : M ExecutionFinish :=
  if negb (WorkflowStatus.is_terminal st) then
    raise (Database ("finish_execution requires a terminal status, got " +:+ status_debug st))
  else
    let execution_id := execution_id_str (event_execution_id event) in
    now ← utc_now;
    transaction (
      prior ← terminal_status_of execution_id;
      match prior with
      | Some prior => mret (Rollback (AlreadyTerminal prior))
      | None =>
          affected ← update_rows Executions (is_run execution_id) (λ r,
            x_edit r (status_to_str st) (x_current_state r) (rfc3339 now)
              (coalesce (x_completed_at r) (Some (rfc3339 now))));
          if decide (affected = 0) then raise (NotFound execution_id) else
          seq ← next_seq execution_id;
          insert_row Events (event_row (event_id event) execution_id seq (event_kind event)
            (created_at event) stamp) ≫= λ _,
          mret (Commit (Finished seq))
      end).

Definition append_event_if_in (event : Event) (condition : DateTime → list Event → bool)
    : M ConditionalAppend :=
  let execution_id := execution_id_str (event_execution_id event) in
  transaction (
    row ← fetch_optional (select_rows Executions (is_run execution_id));
    match row with
    | None => raise (NotFound execution_id)
    | Some row =>
        status ← of_result (str_to_status (x_status row));
        if WorkflowStatus.is_terminal status then
          mret (Rollback (AppendExecutionTerminal status))
        else
          (* the whole log, across tenants *)
          found ← select_rows Events (λ r, eqs (v_execution_id r) execution_id);
          log ← of_result (mapM row_to_event (merge_sort seq_asc found));
          now ← utc_now;
          if negb (condition now log) then mret (Rollback Refused) else
          let seq := match last log with Some e => sequence e | None => 0 end + 1 in
          insert_row Events (event_row (event_id event) execution_id seq (event_kind event)
            (created_at event) stamp) ≫= λ _,
          mret (Commit (Appended seq))
    end).

(** [COUNT( * ) .. json_extract(kind_json, '$.type') = 'node_completed' ..]. *)
Definition count_node_completions (id : ExecutionId) (node_id : string) : M Z :=
  found ← select_rows Events (is_event_of (execution_id_str id));
  kinds ← of_result (mapM (λ r, ok_or (Database malformed_json) (parse_json (v_kind_json r))) found);
  mret (Z.of_nat (length (base.filter (λ v, bool_decide
    (get "type" v = Some (Str "node_completed") ∧ get "node_id" v = Some (Str node_id)) = true) kinds))).

(** *** Snapshots *)

Definition write_snapshot (snap : Snapshot) : M unit :=
  insert_or_replace Snapshots
    (snapshot_row snap (execution_id_str (snap_execution_id snap)) stamp).

(** The latest snapshot's row. *)
Definition latest_snapshot_row (execution_id : string) : M (option SnapRow) :=
  found ← select_rows Snapshots (λ r,
    eqs (n_execution_id r) execution_id && in_scope (n_tenant_id r));
  mret (head (merge_sort at_sequence_desc found)).

Definition latest_snapshot (id : ExecutionId) : M (option Snapshot) :=
  row ← latest_snapshot_row (execution_id_str id); decode row_to_snapshot row.

(** *** Runs *)

(** The execution row, the seed snapshot, the two events and the work item, in
    one transaction. *)
Definition create_run_in (e : WorkflowExecution) (seed : option Snapshot)
    (started scheduled : EventKind) (item : WorkItem) : M unit :=
  let exec_id_str := execution_id_str (execution_id e) in
  transaction (
    insert_row Executions (execution_row e stamp) ≫= λ _,
    match seed with
    | Some snap => insert_or_replace Snapshots (snapshot_row snap exec_id_str stamp)
    | None => mret tt
    end ≫= λ _,
    for_each [started; scheduled] (λ kind,
      seq ← next_seq exec_id_str;
      id ← new_v4; now ← utc_now;
      insert_row Events (event_row id exec_id_str seq kind now stamp)) ≫= λ _,
    insert_row WorkItems (item_row item stamp) ≫= λ _,
    mret (Commit tt)).

Definition create_segment_atomic (e : WorkflowExecution) (seed : Snapshot)
    (started scheduled : EventKind) (item : WorkItem) : M unit :=
  create_run_in e (Some seed) started scheduled item.

Definition start_execution_atomic (e : WorkflowExecution) (started scheduled : EventKind)
    (item : WorkItem) : M unit := create_run_in e None started scheduled item.

(** *** Tool effects and their reservations *)

(** Reservations are always the stamp's: the plain backend's are the default
    tenant's. *)
Definition release_tool_reservation (key owner : string) (fence : Z) : M unit :=
  delete_rows ToolReservations (λ r,
    eqs (r_idempotency_key r) key && eqs (r_owner r) owner
    && bool_decide (r_lease_fence r = fence) && eqs (r_tenant_id r) stamp).

Definition reserve_tool_effect (key : string) (id : ExecutionId) (node_id owner : string)
    (fence ttl : Z) : M ReserveOutcome :=
  now ← utc_now;
  let now_s := rfc3339 now in
  let expires_at := rfc3339 (now + default (5 * 60 * NANOS_PER_SEC) (duration_from_std ttl)) in
  affected ← upsert ToolReservations {|
      r_idempotency_key := key; r_execution_id := execution_id_str id; r_node_id := node_id;
      r_owner := owner; r_lease_fence := fence; r_expires_at := expires_at;
      r_tenant_id := stamp; r_reserved_at := now_s |}
    (λ old, text_le (r_expires_at old) now_s || eqs (r_owner old) owner)
    (λ old, {|
      r_idempotency_key := r_idempotency_key old; r_execution_id := r_execution_id old;
      r_node_id := r_node_id old; r_owner := owner; r_lease_fence := fence;
      r_expires_at := expires_at; r_tenant_id := r_tenant_id old; r_reserved_at := now_s |});
  if decide (0 < affected) then mret Acquired else
  row ← fetch_optional (select_rows ToolReservations (λ r,
    eqs (r_idempotency_key r) key && in_scope (r_tenant_id r)));
  mret match row with
    | Some r => Held (r_owner r) (r_expires_at r)
    | None => Held "unknown" now_s
    end.

Definition get_tool_effect (key : string) : M (option Value) :=
  row ← fetch_optional (select_rows ToolEffects (λ r,
    eqs (f_idempotency_key r) key && in_scope (f_tenant_id r)));
  decode (λ r, from_json parse_json (f_result_json r)) row.

(** *** Artifacts *)

Definition is_artifact (hash : string) (r : ArtifactRow) : bool :=
  eqs (a_tenant_id r) stamp && eqs (a_hash r) hash.

Definition put_artifact (content : list N) (media_type : option string) : M ArtifactRef :=
  let hash := sha256_hex content in
  let size := Z.of_nat (length content) in
  now ← utc_now;
  insert_or_ignore Artifacts {|
    a_tenant_id := stamp; a_hash := hash; a_bytes := content; a_size := size;
    a_media_type := media_type; a_created_at := rfc3339 now |} ≫= λ _,
  row ← fetch_optional (select_rows Artifacts (is_artifact hash));
  stored ← of_result (ok_or (Database row_not_found) row);
  mret {| ar_hash := hash; ar_size := size; ar_media_type := a_media_type stored |}.

Definition get_artifact (hash : string) : M (option (list N)) :=
  row ← fetch_optional (select_rows Artifacts (is_artifact hash));
  mret (a_bytes <$> row).

(** *** The work queue *)

Definition is_item (id_str : string) (r : ItemRow) : bool :=
  eqs (i_id r) id_str && in_scope (i_tenant_id r).
Definition is_claimed (r : ItemRow) : bool := eqs (i_status r) "claimed".
Definition has_fence (fence : Z) (r : ItemRow) : bool := bool_decide (i_lease_fence r = fence).

Definition enqueue_work_item (item : WorkItem) : M WorkItemId :=
  insert_row WorkItems (item_row item stamp) ≫= λ _, mret (wi_id item).

(** Append an event to an item's run, under the item's tenant. *)
Definition insert_event_in_tx (item : WorkItem) (kind : EventKind) : M unit :=
  event ← Event_new (wi_execution_id item) 0 kind;
  let execution_id := execution_id_str (wi_execution_id item) in
  seq ← next_seq execution_id;
  insert_row Events (event_row (event_id event) execution_id seq (event_kind event)
    (created_at event) (wi_tenant_id item)).

(** The status of the item's run, as the [LEFT JOIN] selects it. *)
Definition joined_status (r : ItemRow) : M (option string) :=
  row ← fetch_optional (select_rows Executions (λ x, eqs (x_execution_id x) (i_execution_id r)));
  mret (x_status <$> row).

Definition lease_lapsed (now : string) (r : ItemRow) : bool :=
  is_claimed r && not_null (λ e, text_lt e now) (i_lease_expires_at r).

(** One row of [expire_stale_leases], with the status its join selected. *)
Definition expire_one (r : ItemRow) (execution_status : option string) : M unit :=
  item ← of_result (row_to_work_item r);
  let id_str := uuid_hyphenated (wi_id item) in
  status ← of_result (try_opt str_to_status execution_status);
  if match status with Some s => WorkflowStatus.is_terminal s | None => false end then
    update_rows WorkItems (λ r, eqs (i_id r) id_str && is_claimed r) (λ r,
      set_expires (set_worker (set_status r "failed") None) None) ≫= λ _, mret tt
  else if decide (max_attempts item ≤ u32_add (attempt item) 1) then mret tt
  else
    requeued ← update_rows WorkItems (λ r, eqs (i_id r) id_str && is_claimed r) (λ r,
      set_attempt (set_lease (set_expires (set_worker
        (set_last (set_status r "pending") (i_worker_id r) (Some (i_lease_fence r)))
        None) None) (i_lease_epoch r + 1) 0) (i_attempt r + 1));
    if decide (requeued = 0) then mret tt
    else for_each (lease_expiry_events item) (insert_event_in_tx item).

Fixpoint with_status (l : list ItemRow) : M (list (ItemRow * option string)) :=
  match l with
  | [] => mret []
  | r :: l => t ← joined_status r; l ← with_status l; mret ((r, t) :: l)
  end.

Definition expire_stale_leases : M unit :=
  now ← utc_now;
  transaction (
    found ← select_rows WorkItems (λ r, lease_lapsed (rfc3339 now) r && in_scope (i_tenant_id r));
    joined ← with_status found;
    for_each joined (λ rt, expire_one rt.1 rt.2) ≫= λ _,
    mret (Commit tt)).

Definition claimable_row (queue_types : list string) (now : string) (r : ItemRow) : bool :=
  eqs (i_status r) "pending" && bool_decide (i_queue_type r ∈ queue_types)
  && in_scope (i_tenant_id r) && null_or (λ t, text_le t now) (i_retry_after r).

Definition claim_work_item_with_lease (worker : string) (queue_types : list string)
    (lease_secs : option Z) : M (option WorkItem) :=
  if decide (queue_types = []) then mret None else
  expire_stale_leases ≫= λ _,
  now ← utc_now;
  claimed ← transaction (
    found ← select_rows WorkItems (claimable_row queue_types (rfc3339 now));
    match head (merge_sort created_earlier found) with
    | None => mret (Rollback None)
    | Some r =>
        item ← of_result (row_to_work_item r);
        let lease_len := granted_lease_secs lease_secs in
        let expires := now + lease_len * NANOS_PER_SEC in
        t ← current_term;
        let new_epoch := i64_add (i_lease_epoch r) 1 in
        let new_fence := mint_fence t new_epoch in
        update_rows WorkItems (λ r, eqs (i_id r) (uuid_hyphenated (wi_id item))) (λ r,
          set_secs (set_lease (set_claimed (set_expires (set_worker
            (set_status r "claimed") (Some worker)) (Some (rfc3339 expires)))
            (Some (rfc3339 now))) new_epoch new_fence) (Some lease_len)) ≫= λ _,
        mret (Commit (Some (item, new_fence, rfc3339 expires)))
    end);
  match claimed with
  | None => mret None
  | Some (item, new_fence, expires) =>
      lease ← of_result (ok_or (Database (datetime_error expires)) (parse_rfc3339 expires));
      mret (Some {| wi_id := wi_id item; wi_execution_id := wi_execution_id item;
        wi_node_id := wi_node_id item; queue_type := queue_type item; payload := payload item;
        attempt := attempt item; max_attempts := max_attempts item;
        wi_created_at := wi_created_at item; lease_expires_at := Some lease;
        worker_id := Some worker; lease_fence := new_fence; wi_tenant_id := wi_tenant_id item |})
  end.

Definition claim_work_item (worker : string) (queue_types : list string) : M (option WorkItem) :=
  claim_work_item_with_lease worker queue_types None.

(** The lease length recorded at the claim, or the default; by id alone. *)
Definition lease_secs_for (id_str : string) : M Z :=
  row ← fetch_optional (select_rows WorkItems (λ r, eqs (i_id r) id_str));
  mret (default DEFAULT_LEASE_SECS (row ≫= i_lease_secs)).

Definition renew_lease (id : WorkItemId) (worker : string) (fence : Z) : M unit :=
  let id_str := uuid_hyphenated id in
  lease_len ← lease_secs_for id_str;
  now ← utc_now;
  affected ← update_rows WorkItems (λ r,
      is_item id_str r && bool_decide (i_worker_id r = Some worker) && is_claimed r
      && has_fence fence r)
    (λ r, set_expires r (Some (rfc3339 (now + lease_len * NANOS_PER_SEC))));
  if decide (affected = 0) then raise (FenceLost id_str) else mret tt.

(** The rows a late heartbeat may re-attach. *)
Definition lost_by (id_str worker : string) (lost_fence : Z) (r : ItemRow) : bool :=
  is_item id_str r && eqs (i_status r) "pending" && bool_decide (i_worker_id r = None)
  && bool_decide (i_last_worker_id r = Some worker)
  && bool_decide (i_last_lease_fence r = Some lost_fence)
  && bool_decide (i_lease_epoch r = epoch_after_expiry_of lost_fence).

Definition reattach_lease (id : WorkItemId) (worker : string) (lost_fence : Z) : M LeaseRenewal :=
  let id_str := uuid_hyphenated id in
  transaction (
    row ← fetch_optional (select_rows WorkItems (lost_by id_str worker lost_fence));
    match row with
    | None => raise (FenceLost id_str)
    | Some row =>
        t ← current_term;
        let lease_len := default DEFAULT_LEASE_SECS (i_lease_secs row) in
        let new_epoch := i64_add (i_lease_epoch row) 1 in
        let new_fence := mint_fence t new_epoch in
        now ← utc_now;
        affected ← update_rows WorkItems (λ r,
            is_item id_str r && eqs (i_status r) "pending" && bool_decide (i_worker_id r = None))
          (λ r, set_last (set_attempt (set_lease (set_claimed (set_expires (set_worker
            (set_status r "claimed") (Some worker))
            (Some (rfc3339 (now + lease_len * NANOS_PER_SEC)))) (Some (rfc3339 now)))
            new_epoch new_fence) (if decide (0 < i_attempt r) then i_attempt r - 1 else 0))
            None None);
        if decide (affected = 0) then raise (FenceLost id_str)
        else mret (Commit {| lr_lease_fence := new_fence; reattached := true |})
    end).

Definition heartbeat_lease (id : WorkItemId) (worker : string) (fence : Z) : M LeaseRenewal :=
  renewed ← as_result (renew_lease id worker fence);
  match renewed with
  | Ok _ => mret {| lr_lease_fence := fence; reattached := false |}
  | Err (FenceLost _) => reattach_lease id worker fence
  | Err e => raise e
  end.

Definition get_work_item (id : WorkItemId) : M (option WorkItem) :=
  row ← fetch_optional (select_rows WorkItems (is_item (uuid_hyphenated id)));
  decode row_to_work_item row.

Definition complete_work_item (id : WorkItemId) : M unit :=
  now ← utc_now;
  affected ← update_rows WorkItems (is_item (uuid_hyphenated id)) (λ r,
    set_expires (set_completed (set_status r "completed") (Some (rfc3339 now))) None);
  if decide (affected = 0) then raise (NotFound (uuid_hyphenated id)) else mret tt.

(** The rows a fenced call settles: the item, claimed, under this fence. *)
Definition held_under (id_str : string) (fence : Z) (r : ItemRow) : bool :=
  is_item id_str r && has_fence fence r && is_claimed r.

Definition complete_work_item_fenced (id : WorkItemId) (fence : Z) : M bool :=
  now ← utc_now;
  affected ← update_rows WorkItems (held_under (uuid_hyphenated id) fence) (λ r,
    set_expires (set_completed (set_status r "completed") (Some (rfc3339 now))) None);
  mret (bool_decide (0 < affected)).

Definition fail_work_item (id : WorkItemId) (error : string) : M unit :=
  affected ← update_rows WorkItems (is_item (uuid_hyphenated id)) (λ r,
    set_worker (set_expires (set_status r "failed") None) None);
  if decide (affected = 0) then raise (NotFound (uuid_hyphenated id)) else mret tt.

Definition item_attempt (item : WorkItem) (att : Z) : WorkItem := {|
  wi_id := wi_id item; wi_execution_id := wi_execution_id item; wi_node_id := wi_node_id item;
  queue_type := queue_type item; payload := payload item; attempt := att;
  max_attempts := max_attempts item; wi_created_at := wi_created_at item;
  lease_expires_at := lease_expires_at item; worker_id := worker_id item;
  lease_fence := lease_fence item; wi_tenant_id := wi_tenant_id item |}.

(** [1u64 << new_attempt.min(6)]. *)
Definition backoff_secs (new_attempt : Z) : Z := Z.shiftl 1 (Z.min new_attempt 6).

Definition fail_work_item_fenced (id : WorkItemId) (fence : Z) (error : string)
    : M (option FailOutcome) :=
  let id_str := uuid_hyphenated id in
  transaction (
    row ← fetch_optional (select_rows WorkItems (held_under id_str fence));
    match row with
    | None => mret (Rollback None)
    | Some row =>
        item ← of_result (row_to_work_item row);
        now ← utc_now;
        let new_attempt := u32_add (attempt item) 1 in
        if decide (max_attempts item ≤ new_attempt) then
          affected ← update_rows WorkItems (held_under id_str fence) (λ r,
            set_worker (set_expires (set_attempt (set_status r "dead_lettered") new_attempt)
              None) None);
          if decide (affected = 0) then mret (Rollback None) else
          insert_or_ignore DeadLetters
            (dead_letter_row id_str item new_attempt error now stamp) ≫= λ _,
          mret (Commit (Some (Exhausted (item_attempt item new_attempt))))
        else
          let secs := backoff_secs new_attempt in
          affected ← update_rows WorkItems (held_under id_str fence) (λ r,
            set_lease (set_retry (set_expires (set_worker (set_attempt (set_status r "pending")
              new_attempt) None) None) (Some (rfc3339 (now + secs * NANOS_PER_SEC))))
              (i_lease_epoch r + 1) 0);
          if decide (affected = 0) then mret (Rollback None) else
          mret (Commit (Some (Retryable (item_attempt item new_attempt) (secs * 1000))))
    end).

Definition park_work_item (id : WorkItemId) (fence : Z) (retry_after : string)
    (next_attempt : Z) : M bool :=
  affected ← update_rows WorkItems (held_under (uuid_hyphenated id) fence) (λ r,
    set_lease (set_expires (set_worker (set_attempt (set_retry (set_status r "pending")
      (Some retry_after)) next_attempt) None) None) (i_lease_epoch r + 1) 0);
  mret (bool_decide (0 < affected)).

(** The settle of a rollover tests the fence, not that the item is claimed. *)
Definition finalize_rollover_fenced (execution_id : ExecutionId) (id : WorkItemId) (fence : Z)
    : M bool :=
  now ← utc_now;
  transaction (
    affected ← update_rows WorkItems (λ r, is_item (uuid_hyphenated id) r && has_fence fence r)
      (λ r, set_expires (set_completed (set_status r "completed") (Some (rfc3339 now))) None);
    if decide (affected = 0) then mret (Rollback false) else
    update_rows Executions (λ r,
        is_run (execution_id_str execution_id) r
        && bool_decide (x_status r ∉ ["completed"; "failed"; "cancelled"; "limit_exceeded"]))
      (λ r, x_edit r "limit_exceeded" (x_current_state r) (rfc3339 now)
        (coalesce (x_completed_at r) (Some (rfc3339 now)))) ≫= λ _,
    mret (Commit true)).

Definition withdraw_claimed_item (id_str : string) (fence : Z) : M bool :=
  affected ← update_rows WorkItems (held_under id_str fence) (λ r,
    set_expires (set_worker (set_status r "failed") None) None);
  mret (bool_decide (0 < affected)).

Definition withdraw_work_item_fenced (id : WorkItemId) (fence : Z) : M bool :=
  withdraw_claimed_item (uuid_hyphenated id) fence.

(** *** Settling a turn *)

Definition record_effect (execution_id : string) (kind : EventKind) (now : DateTime) : M unit :=
  match kind, InMemory.idem_effect kind with
  | EventKind.NodeCompleted node_id _ _ _ _ _ _ _ _ _ _ _, Some (key, result) =>
      insert_or_ignore ToolEffects {|
        f_idempotency_key := key; f_execution_id := execution_id; f_node_id := node_id;
        f_result_json := json_to_string result; f_tenant_id := stamp;
        f_recorded_at := rfc3339 now |} ≫= λ _, mret tt
  | _, _ => mret tt
  end.

(** The state a snapshot continues from: the latest snapshot's, or the run's
    initial input. *)
Definition snapshot_base (execution_id : string) : M (MaterializedState * Z) :=
  snap ← latest_snapshot_row execution_id;
  match snap with
  | Some row =>
      cs ← of_result (from_json parse_json (n_state_json row));
      completed ← of_result (from_json nodes_from_json (n_completed_nodes_json row));
      active ← of_result (from_json names_from_json (n_active_nodes_json row));
      mret ({| mat_current_state := cs;
               mat_status := match str_to_status (n_status row) with
                             | Ok s => s | Err _ => WorkflowStatus.Running end;
               completed_nodes := completed; active_nodes := active;
               last_sequence := n_last_sequence row |}, n_at_sequence row)
  | None =>
      row ← fetch_optional (select_rows Executions (is_run execution_id));
      row ← of_result (ok_or (Database row_not_found) row);
      input ← of_result (from_json parse_json (x_initial_input row));
      mret (origin input, 0)
  end.

Definition snapshot_in_tx (id : ExecutionId) : M unit :=
  let execution_id := execution_id_str id in
  base ← snapshot_base execution_id;
  found ← select_rows Events (λ r,
    is_event_of execution_id r && bool_decide (base.2 < v_sequence r));
  tail ← of_result (mapM row_to_event (merge_sort seq_asc found));
  snap ← from_materialized id (apply_events_seeded base.1 tail);
  insert_or_replace Snapshots (snapshot_row snap (execution_id_str (snap_execution_id snap)) stamp).

(** The settled status and whether [completed_at] is set. *)
Definition settled_as (kind : EventKind) : option (string * bool) :=
  match kind with
  | EventKind.NodeCompleted _ _ _ _ _ _ _ _ _ _ _ _ => Some ("completed", true)
  | EventKind.NodeFailed _ _ _ _ => Some ("failed", false)
  | _ => None
  end.

Definition commit_turn_inner (id : WorkItemId) (fence : Z) (event : Event)
    (write_snapshot refuse_terminal : bool) : M TurnCommit :=
  let id_str := uuid_hyphenated id in
  let execution_id := execution_id_str (event_execution_id event) in
  now ← utc_now;
  match settled_as (event_kind event) with
  | None => raise (Database "commit_turn requires a terminal event (NodeCompleted/NodeFailed)")
  | Some (status, set_completed_at) =>
      transaction (
        terminal ← (if refuse_terminal then terminal_status_of execution_id else mret None);
        match terminal with
        | Some st =>
            withdrawn ← withdraw_claimed_item id_str fence;
            if withdrawn : bool then mret (Commit (TurnExecutionTerminal st))
            else raise (FenceLost id_str)
        | None =>
            affected ← update_rows WorkItems (held_under id_str fence) (λ r,
              if set_completed_at : bool
              then set_expires (set_completed (set_status r status) (Some (rfc3339 now))) None
              else set_worker (set_expires (set_completed (set_status r status) None) None) None);
            if decide (affected = 0) then raise (FenceLost id_str) else
            seq ← next_seq execution_id;
            insert_row Events (event_row (event_id event) execution_id seq (event_kind event)
              (created_at event) stamp) ≫= λ _,
            record_effect execution_id (event_kind event) now ≫= λ _,
            (if write_snapshot then snapshot_in_tx (event_execution_id event) else mret tt) ≫= λ _,
            mret (Commit (Committed seq))
        end)
  end.

Definition commit_turn (id : WorkItemId) (fence : Z) (event : Event) (snapshot : bool)
    : M EventSequence :=
  committed ← commit_turn_inner id fence event snapshot false;
  match committed with
  | Committed seq => mret seq
  | TurnExecutionTerminal st =>
      raise (Database ("commit_turn refused for a " +:+ status_debug st +:+ " execution"))
  end.

Definition commit_turn_unless_terminal (id : WorkItemId) (fence : Z) (event : Event)
    (snapshot : bool) : M TurnCommit := commit_turn_inner id fence event snapshot true.

(** *** Reclaiming and dead letters *)

Definition reclaim_one (acc : ReclaimResult) (row : ItemRow) : M ReclaimResult :=
  item ← of_result (row_to_work_item row);
  now ← utc_now;
  let new_attempt := u32_add (attempt item) 1 in
  let id_str := uuid_hyphenated (wi_id item) in
  if decide (max_attempts item ≤ new_attempt) then
    affected ← update_rows WorkItems (λ r, is_item id_str r && is_claimed r) (λ r,
      set_worker (set_expires (set_attempt (set_status r "dead_lettered") new_attempt) None) None);
    if decide (affected = 0) then mret acc else
    insert_or_ignore DeadLetters
      (dead_letter_row id_str item new_attempt "lease expired: worker dead" now stamp) ≫= λ _,
    mret {| retryable := retryable acc; exhausted := exhausted acc ++ [item_attempt item new_attempt] |}
  else
    affected ← update_rows WorkItems (λ r, is_item id_str r && is_claimed r) (λ r,
      set_lease (set_retry (set_expires (set_worker (set_last (set_attempt
        (set_status r "pending") new_attempt) (i_worker_id r) (Some (i_lease_fence r)))
        None) None) (Some (rfc3339 (now + backoff_secs new_attempt * NANOS_PER_SEC))))
        (i_lease_epoch r + 1) 0);
    if decide (affected = 0) then mret acc else
    mret {| retryable := retryable acc ++ [item_attempt item new_attempt]; exhausted := exhausted acc |}.

Fixpoint reclaim_rows (l : list ItemRow) (acc : ReclaimResult) : M ReclaimResult :=
  match l with
  | [] => mret acc
  | r :: l => acc ← reclaim_one acc r; reclaim_rows l acc
  end.

Definition reclaim_expired_leases : M ReclaimResult :=
  now ← utc_now;
  found ← select_rows WorkItems (λ r, lease_lapsed (rfc3339 now) r && in_scope (i_tenant_id r));
  reclaim_rows (merge_sort created_earlier found) ReclaimResult_default.

Definition move_to_dead_letter (id : WorkItemId) (last_error : string) : M unit :=
  let id_str := uuid_hyphenated id in
  row ← fetch_optional (select_rows WorkItems (is_item id_str));
  match row with
  | None => raise (NotFound id_str)
  | Some row =>
      item ← of_result (row_to_work_item row);
      now ← utc_now;
      insert_or_replace DeadLetters
        (dead_letter_row id_str item (attempt item) last_error now stamp) ≫= λ _,
      update_rows WorkItems (is_item id_str) (λ r,
        set_worker (set_expires (set_status r "dead_lettered") None) None) ≫= λ _, mret tt
  end.

(** *** API tokens *)

Definition next_random : M (list N) := λ w,
  (Ok (random_32 (draws w)), World (store w) (clock w) (N.succ (draws w))).

Definition create_token (name role : string) : M (string * ApiToken) :=
  random_bytes ← next_random;
  let token := "jj_" +:+ hex random_bytes in
  id ← new_v4; now ← utc_now;
  insert_row ApiTokens {|
    k_id := uuid_hyphenated id; k_token_hash := sha256_hex (bytes token); k_name := name;
    k_role := role; k_created_at := rfc3339 now; k_expires_at := None; k_last_used_at := None;
    k_revoked_at := None; k_tenant_id := stamp |} ≫= λ _,
  mret (token, {| tok_id := uuid_hyphenated id; tok_name := name; tok_role := role;
    tok_created_at := now; tok_expires_at := None; tok_tenant_id := stamp |}).

(** A token is looked up by its hash, in any tenant: it names its own. *)
Definition validate_token (token : string) : M (option ApiToken) :=
  now ← utc_now;
  let now_s := rfc3339 now in
  row ← fetch_optional (select_rows ApiTokens (λ r,
    eqs (k_token_hash r) (sha256_hex (bytes token)) && bool_decide (k_revoked_at r = None)
    && null_or (λ e, text_lt now_s e) (k_expires_at r)));
  match row with
  | None => mret None
  | Some row =>
      update_rows ApiTokens (λ r, eqs (k_id r) (k_id row)) (λ r, {|
        k_id := k_id r; k_token_hash := k_token_hash r; k_name := k_name r; k_role := k_role r;
        k_created_at := k_created_at r; k_expires_at := k_expires_at r;
        k_last_used_at := Some now_s; k_revoked_at := k_revoked_at r;
        k_tenant_id := k_tenant_id r |}) ≫= λ _,
      mret (Some {| tok_id := k_id row; tok_name := k_name row; tok_role := k_role row;
        tok_created_at := default now (datetime_from_str (k_created_at row));
        tok_expires_at := k_expires_at row ≫= datetime_from_str;
        tok_tenant_id := k_tenant_id row |})
  end.

(** *** Approval rows *)

Definition put_checkpoint (name execution_id : string) (cp : Z) (now : DateTime) : M unit :=
  upsert Checkpoints {|
      c_projection_name := name; c_execution_id := execution_id; c_last_sequence := cp;
      c_tenant_id := stamp; c_updated_at := rfc3339 now |}
    (λ _, true)
    (λ old, {|
      c_projection_name := c_projection_name old; c_execution_id := c_execution_id old;
      c_last_sequence := cp; c_tenant_id := c_tenant_id old; c_updated_at := rfc3339 now |})
  ≫= λ _, mret tt.

Definition put_approval (execution_id : string) (r : ApprovalProjectionRow) (now : DateTime)
    : M unit :=
  let new := approval_row execution_id r stamp now in
  upsert ProjApprovals new (λ _, true) (approval_overwrite new) ≫= λ _, mret tt.

Definition apply_approval_projection (row : ApprovalProjectionRow) (name : string) (cp : Z)
    : M unit :=
  let execution_id := execution_id_str (ap_execution_id row) in
  now ← utc_now;
  transaction (
    put_approval execution_id row now ≫= λ _,
    put_checkpoint name execution_id cp now ≫= λ _,
    mret (Commit tt)).

(** Every row of a batch is stored under the batch's execution. *)
Definition apply_approval_projection_batch (rows : list ApprovalProjectionRow) (name : string)
    (id : ExecutionId) (cp : Z) : M unit :=
  let execution_id := execution_id_str id in
  now ← utc_now;
  transaction (
    for_each rows (λ row, put_approval execution_id row now) ≫= λ _,
    put_checkpoint name execution_id cp now ≫= λ _,
    mret (Commit tt)).

Definition get_approval_projection (id : ExecutionId) : M (list ApprovalProjectionRow) :=
  found ← select_rows ProjApprovals (λ r,
    eqs (p_execution_id r) (execution_id_str id) && in_scope (p_tenant_id r));
  of_result (mapM (row_to_approval id) (merge_sort node_asc found)).

Definition get_projector_checkpoint (name : string) (id : ExecutionId) : M Z :=
  row ← fetch_optional (select_rows Checkpoints (λ r,
    eqs (c_projection_name r) name && eqs (c_execution_id r) (execution_id_str id)
    && in_scope (c_tenant_id r)));
  mret (default 0 (c_last_sequence <$> row)).

Definition set_projector_checkpoint (name : string) (id : ExecutionId) (cp : Z) : M unit :=
  now ← utc_now; put_checkpoint name (execution_id_str id) cp now.

(** *** Tenants: the same table for every scope *)

Definition create_tenant (t : Tenant) : M unit :=
  insert_row Tenants {|
    t_id := tenant_str (tn_id t); t_name := tn_name t;
    t_status := TenantStatus.as_str (tn_status t);
    t_policy_json := json_to_string <$> tn_policy t; t_limits_json := limits_to_json <$> tn_limits t;
    t_created_at := rfc3339 (tn_created_at t); t_updated_at := rfc3339 (tn_updated_at t) |}.

Definition get_tenant (id : TenantId) : M (option Tenant) :=
  row ← fetch_optional (select_rows Tenants (λ r, eqs (t_id r) (tenant_str id)));
  decode row_to_tenant row.

Definition list_tenants : M (list Tenant) :=
  found ← select_rows Tenants (λ _, true);
  of_result (mapM row_to_tenant (merge_sort tenant_created_earlier found)).

Definition update_tenant (t : Tenant) : M unit :=
  affected ← update_rows Tenants (λ r, eqs (t_id r) (tenant_str (tn_id t))) (λ r, {|
    t_id := t_id r; t_name := tn_name t; t_status := TenantStatus.as_str (tn_status t);
    t_policy_json := json_to_string <$> tn_policy t; t_limits_json := limits_to_json <$> tn_limits t;
    t_created_at := t_created_at r; t_updated_at := rfc3339 (tn_updated_at t) |});
  if decide (affected = 0) then raise (NotFound (tenant_str (tn_id t))) else mret tt.

(** The plain backend leaves tenant management to the trait's defaults. *)
Definition unsupported {A} : M A := raise (Database "tenant management not supported").
End Operations.
End Sqlite.

(** ** The two backends *)

(** [SqliteBackend]: no tenant clause; rows it inserts take the column's default. *)
Module SqliteBackend.
Section Methods.
Context `{!UuidOps, !ChronoOps, !JsonText, !Sha256Ops, !SqlOps, !RowSerde}.
Definition store_workflow := Sqlite.store_workflow None.
Definition get_workflow := Sqlite.get_workflow None.
Definition create_execution := Sqlite.create_execution None.
Definition get_execution := Sqlite.get_execution None.
Definition execution_tenant := Sqlite.execution_tenant_in None.
Definition update_execution_status := Sqlite.update_execution_status None.
Definition finish_execution := Sqlite.finish_execution_in None.
Definition append_event_if := Sqlite.append_event_if_in None.
Definition update_execution_current_state := Sqlite.update_execution_current_state None.
Definition patch_append_array := Sqlite.patch_append_array None.
Definition list_executions := Sqlite.list_executions None.
Definition append_event := Sqlite.append_event None.
Definition get_events := Sqlite.get_events None.
Definition get_events_since := Sqlite.get_events_since None.
Definition latest_sequence := Sqlite.latest_sequence None.
Definition write_snapshot := Sqlite.write_snapshot None.
Definition latest_snapshot := Sqlite.latest_snapshot None.
Definition create_segment_atomic := Sqlite.create_segment_atomic None.
Definition start_execution_atomic := Sqlite.start_execution_atomic None.
Definition get_tool_effect := Sqlite.get_tool_effect None.
Definition reserve_tool_effect := Sqlite.reserve_tool_effect None.
Definition release_tool_reservation := Sqlite.release_tool_reservation None.
Definition put_artifact := Sqlite.put_artifact None.
Definition get_artifact := Sqlite.get_artifact None.
Definition enqueue_work_item := Sqlite.enqueue_work_item None.
Definition claim_work_item := Sqlite.claim_work_item None.
Definition renew_lease := Sqlite.renew_lease None.
Definition claim_work_item_with_lease := Sqlite.claim_work_item_with_lease None.
Definition heartbeat_lease := Sqlite.heartbeat_lease None.
Definition get_work_item := Sqlite.get_work_item None.
Definition complete_work_item := Sqlite.complete_work_item None.
Definition complete_work_item_fenced := Sqlite.complete_work_item_fenced None.
Definition fail_work_item := Sqlite.fail_work_item None.
Definition fail_work_item_fenced := Sqlite.fail_work_item_fenced None.
Definition commit_turn := Sqlite.commit_turn None.
Definition commit_turn_unless_terminal := Sqlite.commit_turn_unless_terminal None.
Definition withdraw_work_item_fenced := Sqlite.withdraw_work_item_fenced None.
Definition park_work_item := Sqlite.park_work_item None.
Definition finalize_rollover_fenced := Sqlite.finalize_rollover_fenced None.
Definition reclaim_expired_leases := Sqlite.reclaim_expired_leases None.
Definition move_to_dead_letter := Sqlite.move_to_dead_letter None.
Definition create_token := Sqlite.create_token None.
Definition validate_token := Sqlite.validate_token.
Definition apply_approval_projection := Sqlite.apply_approval_projection None.
Definition apply_approval_projection_batch := Sqlite.apply_approval_projection_batch None.
Definition get_approval_projection := Sqlite.get_approval_projection None.
Definition get_projector_checkpoint := Sqlite.get_projector_checkpoint None.
Definition set_projector_checkpoint := Sqlite.set_projector_checkpoint None.
Definition create_tenant (t : Tenant) := Sqlite.unsupported (A := unit).
Definition get_tenant := Sqlite.get_tenant.
Definition list_tenants := Sqlite.list_tenants.
Definition update_tenant (t : Tenant) := Sqlite.unsupported (A := unit).
Definition count_node_completions := Sqlite.count_node_completions None.
End Methods.
End SqliteBackend.

(** [TenantScopedSqliteBackend { tenant_id }]. *)
Module TenantScoped.
Section Methods.
Context `{!UuidOps, !ChronoOps, !JsonText, !Sha256Ops, !SqlOps, !RowSerde}.
Variable tenant_id : TenantId.
Definition execution_tenant := Sqlite.execution_tenant_in (Some tenant_id).
Definition finish_execution := Sqlite.finish_execution_in (Some tenant_id).
Definition append_event_if := Sqlite.append_event_if_in (Some tenant_id).
End Methods.
End TenantScoped.

Section Backends.
Context `{!UuidOps, !ChronoOps, !JsonText, !Sha256Ops, !SqlOps, !RowSerde}.

Definition sqlite_backend : StateBackend Db := {|
  store_workflow := SqliteBackend.store_workflow;
  get_workflow := SqliteBackend.get_workflow;
  create_execution := SqliteBackend.create_execution;
  get_execution := SqliteBackend.get_execution;
  execution_tenant := SqliteBackend.execution_tenant;
  update_execution_status := SqliteBackend.update_execution_status;
  finish_execution := SqliteBackend.finish_execution;
  append_event_if := SqliteBackend.append_event_if;
  update_execution_current_state := SqliteBackend.update_execution_current_state;
  patch_append_array := SqliteBackend.patch_append_array;
  list_executions := SqliteBackend.list_executions;
  append_event := SqliteBackend.append_event;
  get_events := SqliteBackend.get_events;
  get_events_since := SqliteBackend.get_events_since;
  latest_sequence := SqliteBackend.latest_sequence;
  write_snapshot := SqliteBackend.write_snapshot;
  latest_snapshot := SqliteBackend.latest_snapshot;
  create_segment_atomic := SqliteBackend.create_segment_atomic;
  start_execution_atomic := SqliteBackend.start_execution_atomic;
  get_tool_effect := SqliteBackend.get_tool_effect;
  reserve_tool_effect := SqliteBackend.reserve_tool_effect;
  release_tool_reservation := SqliteBackend.release_tool_reservation;
  put_artifact := SqliteBackend.put_artifact;
  get_artifact := SqliteBackend.get_artifact;
  enqueue_work_item := SqliteBackend.enqueue_work_item;
  claim_work_item := SqliteBackend.claim_work_item;
  renew_lease := SqliteBackend.renew_lease;
  claim_work_item_with_lease := SqliteBackend.claim_work_item_with_lease;
  heartbeat_lease := SqliteBackend.heartbeat_lease;
  get_work_item := SqliteBackend.get_work_item;
  complete_work_item := SqliteBackend.complete_work_item;
  complete_work_item_fenced := SqliteBackend.complete_work_item_fenced;
  fail_work_item := SqliteBackend.fail_work_item;
  fail_work_item_fenced := SqliteBackend.fail_work_item_fenced;
  commit_turn := SqliteBackend.commit_turn;
  commit_turn_unless_terminal := SqliteBackend.commit_turn_unless_terminal;
  withdraw_work_item_fenced := SqliteBackend.withdraw_work_item_fenced;
  park_work_item := SqliteBackend.park_work_item;
  finalize_rollover_fenced := SqliteBackend.finalize_rollover_fenced;
  reclaim_expired_leases := SqliteBackend.reclaim_expired_leases;
  move_to_dead_letter := SqliteBackend.move_to_dead_letter;
  create_token := SqliteBackend.create_token;
  validate_token := SqliteBackend.validate_token;
  apply_approval_projection := SqliteBackend.apply_approval_projection;
  apply_approval_projection_batch := SqliteBackend.apply_approval_projection_batch;
  get_approval_projection := SqliteBackend.get_approval_projection;
  get_projector_checkpoint := SqliteBackend.get_projector_checkpoint;
  set_projector_checkpoint := SqliteBackend.set_projector_checkpoint;
  create_tenant := SqliteBackend.create_tenant;
  get_tenant := SqliteBackend.get_tenant;
  list_tenants := SqliteBackend.list_tenants;
  update_tenant := SqliteBackend.update_tenant;
|}.

Definition tenant_scoped_backend (tenant_id : TenantId) : StateBackend Db := {|
  store_workflow := Sqlite.store_workflow (Some tenant_id);
  get_workflow := Sqlite.get_workflow (Some tenant_id);
  create_execution := Sqlite.create_execution (Some tenant_id);
  get_execution := Sqlite.get_execution (Some tenant_id);
  execution_tenant := TenantScoped.execution_tenant tenant_id;
  update_execution_status := Sqlite.update_execution_status (Some tenant_id);
  finish_execution := TenantScoped.finish_execution tenant_id;
  append_event_if := TenantScoped.append_event_if tenant_id;
  update_execution_current_state := Sqlite.update_execution_current_state (Some tenant_id);
  patch_append_array := Sqlite.patch_append_array (Some tenant_id);
  list_executions := Sqlite.list_executions (Some tenant_id);
  append_event := Sqlite.append_event (Some tenant_id);
  get_events := Sqlite.get_events (Some tenant_id);
  get_events_since := Sqlite.get_events_since (Some tenant_id);
  latest_sequence := Sqlite.latest_sequence (Some tenant_id);
  write_snapshot := Sqlite.write_snapshot (Some tenant_id);
  latest_snapshot := Sqlite.latest_snapshot (Some tenant_id);
  create_segment_atomic := Sqlite.create_segment_atomic (Some tenant_id);
  start_execution_atomic := Sqlite.start_execution_atomic (Some tenant_id);
  get_tool_effect := Sqlite.get_tool_effect (Some tenant_id);
  reserve_tool_effect := Sqlite.reserve_tool_effect (Some tenant_id);
  release_tool_reservation := Sqlite.release_tool_reservation (Some tenant_id);
  put_artifact := Sqlite.put_artifact (Some tenant_id);
  get_artifact := Sqlite.get_artifact (Some tenant_id);
  enqueue_work_item := Sqlite.enqueue_work_item (Some tenant_id);
  claim_work_item := Sqlite.claim_work_item (Some tenant_id);
  renew_lease := Sqlite.renew_lease (Some tenant_id);
  claim_work_item_with_lease := Sqlite.claim_work_item_with_lease (Some tenant_id);
  heartbeat_lease := Sqlite.heartbeat_lease (Some tenant_id);
  get_work_item := Sqlite.get_work_item (Some tenant_id);
  complete_work_item := Sqlite.complete_work_item (Some tenant_id);
  complete_work_item_fenced := Sqlite.complete_work_item_fenced (Some tenant_id);
  fail_work_item := Sqlite.fail_work_item (Some tenant_id);
  fail_work_item_fenced := Sqlite.fail_work_item_fenced (Some tenant_id);
  commit_turn := Sqlite.commit_turn (Some tenant_id);
  commit_turn_unless_terminal := Sqlite.commit_turn_unless_terminal (Some tenant_id);
  withdraw_work_item_fenced := Sqlite.withdraw_work_item_fenced (Some tenant_id);
  park_work_item := Sqlite.park_work_item (Some tenant_id);
  finalize_rollover_fenced := Sqlite.finalize_rollover_fenced (Some tenant_id);
  reclaim_expired_leases := Sqlite.reclaim_expired_leases (Some tenant_id);
  move_to_dead_letter := Sqlite.move_to_dead_letter (Some tenant_id);
  create_token := Sqlite.create_token (Some tenant_id);
  validate_token := Sqlite.validate_token;
  apply_approval_projection := Sqlite.apply_approval_projection (Some tenant_id);
  apply_approval_projection_batch := Sqlite.apply_approval_projection_batch (Some tenant_id);
  get_approval_projection := Sqlite.get_approval_projection (Some tenant_id);
  get_projector_checkpoint := Sqlite.get_projector_checkpoint (Some tenant_id);
  set_projector_checkpoint := Sqlite.set_projector_checkpoint (Some tenant_id);
  create_tenant := Sqlite.create_tenant;
  get_tenant := Sqlite.get_tenant;
  list_tenants := Sqlite.list_tenants;
  update_tenant := Sqlite.update_tenant;
|}.
End Backends.
