(* ===== verification/TenantIsolation.v ===== *)
(** * Tenant isolation of the scoped backend ([state/src/tenant_scoped.rs])

    "Every read/write operation is filtered by [tenant_id], ensuring complete
    data isolation between tenants." Proved as noninterference: what a call of
    the scoped backend answers, and what it makes of its tenant's rows, is the
    same in any two databases that agree on those rows; every other tenant's rows
    stay as they are. The statements are shown isolated one by one, and the calls
    are composed of them. *)

From S2P Require Import Prelude.
From S2P Require Import Json.
From S2P Require Import Core.
From S2P Require Import Condition.
From S2P Require Import Event.
From S2P Require Import Materializer.
From S2P Require Import Hashing.
From S2P Require Import Approvals.
From S2P Require Import Backend.
From S2P Require Import Memory.
From S2P Require Import Sql.
From S2P Require Import Calls.
From S2P Require Import Sqlite.

(** ** Whose a row is, and what it names *)

(** [None]: the row is the deployment's ([tenants], and the [api_tokens] every
    request is authenticated against). *)
Definition owner (T : Table) : row T → option string :=
  match T with
  | Definitions => λ r, Some (d_tenant_id r) | Executions => λ r, Some (x_tenant_id r)
  | Events => λ r, Some (v_tenant_id r) | Snapshots => λ r, Some (n_tenant_id r)
  | WorkItems => λ r, Some (i_tenant_id r) | DeadLetters => λ r, Some (l_tenant_id r)
  | ToolEffects => λ r, Some (f_tenant_id r) | ToolReservations => λ r, Some (r_tenant_id r)
  | Artifacts => λ r, Some (a_tenant_id r) | ProjApprovals => λ r, Some (p_tenant_id r)
  | Checkpoints => λ r, Some (c_tenant_id r)
  | ApiTokens | Tenants => λ _, None
  end.

(** The ids of a row that other tables, or a key without the tenant, mention. *)
Definition names (T : Table) : row T → list string :=
  match T with
  | Executions => λ r, [x_execution_id r]
  | Events => λ r, [v_id r; v_execution_id r]
  | Snapshots => λ r, [n_id r; n_execution_id r]
  | WorkItems => λ r, [i_id r; i_execution_id r]
  | DeadLetters => λ r, [l_id r; l_execution_id r]
  | ToolEffects => λ r, [f_idempotency_key r]
  | ProjApprovals => λ r, [p_execution_id r]
  | Checkpoints => λ r, [c_execution_id r]
  | _ => λ _, []
  end.

Section Isolation.
Context `{!UuidOps, !ChronoOps, !JsonText, !Sha256Ops, !SqlOps, !RowSerde}.
Abbreviation M A := (eff Db StateBackendError A).

(** The tenant, and the ids that are its own. *)
Context (tenant : TenantId) (mine : string → Prop).
Abbreviation t := (tenant_str tenant).
Context (Hspelling : ∀ s u, uuid_from_str s = Some u → mine s → mine (uuid_hyphenated u)).

Definition visible (T : Table) (r : row T) : Prop :=
  match owner T r with None => True | Some o => o = t end.
#[export] Instance visible_dec T r : Decision (visible T r).
Proof. unfold visible. destruct (owner T r); apply _. Defined.

(** The tenant's rows name its own ids, the other tenants' rows do not. *)
Definition row_sep (T : Table) (r : row T) : Prop :=
  if decide (visible T r) then Forall mine (names T r) else Forall (λ s, ¬ mine s) (names T r).

Definition separate (w : world Db) : Prop :=
  (∀ T r, r ∈ rows T (store w) → row_sep T r)
  ∧ ∀ n, (draws w ≤ n)%N → mine (uuid_hyphenated (uuid_v4 n)).

Definition seen (T : Table) (db : Db) : list (row T) := base.filter (visible T) (rows T db).
Definition hidden (T : Table) (db : Db) : list (row T) :=
  base.filter (λ r, ¬ visible T r) (rows T db).

(** What the tenant can see of two worlds is the same. *)
Definition agree (w1 w2 : world Db) : Prop :=
  (∀ T, seen T (store w1) = seen T (store w2)) ∧ db_term (store w1) = db_term (store w2)
  ∧ clock w1 = clock w2 ∧ draws w1 = draws w2.

Definition untouched (w w' : world Db) : Prop := ∀ T, hidden T (store w') = hidden T (store w).

(** From worlds that agree, [m] answers the same, leaves worlds that agree, and
    touches no other tenant's row. [Q] holds of the answer. *)
Definition isolatedQ {A} (Q : A → Prop) (m : M A) : Prop :=
  ∀ w1 w2, separate w1 → separate w2 → agree w1 w2 →
  (m w1).1 = (m w2).1 ∧ agree (m w1).2 (m w2).2
  ∧ separate (m w1).2 ∧ separate (m w2).2
  ∧ untouched w1 (m w1).2 ∧ untouched w2 (m w2).2
  ∧ match (m w1).1 with Ok a => Q a | Err _ => True end.
Abbreviation isolated m := (isolatedQ (λ _, True) m).

Lemma untouched_refl w : untouched w w.
Proof. done. Qed.
Lemma untouched_trans w1 w2 w3 : untouched w1 w2 → untouched w2 w3 → untouched w1 w3.
Proof. intros H12 H23 T. by rewrite H23. Qed.

(** ** Composition *)

Lemma iso_weaken {A} (P Q : A → Prop) (m : M A) :
  (∀ a, P a → Q a) → isolatedQ P m → isolatedQ Q m.
Proof.
  intros HPQ Hm w1 w2 Hs1 Hs2 Ha. destruct (Hm w1 w2 Hs1 Hs2 Ha) as (?&?&?&?&?&?&HP).
  split_and!; try done. destruct (m w1).1; auto.
Qed.

Lemma iso_pure {A} (Q : A → Prop) (m : M A) (r : result StateBackendError A) :
  (∀ w, m w = (r, w)) → match r with Ok a => Q a | Err _ => True end → isolatedQ Q m.
Proof. intros Hm HQ w1 w2 Hs1 Hs2 Ha. rewrite !Hm. by split_and!. Qed.

Lemma iso_ret {A} (Q : A → Prop) (a : A) : Q a → isolatedQ Q (mret a : M A).
Proof. intros. by apply (iso_pure _ _ (Ok a)). Qed.
Lemma iso_raise {A} (Q : A → Prop) e : isolatedQ Q (raise e : M A).
Proof. by apply (iso_pure _ _ (Err e)). Qed.
Lemma iso_of_result {A} (Q : A → Prop) r :
  (∀ a, r = Ok a → Q a) → isolatedQ Q (of_result r : M A).
Proof. intros HQ. apply (iso_pure _ _ r); [done|]. destruct r; auto. Qed.

Lemma iso_utc_now : isolated (utc_now : M Z).
Proof. intros w1 w2 ?? (?&?&Hc&?). unfold utc_now. cbn. by rewrite Hc. Qed.
Lemma iso_current_term : isolated (Sqlite.current_term : M Z).
Proof. intros w1 w2 ?? (?&Ht&?&?). unfold Sqlite.current_term, gets. cbn. by rewrite Ht. Qed.

Lemma iso_new_v4 : isolatedQ (λ u, mine (uuid_hyphenated u)) (new_v4 : M Uuid).
Proof.
  intros w1 w2 [Hr1 Hd1] [Hr2 Hd2] (Hs&Ht&Hc&Hd). unfold new_v4. cbn. rewrite Hd.
  split_and!; try done; cbn; [split; cbn; [done|]; intros n Hn; apply Hd1; lia|..].
  - split; cbn; [done|]. intros n Hn. apply Hd2. lia.
  - apply Hd2. lia.
Qed.
Lemma iso_next_random : isolated (Sqlite.next_random : M (list N)).
Proof.
  intros w1 w2 [Hr1 Hd1] [Hr2 Hd2] (Hs&Ht&Hc&Hd). unfold Sqlite.next_random. cbn. rewrite Hd.
  split_and!; try done; cbn; split; cbn; try done; intros n Hn; [apply Hd1|apply Hd2]; lia.
Qed.

Lemma iso_bind {A B} (P : A → Prop) (Q : B → Prop) (m : M A) (k : A → M B) :
  isolatedQ P m → (∀ a, P a → isolatedQ Q (k a)) → isolatedQ Q (m ≫= k).
Proof.
  intros Hm Hk w1 w2 Hs1 Hs2 Ha. specialize (Hm w1 w2 Hs1 Hs2 Ha).
  unfold mbind, eff_bind. destruct (m w1) as [[a|e] w1'], (m w2) as [r2 w2']; cbn in *;
    destruct Hm as (<- & Ha' & Hs1' & Hs2' & Hu1 & Hu2 & HP); [|by split_and!].
  destruct (Hk a HP w1' w2' Hs1' Hs2' Ha') as (?&?&?&?&Hv1&Hv2&?).
  split_and!; try done; by eapply untouched_trans.
Qed.

Lemma iso_for_each {A} (l : list A) (f : A → M unit) :
  (∀ x, x ∈ l → isolated (f x)) → isolated (for_each l f).
Proof.
  induction l as [|x l IH]; intros Hf; [by apply iso_ret|]. cbn [for_each].
  eapply iso_bind; [apply Hf; left|]. intros _ _. apply IH. intros y Hy. apply Hf. by right.
Qed.

Lemma iso_as_result {A} (m : M A) : isolated m → isolated (as_result m : M (result _ A)).
Proof.
  intros Hm w1 w2 Hs1 Hs2 Ha. specialize (Hm w1 w2 Hs1 Hs2 Ha). unfold as_result.
  destruct (m w1) as [r1 w1'], (m w2) as [r2 w2']. cbn in *.
  destruct Hm as (-> & ?&?&?&?&?&_). by split_and!.
Qed.

Lemma iso_transaction {A} (Q : A → Prop) (m : M (TxEnd A)) :
  isolatedQ (λ e, match e with Commit a | Rollback a => Q a end) m → isolatedQ Q (transaction m).
Proof.
  intros Hm w1 w2 Hs1 Hs2 Ha. specialize (Hm w1 w2 Hs1 Hs2 Ha). unfold transaction.
  assert (∀ w w', separate w → separate w' →
    separate (World (store w) (clock w') (draws w'))) as Hback.
  { intros w w' [Hr _] [_ Hd]. by split. }
  destruct (m w1) as [[[a|a]|e] w1'], (m w2) as [r2 w2']; cbn in *;
    destruct Hm as (<- & (Hs'&Ht'&Hc'&Hd') & Hs1' & Hs2' & Hu1 & Hu2 & HQ);
    split_and!; try done; try (by apply Hback); destruct Ha as (?&?&?&?); by split_and!.
Qed.

(** ** Statements *)

Definition good (T : Table) (r : row T) : Prop := visible T r ∧ Forall mine (names T r).

Lemma good_sep T r : good T r → row_sep T r.
Proof. intros [Hv Hm]. unfold row_sep. by rewrite decide_True. Qed.
Lemma sep_good T r : row_sep T r → visible T r → good T r.
Proof. intros Hs Hv. split; [done|]. unfold row_sep in Hs. by rewrite decide_True in Hs. Qed.
(** A row that names an id of the tenant's is the tenant's. *)
Lemma named_visible T r s : row_sep T r → s ∈ names T r → mine s → visible T r.
Proof.
  unfold row_sep. case_decide as Hv; [done|]. rewrite Forall_forall. intros Hf Hin Hm.
  by destruct (Hf s Hin).
Qed.

Lemma filter_seen T (p : row T → bool) db :
  (∀ r, r ∈ rows T db → p r = true → visible T r) →
  base.filter (λ r, p r = true) (rows T db) = base.filter (λ r, p r = true) (seen T db).
Proof.
  unfold seen. induction (rows T db) as [|r l IH]; intros Hp; [done|].
  rewrite !filter_cons. destruct (decide (visible T r)) as [Hv|Hv].
  - rewrite filter_cons. case_decide; rewrite IH by (intros; apply Hp; [by right|done]); done.
  - rewrite decide_False; [apply IH; intros; apply Hp; [by right|done]|].
    intros Hpr. apply Hv, Hp; [left|done].
Qed.

Lemma filter_map_stable {A} (P : A → Prop) `{∀ x, Decision (P x)} (h : A → A) (l : list A) :
  (∀ x, x ∈ l → P (h x) ↔ P x) → base.filter P (h <$> l) = h <$> base.filter P l.
Proof.
  induction l as [|x l IH]; intros Hh; [done|]. cbn [fmap list_fmap]. rewrite !filter_cons.
  pose proof (Hh x ltac:(left)) as Hx. rewrite IH by (intros; apply Hh; by right).
  by destruct (decide (P x)), (decide (P (h x))); try tauto.
Qed.

(** A read of what the tenant sees. *)
Lemma iso_gets {A} (Q : A → Prop) (f : Db → A) :
  (∀ w1 w2, separate w1 → separate w2 → agree w1 w2 → f (store w1) = f (store w2)) →
  (∀ w, separate w → Q (f (store w))) → isolatedQ Q (gets f : M A).
Proof.
  intros Hf HQ w1 w2 Hs1 Hs2 Ha. unfold gets. cbn. rewrite (Hf w1 w2) by done.
  split_and!; try done. rewrite <- (Hf w1 w2) by done. by apply HQ.
Qed.

(** A change of one table that acts on the tenant's rows as a function of them,
    and leaves the others. *)
Lemma iso_modify_rows (T : Table) (g : list (row T) → list (row T)) :
  (∀ w1 w2, separate w1 → separate w2 → agree w1 w2 →
    base.filter (visible T) (g (rows T (store w1))) = base.filter (visible T) (g (rows T (store w2)))) →
  (∀ w, separate w → base.filter (λ r, ¬ visible T r) (g (rows T (store w))) = hidden T (store w)) →
  (∀ w r, separate w → r ∈ g (rows T (store w)) → row_sep T r) →
  isolated (modify (λ db, set_rows T (g (rows T db)) db) : M unit).
Proof.
  intros Hseen Hhid Hsep w1 w2 Hs1 Hs2 Ha. pose proof Ha as (Hse&Ht&Hc&Hd). unfold modify. cbn.
  assert (∀ w, separate w → separate (World (set_rows T (g (rows T (store w))) (store w)) (clock w) (draws w))
    ∧ untouched w (World (set_rows T (g (rows T (store w))) (store w)) (clock w) (draws w))) as Hone.
  { intros w Hw. split; [split; [|apply Hw]|]; cbn.
    - intros T' r Hr. destruct (decide (T = T')) as [<-|Hne].
      + rewrite rows_set in Hr. by eapply Hsep.
      + rewrite rows_set_ne in Hr by done. by apply Hw.
    - intros T'. unfold hidden. cbn. destruct (decide (T = T')) as [<-|Hne].
      + rewrite rows_set. by apply Hhid.
      + by rewrite rows_set_ne. }
  destruct (Hone w1 Hs1), (Hone w2 Hs2). split_and!; try done. split_and!; cbn; try done.
  - intros T'. unfold seen. destruct (decide (T = T')) as [<-|Hne].
    + rewrite !rows_set. by apply Hseen.
    + rewrite !rows_set_ne by done. apply Hse.
  - by rewrite !term_set.
Qed.

(** What a [WHERE] clause may select: the tenant's rows only. *)
Definition mine_only (T : Table) (p : row T → bool) : Prop :=
  ∀ r, row_sep T r → p r = true → visible T r.

Lemma mine_only_seen T p w :
  mine_only T p → separate w →
  base.filter (λ r, p r = true) (rows T (store w)) = base.filter (λ r, p r = true) (seen T (store w)).
Proof. intros Hp [Hs _]. apply filter_seen. intros r Hr. by apply Hp, Hs. Qed.

Lemma iso_select T p :
  mine_only T p → isolatedQ (Forall (λ r, p r = true ∧ good T r)) (select_rows T p).
Proof.
  intros Hp. apply iso_gets.
  - intros w1 w2 Hs1 Hs2 (Hse&_). by rewrite !mine_only_seen, Hse by done.
  - intros w Hs. apply Forall_forall. intros r Hr. rewrite scan_perm in Hr.
    apply list_elem_of_filter in Hr as [Hpr Hr]. split; [done|].
    apply Hs in Hr. apply sep_good; [done|by apply Hp].
Qed.

Lemma iso_fetch {A} (Q : A → Prop) (m : M (list A)) :
  isolatedQ (Forall Q) m → isolatedQ (λ o, match o with Some a => Q a | None => True end)
    (fetch_optional m).
Proof.
  intros Hm. eapply iso_bind; [exact Hm|]. intros [|a l] Hl; apply iso_ret; [done|].
  by apply Forall_cons in Hl as [? _].
Qed.

(** What an [UPDATE] may set: neither ids nor the tenant. *)
Definition keeps (T : Table) (f : row T → row T) : Prop :=
  ∀ r, owner T (f r) = owner T r ∧ names T (f r) = names T r.

Lemma keeps_visible T f r : keeps T f → visible T (f r) ↔ visible T r.
Proof. intros Hf. unfold visible. by rewrite (proj1 (Hf r)). Qed.
Lemma keeps_sep T f r : keeps T f → row_sep T r → row_sep T (f r).
Proof.
  intros Hf. unfold row_sep. rewrite (proj2 (Hf r)).
  destruct (decide (visible T r)) as [Hv|Hv]; rewrite <- (keeps_visible T f r Hf) in Hv;
    [by rewrite decide_True|by rewrite decide_False].
Qed.

Lemma iso_update T p f : mine_only T p → keeps T f → isolated (update_rows T p f).
Proof.
  intros Hp Hf. unfold update_rows. eapply (iso_bind (λ _, True)).
  { apply iso_gets; [|done]. intros w1 w2 Hs1 Hs2 (Hse&_). by rewrite !mine_only_seen, Hse by done. }
  intros n _. eapply (iso_bind (λ _, True)); [|intros _ _; by apply iso_ret].
  set (h := λ r, if p r then f r else r).
  assert (∀ r, visible T (h r) ↔ visible T r) as Hv.
  { intros r. unfold h. destruct (p r); [by apply keeps_visible|done]. }
  apply (iso_modify_rows T (fmap h)).
  - intros w1 w2 _ _ (Hse&_). rewrite !filter_map_stable by (intros; apply Hv).
    f_equal. apply Hse.
  - intros w Hs. rewrite filter_map_stable by (intros; by rewrite Hv). fold (hidden T (store w)).
    transitivity (id <$> hidden T (store w)); [|apply list_fmap_id].
    apply list_fmap_ext. intros i r Hr. apply list_elem_of_lookup_2 in Hr.
    apply list_elem_of_filter in Hr as [Hnv Hr]. unfold h. destruct (p r) eqn:Hpr; [|done].
    destruct Hnv. apply Hp; [by apply Hs|done].
  - intros w r Hs Hr. apply list_elem_of_fmap in Hr as (r0 & -> & Hr). apply Hs in Hr.
    unfold h. destruct (p r0); [by apply keeps_sep|done].
Qed.

Lemma filter_comm {A} (P Q : A → Prop) `{∀ x, Decision (P x), ∀ x, Decision (Q x)} (l : list A) :
  base.filter P (base.filter Q l) = base.filter Q (base.filter P l).
Proof.
  induction l as [|x l IH]; [done|]. rewrite (filter_cons Q), (filter_cons P).
  destruct (decide (Q x)), (decide (P x)); rewrite ?(filter_cons P), ?(filter_cons Q);
    rewrite ?decide_True, ?decide_False by done; by rewrite ?IH.
Qed.

Lemma filter_all {A} (P : A → Prop) `{∀ x, Decision (P x)} (l : list A) :
  (∀ x, x ∈ l → P x) → base.filter P l = l.
Proof.
  induction l as [|x l IH]; intros Hl; [done|]. rewrite filter_cons, decide_True by (apply Hl; left).
  f_equal. apply IH. intros y Hy. apply Hl. by right.
Qed.

(** Dropping rows of the tenant's. *)
Lemma iso_drop T p :
  mine_only T p →
  isolated (modify (λ db, set_rows T (base.filter (λ r, p r = false) (rows T db)) db) : M unit).
Proof.
  intros Hp. apply (iso_modify_rows T (base.filter (λ r, p r = false))).
  - intros w1 w2 _ _ (Hse&_). rewrite !(filter_comm (visible T)). f_equal. apply Hse.
  - intros w Hs. rewrite (filter_comm (λ r, ¬ visible T r)). apply filter_all. intros r Hr.
    apply list_elem_of_filter in Hr as [Hnv Hr]. destruct (p r) eqn:Hpr; [|done].
    destruct Hnv. apply Hp; [by apply Hs|done].
  - intros w r Hs Hr. apply list_elem_of_filter in Hr as [_ Hr]. by apply Hs.
Qed.

(** Adding one. *)
Lemma iso_add T r :
  good T r → isolated (modify (λ db, set_rows T (rows T db ++ [r]) db) : M unit).
Proof.
  intros Hg. apply (iso_modify_rows T (λ l, l ++ [r])).
  - intros w1 w2 _ _ (Hse&_). rewrite !filter_app. f_equal. apply Hse.
  - intros w Hs. rewrite filter_app, filter_cons, decide_False by (intros Hn; apply Hn, Hg).
    by rewrite filter_nil, app_nil_r.
  - intros w r' Hs Hr. apply elem_of_app in Hr as [Hr|Hr%list_elem_of_singleton]; [by apply Hs|subst r'].
    by apply good_sep.
Qed.

(** A row of the tenant's clashes with its rows only: every key holds the tenant
    or an id. *)
Lemma clash_mine T r : good T r → mine_only T (clash T r).
Proof.
  intros [Hv Hm] r' Hs Hc. unfold visible in Hv.
  destruct T; cbn in Hv, Hm, Hc; rewrite ?Forall_cons in Hm;
    repeat match goal with
    | H : _ || _ = true |- _ => apply orb_true_iff in H as [H|H]
    | H : bool_decide _ = true |- _ => apply bool_decide_eq_true in H
    | H : _ ∧ _ |- _ => destruct H
    end; subst; try done; try (unfold visible; cbn; congruence);
    match goal with
    | E : ?a = ?b, Hm : mine ?a |- _ =>
        apply (named_visible _ r' b); [exact Hs|cbn; set_solver|by rewrite <- E]
    end.
Qed.

(** The references of a row of the tenant's are checked against what it sees. *)
Lemma refs_agree T r w1 w2 :
  good T r → separate w1 → separate w2 → agree w1 w2 →
  refs_ok T (store w1) r = refs_ok T (store w2) r.
Proof.
  intros [Hv Hm] Hs1 Hs2 (Hse&_). unfold refs_ok. f_equal.
  - destruct (run_ref T r) as [id|] eqn:Hid; [|done].
    assert (mine id) as Hmine.
    { destruct T; cbn in Hid; try done; injection Hid as <-; cbn in Hm;
        by rewrite ?Forall_cons in Hm; destruct_and? Hm. }
    assert (∀ w, separate w → has_run (store w) id
      = existsb (λ x, bool_decide (x_execution_id x = id)) (seen Executions (store w))) as Hrun.
    { intros w [Hs _]. unfold has_run, seen. apply eq_iff_eq_true. rewrite !existsb_exists.
      split; intros (x & Hx & He).
      - exists x. split; [|done]. apply list_elem_of_In. apply list_elem_of_In in Hx.
        apply list_elem_of_filter. split; [|done].
        apply (named_visible Executions x (x_execution_id x)); [by apply Hs|left|].
        apply bool_decide_eq_true in He. by subst.
      - exists x. split; [|done]. apply list_elem_of_In. apply list_elem_of_In in Hx.
        by apply list_elem_of_filter in Hx as [_ Hx]. }
    by rewrite !Hrun, Hse.
  - destruct (tenant_ref T r) as [id|]; [|done]. unfold has_tenant. f_equal.
    specialize (Hse Tenants). unfold seen in Hse. by rewrite !filter_all in Hse.
Qed.

Lemma taken_agree T r w1 w2 :
  good T r → separate w1 → separate w2 → agree w1 w2 →
  existsb (clash T r) (rows T (store w1)) = existsb (clash T r) (rows T (store w2)).
Proof.
  intros Hg Hs1 Hs2 (Hse&_).
  assert (∀ w, separate w → existsb (clash T r) (rows T (store w))
    = bool_decide (base.filter (λ r', clash T r r' = true) (seen T (store w)) ≠ [])) as Hex.
  { intros w Hs. rewrite <- mine_only_seen by (done || by apply clash_mine).
    apply eq_iff_eq_true. rewrite existsb_exists, bool_decide_eq_true. split.
    - intros (x & Hx & Hc) Hnil. apply list_elem_of_In in Hx.
      apply (not_elem_of_nil x). rewrite <- Hnil. by apply list_elem_of_filter.
    - intros Hne. destruct (base.filter _ _) as [|x l] eqn:Hf; [done|].
      assert (x ∈ base.filter (λ r', clash T r r' = true) (rows T (store w))) as Hx
        by (rewrite Hf; left).
      apply list_elem_of_filter in Hx as [Hc Hx]. exists x. by rewrite <- list_elem_of_In. }
  by rewrite !Hex, Hse.
Qed.

Lemma iso_append T r : good T r → isolated (append_row T r).
Proof.
  intros Hg. unfold append_row. eapply (iso_bind (λ _, True)).
  { apply iso_gets; [|done]. intros. by apply refs_agree. }
  intros [|] _; [by apply iso_add|apply iso_raise].
Qed.

Lemma iso_taken T r :
  good T r → isolated (gets (λ db, existsb (clash T r) (rows T db)) : M bool).
Proof. intros Hg. apply iso_gets; [|done]. intros. by apply taken_agree. Qed.

Lemma iso_insert T r : good T r → isolated (insert_row T r).
Proof.
  intros Hg. eapply iso_bind; [by apply iso_taken|].
  intros [|] _; [apply iso_raise|by apply iso_append].
Qed.

Lemma iso_insert_or_ignore T r : good T r → isolated (insert_or_ignore T r).
Proof.
  intros Hg. eapply iso_bind; [by apply iso_taken|].
  intros [|] _; [by apply iso_ret|]. eapply iso_bind; [by apply iso_append|]. intros _ _.
  by apply iso_ret.
Qed.

Lemma iso_insert_or_replace T r : good T r → isolated (insert_or_replace T r).
Proof.
  intros Hg. unfold insert_or_replace. eapply (iso_bind (λ _, True)).
  { apply iso_gets; [|done]. intros. by apply refs_agree. }
  intros [|] _; [|apply iso_raise].
  assert (isolated ((modify (λ db, set_rows T (base.filter (λ r', clash T r r' = false) (rows T db)) db)
    : M unit) ≫= λ _, modify (λ db, set_rows T (rows T db ++ [r]) db))) as Hi.
  { eapply iso_bind; [by apply iso_drop, clash_mine|]. intros _ _. by apply iso_add. }
  revert Hi. unfold isolatedQ, mbind, eff_bind, modify. cbn.
  assert (∀ l db, set_rows T (rows T (set_rows T l db) ++ [r]) (set_rows T l db)
    = set_rows T (l ++ [r]) db) as Hset by (intros; rewrite rows_set; by destruct T).
  intros Hi w1 w2 Hs1 Hs2 Ha. specialize (Hi w1 w2 Hs1 Hs2 Ha). by rewrite !Hset in Hi.
Qed.

Lemma iso_upsert T r p f :
  good T r → keeps T f → isolated (upsert T r p f).
Proof.
  intros Hg Hf. eapply iso_bind; [by apply iso_taken|]. intros [|] _.
  - apply iso_update; [|done]. intros r' Hs Hp. apply andb_true_iff in Hp as [Hp _].
    by eapply clash_mine.
  - eapply iso_bind; [by apply iso_append|]. intros _ _. by apply iso_ret.
Qed.

Lemma iso_delete T p : mine_only T p → isolated (delete_rows T p).
Proof. apply iso_drop. Qed.

(** ** The operations *)

Abbreviation scope := (Some tenant).

Lemma iso_of_result_eq {A} (r : result StateBackendError A) :
  isolatedQ (λ a, r = Ok a) (of_result r : M A).
Proof. by apply iso_of_result. Qed.

Lemma scoped_mine T (p : row T → bool) :
  (∀ r, p r = true → owner T r = Some t) → mine_only T p.
Proof. intros Hp r _ Hr. unfold visible. by rewrite (Hp r Hr). Qed.
Lemma named_mine T (p : row T → bool) (id : string) :
  mine id → (∀ r, p r = true → id ∈ names T r) → mine_only T p.
Proof. intros Hid Hp r Hs Hr. eapply named_visible; [done|by apply Hp|done]. Qed.
Lemma shared_mine T (p : row T → bool) : (∀ r, owner T r = None) → mine_only T p.
Proof. intros Hp r _ _. unfold visible. by rewrite Hp. Qed.

(** Conditions of a [WHERE] clause. *)
Ltac bools H :=
  repeat match type of H with
  | _ && _ = true => let H1 := fresh H in apply andb_true_iff in H as [H H1]; bools H1
  | Sqlite.in_scope _ _ = true => apply bool_decide_eq_true in H
  | Sqlite.eqs _ _ = true => apply bool_decide_eq_true in H
  end.
Ltac where_tac :=
  first
    [ apply shared_mine; intros ?; reflexivity
    | apply scoped_mine; let r := fresh in let Hp := fresh "Hp" in intros r Hp;
      unfold Sqlite.held_under, Sqlite.lost_by, Sqlite.claimable_row in Hp;
      unfold Sqlite.is_run, Sqlite.is_event_of, Sqlite.is_artifact, Sqlite.is_item in Hp;
      bools Hp; unfold Sqlite.def_tenant, Sqlite.stamp in *; cbn; congruence
    | match goal with
      | Hm : mine ?id |- _ =>
          apply (named_mine _ _ id Hm); let r := fresh in let Hp := fresh "Hp" in intros r Hp;
          bools Hp; cbn; set_solver
      end ].
Ltac keeps_tac := intros ?; repeat case_match; split; reflexivity.
Ltac good_tac := first [by eauto 3 | by (split; [reflexivity | cbn; repeat constructor; auto])].

Ltac iso_leaf :=
  first
    [ apply iso_utc_now | apply iso_new_v4 | apply iso_current_term | apply iso_next_random
    | apply iso_of_result_eq
    | match goal with
      | |- isolatedQ _ (fetch_optional (select_rows ?T ?p)) =>
          apply iso_fetch; apply (iso_select T p); where_tac
      | |- isolatedQ _ (select_rows ?T ?p) => apply (iso_select T p); where_tac
      | |- isolatedQ _ (update_rows ?T ?p ?f) => apply (iso_update T p f); [where_tac|keeps_tac]
      | |- isolatedQ _ (insert_row ?T ?r) => apply (iso_insert T r); good_tac
      | |- isolatedQ _ (insert_or_ignore ?T ?r) => apply (iso_insert_or_ignore T r); good_tac
      | |- isolatedQ _ (insert_or_replace ?T ?r) => apply (iso_insert_or_replace T r); good_tac
      | |- isolatedQ _ (upsert ?T ?r ?p ?f) => apply (iso_upsert T r p f); [good_tac|keeps_tac]
      | |- isolatedQ _ (delete_rows ?T ?p) => apply (iso_delete T p); where_tac
      end
    | by eauto with iso ].
Ltac iso :=
  repeat first
    [ by (apply iso_ret; auto)
    | apply iso_raise
    | match goal with |- ∀ _, True → isolatedQ _ _ => intros ? _ end
    | match goal with |- isolatedQ _ (_ ≫= _) => eapply iso_bind; [iso_leaf|intros ? ?] end
    | apply iso_transaction
    | by iso_leaf
    | solve [eapply iso_weaken; [intros; exact I|iso_leaf]]
    | case_decide | case_match ].

Create HintDb iso.

Lemma iso_decode {A B} (f : A → result StateBackendError B) o :
  isolatedQ (λ b, try_opt f o = Ok b) (Sqlite.decode f o).
Proof. apply iso_of_result_eq. Qed.
Hint Resolve iso_decode : iso.

Lemma iso_max_sequence p : mine_only Events p → isolated (Sqlite.max_sequence p).
Proof. intros Hp. unfold Sqlite.max_sequence. eapply iso_bind; [by apply (iso_select Events)|]. iso. Qed.
Lemma iso_next_seq id : mine id → isolated (Sqlite.next_seq id).
Proof.
  intros Hid. unfold Sqlite.next_seq. eapply iso_bind; [apply iso_max_sequence; where_tac|]. iso.
Qed.
Hint Resolve iso_next_seq : iso.

Lemma iso_store_workflow d : isolated (Sqlite.store_workflow scope d).
Proof. unfold Sqlite.store_workflow. iso. Qed.
Lemma iso_get_workflow i v : isolated (Sqlite.get_workflow scope i v).
Proof. unfold Sqlite.get_workflow. iso. Qed.
Lemma iso_create_execution e :
  mine (execution_id_str (execution_id e)) → isolated (Sqlite.create_execution scope e).
Proof. intros Hm. unfold Sqlite.create_execution. iso. Qed.
Lemma iso_get_execution id : isolated (Sqlite.get_execution scope id).
Proof. unfold Sqlite.get_execution. iso. Qed.
Hint Resolve iso_get_execution : iso.
Lemma iso_update_status id st : isolated (Sqlite.update_execution_status scope id st).
Proof. unfold Sqlite.update_execution_status. iso. Qed.
Lemma iso_update_current id v : isolated (Sqlite.update_execution_current_state scope id v).
Proof. unfold Sqlite.update_execution_current_state. iso. Qed.
Hint Resolve iso_update_current : iso.
Lemma iso_patch id k v : isolated (Sqlite.patch_append_array scope id k v).
Proof. unfold Sqlite.patch_append_array. iso. Qed.
Lemma iso_list_executions st l o : isolated (Sqlite.list_executions scope st l o).
Proof. unfold Sqlite.list_executions. iso. Qed.
Lemma iso_terminal_status id : isolated (Sqlite.terminal_status_of scope id).
Proof. unfold Sqlite.terminal_status_of. iso. Qed.
Hint Resolve iso_terminal_status : iso.
Lemma iso_execution_tenant id : isolated (Sqlite.execution_tenant_in scope id).
Proof. unfold Sqlite.execution_tenant_in. iso. Qed.
Lemma iso_append_event e :
  mine (uuid_hyphenated (event_id e)) → mine (execution_id_str (event_execution_id e)) →
  isolated (Sqlite.append_event scope e).
Proof. intros. unfold Sqlite.append_event. iso. Qed.
Lemma iso_get_events id : isolated (Sqlite.get_events scope id).
Proof. unfold Sqlite.get_events. iso. Qed.
Lemma iso_get_events_since id n : isolated (Sqlite.get_events_since scope id n).
Proof. unfold Sqlite.get_events_since. iso. Qed.
Lemma iso_latest_sequence id : isolated (Sqlite.latest_sequence scope id).
Proof. unfold Sqlite.latest_sequence. apply iso_max_sequence. where_tac. Qed.
Lemma iso_finish e st :
  mine (uuid_hyphenated (event_id e)) → mine (execution_id_str (event_execution_id e)) →
  isolated (Sqlite.finish_execution_in scope e st).
Proof. intros. unfold Sqlite.finish_execution_in. iso. Qed.
Lemma iso_append_if e c :
  mine (uuid_hyphenated (event_id e)) → mine (execution_id_str (event_execution_id e)) →
  isolated (Sqlite.append_event_if_in scope e c).
Proof. intros. unfold Sqlite.append_event_if_in. iso. Qed.
Lemma iso_write_snapshot sn :
  mine (uuid_hyphenated (snap_id sn)) → mine (execution_id_str (snap_execution_id sn)) →
  isolated (Sqlite.write_snapshot scope sn).
Proof. intros. unfold Sqlite.write_snapshot. iso. Qed.
Lemma iso_latest_snapshot_row id : isolated (Sqlite.latest_snapshot_row scope id).
Proof. unfold Sqlite.latest_snapshot_row. iso. Qed.
Hint Resolve iso_latest_snapshot_row : iso.
Lemma iso_latest_snapshot id : isolated (Sqlite.latest_snapshot scope id).
Proof. unfold Sqlite.latest_snapshot. iso. Qed.

Lemma iso_create_run e seed k1 k2 item :
  mine (execution_id_str (execution_id e)) →
  (∀ sn, seed = Some sn → mine (uuid_hyphenated (snap_id sn))) →
  mine (uuid_hyphenated (wi_id item)) → mine (execution_id_str (wi_execution_id item)) →
  isolated (Sqlite.create_run_in scope e seed k1 k2 item).
Proof.
  intros He Hseed Hi Hx. unfold Sqlite.create_run_in. apply iso_transaction.
  eapply iso_bind; [iso_leaf|intros _ _].
  eapply (iso_bind (λ _, True)); [destruct seed as [sn|]; [|by apply iso_ret]|intros _ _].
  { pose proof (Hseed sn eq_refl). iso. }
  eapply (iso_bind (λ _, True)); [apply iso_for_each; intros k _; iso|intros _ _]. iso.
Qed.

Lemma iso_get_effect k : isolated (Sqlite.get_tool_effect scope k).
Proof. unfold Sqlite.get_tool_effect. iso. Qed.
Lemma iso_reserve k id n o f ttl : isolated (Sqlite.reserve_tool_effect scope k id n o f ttl).
Proof. unfold Sqlite.reserve_tool_effect. iso. Qed.
Lemma iso_release k o f : isolated (Sqlite.release_tool_reservation scope k o f).
Proof. unfold Sqlite.release_tool_reservation. iso. Qed.
Lemma iso_put_artifact b m : isolated (Sqlite.put_artifact scope b m).
Proof. unfold Sqlite.put_artifact. iso. Qed.
Lemma iso_get_artifact h : isolated (Sqlite.get_artifact scope h).
Proof. unfold Sqlite.get_artifact. iso. Qed.
Lemma iso_enqueue item :
  mine (uuid_hyphenated (wi_id item)) → mine (execution_id_str (wi_execution_id item)) →
  isolated (Sqlite.enqueue_work_item scope item).
Proof. intros. unfold Sqlite.enqueue_work_item. iso. Qed.

(** A row of the tenant's reads as an item whose ids are its own. *)
Lemma item_mine r item :
  good WorkItems r → row_to_work_item r = Ok item →
  mine (uuid_hyphenated (wi_id item)) ∧ mine (execution_id_str (wi_execution_id item))
  ∧ wi_tenant_id item = t.
Proof.
  intros [Hv Hm]. cbn in Hv, Hm. apply Forall_cons in Hm as [Hid Hm].
  apply Forall_cons in Hm as [Hx _].
  unfold row_to_work_item, parse_uuid, parse_execution_id, mbind, result_bind.
  destruct (uuid_from_str (i_id r)) as [u|] eqn:Hu; cbn [ok_or]; [|done].
  destruct (uuid_from_str (i_execution_id r)) as [x|] eqn:Hxu; [|done].
  intros Hr. repeat (case_match; try done). injection Hr as <-. cbn. unfold execution_id_str. cbn. eauto.
Qed.

Lemma iso_insert_event item k :
  mine (execution_id_str (wi_execution_id item)) → wi_tenant_id item = t →
  isolated (Sqlite.insert_event_in_tx item k).
Proof.
  intros Hx Ht. unfold Sqlite.insert_event_in_tx, Event_new.
  eapply (iso_bind (λ e, mine (uuid_hyphenated (event_id e)))); [iso|intros e He].
  eapply iso_bind; [by apply iso_next_seq|intros n _].
  apply (iso_insert Events). split; [exact Ht|]. by repeat constructor.
Qed.
Hint Resolve iso_insert_event : iso.

Lemma iso_expire_one r st : good WorkItems r → isolated (Sqlite.expire_one r st).
Proof.
  intros Hg. unfold Sqlite.expire_one. eapply iso_bind; [apply iso_of_result_eq|].
  intros item Hitem. destruct (item_mine r item Hg Hitem) as (Hid & Hx & Ht).
  iso; apply iso_for_each; intros k _; by apply iso_insert_event.
Qed.

Lemma iso_with_status l :
  Forall (good WorkItems) l → isolatedQ (Forall (λ rt, good WorkItems rt.1)) (Sqlite.with_status l).
Proof.
  induction 1 as [|r l Hr _ IH]; [by apply iso_ret|]. cbn [Sqlite.with_status].
  eapply (iso_bind (λ _, True)).
  { unfold Sqlite.joined_status. destruct Hr as [_ Hm]. cbn in Hm. rewrite !Forall_cons in Hm.
    destruct Hm as (_ & Hx & _). iso. }
  intros st _. eapply iso_bind; [exact IH|]. intros l' Hl'. apply iso_ret. by constructor.
Qed.

Lemma iso_expire_stale : isolated (Sqlite.expire_stale_leases scope).
Proof.
  unfold Sqlite.expire_stale_leases. eapply iso_bind; [iso_leaf|intros now _].
  apply iso_transaction. eapply iso_bind; [iso_leaf|intros found Hf].
  eapply iso_bind; [apply iso_with_status|intros joined Hj].
  { eapply Forall_impl; [exact Hf|]. by intros r [_ ?]. }
  eapply (iso_bind (λ _, True)); [|iso].
  apply iso_for_each. intros rt Hrt. apply iso_expire_one. rewrite Forall_forall in Hj. by apply Hj.
Qed.
Hint Resolve iso_expire_stale : iso.

Lemma iso_claim w q secs : isolated (Sqlite.claim_work_item_with_lease scope w q secs).
Proof.
  unfold Sqlite.claim_work_item_with_lease. case_decide; [by apply iso_ret|].
  eapply iso_bind; [iso_leaf|intros _ _]. eapply iso_bind; [iso_leaf|intros now _].
  eapply (iso_bind (λ _, True)); [|intros [[[item f] e]|] _; iso].
  apply iso_transaction. eapply iso_bind; [iso_leaf|intros found Hf].
  destruct (head _) as [r|] eqn:Hr; [|by apply iso_ret].
  assert (good WorkItems r) as Hg.
  { apply head_Some_elem_of in Hr. rewrite merge_sort_Permutation in Hr.
    rewrite Forall_forall in Hf. by apply (Hf r Hr). }
  eapply iso_bind; [apply iso_of_result_eq|intros item Hitem].
  destruct (item_mine r item Hg Hitem) as (Hid & Hx & Ht). iso.
Qed.

Lemma iso_lease_secs id : mine id → isolated (Sqlite.lease_secs_for id).
Proof. intros. unfold Sqlite.lease_secs_for. iso. Qed.
Hint Resolve iso_lease_secs : iso.
Lemma iso_renew id w f : mine (uuid_hyphenated id) → isolated (Sqlite.renew_lease scope id w f).
Proof. intros. unfold Sqlite.renew_lease. iso. Qed.
Lemma iso_reattach id w f : isolated (Sqlite.reattach_lease scope id w f).
Proof. unfold Sqlite.reattach_lease. iso. Qed.
Hint Resolve iso_reattach : iso.
Lemma iso_heartbeat id w f :
  mine (uuid_hyphenated id) → isolated (Sqlite.heartbeat_lease scope id w f).
Proof.
  intros Hid. unfold Sqlite.heartbeat_lease.
  eapply iso_bind; [by apply iso_as_result, iso_renew|intros [r|[]] _];
    try apply iso_raise; [by apply iso_ret|apply iso_reattach].
Qed.
Lemma iso_get_item id : isolated (Sqlite.get_work_item scope id).
Proof. unfold Sqlite.get_work_item. iso. Qed.
Lemma iso_complete id : isolated (Sqlite.complete_work_item scope id).
Proof. unfold Sqlite.complete_work_item. iso. Qed.
Lemma iso_complete_fenced id f : isolated (Sqlite.complete_work_item_fenced scope id f).
Proof. unfold Sqlite.complete_work_item_fenced. iso. Qed.
Lemma iso_fail id e : isolated (Sqlite.fail_work_item scope id e).
Proof. unfold Sqlite.fail_work_item. iso. Qed.

(** The dead letter of an item that was read. *)
Lemma dead_letter_good r item id_str att err at_ :
  good WorkItems r → row_to_work_item r = Ok item → i_id r = id_str →
  good DeadLetters (dead_letter_row id_str item att err at_ t).
Proof.
  intros Hg Hitem <-. destruct (item_mine r item Hg Hitem) as (_ & Hx & _).
  destruct Hg as [_ Hm]. cbn in Hm. apply Forall_cons in Hm as [Hid _].
  split; [done|]. by repeat constructor.
Qed.
Lemma item_row_id id r : Sqlite.is_item scope id r = true → i_id r = id.
Proof. unfold Sqlite.is_item. intros [Hi _]%andb_true_iff. by apply bool_decide_eq_true in Hi. Qed.

Lemma iso_fail_fenced id f e : isolated (Sqlite.fail_work_item_fenced scope id f e).
Proof.
  unfold Sqlite.fail_work_item_fenced. apply iso_transaction.
  eapply iso_bind; [iso_leaf|intros [r|] Hr; [|by apply iso_ret]]. destruct Hr as [Hp Hg].
  eapply iso_bind; [apply iso_of_result_eq|intros item Hitem].
  assert (i_id r = uuid_hyphenated id) as Hid.
  { apply item_row_id. unfold Sqlite.held_under in Hp.
    apply andb_true_iff in Hp as [Hp _]. by apply andb_true_iff in Hp as [Hp _]. }
  assert (∀ att now, good DeadLetters (dead_letter_row (uuid_hyphenated id) item att e now t)) as Hd.
  { intros. by apply (dead_letter_good r). }
  eapply iso_bind; [iso_leaf|intros now _]. iso.
Qed.
Lemma iso_park id f a n : isolated (Sqlite.park_work_item scope id f a n).
Proof. unfold Sqlite.park_work_item. iso. Qed.
Lemma iso_finalize e id f : isolated (Sqlite.finalize_rollover_fenced scope e id f).
Proof. unfold Sqlite.finalize_rollover_fenced. iso. Qed.
Lemma iso_withdraw id f : isolated (Sqlite.withdraw_claimed_item scope id f).
Proof. unfold Sqlite.withdraw_claimed_item. iso. Qed.
Hint Resolve iso_withdraw : iso.

Lemma iso_snapshot_in_tx id :
  mine (execution_id_str id) → isolated (Sqlite.snapshot_in_tx scope id).
Proof.
  intros Hid. unfold Sqlite.snapshot_in_tx, Sqlite.snapshot_base, from_materialized.
  eapply (iso_bind (λ _, True)); [iso|intros base _].
  eapply iso_bind; [iso_leaf|intros found _]. eapply iso_bind; [apply iso_of_result_eq|intros tail _].
  eapply (iso_bind (λ s, mine (uuid_hyphenated (snap_id s)) ∧ snap_execution_id s = id)).
  { iso. }
  intros s [Hs ->]. iso.
Qed.
Lemma iso_record_effect x k now :
  (∀ key v, InMemory.idem_effect k = Some (key, v) → mine key) →
  isolated (Sqlite.record_effect scope x k now).
Proof.
  intros Hk. unfold Sqlite.record_effect.
  destruct k; try by apply iso_ret. destruct (InMemory.idem_effect _) as [[key v]|] eqn:He;
    [|by apply iso_ret]. pose proof (Hk key v eq_refl). iso.
Qed.

Lemma iso_commit id f e sn ref :
  mine (uuid_hyphenated (event_id e)) → mine (execution_id_str (event_execution_id e)) →
  (∀ key v, InMemory.idem_effect (event_kind e) = Some (key, v) → mine key) →
  isolated (Sqlite.commit_turn_inner scope id f e sn ref).
Proof.
  intros He Hx Hk. unfold Sqlite.commit_turn_inner. eapply iso_bind; [iso_leaf|intros now _].
  destruct (Sqlite.settled_as _) as [[st b]|]; [|apply iso_raise]. apply iso_transaction.
  eapply (iso_bind (λ _, True)); [destruct ref; iso|intros [ts|] _; [iso|]].
  eapply iso_bind; [iso_leaf|intros n _]. case_decide; [apply iso_raise|].
  eapply iso_bind; [by apply iso_next_seq|intros seq _].
  eapply iso_bind; [iso_leaf|intros _ _].
  eapply iso_bind; [by apply iso_record_effect|intros _ _].
  eapply (iso_bind (λ _, True)); [destruct sn; [by apply iso_snapshot_in_tx|by apply iso_ret]|]. iso.
Qed.

Lemma iso_reclaim_one acc r : good WorkItems r → isolated (Sqlite.reclaim_one scope acc r).
Proof.
  intros Hg. unfold Sqlite.reclaim_one. eapply iso_bind; [apply iso_of_result_eq|intros item Hitem].
  destruct (item_mine r item Hg Hitem) as (Hid & Hx & Ht). iso.
Qed.
Lemma iso_reclaim : isolated (Sqlite.reclaim_expired_leases scope).
Proof.
  unfold Sqlite.reclaim_expired_leases. eapply iso_bind; [iso_leaf|intros now _].
  eapply iso_bind; [iso_leaf|intros found Hf].
  assert (Forall (good WorkItems) (merge_sort created_earlier found)) as Hg.
  { rewrite merge_sort_Permutation. eapply Forall_impl; [exact Hf|]. by intros r [_ ?]. }
  revert Hg. generalize ReclaimResult_default.
  induction (merge_sort created_earlier found) as [|r l IH]; intros acc Hg; [by apply iso_ret|].
  apply Forall_cons in Hg as [Hr Hl]. cbn [Sqlite.reclaim_rows].
  eapply iso_bind; [by apply iso_reclaim_one|intros acc' _]. by apply IH.
Qed.
Lemma iso_move_to_dead_letter id e : isolated (Sqlite.move_to_dead_letter scope id e).
Proof.
  unfold Sqlite.move_to_dead_letter. eapply iso_bind; [iso_leaf|intros [r|] Hr; [|apply iso_raise]].
  destruct Hr as [Hp Hg]. eapply iso_bind; [apply iso_of_result_eq|intros item Hitem].
  eapply iso_bind; [iso_leaf|intros now _].
  eapply (iso_bind (λ _, True)); [|iso]. apply (iso_insert_or_replace DeadLetters).
  apply (dead_letter_good r); [done..|]. by apply item_row_id.
Qed.

Lemma iso_create_token n r : isolated (Sqlite.create_token scope n r).
Proof. unfold Sqlite.create_token. iso. Qed.
Lemma iso_validate_token s : isolated (Sqlite.validate_token s).
Proof. unfold Sqlite.validate_token. iso. Qed.

Lemma iso_put_checkpoint n x cp now : mine x → isolated (Sqlite.put_checkpoint scope n x cp now).
Proof. intros. unfold Sqlite.put_checkpoint. iso. Qed.
Lemma iso_put_approval x r now : mine x → isolated (Sqlite.put_approval scope x r now).
Proof. intros. unfold Sqlite.put_approval. iso. Qed.
Hint Resolve iso_put_checkpoint iso_put_approval : iso.
Lemma iso_apply_projection r n cp :
  mine (execution_id_str (ap_execution_id r)) →
  isolated (Sqlite.apply_approval_projection scope r n cp).
Proof. intros. unfold Sqlite.apply_approval_projection. iso. Qed.
Lemma iso_apply_batch rs n id cp :
  mine (execution_id_str id) → isolated (Sqlite.apply_approval_projection_batch scope rs n id cp).
Proof.
  intros. unfold Sqlite.apply_approval_projection_batch. eapply iso_bind; [iso_leaf|intros now _].
  apply iso_transaction. eapply (iso_bind (λ _, True)); [apply iso_for_each; intros; iso|]. iso.
Qed.
Lemma iso_get_projection id : isolated (Sqlite.get_approval_projection scope id).
Proof. unfold Sqlite.get_approval_projection. iso. Qed.
Lemma iso_get_checkpoint n id : isolated (Sqlite.get_projector_checkpoint scope n id).
Proof. unfold Sqlite.get_projector_checkpoint. iso. Qed.
Lemma iso_set_checkpoint n id cp :
  mine (execution_id_str id) → isolated (Sqlite.set_projector_checkpoint scope n id cp).
Proof. intros. unfold Sqlite.set_projector_checkpoint. iso. Qed.
Lemma iso_create_tenant x : isolated (Sqlite.create_tenant x).
Proof. unfold Sqlite.create_tenant. iso. Qed.
Lemma iso_get_tenant x : isolated (Sqlite.get_tenant x).
Proof. unfold Sqlite.get_tenant. iso. Qed.
Lemma iso_list_tenants : isolated Sqlite.list_tenants.
Proof. unfold Sqlite.list_tenants. iso. Qed.
Lemma iso_update_tenant x : isolated (Sqlite.update_tenant x).
Proof. unfold Sqlite.update_tenant. iso. Qed.
End Isolation.

(** ** The theorem *)

(** The ids a call writes rows under, and the item a renewal names: all but a
    fenced settle's, which the tenant clause guards. *)
Definition event_ids `{!UuidOps} (e : Event) : list string :=
  [uuid_hyphenated (event_id e); execution_id_str (event_execution_id e)].
Definition item_ids `{!UuidOps} (i : WorkItem) : list string :=
  [uuid_hyphenated (wi_id i); execution_id_str (wi_execution_id i)].
Definition effect_ids (e : Event) : list string :=
  match InMemory.idem_effect (event_kind e) with Some (key, _) => [key] | None => [] end.
Definition call_ids `{!UuidOps} {A} (c : Call A) : list string :=
  match c with
  | CreateExecution e => [execution_id_str (execution_id e)]
  | FinishExecution ev _ | AppendEventIf ev _ | AppendEvent ev => event_ids ev
  | WriteSnapshot sn =>
      [uuid_hyphenated (snap_id sn); execution_id_str (snap_execution_id sn)]
  | CreateSegmentAtomic e sn _ _ i =>
      [execution_id_str (execution_id e); uuid_hyphenated (snap_id sn)] ++ item_ids i
  | StartExecutionAtomic e _ _ i => [execution_id_str (execution_id e)] ++ item_ids i
  | EnqueueWorkItem i => item_ids i
  | RenewLease id _ _ | HeartbeatLease id _ _ => [uuid_hyphenated id]
  | CommitTurn _ _ ev _ | CommitTurnUnlessTerminal _ _ ev _ => event_ids ev ++ effect_ids ev
  | ApplyApprovalProjection r _ _ => [execution_id_str (ap_execution_id r)]
  | ApplyApprovalProjectionBatch _ _ id _ | SetProjectorCheckpoint _ id _ => [execution_id_str id]
  | _ => []
  end.

Section Theorem_.
Context `{!UuidOps, !ChronoOps, !JsonText, !Sha256Ops, !SqlOps, !RowSerde}.
Context (tenant : TenantId) (mine : string → Prop).

Lemma effect_mine ev key v :
  Forall mine (effect_ids ev) → InMemory.idem_effect (event_kind ev) = Some (key, v) → mine key.
Proof. unfold effect_ids. intros Hm Hk. rewrite Hk in Hm. by apply Forall_cons in Hm as [? _]. Qed.

Lemma call_isolated {A} (c : Call A) :
  (∀ s u, uuid_from_str s = Some u → mine s → mine (uuid_hyphenated u)) →
  Forall mine (call_ids c) →
  isolatedQ tenant mine (λ _, True) (call (tenant_scoped_backend tenant) c).
Proof.
  intros Hsp Hids. destruct c; cbn in Hids |- *;
    unfold event_ids, item_ids in Hids; rewrite ?Forall_app, ?Forall_cons in Hids; destruct_and? Hids.
  - by apply iso_store_workflow.
  - by apply iso_get_workflow.
  - by apply iso_create_execution.
  - by apply iso_get_execution.
  - by apply iso_execution_tenant.
  - by apply iso_update_status.
  - by apply iso_finish.
  - by apply iso_append_if.
  - by apply iso_update_current.
  - by apply iso_patch.
  - by apply iso_list_executions.
  - by apply iso_append_event.
  - by apply iso_get_events.
  - by apply iso_get_events_since.
  - by apply iso_latest_sequence.
  - by apply iso_write_snapshot.
  - by apply iso_latest_snapshot.
  - apply iso_create_run; try done. by intros sn [= <-].
  - by apply iso_create_run.
  - by apply iso_get_effect.
  - by apply iso_reserve.
  - by apply iso_release.
  - by apply iso_put_artifact.
  - by apply iso_get_artifact.
  - by apply iso_enqueue.
  - by apply iso_claim.
  - by apply iso_renew.
  - by apply iso_claim.
  - by apply iso_heartbeat.
  - by apply iso_get_item.
  - by apply iso_complete.
  - by apply iso_complete_fenced.
  - by apply iso_fail.
  - by apply iso_fail_fenced.
  - unfold Sqlite.commit_turn. eapply (iso_bind _ _ (λ _, True)); [|intros [n|st] _].
    + apply iso_commit; try done. intros key v. by apply effect_mine.
    + by apply iso_ret.
    + apply iso_raise.
  - apply iso_commit; try done. intros key v. by apply effect_mine.
  - by apply iso_withdraw.
  - by apply iso_park.
  - by apply iso_finalize.
  - by apply iso_reclaim.
  - by apply iso_move_to_dead_letter.
  - by apply iso_create_token.
  - by apply iso_validate_token.
  - by apply iso_apply_projection.
  - by apply iso_apply_batch.
  - by apply iso_get_projection.
  - by apply iso_get_checkpoint.
  - by apply iso_set_checkpoint.
  - by apply iso_create_tenant.
  - by apply iso_get_tenant.
  - by apply iso_list_tenants.
  - by apply iso_update_tenant.
Qed.

(** C33: A tenant that stays within its own ids is isolated. Let the ids of the
    tenant's rows be its own, whatever spelling they are read from, and no other
    tenant's row mention one of them; and let every id under which the call stores or
    renews something (run, item, event, snapshot, projection, checkpoint, the key of
    a recorded effect) be the tenant's own. Ids it only looks up or updates by may
    be anyone's. Then what the scoped backend answers, and what it makes of the tenant's
    rows, depends on nothing but those rows, the tenants and the tokens: in two
    databases that agree on them it answers the same and they agree afterwards. It
    changes no row of any other tenant, and the ids stay apart, so the next such call
    is isolated too. Without the condition on the call this is false: a snapshot
    written under another tenant's run id and sequence replaces that tenant's
    ([foreign_snapshot_replaces]), against the isolation the module's
    documentation promises. *)
Theorem tenant_isolation {A} (c : Call A) (w1 w2 : world Db)
    (Hspelling : ∀ s u, uuid_from_str s = Some u → mine s → mine (uuid_hyphenated u))
    (Hids : Forall mine (call_ids c))
    (Hsep1 : separate tenant mine w1) (Hsep2 : separate tenant mine w2)
    (Hagree : agree tenant w1 w2) :
  let run := call (tenant_scoped_backend tenant) c in
  (run w1).1 = (run w2).1 ∧ agree tenant (run w1).2 (run w2).2
  ∧ untouched tenant w1 (run w1).2 ∧ separate tenant mine (run w1).2.
Proof.
  intros run. destruct (call_isolated c Hspelling Hids w1 w2 Hsep1 Hsep2 Hagree)
    as (?&?&?&_&?&_). done.
Qed.
End Theorem_.

(** ** Witnesses *)

Module IsolationSample.
#[local] Existing Instances plain_uuid plain_sha256.

(** JSON texts that are strings, ids in binary, and times that sort as text. *)
Definition text_json : JsonText.
Proof.
  refine {| parse_json s := Some (Str s);
            json_to_string v := match v with Str s => s | _ => "?" end |}.
  abstract (by intros s v [= <-]).
Defined.
Definition text_chrono : ChronoOps := {|
  rfc3339_millis t := bits (Z.to_pos t);
  rfc3339 t := bits (Z.to_pos t); parse_rfc3339 s := Z.pos <$> read_bits s;
  try_seconds s := Some (s * NANOS_PER_SEC); checked_add_signed t d := Some (t + d);
  duration_from_std := Some |}.
Definition plain_rows : RowSerde := {|
  uuid_from_str s := Pos.pred_N <$> read_bits s;
  kind_to_json k := match k with EventKind.NodeCancelled n => n | _ => "?" end;
  kind_from_json s := Some (EventKind.NodeCancelled s);
  nodes_to_json m := "{}"; nodes_from_json s := Some ∅;
  names_to_json m := "[]"; names_from_json s := Some ∅;
  limits_to_json l := "{}"; limits_from_json s := None;
  naive_from_str s := None; datetime_from_str s := Z.pos <$> read_bits s;
  random_32 n := [n]; uuid_error s := s; datetime_error s := s; serde_error s := s |}.
Definition plain_sql : SqlOps.
Proof.
  refine {| scan A l := l; constraint_failed := "constraint"; malformed_json := "json";
            row_not_found := "no rows" |}.
  abstract done.
Defined.
#[local] Existing Instances text_json text_chrono plain_rows plain_sql.

Definition tenant_row (id : string) : TenantRow := {|
  t_id := id; t_name := id; t_status := "active"; t_policy_json := None;
  t_limits_json := None; t_created_at := "1"; t_updated_at := "1" |}.
Definition empty_db : Db := {|
  workflow_definitions := []; workflow_executions := []; event_rows := []; snapshot_rows := [];
  item_rows := []; dead_letter_items := []; effect_rows := []; reservation_rows := [];
  artifact_rows := []; approval_rows := []; checkpoint_rows := []; token_rows := [];
  tenant_rows := [tenant_row "default"; tenant_row "acme"; tenant_row "zeta"]; db_term := 0 |}.

Definition acme : TenantId := mkTenantId "acme".
Definition zeta : TenantId := mkTenantId "zeta".
Definition run_of (n : N) : WorkflowExecution := {|
  execution_id := mkExecutionId n; workflow_id := "w"; workflow_version := "1";
  status := WorkflowStatus.Running; initial_input := Str "in"; current_state := Str "now";
  started_at := 1; updated_at := 1; completed_at := None; session_type := None;
  parent_execution_id := None; segment_number := 0 |}.
Definition item_of (n x : N) : WorkItem := {|
  wi_id := n; wi_execution_id := mkExecutionId x; wi_node_id := "a"; queue_type := "tool";
  payload := Str "p"; attempt := 0; max_attempts := 3; wi_created_at := 1;
  lease_expires_at := None; worker_id := None; lease_fence := 0; wi_tenant_id := "acme" |}.
Definition event_of (n x : N) (node : string) : Event := {|
  event_id := n; event_execution_id := mkExecutionId x; sequence := 0;
  event_kind := EventKind.NodeCancelled node; created_at := 1 |}.

Definition run_as {A} (t : TenantId) (c : Call A) (w : world Db) : world Db :=
  (call (tenant_scoped_backend t) c w).2.
Definition start (t : TenantId) (x i : N) : world Db → world Db :=
  run_as t (StartExecutionAtomic (run_of x) (EventKind.NodeCancelled "s")
    (EventKind.NodeCancelled "a") (item_of i x)).

(** Ids below 100 belong to zeta, the others to acme; the generator draws for
    acme from 100 on. *)
Definition acmes (s : string) : Prop :=
  match uuid_from_str s with Some u => (100 ≤ u)%N | None => False end.
#[local] Instance acmes_dec s : Decision (acmes s).
Proof. unfold acmes. destruct (uuid_from_str s); apply _. Defined.

Definition db0 : world Db := World empty_db 5 100%N.
(** acme alone, and acme beside a run of zeta's. *)
Definition alone : world Db := start acme 200 201 db0.
Definition zeta_run : world Db :=
  let w := start zeta 7 8 (World empty_db 5 0%N) in World (store w) 5 100%N.
Definition shared : world Db := start acme 200 201 zeta_run.

Definition sepb (T : Table) (r : row T) : bool :=
  forallb (λ s, bool_decide (visible acme T r ↔ acmes s)) (names T r).
Definition tables : list Table :=
  [Definitions; Executions; Events; Snapshots; WorkItems; DeadLetters; ToolEffects;
   ToolReservations; Artifacts; ProjApprovals; Checkpoints; ApiTokens; Tenants].

Lemma separate_dec (w : world Db) :
  forallb (λ T, forallb (sepb T) (rows T (store w))) tables = true →
  (100 <= draws w)%N → separate acme acmes w.
Proof.
  intros Hb Hd. split.
  - intros T r Hr. rewrite forallb_forall in Hb.
    specialize (Hb T ltac:(destruct T; cbn; tauto)). rewrite forallb_forall in Hb.
    specialize (Hb r ltac:(by apply list_elem_of_In)). unfold sepb in Hb.
    rewrite forallb_forall in Hb. unfold row_sep.
    case_decide as Hv; apply Forall_forall; intros s Hs; apply list_elem_of_In, Hb in Hs;
      apply bool_decide_eq_true in Hs; tauto.
  - intros n Hn. unfold acmes. cbn. rewrite read_bits_bits. cbn. rewrite N.pos_pred_succ. lia.
Qed.

Lemma isolation_witness :
  let c := ClaimWorkItem "w1" ["tool"] in
  is_ok (call (tenant_scoped_backend acme) c alone).1 = true
  ∧ (call (tenant_scoped_backend acme) c alone).1 = (call (tenant_scoped_backend acme) c shared).1.
Proof.
  intros c. split; [vm_compute; reflexivity|].
  refine (proj1 (tenant_isolation acme acmes c alone shared _ _ _ _ _)).
  - intros s u Hu Hm. unfold acmes in Hm |- *. rewrite Hu in Hm. cbn. rewrite read_bits_bits. cbn.
    by rewrite N.pos_pred_succ.
  - constructor.
  - apply separate_dec; [vm_compute; reflexivity|vm_compute; congruence].
  - apply separate_dec; [vm_compute; reflexivity|vm_compute; congruence].
  - split; [intros []; vm_compute; reflexivity|]. vm_compute. split_and!; reflexivity.
Defined.

(** The ids must be apart: a snapshot another tenant stores under acme's run, at
    the same sequence, replaces acme's ([INSERT OR REPLACE] on a key without the
    tenant). *)
Definition snap_at (n x : N) : Snapshot := {|
  snap_id := n; snap_execution_id := mkExecutionId x; at_sequence := 2; snap_state := Str "s";
  snap_status := WorkflowStatus.Running; snap_completed_nodes := ∅; snap_active_nodes := ∅;
  snap_last_sequence := 2; snap_created_at := 1 |}.
Example foreign_snapshot_replaces :
  let w1 := run_as acme (WriteSnapshot (snap_at 210 200)) alone in
  let w2 := run_as zeta (WriteSnapshot (snap_at 9 200)) w1 in
  length (seen acme Snapshots (store w1)) = 1%nat ∧ seen acme Snapshots (store w2) = [].
Proof. vm_compute. split; reflexivity. Qed.

(** The scheduler and the workers run on the plain backend, whose events carry
    the column's default: acme's own log does not show them. *)
Example plain_events_hidden :
  let w := (call sqlite_backend (AppendEvent (event_of 220 200 "worker")) alone).2 in
  (length <$> match (call sqlite_backend (GetEvents (mkExecutionId 200)) w).1 with
              | Ok l => Some l | Err _ => None end) = Some 3%nat
  ∧ (length <$> match (call (tenant_scoped_backend acme) (GetEvents (mkExecutionId 200)) w).1 with
                | Ok l => Some l | Err _ => None end) = Some 2%nat.
Proof. vm_compute. split; reflexivity. Qed.
End IsolationSample.
