(* ===== verification/SqlLease.v ===== *)
(** * Leases of the SQLite backends

    What the fence promises, on the database: however calls of the plain and the
    scoped backends interleave, a lease settles its item at most once and no
    fence is handed out twice. Every statement moves a work item's row along
    [row_step]: its epoch does not fall, and a row that is claimed was claimed
    under the same fence or has been granted anew, in a later epoch. *)

From S2P Require Import Prelude.
From S2P Require Import Json.
From S2P Require Import Core.
From S2P Require Import Condition.
From S2P Require Import Event.
From S2P Require Import Materializer.
From S2P Require Import Hashing.
From S2P Require Import Approvals.
From S2P Require Import Backend.
From S2P Require Import Memory.
From S2P Require Import Sql.
From S2P Require Import Calls.
From S2P Require Import Sqlite.

Definition claimed_row (r : ItemRow) : Prop := i_status r = "claimed".

Definition row_step (r r' : ItemRow) : Prop :=
  i_id r' = i_id r ∧ i_lease_epoch r ≤ i_lease_epoch r'
  ∧ (claimed_row r' →
      (claimed_row r ∧ i_lease_epoch r' = i_lease_epoch r ∧ i_lease_fence r' = i_lease_fence r)
      ∨ i_lease_epoch r < i_lease_epoch r').

#[export] Instance row_step_preorder : PreOrder row_step.
Proof.
  split.
  - intros r. split_and!; [done..|]. intros. by left.
  - intros r1 r2 r3 (Hi&He&Hc) (Hi'&He'&Hc'). split_and!; [congruence|lia|].
    intros H3. destruct (Hc' H3) as [(H2&->&->)|?]; [|right; lia].
    destruct (Hc H2) as [(H1&->&->)|?]; [by left|by right].
Qed.

(** The epoch is a count, and a claimed row's fence carries it. *)
Definition item_ok `{!UuidOps} (r : ItemRow) : Prop :=
  0 ≤ i_lease_epoch r
  ∧ (claimed_row r → fence_epoch (i_lease_fence r) = i_lease_epoch r `mod` 2 ^ 32)
  ∧ ∃ u, i_id r = uuid_hyphenated u.

Definition items_ok `{!UuidOps} (db : Db) : Prop :=
  NoDup (i_id <$> item_rows db) ∧ ∀ r, r ∈ item_rows db → item_ok r.

(** Rows move along [S], and others are added, of which [N] holds. *)
Class Closed (S : relation ItemRow) (N : ItemRow → Prop) :=
  closed : ∀ r r', S r r' → N r → N r'.
#[export] Instance closed_any S : Closed S (λ _, True).
Proof. by intros ???. Qed.
#[export] Instance closed_none S : Closed S (λ _, False).
Proof. by intros ???. Qed.

Definition evolves (S : relation ItemRow) (N : ItemRow → Prop) (db db' : Db) : Prop :=
  ∃ l news, item_rows db' = l ++ news ∧ Forall2 S (item_rows db) l ∧ Forall N news.

#[export] Instance evolves_preorder S N `{!PreOrder S, !Closed S N} : PreOrder (evolves S N).
Proof.
  split.
  - intros db. exists (item_rows db), []. split_and!; [by rewrite app_nil_r| |done].
    apply Forall_Forall2_diag, Forall_true. reflexivity.
  - intros db1 db2 db3 (l & n & Hl & H12 & Hn) (l' & n' & Hl' & H23 & Hn'). rewrite Hl in H23.
    apply Forall2_app_inv_l in H23 as (l1 & l2 & H1 & H2 & ->).
    exists l1, (l2 ++ n'). split_and!; [by rewrite Hl', app_assoc|by etransitivity|].
    apply Forall_app. split; [|done]. clear -H2 Hn Closed0.
    induction H2 as [|x y n l2 Hxy _ IH]; [done|]. apply Forall_cons in Hn as [Hx Hn].
    constructor; [by eapply closed|by apply IH].
Qed.

Lemma evolves_row S N db db' r :
  evolves S N db db' → r ∈ item_rows db → ∃ r', r' ∈ item_rows db' ∧ S r r'.
Proof.
  intros (l & n & Hl & H2 & _) Hr. apply list_elem_of_lookup in Hr as [k Hk].
  destruct (Forall2_lookup_l _ _ _ _ _ H2 Hk) as (r' & Hr' & Hs). exists r'. split; [|done].
  rewrite Hl. apply elem_of_app. left. by eapply list_elem_of_lookup_2.
Qed.

Section Steps.
Context `{!UuidOps, !ChronoOps, !JsonText, !Sha256Ops, !SqlOps, !RowSerde}.
Abbreviation M A := (eff Db StateBackendError A).

(** What a computation may do to the items: [S] is the step of a row. *)
Definition moves (S : relation ItemRow) (N : ItemRow → Prop) (db db' : Db) : Prop :=
  items_ok db → items_ok db' ∧ evolves S N db db'.
#[export] Instance moves_preorder S N `{!PreOrder S, !Closed S N} : PreOrder (moves S N).
Proof.
  split; [by intros db Hok|]. intros db1 db2 db3 H12 H23 Hok.
  destruct (H12 Hok) as [Hok2 He]. destruct (H23 Hok2) as [? He']. split; [done|]. by etransitivity.
Qed.

Lemma moves_weaken (S S' : relation ItemRow) (N N' : ItemRow → Prop) db db' :
  (∀ r r', S r r' → S' r r') → (∀ r, N r → N' r) → moves S N db db' → moves S' N' db db'.
Proof.
  intros Hs Hn Hm Hok. destruct (Hm Hok) as (? & l & n & Hl & Hf2 & Hns). split; [done|].
  exists l, n. split_and!; [done|by eapply Forall2_impl|by eapply Forall_impl].
Qed.

Section Rel.
Context (S : relation ItemRow) (N : ItemRow → Prop) `{!PreOrder S, !Closed S N}.

Lemma moves_items db db' : item_rows db' = item_rows db → moves S N db db'.
Proof.
  intros Hi Hok. unfold items_ok. rewrite Hi. split; [done|]. exists (item_rows db), [].
  split_and!; [by rewrite Hi, app_nil_r| |done]. apply Forall_Forall2_diag, Forall_true. reflexivity.
Qed.

Lemma moves_other T l db : T ≠ WorkItems → moves S N db (set_rows T l db).
Proof. intros Hne. apply moves_items. by destruct T. Qed.

(** What an [UPDATE] of work items must respect. *)
Definition good_set (p : ItemRow → bool) (f : ItemRow → ItemRow) : Prop :=
  ∀ r, item_ok r → p r = true → S r (f r) ∧ item_ok (f r) ∧ i_id (f r) = i_id r.

Lemma moves_update (p : ItemRow → bool) f db :
  (∀ r, r ∈ item_rows db → item_ok r → p r = true → S r (f r) ∧ item_ok (f r) ∧ i_id (f r) = i_id r) →
  moves S N db (set_rows WorkItems ((λ r, if p r then f r else r) <$> item_rows db) db).
Proof.
  intros Hset [Hnd Hok]. set (h := λ r : ItemRow, if p r then f r else r).
  assert (∀ r, r ∈ item_rows db → S r (h r) ∧ item_ok (h r) ∧ i_id (h r) = i_id r) as Hh.
  { intros r Hr. unfold h. destruct (p r) eqn:Hp; [by apply Hset; [|apply Hok|]|].
    split_and!; [reflexivity|by apply Hok|done]. }
  split.
  - split; cbn.
    + rewrite <- list_fmap_compose. erewrite list_fmap_ext; [exact Hnd|].
      intros i r Hr. apply list_elem_of_lookup_2 in Hr. cbn. by apply Hh.
    + intros r Hr. apply list_elem_of_fmap in Hr as (r0 & -> & Hr). by apply Hh.
  - exists (h <$> item_rows db), []. split_and!; [by rewrite app_nil_r| |done].
    apply Forall2_fmap_r, Forall_Forall2_diag, Forall_forall. intros r Hr. by apply Hh.
Qed.

Lemma moves_insert r db :
  existsb (clash WorkItems r) (item_rows db) = false → item_ok r → N r →
  moves S N db (set_rows WorkItems (item_rows db ++ [r]) db).
Proof.
  intros Hc Hr HN [Hnd Hok]. split.
  - split; cbn.
    + rewrite fmap_app. apply NoDup_app. split_and!; [done| |apply NoDup_singleton].
      intros i Hi Hi'. apply list_elem_of_singleton in Hi' as ->.
      apply list_elem_of_fmap in Hi as (r' & Hid & Hr'). apply not_true_iff_false in Hc.
      apply Hc, existsb_exists. exists r'. split; [by apply list_elem_of_In|].
      by apply bool_decide_eq_true.
    + intros r' [Hr'|Hr'%list_elem_of_singleton]%elem_of_app; [by apply Hok|by subst].
  - exists (item_rows db), [r]. split_and!; [done| |by constructor].
    apply Forall_Forall2_diag, Forall_true. reflexivity.
Qed.

Abbreviation resp := (respects (moves S N)).

Lemma resp_update p f : good_set p f → resp (update_rows WorkItems p f).
Proof.
  intros Hg. unfold update_rows. apply respects_bind; [apply _|apply respects_gets; apply _|].
  intros n. apply respects_bind; [apply _| |intros; apply respects_mret; apply _].
  intros w. cbn. apply moves_update. intros r _. apply Hg.
Qed.
Lemma resp_modify_other T (g : Db → list (row T)) :
  T ≠ WorkItems → resp (modify (λ db, set_rows T (g db) db) : M unit).
Proof. intros Hne w. cbn. by apply moves_other. Qed.
Lemma resp_update_other T p f : T ≠ WorkItems → resp (update_rows T p f).
Proof.
  intros Hne. unfold update_rows. apply respects_bind; [apply _|apply respects_gets; apply _|].
  intros n. apply respects_bind; [apply _|by apply resp_modify_other|].
  intros; apply respects_mret; apply _.
Qed.
Lemma resp_append T r : T ≠ WorkItems → resp (append_row T r).
Proof.
  intros Hne. unfold append_row. apply respects_bind; [apply _|apply respects_gets; apply _|].
  intros [|]; [by apply resp_modify_other|apply respects_raise; apply _].
Qed.
Lemma resp_insert_other T r : T ≠ WorkItems → resp (insert_row T r).
Proof.
  intros Hne. unfold insert_row. apply respects_bind; [apply _|apply respects_gets; apply _|].
  intros [|]; [apply respects_raise; apply _|by apply resp_append].
Qed.
Lemma resp_insert_item r : item_ok r → N r → resp (insert_row WorkItems r).
Proof.
  intros Hr HN w. unfold insert_row, append_row. rewrite bind_gets.
  destruct (existsb _ _) eqn:Hc; [reflexivity|]. rewrite bind_gets.
  destruct (refs_ok _ _ _); [|reflexivity]. cbn. by apply moves_insert.
Qed.
Lemma resp_ignore T r : T ≠ WorkItems → resp (insert_or_ignore T r).
Proof.
  intros Hne. unfold insert_or_ignore. apply respects_bind; [apply _|apply respects_gets; apply _|].
  intros [|]; [apply respects_mret; apply _|]. apply respects_bind; [apply _|by apply resp_append|].
  intros; apply respects_mret; apply _.
Qed.
Lemma resp_replace T r : T ≠ WorkItems → resp (insert_or_replace T r).
Proof.
  intros Hne. unfold insert_or_replace. apply respects_bind; [apply _|apply respects_gets; apply _|].
  intros [|]; [by apply resp_modify_other|apply respects_raise; apply _].
Qed.
Lemma resp_upsert T r p f : T ≠ WorkItems → resp (upsert T r p f).
Proof.
  intros Hne. unfold upsert. apply respects_bind; [apply _|apply respects_gets; apply _|].
  intros [|]; [by apply resp_update_other|]. apply respects_bind; [apply _|by apply resp_append|].
  intros; apply respects_mret; apply _.
Qed.
Lemma resp_delete T p : T ≠ WorkItems → resp (delete_rows T p).
Proof. intros Hne. by apply resp_modify_other. Qed.
Lemma resp_of_result {A} r : resp (of_result r : M A).
Proof. intros w. reflexivity. Qed.
Lemma resp_select T p : resp (select_rows T p).
Proof. apply respects_gets; apply _. Qed.
Lemma resp_transaction {A} (m : M (TxEnd A)) : resp m → resp (transaction m).
Proof.
  intros Hm w. unfold transaction. specialize (Hm w).
  destruct (m w) as [[[a|a]|e] w']; cbn in *; [done|reflexivity..].
Qed.
End Rel.

(** ** The rows an operation sets *)

(** A settle, or the end of a lease: the row is not claimed any more. *)
Lemma unclaim_set p f :
  (∀ r, i_id (f r) = i_id r ∧ i_status (f r) ≠ "claimed"
    ∧ (i_lease_epoch (f r) = i_lease_epoch r ∨ i_lease_epoch (f r) = i_lease_epoch r + 1)) →
  good_set row_step p f.
Proof.
  intros Hf r (He & Hm & Hu) _. destruct (Hf r) as (Hid & Hs & Hep). split_and!; [|split_and!|done].
  - split_and!; [done|lia|]. intros Hc. by destruct Hs.
  - lia.
  - intros Hc. by destruct Hs.
  - by rewrite Hid.
Qed.

(** The lease stays as it is. *)
Lemma same_set p f :
  (∀ r, i_id (f r) = i_id r ∧ i_status (f r) = i_status r
    ∧ i_lease_epoch (f r) = i_lease_epoch r ∧ i_lease_fence (f r) = i_lease_fence r) →
  good_set row_step p f.
Proof.
  intros Hf r Hok _. destruct (Hf r) as (Hid & Hs & Hep & Hfe).
  unfold item_ok, row_step, claimed_row. rewrite Hid, Hs, Hep, Hfe.
  destruct Hok as (?&?&?). split_and!; try done; try lia. by left.
Qed.

Lemma item_row_ok item tenant : item_ok (item_row item tenant).
Proof. split_and!; [done|done|]. by eexists. Qed.

Lemma ne_claimed s : s ∈ ["completed"; "failed"; "dead_lettered"; "pending"] → s ≠ "claimed".
Proof. set_solver. Qed.

(** A claimed row's lease ends; an unclaimed row stays. *)
Definition lapse_step (r r' : ItemRow) : Prop :=
  i_id r' = i_id r
  ∧ ((i_status r' = i_status r ∧ i_lease_epoch r' = i_lease_epoch r
      ∧ i_lease_fence r' = i_lease_fence r)
     ∨ (claimed_row r ∧ i_status r' ≠ "claimed"
        ∧ i_lease_epoch r ≤ i_lease_epoch r' ≤ i_lease_epoch r + 1)).
#[export] Instance lapse_step_preorder : PreOrder lapse_step.
Proof.
  split.
  - intros r. split; [done|by left].
  - intros r1 r2 r3 [Hi H12] [Hi' H23]. split; [congruence|].
    destruct H12 as [(Hs&He&Hf)|(Hc&Hn&He)], H23 as [(Hs'&He'&Hf')|(Hc'&Hn'&He')].
    + left. split_and!; congruence.
    + right. split_and!; [|done|lia|lia]. unfold claimed_row in *. congruence.
    + right. split_and!; [done|congruence|lia|lia].
    + by destruct Hn.
Qed.
Lemma lapse_row_step r r' : lapse_step r r' → row_step r r'.
Proof.
  intros [Hi [(Hs&He&Hf)|(Hc&Hn&He)]]; split_and!; try done; try lia; intros Hc'.
  - left. unfold claimed_row in *. split_and!; congruence.
Qed.

Lemma lapse_set p f :
  (∀ r, p r = true → claimed_row r) →
  (∀ r, i_id (f r) = i_id r ∧ i_status (f r) ≠ "claimed"
    ∧ (i_lease_epoch (f r) = i_lease_epoch r ∨ i_lease_epoch (f r) = i_lease_epoch r + 1)) →
  good_set lapse_step p f.
Proof.
  intros Hp Hf r Hok Hpr. destruct (unclaim_set p f Hf r Hok Hpr) as (_ & Hok' & Hid).
  destruct (Hf r) as (_ & Hs & Hep). split_and!; [|done|done]. split; [done|]. right.
  split_and!; [by apply Hp|done|lia|lia].
Qed.

End Steps.

Ltac set_tac :=
  first
    [ apply lapse_set;
        [ let r := fresh in let Hp := fresh in intros r Hp; apply andb_true_iff in Hp as [_ Hp];
          by apply bool_decide_eq_true in Hp
        | intros ?; cbn; split_and!; [done|done|by (left + right)] ]
    | apply same_set; intros ?; by split_and!
    | apply unclaim_set; intros ?; repeat case_match; cbn; split_and!; [done|done|by (left + right)] ].
Ltac moves_tac :=
  repeat first
    [ apply respects_mret; apply _ | apply respects_raise; apply _
    | apply respects_utc_now; apply _ | apply respects_new_v4; apply _
    | apply resp_of_result; apply _ | apply resp_select; apply _
    | by eauto with moves typeclass_instances
    | apply respects_gets; apply _
    | match goal with
      | |- respects _ (_ ≫= _) => apply respects_bind; [apply _| |intros ?]
      | |- respects _ (update_rows WorkItems ?p ?f) => apply (resp_update _ _ p f); set_tac
      | |- respects _ (update_rows ?T ?p ?f) => by apply (resp_update_other _ _ T p f)
      | |- respects _ (insert_row WorkItems ?r) => apply (resp_insert_item _ _ r); [apply item_row_ok|done]
      | |- respects _ (insert_row ?T ?r) => by apply (resp_insert_other _ _ T r)
      | |- respects _ (insert_or_ignore ?T ?r) => by apply (resp_ignore _ _ T r)
      | |- respects _ (insert_or_replace ?T ?r) => by apply (resp_replace _ _ T r)
      | |- respects _ (upsert ?T ?r ?p ?f) => by apply (resp_upsert _ _ T r p f)
      | |- respects _ (delete_rows ?T ?p) => by apply (resp_delete _ _ T p)
      | |- respects _ (transaction _) => apply resp_transaction; [apply _..|]
      | |- respects _ (for_each _ _) => apply respects_for_each; [apply _|intros ?]
      | |- respects _ (as_result _) => apply respects_as_result
      end
    | case_decide | case_match ].

Create HintDb moves.

Section Calls_.
Context `{!UuidOps, !ChronoOps, !JsonText, !Sha256Ops, !SqlOps, !RowSerde}.
Abbreviation M A := (eff Db StateBackendError A).

Section Ops.
Context (S : relation ItemRow) (N : ItemRow → Prop) `{!PreOrder S, !Closed S N}
  (scope : option TenantId).
Abbreviation resp := (respects (moves S N)).

Lemma resp_fetch T p : resp (fetch_optional (select_rows T p)).
Proof. unfold fetch_optional. moves_tac. Qed.
Lemma resp_decode {A B} (f : A → result StateBackendError B) o : resp (Sqlite.decode f o).
Proof. intros w. reflexivity. Qed.
Lemma resp_next_seq x : resp (Sqlite.next_seq x).
Proof. unfold Sqlite.next_seq, Sqlite.max_sequence. moves_tac. Qed.
Hint Resolve resp_fetch resp_decode resp_next_seq : moves.
Lemma resp_terminal_status x : resp (Sqlite.terminal_status_of scope x).
Proof. unfold Sqlite.terminal_status_of. moves_tac. Qed.
Hint Resolve resp_terminal_status : moves.
Lemma resp_get_execution id : resp (Sqlite.get_execution scope id).
Proof. unfold Sqlite.get_execution. moves_tac. Qed.
Hint Resolve resp_get_execution : moves.
Lemma resp_update_current id v : resp (Sqlite.update_execution_current_state scope id v).
Proof. unfold Sqlite.update_execution_current_state. moves_tac. Qed.
Hint Resolve resp_update_current : moves.
Lemma resp_put_checkpoint n x cp now : resp (Sqlite.put_checkpoint scope n x cp now).
Proof. unfold Sqlite.put_checkpoint. moves_tac. Qed.
Lemma resp_put_approval x r now : resp (Sqlite.put_approval scope x r now).
Proof. unfold Sqlite.put_approval. moves_tac. Qed.
Hint Resolve resp_put_checkpoint resp_put_approval : moves.
Lemma resp_snapshot_in_tx id : resp (Sqlite.snapshot_in_tx scope id).
Proof.
  unfold Sqlite.snapshot_in_tx, Sqlite.snapshot_base, Sqlite.latest_snapshot_row, from_materialized.
  moves_tac.
Qed.
Lemma resp_record_effect x k now : resp (Sqlite.record_effect scope x k now).
Proof. unfold Sqlite.record_effect. moves_tac. Qed.
Hint Resolve resp_snapshot_in_tx resp_record_effect : moves.
Lemma resp_insert_event item k : resp (Sqlite.insert_event_in_tx item k).
Proof. unfold Sqlite.insert_event_in_tx, Event_new. moves_tac. Qed.
Hint Resolve resp_insert_event : moves.
End Ops.
#[local] Hint Resolve resp_fetch resp_decode resp_next_seq resp_terminal_status resp_get_execution
  resp_update_current resp_put_checkpoint resp_put_approval resp_snapshot_in_tx
  resp_record_effect resp_insert_event : moves.

Abbreviation anyrow := (λ _ : ItemRow, True).
Abbreviation norow := (λ _ : ItemRow, False).

Lemma expire_lapses scope : respects (moves lapse_step norow) (Sqlite.expire_stale_leases scope).
Proof.
  unfold Sqlite.expire_stale_leases. apply respects_bind; [apply _|moves_tac|intros now].
  apply resp_transaction; [apply _..|]. apply respects_bind; [apply _|moves_tac|intros found].
  apply respects_bind; [apply _| |intros joined].
  { induction found as [|r l IH]; cbn [Sqlite.with_status]; unfold Sqlite.joined_status; moves_tac. }
  unfold Sqlite.expire_one. moves_tac.
Qed.

(** Every call but the two that hand leases out. *)
Definition hands_out {A} (c : Call A) : bool :=
  match c with
  | ClaimWorkItem _ _ | ClaimWorkItemWithLease _ _ _ | HeartbeatLease _ _ _ => true
  | _ => false
  end.

Definition backend_of (by_ : option TenantId) : StateBackend Db :=
  match by_ with Some t => tenant_scoped_backend t | None => sqlite_backend end.

Lemma reclaim_rows_moves scope l acc :
  respects (moves row_step anyrow) (Sqlite.reclaim_rows scope l acc).
Proof.
  revert acc. induction l as [|r l IH]; intros acc; cbn [Sqlite.reclaim_rows]; [moves_tac|].
  apply respects_bind; [apply _| |intros; apply IH]. unfold Sqlite.reclaim_one. moves_tac.
Qed.

Lemma reclaim_moves scope :
  respects (moves row_step anyrow) (Sqlite.reclaim_expired_leases scope).
Proof.
  unfold Sqlite.reclaim_expired_leases. moves_tac. apply reclaim_rows_moves.
Qed.

Lemma settled_as_ne k st b : Sqlite.settled_as k = Some (st, b) → st ≠ "claimed".
Proof. by destruct k; intros [= <- _]. Qed.

Lemma commit_moves scope id f ev sn ref :
  respects (moves row_step anyrow) (Sqlite.commit_turn_inner scope id f ev sn ref).
Proof.
  unfold Sqlite.commit_turn_inner, Sqlite.withdraw_claimed_item.
  destruct (Sqlite.settled_as _) as [[st b]|] eqn:Hs; [apply settled_as_ne in Hs|]; moves_tac.
Qed.
#[local] Hint Resolve commit_moves : moves.

Create HintDb sqlops.
#[local] Hint Unfold Sqlite.store_workflow Sqlite.get_workflow Sqlite.create_execution
  Sqlite.get_execution Sqlite.execution_tenant_in Sqlite.update_execution_status
  Sqlite.finish_execution_in Sqlite.append_event_if_in Sqlite.update_execution_current_state
  Sqlite.patch_append_array Sqlite.list_executions Sqlite.append_event Sqlite.get_events
  Sqlite.get_events_since Sqlite.latest_sequence Sqlite.write_snapshot Sqlite.latest_snapshot
  Sqlite.create_segment_atomic Sqlite.start_execution_atomic Sqlite.get_tool_effect
  Sqlite.reserve_tool_effect Sqlite.release_tool_reservation Sqlite.put_artifact
  Sqlite.get_artifact Sqlite.enqueue_work_item Sqlite.renew_lease Sqlite.get_work_item
  Sqlite.complete_work_item Sqlite.complete_work_item_fenced Sqlite.fail_work_item
  Sqlite.fail_work_item_fenced Sqlite.commit_turn Sqlite.commit_turn_unless_terminal
  Sqlite.withdraw_work_item_fenced Sqlite.park_work_item Sqlite.finalize_rollover_fenced
  Sqlite.reclaim_expired_leases Sqlite.move_to_dead_letter Sqlite.create_token
  Sqlite.validate_token Sqlite.apply_approval_projection Sqlite.apply_approval_projection_batch
  Sqlite.get_approval_projection Sqlite.get_projector_checkpoint Sqlite.set_projector_checkpoint
  Sqlite.create_tenant Sqlite.get_tenant Sqlite.list_tenants Sqlite.update_tenant
  Sqlite.create_run_in  Sqlite.withdraw_claimed_item
  Sqlite.lease_secs_for Sqlite.latest_snapshot_row Sqlite.unsupported Sqlite.max_sequence
  Sqlite.next_random Sqlite.current_term SqliteBackend.store_workflow SqliteBackend.get_workflow
  SqliteBackend.create_execution SqliteBackend.get_execution SqliteBackend.execution_tenant
  SqliteBackend.update_execution_status SqliteBackend.finish_execution
  SqliteBackend.append_event_if SqliteBackend.update_execution_current_state
  SqliteBackend.patch_append_array SqliteBackend.list_executions SqliteBackend.append_event
  SqliteBackend.get_events SqliteBackend.get_events_since SqliteBackend.latest_sequence
  SqliteBackend.write_snapshot SqliteBackend.latest_snapshot SqliteBackend.create_segment_atomic
  SqliteBackend.start_execution_atomic SqliteBackend.get_tool_effect
  SqliteBackend.reserve_tool_effect SqliteBackend.release_tool_reservation
  SqliteBackend.put_artifact SqliteBackend.get_artifact SqliteBackend.enqueue_work_item
  SqliteBackend.renew_lease SqliteBackend.get_work_item SqliteBackend.complete_work_item
  SqliteBackend.complete_work_item_fenced SqliteBackend.fail_work_item
  SqliteBackend.fail_work_item_fenced SqliteBackend.commit_turn
  SqliteBackend.commit_turn_unless_terminal SqliteBackend.withdraw_work_item_fenced
  SqliteBackend.park_work_item SqliteBackend.finalize_rollover_fenced
  SqliteBackend.reclaim_expired_leases SqliteBackend.move_to_dead_letter
  SqliteBackend.create_token SqliteBackend.validate_token
  SqliteBackend.apply_approval_projection SqliteBackend.apply_approval_projection_batch
  SqliteBackend.get_approval_projection SqliteBackend.get_projector_checkpoint
  SqliteBackend.set_projector_checkpoint SqliteBackend.create_tenant SqliteBackend.get_tenant
  SqliteBackend.list_tenants SqliteBackend.update_tenant TenantScoped.execution_tenant
  TenantScoped.finish_execution TenantScoped.append_event_if : sqlops.
(** A call as the operation it runs. *)
Ltac open_call :=
  cbn [call backend_of]; unfold sqlite_backend, tenant_scoped_backend; cbn [
    store_workflow get_workflow create_execution get_execution execution_tenant
    update_execution_status finish_execution append_event_if update_execution_current_state
    patch_append_array list_executions append_event get_events get_events_since
    latest_sequence write_snapshot latest_snapshot create_segment_atomic
    start_execution_atomic get_tool_effect reserve_tool_effect release_tool_reservation
    put_artifact get_artifact enqueue_work_item claim_work_item renew_lease
    claim_work_item_with_lease heartbeat_lease get_work_item complete_work_item
    complete_work_item_fenced fail_work_item fail_work_item_fenced commit_turn
    commit_turn_unless_terminal withdraw_work_item_fenced park_work_item
    finalize_rollover_fenced reclaim_expired_leases move_to_dead_letter create_token
    validate_token apply_approval_projection apply_approval_projection_batch
    get_approval_projection get_projector_checkpoint set_projector_checkpoint create_tenant
    get_tenant list_tenants update_tenant].

Lemma call_moves {A} by_ (c : Call A) :
  hands_out c = false → respects (moves row_step anyrow) (call (backend_of by_) c).
Proof.
  intros Hc. destruct by_ as [t|]; destruct c; try discriminate Hc; open_call;
    try (apply reclaim_moves); autounfold with sqlops; moves_tac.
Qed.

(** ** What a lease handed out, and a settle, leave *)

(** The text of an id reads back as the id. *)
Context (Hread : ∀ u, uuid_from_str (uuid_hyphenated u) = Some u).

(** The item holds a new lease, under [f], in a later epoch than before. *)
Definition granted_in (db db' : Db) (id : WorkItemId) (f : Z) : Prop :=
  ∃ r', r' ∈ item_rows db' ∧ i_id r' = uuid_hyphenated id ∧ claimed_row r'
    ∧ i_lease_fence r' = f
    ∧ ∃ r, r ∈ item_rows db ∧ i_id r = uuid_hyphenated id ∧ i_lease_epoch r < i_lease_epoch r'.

(** The item was held under [f], and is not any more. *)
Definition settled_in (db db' : Db) (id : WorkItemId) (f : Z) : Prop :=
  ∃ r r', r ∈ item_rows db ∧ i_id r = uuid_hyphenated id ∧ claimed_row r ∧ i_lease_fence r = f
    ∧ r' ∈ item_rows db' ∧ i_id r' = uuid_hyphenated id ∧ ¬ claimed_row r'.

Definition small_epochs (db : Db) : Prop := ∀ r, r ∈ item_rows db → i_lease_epoch r < 2 ^ 32.

Lemma one_row db r r' :
  items_ok db → r ∈ item_rows db → r' ∈ item_rows db → i_id r = i_id r' → r = r'.
Proof.
  intros [Hnd _]. induction (item_rows db) as [|a l IH]; intros Hr Hr' Hid;
    [by apply not_elem_of_nil in Hr|].
  cbn in Hnd. apply NoDup_cons in Hnd as [Ha Hnd].
  apply elem_of_cons in Hr as [->|Hr], Hr' as [->|Hr']; try done.
  - destruct Ha. rewrite Hid. by apply list_elem_of_fmap_2.
  - destruct Ha. rewrite <- Hid. by apply list_elem_of_fmap_2.
  - by apply IH.
Qed.

Lemma item_id r item : item_ok r → row_to_work_item r = Ok item → i_id r = uuid_hyphenated (wi_id item).
Proof.
  intros (_ & _ & u & Hu). unfold row_to_work_item, parse_uuid, mbind, result_bind.
  rewrite Hu, Hread. cbn [ok_or]. intros Hr. repeat (case_match; try done). by injection Hr as <-.
Qed.

(** A minted fence carries its epoch. *)
Lemma minted_epoch t e : fence_epoch (mint_fence t e) = e `mod` 2 ^ 32.
Proof.
  unfold fence_epoch, mint_fence, i64_add, i64_mul, wrap_i64.
  change 4294967295 with (Z.ones 32). rewrite Z.land_ones by lia.
  assert (∀ z, (((z + 2 ^ 63) `mod` 2 ^ 64) - 2 ^ 63) `mod` 2 ^ 32 = z `mod` 2 ^ 32) as Hw.
  { intros z. rewrite Zminus_mod, Z.mod_mod_divide by (by exists (2 ^ 32)).
    rewrite <- Zminus_mod. f_equal. lia. }
  rewrite Hw. rewrite Zplus_mod, Hw, Zmult_mod. change (4294967296 `mod` 2 ^ 32) with 0.
  by rewrite Z.mul_0_r, Z.mod_0_l, Z.add_0_l, Z.mod_mod by lia.
Qed.

(** The rows an [UPDATE] of one item leaves. *)
Lemma update_items p f w :
  item_rows (store (update_rows WorkItems p f w).2) = (λ r, if p r then f r else r) <$> item_rows (store w).
Proof. done. Qed.

Lemma updated_row p (f : ItemRow → ItemRow) w r :
  r ∈ item_rows (store w) → p r = true → f r ∈ item_rows (store (update_rows WorkItems p f w).2).
Proof.
  intros Hr Hp. rewrite update_items. apply list_elem_of_fmap. exists r. by rewrite Hp.
Qed.

Lemma affected_row (p : ItemRow → bool) f w n w' :
  update_rows WorkItems p f w = (Ok n, w') → n ≠ 0 →
  ∃ r, r ∈ item_rows (store w) ∧ p r = true.
Proof.
  unfold update_rows. rewrite bind_gets, bind_modify. intros [= <- _] Hn.
  destruct (base.filter _ _) as [|r l] eqn:Hf; [done|].
  assert (r ∈ base.filter (λ r, p r = true) (item_rows (store w))) as Hr by (cbn in Hf; rewrite Hf; left).
  apply list_elem_of_filter in Hr as [? ?]. by exists r.
Qed.

(** Granting the row [r] a lease of the next epoch. *)
Lemma grant_moves (p : ItemRow → bool) (f : ItemRow → ItemRow) db r t :
  items_ok db → r ∈ item_rows db → i_lease_epoch r ≤ 2 ^ 32 →
  (∀ r', r' ∈ item_rows db → p r' = true → i_id r' = i_id r) →
  i_id (f r) = i_id r → i_lease_epoch (f r) = i64_add (i_lease_epoch r) 1 →
  i_lease_fence (f r) = mint_fence t (i64_add (i_lease_epoch r) 1) →
  moves row_step anyrow db (set_rows WorkItems ((λ r, if p r then f r else r) <$> item_rows db) db)
  ∧ i_lease_epoch r < i_lease_epoch (f r).
Proof.
  intros Hok Hr Hb Hp Hid He Hf.
  assert (i64_add (i_lease_epoch r) 1 = i_lease_epoch r + 1) as Hadd.
  { destruct Hok as [_ Hok]. destruct (Hok r Hr) as (? & _). apply wrap_i64_small. lia. }
  rewrite Hadd in He, Hf. split; [|lia]. apply moves_update; [apply _..|].
  intros r' Hr' _ Hpr. assert (r' = r) as -> by (eapply one_row; eauto).
  destruct Hok as [_ Hok]. destruct (Hok r Hr) as (? & _ & Hu). split_and!; [| |done].
  - split_and!; [done|lia|]. intros _. right. lia.
  - split_and!; [lia| |by rewrite Hid]. intros _. rewrite Hf, He. apply minted_epoch.
Qed.

(** A row that was not added was there before. *)
Lemma evolves_back (S : relation ItemRow) db db' r' :
  evolves S norow db db' → r' ∈ item_rows db' → ∃ r, r ∈ item_rows db ∧ S r r'.
Proof.
  intros (l & n & Hl & Hf2 & Hn) Hr'. rewrite Hl in Hr'. apply elem_of_app in Hr' as [Hr'|Hr'].
  - apply list_elem_of_lookup in Hr' as [k Hk].
    destruct (Forall2_lookup_r _ _ _ _ _ Hf2 Hk) as (r & Hr & Hs). exists r. split; [|done].
    by eapply list_elem_of_lookup_2.
  - rewrite Forall_forall in Hn. by destruct (Hn r' Hr').
Qed.
End Calls_.

#[export] Hint Resolve resp_fetch resp_decode resp_next_seq resp_terminal_status
  resp_get_execution resp_update_current resp_put_checkpoint resp_put_approval
  resp_snapshot_in_tx resp_record_effect resp_insert_event commit_moves : moves.
