(* ===== verification/SqlSettle.v ===== *)
(** * What leases of the SQLite backends grant and settle

    The calls that hand a lease out, and the fenced calls that settle one, on the
    steps of [SqlLease]; then histories of calls, of the plain backend and of
    scoped ones in any interleaving, with the failover generation and the clock
    moving as they like. *)

From S2P Require Import Prelude.
From S2P Require Import Json.
From S2P Require Import Core.
From S2P Require Import Condition.
From S2P Require Import Event.
From S2P Require Import Materializer.
From S2P Require Import Hashing.
From S2P Require Import Approvals.
From S2P Require Import Backend.
From S2P Require Import Memory.
From S2P Require Import Sql.
From S2P Require Import Calls.
From S2P Require Import Sqlite.
From S2P Require Import TenantIsolation.
From S2P Require Import SqlLease.

Abbreviation anyrow := (λ _ : ItemRow, True).
Abbreviation norow := (λ _ : ItemRow, False).

Section Grants.
Context `{!UuidOps, !ChronoOps, !JsonText, !Sha256Ops, !SqlOps, !RowSerde}.
Context (Hread : ∀ u, uuid_from_str (uuid_hyphenated u) = Some u).
Abbreviation M A := (eff Db StateBackendError A).

(** A transaction that returns commits, or leaves the store. *)
Lemma transaction_ok {A} (m : M (TxEnd A)) w a w' :
  transaction m w = (Ok a, w') →
  m w = (Ok (Commit a), w') ∨ ∃ w1, m w = (Ok (Rollback a), w1) ∧ store w' = store w.
Proof.
  unfold transaction. destruct (m w) as [[[?|?]|?] w1]; intros [= <- <-]; [by left|].
  right. by eexists.
Qed.
Lemma transaction_err {A} (m : M (TxEnd A)) w e w' :
  transaction m w = (Err e, w') → store w' = store w.
Proof. unfold transaction. by destruct (m w) as [[[?|?]|?] w1]; intros [= <- <-]. Qed.

(** A fetched row satisfies the [WHERE] clause. *)
Lemma fetched_row p w (l : list ItemRow) w1 r :
  select_rows WorkItems p w = (Ok l, w1) → r ∈ l →
  w1 = w ∧ r ∈ item_rows (store w) ∧ p r = true.
Proof.
  intros [= <- <-] Hr. rewrite scan_perm in Hr.
  by apply list_elem_of_filter in Hr as [? ?].
Qed.

(** ** Claims *)

Definition bounded (db : Db) : Prop := ∀ r, r ∈ item_rows db → i_lease_epoch r ≤ 2 ^ 32.

(** Granting one row a lease. *)
Lemma grant_row (p : ItemRow → bool) f r u t w n w' :
  items_ok (store w) → i_lease_epoch r ≤ 2 ^ 32 → r ∈ item_rows (store w) → p r = true →
  i_id r = uuid_hyphenated u →
  (∀ r', p r' = true → i_id r' = i_id r) →
  i_id (f r) = i_id r → i_status (f r) = "claimed" →
  i_lease_epoch (f r) = i64_add (i_lease_epoch r) 1 →
  i_lease_fence (f r) = mint_fence t (i64_add (i_lease_epoch r) 1) →
  update_rows WorkItems p f w = (Ok n, w') →
  moves row_step anyrow (store w) (store w')
  ∧ granted_in (store w) (store w') u (mint_fence t (i64_add (i_lease_epoch r) 1)).
Proof.
  intros Hok Hb Hr Hp Hu Hone Hid Hst He Hf Hrun.
  destruct (grant_moves p f (store w) r t Hok Hr Hb) as [Hm Hlt]; [by auto|done..|].
  pose proof (updated_row p f w r Hr Hp) as Hin. rewrite Hrun in Hin. cbn in Hin.
  split.
  - unfold update_rows in Hrun. rewrite bind_gets, bind_modify in Hrun. injection Hrun as _ <-. exact Hm.
  - exists (f r). split_and!; [done|by rewrite Hid|done|done|]. by exists r.
Qed.

(** The transaction of a claim. *)
Definition claim_tx scope (worker : string) (qs : list string) (secs : option Z) (now : DateTime)
    : M (option (WorkItem * Z * string)) :=
  transaction (
    found ← select_rows WorkItems (Sqlite.claimable_row scope qs (rfc3339 now));
    match head (merge_sort created_earlier found) with
    | None => mret (Rollback None)
    | Some r =>
        item ← of_result (row_to_work_item r);
        let lease_len := granted_lease_secs secs in
        let expires := now + lease_len * NANOS_PER_SEC in
        t ← Sqlite.current_term;
        let new_epoch := i64_add (i_lease_epoch r) 1 in
        let new_fence := mint_fence t new_epoch in
        update_rows WorkItems (λ r, Sqlite.eqs (i_id r) (uuid_hyphenated (wi_id item))) (λ r,
          set_secs (set_lease (set_claimed (set_expires (set_worker
            (set_status r "claimed") (Some worker)) (Some (rfc3339 expires)))
            (Some (rfc3339 now))) new_epoch new_fence) (Some lease_len)) ≫= λ _,
        mret (Commit (Some (item, new_fence, rfc3339 expires)))
    end).

Lemma claim_tx_grants scope worker qs secs now w r w' :
  items_ok (store w) → bounded (store w) → claim_tx scope worker qs secs now w = (r, w') →
  moves row_step anyrow (store w) (store w')
  ∧ ∀ item f s, r = Ok (Some (item, f, s)) → granted_in (store w) (store w') (wi_id item) f.
Proof.
  intros Hok Hb Ht. destruct r as [c|e]; cycle 1.
  { apply transaction_err in Ht. split; [|done]. apply moves_items; [apply _|by rewrite Ht]. }
  apply transaction_ok in Ht as [Ht|(w2 & Ht & ->)].
  - apply bind_ok_inv in Ht as (found & w2 & Hsel & Ht).
    destruct (head _) as [r0|] eqn:Hh; [|done].
    assert (r0 ∈ found) as Hr0.
    { rewrite <- (merge_sort_Permutation created_earlier). destruct (merge_sort _ _); [done|].
      injection Hh as ->. left. }
    destruct (fetched_row _ _ _ _ _ Hsel Hr0) as (-> & Hin & _).
    rewrite of_result_run in Ht. destruct (row_to_work_item r0) as [item|] eqn:Hitem; [|done].
    unfold Sqlite.current_term in Ht. rewrite bind_gets in Ht.
    apply bind_ok_inv in Ht as (n & w3 & Hu & [= <- <-]).
    pose proof (item_id Hread r0 item (proj2 Hok r0 Hin) Hitem) as Hid.
    eapply (grant_row _ _ r0 (wi_id item)) in Hu as [Hm Hg]; try done.
    + split; [done|]. intros ??? [= <- <- <-]. exact Hg.
    + by apply Hb.
    + by apply bool_decide_eq_true.
    + intros r' Hr'. apply bool_decide_eq_true in Hr'. congruence.
  - apply bind_ok_inv in Ht as (found & w3 & Hsel & Ht).
    split; [apply moves_items; [apply _|by f_equal]|]. intros ? ? ? [= ->].
    destruct (head _) as [r0|]; [|done].
    rewrite of_result_run in Ht. destruct (row_to_work_item r0); [|done].
    unfold Sqlite.current_term in Ht. rewrite bind_gets in Ht.
    by apply bind_ok_inv in Ht as (n & w4 & _ & [=]).
Qed.

(** A lease granted after the end of others. *)
Lemma granted_after db db1 db2 u f :
  (∀ r1, r1 ∈ item_rows db1 → ∃ r, r ∈ item_rows db ∧ i_id r1 = i_id r
    ∧ i_lease_epoch r ≤ i_lease_epoch r1) →
  granted_in db1 db2 u f → granted_in db db2 u f.
Proof.
  intros Hback (r' & Hr' & Hid & Hc & Hf & r1 & Hr1 & Hid1 & Hlt).
  destruct (Hback r1 Hr1) as (r & Hr & Hidr & Hle). exists r'. split_and!; try done.
  exists r. split_and!; [done|congruence|lia].
Qed.

Lemma claim_lease scope worker qs secs w r w' :
  items_ok (store w) → small_epochs (store w) →
  Sqlite.claim_work_item_with_lease scope worker qs secs w = (r, w') →
  moves row_step anyrow (store w) (store w')
  ∧ ∀ item, r = Ok (Some item) → granted_in (store w) (store w') (wi_id item) (lease_fence item).
Proof.
  intros Hok Hsmall. unfold Sqlite.claim_work_item_with_lease.
  case_decide; [intros [= <- <-]; split; [reflexivity|done]|].
  pose proof (expire_lapses scope w) as Hl. unfold mbind at 1, eff_bind at 1.
  destruct (Sqlite.expire_stale_leases scope w) as [[[]|e] w1]; cbn in Hl;
    (destruct (Hl Hok) as [Hok1 He];
     assert (moves row_step anyrow (store w) (store w1)) as Hm
       by (by eapply moves_weaken; [apply lapse_row_step|..])).
  2: { intros [= <- <-]. by split. }
  assert (∀ r1, r1 ∈ item_rows (store w1) → ∃ r, r ∈ item_rows (store w) ∧ i_id r1 = i_id r
    ∧ i_lease_epoch r ≤ i_lease_epoch r1 ≤ i_lease_epoch r + 1) as Hback.
  { intros r1 Hr1. destruct (evolves_back _ _ _ r1 He Hr1) as (r0 & Hr0 & Hid & Hs).
    exists r0. split_and!; try done; destruct Hs as [(_&?&_)|(_&_&?)]; lia. }
  assert (bounded (store w1)) as Hb.
  { intros r1 Hr1. destruct (Hback r1 Hr1) as (r0 & Hr0 & _ & ?).
    specialize (Hsmall r0 Hr0). lia. }
  rewrite bind_now. fold (claim_tx scope worker qs secs (clock w1)).
  unfold mbind at 1, eff_bind at 1. destruct (claim_tx _ _ _ _ _ w1) as [c w2] eqn:Hc.
  destruct (claim_tx_grants _ _ _ _ _ _ _ _ Hok1 Hb Hc) as [Hm2 Hg]. intros Hrun.
  assert (w' = w2) as ->.
  { destruct c as [[[[item f] s]|]|e]; [rewrite of_result_run in Hrun|..];
      [destruct (ok_or _ _) in Hrun|..]; by injection Hrun. }
  split; [by etransitivity|]. intros item ->.
  destruct c as [[[[item0 f] s]|]|e]; try done. rewrite of_result_run in Hrun.
  destruct (ok_or _ _) in Hrun; [|done]. injection Hrun as <-. cbn.
  eapply granted_after; [|by eapply Hg]. intros r1 Hr1. destruct (Hback r1 Hr1) as (r0 & ? & ? & ? & ?).
  by exists r0.
Qed.

(** ** Renewals *)

Lemma renew_moves scope id worker f :
  respects (moves row_step norow) (Sqlite.renew_lease scope id worker f).
Proof. unfold Sqlite.renew_lease, Sqlite.lease_secs_for. moves_tac. Qed.

Lemma fence_epoch_bound f : fence_epoch f < 2 ^ 32.
Proof.
  unfold fence_epoch. change 4294967295 with (Z.ones 32). rewrite Z.land_ones by lia.
  by apply Z.mod_pos_bound.
Qed.

Lemma reattach_grants scope id worker f w r w' :
  items_ok (store w) → Sqlite.reattach_lease scope id worker f w = (r, w') →
  moves row_step anyrow (store w) (store w')
  ∧ ∀ l, r = Ok l → granted_in (store w) (store w') id (lr_lease_fence l).
Proof.
  intros Hok. unfold Sqlite.reattach_lease. intros Ht. destruct r as [c|e]; cycle 1.
  { apply transaction_err in Ht. split; [|done]. apply moves_items; [apply _|by rewrite Ht]. }
  apply transaction_ok in Ht as [Ht|(w2 & Ht & Hw)];
    apply bind_ok_inv in Ht as (o & w1 & Hf & Ht); (destruct o as [r0|]; [|done]);
    unfold Sqlite.current_term in Ht; rewrite bind_gets, bind_now in Ht;
    apply bind_ok_inv in Ht as (n & w3 & Hu & Ht); (case_decide; [done|]); [|done].
  injection Ht as <- <-.
  apply bind_ok_inv in Hf as (l & w4 & Hsel & Hf). injection Hf as Hh <-.
  assert (r0 ∈ l) as Hr0 by (destruct l; [done|]; injection Hh as ->; left).
  destruct (fetched_row _ _ _ _ _ Hsel Hr0) as (-> & Hin & Hlost).
  unfold Sqlite.lost_by in Hlost. rewrite !andb_true_iff in Hlost.
  destruct Hlost as (((((Hit & Hpend) & Hw) & _) & _) & Hep).
  apply bool_decide_eq_true in Hep. pose proof (fence_epoch_bound f).
  pose proof Hit as Hid. apply andb_true_iff in Hid as [Hid%bool_decide_eq_true _].
  eapply (grant_row _ _ r0 id) in Hu as [Hm Hg]; try done.
  - split; [done|]. intros ? [= <-]. exact Hg.
  - rewrite Hep. unfold epoch_after_expiry_of. lia.
  - by rewrite Hit, Hpend, Hw.
  - intros r' Hr'. rewrite !andb_true_iff in Hr'. destruct Hr' as ((Hi' & _) & _).
    apply andb_true_iff in Hi' as [Hi'%bool_decide_eq_true _]. congruence.
Qed.

Lemma heartbeat_lease_grants scope id worker f w r w' :
  items_ok (store w) → Sqlite.heartbeat_lease scope id worker f w = (r, w') →
  moves row_step anyrow (store w) (store w')
  ∧ ∀ l, r = Ok l → reattached l = true → granted_in (store w) (store w') id (lr_lease_fence l).
Proof.
  intros Hok. unfold Sqlite.heartbeat_lease. pose proof (renew_moves scope id worker f w) as Hm.
  destruct (Sqlite.renew_lease scope id worker f w) as [q w1] eqn:Hq. cbn in Hm.
  rewrite (as_result_run _ _ _ _ _ Hq). destruct (Hm Hok) as [Hok1 He].
  assert (moves row_step anyrow (store w) (store w1)) as Hm1 by (by eapply moves_weaken).
  destruct q as [[]|[]]; try (intros [= <- <-]; split; [done|by intros ? [=<-]]).
  intros Hr. destruct (reattach_grants _ _ _ _ _ _ _ Hok1 Hr) as [Hm2 Hg].
  split; [by etransitivity|]. intros l -> _. eapply granted_after; [|by apply Hg].
  intros r1 Hr1. destruct (evolves_back _ _ _ r1 He Hr1) as (r0 & ? & ? & ? & _). by exists r0.
Qed.

(** ** Settles *)

(** The rest of a transaction keeps the items as they are. *)
Lemma items_same db db' : moves eq norow db db' → items_ok db → item_rows db' = item_rows db.
Proof.
  intros Hm Hok. destruct (Hm Hok) as (_ & l & n & -> & Hf & Hn).
  assert (n = []) as -> by (destruct n; [done|by apply Forall_cons in Hn as [[] _]]).
  rewrite app_nil_r. clear Hok Hm. induction Hf as [|a b l1 l2 -> _ IH]; [done|by rewrite IH].
Qed.

(** The update of a settle: a row was held under the fence, and is not claimed
    any more. *)
Lemma settle_update scope id fence f w n w' :
  (∀ r, i_id (f r) = i_id r ∧ i_status (f r) ≠ "claimed") →
  update_rows WorkItems (Sqlite.held_under scope (uuid_hyphenated id) fence) f w = (Ok n, w') →
  n ≠ 0 → settled_in (store w) (store w') id fence.
Proof.
  intros Hf Hu Hn. destruct (affected_row _ _ _ _ _ Hu Hn) as (r & Hr & Hp).
  pose proof (updated_row _ f w r Hr Hp) as Hr'. rewrite Hu in Hr'. cbn in Hr'.
  unfold Sqlite.held_under, Sqlite.is_item in Hp. rewrite !andb_true_iff in Hp.
  destruct Hp as (((Hid%bool_decide_eq_true & _) & Hfe%bool_decide_eq_true) & Hc%bool_decide_eq_true).
  destruct (Hf r) as [Hid' Hst]. exists r, (f r). split_and!; try done. by rewrite Hid'.
Qed.

Lemma settled_frame db0 db db' db1 id f :
  item_rows db0 = item_rows db → item_rows db1 = item_rows db' →
  settled_in db db' id f → settled_in db0 db1 id f.
Proof. unfold settled_in. by intros -> ->. Qed.

(** What the [UPDATE] of a settle sets. *)
Definition ends_lease (f : ItemRow → ItemRow) : Prop :=
  ∀ r, i_id (f r) = i_id r ∧ i_status (f r) ≠ "claimed"
    ∧ (i_lease_epoch (f r) = i_lease_epoch r ∨ i_lease_epoch (f r) = i_lease_epoch r + 1).

(** A settle followed by calls that keep the items. *)
Lemma settle_then {B} scope id fence f (k : Z → M B) w e w' :
  ends_lease f → items_ok (store w) → (∀ n, n ≠ 0 → respects (moves eq norow) (k n)) →
  (∀ w1, (k 0 w1).1 ≠ Ok e) →
  (update_rows WorkItems (Sqlite.held_under scope (uuid_hyphenated id) fence) f ≫= k) w = (Ok e, w') →
  settled_in (store w) (store w') id fence.
Proof.
  intros Hf Hok Hk H0n Hrun. apply bind_ok_inv in Hrun as (n & w1 & Hu & Hr).
  assert (n ≠ 0) as Hn by (intros ->; destruct (H0n w1); by rewrite Hr).
  assert (items_ok (store w1)) as Hok1.
  { pose proof (resp_update row_step norow
      (Sqlite.held_under scope (uuid_hyphenated id) fence) f (unclaim_set _ f Hf) w) as Hm.
    rewrite Hu in Hm. by apply Hm. }
  eapply settled_frame; [done| |eapply settle_update; [|exact Hu|done]].
  - apply items_same; [|done]. specialize (Hk n Hn w1). by rewrite Hr in Hk.
  - intros r. by destruct (Hf r) as (? & ? & _).
Qed.

(** The update of [op]'s settle, and a count that is not zero. *)
Ltac settle_tac :=
  eapply settle_then; [| | | |eassumption];
    [intros ?; repeat case_match; cbn; split_and!; try done; by (left + right)
    |done|intros ? ?; cbv beta; moves_tac|intros ?; by (intros [=] || case_decide)].

Lemma complete_settles scope id fence w w' :
  items_ok (store w) → Sqlite.complete_work_item_fenced scope id fence w = (Ok true, w') →
  settled_in (store w) (store w') id fence.
Proof. intros Hok Hrun. unfold Sqlite.complete_work_item_fenced in Hrun. rewrite bind_now in Hrun. settle_tac. Qed.
Lemma park_settles scope id fence t n w w' :
  items_ok (store w) → Sqlite.park_work_item scope id fence t n w = (Ok true, w') →
  settled_in (store w) (store w') id fence.
Proof. intros Hok Hrun. unfold Sqlite.park_work_item in Hrun. settle_tac. Qed.
Lemma withdraw_settles scope id fence w w' :
  items_ok (store w) →
  Sqlite.withdraw_claimed_item scope (uuid_hyphenated id) fence w = (Ok true, w') →
  settled_in (store w) (store w') id fence.
Proof. intros Hok Hrun. unfold Sqlite.withdraw_claimed_item in Hrun. settle_tac. Qed.

Lemma fail_settles scope id fence error o w w' :
  items_ok (store w) →
  Sqlite.fail_work_item_fenced scope id fence error w = (Ok (Some o), w') →
  settled_in (store w) (store w') id fence.
Proof.
  intros Hok Hrun. unfold Sqlite.fail_work_item_fenced in Hrun.
  apply transaction_ok in Hrun as [Hrun|(w1 & Hrun & _)];
    apply bind_ok_inv in Hrun as (row & w2 & Hsel & Hrun); (destruct row as [row|]; [|done]);
    rewrite of_result_run in Hrun; (destruct (row_to_work_item row) as [item|]; [|done]);
    rewrite bind_now in Hrun;
    (assert (store w2 = store w) as Hw2 by (apply bind_ok_inv in Hsel as (? & ? & [= _ <-] & [= _ <-]); done));
    rewrite <- Hw2 in Hok; case_decide.
  - eapply settled_frame; [by rewrite <- Hw2|done|]. settle_tac.
  - eapply settled_frame; [by rewrite <- Hw2|done|]. settle_tac.
  - apply bind_ok_inv in Hrun as (n & w3 & _ & Hrun). case_decide; [done|].
    by apply bind_ok_inv in Hrun as (? & ? & _ & ?).
  - apply bind_ok_inv in Hrun as (n & w3 & _ & Hrun). by case_decide.
Qed.

Lemma commit_settles scope id fence ev sn ref o w w' :
  items_ok (store w) → Sqlite.commit_turn_inner scope id fence ev sn ref w = (Ok o, w') →
  settled_in (store w) (store w') id fence.
Proof.
  intros Hok Hrun. unfold Sqlite.commit_turn_inner in Hrun. rewrite bind_now in Hrun.
  destruct (Sqlite.settled_as _) as [[st b]|] eqn:Hs; [apply settled_as_ne in Hs|done].
  set (tx := mbind _ _) in Hrun.
  assert (∀ e w1, tx w = (Ok e, w1) → settled_in (store w) (store w1) id fence
    ∧ ∃ o, e = Commit o) as Htx; cycle 1.
  { apply transaction_ok in Hrun as [Hrun|(w1 & Hrun & _)]; apply Htx in Hrun; [by apply Hrun|].
    by destruct Hrun as (_ & ? & ?). }
  clear Hrun. intros e w1 Hrun. unfold tx in Hrun.
  apply bind_ok_inv in Hrun as (term & w2 & Ht & Hrun).
  assert (moves eq norow (store w) (store w2)) as Hm.
  { assert (respects (moves eq norow) (if ref then Sqlite.terminal_status_of scope
      (execution_id_str (event_execution_id ev)) else mret None : M (option WorkflowStatus))) as Hr
      by moves_tac.
    specialize (Hr w). by rewrite Ht in Hr. }
  pose proof (items_same _ _ Hm Hok) as Hw2. destruct (Hm Hok) as [Hok2 _]. clear Ht Hm.
  destruct term as [t|].
  - apply bind_ok_inv in Hrun as (q & w3 & Hq & Hrun). destruct q; [|done].
    injection Hrun as <- <-. split; [|by eexists]. eapply settled_frame; [symmetry; exact Hw2|done|].
    by eapply withdraw_settles.
  - split.
    + eapply settled_frame; [symmetry; exact Hw2|done|]. settle_tac.
    + apply bind_ok_inv in Hrun as (n & w3 & _ & Hrun). case_decide; [done|].
      do 4 (apply bind_ok_inv in Hrun as (? & ? & _ & Hrun)). injection Hrun as <- _. by eexists.
Qed.
End Grants.

(** ** Histories *)

(** A call of the plain backend ([None]) or of a tenant's, a change of the
    failover generation, the clock. *)
Inductive Act :=
| Do {A} (by_ : option TenantId) (c : Call A)
| BumpTerm
| RaiseTerm (t : Z)
| Wait (now : DateTime).

Inductive Mark := Granted (id : WorkItemId) (fence : Z) | Settled (id : WorkItemId) (fence : Z).

(** The lease an answer hands out, or says is settled. *)
Definition marks_of {A} (c : Call A) : result StateBackendError A → list Mark :=
  match c in Call A return result StateBackendError A → list Mark with
  | ClaimWorkItem _ _ | ClaimWorkItemWithLease _ _ _ => λ r,
      match r with Ok (Some item) => [Granted (wi_id item) (lease_fence item)] | _ => [] end
  | HeartbeatLease id _ _ => λ r,
      match r with
      | Ok l => if reattached l then [Granted id (lr_lease_fence l)] else []
      | Err _ => []
      end
  | CompleteWorkItemFenced id f | WithdrawWorkItemFenced id f | ParkWorkItem id f _ _ => λ r,
      match r with Ok true => [Settled id f] | _ => [] end
  | FailWorkItemFenced id f _ => λ r, match r with Ok (Some _) => [Settled id f] | _ => [] end
  | CommitTurn id f _ _ => λ r, if is_ok r then [Settled id f] else []
  | CommitTurnUnlessTerminal id f _ _ => λ r, if is_ok r then [Settled id f] else []
  | _ => λ _, []
  end.

Section Histories.
Context `{!UuidOps, !ChronoOps, !JsonText, !Sha256Ops, !SqlOps, !RowSerde}.

Definition run_act (a : Act) (w : world Db) : list Mark * world Db :=
  match a with
  | Do by_ c => let '(r, w') := call (backend_of by_) c w in (marks_of c r, w')
  | BumpTerm => ([], (Sqlite.bump_store_term w).2)
  | RaiseTerm t => ([], (Sqlite.set_store_term_at_least t w).2)
  | Wait now => ([], World (store w) now (draws w))
  end.

Fixpoint run_acts (acts : list Act) (w : world Db) : list Mark * world Db :=
  match acts with
  | [] => ([], w)
  | a :: acts => let '(ms, w1) := run_act a w in let '(ms', w2) := run_acts acts w1 in (ms ++ ms', w2)
  end.

(** No item is leased [2^32] times: an epoch is the lower half of a fence. *)
Fixpoint small_along (acts : list Act) (w : world Db) : Prop :=
  small_epochs (store w)
  ∧ match acts with [] => True | a :: acts => small_along acts (run_act a w).2 end.

Definition mark_in (db db' : Db) (m : Mark) : Prop :=
  match m with Granted id f => granted_in db db' id f | Settled id f => settled_in db db' id f end.

(** The mark cannot be made again. *)
Definition spent (db : Db) (m : Mark) : Prop :=
  match m with
  | Granted id f => ∃ r, r ∈ item_rows db ∧ i_id r = uuid_hyphenated id
      ∧ fence_epoch f ≤ i_lease_epoch r
  | Settled id f => ∃ r, r ∈ item_rows db ∧ i_id r = uuid_hyphenated id
      ∧ fence_epoch f ≤ i_lease_epoch r ∧ (claimed_row r → fence_epoch f < i_lease_epoch r)
  end.

Lemma spent_step db db' m : evolves row_step anyrow db db' → spent db m → spent db' m.
Proof.
  intros He. destruct m as [id f|id f]; cbn.
  - intros (r & Hr & Hid & Hle). destruct (evolves_row _ _ _ _ r He Hr) as (r' & Hr' & Hi & Hm & _).
    exists r'. split_and!; [done|congruence|lia].
  - intros (r & Hr & Hid & Hle & Hlt).
    destruct (evolves_row _ _ _ _ r He Hr) as (r' & Hr' & Hi & Hm & Hc).
    exists r'. split_and!; [done|congruence|lia|].
    intros Hc'. destruct (Hc Hc') as [(Hcr & -> & _)|?]; [by apply Hlt|lia].
Qed.

Lemma small_fence db r :
  items_ok db → small_epochs db → r ∈ item_rows db → claimed_row r →
  fence_epoch (i_lease_fence r) = i_lease_epoch r.
Proof.
  intros [_ Hok] Hs Hr Hc. destruct (Hok r Hr) as (Hnn & He & _). rewrite (He Hc).
  apply Z.mod_small. split; [done|by apply Hs].
Qed.

Lemma same_row db r r2 x :
  items_ok db → r ∈ item_rows db → r2 ∈ item_rows db → i_id r = x → i_id r2 = x → r2 = r.
Proof. intros Hok ? ? <- ?. by apply (one_row db). Qed.

(** A mark is made once: it was not spent, and is. *)
Lemma mark_spends db db' m :
  items_ok db → items_ok db' → small_epochs db → small_epochs db' →
  evolves row_step anyrow db db' → mark_in db db' m → ¬ spent db m ∧ spent db' m.
Proof.
  intros Hok Hok' Hs Hs' He. destruct m as [id f|id f]; cbn.
  - intros (r' & Hr' & Hid' & Hc' & Hf & r & Hr & Hid & Hlt).
    pose proof (small_fence db' r' Hok' Hs' Hr' Hc') as Hfe. rewrite Hf in Hfe. split.
    + intros (r2 & Hr2 & Hid2 & Hle). pose proof (same_row db r r2 _ Hok Hr Hr2 Hid Hid2) as ->. lia.
    + exists r'. split_and!; [done|done|lia].
  - intros (r & r' & Hr & Hid & Hc & Hf & Hr' & Hid' & Hn').
    pose proof (small_fence db r Hok Hs Hr Hc) as Hfe. rewrite Hf in Hfe. split.
    + intros (r2 & Hr2 & Hid2 & _ & Hlt). pose proof (same_row db r r2 _ Hok Hr Hr2 Hid Hid2) as ->.
      specialize (Hlt Hc). lia.
    + exists r'. split_and!; [done|done| |done].
      destruct (evolves_row _ _ _ _ r He Hr) as (r2 & Hr2 & Hi2 & Hm2 & _).
      pose proof (same_row db' r' r2 _ Hok' Hr' Hr2 Hid' (eq_trans Hi2 Hid)) as ->. lia.
Qed.

Context (Hread : ∀ u, uuid_from_str (uuid_hyphenated u) = Some u).

(** Every call moves the items along [row_step], and says the truth. *)
Lemma call_marks {A} by_ (c : Call A) w r w' :
  items_ok (store w) → small_epochs (store w) → call (backend_of by_) c w = (r, w') →
  moves row_step anyrow (store w) (store w') ∧ ∀ m, m ∈ marks_of c r → mark_in (store w) (store w') m.
Proof.
  intros Hok Hs Hrun. destruct (hands_out c) eqn:Hh.
  - destruct c; try discriminate Hh; cbn [marks_of].
    + assert (Sqlite.claim_work_item_with_lease by_ worker queue_types None w = (r, w')) as Hc
        by (by destruct by_).
      destruct (claim_lease Hread _ _ _ _ _ _ _ Hok Hs Hc) as [? Hg]. split; [done|].
      intros m Hm. destruct r as [[item|]|]; try by apply not_elem_of_nil in Hm.
      apply list_elem_of_singleton in Hm as ->. by apply Hg.
    + assert (Sqlite.claim_work_item_with_lease by_ worker queue_types secs w = (r, w')) as Hc
        by (by destruct by_).
      destruct (claim_lease Hread _ _ _ _ _ _ _ Hok Hs Hc) as [? Hg]. split; [done|].
      intros m Hm. destruct r as [[item|]|]; try by apply not_elem_of_nil in Hm.
      apply list_elem_of_singleton in Hm as ->. by apply Hg.
    + assert (Sqlite.heartbeat_lease by_ id worker fence w = (r, w')) as Hc by (by destruct by_).
      destruct (heartbeat_lease_grants _ _ _ _ _ _ _ Hok Hc) as [? Hg]. split; [done|].
      intros m Hm. destruct r as [l|]; [|by apply not_elem_of_nil in Hm].
      destruct (reattached l) eqn:Hl; [|by apply not_elem_of_nil in Hm].
      apply list_elem_of_singleton in Hm as ->. by apply Hg.
  - split; [by pose proof (call_moves by_ c Hh w) as Hm; rewrite Hrun in Hm|].
    intros m Hm. destruct c; try discriminate Hh; try by apply not_elem_of_nil in Hm.
    all: cbn [marks_of] in Hm; destruct r as [a|]; [|by apply not_elem_of_nil in Hm].
    1, 2, 5, 6: let a := match type of Hrun with _ = (Ok ?a, _) => a end in
      destruct a; try by apply not_elem_of_nil in Hm.
    all: apply list_elem_of_singleton in Hm as ->; cbn [mark_in].
    + eapply (complete_settles by_); [done|]. destruct by_; exact Hrun.
    + eapply (fail_settles by_); [done|]. destruct by_; exact Hrun.
    + eapply (withdraw_settles by_); [done|]. destruct by_; exact Hrun.
    + eapply (park_settles by_); [done|]. destruct by_; exact Hrun.
    + assert (Sqlite.commit_turn by_ id fence event snapshot w = (Ok a, w')) as Hc
        by (destruct by_; exact Hrun).
      apply bind_ok_inv in Hc as (o & w1 & Hc & Ho). destruct o; [injection Ho as _ <-|done].
      by eapply (commit_settles by_).
    + assert (Sqlite.commit_turn_inner by_ id fence event snapshot true w = (Ok a, w')) as Hc
        by (destruct by_; exact Hrun).
      by eapply (commit_settles by_).
Qed.

Lemma marks_small {A} (c : Call A) r : (length (marks_of c r) ≤ 1)%nat.
Proof. destruct c; cbn; repeat case_match; cbn; lia. Qed.

Lemma act_marks a w ms w' :
  items_ok (store w) → small_epochs (store w) → small_epochs (store w') →
  run_act a w = (ms, w') →
  items_ok (store w') ∧ evolves row_step anyrow (store w) (store w')
  ∧ (length ms ≤ 1)%nat ∧ ∀ m, m ∈ ms → ¬ spent (store w) m ∧ spent (store w') m.
Proof.
  intros Hok Hs Hs'. destruct a as [A by_ c| | |now]; cbn.
  2-4: intros [= <- <-]; split_and!;
    [done|change (evolves row_step anyrow (store w) (store w)); reflexivity|cbn; lia
    |by intros m ?%not_elem_of_nil].
  destruct (call _ c w) as [r w1] eqn:Hc. intros [= <- <-].
  destruct (call_marks by_ c w r w1 Hok Hs Hc) as [Hm Hin]. destruct (Hm Hok) as [Hok1 He].
  split_and!; [done..|apply marks_small|]. intros m Hmi. by apply mark_spends; auto.
Qed.

Lemma acts_steps acts w :
  items_ok (store w) → small_along acts w →
  items_ok (store (run_acts acts w).2) ∧ evolves row_step anyrow (store w) (store (run_acts acts w).2).
Proof.
  revert w. induction acts as [|a acts IH]; intros w Hok [Hs Hl]; [by split|]. cbn [run_acts].
  destruct (run_act a w) as [ms w1] eqn:Ha. cbn in Hl.
  assert (small_epochs (store w1)) as Hs1 by (destruct acts; apply Hl).
  destruct (act_marks a w ms w1 Hok Hs Hs1 Ha) as (Hok1 & He & _).
  destruct (IH w1 Hok1 Hl) as [Hok2 He2]. destruct (run_acts acts w1) as [ms' w2]. cbn in *.
  split; [done|]. by etransitivity.
Qed.

(** A mark of a history, with the worlds around it. *)
Lemma mark_at acts w l1 m l2 w' :
  items_ok (store w) → small_along acts w → run_acts acts w = (l1 ++ m :: l2, w') →
  ∃ acts2 w1 w2, evolves row_step anyrow (store w) (store w1) ∧ ¬ spent (store w1) m
    ∧ evolves row_step anyrow (store w1) (store w2) ∧ spent (store w2) m
    ∧ items_ok (store w2) ∧ small_along acts2 w2 ∧ run_acts acts2 w2 = (l2, w').
Proof.
  revert w l1. induction acts as [|a acts IH]; intros w l1 Hok [Hs Hl] Hrun; cbn [run_acts] in Hrun.
  { injection Hrun as Hnil _. by destruct l1. }
  destruct (run_act a w) as [ms w1] eqn:Ha. cbn in Hl.
  assert (small_epochs (store w1)) as Hs1 by (destruct acts; apply Hl).
  destruct (act_marks a w ms w1 Hok Hs Hs1 Ha) as (Hok1 & He & Hlen & Hm).
  destruct (run_acts acts w1) as [ms' w2] eqn:Hr. injection Hrun as Hms ->.
  destruct ms as [|m0 [|]]; [| |cbn in Hlen; lia].
  - cbn in Hms. subst ms'. destruct (IH w1 l1 Hok1 Hl Hr) as (acts2 & w3 & w4 & He3 & Hrest).
    exists acts2, w3, w4. split; [by etransitivity|done].
  - destruct l1 as [|m1 l1]; injection Hms as <- Hms.
    + subst ms'. destruct (Hm m0 ltac:(left)) as [? ?]. exists acts, w, w1. by split_and!.
    + subst ms'. destruct (IH w1 l1 Hok1 Hl Hr) as (acts2 & w3 & w4 & He3 & Hrest).
      exists acts2, w3, w4. split; [by etransitivity|done].
Qed.

(** What is spent is not among the marks that follow. *)
Lemma spent_gone acts w ms w' m :
  items_ok (store w) → small_along acts w → run_acts acts w = (ms, w') → spent (store w) m → m ∉ ms.
Proof.
  intros Hok Hs Hrun Hsp Hin. apply list_elem_of_split in Hin as (l1 & l2 & ->).
  destruct (mark_at _ _ _ _ _ _ Hok Hs Hrun) as (acts2 & w1 & w2 & He & Hn & _).
  by eapply Hn, spent_step.
Qed.

Lemma marks_once acts w ms w' :
  items_ok (store w) → small_along acts w → run_acts acts w = (ms, w') → NoDup ms.
Proof.
  revert acts w. induction ms as [|m ms IH]; intros acts w Hok Hs Hrun; [constructor|].
  destruct (mark_at acts w [] m ms w' Hok Hs Hrun) as (acts2 & w1 & w2 & _ & _ & _ & Hsp & Hok2 & Hs2 & Hr2).
  constructor; [by eapply spent_gone|by eapply IH].
Qed.

(** C34: The fence decides who settles an item, whoever calls. Over any
    interleaving of calls of the plain SQLite backend and of scoped ones, with
    the failover generation rising and the clock moving as they like: no fence of
    an item is handed out twice, a lease settles its item at most once (by a
    completion, a failure, a commit, a park or a withdrawal), and a worker whose
    item has been handed out again settles nothing. *)
Theorem sql_settles_once (acts : list Act) (w : world Db)
    (Hok : items_ok (store w)) (Hsmall : small_along acts w) :
  let marks := (run_acts acts w).1 in
  NoDup marks
  ∧ ∀ l1 id f l2 f' l3, marks = l1 ++ Granted id f :: l2 ++ Granted id f' :: l3 →
      Settled id f ∉ l3.
Proof.
  destruct (run_acts acts w) as [ms w'] eqn:Hrun. cbn. split; [by eapply marks_once|].
  intros l1 id f l2 f' l3 ->.
  destruct (mark_at _ _ _ _ _ _ Hok Hsmall Hrun) as (a2 & w1 & w2 & _ & _ & _ & Hsp & Hok2 & Hs2 & Hr2).
  destruct (mark_at _ _ _ _ _ _ Hok2 Hs2 Hr2) as (a4 & w3 & w4 & He3 & Hn & _ & Hsp4 & Hok4 & Hs4 & Hr4).
  apply (spent_gone _ _ _ _ _ Hok4 Hs4 Hr4).
  pose proof (spent_step _ _ _ He3 Hsp) as (r3 & Hr3 & Hid3 & Hle3). cbn in Hn.
  assert (i_lease_epoch r3 < fence_epoch f') as Hlt.
  { apply Z.nle_gt. intros ?. apply Hn. by exists r3. }
  destruct Hsp4 as (r4 & Hr4' & Hid4 & Hle4). exists r4. split_and!; [done|done|lia|lia].
Qed.
End Histories.

(** ** Witness *)

Module SettleSample.
Import IsolationSample.
#[local] Existing Instances plain_uuid plain_sha256 text_json text_chrono plain_rows plain_sql.

(** A worker of the plain backend claims acme's item and loses it; a scoped one
    claims it anew. The first cannot settle it, the second does so once. *)
Definition takeover : list Act := [
  Do (Some acme) (StartExecutionAtomic (run_of 200) (EventKind.NodeCancelled "s")
    (EventKind.NodeCancelled "a") (item_of 201 200));
  Do None (ClaimWorkItem "w1" ["tool"]); Wait (2 ^ 36 - 1);
  Do (Some acme) (ClaimWorkItem "w2" ["tool"]);
  Do None (CompleteWorkItemFenced 201 1);
  Do (Some acme) (CompleteWorkItemFenced 201 3);
  Do None (WithdrawWorkItemFenced 201 3)].

Lemma ids_read (u : Uuid) : uuid_from_str (uuid_hyphenated u) = Some u.
Proof. cbn. rewrite read_bits_bits. cbn. by rewrite N.pos_pred_succ. Qed.

Definition small_epochsb (db : Db) : bool := forallb (λ r, i_lease_epoch r <? 2 ^ 32) (item_rows db).
Fixpoint small_alongb (acts : list Act) (w : world Db) : bool :=
  small_epochsb (store w)
  && match acts with [] => true | a :: acts => small_alongb acts (run_act a w).2 end.
Lemma small_alongb_sound acts w : small_alongb acts w = true → small_along acts w.
Proof.
  assert (∀ db, small_epochsb db = true → small_epochs db) as Hs.
  { intros db Hb r Hr. unfold small_epochsb in Hb. rewrite forallb_forall in Hb.
    apply list_elem_of_In, Hb in Hr. lia. }
  revert w. induction acts as [|a acts IH]; intros w [? ?]%andb_true_iff; (split; [by apply Hs|]);
    [done|by apply IH].
Qed.

Lemma sql_settle_witness :
  (run_acts takeover db0).1 = [Granted 201 1; Granted 201 3; Settled 201 3]
  ∧ NoDup (run_acts takeover db0).1.
Proof.
  split; [vm_compute; reflexivity|].
  refine (proj1 (sql_settles_once ids_read takeover db0 _ _)).
  - split; [constructor|intros r Hr; by apply not_elem_of_nil in Hr].
  - apply small_alongb_sound. vm_compute. reflexivity.
Defined.

(** The settle of a rollover does not test that the item is claimed: it succeeds
    on an item that has failed, and again on the one it completed. *)
Example finalize_settles_unclaimed :
  let w := (run_acts (take 2 takeover ++ [Do None (WithdrawWorkItemFenced 201 1)]) db0).2 in
  let fin := call (tenant_scoped_backend acme) (FinalizeRolloverFenced (mkExecutionId 200) 201 1) in
  i_status <$> item_rows (store w) = ["failed"]
  ∧ (fin w).1 = Ok true ∧ i_status <$> item_rows (store (fin w).2) = ["completed"]
  ∧ (fin (fin w).2).1 = Ok true.
Proof. vm_compute. split_and!; reflexivity. Qed.
End SettleSample.
