(* ===== verification/Cron.v ===== *)
(** * Cron expressions ([timers/src/lib.rs], [cron_next])

    The parser of 5-field expressions and the scan for the next time one fires,
    with their meaning stated declaratively: a part of a field denotes the values
    it names, an expression fires in the minutes whose five components its fields
    denote, and [cron_next] answers the first such minute after [from]. The
    calendar (chrono's [Datelike] and [Timelike]) is a parameter. *)

From Stdlib Require Import Ascii.
From S2P Require Import Prelude.
From S2P Require Import RustStr.

Class CalendarOps := {
  minute : DateTime → Z;
  hour : DateTime → Z;
  day : DateTime → Z;
  month : DateTime → Z;
  num_days_from_sunday : DateTime → Z;
  (** [with_second(0)] and then [with_nanosecond(0)]. *)
  minute_start : DateTime → option DateTime;
}.

Definition MINUTE : Z := 60 * NANOS_PER_SEC.

(** ** [split_whitespace] *)

Definition word (acc : list N) : list string :=
  match acc with [] => [] | _ => [of_bytes (reverse acc)] end.

Fixpoint words_from (acc l : list N) : list string :=
  match l with
  | [] => word acc
  | b :: l1 =>
      if ws1 b then word acc ++ words_from [] l1
      else match l1 with
      | c :: l2 =>
          if ws2 b c then word acc ++ words_from [] l2
          else match l2 with
          | d :: l3 => if ws3 b c d then word acc ++ words_from [] l3 else words_from (b :: acc) l1
          | [] => words_from (b :: acc) l1
          end
      | [] => words_from (b :: acc) l1
      end
  end.
Definition split_whitespace (s : string) : list string := words_from [] (bytes s).

(** ** Fields *)

Abbreviation R A := (result string A).

Definition parse_u32 : string → option Z := parse_unsigned u32_max.

(** [(min..=max)]. *)
Definition between (min max : Z) : list Z := seqZ min (max - min + 1).

(** The values one part of a field adds. *)
Definition part_values (min max : Z) (part : string) : R (list Z) :=
  if decide (part = "*") then Ok (between min max)
  else match strip_prefix "*/" part with
  | Some step_part =>
      step ← ok_or ("bad step: " +:+ part) (parse_u32 step_part);
      if decide (step = 0) then Err ("step cannot be 0 in: " +:+ part)
      else Ok (base.filter (λ v, (v - min) `mod` step = 0) (between min max))
  | None =>
      match split_once "-" part with
      | Some (lo, hi) =>
          lo ← ok_or ("bad range start: " +:+ part) (parse_u32 lo);
          hi ← ok_or ("bad range end: " +:+ part) (parse_u32 hi);
          if decide (hi < lo ∨ lo < min ∨ max < hi)
          then Err ("range out of bounds [" +:+ pretty min +:+ "-" +:+ pretty max +:+ "]: " +:+ part)
          else Ok (between lo hi)
      | None =>
          n ← ok_or ("bad cron field value: " +:+ part) (parse_u32 part);
          if decide (n < min ∨ max < n)
          then Err ("value " +:+ pretty n +:+ " out of [" +:+ pretty min +:+ "-" +:+ pretty max +:+ "]")
          else Ok [n]
      end
  end.

Fixpoint field_values (min max : Z) (parts : list string) : R (list Z) :=
  match parts with
  | [] => Ok []
  | part :: parts =>
      vs ← part_values min max part; rest ← field_values min max parts; Ok (vs ++ rest)
  end.

(** [Vec::dedup]. *)
Fixpoint dedup (l : list Z) : list Z :=
  match l with
  | a :: (b :: _) as l' => if decide (a = b) then dedup l' else a :: dedup l'
  | l => l
  end.

Definition parse_field (field : string) (min max : Z) : R (list Z) :=
  values ← field_values min max (split_char "," field);
  Ok (dedup (merge_sort Z.le values)).

(** ** The next time *)

Record Fields := {
  f_minutes : list Z; f_hours : list Z; f_doms : list Z; f_months : list Z; f_dows : list Z;
}.

Definition parse_fields (expr : string) : R Fields :=
  match split_whitespace expr with
  | [f0; f1; f2; f3; f4] =>
      minutes ← parse_field f0 0 59;
      hours ← parse_field f1 0 23;
      doms ← parse_field f2 1 31;
      months ← parse_field f3 1 12;
      dows ← parse_field f4 0 6;
      Ok {| f_minutes := minutes; f_hours := hours; f_doms := doms; f_months := months;
            f_dows := dows |}
  | fields => Err ("cron: expected 5 fields, got " +:+ pretty (N.of_nat (length fields)) +:+ ": "
      +:+ expr)
  end.

(** [contains] of the five lists, in the code's order. *)
Definition field_has (l : list Z) (v : Z) : bool := existsb (Z.eqb v) l.

Section Next.
Context `{!CalendarOps}.

Definition matches (f : Fields) (t : DateTime) : bool :=
  field_has (f_months f) (month t) && field_has (f_doms f) (day t)
  && field_has (f_dows f) (num_days_from_sunday t) && field_has (f_hours f) (hour t)
  && field_has (f_minutes f) (minute t).

(** The scan, one minute at a time. *)
Fixpoint scan_minutes (n : nat) (f : Fields) (candidate : DateTime) : option DateTime :=
  match n with
  | O => None
  | S n => if matches f candidate then Some candidate else scan_minutes n f (candidate + MINUTE)
  end.

Definition SCAN_MINUTES : Z := 366 * 24 * 60.

Definition cron_next (expr : string) (from : DateTime) : R DateTime :=
  f ← parse_fields expr;
  let candidate := default from (minute_start from) + MINUTE in
  ok_or ("cron: no next time found in 366 days for: " +:+ expr)
    (scan_minutes (Z.to_nat SCAN_MINUTES) f candidate).
End Next.

(** ** What expressions mean *)

(** The values a part denotes. *)
Inductive part_denotes (min max v : Z) : string → Prop :=
| denotes_any : min ≤ v ≤ max → part_denotes min max v "*"
| denotes_step step n :
    parse_u32 step = Some n → n ≠ 0 → min ≤ v ≤ max → (n | v - min) →
    part_denotes min max v ("*/" +:+ step)
| denotes_range part lo hi a b :
    part ≠ "*" → strip_prefix "*/" part = None → split_once "-" part = Some (lo, hi) →
    parse_u32 lo = Some a → parse_u32 hi = Some b → min ≤ a → b ≤ max → a ≤ v ≤ b →
    part_denotes min max v part
| denotes_value part :
    part ≠ "*" → strip_prefix "*/" part = None → split_once "-" part = None →
    parse_u32 part = Some v → min ≤ v ≤ max → part_denotes min max v part.

(** A part that is accepted: it denotes some value. *)
Definition part_ok (min max : Z) (part : string) : Prop := ∃ v, part_denotes min max v part.
Definition field_ok (min max : Z) (field : string) : Prop :=
  Forall (part_ok min max) (split_char "," field).
Definition field_denotes (min max : Z) (field : string) (v : Z) : Prop :=
  ∃ part, part ∈ split_char "," field ∧ part_denotes min max v part.

(** ** The parser agrees *)

Lemma between_elem min max v : v ∈ between min max ↔ min ≤ v ≤ max.
Proof. unfold between. rewrite elem_of_seqZ. lia. Qed.

Lemma part_values_sound min max part vs v :
  part_values min max part = Ok vs → v ∈ vs → part_denotes min max v part.
Proof.
  unfold part_values. case_decide as Hany; [subst; intros [= <-] Hv|].
  { apply denotes_any. by apply between_elem. }
  destruct (strip_prefix "*/" part) as [step|] eqn:Hstep.
  { intros (n & Hn & Hr)%result_bind_inv Hv. case_decide; [done|]. injection Hr as <-.
    apply list_elem_of_filter in Hv as [Hmod Hv%between_elem].
    assert (part = "*/" +:+ step) as ->.
    { clear -Hstep. cbn in Hstep. destruct part as [|a part]; [done|].
      case_decide; [subst|done]. destruct part as [|b part]; [done|].
      case_decide; [subst|done]. by injection Hstep as ->. }
    eapply denotes_step; [|done|done|by apply Z.mod_divide].
    destruct (parse_u32 step); [by injection Hn as ->|done]. }
  destruct (split_once _ part) as [[lo hi]|] eqn:Hdash.
  - intros (a & Ha & (b & Hb & Hr)%result_bind_inv)%result_bind_inv Hv. case_decide; [done|].
    injection Hr as <-. apply between_elem in Hv.
    destruct (parse_u32 lo) as [a'|] eqn:Hlo; [injection Ha as ->|done].
    destruct (parse_u32 hi) as [b'|] eqn:Hhi; [injection Hb as ->|done].
    eapply denotes_range; try done; lia.
  - intros (a & Ha & Hr)%result_bind_inv Hv. case_decide; [done|]. injection Hr as <-.
    apply list_elem_of_singleton in Hv as ->.
    destruct (parse_u32 part) as [a'|] eqn:Hn; [injection Ha as ->|done].
    apply denotes_value; try done; lia.
Qed.

Lemma part_values_complete min max part v :
  part_denotes min max v part → ∃ vs, part_values min max part = Ok vs ∧ v ∈ vs.
Proof.
  destruct 1 as [Hv|step n Hp Hn Hv Hd|part lo hi a b Ha Hs Hd Hlo Hhi Hl Hh Hv|part Ha Hs Hd Hp Hv];
    unfold part_values.
  - rewrite decide_True by done. eexists. split; [done|]. by apply between_elem.
  - rewrite decide_False by done.
    rewrite strip_prefix_app, Hp. cbn. rewrite decide_False by done. eexists. split; [done|].
    apply list_elem_of_filter. split; [by apply Z.mod_divide|by apply between_elem].
  - rewrite decide_False, Hs, Hd, Hlo by done. cbn. rewrite Hhi. cbn. rewrite decide_False by lia.
    eexists. split; [done|]. by apply between_elem.
  - rewrite decide_False, Hs, Hd, Hp by done. cbn. rewrite decide_False by lia.
    eexists. split; [done|]. by apply list_elem_of_singleton.
Qed.

(** An accepted part denotes something. *)
Lemma part_values_some min max part vs :
  min ≤ max → part_values min max part = Ok vs → ∃ v, v ∈ vs.
Proof.
  intros Hle. unfold part_values. case_decide.
  { intros [= <-]. exists min. apply between_elem. lia. }
  destruct (strip_prefix _ _).
  { intros (n & _ & Hr)%result_bind_inv. case_decide; [done|]. injection Hr as <-. exists min.
    apply list_elem_of_filter. rewrite between_elem, Z.sub_diag. split; [by apply Z.mod_0_l|lia]. }
  destruct (split_once _ _) as [[lo hi]|].
  - intros (a & _ & (b & _ & Hr)%result_bind_inv)%result_bind_inv. case_decide; [done|].
    injection Hr as <-. exists a. apply between_elem. lia.
  - intros (a & _ & Hr)%result_bind_inv. case_decide; [done|]. injection Hr as <-. exists a. left.
Qed.

Lemma dedup_elem l v : v ∈ dedup l ↔ v ∈ l.
Proof.
  induction l as [|a [|b l] IH]; [done..|]. cbn [dedup] in *.
  case_decide; [subst; rewrite IH; set_solver|]. rewrite !(elem_of_cons _ v a), IH. done.
Qed.

Lemma field_values_spec min max parts :
  min ≤ max →
  match field_values min max parts with
  | Ok vs => Forall (part_ok min max) parts
      ∧ ∀ v, v ∈ vs ↔ ∃ part, part ∈ parts ∧ part_denotes min max v part
  | Err _ => ¬ Forall (part_ok min max) parts
  end.
Proof.
  intros Hle. induction parts as [|part parts IH]; cbn [field_values].
  { split; [done|]. set_solver. }
  destruct (part_values min max part) as [vs|e] eqn:Hp; cycle 1.
  { cbn. intros [[v Hv] _]%Forall_cons. apply part_values_complete in Hv as (? & ? & _). congruence. }
  cbn [mbind result_bind]. destruct (field_values min max parts) as [rest|e]; cycle 1.
  { cbn. by intros [_ ?]%Forall_cons. }
  destruct IH as [Hok Hin]. cbn. split.
  - apply Forall_cons. split; [|done]. destruct (part_values_some _ _ _ _ Hle Hp) as [v Hv].
    exists v. by eapply part_values_sound.
  - intros v. rewrite elem_of_app, Hin. split.
    + intros [Hv|(p & ? & ?)]; [|by exists p; split; [right|]].
      exists part. split; [left|by eapply part_values_sound].
    + intros (p & [->|Hp']%elem_of_cons & Hd); [left|right; by exists p].
      apply part_values_complete in Hd as (vs' & Hvs & ?). congruence.
Qed.

Lemma parse_field_spec field min max :
  min ≤ max →
  match parse_field field min max with
  | Ok vs => field_ok min max field ∧ ∀ v, field_has vs v = true ↔ field_denotes min max field v
  | Err _ => ¬ field_ok min max field
  end.
Proof.
  intros Hle. unfold parse_field. pose proof (field_values_spec min max (split_char "," field) Hle) as Hs.
  destruct (field_values _ _ _) as [vs|e]; cbn; [|done]. destruct Hs as [Hok Hin]. split; [done|].
  intros v. unfold field_has. rewrite existsb_exists. unfold field_denotes. rewrite <- Hin.
  rewrite <- (merge_sort_Permutation Z.le vs), <- dedup_elem. split.
  - intros (x & Hx & ->%Z.eqb_eq). by apply list_elem_of_In.
  - intros Hv. exists v. split; [by apply list_elem_of_In|apply Z.eqb_refl].
Qed.

(** ** The scan agrees *)

Section Correct.
Context `{!CalendarOps}.

(** The minutes an expression fires in. *)
Definition fires (expr : string) (t : DateTime) : Prop :=
  match split_whitespace expr with
  | [f0; f1; f2; f3; f4] =>
      field_denotes 0 59 f0 (minute t) ∧ field_denotes 0 23 f1 (hour t)
      ∧ field_denotes 1 31 f2 (day t) ∧ field_denotes 1 12 f3 (month t)
      ∧ field_denotes 0 6 f4 (num_days_from_sunday t)
  | _ => False
  end.

(** An expression the parser accepts. *)
Definition well_formed (expr : string) : Prop :=
  match split_whitespace expr with
  | [f0; f1; f2; f3; f4] =>
      field_ok 0 59 f0 ∧ field_ok 0 23 f1 ∧ field_ok 1 31 f2 ∧ field_ok 1 12 f3 ∧ field_ok 0 6 f4
  | _ => False
  end.

(** [t] is the first minute after [from], within 366 days of [from]'s minute, in
    which [expr] fires. *)
Definition first_after (expr : string) (from t : DateTime) : Prop :=
  let minute_of s := s - s `mod` MINUTE in
  t `mod` MINUTE = 0 ∧ from < t ≤ minute_of from + 366 * 24 * 60 * MINUTE ∧ fires expr t
  ∧ ∀ t', t' `mod` MINUTE = 0 → from < t' < t → ¬ fires expr t'.

Lemma parse_fields_spec expr :
  match parse_fields expr with
  | Ok f => well_formed expr ∧ ∀ t, matches f t = true ↔ fires expr t
  | Err _ => ¬ well_formed expr
  end.
Proof.
  unfold parse_fields, well_formed, fires.
  destruct (split_whitespace expr) as [|f0 [|f1 [|f2 [|f3 [|f4 [|]]]]]]; try by intros [].
  pose proof (parse_field_spec f0 0 59 ltac:(lia)) as P0.
  pose proof (parse_field_spec f1 0 23 ltac:(lia)) as P1.
  pose proof (parse_field_spec f2 1 31 ltac:(lia)) as P2.
  pose proof (parse_field_spec f3 1 12 ltac:(lia)) as P3.
  pose proof (parse_field_spec f4 0 6 ltac:(lia)) as P4.
  destruct (parse_field f0 0 59) as [l0|]; [|by intros [? _]]. cbn [mbind result_bind].
  destruct (parse_field f1 0 23) as [l1|]; [|by intros (_ & ? & _)]. cbn [mbind result_bind].
  destruct (parse_field f2 1 31) as [l2|]; [|by intros (_ & _ & ? & _)]. cbn [mbind result_bind].
  destruct (parse_field f3 1 12) as [l3|]; [|by intros (_ & _ & _ & ? & _)]. cbn [mbind result_bind].
  destruct (parse_field f4 0 6) as [l4|]; [|by intros (_ & _ & _ & _ & ?)]. cbn [mbind result_bind].
  destruct P0 as [O0 P0], P1 as [O1 P1], P2 as [O2 P2], P3 as [O3 P3], P4 as [O4 P4].
  split; [done|]. intros t. unfold matches.
  cbn [f_minutes f_hours f_doms f_months f_dows]. rewrite !andb_true_iff, P0, P1, P2, P3, P4. tauto.
Qed.

Lemma scan_spec n f t0 :
  match scan_minutes n f t0 with
  | Some t => ∃ k, (k < n)%nat ∧ t = t0 + Z.of_nat k * MINUTE ∧ matches f t = true
      ∧ ∀ j, (j < k)%nat → matches f (t0 + Z.of_nat j * MINUTE) = false
  | None => ∀ j, (j < n)%nat → matches f (t0 + Z.of_nat j * MINUTE) = false
  end.
Proof.
  revert t0. induction n as [|n IH]; intros t0; cbn [scan_minutes]; [lia|].
  destruct (matches f t0) eqn:Hm.
  { exists 0%nat. rewrite Z.add_0_r. split_and!; [lia|done|done|lia]. }
  assert (∀ j, t0 + MINUTE + Z.of_nat j * MINUTE = t0 + Z.of_nat (S j) * MINUTE) as Hs by lia.
  assert (matches f (t0 + Z.of_nat 0 * MINUTE) = false) as H0' by (by rewrite Z.add_0_r).
  specialize (IH (t0 + MINUTE)). destruct (scan_minutes n f (t0 + MINUTE)) as [t|].
  - destruct IH as (k & Hk & -> & Ht & Hbefore). exists (S k). rewrite Hs in *.
    split_and!; [lia|done|done|]. intros [|j] Hj; [done|]. rewrite <- Hs. apply Hbefore. lia.
  - intros [|j] Hj; [done|]. rewrite <- Hs. apply IH. lia.
Qed.

(** A minute after [from] is one the scan visits. *)
Lemma minutes_after from t :
  t `mod` MINUTE = 0 → from < t →
  ∃ j : nat, t = from - from `mod` MINUTE + MINUTE + Z.of_nat j * MINUTE.
Proof.
  intros Hm Hlt. assert (0 < MINUTE) by done.
  apply Z.mod_divide in Hm as [q ->]; [|done]. set (m := MINUTE) in *.
  pose proof (Z.div_mod from m ltac:(lia)) as Hd. pose proof (Z.mod_pos_bound from m ltac:(lia)).
  exists (Z.to_nat (q - from `div` m - 1)). rewrite Z2Nat.id by nia. lia.
Qed.

Lemma scan_from from j :
  (from - from `mod` MINUTE + MINUTE + Z.of_nat j * MINUTE) `mod` MINUTE = 0
  ∧ from < from - from `mod` MINUTE + MINUTE + Z.of_nat j * MINUTE.
Proof.
  assert (0 < MINUTE) by done. set (m := MINUTE) in *.
  pose proof (Z.mod_pos_bound from m ltac:(lia)). split; [|nia].
  replace (from - from `mod` m + m + Z.of_nat j * m) with ((from `div` m + 1 + Z.of_nat j) * m).
  - by apply Z.mod_mul.
  - pose proof (Z.div_mod from m ltac:(lia)). lia.
Qed.

(** C36: The cron schedule is the declarative one. For an expression and a time,
    [cron_next] answers [t] exactly when the expression has five fields of the
    documented forms within their bounds and [t] is the first minute after [from]
    in which it fires, looking 366 days ahead; in every other case it answers an
    error. The start of a minute is what chrono documents. *)
Theorem cron_next_correct (expr : string) (from t : DateTime)
    (Hstart : ∀ s, minute_start s = Some (s - s `mod` MINUTE)) :
  cron_next expr from = Ok t ↔ well_formed expr ∧ first_after expr from t.
Proof.
  unfold cron_next. pose proof (parse_fields_spec expr) as Hp.
  destruct (parse_fields expr) as [f|e]; cbn; [|split; [done|by intros [? _]]].
  destruct Hp as [Hwf Hm]. rewrite Hstart. cbn [default]. unfold first_after, id.
  pose proof (scan_spec (Z.to_nat SCAN_MINUTES) f (from - from `mod` MINUTE + MINUTE)) as Hs.
  destruct (scan_minutes _ _ _) as [t0|]; cbn; split.
  - intros [= <-]. split; [done|]. destruct Hs as (k & Hk & -> & Ht & Hbefore).
    pose proof (scan_from from k) as [Ha Hlt]. unfold SCAN_MINUTES in Hk.
    assert (0 < MINUTE) by done.
    assert (Z.of_nat k + 1 ≤ 366 * 24 * 60) by lia.
    split_and!; [done|done|set (m := MINUTE) in *; nia|by apply Hm|]. intros t' Ht' Hr Hf.
    destruct (minutes_after from t' Ht' (proj1 Hr)) as [j ->]. apply Hm in Hf.
    rewrite Hbefore in Hf; [done|set (m := MINUTE) in *; nia].
  - intros [_ (Ha & [Hlt Hle] & Hf & Hfirst)]. f_equal. destruct Hs as (k & Hk & -> & Ht & Hbefore).
    destruct (minutes_after from t Ha Hlt) as [j ->]. pose proof (scan_from from k) as [Hak Hltk].
    assert (0 < MINUTE) by done. assert (¬ (j < k)%nat) as Hjk.
    { intros Hj. apply Hm in Hf. by rewrite Hbefore in Hf. }
    assert (¬ (k < j)%nat) as Hkj.
    { intros Hj. eapply (Hfirst _ Hak); [|by apply Hm]. split; [done|nia]. }
    by replace j with k by lia.
  - done.
  - intros [_ (Ha & [Hlt Hle] & Hf & _)]. destruct (minutes_after from t Ha Hlt) as [j ->].
    apply Hm in Hf. rewrite Hs in Hf; [done|]. assert (0 < MINUTE) by done.
    assert (Z.of_nat j + 1 ≤ 366 * 24 * 60) by (set (m := MINUTE) in *; nia). unfold SCAN_MINUTES. lia.
Qed.
End Correct.

(** ** Witness and examples *)

Module CronSample.

(** The Gregorian calendar, by days since the epoch. *)
Definition days (t : DateTime) : Z := t `div` (86400 * NANOS_PER_SEC).
Definition day_of_year (t : DateTime) : Z :=
  let doe := (days t + 719468) `mod` 146097 in
  let yoe := (doe - doe `div` 1460 + doe `div` 36524 - doe `div` 146096) `div` 365 in
  doe - (365 * yoe + yoe `div` 4 - yoe `div` 100).
Definition march_month (t : DateTime) : Z := (5 * day_of_year t + 2) `div` 153.
#[export] Instance gregorian : CalendarOps := {
  minute t := (t `div` MINUTE) `mod` 60;
  hour t := (t `div` (60 * MINUTE)) `mod` 24;
  day t := day_of_year t - (153 * march_month t + 2) `div` 5 + 1;
  month t := if march_month t <? 10 then march_month t + 3 else march_month t - 9;
  num_days_from_sunday t := (days t + 4) `mod` 7;
  minute_start t := Some (t - t `mod` MINUTE) }.

(** Days since the epoch, hours and minutes. *)
Definition at_ (d h m : Z) : DateTime := (d * 1440 + h * 60 + m) * MINUTE.

(** Sunday 2026-01-04, 20:10: the office hours begin on Monday. *)
Lemma cron_next_witness :
  cron_next "*/15 9-17 * * 1-5" (at_ 20457 20 10) = Ok (at_ 20458 9 0)
  ∧ first_after "*/15 9-17 * * 1-5" (at_ 20457 20 10) (at_ 20458 9 0).
Proof.
  assert (cron_next "*/15 9-17 * * 1-5" (at_ 20457 20 10) = Ok (at_ 20458 9 0)) as Hn
    by (vm_compute; reflexivity).
  split; [exact Hn|]. refine (proj2 (proj1 (cron_next_correct _ _ _ _) Hn)). intros s. reflexivity.
Defined.

(** The date is the day's. *)
Lemma date_of_day t : month t = month (at_ (days t) 0 0) ∧ day t = day (at_ (days t) 0 0).
Proof.
  assert (days (at_ (days t) 0 0) = days t) as Hd.
  { unfold days, at_, MINUTE, NANOS_PER_SEC. set (q := t `div` _). Z.div_mod_to_equations. lia. }
  cbn. unfold march_month, day_of_year. by rewrite Hd.
Qed.

Definition dateless (f : Fields) (d : Z) : bool :=
  negb (field_has (f_months f) (month (at_ d 0 0)) && field_has (f_doms f) (day (at_ d 0 0))).

(** No minute of a year fires when no date of it does. *)
Lemma scan_dateless f t0 :
  forallb (dateless f) (seqZ (days t0) 367) = true →
  scan_minutes (Z.to_nat SCAN_MINUTES) f t0 = None.
Proof.
  intros Hd. pose proof (scan_spec (Z.to_nat SCAN_MINUTES) f t0) as Hs.
  destruct (scan_minutes _ _ _) as [t|]; [|done]. destruct Hs as (k & Hk & -> & Hm & _). exfalso.
  set (t := t0 + _) in *. rewrite forallb_forall in Hd.
  assert (days t ∈ seqZ (days t0) 367) as Hin%list_elem_of_In%Hd.
  { apply elem_of_seqZ. unfold t, days, MINUTE, NANOS_PER_SEC, SCAN_MINUTES in *.
    Z.div_mod_to_equations. lia. }
  unfold matches in Hm. destruct (date_of_day t) as [Hmo Hda]. rewrite Hmo, Hda in Hm.
  unfold dateless in Hin. apply negb_true_iff in Hin. by rewrite Hin in Hm.
Qed.

(** A leap day is further than the scan looks: on 2026-03-01, and again when a job
    of 29 February has run, there is no next time. *)
Example leap_day_never :
  is_ok (cron_next "59 23 29 2 *" (at_ 20513 0 0)) = false
  ∧ cron_next "59 23 29 2 *" (at_ 21243 23 0) = Ok (at_ 21243 23 59)
  ∧ is_ok (cron_next "59 23 29 2 *" (at_ 21243 23 59)) = false.
Proof.
  set (f := {| f_minutes := [59]; f_hours := [23]; f_doms := [29]; f_months := [2];
    f_dows := between 0 6 |}).
  assert (∀ t, t `mod` MINUTE = 0 → forallb (dateless f) (seqZ (days (t + MINUTE)) 367) = true →
    is_ok (cron_next "59 23 29 2 *" t) = false) as Hno.
  { intros t Ht Hd. apply scan_dateless in Hd. unfold cron_next.
    change (parse_fields "59 23 29 2 *") with (Ok (E := string) f).
    cbn [mbind result_bind minute_start gregorian default]. rewrite Ht, Z.sub_0_r.
    unfold id. by rewrite Hd. }
  split_and!; [apply Hno; vm_compute; reflexivity|vm_compute; reflexivity
    |apply Hno; vm_compute; reflexivity].
Qed.

(** Day of month and day of week are both required: of two Fridays in November
    2026 only the 13th fires. *)
Example friday_the_13th :
  let fires d := (λ f, matches f (at_ d 0 0)) <$> parse_fields "0 0 13 * 5" in
  fires 20763 = Ok false ∧ fires 20770 = Ok true
  ∧ num_days_from_sunday (at_ 20763 0 0) = 5.
Proof. vm_compute. split_and!; reflexivity. Qed.
End CronSample.
