(* ===== verification/Timers.v ===== *)
(** * Durable timers and cron jobs ([timers/src/lib.rs])

    The two tables, the stores over them, and one tick of each runner. The
    backend a timer's event goes to, and the launcher that starts a cron job's
    run, act on the rest of the store ([inner]). *)

From S2P Require Import Prelude.
From S2P Require Import Json.
From S2P Require Import Core.
From S2P Require Import Condition.
From S2P Require Import Event.
From S2P Require Import Backend.
From S2P Require Import Sql.
From S2P Require Import Sqlite.
From S2P Require Import Cron.

Record Timer := {
  tm_id : Uuid; tm_execution_id : string; tm_node_id : string; fire_at : DateTime;
  tm_correlation_key : option string; fired : bool; tm_created_at : DateTime;
  fired_at : option DateTime;
}.

Record CronJob := {
  cj_id : Uuid; cj_name : string; cron_expression : string; cj_workflow_id : string;
  cj_workflow_version : string; cj_input : Value; enabled : bool;
  last_run_at : option DateTime; next_run_at : DateTime; cj_created_at : DateTime;
  created_by : option string; cj_tenant_id : string;
}.

(** The rows of [timers] and [cron_jobs]. *)
Record TimerRow := {
  tr_id : string; tr_execution_id : string; tr_node_id : string; tr_fire_at : string;
  tr_correlation_key : option string; tr_fired : Z; tr_created_at : string;
  tr_fired_at : option string; tr_tenant_id : string;
}.

Record CronRow := {
  cr_id : string; cr_name : string; cr_cron_expression : string; cr_workflow_id : string;
  cr_workflow_version : string; cr_input_json : string; cr_enabled : Z;
  cr_last_run_at : option string; cr_next_run_at : string; cr_created_at : string;
  cr_tenant_id : string; cr_created_by : option string;
}.

(** The two tables, the ids in [tenants] they refer to, and the rest. *)
Record Timed (S : Type) := {
  timer_rows : list TimerRow;
  cron_rows : list CronRow;
  tenant_ids : list string;
  inner : S;
}.
Arguments Build_Timed {S} _ _ _ _.
Arguments timer_rows {S} _.
Arguments cron_rows {S} _.
Arguments tenant_ids {S} _.
Arguments inner {S} _.

Definition fire_earlier (a b : TimerRow) : Prop := text_le (tr_fire_at a) (tr_fire_at b) = true.
Definition runs_earlier (a b : CronRow) : Prop :=
  text_le (cr_next_run_at a) (cr_next_run_at b) = true.
Definition name_asc (a b : CronRow) : Prop := text_le (cr_name a) (cr_name b) = true.
#[export] Instance fire_earlier_dec : RelDecision fire_earlier.
Proof. intros a b. unfold fire_earlier. apply _. Defined.
#[export] Instance runs_earlier_dec : RelDecision runs_earlier.
Proof. intros a b. unfold runs_earlier. apply _. Defined.
#[export] Instance name_asc_dec : RelDecision name_asc.
Proof. intros a b. unfold name_asc. apply _. Defined.

Section Stores.
Context `{!UuidOps, !ChronoOps, !JsonText, !SqlOps, !RowSerde} {S : Type}.
Abbreviation M A := (eff (Timed S) string A).

Definition set_timers (l : list TimerRow) (s : Timed S) : Timed S :=
  Build_Timed l (cron_rows s) (tenant_ids s) (inner s).
Definition set_crons (l : list CronRow) (s : Timed S) : Timed S :=
  Build_Timed (timer_rows s) l (tenant_ids s) (inner s).
Definition set_inner (i : S) (s : Timed S) : Timed S :=
  Build_Timed (timer_rows s) (cron_rows s) (tenant_ids s) i.

(** A call on the rest of the store. *)
Definition on_inner {E F A} (f : E → F) (m : eff S E A) : eff (Timed S) F A := λ w,
  let '(r, w') := m (World (inner (store w)) (clock w) (draws w)) in
  (map_err f r, World (set_inner (store w') (store w)) (clock w') (draws w')).

Definition parse_dt (s : string) : result string DateTime :=
  ok_or ("bad datetime '" +:+ s +:+ "': " +:+ datetime_error s) (parse_rfc3339 s).

(** ** Timers *)

Definition row_to_timer (row : TimerRow) : result string Timer :=
  id ← ok_or ("bad timer id: " +:+ uuid_error (tr_id row)) (uuid_from_str (tr_id row));
  fire ← parse_dt (tr_fire_at row);
  created ← parse_dt (tr_created_at row);
  fired_at ← try_opt parse_dt (tr_fired_at row);
  Ok {| tm_id := id; tm_execution_id := tr_execution_id row; tm_node_id := tr_node_id row;
        fire_at := fire; tm_correlation_key := tr_correlation_key row;
        fired := negb (bool_decide (tr_fired row = 0)); tm_created_at := created;
        fired_at := fired_at |}.

Definition schedule (execution_id node_id : string) (fire_at : DateTime)
    (correlation_key : option string) : M Timer :=
  id ← new_v4;
  now ← utc_now;
  let row := {| tr_id := uuid_hyphenated id; tr_execution_id := execution_id;
    tr_node_id := node_id; tr_fire_at := rfc3339 fire_at; tr_correlation_key := correlation_key;
    tr_fired := 0; tr_created_at := rfc3339 now; tr_fired_at := None;
    tr_tenant_id := DEFAULT_TENANT |} in
  ok ← gets (λ s, negb (existsb (λ r, bool_decide (tr_id r = tr_id row)) (timer_rows s))
    && bool_decide (DEFAULT_TENANT ∈ tenant_ids s));
  if ok : bool then
    modify (λ s, set_timers (timer_rows s ++ [row]) s) ≫= λ _,
    mret {| tm_id := id; tm_execution_id := execution_id; tm_node_id := node_id;
      fire_at := fire_at; tm_correlation_key := correlation_key; fired := false;
      tm_created_at := now; fired_at := None |}
  else raise ("schedule timer: " +:+ constraint_failed).

Definition timer_due (now : string) (r : TimerRow) : bool :=
  bool_decide (tr_fired r = 0) && text_le (tr_fire_at r) now.

Definition list_due_timers : M (list Timer) :=
  now ← utc_now;
  found ← gets (λ s, scan (base.filter (λ r, timer_due (rfc3339 now) r = true) (timer_rows s)));
  of_result (mapM row_to_timer (merge_sort fire_earlier found)).

Definition update_timers (p : TimerRow → bool) (f : TimerRow → TimerRow) : M unit :=
  modify (λ s, set_timers ((λ r, if p r then f r else r) <$> timer_rows s) s).

Definition set_fired (at_ : option string) (r : TimerRow) : TimerRow :=
  {| tr_id := tr_id r; tr_execution_id := tr_execution_id r; tr_node_id := tr_node_id r;
     tr_fire_at := tr_fire_at r; tr_correlation_key := tr_correlation_key r; tr_fired := 1;
     tr_created_at := tr_created_at r; tr_fired_at := at_; tr_tenant_id := tr_tenant_id r |}.

Definition mark_fired (id : Uuid) : M unit :=
  now ← utc_now;
  update_timers (λ r, bool_decide (tr_id r = uuid_hyphenated id)) (set_fired (Some (rfc3339 now))).

Definition cancel_timer (id : Uuid) : M unit :=
  update_timers (λ r, bool_decide (tr_id r = uuid_hyphenated id) && bool_decide (tr_fired r = 0))
    (λ r, set_fired (tr_fired_at r) r).

(** *** The runner *)

Section Runner.
Context `{HB : StateBackend S}.

Definition fire_timer (timer : Timer) : M unit :=
  exec_id ← of_result (match uuid_from_str (tm_execution_id timer) with
    | Some u => Ok (mkExecutionId u)
    | None => Err ("bad execution_id in timer: " +:+ uuid_error (tm_execution_id timer))
    end);
  last ← on_inner StateBackendError_display (latest_sequence exec_id);
  event ← Event_new exec_id (last + 1)
    (EventKind.TimerFired (tm_node_id timer) (tm_correlation_key timer));
  on_inner (λ e, "append TimerFired: " +:+ StateBackendError_display e) (append_event event) ≫= λ _,
  mark_fired (tm_id timer).

Definition timer_tick : M unit := due ← list_due_timers; for_each due fire_timer.
End Runner.

(** ** Cron jobs *)

Definition row_to_cron (row : CronRow) : result string CronJob :=
  id ← ok_or ("bad cron id: " +:+ uuid_error (cr_id row)) (uuid_from_str (cr_id row));
  last ← try_opt parse_dt (cr_last_run_at row);
  next ← parse_dt (cr_next_run_at row);
  created ← parse_dt (cr_created_at row);
  Ok {| cj_id := id; cj_name := cr_name row; cron_expression := cr_cron_expression row;
        cj_workflow_id := cr_workflow_id row; cj_workflow_version := cr_workflow_version row;
        cj_input := default (obj []) (parse_json (cr_input_json row));
        enabled := negb (bool_decide (cr_enabled row = 0)); last_run_at := last;
        next_run_at := next; cj_created_at := created; created_by := cr_created_by row;
        cj_tenant_id := cr_tenant_id row |}.

Definition cron_row (job : CronJob) : CronRow := {|
  cr_id := uuid_hyphenated (cj_id job); cr_name := cj_name job;
  cr_cron_expression := cron_expression job; cr_workflow_id := cj_workflow_id job;
  cr_workflow_version := cj_workflow_version job; cr_input_json := json_to_string (cj_input job);
  cr_enabled := if enabled job then 1 else 0; cr_last_run_at := None;
  cr_next_run_at := rfc3339 (next_run_at job); cr_created_at := rfc3339 (cj_created_at job);
  cr_tenant_id := cj_tenant_id job; cr_created_by := created_by job |}.

(** [PRIMARY KEY id], [UNIQUE (tenant_id, name)]. *)
Definition cron_clash (a b : CronRow) : bool :=
  bool_decide (cr_id a = cr_id b)
  || bool_decide (cr_tenant_id a = cr_tenant_id b ∧ cr_name a = cr_name b).

(** [INSERT OR REPLACE]. *)
Definition upsert_job (job : CronJob) : M unit :=
  let row := cron_row job in
  ok ← gets (λ s, bool_decide (cr_tenant_id row ∈ tenant_ids s));
  if ok : bool then
    modify (λ s, set_crons (base.filter (λ r, cron_clash row r = false) (cron_rows s) ++ [row]) s)
  else raise ("upsert cron job: " +:+ constraint_failed).

Definition job_due (now : string) (r : CronRow) : bool :=
  bool_decide (cr_enabled r = 1) && text_le (cr_next_run_at r) now.

Definition list_due_jobs : M (list CronJob) :=
  now ← utc_now;
  found ← gets (λ s, scan (base.filter (λ r, job_due (rfc3339 now) r = true) (cron_rows s)));
  of_result (mapM row_to_cron (merge_sort runs_earlier found)).

Definition update_crons (p : CronRow → bool) (f : CronRow → CronRow) : M unit :=
  modify (λ s, set_crons ((λ r, if p r then f r else r) <$> cron_rows s) s).

Definition cron_edit (r : CronRow) en last next : CronRow := {|
  cr_id := cr_id r; cr_name := cr_name r; cr_cron_expression := cr_cron_expression r;
  cr_workflow_id := cr_workflow_id r; cr_workflow_version := cr_workflow_version r;
  cr_input_json := cr_input_json r; cr_enabled := en; cr_last_run_at := last;
  cr_next_run_at := next; cr_created_at := cr_created_at r; cr_tenant_id := cr_tenant_id r;
  cr_created_by := cr_created_by r |}.

Definition advance (id : Uuid) (next : DateTime) : M unit :=
  now ← utc_now;
  update_crons (λ r, bool_decide (cr_id r = uuid_hyphenated id))
    (λ r, cron_edit r (cr_enabled r) (Some (rfc3339 now)) (rfc3339 next)).

Definition disable (id : Uuid) : M unit :=
  update_crons (λ r, bool_decide (cr_id r = uuid_hyphenated id))
    (λ r, cron_edit r 0 (cr_last_run_at r) (cr_next_run_at r)).

Definition list_for_tenant (tenant_id : string) : M (list CronJob) :=
  found ← gets (λ s, scan (base.filter (λ r, cr_tenant_id r = tenant_id) (cron_rows s)));
  of_result (mapM row_to_cron (merge_sort name_asc found)).

Definition list_all : M (list CronJob) :=
  found ← gets (λ s, scan (cron_rows s));
  of_result (mapM row_to_cron (merge_sort name_asc found)).

Definition delete_job (tenant_id name : string) : M unit :=
  modify (λ s, set_crons (base.filter
    (λ r, ¬ (cr_tenant_id r = tenant_id ∧ cr_name r = name)) (cron_rows s)) s).

(** *** The scheduler *)

Section Scheduler.
Context `{!CalendarOps}.
(** [CronLauncher::start]. *)
Context (start : CronJob → eff S string unit).

(** A due job: started, whatever comes of it, and moved to its next time, or
    disabled when it has none. *)
Definition run_job (job : CronJob) : M unit :=
  as_result (on_inner id (start job)) ≫= λ _,
  now ← utc_now;
  match cron_next (cron_expression job) now with
  | Ok next => advance (cj_id job) next
  | Err _ => disable (cj_id job)
  end.

Definition cron_tick : M unit := due ← list_due_jobs; for_each due run_job.
End Scheduler.
End Stores.
