(* ===== verification/TimersCorrect.v ===== *)
(** * What a tick of the cron scheduler does ([timers/src/lib.rs])

    Every due job is started once, nothing else is, and what was due is not due
    again until its next time. Last, runs of both runners on concrete tables. *)

From S2P Require Import Prelude.
From S2P Require Import Json.
From S2P Require Import Core.
From S2P Require Import Condition.
From S2P Require Import Event.
From S2P Require Import Hashing.
From S2P Require Import Approvals.
From S2P Require Import Backend.
From S2P Require Import Memory.
From S2P Require Import Lease.
From S2P Require Import Sql.
From S2P Require Import Sqlite.
From S2P Require Import Cron.
From S2P Require Import TenantIsolation.
From S2P Require Import Timers.

(** Keys of the table: one row per id and per tenant and name, ids as the code
    writes them. *)
Definition crons_ok `{!UuidOps} (l : list CronRow) : Prop :=
  NoDup (cr_id <$> l) ∧ (∀ a b, a ∈ l → b ∈ l → cron_clash a b = true → a = b)
  ∧ ∀ r, r ∈ l → ∃ u, cr_id r = uuid_hyphenated u.

Lemma cron_next_later `{!CalendarOps} e from t :
  (∀ s, minute_start s = Some (s - s `mod` MINUTE)) → cron_next e from = Ok t →
  from < t ≤ from + 366 * 24 * 60 * MINUTE.
Proof.
  intros Hstart. unfold cron_next. intros (f & _ & Hn)%result_bind_inv. rewrite Hstart in Hn.
  cbn [default] in Hn. unfold id in Hn.
  pose proof (scan_spec (Z.to_nat SCAN_MINUTES) f (from - from `mod` MINUTE + MINUTE)) as Hs.
  destruct (scan_minutes _ _ _) as [t0|]; [|done]. injection Hn as <-.
  destruct Hs as (k & Hk & -> & _). destruct (scan_from from k) as [_ ?].
  assert (0 < MINUTE) by done. assert (Z.of_nat k + 1 ≤ 366 * 24 * 60) by (unfold SCAN_MINUTES in Hk; lia).
  pose proof (Z.mod_pos_bound from MINUTE ltac:(done)). set (m := MINUTE) in *. nia.
Qed.

#[export] Instance runs_earlier_total : Total runs_earlier.
Proof. intros a b. unfold runs_earlier, text_le. apply String.leb_total. Qed.

Section Cron.
Context `{!UuidOps, !ChronoOps, !JsonText, !SqlOps, !RowSerde, !CalendarOps} {S : Type}.
Context (start : CronJob → eff S string unit).

(** The launcher, which also keeps the jobs it is given and the time each was done
    with. *)
Definition recording (job : CronJob) : eff (S * list (CronJob * DateTime)) string unit := λ w,
  let '(r, w') := start job (World (store w).1 (clock w) (draws w)) in
  (r, World (store w', (store w).2 ++ [(job, clock w')]) (clock w') (draws w')).

Definition started (w : world (Timed (S * list (CronJob * DateTime)))) : list (CronJob * DateTime) :=
  (inner (store w)).2.

(** Texts of times sort as the times do, up to [horizon] (the year 9999). *)
Context (horizon : DateTime).
Context (Htext : ∀ a b, 0 ≤ a → a < b → b < horizon → text_le (rfc3339 b) (rfc3339 a) = false).
Context (Hstart : ∀ s, minute_start s = Some (s - s `mod` MINUTE)).
(** A launch takes time. *)
Context (Hclock : ∀ job w, clock w ≤ clock (start job w).2).

Definition a_year : Z := 366 * 24 * 60 * MINUTE.

(** The row is the one job's still: what the tick does not write is as it was. *)
Definition same_job (r r' : CronRow) : Prop :=
  cr_id r' = cr_id r ∧ cr_name r' = cr_name r ∧ cr_cron_expression r' = cr_cron_expression r
  ∧ cr_workflow_id r' = cr_workflow_id r ∧ cr_workflow_version r' = cr_workflow_version r
  ∧ cr_input_json r' = cr_input_json r ∧ cr_created_at r' = cr_created_at r
  ∧ cr_tenant_id r' = cr_tenant_id r ∧ cr_created_by r' = cr_created_by r.

(** A job done with at [t] runs next at its expression's next time, later than [t];
    if it has none it is disabled. *)
Definition moved_on (expr : string) (t : DateTime) (r r' : CronRow) : Prop :=
  same_job r r'
  ∧ match cron_next expr t with
    | Ok next => t < next ≤ t + a_year ∧ cr_next_run_at r' = rfc3339 next
        ∧ cr_last_run_at r' = Some (rfc3339 t) ∧ cr_enabled r' = cr_enabled r
    | Err _ => cr_enabled r' = 0 ∧ cr_next_run_at r' = cr_next_run_at r
        ∧ cr_last_run_at r' = cr_last_run_at r
    end.

(** What starting the jobs of [l] makes of a row. *)
Definition row_after (l : list (CronJob * DateTime)) (r r' : CronRow) : Prop :=
  ((∀ jt, jt ∈ l → cr_id r ≠ uuid_hyphenated (cj_id jt.1)) → r' = r)
  ∧ ∀ jt, jt ∈ l → cr_id r = uuid_hyphenated (cj_id jt.1) →
      moved_on (cron_expression jt.1) jt.2 r r'.

Lemma row_after_id l r r' : row_after l r r' → cr_id r' = cr_id r.
Proof.
  intros [Hsame Hmoved].
  destruct (decide (Exists (λ jt, cr_id r = uuid_hyphenated (cj_id jt.1)) l)) as [He|He].
  - apply Exists_exists in He as (jt & Hin & Heq). by destruct (Hmoved _ Hin Heq) as [[? _] _].
  - rewrite Hsame; [done|]. intros jt Hin Heq. apply He, Exists_exists. by exists jt.
Qed.

Lemma row_after_cons jt l r r1 r2 :
  uuid_hyphenated (cj_id jt.1) ∉ ((λ jt, uuid_hyphenated (cj_id jt.1)) <$> l) →
  row_after [jt] r r1 → row_after l r1 r2 → row_after (jt :: l) r r2.
Proof.
  intros Hnew Hone Hrest. pose proof (row_after_id _ _ _ Hone) as Hid.
  destruct Hone as [Hsame1 Hmoved1], Hrest as [Hsame2 Hmoved2]. rewrite Hid in Hsame2, Hmoved2. split.
  - intros Hne. rewrite Hsame2, Hsame1; [done| |].
    + intros ? ->%list_elem_of_singleton. apply Hne. left.
    + intros jt' Hin. apply Hne. by right.
  - intros jt' [->|Hin]%elem_of_cons Heq.
    + rewrite Hsame2; [apply Hmoved1; [left|done]|]. intros jt' Hin Heq'.
      apply Hnew, list_elem_of_fmap. exists jt'. by rewrite <- Heq, <- Heq'.
    + rewrite <- (Hsame1); [by apply Hmoved2|]. intros ? ->%list_elem_of_singleton Heq'.
      apply Hnew, list_elem_of_fmap. exists jt'. by rewrite <- Heq', <- Heq.
Qed.

(** Timers and tenants are not the tick's. *)
Definition crons_only (w w' : world (Timed (S * list (CronJob * DateTime)))) : Prop :=
  timer_rows (store w') = timer_rows (store w) ∧ tenant_ids (store w') = tenant_ids (store w).

Lemma Forall2_fmap_self {A} (P : A → A → Prop) (f : A → A) l :
  (∀ x, P x (f x)) → Forall2 P l (f <$> l).
Proof. intros Hf. induction l; constructor; auto. Qed.

(** One job: it is started, its row moves on, the others are as they are. *)
Lemma run_job_spec job w :
  let '(r, w') := run_job recording job w in
  r = Ok tt ∧ clock w ≤ clock w' ∧ started w' = started w ++ [(job, clock w')] ∧ crons_only w w'
  ∧ Forall2 (row_after [(job, clock w')]) (cron_rows (store w)) (cron_rows (store w')).
Proof.
  unfold run_job.
  unfold mbind at 1 2, eff_bind at 1 2, as_result, on_inner, recording. cbn.
  pose proof (Hclock job (World (inner (store w)).1 (clock w) (draws w))) as Hc. cbn in Hc.
  destruct (start job _) as [r w1]. cbn in *.
  destruct (cron_next (cron_expression job) (clock w1)) as [next|e] eqn:Hn; cbn;
    (split_and!; [done..|]); apply Forall2_fmap_self; intros row;
    (case_bool_decide as Hid;
      [split; [intros Hne; exfalso; by eapply Hne; [left|]|]
      |split; [done|intros ? ->%list_elem_of_singleton ?; done]]);
    intros ? ->%list_elem_of_singleton _; (split; [by repeat split|]); cbn; rewrite Hn; [|done].
  destruct (cron_next_later _ _ _ Hstart Hn) as [? ?]. unfold a_year. by split_and!.
Qed.

Lemma run_jobs_spec jobs w :
  NoDup ((λ j, uuid_hyphenated (cj_id j)) <$> jobs) →
  let '(r, w') := for_each jobs (run_job recording) w in
  r = Ok tt ∧ clock w ≤ clock w' ∧ crons_only w w'
  ∧ ∃ new, started w' = started w ++ new ∧ new.*1 = jobs
      ∧ Forall (λ jt, clock w ≤ jt.2 ≤ clock w') new
      ∧ Forall2 (row_after new) (cron_rows (store w)) (cron_rows (store w')).
Proof.
  revert w. induction jobs as [|job jobs IH]; intros w Hnd; cbn [for_each].
  { cbn. split_and!; try done. exists []. rewrite app_nil_r. split_and!; try done.
    apply Forall_Forall2_diag, Forall_true. intros r. split; [done|]. by intros ? ?%not_elem_of_nil. }
  apply NoDup_cons in Hnd as [Hnew Hnd]. pose proof (run_job_spec job w) as Hone.
  unfold mbind, eff_bind. destruct (run_job recording job w) as [[[]|e] w1]; [|by destruct Hone].
  destruct Hone as (_ & Hw1 & Hs1 & [Ht1 Hn1] & Hrows1). specialize (IH w1 Hnd).
  destruct (for_each jobs _ w1) as [r w2].
  destruct IH as (Hr & Hw2 & [Ht2 Hn2] & new & Hs2 & Hjobs & Htimes & Hrows2).
  split_and!; [done|lia|by split; congruence|]. exists ((job, clock w1) :: new). split_and!.
  - by rewrite Hs2, Hs1, <- app_assoc.
  - cbn. by rewrite Hjobs.
  - constructor; [cbn; lia|]. eapply Forall_impl; [exact Htimes|]. cbn. lia.
  - eapply Forall2_trans; [|exact Hrows1|exact Hrows2]. intros r0 r1 r2. apply row_after_cons.
    cbn. intros (jt & Heq & Hin)%list_elem_of_fmap. apply Hnew, list_elem_of_fmap.
    exists jt.1. split; [done|]. rewrite <- Hjobs. by apply list_elem_of_fmap_2.
Qed.

(** The row of a decoded job. *)
Lemma row_of_job row job :
  (∀ u, uuid_from_str (uuid_hyphenated u) = Some u) → (∃ u, cr_id row = uuid_hyphenated u) →
  row_to_cron row = Ok job → cr_id row = uuid_hyphenated (cj_id job).
Proof.
  intros Hread [u Hu]. unfold row_to_cron. rewrite Hu, Hread. cbn. intros Hr.
  apply result_bind_inv in Hr as (? & _ & Hr). apply result_bind_inv in Hr as (? & _ & Hr).
  apply result_bind_inv in Hr as (? & _ & Hr). by injection Hr as <-.
Qed.

Lemma mapM_rows l jobs :
  mapM row_to_cron l = Ok jobs → Forall2 (λ row job, row_to_cron row = Ok job) l jobs.
Proof.
  revert jobs. induction l as [|row l IH]; intros jobs; cbn; [by intros [= <-]|].
  intros (job & Hj & (js & Hjs & Hr)%result_bind_inv)%result_bind_inv. injection Hr as <-.
  constructor; [done|by apply IH].
Qed.

Lemma mapM_rows_err l e :
  mapM row_to_cron l = Err e → ∃ row, row ∈ l ∧ is_ok (row_to_cron row) = false.
Proof.
  induction l as [|row l IH]; cbn; [done|]. destruct (row_to_cron row) as [job|e'] eqn:Hr; cycle 1.
  { intros _. exists row. split; [left|by rewrite Hr]. }
  cbn. destruct (mapM row_to_cron l) as [js|e']; [done|]. intros He.
  destruct (IH He) as (r & ? & ?). exists r. by split; [right|].
Qed.

(** Rows of different ids are different jobs. *)
Lemma jobs_ids l jobs :
  (∀ u, uuid_from_str (uuid_hyphenated u) = Some u) →
  (∀ row, row ∈ l → ∃ u, cr_id row = uuid_hyphenated u) →
  Forall2 (λ row job, row_to_cron row = Ok job) l jobs →
  cr_id <$> l = (λ j, uuid_hyphenated (cj_id j)) <$> jobs.
Proof.
  intros Hread Hcanon Hf2. revert Hcanon.
  induction Hf2 as [|row job l jobs Hr _ IH]; [done|]. intros Hc. cbn.
  f_equal; [apply row_of_job; [done|apply Hc; left|done]|]. apply IH. intros r ?. apply Hc. by right.
Qed.

Definition due_rows (w : world (Timed (S * list (CronJob * DateTime)))) : list CronRow :=
  base.filter (λ r, job_due (rfc3339 (clock w)) r = true) (cron_rows (store w)).

(** What a tick that started the jobs of [l] makes of a row. *)
Definition ticked (w : world (Timed (S * list (CronJob * DateTime))))
    (l : list (CronJob * DateTime)) (row row' : CronRow) : Prop :=
  if job_due (rfc3339 (clock w)) row
  then ∃ job t, (job, t) ∈ l ∧ row_to_cron row = Ok job ∧ clock w ≤ t
         ∧ moved_on (cr_cron_expression row) t row row'
  else row' = row.

(** A row the tick is done with is not due at the tick's time. *)
Lemma ticked_not_due w (until : DateTime) l row row' :
  0 ≤ clock w → until + a_year < horizon → Forall (λ jt, jt.2 ≤ until) l →
  ticked w l row row' → job_due (rfc3339 (clock w)) row' = false.
Proof.
  unfold ticked. intros Hpos Hb Hl. rewrite Forall_forall in Hl.
  destruct (job_due _ row) eqn:Hd; [|by intros ->].
  intros (job & t & Hin%Hl & _ & Ht & _ & Hm). cbn in Hin. unfold job_due.
  destruct (cron_next _ t) as [next|e].
  - destruct Hm as ([? ?] & -> & _). apply andb_false_iff. right. apply Htext; [done|lia..].
  - destruct Hm as (-> & _). done.
Qed.

(** The expression a decoded job runs on is its row's. *)
Lemma row_to_cron_expression row job :
  row_to_cron row = Ok job → cron_expression job = cr_cron_expression row.
Proof.
  unfold row_to_cron. intros (? & _ & Hr)%result_bind_inv. apply result_bind_inv in Hr as (? & _ & Hr).
  apply result_bind_inv in Hr as (? & _ & Hr). apply result_bind_inv in Hr as (? & _ & Hr).
  by injection Hr as <-.
Qed.

Lemma nodup_fmap_eq {A B} (f : A → B) l x y :
  NoDup (f <$> l) → x ∈ l → y ∈ l → f x = f y → x = y.
Proof.
  intros Hnd [i Hi]%list_elem_of_lookup [j Hj]%list_elem_of_lookup Heq.
  assert (i = j) as -> by (eapply (NoDup_lookup _ i j); [exact Hnd| |];
    rewrite list_lookup_fmap, ?Hi, ?Hj; cbn; by rewrite ?Heq).
  congruence.
Qed.

(** From what the started jobs make of the rows to what the tick makes of them. *)
Lemma row_after_ticked w rows new row row' :
  (∀ u, uuid_from_str (uuid_hyphenated u) = Some u) → crons_ok (cron_rows (store w)) →
  rows ≡ₚ due_rows w → Forall2 (λ row job, row_to_cron row = Ok job) rows new.*1 →
  Forall (λ jt, clock w ≤ jt.2) new → row ∈ cron_rows (store w) →
  row_after new row row' → ticked w new row row'.
Proof.
  intros Hread (Hnd & _ & Hcanon) Hperm Hf2 Htimes Hrow [Hsame Hmoved]. unfold ticked.
  destruct (job_due (rfc3339 (clock w)) row) eqn:Hdue.
  - assert (row ∈ rows) as [k Hk]%list_elem_of_lookup
      by (rewrite Hperm; by apply list_elem_of_filter).
    destruct (Forall2_lookup_l _ _ _ _ _ Hf2 Hk) as (job & Hj & Hdec).
    apply list_lookup_fmap_Some in Hj as ([job' t] & -> & Hj). cbn in Hdec.
    pose proof (list_elem_of_lookup_2 _ _ _ Hj) as Hin. exists job', t.
    rewrite Forall_forall in Htimes. split_and!; [done|done|by apply (Htimes _ Hin)|].
    rewrite <- (row_to_cron_expression _ _ Hdec). apply (Hmoved _ Hin).
    by apply row_of_job; [|apply Hcanon|].
  - apply Hsame. intros [job t] Hin Heq. cbn in Heq.
    apply list_elem_of_lookup in Hin as [k Hk].
    assert (new.*1 !! k = Some job) as Hj by by rewrite list_lookup_fmap, Hk.
    destruct (Forall2_lookup_r _ _ _ _ _ Hf2 Hj) as (row0 & Hk0 & Hdec).
    apply list_elem_of_lookup_2 in Hk0. rewrite Hperm in Hk0.
    apply list_elem_of_filter in Hk0 as [Hd0 Hin0].
    assert (cr_id row0 = cr_id row) as Hid
      by (rewrite Heq; by apply row_of_job; [|apply Hcanon|]).
    apply (nodup_fmap_eq cr_id (cron_rows (store w))) in Hid; [congruence|done..].
Qed.

(** C37: A tick starts every due job once, in the order they fell due, and nothing
    else; a job's failed start does not keep the others from starting. Of the
    database it changes exactly the rows of the jobs it started, and of these only
    when they run: a job done with at [t] gets [t] as its last run and its
    expression's next time after [t] as its next, or, where the expression has none,
    is disabled and otherwise left as it was. So nothing is due any more at the time
    the tick began, and another tick at that time would start nothing. If a due row
    cannot be read, no job starts and nothing changes. Assumed are what the schema
    and the code that writes the rows maintain (ids distinct and in canonical
    spelling, which reads back), that times sort as their texts do up to a horizon a
    year beyond the tick, the calendar's start of the minute, and that the clock does
    not go back during a launch. Nothing else writes the rows during the tick. *)
Theorem cron_tick_once (w : world (Timed (S * list (CronJob * DateTime))))
    (Hread : ∀ u, uuid_from_str (uuid_hyphenated u) = Some u)
    (Hok : crons_ok (cron_rows (store w))) (Hnone : started w = [])
    (Hpos : 0 ≤ clock w) (Hbound : clock (cron_tick recording w).2 + a_year < horizon) :
  let '(r, w') := cron_tick recording w in
  match r with
  | Ok _ => (∃ rows, rows ≡ₚ due_rows w ∧ Sorted runs_earlier rows
        ∧ Forall2 (λ row job, row_to_cron row = Ok job) rows (started w').*1)
      ∧ NoDup (cj_id <$> (started w').*1)
      ∧ Forall2 (ticked w (started w')) (cron_rows (store w)) (cron_rows (store w'))
      ∧ crons_only w w'
      ∧ ∀ row, row ∈ cron_rows (store w') → job_due (rfc3339 (clock w)) row = false
  | Err _ => (∃ row, row ∈ due_rows w ∧ is_ok (row_to_cron row) = false) ∧ w' = w
  end.
Proof.
  unfold cron_tick in *.
  set (rows := merge_sort runs_earlier (scan (due_rows w))).
  assert (rows ≡ₚ due_rows w) as Hperm by (unfold rows; by rewrite merge_sort_Permutation, scan_perm).
  assert (list_due_jobs w = (mapM row_to_cron rows, w)) as Hl by done.
  assert (∀ k : list CronJob → eff (Timed (S * list (CronJob * DateTime))) string unit,
    (list_due_jobs ≫= k) w = match mapM row_to_cron rows with Ok l => k l w | Err e => (Err e, w) end)
    as Hrun by (intros k; unfold mbind, eff_bind; rewrite Hl; by destruct (mapM _ _)).
  rewrite Hrun in Hbound |- *.
  destruct (mapM row_to_cron rows) as [jobs|e] eqn:Hrows; cycle 1.
  { split; [|done]. by destruct (mapM_rows_err _ _ Hrows) as (row & Hin & ?); exists row; rewrite Hperm in Hin. }
  pose proof (mapM_rows _ _ Hrows) as Hf2. pose proof Hok as (Hnd & _ & Hcanon).
  assert (NoDup ((λ j, uuid_hyphenated (cj_id j)) <$> jobs)) as Hids.
  { rewrite <- (jobs_ids rows); [|done| |done].
    - rewrite Hperm. eapply sublist_NoDup; [exact Hnd|]. apply fmap_sublist, sublist_filter.
    - intros row. rewrite Hperm. intros [_ Hrow]%list_elem_of_filter. by apply Hcanon. }
  pose proof (run_jobs_spec jobs w Hids) as Hs. destruct (for_each jobs _ w) as [r w'].
  destruct Hs as (-> & _ & Honly & new & Hst & Hjobs & Htimes & Hafter).
  rewrite Hnone in Hst. cbn [app] in Hst. rewrite Hst. rewrite <- Hjobs in Hf2.
  assert (Forall2 (ticked w new) (cron_rows (store w)) (cron_rows (store w'))) as Hticked.
  { apply Forall2_same_length_lookup. split; [by eapply Forall2_length|]. intros k row row' Hk Hk'.
    apply (row_after_ticked w rows); [done..| |by eapply list_elem_of_lookup_2|].
    - eapply Forall_impl; [exact Htimes|]. by intros ? [? _].
    - by eapply Forall2_lookup_lr. }
  split_and!.
  - exists rows. split_and!; [done|apply (Sorted_merge_sort runs_earlier)|done].
  - rewrite Hjobs. apply (NoDup_fmap_1 uuid_hyphenated). by rewrite <- list_fmap_compose.
  - exact Hticked.
  - apply Honly.
  - intros row' (k & Hk)%list_elem_of_lookup.
    destruct (Forall2_lookup_r _ _ _ _ _ Hticked Hk) as (row & _ & Ht).
    eapply ticked_not_due; [done|exact Hbound| |exact Ht].
    eapply Forall_impl; [exact Htimes|]. by intros ? [_ ?].
Qed.
End Cron.

(** ** Witness and examples *)

Module TimerSample.
Import IsolationSample CronSample.

#[local] Existing Instances plain_uuid text_json plain_rows plain_sql.
#[local] Instance digit_chrono : ChronoOps := {|
  rfc3339_millis := digits 63; rfc3339 := digits 63; parse_rfc3339 := read_digits 0;
  try_seconds s := Some (s * NANOS_PER_SEC); checked_add_signed t d := Some (t + d);
  duration_from_std := Some |}.

Definition job (n : N) (name expr : string) (next : DateTime) : CronJob := {|
  cj_id := n; cj_name := name; cron_expression := expr; cj_workflow_id := "w";
  cj_workflow_version := "1"; cj_input := Str "in"; enabled := true; last_run_at := None;
  next_run_at := next; cj_created_at := 0; created_by := Some "token:a"; cj_tenant_id := "default" |}.

Definition noon : DateTime := at_ 20457 12 0.
(** Three jobs are due at noon: one whose start fails, one whose expression is not
    one; a fourth is due a minute later. *)
Definition jobs : list CronRow := cron_row <$>
  [job 1 "late" "*/15 * * * *" (noon - MINUTE); job 2 "broken" "*/5 * * * *" (noon - 2 * MINUTE);
   job 3 "bad" "every day" noon; job 4 "soon" "* * * * *" (noon + MINUTE)].
Definition launch (j : CronJob) : eff unit string unit := λ w,
  (if decide (cj_name j = "broken") then Err "refused" else Ok tt, w).
Definition at_noon : world (Timed (unit * list (CronJob * DateTime))) :=
  World (Build_Timed [] jobs ["default"] (tt, [])) noon 0%N.

Lemma launch_clock j (w : world unit) : clock w ≤ clock (launch j w).2.
Proof. reflexivity. Qed.
Lemma binary_ids_read (u : Uuid) : uuid_from_str (uuid_hyphenated u) = Some u.
Proof. cbn. rewrite read_bits_bits. cbn. by rewrite N.pos_pred_succ. Qed.
Lemma jobs_ok : crons_ok (cron_rows (store at_noon)).
Proof.
  split_and!; [by apply (bool_decide_unpack _); vm_compute| |].
  - assert (Forall (λ a, Forall (λ b, cron_clash a b = true → a = b) jobs) jobs) as Hall.
    { unfold jobs. cbn. repeat constructor; vm_compute; (reflexivity || congruence). }
    intros a b Ha Hb. rewrite Forall_forall in Hall. specialize (Hall a Ha).
    rewrite Forall_forall in Hall. by apply Hall.
  - intros r Hr. apply list_elem_of_fmap in Hr as (j & -> & _). by eexists.
Qed.

Lemma cron_tick_witness :
  let w' := (cron_tick (recording launch) at_noon).2 in
  cj_name <$> (started w').*1 = ["broken"; "late"; "bad"]
  ∧ cr_enabled <$> cron_rows (store w') = [1; 1; 0; 1]
  ∧ cr_next_run_at <$> cron_rows (store w')
    = digits 63 <$> [noon + 15 * MINUTE; noon + 5 * MINUTE; noon; noon + MINUTE]
  ∧ NoDup (cj_id <$> (started w').*1)
  ∧ Forall2 (ticked at_noon (started w')) (cron_rows (store at_noon)) (cron_rows (store w')).
Proof.
  intros w'. subst w'. do 3 (split; [vm_compute; reflexivity|]).
  assert (is_ok (cron_tick (recording launch) at_noon).1 = true) as Hr by (vm_compute; reflexivity).
  assert (0 ≤ clock at_noon) as Hpos by (vm_compute; congruence).
  assert (clock (cron_tick (recording launch) at_noon).2 + a_year < 2 ^ 63) as Hbound
    by (vm_compute; reflexivity).
  pose proof (cron_tick_once launch (2 ^ 63) (λ a b, digits_lt 63 a b) (λ s, eq_refl)
    launch_clock at_noon binary_ids_read jobs_ok eq_refl Hpos Hbound) as Hc.
  destruct (cron_tick (recording launch) at_noon) as [[[]|e] w']; [|discriminate Hr].
  destruct Hc as (_ & Hnd & Hrows & _). exact (conj Hnd Hrows).
Defined.

(** A timer whose execution id is not one stops the tick, and every tick after it:
    the timers behind it never fire. *)
#[local] Existing Instances plain_sha256 Sample.order_exec Sample.order_item Sample.order_tenant
  Sample.order_pair.
Definition timer (id execution_id : string) (at_ : DateTime) : TimerRow := {|
  tr_id := id; tr_execution_id := execution_id; tr_node_id := "wait"; tr_fire_at := digits 63 at_;
  tr_correlation_key := None; tr_fired := 0; tr_created_at := digits 63 0; tr_fired_at := None;
  tr_tenant_id := "default" |}.
Example poisoned_timers :
  let w := World (Build_Timed [timer "1" "run" 1; timer "01" "001" 2] [] ["default"]
    (store start_world)) 3 0%N in
  let w1 := (timer_tick w).2 in let w2 := (timer_tick w1).2 in
  (timer_tick w).1 = Err "bad execution_id in timer: run"
  ∧ (timer_tick w1).1 = Err "bad execution_id in timer: run"
  ∧ tr_fired <$> timer_rows (store w2) = [0; 0].
Proof. vm_compute. split_and!; reflexivity. Qed.
End TimerSample.
