(* ===== verification/ApprovalApi.v ===== *)
(** * Deciding an approval ([api/src/approvals.rs])

    [submit_approval]: every decision a person makes, checked against the run's
    log and appended in one step with its condition; the listing beside it. *)

From S2P Require Import Prelude.
From S2P Require Import Json.
From S2P Require Import RustStr.
From S2P Require Import Core.
From S2P Require Import Condition.
From S2P Require Import Ir.
From S2P Require Import Event.
From S2P Require Import Materializer.
From S2P Require Import Budget.
From S2P Require Import Hashing.
From S2P Require Import Approvals.
From S2P Require Import Backend.
From S2P Require Import Journal.
From S2P Require Import Memory.
From S2P Require Import Policy.
From S2P Require Import Agents.

Record ApprovalSubmission := {
  sub_node_id : option string;
  sub_user_id : string;
  sub_principal : option string;
  sub_decision : ApprovalDecision;
  sub_comment : option string;
  sub_state_patch : option Value;
  sub_action_digest : option string;
  sub_dev_mode : bool;
}.

Record ApprovalPolicy := { allow_self_approval : bool }.

(** [from_env], given the variable's value. *)
Definition from_env (var : option string) : ApprovalPolicy := {|
  allow_self_approval := match var with
    | Some v => bool_decide (v = "1") || eq_ignore_ascii_case v "true"
    | None => false end |}.

Module SubmitError.
Inductive SubmitError :=
| NoPending
| MultiplePending (nodes : list string)
| NodeNotPending (node : string)
| ExecutionTerminal (status : string)
| SelfApproval
| InitiatorUnknown
| StaleDigest
| DigestRequired
| PrincipalMissing
| EditsUnsupported
| Expired (node : string)
| UnreadableLog
| Superseded (node : string)
| Backend (e : string).
End SubmitError.
Abbreviation SubmitError := SubmitError.SubmitError.

(** [Display]. *)
Definition SubmitError_display (e : SubmitError) : string :=
  match e with
  | SubmitError.NoPending => "no pending approval on this execution"
  | SubmitError.MultiplePending nodes =>
      "multiple approvals pending (" +:+ str_join ", " nodes +:+ "); specify node_id"
  | SubmitError.NodeNotPending n =>
      "node '" +:+ n +:+ "' has no pending approval (unknown or already decided)"
  | SubmitError.ExecutionTerminal status =>
      "execution is " +:+ status +:+ "; approvals can no longer be decided"
  | SubmitError.SelfApproval =>
      "separation of duties: the principal that started this run cannot approve it"
  | SubmitError.InitiatorUnknown =>
      "separation of duties: this run has no recorded initiator (it predates initiator recording or was started in dev mode), so an approval cannot be shown to come from someone other than whoever started it; reject it, re-run it, or set JAMJET_ALLOW_SELF_APPROVAL=1 to allow approvals without that check"
  | SubmitError.StaleDigest =>
      "action_digest does not match the pending request; re-read the pending approval and decide again"
  | SubmitError.DigestRequired =>
      "action_digest is required to approve: echo the action_digest (or, for an agent tool dispatch, the calls_hash) from the context of the pending approval you reviewed, as listed by GET /executions/{id}/approvals"
  | SubmitError.EditsUnsupported =>
      "approval edits are not supported: a decision cannot carry a state_patch, because the action would not run on the edited state; approve or reject the action as requested"
  | SubmitError.PrincipalMissing =>
      "the decision has no authenticated principal; outside dev mode every approval decision must come from an API token"
  | SubmitError.Expired n =>
      "the approval request for node '" +:+ n
      +:+ "' expired at its deadline and can no longer be decided; it was rejected by system:deadline"
  | SubmitError.UnreadableLog => UNREADABLE_LOG_REASON
  | SubmitError.Superseded n =>
      "the approval request for node '" +:+ n
      +:+ "' was decided, expired or replaced while this decision was being made; nothing was recorded, re-read the pending approvals"
  | SubmitError.Backend e => "backend error: " +:+ e
  end.

#[export] Instance ApprovalDecision_eq_dec : EqDecision ApprovalDecision.
Proof. solve_decision. Defined.

(** ** The checks, in the code's order *)

Section Checks.
Context `{!JsonText, !ChronoOps}.

(** The node of the latest request. *)
Definition latest_requested_node (events : list Event) : option string :=
  e ← List.find (λ e, match event_kind e with
    | EventKind.ToolApprovalRequired _ _ _ _ => true | _ => false end) (rev events);
  match event_kind e with
  | EventKind.ToolApprovalRequired node_id _ _ _ => Some node_id
  | _ => None
  end.

Definition is_terminal_status (st : WorkflowStatus) : bool :=
  match st with
  | WorkflowStatus.Completed | WorkflowStatus.Failed | WorkflowStatus.Cancelled
  | WorkflowStatus.LimitExceeded => true
  | _ => false
  end.

Definition named (submission : ApprovalSubmission) : option string :=
  match sub_node_id submission with
  | Some n => if str_is_empty n then None else Some n
  | None => None
  end.

(** The node the decision is about. *)
Definition resolve_node (events : list Event) (submission : ApprovalSubmission)
    (pending : list PendingApproval) : result SubmitError string :=
  match named submission with
  | Some n =>
      if existsb (λ p, bool_decide (pa_node_id p = n)) pending then Ok n
      else if expired_by_deadline events n then Err (SubmitError.Expired n)
      else Err (SubmitError.NodeNotPending n)
  | None =>
      match pending with
      | [] => Err match latest_requested_node events with
                  | Some n => if expired_by_deadline events n then SubmitError.Expired n
                              else SubmitError.NoPending
                  | None => SubmitError.NoPending end
      | [only] => Ok (pa_node_id only)
      | many => Err (SubmitError.MultiplePending (pa_node_id <$> many))
      end
  end.

Definition check_identity (submission : ApprovalSubmission) : result SubmitError unit :=
  if negb (sub_dev_mode submission) && bool_decide (sub_principal submission = None)
  then Err SubmitError.PrincipalMissing else Ok tt.

Definition check_separation (events : list Event) (submission : ApprovalSubmission)
    (policy : ApprovalPolicy) : result SubmitError unit :=
  if bool_decide (sub_decision submission = Approved) && negb (allow_self_approval policy) then
    match run_initiator events, sub_principal submission with
    | Some initiator, Some principal =>
        if decide (initiator = principal) then Err SubmitError.SelfApproval else Ok tt
    | None, _ => if sub_dev_mode submission then Ok tt else Err SubmitError.InitiatorUnknown
    | _, _ => Ok tt
    end
  else Ok tt.

(** Binding and deadline of the request the decision answers. *)
Definition check_request (submission : ApprovalSubmission) (request : PendingApproval)
    (node_id : string) (now : DateTime) : result SubmitError unit :=
  if expired (pa_deadline request) now then Err (SubmitError.Expired node_id)
  else if negb (sub_dev_mode submission) && bool_decide (sub_decision submission = Approved)
          && bool_decide (is_Some (pa_binding request))
          && bool_decide (sub_action_digest submission = None)
  then Err SubmitError.DigestRequired
  else match sub_action_digest submission with
  | Some echoed => if decide (pa_binding request = Some echoed) then Ok tt
                   else Err SubmitError.StaleDigest
  | None => Ok tt
  end.

(** Every check of a readable log: the request, and what an approval of it
    authorises. *)
Definition check_submission (events : list Event) (submission : ApprovalSubmission)
    (policy : ApprovalPolicy) (now : DateTime)
    : result SubmitError (string * PendingApproval) :=
  let pending := pending_approvals events in
  node_id ← resolve_node events submission pending;
  _ ← check_identity submission;
  _ ← check_separation events submission policy;
  request ← ok_or (SubmitError.NodeNotPending node_id)
    (List.find (λ p, bool_decide (pa_node_id p = node_id)) pending);
  _ ← check_request submission request node_id now;
  Ok (node_id, request).

Definition approved_digest_of (submission : ApprovalSubmission) (request : PendingApproval)
    : option string :=
  match sub_decision submission with
  | Approved => pa_action_digest request
  | Rejected => None
  end.

(** The decision's event. *)
Definition decision_kind (submission : ApprovalSubmission) (node_id : string)
    (request : PendingApproval) : EventKind :=
  EventKind.ApprovalReceived node_id (sub_user_id submission) (sub_decision submission)
    (sub_comment submission) None (sub_principal submission)
    (approved_digest_of submission request) (Some (pa_sequence request)).
End Checks.

(** ** The submission *)

Section Submit.
Context `{!UuidOps, !ChronoOps, !JsonText} {S : Type} `{HB : StateBackend S}.

Abbreviation M A := (eff S SubmitError A).

(** [map_err(|e| SubmitError::Backend(e.to_string()))?]. *)
Definition backend_call {A} (m : bk S A) : M A :=
  with_err (λ e, SubmitError.Backend (StateBackendError_display e)) m.

(** A decision that passed its checks, on its way to the append: the node, the
    request it answers, the event to record, and whether the run was paused when
    it was read. *)
Record Prepared := {
  pr_node_id : string;
  pr_request : PendingApproval;
  pr_event : Event;
  pr_was_paused : bool;
}.

(** From the start to [Event::new]. *)
Definition prepare_decision (execution_id : ExecutionId) (submission : ApprovalSubmission)
    (policy : ApprovalPolicy) : M Prepared :=
  if match sub_state_patch submission with Some Null | None => false | Some _ => true end
  then raise SubmitError.EditsUnsupported
  else
    execution ← backend_call (get_execution execution_id);
    _ ← of_result match execution with
        | Some e => if is_terminal_status (status e)
                    then Err (SubmitError.ExecutionTerminal (status_debug (status e))) else Ok tt
        | None => Ok tt
        end;
    let was_paused := bool_decide (status <$> execution = Some WorkflowStatus.Paused) in
    events ← backend_call (get_events execution_id);
    if has_unreadable_events events then raise SubmitError.UnreadableLog
    else
      now ← utc_now;
      checked ← of_result (check_submission events submission policy now);
      let '(node_id, request) := (checked : string * PendingApproval) in
      event ← Event_new execution_id 0 (decision_kind submission node_id request);
      mret {| pr_node_id := node_id; pr_request := request; pr_event := event;
              pr_was_paused := was_paused |}.

(** [append_event_if] and what its answer becomes. *)
Definition commit_decision (execution_id : ExecutionId) (p : Prepared) : M Event :=
  let node_id := pr_node_id p in
  appended ← backend_call (append_event_if (pr_event p)
    (λ now log, still_open log node_id (pa_sequence (pr_request p)) now));
  match appended with
  | Appended seq => mret (set_sequence (pr_event p) seq)
  | Refused =>
      latest ← backend_call (get_events execution_id);
      now ← utc_now;
      raise (if expired_by_deadline latest node_id || pending_but_expired latest node_id now
             then SubmitError.Expired node_id else SubmitError.Superseded node_id)
  | AppendExecutionTerminal st => raise (SubmitError.ExecutionTerminal (status_debug st))
  end.

(** The legacy paused-to-running flip. *)
Definition resume_if (execution_id : ExecutionId) (was_paused : bool) : M unit :=
  if was_paused then backend_call (update_execution_status execution_id WorkflowStatus.Running)
  else mret tt.

Definition submit_approval (execution_id : ExecutionId) (submission : ApprovalSubmission)
    (policy : ApprovalPolicy) : M (string * Event) :=
  p ← prepare_decision execution_id submission policy;
  event ← commit_decision execution_id p;
  resume_if execution_id (pr_was_paused p) ≫= λ _, mret (pr_node_id p, event).
End Submit.

(** ** The listing *)

Section View.
Context `{!JsonText, !ChronoOps}.

(** [nodes.sort(); nodes.dedup()]. *)
Fixpoint dedup (l : list string) : list string :=
  match l with
  | x :: ((y :: _) as l') => if decide (x = y) then dedup l' else x :: dedup l'
  | _ => l
  end.

Definition requested_nodes (events : list Event) : list string :=
  dedup (sort_strings (omap (λ e, match event_kind e with
    | EventKind.ToolApprovalRequired node_id _ _ _ => Some node_id
    | _ => None
    end) events)).

(** [Serialize for PendingApproval]. *)
Definition pending_to_value (p : PendingApproval) : Value :=
  obj ([("node_id", Str (pa_node_id p)); ("tool_name", Str (pa_tool_name p));
        ("approver", Str (pa_approver p)); ("context", pa_context p);
        ("sequence", num (pa_sequence p))]
       ++ match pa_expires_at p with Some t => [(EXPIRES_AT_KEY, Str t)] | None => [] end
       ++ match pa_escalate_at p with Some t => [(ESCALATE_AT_KEY, Str t)] | None => [] end).

Definition decided_view (events : list Event) (n : string) : Value :=
  match node_approval_status events n with
  | StatusApproved user_id seq approved_digest =>
      obj [("node_id", Str n); ("status", Str "approved"); ("user_id", Str user_id);
           ("sequence", num seq); ("approved_digest", opt_val Str approved_digest)]
  | StatusRejected user_id comment seq =>
      obj [("node_id", Str n); ("status", Str "rejected"); ("user_id", Str user_id);
           ("comment", opt_val Str comment); ("sequence", num seq)]
  | _ => obj [("node_id", Str n); ("status", Str "unknown")]
  end.

(** Nodes asked about and not pending. *)
Definition decided_nodes (events : list Event) : list string :=
  base.filter (λ n, existsb (λ p, bool_decide (pa_node_id p = n)) (pending_approvals events)
                    = false) (requested_nodes events).

Definition approvals_view (events : list Event) : Value :=
  obj [("pending", Array (pending_to_value <$> pending_approvals events));
       ("decided", Array (decided_view events <$> decided_nodes events))].
End View.
