(* ===== verification/ApprovalDecide.v ===== *)
(** * What a recorded decision means ([api/src/approvals.rs])

    When a submission passes its checks, what its append does whatever happened
    in between, what a refused one leaves, and that an approval releases the
    action it was asked for. *)

From S2P Require Import Prelude.
From S2P Require Import Json.
From S2P Require Import RustStr.
From S2P Require Import Core.
From S2P Require Import Condition.
From S2P Require Import Ir.
From S2P Require Import Event.
From S2P Require Import Materializer.
From S2P Require Import Budget.
From S2P Require Import Hashing.
From S2P Require Import Approvals.
From S2P Require Import Backend.
From S2P Require Import Journal.
From S2P Require Import Memory.
From S2P Require Import Lease.
From S2P Require Import MemoryLaws.
From S2P Require Import Segment.
From S2P Require Import Policy.
From S2P Require Import ToolDispatch.
From S2P Require Import AgentLimits.
From S2P Require Import AgentSteps.
From S2P Require Import Agents.
From S2P Require Import DispatchGuard.
From S2P Require Import NodeGuard.
From S2P Require Import GuardCorrect.
From S2P Require Import GuardSound.
From S2P Require Import ApprovalApi.

(** ** The checks *)

Section Checks.
Context `{!JsonText, !ChronoOps}.

(** Whoever decides is known, and is not the principal whose run they approve. *)
Definition separated (events : list Event) (submission : ApprovalSubmission)
    (policy : ApprovalPolicy) : Prop :=
  (sub_dev_mode submission = false → is_Some (sub_principal submission))
  ∧ (sub_decision submission = Approved → allow_self_approval policy = false →
     match run_initiator events with
     | Some initiator => sub_principal submission ≠ Some initiator
     | None => sub_dev_mode submission = true
     end).

(** The decision was made against this very request. *)
Definition echoes (submission : ApprovalSubmission) (request : PendingApproval) : Prop :=
  (∀ d, sub_action_digest submission = Some d → pa_binding request = Some d)
  ∧ (sub_dev_mode submission = false → sub_decision submission = Approved →
     is_Some (pa_binding request) → is_Some (sub_action_digest submission)).

(** [request] is the open request of [node] the submission names, or the only
    one open if it names none; it can still be decided, by this caller. *)
Definition may_decide (events : list Event) (submission : ApprovalSubmission)
    (policy : ApprovalPolicy) (now : DateTime) (node : string) (request : PendingApproval) : Prop :=
  open_request events node request
  ∧ match named submission with
    | Some n => n = node
    | None => pending_approvals events = [request]
    end
  ∧ expired (pa_deadline request) now = false
  ∧ separated events submission policy
  ∧ echoes submission request.

Lemma open_request_unique events n p q :
  open_request events n p → open_request events n q → p = q.
Proof. rewrite <- !pending_fold. congruence. Qed.

Lemma find_pending events n p :
  List.find (λ p, bool_decide (pa_node_id p = n)) (pending_approvals events) = Some p
  ↔ open_request events n p.
Proof.
  split.
  - intros [Hin Hn]%find_some. apply bool_decide_eq_true in Hn as <-.
    by apply elem_of_pending_approvals, list_elem_of_In.
  - intros Ho. pose proof (open_request_node _ _ _ Ho) as Hn.
    destruct (List.find _ _) as [q|] eqn:Hf.
    + apply find_some in Hf as [Hin Hq]. apply bool_decide_eq_true in Hq as <-.
      f_equal. eapply open_request_unique; [|exact Ho].
      by apply elem_of_pending_approvals, list_elem_of_In.
    + pose proof (find_none _ _ Hf p) as Hnone. simpl in Hnone.
      rewrite bool_decide_eq_true_2 in Hnone by exact Hn. discriminate Hnone.
      apply list_elem_of_In, elem_of_pending_approvals. by rewrite Hn.
Qed.

Lemma resolve_node_correct events submission n :
  resolve_node events submission (pending_approvals events) = Ok n ↔
  ∃ p, open_request events n p
    ∧ match named submission with Some m => m = n | None => pending_approvals events = [p] end.
Proof.
  unfold resolve_node. destruct (named submission) as [m|].
  - destruct (existsb _ _) eqn:He.
    + apply existsb_exists in He as (p & Hin & Hp). apply bool_decide_eq_true in Hp as <-.
      assert (open_request events (pa_node_id p) p)
        by by apply elem_of_pending_approvals, list_elem_of_In.
      split; [intros [= <-]; eauto|by intros (? & _ & <-)].
    + split; [by destruct (expired_by_deadline _ _)|]. intros (p & Ho & ->). exfalso.
      apply find_pending, find_some in Ho as [Hin Hp].
      rewrite <- not_true_iff_false in He. apply He, existsb_exists. eauto.
  - destruct (pending_approvals events) as [|p [|q ps]] eqn:Hps.
    + split; [done|]. intros (p & _ & ?). done.
    + split.
      * intros [= <-]. exists p. split; [|done]. apply elem_of_pending_approvals. rewrite Hps. left.
      * intros (q & Ho & [= ->]). by rewrite (open_request_node _ _ _ Ho).
    + split; [done|]. intros (? & _ & ?). done.
Qed.

Lemma check_identity_ok submission :
  check_identity submission = Ok tt ↔
  (sub_dev_mode submission = false → is_Some (sub_principal submission)).
Proof.
  unfold check_identity. destruct (sub_dev_mode submission), (sub_principal submission);
    simpl; split; try done; eauto. intros Hs. by destruct Hs.
Qed.

Lemma check_separation_ok events submission policy :
  check_separation events submission policy = Ok tt ↔
  (sub_decision submission = Approved → allow_self_approval policy = false →
   match run_initiator events with
   | Some initiator => sub_principal submission ≠ Some initiator
   | None => sub_dev_mode submission = true
   end).
Proof.
  unfold check_separation.
  destruct (sub_decision submission), (allow_self_approval policy); simpl; try done.
  destruct (run_initiator events) as [i|].
  - destruct (sub_principal submission) as [p|]; [case_decide as Hd; subst|];
      split; try done; try naive_solver. 
  - destruct (sub_dev_mode submission); split; try done. intros Hd. by specialize (Hd eq_refl eq_refl).
Qed.

Lemma check_request_ok submission request node now :
  check_request submission request node now = Ok tt ↔
  expired (pa_deadline request) now = false ∧ echoes submission request.
Proof.
  unfold check_request, echoes. destruct (expired _ _); [naive_solver|].
  destruct (sub_action_digest submission) as [d|], (pa_binding request) as [b|],
    (sub_dev_mode submission), (sub_decision submission); simpl;
    try case_decide; simplify_eq; naive_solver.
Qed.

Lemma check_submission_ok events submission policy now node request :
  check_submission events submission policy now = Ok (node, request) ↔
  may_decide events submission policy now node request.
Proof.
  unfold check_submission, may_decide, separated. split.
  - intros (n & Hn & Hk)%result_bind_inv. apply result_bind_inv in Hk as ([] & Hi & Hk).
    apply result_bind_inv in Hk as ([] & Hs & Hk). apply result_bind_inv in Hk as (q & Hq & Hk).
    apply result_bind_inv in Hk as ([] & Hr & [= -> ->]).
    unfold ok_or in Hq. destruct (List.find _ _) as [q'|] eqn:Hf; [|done]. injection Hq as ->.
    apply find_pending in Hf. apply resolve_node_correct in Hn as (p & Hp & Hnamed).
    rewrite (open_request_unique _ _ _ _ Hp Hf) in Hnamed.
    apply check_request_ok in Hr as [Hex Hecho].
    by rewrite check_identity_ok in Hi; rewrite check_separation_ok in Hs.
  - intros (Ho & Hnamed & Hex & [Hi Hs] & He).
    rewrite (proj2 (resolve_node_correct events submission node)) by eauto.
    cbn [mbind result_bind].
    rewrite (proj2 (check_identity_ok _) Hi), (proj2 (check_separation_ok _ _ _) Hs).
    rewrite (proj2 (find_pending _ _ _) Ho). cbn [mbind result_bind ok_or].
    by rewrite (proj2 (check_request_ok _ _ _ _)).
Qed.
End Checks.

(** ** The append *)

Section Decide.
Context `{!UuidOps, !ChronoOps, !JsonText, !Sha256Ops, !GuardSerde} {S : Type}
  `{HL : StateBackendLaws S}.

(** A run can still be decided on: it exists and has not ended. *)
Definition live (s : S) (id : ExecutionId) : Prop :=
  ∃ e, view_execution s id = Some e ∧ WorkflowStatus.is_terminal (status e) = false.

(** The node's status once the submission is recorded under [seq]. *)
Definition decided_status (submission : ApprovalSubmission) (request : PendingApproval)
    (seq : EventSequence) : NodeApprovalStatus :=
  match sub_decision submission with
  | Approved => StatusApproved (sub_user_id submission) seq (pa_action_digest request)
  | Rejected => StatusRejected (sub_user_id submission) (sub_comment submission) seq
  end.

(** A request of the node recorded at [r] is open and in time, in a log this
    build can read. *)
Definition open_at (events : list Event) (node : string) (r : EventSequence) (now : DateTime) : Prop :=
  has_unreadable_events events = false
  ∧ ∃ p, open_request events node p ∧ pa_sequence p = r ∧ expired (pa_deadline p) now = false.

Lemma backend_call_run {A B} (m : bk S A) (k : A → eff S SubmitError B) w r w' :
  m w = (r, w') →
  (backend_call m ≫= k) w = match r with
    | Ok a => k a w'
    | Err e => (Err (SubmitError.Backend (StateBackendError_display e)), w')
    end.
Proof. apply with_err_run. Qed.

(** Preparing a decision writes nothing. *)
Lemma prepare_reads id submission policy (w : world S) :
  store (prepare_decision id submission policy w).2 = store w.
Proof.
  unfold prepare_decision. case_match; [done|].
  rewrite (backend_call_run _ _ _ _ _ (law_get_execution id w)), of_result_run.
  destruct (view_execution (store w) id) as [e|];
    [destruct (is_terminal_status _); [done|]|];
    rewrite (backend_call_run _ _ _ _ _ (law_get_events id w));
    (destruct (has_unreadable_events _); [done|]); rewrite bind_now, of_result_run;
    by destruct (check_submission _ _ _ _) as [[n r]|e'].
Qed.

Lemma prepare_ok id submission policy p (w w' : world S) :
  prepare_decision id submission policy w = (Ok p, w') →
  may_decide (view_log (store w) id) submission policy (clock w) (pr_node_id p) (pr_request p)
  ∧ has_unreadable_events (view_log (store w) id) = false
  ∧ event_execution_id (pr_event p) = id
  ∧ event_kind (pr_event p) = decision_kind submission (pr_node_id p) (pr_request p)
  ∧ pr_was_paused p = bool_decide
      (status <$> view_execution (store w) id = Some WorkflowStatus.Paused).
Proof.
  unfold prepare_decision. case_match; [done|].
  rewrite (backend_call_run _ _ _ _ _ (law_get_execution id w)), of_result_run.
  set (st := match view_execution (store w) id with Some _ => _ | None => _ end).
  destruct st as [[]|e']; [|done]. rewrite (backend_call_run _ _ _ _ _ (law_get_events id w)).
  destruct (has_unreadable_events _) eqn:Hun; [done|]. rewrite bind_now, of_result_run.
  destruct (check_submission _ _ _ _) as [[n r]|e'] eqn:Hc; [|done].
  apply check_submission_ok in Hc. by intros [= <- <-].
Qed.

Lemma open_request_stays (log log' : list Event) n p q :
  open_request log n p → log `prefix_of` log' → log_sorted log' →
  open_request log' n q → pa_sequence q = pa_sequence p → q = p.
Proof.
  intros (pre & ev & post & -> & Hev & _) [ext Hext] Hsorted (pre' & ev' & post' & Hlog' & Hev' & _)
    Hseq.
  destruct (request_of_spec _ _ _ Hev) as [_ Hs1]. destruct (request_of_spec _ _ _ Hev') as [_ Hs2].
  assert (ev' = ev) as ->; [|congruence].
  eapply (log_sorted_inj log'); [exact Hsorted|rewrite Hlog'; set_solver|rewrite Hext; set_solver|lia].
Qed.

Lemma commit_ok id p ev (w w' : world S) :
  event_execution_id (pr_event p) = id → commit_decision id p w = (Ok ev, w') →
  open_at (view_log (store w) id) (pr_node_id p) (pa_sequence (pr_request p)) (clock w)
  ∧ live (store w) id
  ∧ (∃ seq, ev = set_sequence (pr_event p) seq)
  ∧ view_log (store w') id = view_log (store w) id ++ [ev]
  ∧ (∀ i, i ≠ id → view_log (store w') i = view_log (store w) i)
  ∧ same_runs (store w) (store w').
Proof.
  intros Hid. unfold commit_decision.
  match goal with |- context [backend_call (append_event_if ?e ?c)] =>
    destruct (append_event_if e c w) as [r w1] eqn:Happ end.
  rewrite (backend_call_run _ _ _ _ _ Happ). destruct r as [[seq| |st]|e]; [| | |done].
  - intros [= <- <-]. destruct (law_append_event_if_open _ _ _ _ _ Happ) as (e & He & Ht).
    assert (∀ i, i ≠ event_execution_id (pr_event p) → view_log (store w1) i = view_log (store w) i)
      as Hother by (intros i; by eapply law_append_event_if_other).
    destruct (law_append_event_if _ _ _ _ _ Happ) as (Hruns & Hopen & Hlog).
    rewrite Hid in *. split_and!; try done; [|by exists e|by exists seq].
    by apply still_open_spec.
  - rewrite (backend_call_run _ _ _ _ _ (law_get_events id w1)). by rewrite bind_now.
  - done.
Qed.

Lemma commit_err id p e (w w' : world S) :
  event_execution_id (pr_event p) = id → commit_decision id p w = (Err e, w') →
  (∀ i, view_log (store w') i = view_log (store w) i) ∧ same_runs (store w) (store w').
Proof.
  intros Hid. unfold commit_decision.
  match goal with |- context [backend_call (append_event_if ?e ?c)] =>
    destruct (append_event_if e c w) as [r w1] eqn:Happ end.
  rewrite (backend_call_run _ _ _ _ _ Happ).
  destruct (law_append_event_if _ _ _ _ _ Happ) as (Hruns & Hlog).
  destruct r as [[seq| |st]|e']; simpl in Hlog.
  - done.
  - rewrite (backend_call_run _ _ _ _ _ (law_get_events id w1)), bind_now. by intros [= _ <-].
  - by intros [= _ <-].
  - by intros [= _ <-].
Qed.

Lemma status_decided log submission node request ev :
  has_unreadable_events log = false → open_request log node request →
  event_kind ev = decision_kind submission node request →
  node_approval_status (log ++ [ev]) node = decided_status submission request (sequence ev).
Proof.
  intros Hun Ho Hk. rewrite node_approval_status_spec. unfold has_unreadable_events in *.
  rewrite existsb_app, Hun, foldl_app. simpl.
  apply pending_fold in Ho as ->. unfold is_unknown, approval_step, decided_status. rewrite Hk.
  unfold decision_kind, approved_digest_of. simpl. rewrite decide_True by done.
  by destruct (sub_decision submission).
Qed.

(** C28: A decision is recorded only for the request it was checked against,
    while that request can still be decided. Other writers may append in between
    (that they only append, in ascending sequence, is assumed). The one event
    appended answers the request checked: the named node's open one or, where none
    is named, the only one open; it is then open and before its deadline, the run
    has not ended, and no other log, run or item changes. Outside dev mode the
    caller is identified. The run's recorded initiator may not approve it unless
    the policy allows self-approval (without a recorded initiator only dev mode
    approves); a rejection is free of this. A digest the caller submits must be the
    request's own; an approval outside dev mode must submit it where the request
    carries one, while a rejection, or an approval of a request without one, need
    not. The node's status is then the decision, an approval releasing exactly the
    digest of the request. *)
Theorem decision_recorded_sound id submission policy p (w w1 w2 w3 : world S) ev :
  prepare_decision id submission policy w = (Ok p, w1) →
  view_log (store w) id `prefix_of` view_log (store w2) id → log_sorted (view_log (store w2) id) →
  commit_decision id p w2 = (Ok ev, w3) →
  let node := pr_node_id p in let request := pr_request p in
  may_decide (view_log (store w) id) submission policy (clock w) node request
  ∧ live (store w2) id
  ∧ open_request (view_log (store w2) id) node request
  ∧ expired (pa_deadline request) (clock w2) = false
  ∧ event_kind ev = decision_kind submission node request
  ∧ view_log (store w3) id = view_log (store w2) id ++ [ev]
  ∧ (∀ i, i ≠ id → view_log (store w3) i = view_log (store w2) i)
  ∧ same_runs (store w2) (store w3)
  ∧ node_approval_status (view_log (store w3) id) node
    = decided_status submission request (sequence ev).
Proof.
  intros Hp Hpre Hsorted Hc node request. apply prepare_ok in Hp as (Hmay & _ & Hid & Hk & _).
  apply commit_ok in Hc as ((Hun & q & Hq & Hqs & Hex) & Hlive & [seq ->] & Hlog & Hother & Hruns);
    [|done].
  assert (q = request) as -> by by eapply open_request_stays; [apply Hmay|..].
  assert (event_kind (set_sequence (pr_event p) seq) = decision_kind submission node request)
    as Hk' by done.
  split_and!; try done; try apply Hruns. rewrite Hlog. by apply status_decided.
Qed.

(** A submission that is refused records nothing: no log, run or work item
    changes. The one error after a recorded decision is a backend failure of
    the paused run's resumption. *)
Theorem submit_refused_writes_nothing id submission policy e (w w' : world S) :
  submit_approval id submission policy w = (Err e, w') →
  (∀ i, view_log (store w') i = view_log (store w) i) ∧ same_runs (store w) (store w')
  ∨ (∃ cause, e = SubmitError.Backend cause)
    ∧ status <$> view_execution (store w) id = Some WorkflowStatus.Paused
    ∧ ∃ node request ev,
        may_decide (view_log (store w) id) submission policy (clock w) node request
        ∧ view_log (store w') id = view_log (store w) id ++ [ev]
        ∧ event_kind ev = decision_kind submission node request.
Proof.
  unfold submit_approval. pose proof (prepare_reads id submission policy w) as Hst.
  destruct (prepare_decision id submission policy w) as [[p|e1] w1] eqn:Hp; cbn [snd] in Hst.
  2:{ unfold mbind at 1, eff_bind. rewrite Hp. intros [= _ <-]. left. by rewrite Hst. }
  rewrite (bind_run _ _ _ _ _ Hp). apply prepare_ok in Hp as (Hmay & Hun & Hid & Hk & Hpaused).
  destruct (commit_decision id p w1) as [[ev|e2] w2] eqn:Hc.
  2:{ unfold mbind at 1, eff_bind. rewrite Hc. intros [= _ <-]. left. rewrite <- Hst.
      by apply commit_err in Hc. }
  rewrite (bind_run _ _ _ _ _ Hc).
  apply commit_ok in Hc as (_ & _ & [seq ->] & Hlog & _ & _); [|done]. rewrite Hst in Hlog.
  unfold resume_if. rewrite Hpaused. case_bool_decide as Hb; [|done].
  destruct (update_execution_status id WorkflowStatus.Running w2) as [r w3] eqn:Hu.
  apply law_update_status in Hu as Hlaw. destruct Hlaw as (_ & Hsame & _).
  rewrite (backend_call_run _ _ _ _ _ Hu). destruct r as [[]|e3]; [done|]. intros [= <- <-].
  right. split; [eauto|]. split; [done|]. exists (pr_node_id p), (pr_request p), (set_sequence (pr_event p) seq).
  split_and!; [done| |done]. by rewrite Hsame.
Qed.

(** ** From the hold to the release *)

(** What the node's guard asks an approval to cover. *)
Definition current_digest (s : S) (id : ExecutionId) (node definition : string) (payload : Value)
    : string := ab_digest (basis_at s id node definition payload) node.

Lemma current_digest_same s s' id node definition payload evs :
  view_log s' id = view_log s id ++ evs →
  Forall (λ e, is_completion_of node e = false) evs →
  current_digest s' id node definition payload = current_digest s id node definition payload.
Proof.
  intros Hl Hevs. unfold current_digest, basis_at. do 3 f_equal. rewrite Hl, list.filter_app.
  assert (base.filter (λ e, is_completion_of node e = true) evs = []) as ->.
  { clear Hl. induction Hevs as [|e evs He _ IH]; [done|]. by rewrite filter_cons_False by (by rewrite He). }
  by rewrite app_nil_r.
Qed.

Lemma require_approval_allows id node def payload tool approver context dl tenant sl (w : world S) :
  approved_now (store w) id node def payload →
  require_approval id node def payload tool approver context dl tenant sl false w
    = (Ok GuardOutcome.Allow, w).
Proof.
  intros (definition & Hd & Hcov). unfold require_approval.
  rewrite (with_err_run _ _ _ _ _ _ (law_get_events id w)).
  destruct (node_approval_status (view_log (store w) id) node) as [| |u s d| |]; try done.
  rewrite of_result_run, Hd. cbn [map_err].
  rewrite (with_err_run _ _ _ _ _ _ (action_basis_run _ _ _ _ w)). by rewrite Hcov.
Qed.

Lemma stamp_deadline_keeps context d now ctx key :
  stamp_deadline context d now = Ok ctx → key ≠ EXPIRES_AT_KEY → key ≠ ESCALATE_AT_KEY →
  map_get key ctx = map_get key context.
Proof.
  unfold stamp_deadline. intros (t & _ & Hk)%result_bind_inv Hne1 Hne2.
  destruct (dl_escalate_after_secs d) as [secs|].
  - apply result_bind_inv in Hk as (t' & _ & [= <-]). by rewrite !map_get_insert_ne.
  - injection Hk as <-. by rewrite map_get_insert_ne.
Qed.

(** A request raised with a digest in its context is open with that digest. *)
Lemma raised_binds id node tenant sl tool approver context dl d (w w1 : world S) :
  raise_request id node tenant sl tool approver context dl w = (Ok tt, w1) →
  has_unreadable_events (view_log (store w) id) = false →
  map_get ACTION_DIGEST_KEY context = Some (Str d) →
  ∃ request evs,
    node_approval_status (view_log (store w1) id) node = Pending request
    ∧ pa_action_digest request = Some d
    ∧ view_log (store w1) id = view_log (store w) id ++ evs
    ∧ Forall (λ e, is_completion_of node e = false) evs.
Proof.
  intros (ctx & req & evs & Hctx & Hk & Hl & Hevs)%raise_request_log Hun Hd.
  exists (from_request node tool approver (Object ctx) (sequence req)), (req :: evs).
  split_and!; [by rewrite Hl; apply raised_status| |done|].
  - assert (map_get ACTION_DIGEST_KEY ctx = Some (Str d)) as Hd'.
    { destruct dl as [dl|]; [|by subst]. by rewrite (stamp_deadline_keeps _ _ _ _ _ Hctx). }
    unfold pa_action_digest, from_request, get. simpl. by rewrite Hd'.
  - constructor; [unfold is_completion_of; by rewrite Hk|].
    eapply Forall_impl; [exact Hevs|]. intros e He. unfold is_completion_of, is_seal_gap in *.
    by destruct (event_kind e).
Qed.

(** A node held with nothing outstanding raised a request for its digest. *)
Lemma require_approval_raises id node def payload tool approver context dl tenant sl g (w w1 : world S) :
  ¬ outstanding (store w) id node →
  require_approval id node def payload tool approver context dl tenant sl false w
    = (Ok (GuardOutcome.Held g), w1) →
  ∃ definition request evs,
    node_definition def = Ok definition
    ∧ node_approval_status (view_log (store w1) id) node = Pending request
    ∧ pa_action_digest request = Some (current_digest (store w) id node definition payload)
    ∧ view_log (store w1) id = view_log (store w) id ++ evs
    ∧ Forall (λ e, is_completion_of node e = false) evs.
Proof.
  intros Hout. unfold require_approval, outstanding in *.
  rewrite (with_err_run _ _ _ _ _ _ (law_get_events id w)).
  pose proof (readable_log (view_log (store w) id) node) as Hun.
  destruct (node_approval_status (view_log (store w) id) node); try done; specialize (Hun ltac:(done));
    rewrite of_result_run; destruct (node_definition def) as [definition|e]; try done; cbn [map_err];
    rewrite (with_err_run _ _ _ _ _ _ (action_basis_run _ _ _ _ w));
    (destruct (approval_covers _ _ && _); [done|]);
    intros ([] & w2 & Hr & [= _ <-])%bind_ok_inv; exists definition;
    (eapply raised_binds in Hr as (request & evs & Hr); [by exists request, evs|done|]);
    by rewrite !map_get_insert_ne, map_get_insert_eq by done.
Qed.

(** Without a newer request, the open request is the one that was open. *)
Lemma open_request_before log evs n p :
  open_request (log ++ evs) n p → Forall (λ e, request_of n e = None) evs → open_request log n p.
Proof.
  intros Ho Hevs. induction evs as [|ev evs IH] using rev_ind; [by rewrite app_nil_r in Ho|].
  apply Forall_app in Hevs as [Hevs Hev]. rewrite (assoc_L _) in Ho.
  apply open_request_snoc in Ho as [Hr|(Ho & _)]; [|by apply IH].
  apply Forall_cons in Hev as [Hev _]. simpl in Hev. by rewrite Hr in Hev.
Qed.

Lemma submit_ok id submission policy n ev (w w' : world S) :
  submit_approval id submission policy w = (Ok (n, ev), w') →
  ∃ request,
    may_decide (view_log (store w) id) submission policy (clock w) n request
    ∧ live (store w) id
    ∧ event_kind ev = decision_kind submission n request
    ∧ view_log (store w') id = view_log (store w) id ++ [ev]
    ∧ node_approval_status (view_log (store w') id) n
      = decided_status submission request (sequence ev).
Proof.
  unfold submit_approval. pose proof (prepare_reads id submission policy w) as Hst.
  intros (p & w1 & Hp & Hk)%bind_ok_inv. rewrite Hp in Hst. cbn [snd] in Hst.
  apply prepare_ok in Hp as (Hmay & Hun & Hid & Hkind & _).
  apply bind_ok_inv in Hk as (ev' & w2 & Hc & Hk). apply bind_ok_inv in Hk as ([] & w3 & Hr & Hk).
  injection Hk as <- <- <-.
  apply commit_ok in Hc as (_ & Hlive & [seq ->] & Hlog & _ & _); [|done]. rewrite Hst in Hlog, Hlive.
  assert (∀ i, view_log (store w3) i = view_log (store w2) i) as Hsame.
  { unfold resume_if in Hr. destruct (pr_was_paused p); [|by injection Hr as <-].
    unfold backend_call, with_err in Hr.
    destruct (update_execution_status id WorkflowStatus.Running w2) as [r w4] eqn:Hu.
    apply law_update_status in Hu as (_ & Hu & _). injection Hr as _ <-. exact Hu. }
  exists (pr_request p). rewrite Hsame, Hlog. split_and!; try done.
  apply status_decided; [done|apply Hmay|done].
Qed.

(** C12: Asking, approving and running fit together: when the guard held a node for an
    approval and nobody had asked before, then an approval of the node, through
    the API and with any other writes of the run in between that neither ask
    again nor complete the node, makes the guard let that same action run. *)
Theorem hold_approve_release id node def payload tool approver context dl tenant sl
    submission policy g n ev (w w1 w2 w3 : world S) evs :
  ¬ outstanding (store w) id node →
  require_approval id node def payload tool approver context dl tenant sl false w
    = (Ok (GuardOutcome.Held g), w1) →
  view_log (store w2) id = view_log (store w1) id ++ evs →
  Forall (λ e, request_of node e = None ∧ is_completion_of node e = false) evs →
  submit_approval id submission policy w2 = (Ok (n, ev), w3) →
  n = node → sub_decision submission = Approved →
  require_approval id node def payload tool approver context dl tenant sl false w3
    = (Ok GuardOutcome.Allow, w3).
Proof.
  intros Hout Hheld Hl2 Hevs Hsub -> Happ.
  apply require_approval_raises in Hheld as (definition & request & evs1 & Hd & Hst & Hdig & Hl1 & Hc1);
    [|done].
  apply submit_ok in Hsub as (q & (Hq & _) & _ & Hk & Hl3 & Hst3).
  apply Forall_and in Hevs as [Hreq Hcomp].
  rewrite Hl2 in Hq. apply open_request_before in Hq; [|done].
  rewrite node_approval_status_spec in Hst.
  destruct (has_unreadable_events _); [done|]. apply pending_fold in Hst.
  rewrite (open_request_unique _ _ _ _ Hq Hst) in *.
  apply require_approval_allows. exists definition. split; [done|].
  rewrite Hst3. unfold decided_status. rewrite Happ. simpl.
  rewrite Hdig. apply bool_decide_eq_true. symmetry.
  apply (current_digest_same _ _ _ _ _ _ (evs1 ++ evs ++ [ev])).
  - by rewrite Hl3, Hl2, Hl1, <- !(assoc_L _).
  - apply Forall_app. split; [done|]. apply Forall_app. split; [done|]. constructor; [|constructor].
    unfold is_completion_of. by rewrite Hk.
Qed.
End Decide.

(** ** Samples *)

Module DecideSample.
#[local] Existing Instances plain_uuid milli_chrono code_json plain_sha256 GuardSample.plain_serde.
#[local] Existing Instances Sample.order_exec Sample.order_item Sample.order_tenant
  Sample.order_pair.

Abbreviation run := SegmentSample.root (only parsing).
Abbreviation started := SegmentSample.started (only parsing).

Definition ask : eff InMemoryBackend GuardOutcome GuardOutcome :=
  require_approval run "pay" GuardSample.pay_node (obj [("input", obj [("x", num 1)])]) "wire"
    "human" (obj []) None "default" None false.
Definition asked : world InMemoryBackend := (ask started).2.

(** What the request binds. *)
Definition asked_digest : option string :=
  match pending_approvals (view_log (store asked) run) with
  | [p] => pa_binding p
  | _ => None
  end.

(** "bob" approves what "ann" started. *)
Definition approval : ApprovalSubmission := {|
  sub_node_id := Some "pay"; sub_user_id := "Bob"; sub_principal := Some "token:bob";
  sub_decision := Approved; sub_comment := None; sub_state_patch := None;
  sub_action_digest := asked_digest; sub_dev_mode := false |}.
Definition strict : ApprovalPolicy := {| allow_self_approval := false |}.

Definition paused : world InMemoryBackend :=
  (update_execution_status run WorkflowStatus.Paused asked).2.

(** A decision on a paused run, a cancellation, then the decision's resumption. *)
Definition cancel_between : world InMemoryBackend :=
  match prepare_decision run approval strict paused with
  | (Ok p, w) =>
      match commit_decision run p w with
      | (Ok _, w) =>
          let cancelled := {| event_id := 99%N; event_execution_id := run; sequence := 0;
            event_kind := EventKind.WorkflowCancelled (Some "user request"); created_at := 0 |} in
          (resume_if run (pr_was_paused p)
            (finish_execution cancelled WorkflowStatus.Cancelled w).2).2
      | (Err _, w) => w
      end
  | (Err _, w) => w
  end.

(** The late resumption reopens the run: its row says running, its log ends
    with the cancellation. *)
Example late_resume_reopens_cancelled_run :
  status <$> view_execution (store cancel_between) run = Some WorkflowStatus.Running
  ∧ event_kind <$> last (view_log (store cancel_between) run)
    = Some (EventKind.WorkflowCancelled (Some "user request")).
Proof. vm_compute. by split. Qed.

Lemma recorded_witness :
  ∃ p ev w1 w3,
    prepare_decision run approval strict asked = (Ok p, w1)
    ∧ commit_decision run p w1 = (Ok ev, w3)
    ∧ node_approval_status (view_log (store w3) run) "pay"
      = StatusApproved "Bob" (sequence ev) asked_digest.
Proof.
  assert (match prepare_decision run approval strict asked with
          | (Ok p, w1) =>
              bool_decide (pr_node_id p = "pay")
              && bool_decide (pa_action_digest (pr_request p) = asked_digest)
              && is_ok (commit_decision run p w1).1
          | _ => false end = true) as Hrun by (vm_compute; reflexivity).
  assert (log_sorted (view_log (store asked) run)) as Hs by (vm_compute; repeat constructor).
  pose proof (prepare_reads run approval strict asked) as Hst.
  destruct (prepare_decision run approval strict asked) as [[p|] w1] eqn:Hprep; [|discriminate Hrun].
  cbn [snd] in Hst. apply andb_true_iff in Hrun as [[Hn Hd]%andb_true_iff Hok].
  apply bool_decide_eq_true in Hn. apply bool_decide_eq_true in Hd.
  destruct (commit_decision run p w1) as [[ev|] w3] eqn:Hcom; [|discriminate Hok].
  exists p, ev, w1, w3. split; [done|]. split; [done|].
  destruct (decision_recorded_sound run approval strict p asked w1 w1 w3 ev) as
    (_ & _ & _ & _ & _ & _ & _ & _ & Hstatus); [done|by rewrite Hst|by rewrite Hst|done|].
  rewrite Hn in Hstatus. rewrite Hstatus. unfold decided_status. by rewrite <- Hd.
Defined.

(** The initiator's own approval is refused. *)
Definition self_approval : ApprovalSubmission := {|
  sub_node_id := None; sub_user_id := "Ann"; sub_principal := Some "ann";
  sub_decision := Approved; sub_comment := None; sub_state_patch := None;
  sub_action_digest := asked_digest; sub_dev_mode := false |}.

Lemma refused_witness :
  (submit_approval run self_approval strict asked).1 = Err SubmitError.SelfApproval
  ∧ ∀ i, view_log (store (submit_approval run self_approval strict asked).2) i
         = view_log (store asked) i.
Proof.
  assert ((submit_approval run self_approval strict asked).1 = Err SubmitError.SelfApproval) as He
    by (vm_compute; reflexivity).
  split; [exact He|].
  destruct (submit_approval run self_approval strict asked) as [r w'] eqn:Hrun. cbn [fst snd] in *.
  subst r. destruct (submit_refused_writes_nothing run self_approval strict _ asked w' Hrun)
    as [[Hl _]|((cause & Hc) & _)]; [exact Hl|discriminate Hc].
Defined.

Lemma release_witness :
  (ask started).1 = Ok (GuardOutcome.Held ["wire"])
  ∧ (ask (submit_approval run approval strict asked).2).1 = Ok GuardOutcome.Allow.
Proof.
  assert ((ask started).1 = Ok (GuardOutcome.Held ["wire"])) as Hheld by (vm_compute; reflexivity).
  assert (¬ outstanding (store started) run "pay") as Hout by (vm_compute; intros []).
  assert (match (submit_approval run approval strict asked).1 with
          | Ok (n, _) => bool_decide (n = "pay") | Err _ => false end = true) as Hsub
    by (vm_compute; reflexivity).
  split; [exact Hheld|].
  destruct (submit_approval run approval strict asked) as [[[n ev]|] w3] eqn:Hrun;
    [|discriminate Hsub].
  apply bool_decide_eq_true in Hsub. cbn [snd].
  pose proof (hold_approve_release run "pay" GuardSample.pay_node
    (obj [("input", obj [("x", num 1)])]) "wire" "human" (obj []) None "default" None approval strict
    ["wire"] n ev started asked asked w3 [] Hout) as Hrel.
  fold ask in Hrel. rewrite Hrel; [reflexivity| | |constructor|exact Hrun|exact Hsub|reflexivity].
  - exact (injective_projections _ (_, _) Hheld eq_refl).
  - by rewrite app_nil_r.
Defined.
End DecideSample.
