(* ===== verification/Worker.v ===== *)
(** * The worker ([workers/src/worker.rs], [executor.rs], [heartbeat.rs],
    [pool.rs])

    One iteration of a worker: claim an item, gate it, reserve its effect, run
    the executor, and settle. Written against the storage interface. Executors
    are what the worker is given; what other tasks do while it waits is the
    environment's. *)

From S2P Require Import Prelude.
From S2P Require Import Json.
From S2P Require Import RustStr.
From S2P Require Import Core.
From S2P Require Import Condition.
From S2P Require Import Ir.
From S2P Require Import Event.
From S2P Require Import Materializer.
From S2P Require Import Budget.
From S2P Require Import Hashing.
From S2P Require Import Approvals.
From S2P Require Import Backend.
From S2P Require Import Journal.
From S2P Require Import Memory.
From S2P Require Import Segment.
From S2P Require Import Policy.
From S2P Require Import ToolDispatch.
From S2P Require Import AgentLimits.
From S2P Require Import AgentSteps.
From S2P Require Import Agents.
From S2P Require Import DispatchGuard.
From S2P Require Import NodeGuard.
From S2P Require Import Artifact.

Definition MAX_RETRY_AFTER_SECS : Z := 3600.
Definition HEARTBEAT_INTERVAL : Z := 15 * NANOS_PER_SEC.
Definition RESERVATION_TTL : Z := 300 * NANOS_PER_SEC.
Definition RESULT_POLL_INTERVAL : Z := 250 * 1000000.
Definition RESULT_POLL_ATTEMPTS : nat := 40.

(** ** Executors ([executor.rs]) *)

Record ExecutionResult := {
  er_output : Value;
  er_state_patch : Value;
  er_duration_ms : Z;
  er_gen_ai_system : option string;
  er_gen_ai_model : option string;
  er_input_tokens : option Z;
  er_output_tokens : option Z;
  er_finish_reason : option string;
}.

Module ExecutorError.
Inductive ExecutorError := RateLimited (retry_after_secs : Z) | Fatal (msg : string).
End ExecutorError.
Abbreviation ExecutorError := ExecutorError.ExecutorError.

(** A run of an executor: the events it sends, each after some time has passed
    in which others use the store, and how it ends. *)
Definition Run (S : Type) : Type :=
  list (world S → Value * world S) * eff S ExecutorError ExecutionResult.

Record NodeExecutor (S : Type) := {
  execute : WorkItem → eff S ExecutorError ExecutionResult;
  execute_streaming : WorkItem → Run S;
}.
Arguments execute {S} _ _.
Arguments execute_streaming {S} _ _.

(** The trait's default [execute_streaming]: no event. *)
Definition plain_executor {S} (execute : WorkItem → eff S ExecutorError ExecutionResult)
    : NodeExecutor S :=
  {| execute := execute; execute_streaming := λ item, ([], execute item) |}.

(** ** State *)

(** A [spawn_heartbeat] task that is still running. *)
Record Heartbeat := { hb_item : WorkItemId; hb_worker : string; hb_fence : Z }.
#[export] Instance Heartbeat_eq_dec : EqDecision Heartbeat.
Proof. solve_decision. Defined.

(** A call of an executor: the effect on the world outside, which nothing takes
    back. *)
Record Firing := { fi_worker : string; fi_kind : string; fi_item : WorkItem; fi_key : string }.

(** The store, the heartbeats running and the executors called, latest first. *)
Record Wk (S : Type) := mkWk { wk_backend : S; beats : list Heartbeat; fired : list Firing }.
Arguments mkWk {S} _ _ _.
Arguments wk_backend {S} _.
Arguments beats {S} _.
Arguments fired {S} _.

Definition set_wk_backend {S} (b : S) (s : Wk S) := mkWk b (beats s) (fired s).
Definition set_beats {S} l (s : Wk S) := mkWk (wk_backend s) l (fired s).
Definition set_fired {S} l (s : Wk S) := mkWk (wk_backend s) (beats s) l.

(** [Box<dyn Error>]. *)
Inductive WorkerError := WBackend (e : StateBackendError) | WMessage (msg : string).

(** Code the worker calls that is not here: the derived deserializer of the IR,
    the formatting of doubles, the environment variable of the artifact
    threshold, and what other tasks do to the store while this one sleeps. *)
Class WorkerEnv (S : Type) := {
  ir_of_value : Value → result string WorkflowIr;
  f64_display : f64 → string;
  f64_display_4 : f64 → string;
  threshold_var : option string;
  sleeping : Z → world S → world S;
}.

Record Worker (S : Type) := {
  w_id : string;
  w_agents : option (string → result string (option Agent));
  w_queue_types : list string;
  w_executors : gmap string (NodeExecutor S);
  w_sealer : Sealer;
}.
Arguments w_id {S} _.
Arguments w_agents {S} _.
Arguments w_queue_types {S} _.
Arguments w_executors {S} _.
Arguments w_sealer {S} _.

Definition str_key (k : string) (v : Value) : option string := x ← get k v; as_str x.
Definition u64_key (k : string) (v : Value) : option Z := x ← get k v; as_u64 x.

Definition replayed_result (rec : Value) : ExecutionResult := {|
  er_output := default (obj []) (get "output" rec);
  er_state_patch := default (obj []) (get "state_patch" rec);
  er_duration_ms := default 0 (u64_key "duration_ms" rec);
  er_gen_ai_system := str_key "gen_ai_system" rec;
  er_gen_ai_model := str_key "gen_ai_model" rec;
  er_input_tokens := u64_key "input_tokens" rec;
  er_output_tokens := u64_key "output_tokens" rec;
  er_finish_reason := str_key "finish_reason" rec |}.

Definition parse_payload (payload : Value) : string * string :=
  (default "unknown" (str_key "workflow_id" payload),
   default "1.0.0" (str_key "workflow_version" payload)).

(** [f as u64]: toward zero, saturating. *)
Definition f64_as_u64 (f : f64) : Z :=
  match f with
  | S754_finite false m e =>
      Z.min u64_max (if decide (0 ≤ e) then Zpos m * 2 ^ e else Z.div (Zpos m) (2 ^ (- e)))
  | S754_infinity false => u64_max
  | _ => 0
  end.

(** How the part of [execute_item] before the settle ends: an early return, or
    a result to settle with the key computed on the way. *)
Inductive Attempt :=
| Returned (r : result WorkerError unit)
| Finishing (r : result ExecutorError ExecutionResult) (computed_key : option string).

Section Worker.
Context `{!UuidOps, !ChronoOps, !JsonText, !Sha256Ops, !GuardSerde} {S : Type}
  `{!WorkerEnv S} `{HB : StateBackend S} (self : Worker S).

Abbreviation M A := (eff (Wk S) WorkerError A).

(** ** The parts of the state *)

Definition on_store {E A} (m : eff S E A) : eff (Wk S) E A := λ w,
  let '(r, w') := m (World (wk_backend (store w)) (clock w) (draws w)) in
  (r, World (set_wk_backend (store w') (store w)) (clock w') (draws w')).

(** A backend call with [?]. *)
Definition call {A} (m : bk S A) : M A := with_err WBackend (on_store m).

(** A backend call whose [Result] is matched. *)
Definition call_result {A} (m : bk S A) : M (result StateBackendError A) :=
  as_result (on_store m).

(** What other tasks do to the store meanwhile. *)
Definition meanwhile (f : world S → world S) : M unit := λ w,
  let w' := f (World (wk_backend (store w)) (clock w) (draws w)) in
  (Ok tt, World (set_wk_backend (store w') (store w)) (clock w') (draws w')).

Definition spawn_heartbeat (b : Heartbeat) : M unit := modify (λ s, set_beats (b :: beats s) s).

(** [JoinHandle::abort]. *)
Definition abort (b : Heartbeat) : M unit :=
  modify (λ s, set_beats (base.filter (λ b', b' ≠ b) (beats s)) s).

(** One tick of a heartbeat task. *)
Definition heartbeat_tick (b : Heartbeat) : M unit :=
  renewed ← call_result (renew_lease (hb_item b) (hb_worker b) (hb_fence b));
  match renewed with Ok _ => mret tt | Err _ => abort b end.

Definition append_next (execution_id : ExecutionId) (kind : EventKind) : M unit :=
  latest ← call (latest_sequence execution_id);
  event ← Event_new execution_id (latest + 1) kind;
  call (append_event event) ≫= λ _, mret tt.

(** Settle an item with its terminal event; a lost fence abandons it. *)
Definition commit_or_abandon (item_id : WorkItemId) (lease_fence : Z) (execution_id : ExecutionId)
    (kind : EventKind) (snapshot : bool) : M unit :=
  terminal ← Event_new execution_id 0 kind;
  committed ← call_result (commit_turn item_id lease_fence terminal snapshot);
  match committed with
  | Ok _ | Err (FenceLost _) => mret tt
  | Err e => raise (WBackend e)
  end.

(** ** The gate *)

(** [settle_held]. *)
Definition settle_held (item_id : WorkItemId) (lease_fence : Z) : M (result WorkerError unit) :=
  settled ← call_result (complete_work_item_fenced item_id lease_fence);
  mret match settled with
  | Ok _ => Ok tt
  | Err e => Err (WMessage ("failed to settle held work item: " +:+ StateBackendError_display e))
  end.

(** [settle_outcome]: [None] runs the node. *)
Definition settle_outcome (item : WorkItem) (outcome : GuardOutcome)
    : M (option (result WorkerError unit)) :=
  match outcome with
  | GuardOutcome.Allow => mret None
  | GuardOutcome.Blocked reason =>
      r ← as_result (commit_or_abandon (wi_id item) (lease_fence item) (wi_execution_id item)
        (EventKind.NodeFailed (wi_node_id item) ("policy blocked: " +:+ reason) (attempt item) false)
        false);
      mret (Some r)
  | GuardOutcome.Unavailable reason => mret (Some (Err (WMessage reason)))
  | GuardOutcome.Held _ => r ← settle_held (wi_id item) (lease_fence item); mret (Some r)
  end.

Definition check_args (item : WorkItem) (node_def : NodeDef) (ir : WorkflowIr) : GuardArgs := {|
  ga_mode := GuardMode.Fire; ga_execution_id := wi_execution_id item;
  ga_node_id := wi_node_id item; ga_tenant_id := wi_tenant_id item;
  ga_workflow_policy := policy ir; ga_node_def := node_def; ga_payload := payload item;
  ga_sealer := w_sealer self;
  ga_agents := {| workflow_agent := agent_ref ir; scope_remote_agents := Some (remote_agents ir);
                  registry := w_agents self |};
  ga_work_item_id := Some (wi_id item) |}.

Definition check_policy (item : WorkItem) (node_def : NodeDef) (ir : WorkflowIr)
    : M (option (result WorkerError unit)) :=
  outcome ← on_store (settle (guard_item (check_args item node_def ir)));
  settle_outcome item outcome.

(** ** Budgets *)

Definition load_budget_state (execution_id : ExecutionId) : M BudgetState :=
  snap ← call_result (latest_snapshot execution_id);
  mret match snap with
  | Ok (Some s) => from_snapshot_state (snap_state s)
  | _ => BudgetState_default
  end.

(** The audit record of a budget trip, its error dropped. *)
Definition record_trip (execution_id : ExecutionId) (latest : Z) (kind : EventKind) : M unit :=
  event ← Event_new execution_id (latest + 1) kind;
  call_result (append_event event) ≫= λ _, mret tt.

Definition trip_event (node_id : string) (trip : BudgetTrip) : EventKind :=
  if decide (trip_kind trip = "cost_usd")
  then EventKind.CostBudgetExceeded node_id (limit trip) (current trip)
  else EventKind.TokenBudgetExceeded node_id (trip_kind trip) (f64_as_u64 (limit trip))
         (f64_as_u64 (current trip)).

Definition check_budget_before_execution (execution_id : ExecutionId) (node_id : string)
    (ir : WorkflowIr) (budget : BudgetState) : M (option (result WorkerError unit)) :=
  match Budget.exhausted budget (token_budget ir) (cost_budget_usd ir) with
  | None => mret None
  | Some trip =>
      latest ← call_result (latest_sequence execution_id);
      match latest with
      | Ok latest => record_trip execution_id latest (trip_event node_id trip)
      | Err _ => mret tt
      end ≫= λ _,
      mret (Some (Err (WMessage ("budget exhausted before execution: " +:+ trip_kind trip +:+ " "
        +:+ f64_display (current trip) +:+ " >= " +:+ f64_display (limit trip)))))
  end.

(** [emit_token_budget_exceeded] and the cost branch: the trip, unless the log
    cannot be read ([latest_sequence(..).ok()?]). *)
Definition emit_budget_exceeded (execution_id : ExecutionId) (kind : EventKind) (msg : string)
    : M (option (result WorkerError unit)) :=
  latest ← call_result (latest_sequence execution_id);
  match latest with
  | Ok latest => record_trip execution_id latest kind ≫= λ _, mret (Some (Err (WMessage msg)))
  | Err _ => mret None
  end.

Definition emit_token_budget_exceeded (execution_id : ExecutionId) (node_id kind : string)
    (limit current : Z) : M (option (result WorkerError unit)) :=
  emit_budget_exceeded execution_id (EventKind.TokenBudgetExceeded node_id kind limit current)
    ("token budget exceeded: " +:+ kind +:+ " " +:+ pretty current +:+ " > " +:+ pretty limit).

(** The first counter past its ceiling, in the order the code asks. *)
Definition token_overrun (tb : TokenBudgetIr) (budget : BudgetState) : option (string * Z * Z) :=
  let over kind limit current :=
    match limit with
    | Some limit => if decide (limit < current) then Some (kind, limit, current) else None
    | None => None
    end in
  match over "total_tokens" (tb_total_tokens tb) (total_tokens budget) with
  | Some t => Some t
  | None =>
      match over "input_tokens" (tb_input_tokens tb) (total_input_tokens budget) with
      | Some t => Some t
      | None => over "output_tokens" (tb_output_tokens tb) (total_output_tokens budget)
      end
  end.

(** [check_budget_after_execution] from the accumulated budget on. *)
Definition check_ceilings (execution_id : ExecutionId) (node_id : string) (ir : WorkflowIr)
    (budget : BudgetState) : M (option (result WorkerError unit)) :=
  match tb ← token_budget ir; token_overrun tb budget with
  | Some (kind, limit, current) =>
      emit_token_budget_exceeded execution_id node_id kind limit current
  | None =>
      match cost_budget_usd ir with
      | Some cost_limit =>
          if f64_lt cost_limit (total_cost_usd budget)
          then emit_budget_exceeded execution_id
            (EventKind.CostBudgetExceeded node_id cost_limit (total_cost_usd budget))
            ("cost budget exceeded: $" +:+ f64_display_4 (total_cost_usd budget) +:+ " > $"
             +:+ f64_display_4 cost_limit)
          else mret None
      | None => mret None
      end
  end.

(** The accumulated budget and the patch that carries it. *)
Definition spend (budget : BudgetState) (result : ExecutionResult) (cost_usd : option f64)
    : BudgetState * Value :=
  let budget := accumulate budget (er_input_tokens result) (er_output_tokens result) cost_usd in
  (budget, patch_into_snapshot_state budget (er_state_patch result)).

Definition with_patch (result : ExecutionResult) (patch : Value) : ExecutionResult := {|
  er_output := er_output result; er_state_patch := patch; er_duration_ms := er_duration_ms result;
  er_gen_ai_system := er_gen_ai_system result; er_gen_ai_model := er_gen_ai_model result;
  er_input_tokens := er_input_tokens result; er_output_tokens := er_output_tokens result;
  er_finish_reason := er_finish_reason result |}.

(** ** Claiming the effect *)

(** The two tries of [await_or_claim_effect]: [Some] answers its caller, [None]
    goes on to wait. *)
Fixpoint claim_tries (tries : nat) (key : string) (execution_id : ExecutionId) (node_id : string)
    (lease_fence : Z) : M (option (option Value)) :=
  match tries with
  | O => mret None
  | Datatypes.S tries =>
      outcome ← call (reserve_tool_effect key execution_id node_id (w_id self) lease_fence
        RESERVATION_TTL);
      match outcome with
      | Acquired => mret (Some None)
      | Held _ _ =>
          recorded ← call (get_tool_effect key);
          match recorded with
          | Some rec => mret (Some (Some rec))
          | None => claim_tries tries key execution_id node_id lease_fence
          end
      end
  end.

(** The wait for the other worker's result. *)
Fixpoint poll_result (polls : nat) (key : string) : M (option Value) :=
  match polls with
  | O => mret None
  | Datatypes.S polls =>
      meanwhile (sleeping RESULT_POLL_INTERVAL) ≫= λ _,
      recorded ← call (get_tool_effect key);
      match recorded with
      | Some rec => mret (Some rec)
      | None => poll_result polls key
      end
  end.

(** [Ok None]: the key is this worker's, and the caller runs the effect. *)
Definition await_or_claim_effect (key : string) (execution_id : ExecutionId) (node_id : string)
    (lease_fence : Z) : M (option Value) :=
  claimed ← claim_tries 2 key execution_id node_id lease_fence;
  match claimed with
  | Some answer => mret answer
  | None =>
      recorded ← poll_result RESULT_POLL_ATTEMPTS key;
      match recorded with
      | Some rec => mret (Some rec)
      | None => raise (WMessage ("idempotency key " +:+ key
          +:+ " is held by another worker and no result appeared; retrying rather than running the effect twice"))
      end
  end.

(** ** Running the executor *)

(** The receiver of a streaming executor's events: each is appended to the run's
    state as it arrives; the first that cannot be ends the receiver, and the
    events after it go nowhere. [failed] is its error. *)
Fixpoint receive (execution_id : ExecutionId) (sends : list (world S → Value * world S))
    (failed : option string) : M (option string) :=
  match sends with
  | [] => mret failed
  | send :: sends => λ w,
      let '(event, w1) := send (World (wk_backend (store w)) (clock w) (draws w)) in
      let w1 := World (set_wk_backend (store w1) (store w)) (clock w1) (draws w1) in
      match failed with
      | Some _ => receive execution_id sends failed w1
      | None =>
          match on_store (patch_append_array execution_id "agent_tool_events" event) w1 with
          | (Ok _, w2) => receive execution_id sends None w2
          | (Err e, w2) => receive execution_id sends
              (Some ("patch_append_array failed: " +:+ StateBackendError_display e)) w2
          end
      end
  end.

Definition record_firing (f : Firing) : M unit := modify (λ s, set_fired (f :: fired s) s).

Definition elapsed_ms (start now : Z) : Z := Z.max 0 ((now - start) / 1000000).

Definition stub_result (duration_ms : Z) : ExecutionResult := {|
  er_output := obj []; er_state_patch := obj []; er_duration_ms := duration_ms;
  er_gen_ai_system := None; er_gen_ai_model := None; er_input_tokens := None;
  er_output_tokens := None; er_finish_reason := None |}.

(** The key is ours: fire the executor of the node's kind. *)
Definition fire (item : WorkItem) (kind_tag key : string) (start : Z)
    : M (result ExecutorError ExecutionResult) :=
  match w_executors self !! kind_tag with
  | Some executor =>
      record_firing {| fi_worker := w_id self; fi_kind := kind_tag; fi_item := item;
                       fi_key := key |} ≫= λ _,
      if decide (kind_tag = "agent_tool") then
        let '(sends, ending) := execute_streaming executor item in
        failed ← receive (wi_execution_id item) sends None;
        result ← as_result (on_store ending);
        mret match failed with
        | Some e => Err (ExecutorError.Fatal e)
        | None => result
        end
      else as_result (on_store (execute executor item))
  | None => now ← utc_now; mret (Ok (stub_result (elapsed_ms start now)))
  end.

(** Replay a recorded result, or claim the key and fire. [Err]: the early return
    of a claim that failed. *)
Definition replay_or_fire (item : WorkItem) (kind_tag key : string) (start : Z)
    (recorded : option Value) : M (result WorkerError (result ExecutorError ExecutionResult)) :=
  match recorded with
  | Some rec => mret (Ok (Ok (replayed_result rec)))
  | None =>
      claimed ← as_result (await_or_claim_effect key (wi_execution_id item) (wi_node_id item)
        (lease_fence item));
      match claimed with
      | Err e => mret (Err e)
      | Ok (Some outcome) => mret (Ok (Ok (replayed_result outcome)))
      | Ok None => r ← fire item kind_tag key start; mret (Ok r)
      end
  end.

(** ** Continue-as-new *)

Definition is_boundary (e : Event) : bool :=
  match event_kind e with EventKind.SegmentBoundary _ _ => true | _ => false end.

(** [finalize_rollover_fenced], a stale fence ignored. *)
Definition finalize (execution_id : ExecutionId) (item : WorkItem) : M unit :=
  r ← call_result (finalize_rollover_fenced execution_id (wi_id item) (lease_fence item));
  match r with
  | Ok _ => mret tt
  | Err e => raise (WMessage (StateBackendError_display e))
  end.

Definition rollover_segment (item : WorkItem) (ir : WorkflowIr)
    (workflow_id workflow_version : string) : M unit :=
  let execution_id := wi_execution_id item in
  events ← call (get_events execution_id);
  if existsb is_boundary events then finalize execution_id item
  else
    found ← call (get_execution execution_id);
    exec ← of_result (ok_or (WMessage ("execution " +:+ ExecutionId_display execution_id
      +:+ " not found for rollover")) found);
    if WorkflowStatus.is_terminal (status exec) then finalize execution_id item
    else
      let next_seg := u32_add (segment_number exec) 1 in
      mat ← call (materialize execution_id);
      next_id ← call (start_next_segment execution_id mat workflow_id workflow_version next_seg
        (Ir.start_node ir) (queue_type item) (wi_tenant_id item));
      append_next execution_id
        (EventKind.SegmentBoundary next_seg (ExecutionId_display next_id)) ≫= λ _,
      finalize execution_id item.

(** ** One item *)

(** The budget after the result: an early return, or the result with its patch. *)
Definition after_execution (item : WorkItem) (ir : WorkflowIr)
    (workflow_id workflow_version : string) (hb : Heartbeat) (budget : BudgetState) (key : string)
    (result : ExecutionResult) : M Attempt :=
  let '(budget, patch) := spend budget result None in
  tripped ← check_ceilings (wi_execution_id item) (wi_node_id item) ir budget;
  match tripped with
  | Some r =>
      abort hb ≫= λ _,
      if continue_as_new ir
      then r ← as_result (rollover_segment item ir workflow_id workflow_version); mret (Returned r)
      else mret (Returned r)
  | None => mret (Finishing (Ok (with_patch result patch)) (Some key))
  end.

(** The node's branch once it may run: derive its key, replay or fire. *)
Definition run_node (item : WorkItem) (ir : WorkflowIr) (node_def : NodeDef)
    (workflow_id workflow_version : string) (hb : Heartbeat) (start : Z) (budget : BudgetState)
    : M Attempt :=
  key ← call (derive_idempotency_key (wi_execution_id item) (wi_node_id item));
  recorded ← call (get_tool_effect key);
  executed ← replay_or_fire item (node_kind_tag_of (kind node_def)) key start recorded;
  match executed with
  | Err e => abort hb ≫= λ _, mret (Returned (Err e))
  | Ok (Ok result) => after_execution item ir workflow_id workflow_version hb budget key result
  | Ok (Err e) => mret (Finishing (Err e) (Some key))
  end.

(** The node's branch of the big [match]. *)
Definition attempt_node (item : WorkItem) (ir : WorkflowIr) (node_def : NodeDef)
    (workflow_id workflow_version : string) (hb : Heartbeat) (start : Z) : M Attempt :=
  let execution_id := wi_execution_id item in
  budget ← load_budget_state execution_id;
  settled ← check_policy item node_def ir;
  match settled with
  | Some r => abort hb ≫= λ _, mret (Returned r)
  | None =>
      refused ← check_budget_before_execution execution_id (wi_node_id item) ir budget;
      match refused with
      | Some r => abort hb ≫= λ _, mret (Returned r)
      | None => run_node item ir node_def workflow_id workflow_version hb start budget
      end
  end.

Definition load_ir (workflow_id workflow_version : string) : M (result string WorkflowIr) :=
  found ← call_result (get_workflow workflow_id workflow_version);
  mret (def ← map_err StateBackendError_display found;
        def ← ok_or ("workflow " +:+ workflow_id +:+ " v" +:+ workflow_version +:+ " not found") def;
        ir_of_value (wd_ir def)).

Definition attempt_item (item : WorkItem) (hb : Heartbeat) (start : Z) : M Attempt :=
  let '(workflow_id, workflow_version) := parse_payload (payload item) in
  ir ← load_ir workflow_id workflow_version;
  match ir with
  | Err e => mret (Finishing (Err (ExecutorError.Fatal ("failed to load IR: " +:+ e))) None)
  | Ok ir =>
      match node ir (wi_node_id item) with
      | None => mret (Finishing (Err (ExecutorError.Fatal
          ("node " +:+ wi_node_id item +:+ " not found in IR"))) None)
      | Some node_def =>
          attempt_node item ir node_def workflow_id workflow_version hb start
      end
  end.

(** The event a result is recorded as. *)
Definition completed_kind (item : WorkItem) (result : ExecutionResult) (output : Value)
    (duration_ms : Z) (key : option string) : EventKind :=
  EventKind.NodeCompleted (wi_node_id item) output (er_state_patch result) duration_ms
    (er_gen_ai_system result) (er_gen_ai_model result) (er_input_tokens result)
    (er_output_tokens result) (er_finish_reason result) None None key.

Definition complete_item (item : WorkItem) (result : ExecutionResult) (key : option string)
    (duration_ms : Z) : M unit :=
  output ← call (spill_output (er_output result) (parse_threshold threshold_var));
  commit_or_abandon (wi_id item) (lease_fence item) (wi_execution_id item)
    (completed_kind item result output duration_ms key) true.

Definition fail_item (item : WorkItem) (error : string) : M unit :=
  commit_or_abandon (wi_id item) (lease_fence item) (wi_execution_id item)
    (EventKind.NodeFailed (wi_node_id item) error (attempt item) false) false.

(** Back to the queue until the provider takes calls again; the key is given
    back and [NodeParked] appended once the park has landed. *)
Definition park_item (item : WorkItem) (key : option string) (retry_after_secs next_attempt : Z)
    : M unit :=
  now ← utc_now;
  let retry_after := rfc3339 (now + Z.min retry_after_secs MAX_RETRY_AFTER_SECS * NANOS_PER_SEC) in
  parked ← call (park_work_item (wi_id item) (lease_fence item) retry_after next_attempt);
  if parked : bool then
    match key with
    | Some k => call_result (release_tool_reservation k (w_id self) (lease_fence item)) ≫= λ _, mret tt
    | None => mret tt
    end ≫= λ _,
    recover (append_next (wi_execution_id item)
      (EventKind.NodeParked (wi_node_id item) next_attempt retry_after)) (λ _, mret tt)
  else mret tt.

(** The [match result] at the end of [execute_item]. *)
Definition settle_result (item : WorkItem) (r : result ExecutorError ExecutionResult)
    (key : option string) (duration_ms : Z) : M unit :=
  match r with
  | Ok result => complete_item item result key duration_ms
  | Err (ExecutorError.Fatal msg) => fail_item item msg
  | Err (ExecutorError.RateLimited retry_after_secs) =>
      let next_attempt := u32_add (attempt item) 1 in
      if decide (max_attempts item ≤ next_attempt)
      then fail_item item ("rate limited: exhausted " +:+ pretty (max_attempts item) +:+ " attempts")
      else park_item item key retry_after_secs next_attempt
  end.

Definition execute_item (item : WorkItem) : M unit :=
  start ← utc_now;
  append_next (wi_execution_id item)
    (EventKind.NodeStarted (wi_node_id item) (w_id self) (attempt item)) ≫= λ _,
  let hb := {| hb_item := wi_id item; hb_worker := w_id self; hb_fence := lease_fence item |} in
  spawn_heartbeat hb ≫= λ _,
  a ← attempt_item item hb start;
  match a with
  | Returned r => of_result r
  | Finishing r key =>
      now ← utc_now;
      abort hb ≫= λ _,
      settle_result item r key (elapsed_ms start now)
  end.

(** One iteration of [run]; [false] when there was nothing to claim. *)
Definition poll_and_execute : M bool :=
  item ← call (claim_work_item (w_id self) (w_queue_types self));
  match item with
  | None => mret false
  | Some item => execute_item item ≫= λ _, mret true
  end.
End Worker.

(** ** The pool ([pool.rs]) *)

Record WorkerGroupConfig := { id_prefix : string; concurrency : nat; group_queue_types : list string }.

(** The workers [spawn] starts: the last executor registered for a kind wins. *)
Definition spawn {S} (groups : list WorkerGroupConfig) (executors : list (string * NodeExecutor S))
    (sealer : Sealer) (agents : option (string → result string (option Agent))) : list (Worker S) :=
  group ← groups;
  i ← seq 0 (concurrency group);
  [{| w_id := id_prefix group +:+ "-" +:+ pretty (Z.of_nat i); w_agents := agents;
      w_queue_types := group_queue_types group;
      w_executors := foldl (λ m ke, <[ke.1 := ke.2]> m) ∅ executors; w_sealer := sealer |}].

Definition default_pool : list WorkerGroupConfig :=
  [{| id_prefix := "general-worker"; concurrency := 2;
      group_queue_types := ["general"; "tool"; "condition"; "mcp_tool"] |};
   {| id_prefix := "model-worker"; concurrency := 2; group_queue_types := ["model"] |};
   {| id_prefix := "privileged-worker"; concurrency := 1; group_queue_types := ["privileged"] |};
   {| id_prefix := "python-worker"; concurrency := 0; group_queue_types := ["python_tool"] |};
   {| id_prefix := "java-worker"; concurrency := 0; group_queue_types := ["java_tool"] |}].
