(* ===== verification/WorkerCorrect.v ===== *)
(** * The worker: what it fires, records and leaves behind

    An executor is called at most once per claimed item, and only behind the
    gate, the budget and the reservation of its effect; a result is recorded
    once, under the lease, or not at all; a recorded effect replays as itself;
    no heartbeat outlives its item. *)

From S2P Require Import Prelude.
From S2P Require Import Json.
From S2P Require Import RustStr.
From S2P Require Import Core.
From S2P Require Import Condition.
From S2P Require Import Ir.
From S2P Require Import Event.
From S2P Require Import Materializer.
From S2P Require Import Budget.
From S2P Require Import Hashing.
From S2P Require Import Approvals.
From S2P Require Import Backend.
From S2P Require Import Journal.
From S2P Require Import Memory.
From S2P Require Import Lease.
From S2P Require Import History.
From S2P Require Import MemoryLaws.
From S2P Require Import Artifact.
From S2P Require Import Segment.
From S2P Require Import Policy.
From S2P Require Import ToolDispatch.
From S2P Require Import AgentLimits.
From S2P Require Import AgentSteps.
From S2P Require Import Agents.
From S2P Require Import DispatchGuard.
From S2P Require Import NodeGuard.
From S2P Require Import GuardCorrect.
From S2P Require Import GuardSound.
From S2P Require Import Worker.

(** ** The worker's state around the store's *)

Section Lifting.
Context {S : Type}.

(** The store's world inside the worker's, and back. *)
Definition inner (w : world (Wk S)) : world S := World (wk_backend (store w)) (clock w) (draws w).
Definition outer (w : world (Wk S)) (w1 : world S) : world (Wk S) :=
  World (set_wk_backend (store w1) (store w)) (clock w1) (draws w1).

Lemma inner_outer w w1 : inner (outer w w1) = w1.
Proof. by destruct w1. Qed.
Lemma outer_outer w w1 w2 : outer (outer w w1) w2 = outer w w2.
Proof. done. Qed.

Lemma on_store_run {E A} (m : eff S E A) w r w1 :
  m (inner w) = (r, w1) → on_store m w = (r, outer w w1).
Proof. unfold on_store, inner, outer. by intros ->. Qed.

Lemma on_store_inv {E A} (m : eff S E A) w r w' :
  on_store m w = (r, w') → ∃ w1, m (inner w) = (r, w1) ∧ w' = outer w w1.
Proof.
  unfold on_store. fold (inner w). destruct (m (inner w)) as [r1 w1]. intros [= <- <-]. by exists w1.
Qed.

Lemma eff_bind_inv {X E A B} (m : eff X E A) (k : A → eff X E B) w r w' :
  (m ≫= k) w = (r, w') →
  (∃ a w1, m w = (Ok a, w1) ∧ k a w1 = (r, w')) ∨ (∃ e, m w = (Err e, w') ∧ r = Err e).
Proof.
  unfold mbind, eff_bind. destruct (m w) as [[a|e] w1]; [eauto 10|]. intros [= <- <-]. eauto.
Qed.

(** No task started or ended, no executor called. *)
Definition silent (s s' : Wk S) : Prop := beats s' = beats s ∧ fired s' = fired s.
#[export] Instance silent_preorder : PreOrder silent.
Proof. split; [done|]. intros s1 s2 s3 [H1 H2] [H3 H4]. split; congruence. Qed.

Lemma silent_on_store {E A} (m : eff S E A) : respects silent (on_store m).
Proof. intros w. unfold on_store. by destruct (m _) as [r w1]. Qed.
Lemma silent_call {A} (m : bk S A) : respects silent (call m).
Proof. apply respects_with_err, silent_on_store. Qed.
Lemma silent_call_result {A} (m : bk S A) : respects silent (call_result m).
Proof. apply respects_as_result, silent_on_store. Qed.
Lemma silent_event_new {E} `{!UuidOps} id n k : respects silent (Event_new id n k : eff (Wk S) E Event).
Proof. by intros w. Qed.
Lemma silent_meanwhile f : respects silent (meanwhile (S := S) f).
Proof. by intros w. Qed.
End Lifting.

Ltac silent_step :=
  first [ apply silent_on_store | apply silent_call | apply silent_call_result
        | apply silent_event_new | apply silent_meanwhile
        | apply respects_as_result; intros ?
        | apply respects_mret; apply _ | apply respects_raise; apply _
        | apply respects_bind; [apply _| |intros ?]
        | apply respects_recover; [apply _| |intros ?]
        | by intros ? | case_match ].

Section Silent.
Context `{!UuidOps, !ChronoOps, !JsonText, !Sha256Ops, !GuardSerde} {S : Type}
  `{!WorkerEnv S} `{HB : StateBackend S} (self : Worker S).

Lemma silent_append_next id k : respects silent (append_next (S := S) id k).
Proof. unfold append_next. repeat silent_step. Qed.
Lemma silent_commit item fence id k b : respects silent (commit_or_abandon (S := S) item fence id k b).
Proof. unfold commit_or_abandon. repeat silent_step. Qed.
Lemma silent_check_policy item nd ir : respects silent (check_policy self item nd ir).
Proof.
  unfold check_policy, settle_outcome, settle_held.
  repeat first [apply respects_as_result, silent_commit|silent_step].
Qed.
Lemma silent_record_trip id n k : respects silent (record_trip (S := S) id n k).
Proof. unfold record_trip. repeat silent_step. Qed.
Lemma silent_budget_before id node ir b :
  respects silent (check_budget_before_execution (S := S) id node ir b).
Proof. unfold check_budget_before_execution. repeat first [apply silent_record_trip|silent_step]. Qed.
Lemma silent_ceilings id node ir b : respects silent (check_ceilings (S := S) id node ir b).
Proof.
  unfold check_ceilings, emit_token_budget_exceeded, emit_budget_exceeded.
  repeat first [apply silent_record_trip|silent_step].
Qed.
Lemma silent_finalize id item : respects silent (finalize (S := S) id item).
Proof. unfold finalize. repeat silent_step. Qed.
Lemma silent_rollover item ir wid ver : respects silent (rollover_segment (S := S) item ir wid ver).
Proof.
  unfold rollover_segment. cbv zeta.
  repeat first [apply silent_finalize|apply silent_append_next|silent_step].
Qed.
Lemma silent_claim_tries n key id node fence :
  respects silent (claim_tries self n key id node fence).
Proof. induction n; cbn [claim_tries]; repeat first [apply IHn|silent_step]. Qed.
Lemma silent_poll n key : respects silent (poll_result (S := S) n key).
Proof. induction n; cbn [poll_result]; repeat first [apply IHn|silent_step]. Qed.
Lemma silent_await key id node fence :
  respects silent (await_or_claim_effect self key id node fence).
Proof.
  unfold await_or_claim_effect.
  repeat first [apply silent_claim_tries|apply silent_poll|silent_step].
Qed.
Lemma silent_receive id sends failed : respects silent (receive (S := S) id sends failed).
Proof.
  revert failed. induction sends as [|send sends IH]; intros failed; cbn [receive].
  - apply respects_mret, _.
  - intros w. destruct (send _) as [event w1] eqn:Hs.
    set (w2 := World (set_wk_backend (store w1) (store w)) (clock w1) (draws w1)).
    destruct failed as [e|]; [exact (IH (Some e) w2)|].
    pose proof (silent_on_store (patch_append_array id "agent_tool_events" event) w2) as Hq.
    destruct (on_store _ w2) as [r w3]. etransitivity; [exact Hq|].
    destruct r; [exact (IH None w3)|exact (IH (Some _) w3)].
Qed.
Lemma silent_settle_result item r key d : respects silent (settle_result self item r key d).
Proof.
  unfold settle_result, complete_item, fail_item, park_item. cbv zeta.
  repeat first [apply silent_commit|apply silent_append_next|silent_step].
Qed.
Lemma silent_load_ir wid ver : respects silent (load_ir (S := S) wid ver).
Proof. unfold load_ir. repeat silent_step. Qed.
Lemma silent_load_budget id : respects silent (load_budget_state (S := S) id).
Proof. unfold load_budget_state. repeat silent_step. Qed.
End Silent.

(** ** What fires *)

Section Fires.
Context `{!UuidOps, !ChronoOps, !JsonText, !Sha256Ops, !GuardSerde} {S : Type}
  `{!WorkerEnv S} `{HL : StateBackendLaws S} `{!WorkerLaws S} (self : Worker S).

(** One try at the reservation of an item's effect. *)
Definition reserve_for (item : WorkItem) (key : string) : bk S ReserveOutcome :=
  reserve_tool_effect key (wi_execution_id item) (wi_node_id item) (w_id self) (lease_fence item)
    RESERVATION_TTL.

(** The reservation of [key] acquired, at the first try or, with no result
    recorded in between, at the second. *)
Definition won (item : WorkItem) (key : string) (w w' : world S) : Prop :=
  reserve_for item key w = (Ok Acquired, w')
  ∨ ∃ owner until w1, reserve_for item key w = (Ok (Held owner until), w1)
      ∧ (get_tool_effect key w1).1 = Ok None ∧ reserve_for item key w1 = (Ok Acquired, w').

Lemma call_inv {A} (m : bk S A) (w w' : world (Wk S)) r :
  call m w = (r, w') → ∃ r1 w1, m (inner w) = (r1, w1) ∧ w' = outer w w1
    ∧ r = map_err WBackend r1.
Proof.
  unfold call, with_err. destruct (on_store m w) as [r1 w1] eqn:Hm. intros [= <- <-].
  apply on_store_inv in Hm as (w2 & Hm & ->). eauto 10.
Qed.

Lemma call_ok_inv {A} (m : bk S A) (w w' : world (Wk S)) a :
  call m w = (Ok a, w') → ∃ w1, m (inner w) = (Ok a, w1) ∧ w' = outer w w1.
Proof.
  intros (r1 & w1 & Hm & -> & Hr)%call_inv. exists w1. split; [|done].
  destruct r1; [|done]. by injection Hr as <-.
Qed.

Lemma claim_tries_won item key (w w' : world (Wk S)) :
  claim_tries self 2 key (wi_execution_id item) (wi_node_id item) (lease_fence item) w
  = (Ok (Some None), w') →
  ∃ w1, won item key (inner w) w1 ∧ w' = outer w w1.
Proof.
  cbn [claim_tries]. intros (o & w1 & (v1 & Hr1 & ->)%call_ok_inv & Hk)%bind_ok_inv.
  destruct o as [|owner until]; [injection Hk as <-; exists v1; split; [by left|done]|].
  apply bind_ok_inv in Hk as (e & w2 & (v2 & He & ->)%call_ok_inv & Hk).
  destruct e as [rec|]; [done|]. rewrite inner_outer in He.
  apply bind_ok_inv in Hk as (o & w3 & (v3 & Hr2 & ->)%call_ok_inv & Hk).
  rewrite inner_outer in Hr2. pose proof (law_get_tool_effect key v1) as Hsame.
  rewrite He in Hsame. cbn [snd] in Hsame. subst v2.
  destruct o as [|o2 u2].
  - injection Hk as <-. exists v3. split; [|done]. right. exists owner, until, v1.
    split_and!; [done|by rewrite He|done].
  - apply bind_ok_inv in Hk as (e & w4 & _ & Hk). by destruct e.
Qed.

Lemma await_won item key (w w' : world (Wk S)) :
  await_or_claim_effect self key (wi_execution_id item) (wi_node_id item) (lease_fence item) w
  = (Ok None, w') →
  ∃ w1, won item key (inner w) w1 ∧ w' = outer w w1.
Proof.
  unfold await_or_claim_effect. intros (c & w1 & Hc & Hk)%bind_ok_inv. destruct c as [c|].
  - injection Hk as -> ->. by apply claim_tries_won.
  - apply bind_ok_inv in Hk as (p & w2 & _ & Hk). by destruct p.
Qed.

(** The call of an executor for [item] under [key]. *)
Definition firing (item : WorkItem) (kind_tag key : string) : Firing :=
  {| fi_worker := w_id self; fi_kind := kind_tag; fi_item := item; fi_key := key |}.

Lemma fire_run item tag key start (w w' : world (Wk S)) r :
  fire self item tag key start w = (r, w') →
  beats (store w') = beats (store w)
  ∧ fired (store w') = match w_executors self !! tag with
      | Some _ => firing item tag key :: fired (store w)
      | None => fired (store w)
      end.
Proof.
  unfold fire. destruct (w_executors self !! tag) as [x|]; [|intros [= <- <-]; done].
  unfold record_firing. rewrite bind_modify. intros Hrun.
  set (w1 := World _ _ _) in Hrun.
  enough (silent (store w1) (store w')) as [Hb Hf] by (rewrite Hb, Hf; done).
  match type of Hrun with ?m w1 = _ => change w' with (r, w').2; rewrite <- Hrun;
    enough (respects silent m) as Hm by apply Hm end.
  case_decide.
  - destruct (execute_streaming x item) as [sends ending].
    apply respects_bind; [apply _|apply silent_receive|intros failed].
    apply respects_bind; [apply _|apply respects_as_result, silent_on_store|intros res].
    apply respects_mret, _.
  - apply respects_as_result, silent_on_store.
Qed.

Lemma replay_or_fire_run item tag key start recorded (w w' : world (Wk S)) r :
  replay_or_fire self item tag key start recorded w = (r, w') →
  beats (store w') = beats (store w)
  ∧ (fired (store w') = fired (store w)
     ∨ fired (store w') = firing item tag key :: fired (store w)
       ∧ recorded = None ∧ is_Some (w_executors self !! tag)
       ∧ ∃ w1, won item key (inner w) w1).
Proof.
  unfold replay_or_fire. destruct recorded as [rec|]; [intros [= <- <-]; auto|].
  destruct (await_or_claim_effect self key (wi_execution_id item) (wi_node_id item)
    (lease_fence item) w) as [c w1] eqn:Ha.
  rewrite (as_result_run _ _ _ _ _ Ha). pose proof (silent_await self key (wi_execution_id item)
    (wi_node_id item) (lease_fence item) w) as [Hb Hf]. rewrite Ha in Hb, Hf. cbn [snd] in *.
  destruct c as [[rec|]|e]; [intros [= <- <-]; auto| |intros [= <- <-]; auto].
  intros Hk. apply await_won in Ha as (v & Hwon & ->).
  apply eff_bind_inv in Hk as [(x & w2 & Hfire & Hk)|(e & Hfire & ->)].
  - injection Hk as <- <-. apply fire_run in Hfire as [Hb2 Hf2]. split; [by rewrite Hb2|].
    destruct (w_executors self !! tag) eqn:Hx; [right|left; by rewrite Hf2].
    rewrite Hf2. split_and!; eauto.
  - apply fire_run in Hfire as [Hb2 Hf2]. split; [by rewrite Hb2|].
    destruct (w_executors self !! tag) eqn:Hx; [right|left; by rewrite Hf2].
    rewrite Hf2. split_and!; eauto.
Qed.
End Fires.

(** ** Calls that answer *)

Section Answers.
Context `{!UuidOps, !ChronoOps, !JsonText, !Sha256Ops, !GuardSerde} {S : Type}
  `{!WorkerEnv S} `{HB : StateBackend S} (self : Worker S).

(** The computation has no early return by error. *)
Definition answers {X E A} (m : eff X E A) : Prop := ∀ w, ∃ a w', m w = (Ok a, w').

Lemma answers_mret {X E A} (a : A) : answers (mret a : eff X E A).
Proof. intros w. by do 2 eexists. Qed.
Lemma answers_bind {X E A B} (m : eff X E A) (k : A → eff X E B) :
  answers m → (∀ a, answers (k a)) → answers (m ≫= k).
Proof.
  intros Hm Hk w. destruct (Hm w) as (a & w1 & Ha). rewrite (bind_run _ _ _ _ _ Ha). apply Hk.
Qed.
Lemma answers_as_result {X E F A} (m : eff X F A) : answers (as_result m : eff X E (result F A)).
Proof. intros w. unfold as_result. destruct (m w). by do 2 eexists. Qed.
Lemma answers_event {E} id n k : answers (Event_new id n k : eff (Wk S) E Event).
Proof. intros w. by do 2 eexists. Qed.
Lemma answers_settle m : answers (on_store (settle (E := WorkerError) m) : eff (Wk S) WorkerError GuardOutcome).
Proof.
  intros w. unfold on_store, settle. destruct (m _) as [[o|o] w1]; by do 2 eexists.
Qed.
Lemma answers_receive id sends failed : answers (receive (S := S) id sends failed).
Proof.
  revert failed. induction sends as [|send sends IH]; intros failed; cbn [receive]; [apply answers_mret|].
  intros w. destruct (send _) as [event w1]. destruct failed; [apply IH|].
  destruct (on_store _ _) as [[] w2]; apply IH.
Qed.
End Answers.

Ltac answers_step :=
  first [ apply answers_mret | apply answers_as_result | apply answers_event
        | apply answers_settle | apply answers_receive
        | apply answers_bind; [|intros ?] | by intros ?; do 2 eexists | case_match ].

Section Attempts.
Context `{!UuidOps, !ChronoOps, !JsonText, !Sha256Ops, !GuardSerde} {S : Type}
  `{!WorkerEnv S} `{HL : StateBackendLaws S} `{!WorkerLaws S} (self : Worker S).

Lemma answers_check_policy item nd ir : answers (check_policy self item nd ir).
Proof. unfold check_policy, settle_outcome, settle_held. repeat answers_step. Qed.
Lemma answers_budget_before id node ir b : answers (check_budget_before_execution (S := S) id node ir b).
Proof. unfold check_budget_before_execution, record_trip. repeat answers_step. Qed.
Lemma answers_ceilings id node ir b : answers (check_ceilings (S := S) id node ir b).
Proof.
  unfold check_ceilings, emit_token_budget_exceeded, emit_budget_exceeded, record_trip.
  repeat answers_step.
Qed.
Lemma answers_replay item tag key start recorded :
  answers (replay_or_fire self item tag key start recorded).
Proof. unfold replay_or_fire, fire. repeat answers_step. Qed.
Lemma answers_after item ir wid ver hb budget key res :
  answers (after_execution (S := S) item ir wid ver hb budget key res).
Proof.
  unfold after_execution. destruct (spend _ _ _). apply answers_bind; [apply answers_ceilings|intros t].
  repeat answers_step.
Qed.

(** The budget the latest snapshot carries. *)
Definition budget_of (w : world S) (id : ExecutionId) : BudgetState :=
  match (latest_snapshot id w).1 with
  | Ok (Some s) => from_snapshot_state (snap_state s)
  | _ => BudgetState_default
  end.

Lemma load_budget_run id (w : world (Wk S)) :
  load_budget_state id w = (Ok (budget_of (inner w) id), w).
Proof.
  unfold load_budget_state, call_result, budget_of.
  pose proof (law_latest_snapshot id (inner w)) as Hw.
  destruct (latest_snapshot id (inner w)) as [r w1] eqn:Hr. cbn [snd] in Hw. subst w1.
  rewrite (as_result_run _ _ _ _ _ (on_store_run _ _ _ _ Hr)).
  by destruct w as [[] ? ?], r as [[]|].
Qed.

(** What let an executor fire for [item], from the world the gate saw on: the
    gate allowed it there, the run's budget was not spent, and under the key of
    the item's current occurrence no effect was recorded and the reservation
    was won. *)
Definition due (item : WorkItem) (ir : WorkflowIr) (node_def : NodeDef) (key : string)
    (w : world S) : Prop :=
  ∃ w1 w2, guard_item (check_args self item node_def ir) w = (Ok GuardOutcome.Allow, w1)
    ∧ Budget.exhausted (budget_of w (wi_execution_id item)) (token_budget ir) (cost_budget_usd ir)
      = None
    ∧ key = engine_key (store w1) item
    ∧ (get_tool_effect key w1).1 = Ok None
    ∧ won self item key w1 w2.

Lemma check_policy_allow item nd ir (w w' : world (Wk S)) :
  check_policy self item nd ir w = (Ok None, w') →
  ∃ w1, guard_item (check_args self item nd ir) (inner w) = (Ok GuardOutcome.Allow, w1)
    ∧ w' = outer w w1.
Proof.
  unfold check_policy. intros (o & w1 & Ho & Hk)%bind_ok_inv.
  apply on_store_inv in Ho as (v & Ho & ->). exists v.
  assert (o = GuardOutcome.Allow ∧ w' = outer w v) as [-> ->].
  { destruct o; [by injection Hk as <-|..]; unfold settle_outcome in Hk;
      try (apply bind_ok_inv in Hk as (? & ? & _ & Hk)); done. }
  split; [|done]. unfold settle in Ho.
  destruct (guard_item _ (inner w)) as [[o|o] v'] eqn:Hg; injection Ho as -> ->; [done|].
  exfalso. by apply guard_item_refuses in Hg.
Qed.

(** What an attempt leaves: its heartbeat is aborted on an early return, and
    still runs when there is a result to settle or the effect could not be read;
    at most one executor was called, and then it was due. *)
Definition attempt_left (hb : Heartbeat) (tag : string) (item : WorkItem)
    (was_due : string → Prop) (w w' : world (Wk S)) (r : result WorkerError Attempt) : Prop :=
  beats (store w') = match r with
    | Ok (Returned _) => base.filter (λ b, b ≠ hb) (beats (store w))
    | _ => beats (store w)
    end
  ∧ (∀ e, r = Err e → ∃ key w1 e', (get_tool_effect key w1).1 = Err e' ∧ e = WBackend e')
  ∧ (fired (store w') = fired (store w)
     ∨ ∃ key, fired (store w') = firing self item tag key :: fired (store w)
         ∧ is_Some (w_executors self !! tag) ∧ was_due key).

Lemma after_execution_run item ir wid ver hb budget key res (w w' : world (Wk S)) r :
  after_execution item ir wid ver hb budget key res w = (r, w') →
  fired (store w') = fired (store w)
  ∧ beats (store w') = match r with
      | Ok (Returned _) => base.filter (λ b, b ≠ hb) (beats (store w))
      | _ => beats (store w)
      end.
Proof.
  unfold after_execution. destruct (spend budget res None) as [b patch].
  destruct (answers_ceilings (wi_execution_id item) (wi_node_id item) ir b w) as (t & w1 & Ht).
  rewrite (bind_run _ _ _ _ _ Ht).
  pose proof (silent_ceilings (wi_execution_id item) (wi_node_id item) ir b w) as [Hb Hf].
  rewrite Ht in Hb, Hf. cbn [snd] in Hb, Hf.
  destruct t as [t|]; [|intros [= <- <-]; done]. unfold abort. rewrite bind_modify.
  destruct (continue_as_new ir); [|intros [= <- <-]; cbn; by rewrite Hb].
  set (w2 := World _ _ _).
  destruct (rollover_segment item ir wid ver w2) as [rr w3] eqn:Hroll.
  rewrite (as_result_run _ _ _ _ _ Hroll). intros [= <- <-].
  pose proof (silent_rollover item ir wid ver w2) as [Hb2 Hf2]. rewrite Hroll in Hb2, Hf2.
  cbn in *. by rewrite Hb2, Hf2, Hb, Hf.
Qed.

(** Past the gate and the budget: [v] is the world [run_node] starts from. *)
Definition keyed (item : WorkItem) (key : string) (v : world S) : Prop :=
  key = engine_key (store v) item ∧ (get_tool_effect key v).1 = Ok None ∧ ∃ v', won self item key v v'.

Lemma run_node_run item ir nd wid ver hb start b (w w' : world (Wk S)) r :
  run_node self item ir nd wid ver hb start b w = (r, w') →
  attempt_left hb (node_kind_tag_of (kind nd)) item (λ key, keyed item key (inner w)) w w' r.
Proof.
  unfold run_node, attempt_left.
  assert (call (derive_idempotency_key (wi_execution_id item) (wi_node_id item)) w
    = (Ok (engine_key (store (inner w)) item), w)) as Hkey.
  { unfold call, with_err. rewrite (on_store_run _ _ _ _ (derive_key_run item (inner w))).
    by destruct w as [[]]. }
  rewrite (bind_run _ _ _ _ _ Hkey). set (key := engine_key _ item).
  intros [(rec & w2 & Hrec & Hk)|(e & Hrec & ->)]%eff_bind_inv.
  2:{ apply call_inv in Hrec as (r1 & v1 & Hget & -> & Hr).
      destruct r1 as [|e1]; [done|]. injection Hr as ->. split_and!; [done| |by left].
      intros e [= <-]. exists key, (inner w), e1. by rewrite Hget. }
  apply call_ok_inv in Hrec as (v1 & Hget & ->).
  pose proof (law_get_tool_effect key (inner w)) as Hsame. rewrite Hget in Hsame.
  cbn [snd] in Hsame. subst v1.
  destruct (answers_replay item (node_kind_tag_of (kind nd)) key start rec (outer w (inner w)))
    as (x & w3 & Hx).
  rewrite (bind_run _ _ _ _ _ Hx) in Hk. apply replay_or_fire_run in Hx as [Hb3 Hf3].
  assert (fired (store w3) = fired (store w)
    ∨ ∃ key, fired (store w3) = firing self item (node_kind_tag_of (kind nd)) key :: fired (store w)
        ∧ is_Some (w_executors self !! node_kind_tag_of (kind nd)) ∧ keyed item key (inner w)) as Hdue.
  { destruct Hf3 as [Hf3|(Hf3 & -> & Hx & u & Hwon)]; [left; by rewrite Hf3|right].
    exists key. split_and!; [by rewrite Hf3|done|]. rewrite inner_outer in Hwon.
    split_and!; [done|by rewrite Hget|by exists u]. }
  assert (beats (store w3) = beats (store w)) as Hbeats by (by rewrite Hb3).
  destruct x as [[res|err]|e].
  - pose proof (answers_after item ir wid ver hb b key res w3) as (a & w4 & Ha).
    rewrite Ha in Hk. injection Hk as <- <-. apply after_execution_run in Ha as [Hf4 Hb4].
    rewrite Hb4, Hf4, Hbeats. split_and!; [done|done|exact Hdue].
  - injection Hk as <- <-. split_and!; [done|done|exact Hdue].
  - unfold abort in Hk. rewrite bind_modify in Hk. injection Hk as <- <-. cbn. rewrite Hbeats.
    split_and!; [done|done|exact Hdue].
Qed.

(** An early return before the effect is derived. *)
Lemma attempt_settled hb tag item P (w w1 : world (Wk S)) o :
  silent (store w) (store w1) →
  attempt_left hb tag item P w
    (World (set_beats (base.filter (λ b, b ≠ hb) (beats (store w1))) (store w1)) (clock w1) (draws w1))
    (Ok (Returned o)).
Proof. intros [Hb Hf]. unfold attempt_left. cbn. rewrite Hb, Hf. split_and!; [done|done|by left]. Qed.

Lemma attempt_node_run item ir nd wid ver hb start (w w' : world (Wk S)) r :
  attempt_node self item ir nd wid ver hb start w = (r, w') →
  attempt_left hb (node_kind_tag_of (kind nd)) item (λ key, due item ir nd key (inner w)) w w' r.
Proof.
  unfold attempt_node. rewrite (bind_run _ _ _ _ _ (load_budget_run _ w)).
  destruct (answers_check_policy item nd ir w) as (o & w1 & Ho). rewrite (bind_run _ _ _ _ _ Ho).
  pose proof (silent_check_policy self item nd ir w) as Hs1. rewrite Ho in Hs1. cbn [snd] in Hs1.
  destruct o as [o|].
  { unfold abort. rewrite bind_modify. intros [= <- <-]. by apply attempt_settled. }
  apply check_policy_allow in Ho as (v & Hallow & ->).
  set (b := budget_of (inner w) (wi_execution_id item)).
  destruct (Budget.exhausted b (token_budget ir) (cost_budget_usd ir)) as [trip|] eqn:Hex.
  { destruct (answers_budget_before (wi_execution_id item) (wi_node_id item) ir b (outer w v))
      as (t & w2 & Ht). rewrite (bind_run _ _ _ _ _ Ht).
    pose proof (silent_budget_before (wi_execution_id item) (wi_node_id item) ir b (outer w v))
      as Hs2. rewrite Ht in Hs2. cbn [snd] in Hs2.
    assert (t ≠ None) as Htr.
    { intros ->. unfold check_budget_before_execution in Ht. rewrite Hex in Ht.
      apply bind_ok_inv in Ht as (? & ? & _ & Ht). apply bind_ok_inv in Ht as (? & ? & _ & Ht). done. }
    destruct t as [t|]; [|done]. unfold abort. rewrite bind_modify. intros [= <- <-].
    apply attempt_settled. by etransitivity. }
  assert (check_budget_before_execution (wi_execution_id item) (wi_node_id item) ir b (outer w v)
    = (Ok None, outer w v)) as Ht by (unfold check_budget_before_execution; by rewrite Hex).
  rewrite (bind_run _ _ _ _ _ Ht). intros (Hb & He & Hf)%run_node_run. rewrite inner_outer in Hf.
  split_and!; [by destruct r as [[]|]|done|].
  destruct Hf as [Hf|(key & Hf & Hx & Hk & Hg & v' & Hwon)]; [by left|right].
  exists key. split_and!; [done|done|]. by exists v, v'.
Qed.
End Attempts.

(** ** One item, from its claim to its settle *)

Section Items.
Context `{!UuidOps, !ChronoOps, !JsonText, !Sha256Ops, !GuardSerde} {S : Type}
  `{!WorkerEnv S} `{HL : StateBackendLaws S} `{!WorkerLaws S} (self : Worker S).

(** A heartbeat runs on exactly while its renewals land. *)
Lemma heartbeat_tick_run b (w : world (Wk S)) :
  b ∈ beats (store w) →
  (b ∈ beats (store (heartbeat_tick b w).2)
   ↔ is_ok (renew_lease (hb_item b) (hb_worker b) (hb_fence b) (inner w)).1 = true).
Proof.
  intros Hb. unfold heartbeat_tick, call_result.
  destruct (renew_lease _ _ _ (inner w)) as [r w1] eqn:Hr.
  rewrite (as_result_run _ _ _ _ _ (on_store_run _ _ _ _ Hr)). destruct r as [u|e]; [done|].
  unfold abort, modify. cbn. rewrite list_elem_of_filter. naive_solver.
Qed.

(** The definition an item's payload names, at [w]. *)
Definition defined (item : WorkItem) (ir : WorkflowIr) (nd : NodeDef) (w : world S) : Prop :=
  ∃ def, (get_workflow (parse_payload (payload item)).1 (parse_payload (payload item)).2 w).1
           = Ok (Some def)
       ∧ ir_of_value (wd_ir def) = Ok ir ∧ node ir (wi_node_id item) = Some nd.

Lemma wk_load_ir_run wid ver (w : world (Wk S)) :
  ∃ r, load_ir wid ver w = (Ok r, w)
     ∧ ∀ ir, r = Ok ir → ∃ def, (get_workflow wid ver (inner w)).1 = Ok (Some def)
                              ∧ ir_of_value (wd_ir def) = Ok ir.
Proof.
  unfold load_ir, call_result. pose proof (law_get_workflow wid ver (inner w)) as Hw.
  destruct (get_workflow wid ver (inner w)) as [found w1] eqn:Hg. cbn [snd] in Hw. subst w1.
  rewrite (as_result_run _ _ _ _ _ (on_store_run _ _ _ _ Hg)).
  assert (outer w (inner w) = w) as -> by (by destruct w as [[]]).
  eexists. split; [done|]. intros ir Hir.
  destruct found as [[def|]|e]; [|done..]. cbn in Hir. by exists def.
Qed.

Lemma attempt_item_run item hb start (w w' : world (Wk S)) r :
  attempt_item self item hb start w = (r, w') →
  beats (store w') = match r with
    | Ok (Returned _) => base.filter (λ b, b ≠ hb) (beats (store w))
    | _ => beats (store w)
    end
  ∧ (∀ e, r = Err e → ∃ key w1 e', (get_tool_effect key w1).1 = Err e' ∧ e = WBackend e')
  ∧ (fired (store w') = fired (store w)
     ∨ ∃ ir nd key, fired (store w') = firing self item (node_kind_tag_of (kind nd)) key
                                       :: fired (store w)
         ∧ is_Some (w_executors self !! node_kind_tag_of (kind nd))
         ∧ defined item ir nd (inner w) ∧ due self item ir nd key (inner w)).
Proof.
  unfold attempt_item. destruct (parse_payload (payload item)) as [wid ver] eqn:Hp.
  destruct (wk_load_ir_run wid ver w) as (ir & Hload & Hir). rewrite (bind_run _ _ _ _ _ Hload).
  destruct ir as [ir|e]; [|intros [= <- <-]; by split_and!; [|done|left]].
  destruct (node ir (wi_node_id item)) as [nd|] eqn:Hn;
    [|intros [= <- <-]; by split_and!; [|done|left]].
  intros (Hb & He & Hf)%attempt_node_run. split_and!; [done|done|].
  destruct Hf as [Hf|(key & Hf & Hx & Hd)]; [by left|right].
  destruct (Hir ir eq_refl) as (def & Hdef & Hirv).
  exists ir, nd, key. split_and!; try done. exists def. rewrite Hp. done.
Qed.

Definition heartbeat_of (item : WorkItem) : Heartbeat :=
  {| hb_item := wi_id item; hb_worker := w_id self; hb_fence := lease_fence item |}.

(** The store's world after this worker recorded the item's start in [w]: where
    its attempt begins. *)
Definition start_recorded (item : WorkItem) (w : world (Wk S)) (w1 : world S) : Prop :=
  ∃ v, append_next (wi_execution_id item)
         (EventKind.NodeStarted (wi_node_id item) (w_id self) (attempt item)) w = (Ok tt, v)
     ∧ w1 = inner v.

(** How [execute_item] runs: its start is recorded, its heartbeat spawned, and
    what the attempt answers decides. *)
Lemma execute_item_run item (w w' : world (Wk S)) r :
  execute_item self item w = (r, w') →
  (silent (store w) (store w') ∧ ∃ e, r = Err e)
  ∨ ∃ w1 w2 a, silent (store w) (store w1) ∧ start_recorded item w (inner w1)
      ∧ attempt_item self item (heartbeat_of item) (clock w)
          (World (set_beats (heartbeat_of item :: beats (store w1)) (store w1)) (clock w1) (draws w1))
        = (a, w2)
      ∧ fired (store w') = fired (store w2)
      ∧ match a with
        | Ok (Returned r') => r = r' ∧ w' = w2
        | Err e => r = Err e ∧ w' = w2
        | Ok (Finishing _ _) =>
            beats (store w') = base.filter (λ b, b ≠ heartbeat_of item) (beats (store w2))
        end.
Proof.
  unfold execute_item. rewrite bind_now.
  intros [(u & w1 & Hstart & Hk)|(e & Hstart & ->)]%eff_bind_inv;
    pose proof (silent_append_next (wi_execution_id item)
      (EventKind.NodeStarted (wi_node_id item) (w_id self) (attempt item)) w) as Hs;
    rewrite Hstart in Hs; cbn [snd] in Hs; [right|left; eauto].
  unfold spawn_heartbeat in Hk. rewrite bind_modify in Hk. fold (heartbeat_of item) in Hk.
  set (w1' := World _ _ _) in Hk.
  destruct (attempt_item self item (heartbeat_of item) (clock w) w1') as [a w2] eqn:Ha.
  exists w1, w2, a. split; [done|]. split; [destruct u; by exists w1|]. split; [exact Ha|].
  destruct a as [[r'|res key]|e].
  - rewrite (bind_run _ _ _ _ _ Ha) in Hk. by injection Hk as <- <-.
  - rewrite (bind_run _ _ _ _ _ Ha), bind_now in Hk. unfold abort in Hk. rewrite bind_modify in Hk.
    match type of Hk with ?m ?x = _ => pose proof (silent_settle_result self item res key
      (elapsed_ms (clock w) (clock w2)) x) as [Hb Hf]; rewrite Hk in Hb, Hf end.
    cbn in Hb, Hf. by rewrite Hb, Hf.
  - unfold mbind, eff_bind in Hk. rewrite Ha in Hk. by injection Hk as <- <-.
Qed.

(** C15: A worker calls an executor at most once for an item it claimed, and only
    when the item was due in this very run. In the store as it stands right after
    the run recorded the item's start, the item's definition is the one its
    payload names, the run's budget is not spent and the gate allows the node's
    action; in the store the gate leaves, no effect is on record under the key of
    the node's current occurrence, and this worker then wins its reservation. *)
Theorem fires_only_when_due (item : WorkItem) (w : world (Wk S)) :
  let w' := (execute_item self item w).2 in
  fired (store w') = fired (store w)
  ∨ ∃ ir nd key w1, start_recorded item w w1
      ∧ fired (store w') = firing self item (node_kind_tag_of (kind nd)) key :: fired (store w)
      ∧ is_Some (w_executors self !! node_kind_tag_of (kind nd))
      ∧ defined item ir nd w1 ∧ due self item ir nd key w1.
Proof.
  destruct (execute_item self item w) as [r w'] eqn:Hrun. cbn [snd]. 
  apply execute_item_run in Hrun as [[[_ Hf] _]|(w1 & w2 & a & [_ Hf1] & Hst & Ha & Hf2 & _)]; [by left|].
  apply attempt_item_run in Ha as (_ & _ & Hf). rewrite Hf2. cbn [store set_beats fired] in Hf.
  rewrite Hf1 in Hf. destruct Hf as [Hf|(ir & nd & key & Hf & Hx & Hdef & Hdue)]; [by left|right].
  by exists ir, nd, key, (inner w1).
Qed.

(** A worker stops renewing an item's lease when it is done with it, however
    it ends. The one exception is an effect table that cannot be read: the error
    is returned with the heartbeat still running. *)
Theorem heartbeat_stops (item : WorkItem) (w : world (Wk S)) :
  heartbeat_of item ∉ beats (store w) →
  let '(r, w') := execute_item self item w in
  beats (store w') = beats (store w)
  ∨ beats (store w') = heartbeat_of item :: beats (store w)
    ∧ ∃ key w1 e, (get_tool_effect key w1).1 = Err e ∧ r = Err (WBackend e).
Proof.
  intros Hnew. destruct (execute_item self item w) as [r w'] eqn:Hrun.
  assert (base.filter (λ b, b ≠ heartbeat_of item) (heartbeat_of item :: beats (store w))
    = beats (store w)) as Hfilter.
  { rewrite filter_cons_False by (intros Hne; by apply Hne).
    clear -Hnew. induction (beats (store w)) as [|b l IH]; [done|].
    apply not_elem_of_cons in Hnew as [Hne Hin]. rewrite filter_cons_True by done. by rewrite IH. }
  apply execute_item_run in Hrun as [[[Hb _] _]|(w1 & w2 & a & [Hb1 _] & _ & Ha & _ & Hr)]; [by left|].
  apply attempt_item_run in Ha as (Hb & He & _). cbn [store set_beats beats] in Hb.
  rewrite Hb1 in Hb. destruct a as [[r'|res key]|e].
  - destruct Hr as [-> ->]. left. by rewrite Hb.
  - left. by rewrite Hr, Hb.
  - destruct Hr as [-> ->]. right. split; [done|].
    destruct (He e eq_refl) as (key & v & e' & Hget & ->). by exists key, v, e'.
Qed.
End Items.

(** ** What a settle records *)

Section Settles.
Context `{!UuidOps, !ChronoOps, !JsonText, !Sha256Ops, !GuardSerde} {S : Type}
  `{!WorkerEnv S} `{HL : StateBackendLaws S} `{!WorkerLaws S} (self : Worker S).

Definition same_logs (s s' : Wk S) : Prop :=
  ∀ i, view_log (wk_backend s') i = view_log (wk_backend s) i.
#[local] Instance same_logs_preorder : PreOrder same_logs.
Proof. split; [by intros s i|]. intros s1 s2 s3 H12 H23 i. by rewrite H23. Qed.

(** The item is on record under the fence of this claim. *)
Definition leased (item : WorkItem) (s : Wk S) : Prop :=
  ∃ stored, view_items (wk_backend s) (wi_id item) = Some stored
          ∧ lease_fence stored = lease_fence item.

(** One event of this kind more in the item's run, nothing elsewhere. *)
Definition one_more (item : WorkItem) (k : EventKind) (s s' : Wk S) : Prop :=
  ∃ ev, event_kind ev = k
    ∧ ∀ i, view_log (wk_backend s') i =
        if decide (i = wi_execution_id item) then view_log (wk_backend s) i ++ [ev]
        else view_log (wk_backend s) i.

(** A settle of the item by one event: it held its lease and is off the queue. *)
Definition settled_by (item : WorkItem) (k : EventKind) (s s' : Wk S) : Prop :=
  leased item s ∧ one_more item k s s' ∧ view_items (wk_backend s') (wi_id item) = None.

Lemma wk_new_event_run {E} id n k (w : world (Wk S)) :
  ∃ ev c d, (Event_new id n k : eff (Wk S) E Event) w = (Ok ev, World (store w) c d)
    ∧ event_kind ev = k ∧ event_execution_id ev = id.
Proof. by do 3 eexists. Qed.

Lemma appended_one item ev seq (s s' : Wk S) :
  event_execution_id ev = wi_execution_id item →
  appended_to ev (Some seq) (wk_backend s) (wk_backend s') → one_more item (event_kind ev) s s'.
Proof. intros He Happ. exists (set_sequence ev seq). split; [done|]. intros i. by rewrite Happ, He. Qed.

Lemma commit_run item k snap (w w' : world (Wk S)) r :
  commit_or_abandon (wi_id item) (lease_fence item) (wi_execution_id item) k snap w = (r, w') →
  same_logs (store w) (store w') ∨ r = Ok tt ∧ settled_by item k (store w) (store w').
Proof.
  unfold commit_or_abandon.
  destruct (wk_new_event_run (E := WorkerError) (wi_execution_id item) 0 k w) as (ev & c & d & Hev & Hk & Hid).
  rewrite (bind_run _ _ _ _ _ Hev). set (w1 := World (store w) c d).
  intros Hrun.
  apply eff_bind_inv in Hrun as [(x & w2 & Hc & Hr)|(e & Hc & _)];
    unfold call_result, as_result in Hc;
    destruct (on_store _ w1) as [x1 w2'] eqn:Hs in Hc; [|done]. injection Hc as -> ->.
  apply on_store_inv in Hs as (v & Hv & ->).
  apply law_commit_turn_any in Hv as (Hl & _ & _ & Hheld). cbn [inner store w1] in *.
  destruct x as [seq|e].
  - injection Hr as <- <-. right. split; [done|]. destruct Hheld as [(stored & Hst & Hf) Hgone].
    split_and!; [by exists stored| |done]. rewrite <- Hk. by eapply appended_one.
  - left. assert (store w' = store (outer w1 v)) as -> by (by destruct e; injection Hr as <- <-).
    exact Hl.
Qed.

Lemma spill_logs v t (w : world (Wk S)) :
  same_logs (store w) (store (call (spill_output v t) w).2)
  ∧ ∀ i, view_items (wk_backend (store (call (spill_output v t) w).2)) i
         = view_items (wk_backend (store w)) i.
Proof.
  unfold call, with_err, spill_output. destruct (spill_bytes v t) as [b|].
  - destruct (on_store _ w) as [r w'] eqn:Hs. apply on_store_inv in Hs as (u & Hu & ->). cbn.
    pose proof (law_put_artifact b (Some "application/json") (inner w)) as [Hl _].
    pose proof (law_put_artifact_items b (Some "application/json") (inner w)) as Hi.
    destruct (put_artifact b (Some "application/json") (inner w)) as [[x|e] u1] eqn:Hp.
    + rewrite (bind_run _ _ _ _ _ Hp) in Hu. injection Hu as <- <-. by split.
    + unfold mbind, eff_bind in Hu. rewrite Hp in Hu. injection Hu as <- <-. by split.
  - by destruct w as [[]].
Qed.

Lemma wk_call_run {A} (m : bk S A) (w : world (Wk S)) r w1 :
  m (inner w) = (r, w1) → call m w = (map_err WBackend r, outer w w1).
Proof. intros Hm. unfold call, with_err. by rewrite (on_store_run _ _ _ _ Hm). Qed.

Lemma append_next_logs item k (w : world (Wk S)) :
  let s' := store (append_next (wi_execution_id item) k w).2 in
  same_logs (store w) s' ∨ one_more item k (store w) s'.
Proof.
  destruct (append_next (wi_execution_id item) k w) as [r w'] eqn:Hrun. cbn [snd].
  unfold append_next in Hrun. pose proof (law_latest_sequence (wi_execution_id item) (inner w)) as Hlast.
  rewrite (bind_run _ _ _ _ _ (wk_call_run _ _ _ _ Hlast)) in Hrun.
  assert (outer w (inner w) = w) as Hw by (by destruct w as [[]]). rewrite Hw in Hrun.
  destruct (wk_new_event_run (E := WorkerError) (wi_execution_id item)
    (log_end (view_log (store (inner w)) (wi_execution_id item)) + 1) k w) as (ev & c & d & Hev & Hk & Hid).
  rewrite (bind_run _ _ _ _ _ Hev) in Hrun. set (w1 := World (store w) c d) in Hrun.
  destruct (append_event ev (inner w1)) as [ra v] eqn:Ha.
  pose proof (wk_call_run _ _ _ _ Ha) as Hcall.
  apply law_append_event in Ha as [_ Hl]. cbn [inner store w1] in Hl.
  assert (w' = outer w1 v) as ->.
  { unfold mbind, eff_bind in Hrun. rewrite Hcall in Hrun. by destruct ra; injection Hrun as <- <-. }
  destruct ra as [seq|e]; [right|left; exact Hl].
  rewrite <- Hk. by eapply appended_one.
Qed.

Lemma park_run item key secs next (w w' : world (Wk S)) r :
  park_item self item key secs next w = (r, w') →
  same_logs (store w) (store w')
  ∨ r = Ok tt ∧ leased item (store w)
    ∧ ∃ after, one_more item (EventKind.NodeParked (wi_node_id item) next after) (store w) (store w').
Proof.
  unfold park_item. rewrite bind_now. cbv zeta. set (after := rfc3339 _).
  intros [(p & w1 & Hp & Hk)|(e & Hp & ->)]%eff_bind_inv; apply call_inv in Hp as (pr & v & Hp & -> & Hr).
  2:{ left. by apply law_park in Hp as [Hl _]. }
  destruct pr as [p'|]; [|done]. injection Hr as ->. apply law_park in Hp as [Hl Hheld].
  destruct p'; [|left; injection Hk as <- <-; exact Hl].
  destruct (Hheld eq_refl) as (stored & Hst & Hf).
  set (w1 := outer w v) in Hk.
  assert (∃ w2, (match key with
      | Some k => call_result (release_tool_reservation k (w_id self) (lease_fence item))
                    ≫= λ _, mret tt
      | None => mret tt end : eff (Wk S) WorkerError unit) w1 = (Ok tt, w2)
    ∧ same_logs (store w1) (store w2)) as (w2 & Hrel & Hl2).
  { destruct key as [k|]; [|by exists w1]. unfold call_result, as_result, mbind, eff_bind.
    pose proof (law_release_reservation k (w_id self) (lease_fence item) (inner w1)) as [Hq _].
    unfold on_store. fold (inner w1).
    destruct (release_tool_reservation k (w_id self) (lease_fence item) (inner w1)) as [rr u].
    by eexists. }
  rewrite (bind_run _ _ _ _ _ Hrel) in Hk.
  pose proof (append_next_logs item (EventKind.NodeParked (wi_node_id item) next after) w2) as Happ.
  unfold recover in Hk. destruct (append_next _ _ w2) as [ra w3]. cbn [snd] in Happ.
  assert (w' = w3 ∧ r = Ok tt) as [-> ->] by (by destruct ra as [[]|]; injection Hk as <- <-).
  destruct Happ as [Happ|(ev & Hev & Happ)].
  - left. intros i. by rewrite Happ, Hl2, Hl.
  - right. split; [done|]. split; [by exists stored|]. exists after, ev. split; [done|].
    intros i. rewrite Happ, Hl2, Hl. done.
Qed.

(** The event an attempt's result is settled by. *)
Inductive settles (item : WorkItem) (key : option string) (duration_ms : Z)
    : result ExecutorError ExecutionResult → EventKind → Prop :=
| settles_result result output w :
    (spill_output (er_output result) (parse_threshold threshold_var) w).1 = Ok output →
    settles item key duration_ms (Ok result) (completed_kind item result output duration_ms key)
| settles_fatal msg :
    settles item key duration_ms (Err (ExecutorError.Fatal msg))
      (EventKind.NodeFailed (wi_node_id item) msg (attempt item) false)
| settles_exhausted secs msg :
    max_attempts item ≤ u32_add (attempt item) 1 →
    settles item key duration_ms (Err (ExecutorError.RateLimited secs))
      (EventKind.NodeFailed (wi_node_id item) msg (attempt item) false).

(** C17: What an attempt came to is recorded once, or not at all: its result, its
    fatal error, or the end of its rate-limited attempts as the one terminal
    event of a turn committed while the item was this claim's, and the item is
    then off the queue; a rate limit before that as one [NodeParked], under the
    lease as well. Any other outcome (the lease was lost, a write failed) leaves
    every log alone. *)
Theorem settle_records_once (item : WorkItem) (res : result ExecutorError ExecutionResult)
    (key : option string) (duration_ms : Z) (w : world (Wk S)) :
  let '(r, w') := settle_result self item res key duration_ms w in
  same_logs (store w) (store w')
  ∨ r = Ok tt ∧
    ((∃ k, settles item key duration_ms res k ∧ settled_by item k (store w) (store w'))
     ∨ ∃ secs after, res = Err (ExecutorError.RateLimited secs)
         ∧ u32_add (attempt item) 1 < max_attempts item ∧ leased item (store w)
         ∧ one_more item (EventKind.NodeParked (wi_node_id item) (u32_add (attempt item) 1) after)
             (store w) (store w')).
Proof.
  destruct (settle_result self item res key duration_ms w) as [r w'] eqn:Hrun.
  unfold settle_result in Hrun. destruct res as [result|[secs|msg]].
  - unfold complete_item in Hrun.
    pose proof (spill_logs (er_output result) (parse_threshold threshold_var) w) as [Hl Hi].
    apply eff_bind_inv in Hrun as [(out & w1 & Hs & Hk)|(e & Hs & ->)]; rewrite Hs in Hl, Hi;
      [|by left].
    apply call_ok_inv in Hs as (v & Hs & ->). apply commit_run in Hk as [Hk|(-> & Hheld & Hone & Hgone)].
    { left. by etransitivity. }
    right. split; [done|left]. eexists. split; [eapply settles_result; by rewrite Hs|].
    cbn [snd] in Hl, Hi. destruct Hheld as (stored & Hst & Hf), Hone as (ev & Hev & Hone). split_and!.
    + exists stored. by rewrite <- Hi.
    + exists ev. split; [done|]. intros i. by rewrite Hone, !Hl.
    + done.
  - cbv zeta in Hrun. case_decide as Hmax.
    + apply commit_run in Hrun as [Hk|[-> Hs]]; [by left|right]. split; [done|left].
      eexists. by split; [apply settles_exhausted|].
    + apply park_run in Hrun as [Hk|(-> & Hheld & after & Hone)]; [by left|right]. split; [done|right].
      exists secs, after. split_and!; [done|lia|done|done].
  - apply commit_run in Hrun as [Hk|[-> Hs]]; [by left|right]. split; [done|left].
    eexists. by split; [apply settles_fatal|].
Qed.
End Settles.

(** ** Effects across workers *)

Section Effects.
Context `{!UuidOps, !ChronoOps, !JsonText, !Sha256Ops, !GuardSerde, !IterOrder ExecutionId,
  !IterOrder N, !IterOrder TenantId, !IterOrder (string * string)} `{!WorkerEnv InMemoryBackend}.

(** The result as its event has it. *)
Definition as_recorded (result : ExecutionResult) (output : Value) (duration_ms : Z)
    : ExecutionResult := {|
  er_output := output; er_state_patch := er_state_patch result; er_duration_ms := duration_ms;
  er_gen_ai_system := er_gen_ai_system result; er_gen_ai_model := er_gen_ai_model result;
  er_input_tokens := er_input_tokens result; er_output_tokens := er_output_tokens result;
  er_finish_reason := er_finish_reason result |}.

Lemma replayed_as_recorded item result output d key :
  ∃ rec, InMemory.idem_effect (completed_kind item result output d (Some key)) = Some (key, rec)
       ∧ replayed_result rec = as_recorded result output d.
Proof.
  eexists. split; [reflexivity|]. unfold replayed_result, as_recorded, str_key, u64_key.
  by destruct (er_gen_ai_system result), (er_gen_ai_model result), (er_input_tokens result),
    (er_output_tokens result), (er_finish_reason result).
Qed.

(** C18: A recorded result replays as itself. Once a worker's turn is committed
    under a key no effect was recorded for, then whatever operations follow and
    whichever worker meets that key again, it calls no executor, touches nothing,
    and goes on with the result the turn recorded: the same output, patch, model,
    tokens and finish reason. *)
Theorem replay_round_trip (self : Worker InMemoryBackend) (item : WorkItem)
    (result : ExecutionResult) (output : Value) (duration_ms : Z) (key : string) (ev : Event)
    (ops : list Op) (w w1 : world InMemoryBackend) (seq : EventSequence)
    (Hev : event_kind ev = completed_kind item result output duration_ms (Some key))
    (Hfree : tool_effects (store w) !! key = None)
    (Hcommit : commit_turn (wi_id item) (lease_fence item) ev true w = (Ok seq, w1)) :
  let w2 := (run_ops ops w1).2 in
  ∃ rec, get_tool_effect key w2 = (Ok (Some rec), w2)
    ∧ ∀ item' tag start (wk : world (Wk InMemoryBackend)),
        replay_or_fire self item' tag key start (Some rec) wk
        = (Ok (Ok (Ok (as_recorded result output duration_ms))), wk).
Proof.
  intros w2. destruct (replayed_as_recorded item result output duration_ms key) as (rec & Hidem & Hrec).
  rewrite <- Hev in Hidem. pose proof (commit_turn_effect _ _ _ _ _ _ _ _ _ Hcommit Hidem) as Heff.
  rewrite Hfree in Heff. cbn [default] in Heff.
  destruct (keeps_run_ops ops w1) as (_ & Ht & _). apply Ht in Heff. fold w2 in Heff.
  exists rec. split.
  - change (get_tool_effect key w2) with (InMemory.get_tool_effect key w2).
    unfold InMemory.get_tool_effect, gets. by rewrite Heff.
  - intros item' tag start wk. unfold replay_or_fire. by rewrite Hrec.
Qed.

(** C16: One effect, one caller at a time. Once a worker has won the reservation of
    an effect, then until it expires no other worker calls an executor under
    that key, whatever operations come between, unless the holder gives the
    reservation up: not at the first try, not at the retry, and not after the
    wait, whatever others do during it. *)
Theorem no_double_fire (holder other : Worker InMemoryBackend) (item item' : WorkItem)
    (key tag : string) (ops : list Op) (w w1 : world InMemoryBackend)
    (wk : world (Wk InMemoryBackend)) (start : Z) (recorded : option Value)
    (Hwon : reserve_for holder item key w = (Ok Acquired, w1))
    (Hok : ops_ok ops w1)
    (Hleave : Forall (leaves_reservation key (w_id holder) (lease_fence item)) ops)
    (Hthen : inner wk = (run_ops ops w1).2)
    (Hlive : clock wk < clock w + default (5 * 60 * NANOS_PER_SEC) (duration_from_std RESERVATION_TTL))
    (Hother : w_id other ≠ w_id holder) :
  fired (store (replay_or_fire other item' tag key start recorded wk).2) = fired (store wk).
Proof.
  destruct (replay_or_fire other item' tag key start recorded wk) as [r w'] eqn:Hrun. cbn [snd].
  apply replay_or_fire_run in Hrun as [_ [Hf|(_ & _ & _ & v & Hv)]]; [done|]. exfalso.
  assert (∃ until, reserve_for other item' key (inner wk) = (Ok (Held (w_id holder) until), inner wk))
    as [until Hheld].
  { eexists. rewrite Hthen. unfold reserve_for in *.
    assert ((run_ops ops w1).2 = (run_ops ops (InMemory.reserve_tool_effect key (wi_execution_id item)
      (wi_node_id item) (w_id holder) (lease_fence item) RESERVATION_TTL w).2).2) as ->.
    { change (InMemory.reserve_tool_effect key (wi_execution_id item) (wi_node_id item) (w_id holder)
        (lease_fence item) RESERVATION_TTL w) with (reserve_tool_effect key (wi_execution_id item)
        (wi_node_id item) (w_id holder) (lease_fence item) RESERVATION_TTL w). by rewrite Hwon. }
    apply (reservation_excludes key (w_id holder) (w_id other)).
    - change (InMemory.reserve_tool_effect key) with (reserve_tool_effect key). by rewrite Hwon.
    - change (InMemory.reserve_tool_effect key) with (reserve_tool_effect key). by rewrite Hwon.
    - done.
    - change (InMemory.reserve_tool_effect key) with (reserve_tool_effect key). rewrite Hwon.
      cbn [snd]. by rewrite <- Hthen.
    - done. }
  destruct Hv as [Hv|(o & u & w3 & Hv & _ & Hv2)]; [congruence|].
  rewrite Hheld in Hv. injection Hv as <- <- <-. congruence.
Qed.
End Effects.

(** ** A worker at work *)

Module WorkSample.
#[local] Existing Instances plain_uuid milli_chrono code_json plain_sha256 GuardSample.plain_serde.
#[local] Existing Instances Sample.order_exec Sample.order_item Sample.order_tenant
  Sample.order_pair.

Definition pay : NodeDef := {|
  Ir.id := "pay"; kind := NodeKind.Tool "wire" ∅ ""; retry_policy := None;
  node_timeout_secs := None; nd_description := None; nd_labels := ∅; nd_policy := None;
  nd_data_policy := None; nd_agent_ref := None |}.

Definition flow : WorkflowIr := {|
  ir_workflow_id := "w"; version := "1.0.0"; name := None; ir_description := None;
  state_schema := ""; start_node := "pay"; nodes := {["pay" := pay]}; edges := [];
  retry_policies := ∅;
  timeouts := {| node_timeout := None; workflow_timeout := None; heartbeat_interval := 0 |};
  models := ∅; tools := ∅; mcp_servers := ∅; remote_agents := ∅; labels := ∅; policy := None;
  token_budget := Some {| tb_input_tokens := Some 10; tb_output_tokens := None;
                          tb_total_tokens := None |};
  cost_budget_usd := None; on_budget_exceeded := None; continue_as_new := false;
  data_policy := None; agent_ref := None |}.

(** A deserializer that knows this workflow; time passes while a worker sleeps. *)
Definition flow_env : WorkerEnv InMemoryBackend := {|
  ir_of_value v := Ok flow; f64_display f := ""; f64_display_4 f := ""; threshold_var := None;
  sleeping d w := World (store w) (clock w + d) (draws w) |}.
#[local] Existing Instance flow_env.

Definition wired : ExecutionResult := {|
  er_output := obj [("ok", Bool true)]; er_state_patch := obj [("y", num 2)]; er_duration_ms := 1;
  er_gen_ai_system := None; er_gen_ai_model := None; er_input_tokens := Some 3;
  er_output_tokens := None; er_finish_reason := Some "stop" |}.

Definition worker (id : string) : Worker InMemoryBackend := {|
  w_id := id; w_agents := None; w_queue_types := ["tool"];
  w_executors := {["tool" := plain_executor (λ _, mret wired)]}; w_sealer := None |}.

Definition run_id : ExecutionId := mkExecutionId 7.
Definition run : WorkflowExecution := {|
  execution_id := run_id; workflow_id := "w"; workflow_version := "1.0.0";
  status := WorkflowStatus.Running; initial_input := obj [("x", num 1)];
  current_state := obj [("x", num 1)]; started_at := 0; updated_at := 0; completed_at := None;
  session_type := None; parent_execution_id := None; segment_number := 0 |}.
Definition queued : WorkItem := {|
  wi_id := 5; wi_execution_id := run_id; wi_node_id := "pay"; queue_type := "tool";
  payload := obj [("workflow_id", Str "w"); ("workflow_version", Str "1.0.0")];
  attempt := 0; max_attempts := 3; wi_created_at := 0; lease_expires_at := None;
  worker_id := None; lease_fence := 0; wi_tenant_id := "default" |}.
Definition definition : WorkflowDefinition := {|
  wd_workflow_id := "w"; wd_version := "1.0.0"; wd_ir := Null; wd_created_at := 0;
  wd_tenant_id := "default" |}.

(** The run is stored and its item claimed by ["w1"]. *)
Definition stored : world InMemoryBackend :=
  ((store_workflow definition ≫= λ _, create_execution run ≫= λ _, enqueue_work_item queued)
     start_world).2.
Definition claimed : result StateBackendError (option WorkItem) * world InMemoryBackend :=
  claim_work_item "w1" ["tool"] stored.
Definition item : WorkItem := match claimed.1 with Ok (Some i) => i | _ => queued end.
Definition at_work : world (Wk InMemoryBackend) :=
  World (mkWk (store claimed.2) [] []) (clock claimed.2) (draws claimed.2).
Definition worked : result WorkerError unit * world (Wk InMemoryBackend) :=
  execute_item (worker "w1") item at_work.

(** The whole iteration: the executor ran once, its result and the tokens it
    spent are recorded, the item is settled and nothing is left running; asked
    again, the worker has nothing to claim. *)
Example worked_once :
  worked.1 = Ok tt ∧ length (fired (store worked.2)) = 1%nat ∧ beats (store worked.2) = []
  ∧ work_items (wk_backend (store worked.2)) !! 5%N = None
  ∧ match event_kind <$> last (view_log (wk_backend (store worked.2)) run_id) with
    | Some (EventKind.NodeCompleted n _ patch _ _ _ _ _ _ _ _ (Some _)) =>
        n = "pay" ∧ get "y" patch = Some (num 2)
        ∧ (b ← get "__budget" patch; get "total_input_tokens" b) = Some (num 3)
    | _ => False
    end
  ∧ (poll_and_execute (worker "w1") worked.2).1 = Ok false.
Proof. vm_compute. split_and!; done. Qed.

Lemma fires_witness :
  ∃ ir nd key w1, start_recorded (worker "w1") item at_work w1
    ∧ fired (store worked.2) = [firing (worker "w1") item "tool" key]
    ∧ defined item ir nd w1 ∧ due (worker "w1") item ir nd key w1.
Proof.
  assert (match fired (store worked.2) with [f] => bool_decide (fi_kind f = "tool") | _ => false end
    = true) as Hone by (vm_compute; reflexivity).
  destruct (fires_only_when_due (worker "w1") item at_work)
    as [Hf|(ir & nd & key & w1 & Hst & Hf & _ & Hd & Hdue)];
    fold worked in Hf; rewrite Hf in Hone; cbn [fired at_work store] in Hone; [discriminate Hone|].
  apply bool_decide_eq_true in Hone. unfold firing in Hone. cbn [fi_kind] in Hone.
  exists ir, nd, key, w1. split_and!; [exact Hst|by rewrite Hf, Hone|exact Hd|exact Hdue].
Defined.

Lemma stops_witness : beats (store worked.2) = [].
Proof.
  assert (is_ok worked.1 = true) as Hok by (vm_compute; reflexivity).
  pose proof (heartbeat_stops (worker "w1") item at_work) as Hstop.
  specialize (Hstop (not_elem_of_nil _)). fold worked in Hstop. destruct worked as [r w'].
  destruct Hstop as [Hb|(_ & key & w1 & e & _ & ->)]; [exact Hb|discriminate Hok].
Defined.

(** A fatal error of the claimed item. *)
Definition broken : result WorkerError unit * world (Wk InMemoryBackend) :=
  settle_result (worker "w1") item (Err (ExecutorError.Fatal "boom")) (Some "k") 4 at_work.

Lemma records_witness :
  settled_by item (EventKind.NodeFailed "pay" "boom" 0 false) (store at_work) (store broken.2).
Proof.
  assert (length (view_log (wk_backend (store broken.2)) run_id)
    ≠ length (view_log (wk_backend (store at_work)) run_id)) as Hlen by (vm_compute; done).
  assert (wi_node_id item = "pay" ∧ attempt item = 0) as [Hn Ha] by (vm_compute; done).
  pose proof (settle_records_once (worker "w1") item (Err (ExecutorError.Fatal "boom")) (Some "k") 4
    at_work) as Hs.
  fold broken in Hs. destruct broken as [r w']. cbn [snd] in *.
  destruct Hs as [Hs|(_ & [(k & Hk & Hset)|(secs & after & Hr & _)])].
  - destruct Hlen. by rewrite Hs.
  - inversion Hk; subst. rewrite Hn, Ha in Hset. exact Hset.
  - discriminate Hr.
Defined.

(** The result committed under ["k"], then a minute passes. *)
Definition committed : Event := {|
  event_id := 1; event_execution_id := run_id; sequence := 0;
  event_kind := completed_kind item wired (er_output wired) 4 (Some "k"); created_at := 0 |}.
Definition turn : result StateBackendError EventSequence * world InMemoryBackend :=
  commit_turn (wi_id item) (lease_fence item) committed true claimed.2.

Lemma replay_witness :
  ∃ rec, get_tool_effect "k" (run_ops [OpTick (60 * NANOS_PER_SEC)] turn.2).2
         = (Ok (Some rec), (run_ops [OpTick (60 * NANOS_PER_SEC)] turn.2).2)
    ∧ (replay_or_fire (worker "w2") item "tool" "k" 0 (Some rec) at_work).2 = at_work.
Proof.
  assert (is_ok turn.1 = true) as Hok by (vm_compute; reflexivity).
  assert (tool_effects (store claimed.2) !! "k" = None) as Hfree by (vm_compute; reflexivity).
  destruct turn as [[seq|e] w1] eqn:Hturn; [|discriminate Hok]. cbn [snd].
  destruct (replay_round_trip (worker "w2") item wired (er_output wired) 4 "k" committed
    [OpTick (60 * NANOS_PER_SEC)] claimed.2 w1 seq eq_refl Hfree Hturn) as (rec & Hget & Hreplay).
  exists rec. split; [exact Hget|]. by rewrite (Hreplay item "tool" 0 at_work).
Defined.

(** ["w1"] has won the reservation; ten seconds later ["w2"] meets the key. *)
Definition won_by_w1 : result StateBackendError ReserveOutcome * world InMemoryBackend :=
  reserve_for (worker "w1") item "k" claimed.2.
Definition ten_seconds_later : world InMemoryBackend :=
  (run_ops [OpTick (10 * NANOS_PER_SEC)] won_by_w1.2).2.
Definition second_at_work : world (Wk InMemoryBackend) :=
  World (mkWk (store ten_seconds_later) [] []) (clock ten_seconds_later) (draws ten_seconds_later).

Lemma double_fire_witness :
  fired (store (replay_or_fire (worker "w2") item "tool" "k" 0 None second_at_work).2) = [].
Proof.
  assert (match won_by_w1.1 with Ok Acquired => true | _ => false end = true) as Hok
    by (vm_compute; reflexivity).
  assert (clock second_at_work < clock claimed.2 + default (5 * 60 * NANOS_PER_SEC)
    (duration_from_std RESERVATION_TTL)) as Hlive by (vm_compute; reflexivity).
  assert (inner second_at_work = ten_seconds_later) as Hthen
    by (unfold second_at_work, inner; cbn [store wk_backend clock draws]; by destruct ten_seconds_later).
  unfold ten_seconds_later in Hthen.
  destruct won_by_w1 as [[[|o u]|e] w1] eqn:Hwon; try discriminate Hok. cbn [snd] in Hthen.
  refine (no_double_fire (worker "w1") (worker "w2") item item "k" "tool"
    [OpTick (10 * NANOS_PER_SEC)] claimed.2 w1 second_at_work 0 None Hwon _ _ Hthen Hlive _);
    [repeat split; done|repeat constructor|done].
Defined.
End WorkSample.
