(* ===== verification/Models.v ===== *)
(** * Model calls ([models/src/adapter.rs], [registry.rs])

    Requests and responses of a chat model, the registry that picks the adapter of
    a call, and the registry a process builds from its environment. The adapters
    themselves talk to a provider over the network: they are parameters. *)

From S2P Require Import Prelude.
From S2P Require Import Json.
From S2P Require Import RustStr.

Module ModelError.
Inductive ModelError :=
| Api (status : Z) (body : string)
| RateLimited (retry_after_secs : Z)
| ContextWindowExceeded (input_tokens limit : Z)
| Network (msg : string)
| Serialization (msg : string)
| Timeout.

Definition display (e : ModelError) : string :=
  match e with
  | Api status body => "provider API error (" +:+ pretty status +:+ "): " +:+ body
  | RateLimited secs => "rate limited — retry after " +:+ pretty secs +:+ "s"
  | ContextWindowExceeded tokens limit =>
      "context window exceeded: " +:+ pretty tokens +:+ " tokens > " +:+ pretty limit +:+ " limit"
  | Network msg => "network error: " +:+ msg
  | Serialization msg => "serialization error: " +:+ msg
  | Timeout => "timeout"
  end.
End ModelError.
Abbreviation ModelError := ModelError.ModelError.

Module ChatRole.
Inductive ChatRole := System | User | Assistant | Tool.
End ChatRole.
Abbreviation ChatRole := ChatRole.ChatRole.

Record ChatMessage := { role : ChatRole; content : string }.
Definition system_message (content : string) : ChatMessage :=
  {| role := ChatRole.System; content := content |}.
Definition user_message (content : string) : ChatMessage :=
  {| role := ChatRole.User; content := content |}.
Definition assistant_message (content : string) : ChatMessage :=
  {| role := ChatRole.Assistant; content := content |}.

Record ModelConfig := {
  mc_model : option string;
  mc_max_tokens : option Z;
  mc_temperature : option spec_float;
  mc_system_prompt : option string;
  mc_stop_sequences : option (list string);
}.
Definition ModelConfig_default : ModelConfig := {|
  mc_model := None; mc_max_tokens := None; mc_temperature := None; mc_system_prompt := None;
  mc_stop_sequences := None |}.

Record ToolCall := { tc_id : string; tc_name : string; tc_arguments : Value }.

Record ModelRequest := { rq_messages : list ChatMessage; rq_config : ModelConfig; rq_tools : list Value }.
Definition ModelRequest_new (messages : list ChatMessage) : ModelRequest :=
  {| rq_messages := messages; rq_config := ModelConfig_default; rq_tools := [] |}.
Definition with_config (r : ModelRequest) (config : ModelConfig) : ModelRequest :=
  {| rq_messages := rq_messages r; rq_config := config; rq_tools := rq_tools r |}.
Definition with_tools (r : ModelRequest) (tools : list Value) : ModelRequest :=
  {| rq_messages := rq_messages r; rq_config := rq_config r; rq_tools := tools |}.

Record StructuredRequest := {
  sr_messages : list ChatMessage; sr_config : ModelConfig; sr_output_schema : Value;
}.

Record ModelResponse := {
  mr_content : string; mr_model : string; mr_finish_reason : string; mr_input_tokens : Z;
  mr_output_tokens : Z; mr_structured : option Value; mr_tool_calls : list ToolCall;
}.

(** [trait ModelAdapter]: what a provider does is an effect on the world. *)
Record ModelAdapter (S : Type) := {
  system_name : string;
  default_model : string;
  adapter_chat : ModelRequest → eff S ModelError ModelResponse;
  adapter_structured_output : StructuredRequest → eff S ModelError ModelResponse;
}.
Arguments system_name {S} _.
Arguments default_model {S} _.
Arguments adapter_chat {S} _ _.
Arguments adapter_structured_output {S} _ _.

(** ** The registry *)

Record ModelRegistry (S : Type) := {
  adapters : gmap string (ModelAdapter S);
  prefix_routes : list (string * string);
  default_system : option string;
}.
Arguments adapters {S} _.
Arguments prefix_routes {S} _.
Arguments default_system {S} _.
Arguments Build_ModelRegistry {S} _ _ _.

Section Registry.
Context {S : Type}.

Definition ModelRegistry_new : ModelRegistry S := Build_ModelRegistry ∅ [] None.
Definition register_adapter (adapter : ModelAdapter S) (r : ModelRegistry S) : ModelRegistry S :=
  Build_ModelRegistry (<[system_name adapter := adapter]> (adapters r)) (prefix_routes r)
    (default_system r).
Definition route_prefix (prefix system : string) (r : ModelRegistry S) : ModelRegistry S :=
  Build_ModelRegistry (adapters r) (prefix_routes r ++ [(prefix, system)]) (default_system r).
Definition with_default (system : string) (r : ModelRegistry S) : ModelRegistry S :=
  Build_ModelRegistry (adapters r) (prefix_routes r) (Some system).

(** The first matching route whose system has an adapter. *)
Fixpoint routed (adapters : gmap string (ModelAdapter S)) (model : string)
    (routes : list (string * string)) : option (ModelAdapter S) :=
  match routes with
  | [] => None
  | (prefix, system) :: routes =>
      if starts_with prefix model then
        match adapters !! system with Some a => Some a | None => routed adapters model routes end
      else routed adapters model routes
  end.

Definition resolve (r : ModelRegistry S) (model : string) : option (ModelAdapter S) :=
  match routed (adapters r) model (prefix_routes r) with
  | Some a => Some a
  | None =>
      match default_system r with
      | Some d => adapters r !! d
      | None => if decide (size (adapters r) = 1%nat) then head (map_to_list (adapters r)).*2 else None
      end
  end.

Definition no_adapter (model : string) : ModelError :=
  ModelError.Network ("no adapter for model: " +:+ model).

Definition chat (r : ModelRegistry S) (request : ModelRequest) : eff S ModelError ModelResponse :=
  let model := default "" (mc_model (rq_config request)) in
  adapter ← of_result (ok_or (no_adapter model) (resolve r model));
  adapter_chat adapter request.

Definition structured_output (r : ModelRegistry S) (request : StructuredRequest)
    : eff S ModelError ModelResponse :=
  let model := default "" (mc_model (sr_config request)) in
  adapter ← of_result (ok_or (no_adapter model) (resolve r model));
  adapter_structured_output adapter request.

(** ** The registry of the environment *)

(** What the environment gives: the adapter of each provider whose key (or host)
    is set, the URL of the seam, the adapter of a sidecar, and its health probe. *)
Record ModelEnv := {
  env_anthropic : option (ModelAdapter S);
  env_openai : option (ModelAdapter S);
  env_google : option (ModelAdapter S);
  env_ollama : option (ModelAdapter S);
  env_seam_url : option string;
  env_sidecar : string → ModelAdapter S;
  env_sidecar_health : string → result ModelError unit;
}.

Definition STANDARD_ROUTES : list (string * string) :=
  [("anthropic/", "anthropic"); ("openai/", "openai"); ("google/", "google");
   ("claude-", "anthropic"); ("gpt-", "openai"); ("o1-", "openai"); ("o3-", "openai");
   ("gemini-", "google"); ("llama", "ollama"); ("qwen", "ollama"); ("gemma", "ollama");
   ("phi", "ollama"); ("mistral", "ollama"); ("codellama", "ollama"); ("deepseek", "ollama");
   ("nomic-", "ollama")].

(** A provider's adapter, made the default when there is none yet. *)
Definition add_provider (name : string) (a : option (ModelAdapter S)) (r : ModelRegistry S)
    : ModelRegistry S :=
  match a with
  | Some a =>
      let r := register_adapter a r in
      match default_system r with None => with_default name r | Some _ => r end
  | None => r
  end.

Definition apply_sidecar (env : ModelEnv) (_registry : ModelRegistry S) (url : string)
    : ModelRegistry S :=
  with_default "sidecar" (register_adapter (env_sidecar env url) ModelRegistry_new).

Definition registry_from_env (env : ModelEnv) : ModelRegistry S :=
  let registry := foldl (λ r ps, route_prefix ps.1 ps.2 r) ModelRegistry_new STANDARD_ROUTES in
  let registry := match env_anthropic env with
    | Some a => with_default "anthropic" (register_adapter a registry)
    | None => registry
    end in
  let registry := add_provider "openai" (env_openai env) registry in
  let registry := add_provider "google" (env_google env) registry in
  let registry := add_provider "ollama" (env_ollama env) registry in
  match env_seam_url env with
  | Some url => apply_sidecar env registry url
  | None => registry
  end.

Definition registry_from_env_checked (env : ModelEnv) : result ModelError (ModelRegistry S) :=
  let registry := registry_from_env env in
  match env_seam_url env with
  | Some url => _ ← env_sidecar_health env url; Ok registry
  | None => Ok registry
  end.
End Registry.

(** ** Where a call goes *)

Section Routing.
Context {S : Type}.
Implicit Types (r : ModelRegistry S) (a : ModelAdapter S).

(** The names under which the environment's adapters are registered. *)
Record env_named (env : ModelEnv (S := S)) : Prop := {
  named_anthropic a : env_anthropic env = Some a → system_name a = "anthropic";
  named_openai a : env_openai env = Some a → system_name a = "openai";
  named_google a : env_google env = Some a → system_name a = "google";
  named_ollama a : env_ollama env = Some a → system_name a = "ollama";
  named_sidecar url : system_name (env_sidecar env url) = "sidecar";
}.

(** The providers in the order in which one becomes the default. *)
Definition provider (env : ModelEnv) (system : string) : option (ModelAdapter S) :=
  if decide (system = "anthropic") then env_anthropic env
  else if decide (system = "openai") then env_openai env
  else if decide (system = "google") then env_google env
  else if decide (system = "ollama") then env_ollama env else None.

Definition first_provider (env : ModelEnv) : option (ModelAdapter S) :=
  head (omap (provider env) ["anthropic"; "openai"; "google"; "ollama"]).

(** The adapter a model's name calls for: the provider of the first prefix it has
    that is there, else the first provider there is. *)
Definition intended_adapter (env : ModelEnv) (model : string) : option (ModelAdapter S) :=
  match head (omap (λ ps, if starts_with ps.1 model then provider env ps.2 else None)
    STANDARD_ROUTES) with
  | Some a => Some a
  | None => first_provider env
  end.

Lemma routed_spec m model routes :
  routed m model routes
  = head (omap (λ ps, if starts_with ps.1 model then (m : gmap string (ModelAdapter S)) !! ps.2 else None) routes).
Proof.
  induction routes as [|[p s] routes IH]; [done|]. cbn. rewrite IH.
  destruct (starts_with p model); [|done]. destruct (m !! s); reflexivity.
Qed.

Lemma routes_ext {A} (f g : string → option A) model (routes : list (string * string)) : (∀ s, f s = g s) →
  omap (λ ps, if starts_with ps.1 model then f ps.2 else None) routes
  = omap (λ ps : string * string, if starts_with ps.1 model then g ps.2 else None) routes.
Proof.
  intros E. induction routes as [|[p s] routes IH]; [done|]. cbn. rewrite E, IH. done.
Qed.

Lemma from_env_fields env : env_named env → env_seam_url env = None →
  let r := registry_from_env env in
  prefix_routes r = STANDARD_ROUTES
  ∧ (∀ s, adapters r !! s = provider env s)
  ∧ (d ← default_system r; adapters r !! d) = first_provider env
  ∧ (default_system r = None → adapters r = ∅).
Proof.
  intros [Ha Ho Hg Hl _] Hseam. unfold registry_from_env. rewrite Hseam. unfold add_provider.
  destruct (env_anthropic env) as [a1|] eqn:E1, (env_openai env) as [a2|] eqn:E2,
    (env_google env) as [a3|] eqn:E3, (env_ollama env) as [a4|] eqn:E4;
    first [specialize (Ha _ eq_refl)|clear Ha]; first [specialize (Ho _ eq_refl)|clear Ho];
    first [specialize (Hg _ eq_refl)|clear Hg]; first [specialize (Hl _ eq_refl)|clear Hl];
    unfold register_adapter, with_default, first_provider, provider; cbn;
    try rewrite Ha; try rewrite Ho; try rewrite Hg; try rewrite Hl; rewrite ?E1, ?E2, ?E3, ?E4;
    cbn; split_and!; try done;
    try (intros s; repeat case_decide; subst; by simplify_map_eq); by simplify_map_eq.
Qed.

(** The adapter a call that names a model must reach: the sidecar when a seam is
    configured, else the one the model's name calls for. *)
Definition governing_adapter (env : ModelEnv) (model : string) : option (ModelAdapter S) :=
  match env_seam_url env with
  | Some url => Some (env_sidecar env url)
  | None => intended_adapter env model
  end.

Lemma resolve_from_env env model : env_named env →
  resolve (registry_from_env env) model = governing_adapter env model.
Proof.
  intros Hnamed. unfold governing_adapter. destruct (env_seam_url env) as [url|] eqn:Hseam.
  - unfold registry_from_env. rewrite Hseam. unfold apply_sidecar, resolve. cbn.
    by rewrite (named_sidecar _ Hnamed), lookup_insert_eq.
  - destruct (from_env_fields env Hnamed Hseam) as (Hp & Ha & Hd & He).
    unfold resolve, intended_adapter. rewrite Hp, routed_spec.
    rewrite (routes_ext (λ s, adapters (registry_from_env env) !! s) (provider env) model _ Ha), <- Hd.
    destruct (head _); [done|]. destruct (default_system _) as [d|]; [done|].
    by rewrite (He eq_refl).
Qed.

(** What a call comes to when that adapter serves it. *)
Definition served_by (a : option (ModelAdapter S)) (model : string)
    (call : ModelAdapter S → eff S ModelError ModelResponse) : eff S ModelError ModelResponse :=
  λ w, match a with
       | Some a => call a w
       | None => (Err (ModelError.Network ("no adapter for model: " +:+ model)), w)
       end.

(** C27: Where a call through the registry built from the environment goes, a chat
    or one for structured output. With a seam configured every such call, whatever
    model it names, is served by the sidecar's adapter and is exactly what that
    adapter makes of the request: no provider's adapter is reachable through the
    registry. Without a seam a call is served by the provider of the first of the
    standard prefixes its model has among the providers that are there, else by the
    first provider there is in the order anthropic, openai, google, ollama, and it
    fails with a network error that leaves the world alone when there is none. The
    one assumption is that each adapter answers to its own system name, the constant
    its [system_name] returns; what an adapter does is a parameter. *)
Theorem model_route_correct (env : ModelEnv) (Hnamed : env_named env) :
  (∀ request w, let model := default "" (mc_model (rq_config request)) in
     chat (registry_from_env env) request w
     = served_by (governing_adapter env model) model (λ a, adapter_chat a request) w)
  ∧ (∀ request w, let model := default "" (mc_model (sr_config request)) in
     structured_output (registry_from_env env) request w
     = served_by (governing_adapter env model) model (λ a, adapter_structured_output a request) w).
Proof.
  split; intros request w model.
  - unfold chat. fold model. rewrite (resolve_from_env env model Hnamed). by destruct (governing_adapter env model).
  - unfold structured_output. fold model. rewrite (resolve_from_env env model Hnamed).
    by destruct (governing_adapter env model).
Qed.
End Routing.

(** ** Witness *)

Module ModelsSample.
Definition answers (name : string) : ModelAdapter unit := {|
  system_name := name; default_model := name;
  adapter_chat rq w := (Ok {| mr_content := name; mr_model := default "" (mc_model (rq_config rq));
    mr_finish_reason := "stop"; mr_input_tokens := 1; mr_output_tokens := 1; mr_structured := None;
    mr_tool_calls := [] |}, w);
  adapter_structured_output rq w := (Ok {| mr_content := name; mr_model := "structured";
    mr_finish_reason := "stop"; mr_input_tokens := 1; mr_output_tokens := 1;
    mr_structured := Some (sr_output_schema rq); mr_tool_calls := [] |}, w) |}.
(** OpenAI and Ollama are there, Anthropic and Google are not. *)
Definition env (seam : option string) : ModelEnv := {|
  env_anthropic := None; env_openai := Some (answers "openai"); env_google := None;
  env_ollama := Some (answers "ollama"); env_seam_url := seam;
  env_sidecar _ := answers "sidecar"; env_sidecar_health _ := Ok tt |}.
Definition ask (model : string) : ModelRequest :=
  with_config (ModelRequest_new [user_message "hi"]) {| mc_model := Some model;
    mc_max_tokens := None; mc_temperature := None; mc_system_prompt := None;
    mc_stop_sequences := None |}.
Definition answered_by (seam : option string) (model : string) : result ModelError string :=
  mr_content <$> (chat (registry_from_env (env seam)) (ask model) (World tt 0 0%N)).1.
Definition structured_by (seam : option string) (model : string) : result ModelError string :=
  mr_content <$> (structured_output (registry_from_env (env seam))
    {| sr_messages := rq_messages (ask model); sr_config := rq_config (ask model);
       sr_output_schema := Null |} (World tt 0 0%N)).1.

Lemma named seam : env_named (env seam).
Proof. constructor; cbn; intros; by simplify_eq. Qed.

(** A Claude model has no provider here and goes to the default one; with a seam
    both kinds of call go to the sidecar. *)
Lemma route_witness :
  (answered_by None "llama3" = Ok "ollama" ∧ answered_by None "claude-opus" = Ok "openai"
   ∧ answered_by (Some "http://seam") "llama3" = Ok "sidecar")
  ∧ structured_by None "llama3" = Ok "ollama" ∧ structured_by None "claude-opus" = Ok "openai"
  ∧ structured_by (Some "http://seam") "llama3" = Ok "sidecar".
Proof.
  unfold answered_by, structured_by. split.
  - rewrite !(proj1 (model_route_correct _ (named _))). vm_compute. done.
  - rewrite !(proj2 (model_route_correct _ (named _))). vm_compute. done.
Defined.
End ModelsSample.
