(* ===== verification/Executors.v ===== *)
(** * Executors of model, condition and eval nodes
    ([workers/src/executors/model_node.rs], [condition_node.rs], [eval.rs])

    What a worker runs for the node kinds the server itself executes: a call of a
    model, the choice of a branch, and the scorers of an eval node. *)

From Stdlib Require Import Ascii.
From S2P Require Import Prelude.
From S2P Require Import Json.
From S2P Require Import RustStr.
From S2P Require Import Core.
From S2P Require Import Condition.
From S2P Require Import Budget.
From S2P Require Import Backend.
From S2P Require Import Artifact.
From S2P Require Import Models.
From S2P Require Import Worker.

(** The branches of a condition node as its executor reads them. *)
Record BranchDef := { bd_condition : option string; bd_target : string }.

(** Derived deserializers, and [format!("{x:.n}")] of a double. *)
Class ExecSerde := {
  branches_from_value : Value → result string (list BranchDef);
  scorers_from_value : Value → option (list EvalScorer);
  on_fail_from_value : Value → option EvalOnFail;
  f64_fixed : Z → f64 → string;
}.

(** ** Strings and numbers *)

(** [as_f64]. *)
Definition as_f64 (v : Value) : option f64 :=
  match v with
  | Num (PosInt n) | Num (NegInt n) => Some (f64_of_Z n)
  | Num (Float f) => Some f
  | _ => None
  end.

(** [find(c)], [rfind(c)] and [find(p)]: byte positions. *)
Fixpoint find_char (c : ascii) (s : string) : option nat :=
  match s with
  | EmptyString => None
  | String a s => if decide (a = c) then Some O else S <$> find_char c s
  end.
Fixpoint rfind_char (c : ascii) (s : string) : option nat :=
  match s with
  | EmptyString => None
  | String a s =>
      match rfind_char c s with
      | Some i => Some (S i)
      | None => if decide (a = c) then Some O else None
      end
  end.
Fixpoint find_str (p s : string) : option nat :=
  if starts_with p s then Some O
  else match s with EmptyString => None | String _ s => S <$> find_str p s end.

(** [strip_suffix(p)]. *)
Definition strip_suffix (p s : string) : option string :=
  let n := (String.length s - String.length p)%nat in
  if decide (str_drop n s = p) then Some (str_take n s) else None.

(** [trim_matches(c)] of an ASCII character. *)
Fixpoint drop_char (c : N) (l : list N) : list N :=
  match l with b :: l' => if decide (b = c) then drop_char c l' else l | [] => [] end.
Definition trim_matches (c : N) (s : string) : string :=
  of_bytes (reverse (drop_char c (reverse (drop_char c (bytes s))))).

(** [parse::<i64>()]. *)
Definition parse_i64 (s : string) : option Z :=
  let '(neg, ds) := match bytes s with
    | 43%N :: l => (false, l) | 45%N :: l => (true, l) | l => (false, l)
    end in
  match ds with
  | [] => None
  | _ =>
      v ← digits_value 0 ds;
      let v := if neg : bool then - v else v in
      if decide (- 2 ^ 63 ≤ v < 2 ^ 63) then Some v else None
  end.

Section Executors.
Context `{!JsonText, !ExecSerde} {S : Type}.
Abbreviation Ex A := (eff S ExecutorError A).

Definition plain_result (output state_patch : Value) (duration_ms : Z) : ExecutionResult := {|
  er_output := output; er_state_patch := state_patch; er_duration_ms := duration_ms;
  er_gen_ai_system := None; er_gen_ai_model := None; er_input_tokens := None;
  er_output_tokens := None; er_finish_reason := None |}.

(** ** Model nodes *)

Section Model.
Context (registry : ModelRegistry S).

Definition payload_message (msg : Value) : ChatMessage :=
  let role := default "user" (str_key "role" msg) in
  let content := default "" (str_key "content" msg) in
  if decide (role = "system") then system_message content
  else if decide (role = "assistant") then assistant_message content
  else user_message content.

Definition payload_messages (p : Value) : list ChatMessage :=
  let prompt := default "" (str_key "prompt" p) in
  if negb (str_is_empty prompt) then [user_message prompt]
  else match get "messages" p ≫= as_array with
  | Some msgs => payload_message <$> msgs
  | None => []
  end.

Definition payload_model (p : Value) : string :=
  default "anthropic/claude-sonnet-4-6" (str_key "model" p).

Definition payload_config (p : Value) : Models.ModelConfig := {|
  mc_model := Some (payload_model p);
  mc_max_tokens := wrap_u32 <$> u64_key "max_tokens" p;
  mc_temperature := f32_of_f64 <$> (get "temperature" p ≫= as_f64);
  mc_system_prompt := str_key "system_prompt" p;
  mc_stop_sequences := None |}.

Definition model_request (p : Value) : ModelRequest :=
  with_tools (with_config (ModelRequest_new (payload_messages p)) (payload_config p))
    (default [] (get "tools" p ≫= as_array)).

(** The provider a response's model name says. *)
Definition gen_ai_system (model : string) : string :=
  let bare := match split_once "/" model with Some (_, m) => m | None => model end in
  if starts_with "anthropic/" model || starts_with "claude" bare then "anthropic"
  else if starts_with "openai/" model || starts_with "gpt" bare || starts_with "o1" bare
  then "openai" else "unknown".

Definition tool_call_value (tc : ToolCall) : Value :=
  obj [("id", Str (tc_id tc)); ("name", Str (tc_name tc)); ("arguments", tc_arguments tc)].

Definition model_result (r : ModelResponse) (duration_ms : Z) : ExecutionResult :=
  let tool_calls := Array (tool_call_value <$> mr_tool_calls r) in
  {| er_output := obj [("content", Str (mr_content r)); ("model", Str (mr_model r));
       ("finish_reason", Str (mr_finish_reason r)); ("tool_calls", tool_calls)];
     er_state_patch := obj [("last_model_output", Str (mr_content r));
       ("last_model_finish_reason", Str (mr_finish_reason r));
       ("last_model_tool_calls", tool_calls)];
     er_duration_ms := duration_ms;
     er_gen_ai_system := Some (gen_ai_system (mr_model r));
     er_gen_ai_model := Some (mr_model r);
     er_input_tokens := Some (mr_input_tokens r);
     er_output_tokens := Some (mr_output_tokens r);
     er_finish_reason := Some (mr_finish_reason r) |}.

Definition executor_error (e : ModelError) : ExecutorError :=
  match e with
  | ModelError.RateLimited secs => ExecutorError.RateLimited secs
  | e => ExecutorError.Fatal ("Model call failed: " +:+ ModelError.display e)
  end.

(** [ModelNodeExecutor::execute]. *)
Definition model_execute (item : WorkItem) : Ex ExecutionResult :=
  start ← utc_now;
  if decide (payload_messages (payload item) = [])
  then raise (ExecutorError.Fatal "ModelNodeExecutor: no prompt or messages provided")
  else
    response ← with_err executor_error (chat registry (model_request (payload item)));
    now ← utc_now;
    mret (model_result response (elapsed_ms start now)).
End Model.

(** ** Condition nodes *)

(** The loop over the branches: the first whose expression holds, the first
    without one. *)
Definition branch_step (state : Value) (acc : option string * option string) (b : BranchDef)
    : option string * option string :=
  let '(chosen, default_branch) := acc in
  match bd_condition b with
  | Some expr =>
      if bool_decide (chosen = None) && eval_condition expr state
      then (Some (bd_target b), default_branch) else acc
  | None => if decide (default_branch = None) then (chosen, Some (bd_target b)) else acc
  end.

Definition choose_branch (branches : list BranchDef) (state : Value) : option string :=
  let '(chosen, default_branch) := foldl (branch_step state) (None, None) branches in
  match chosen with Some t => Some t | None => default_branch end.

Definition routing_output (branches : list BranchDef) (state : Value) : Value :=
  obj [("chosen_target", opt_val Str (choose_branch branches state));
       ("branch_targets", Array (Str ∘ bd_target <$> branches))].

(** [ConditionNodeExecutor::execute]. *)
Definition condition_execute (item : WorkItem) : Ex ExecutionResult :=
  start ← utc_now;
  now ← utc_now;
  let noop := plain_result (obj []) (obj []) (elapsed_ms start now) in
  match get "branches" (payload item) with
  | None => mret noop
  | Some raw =>
      branches ← of_result (map_err (λ e, ExecutorError.Fatal ("condition node `" +:+ wi_node_id item
        +:+ "`: malformed `branches` payload — expected an array of {condition, target} objects; "
        +:+ e)) (branches_from_value raw));
      if decide (branches = []) then mret noop
      else
        let state := default (obj []) (get "state" (payload item)) in
        mret (plain_result (routing_output branches state) (obj []) (elapsed_ms start now))
  end.

(** ** Eval nodes *)

Record ScorerResult := {
  scorer_type : string; passed : bool; score : option f64; message : string;
}.

(** [eval_numeric_comparison]: an operator that is not there, or a number that
    does not parse, falls through to the next and at last passes. *)
Definition compare_with (op : string) (cmp : Z → Z → bool) (actual : Z) (s : string)
    (otherwise : bool) : bool :=
  match strip_prefix op s with
  | Some rhs => match parse_i64 (trim rhs) with Some n => cmp actual n | None => otherwise end
  | None => otherwise
  end.
Definition eval_numeric_comparison (actual : Z) (op_and_rhs : string) : bool :=
  let s := trim op_and_rhs in
  compare_with ">= " (λ a n, n <=? a) actual s
    (compare_with "> " (λ a n, n <? a) actual s
      (compare_with "<= " Z.leb actual s
        (compare_with "< " Z.ltb actual s
          (compare_with "== " Z.eqb actual s true)))).

Definition unquote (s : string) : string := trim_matches 34 (trim_matches 39 (trim s)).

Definition array_len (v : option Value) : Z :=
  match v ≫= as_array with Some a => Z.of_nat (length a) | None => 0 end.

(** [eval_assertion]: a pattern it does not know passes. *)
Definition len_assertion (check : string) (subject : Value) : option bool :=
  inner ← strip_prefix "len(output." check;
  paren_end ← find_char ")" inner;
  let field := str_take paren_end inner in
  Some (eval_numeric_comparison (wrap_i64 (array_len (get field subject)))
    (trim (str_drop (paren_end + 1)%nat inner))).

Definition field_assertion (check : string) (subject : Value) : option bool :=
  rest ← strip_prefix "output." check;
  match find_str " == " rest with
  | Some eq_pos =>
      let field := trim (str_take eq_pos rest) in
      let expected := unquote (str_drop (eq_pos + 4)%nat rest) in
      Some (bool_decide (default "" (str_key field subject) = expected))
  | None =>
      ne_pos ← find_str " != " rest;
      let field := trim (str_take ne_pos rest) in
      let expected_raw := trim (str_drop (ne_pos + 4)%nat rest) in
      if decide (expected_raw = "null" ∨ expected_raw = "None")
      then Some (negb (match get field subject with Some v => is_null v | None => true end))
      else None
  end.

Definition eval_assertion (check0 : string) (subject : Value) : bool :=
  let check := trim check0 in
  match strip_suffix " in output" check with
  | Some rest =>
      match as_object subject with
      | Some m => map_contains (unquote rest) m
      | None => false
      end
  | None =>
      match len_assertion check subject with
      | Some b => b
      | None => default true (field_assertion check subject)
      end
  end.

Definition run_assertions (checks : list string) (subject : Value) : ScorerResult :=
  let failures := base.filter (λ c, eval_assertion c subject = false) checks in
  match failures with
  | [] => {| scorer_type := "assertion"; passed := true; score := Some (f64_of_Z 1);
             message := "all " +:+ pretty (Z.of_nat (length checks)) +:+ " assertions passed" |}
  | _ => {| scorer_type := "assertion"; passed := false; score := Some f64_zero;
            message := "failed assertions: " +:+ str_join "; " failures |}
  end.

Definition run_latency (threshold_ms actual_ms : Z) : ScorerResult := {|
  scorer_type := "latency"; passed := actual_ms <=? threshold_ms;
  score := Some (f64_of_Z actual_ms);
  message := pretty actual_ms +:+ "ms (threshold: " +:+ pretty threshold_ms +:+ "ms)" |}.

Definition run_cost (threshold_usd actual_usd : f64) : ScorerResult := {|
  scorer_type := "cost"; passed := f64_le actual_usd threshold_usd; score := Some actual_usd;
  message := "$" +:+ f64_fixed 6 actual_usd +:+ " (threshold: $" +:+ f64_fixed 4 threshold_usd
    +:+ ")" |}.

Definition run_custom (module : string) : ScorerResult := {|
  scorer_type := "custom"; passed := true; score := None;
  message := "custom scorer '" +:+ module +:+ "' delegated to Python worker" |}.

(** *** The judge *)

(** From the first [{] to the last [}]; [None] is the panic of a slice whose end
    is before its start. *)
Definition json_slice (content : string) : option (option string) :=
  match find_char "{" content, rfind_char "}" content with
  | Some start, Some end_ =>
      if decide (end_ + 1 < start)%nat then None
      else Some (Some (str_take (end_ + 1 - start)%nat (str_drop start content)))
  | _, _ => Some None
  end.

Definition judge_failed (message : string) : ScorerResult :=
  {| scorer_type := "llm_judge"; passed := false; score := None; message := message |}.

(** The score is cut to a byte. *)
Definition judge_score (obj : Value) : Z := default 0 (u64_key "score" obj) `mod` 2 ^ 8.

Definition judged (min_score : Z) (content : string) : option ScorerResult :=
  slice ← json_slice content;
  Some match slice ≫= parse_json with
  | Some obj =>
      let score := judge_score obj in
      let reason := default "no reason" (str_key "reason" obj) in
      {| scorer_type := "llm_judge"; passed := min_score <=? score; score := Some (f64_of_Z score);
         message := "score=" +:+ pretty score +:+ "/5 (min=" +:+ pretty min_score +:+ "): "
           +:+ reason |}
  | None => judge_failed ("failed to parse judge response: " +:+ content)
  end.

Definition NL : string := String (ascii_of_nat 10) EmptyString.

Definition judge_request (model rubric : string) (subject : Value) : ModelRequest :=
  let prompt := "You are an impartial evaluator." +:+ NL +:+ NL
    +:+ "Rubric: " +:+ rubric +:+ NL +:+ NL
    +:+ "Output to evaluate:" +:+ NL +:+ json_to_string subject +:+ NL +:+ NL
    +:+ "Respond with ONLY a JSON object: {" +:+ String (ascii_of_nat 34) EmptyString +:+ "score"
    +:+ String (ascii_of_nat 34) EmptyString +:+ ": <integer 1-5>, "
    +:+ String (ascii_of_nat 34) EmptyString +:+ "reason" +:+ String (ascii_of_nat 34) EmptyString
    +:+ ": " +:+ String (ascii_of_nat 34) EmptyString +:+ "<brief reason>"
    +:+ String (ascii_of_nat 34) EmptyString +:+ "}" in
  with_config (ModelRequest_new [user_message prompt]) {|
    mc_model := Some model; mc_max_tokens := Some 256; mc_temperature := Some f64_zero;
    mc_system_prompt := None; mc_stop_sequences := None |}.

Section Eval.
Context (registry : ModelRegistry S).

Definition run_llm_judge (model rubric : string) (min_score : Z) (subject : Value) (w : world S)
    : option ScorerResult * world S :=
  let '(r, w') := chat registry (judge_request model rubric subject) w in
  (match r with
   | Ok resp => judged min_score (trim (mr_content resp))
   | Err e => Some (judge_failed ("model call failed: " +:+ ModelError.display e))
   end, w').

Definition run_scorer (subject : Value) (preceding_ms : Z) (preceding_cost_usd : f64)
    (scorer : EvalScorer) (w : world S) : option ScorerResult * world S :=
  match scorer with
  | LlmJudge model rubric min_score => run_llm_judge model rubric min_score subject w
  | Assertion checks => (Some (run_assertions checks subject), w)
  | Latency threshold_ms => (Some (run_latency threshold_ms preceding_ms), w)
  | Cost threshold_usd => (Some (run_cost threshold_usd preceding_cost_usd), w)
  | ScorerCustom module _ => (Some (run_custom module), w)
  end.

Fixpoint run_scorers (subject : Value) (preceding_ms : Z) (preceding_cost_usd : f64)
    (scorers : list EvalScorer) (w : world S) : option (list ScorerResult) * world S :=
  match scorers with
  | [] => (Some [], w)
  | scorer :: scorers =>
      match run_scorer subject preceding_ms preceding_cost_usd scorer w with
      | (Some r, w) =>
          let '(rs, w) := run_scorers subject preceding_ms preceding_cost_usd scorers w in
          (cons r <$> rs, w)
      | (None, w) => (None, w)
      end
  end.

Definition on_fail_str (f : EvalOnFail) : string :=
  match f with
  | RetryWithFeedback => "retry_with_feedback"
  | Escalate => "escalate"
  | Halt => "halt"
  | LogAndContinue => "log_and_continue"
  end.

Definition scorer_value (r : ScorerResult) : Value :=
  obj [("scorer", Str (scorer_type r)); ("passed", Bool (passed r));
       ("score", opt_val f64_to_value (score r)); ("message", Str (message r))].

Definition eval_subject (p : Value) : Value :=
  match get "input" p with
  | Some v => v
  | None => default Null (get "last_output" p)
  end.

(** What the results come to. *)
Definition eval_conclude (on_fail : EvalOnFail) (max_retries duration_ms : Z)
    (results : list ScorerResult) : result ExecutorError ExecutionResult :=
  let overall_passed := forallb passed results in
  let results_json := Array (scorer_value <$> results) in
  let action := if overall_passed then "continue" else on_fail_str on_fail in
  if negb overall_passed && match on_fail with Halt => true | _ => false end
  then Err (ExecutorError.Fatal ("eval node failed — scorers: "
    +:+ str_join "; " (message <$> base.filter (λ r, passed r = false) results)))
  else Ok {|
    er_output := obj [("passed", Bool overall_passed); ("scorers", results_json);
      ("on_fail", Str (on_fail_str on_fail)); ("max_retries", num max_retries)];
    er_state_patch := obj [("eval_passed", Bool overall_passed); ("eval_action", Str action);
      ("eval_results", results_json)];
    er_duration_ms := duration_ms; er_gen_ai_system := None; er_gen_ai_model := None;
    er_input_tokens := None; er_output_tokens := None;
    er_finish_reason := Some (if overall_passed then "pass" else action) |}.

(** [EvalExecutor::execute]; [None]: the task panics. *)
Definition eval_execute (item : WorkItem) (w : world S)
    : option (result ExecutorError ExecutionResult) * world S :=
  let p := payload item in
  let start := clock w in
  let scorers := default [] (get "scorers" p ≫= scorers_from_value) in
  let on_fail := default Halt (get "on_fail" p ≫= on_fail_from_value) in
  let max_retries := wrap_u32 (default 0 (u64_key "max_retries" p)) in
  let preceding_ms := default 0 (u64_key "preceding_duration_ms" p) in
  let preceding_cost_usd := default f64_zero (get "preceding_cost_usd" p ≫= as_f64) in
  let '(results, w) := run_scorers (eval_subject p) preceding_ms preceding_cost_usd scorers w in
  (eval_conclude on_fail max_retries (elapsed_ms start (clock w)) <$> results, w).
End Eval.
End Executors.
