(* ===== verification/ExecutorsCorrect.v ===== *)
(** * What the executors of model, condition and eval nodes promise

    Proved against the payloads the scheduler builds for their nodes and against
    the scheduler's reading of their results. *)

From S2P Require Import Prelude.
From S2P Require Import Json.
From S2P Require Import RustStr.
From S2P Require Import Core.
From S2P Require Import Condition.
From S2P Require Import Ir.
From S2P Require Import Event.
From S2P Require Import Budget.
From S2P Require Import Hashing.
From S2P Require Import Approvals.
From S2P Require Import Backend.
From S2P Require Import Memory.
From S2P Require Import Lease.
From S2P Require Import History.
From S2P Require Import Artifact.
From S2P Require Import Progress.
From S2P Require Import Scheduler.
From S2P Require Import SchedulerCorrect.
From S2P Require Import Models.
From S2P Require Import Worker.
From S2P Require Import Executors.

(** ** Branches *)

Section Branches.
Context `{!JsonText}.

Definition holds (state : Value) (b : BranchDef) : bool :=
  match bd_condition b with Some expr => eval_condition expr state | None => false end.

(** The branch taken: the first whose expression holds; else the first without an
    expression; else none. *)
Inductive takes (branches : list BranchDef) (state : Value) : option string → Prop :=
| takes_match pre b post :
    branches = pre ++ b :: post → holds state b = true →
    Forall (λ b, holds state b = false) pre → takes branches state (Some (bd_target b))
| takes_default pre b post :
    branches = pre ++ b :: post → bd_condition b = None →
    Forall (λ b, holds state b = false) branches →
    Forall (λ b, bd_condition b ≠ None) pre → takes branches state (Some (bd_target b))
| takes_none :
    Forall (λ b, holds state b = false ∧ bd_condition b ≠ None) branches →
    takes branches state None.

(** What the loop has found after a list of branches. *)
Definition found (state : Value) (bs : list BranchDef) (acc : option string * option string) : Prop :=
  match acc.1 with
  | Some t => ∃ pre b post, bs = pre ++ b :: post ∧ holds state b = true
      ∧ Forall (λ b, holds state b = false) pre ∧ t = bd_target b
  | None => Forall (λ b, holds state b = false) bs
  end
  ∧ match acc.2 with
    | Some t => ∃ pre b post, bs = pre ++ b :: post ∧ bd_condition b = None
        ∧ Forall (λ b, bd_condition b ≠ None) pre ∧ t = bd_target b
    | None => Forall (λ b, bd_condition b ≠ None) bs
    end.

Lemma first_snoc {A} (P : A → Prop) (Q : A → Prop) l x :
  (∃ pre b post, l = pre ++ b :: post ∧ P b ∧ Forall Q pre) →
  ∃ pre b post, l ++ [x] = pre ++ b :: post ∧ P b ∧ Forall Q pre.
Proof.
  intros (pre & b & post & -> & ? & ?). exists pre, b, (post ++ [x]). by rewrite <- app_assoc.
Qed.

Lemma branch_step_found state bs acc b :
  found state bs acc → found state (bs ++ [b]) (branch_step state acc b).
Proof.
  destruct acc as [c d]. unfold found, branch_step. cbn [fst snd]. intros [Hc Hd].
  destruct (bd_condition b) as [expr|] eqn:Hb.
  - assert (match d with
      | Some t => ∃ pre b' post, bs ++ [b] = pre ++ b' :: post ∧ bd_condition b' = None
          ∧ Forall (λ b, bd_condition b ≠ None) pre ∧ t = bd_target b'
      | None => Forall (λ b, bd_condition b ≠ None) (bs ++ [b]) end) as Hd'.
    { destruct d as [t|].
      - destruct Hd as (pre & b' & post & -> & ? & ? & ?). exists pre, b', (post ++ [b]).
        by rewrite <- app_assoc.
      - apply Forall_app; split; [done|]. apply Forall_singleton. congruence. }
    destruct c as [t|]; cbn.
    + split; [|done]. destruct Hc as (pre & b' & post & -> & ? & ? & ?).
      exists pre, b', (post ++ [b]). by rewrite <- app_assoc.
    + destruct (eval_condition expr state) eqn:He; cbn; (split; [|done]).
      * exists bs, b, []. split_and!; try done. unfold holds. by rewrite Hb.
      * apply Forall_app; split; [done|]. apply Forall_singleton. unfold holds. by rewrite Hb.
  - case_decide as Hdn; [subst d|destruct d as [t|]; [|done]]; cbn; split.
    1,3: destruct c as [t'|]; [destruct Hc as (pre & b' & post & -> & ? & ? & ?);
        exists pre, b', (post ++ [b]); by rewrite <- app_assoc|];
      apply Forall_app; split; [done|]; apply Forall_singleton; unfold holds; by rewrite Hb.
    + exists bs, b, []. done.
    + destruct Hd as (pre & b' & post & -> & ? & ? & ?). exists pre, b', (post ++ [b]).
      by rewrite <- app_assoc.
Qed.

Lemma choose_branch_takes branches state : takes branches state (choose_branch branches state).
Proof.
  assert (found state branches (foldl (branch_step state) (None, None) branches)) as [Hc Hd].
  { induction branches as [|b bs IH] using rev_ind; [by split; constructor|].
    rewrite foldl_app. by apply branch_step_found. }
  unfold choose_branch. destruct (foldl _ _ _) as [[t|] d]; cbn in *.
  - destruct Hc as (pre & b & post & -> & ? & ? & ->). by eapply takes_match.
  - destruct d as [t|].
    + destruct Hd as (pre & b & post & -> & ? & ? & ->). by eapply takes_default.
    + apply takes_none. apply Forall_and. done.
Qed.
End Branches.

(** ** Routing *)

(** A branch of the IR as the executor reads it, and what serde promises: what was
    written is read back. *)
Definition branch_def (b : ConditionalBranch) : BranchDef :=
  {| bd_condition := condition b; bd_target := target b |}.
Definition branches_read_back `{!ExecSerde} : Prop :=
  ∀ bs, branches_from_value (Array (branch_value <$> bs)) = Ok (branch_def <$> bs).

Section Routing.
Context `{!ChronoOps, !JsonText, !ExecSerde} {S : Type}.
Context (ir : WorkflowIr) (n : string) (node : NodeDef) (branches : list ConditionalBranch)
  (state : Map) (workflow_id workflow_version : string) (item : WorkItem).
Context (Hserde : branches_read_back).
Context (Hnode : nodes ir !! n = Some node).
Context (Hkind : kind node = NodeKind.Condition branches) (Hsome : branches ≠ []).
Context (Hid : wi_node_id item = n).
Context (Hpay : payload item
  = build_work_item_payload ir n node state workflow_id workflow_version).

Let defs := branch_def <$> branches.
Let chosen := choose_branch defs (Object state).

Lemma condition_run (w : world S) :
  condition_execute item w
  = (Ok (plain_result (routing_output defs (Object state)) (obj []) (elapsed_ms (clock w) (clock w))), w).
Proof.
  unfold condition_execute. rewrite !bind_now, Hpay.
  unfold build_work_item_payload. rewrite Hkind, decide_False by done.
  set (base := map_of _).
  assert (get "branches" (Object (map_insert "state" (Object state) (map_insert "branches"
    (Array (branch_value <$> branches)) base))) = Some (Array (branch_value <$> branches))) as ->.
  { cbn [get]. by rewrite map_get_insert_ne, map_get_insert_eq. }
  rewrite Hserde. cbn [get]. rewrite map_get_insert_eq.
  unfold of_result, map_err, mbind, eff_bind. case_decide as Hd; [by destruct branches|done].
Qed.

(** The scheduler's view of the edges out of [n] after an event with an output. *)
Lemma edges_after p ev res output duration key :
  event_kind ev = completed_kind item res output duration key →
  n ∉ skipped p → routes p !! n = None →
  let p' := apply p ev in
  ∀ dst, edge_dead ir n dst (completed p') (skipped p') (routes p')
    = negb (bool_decide (get "chosen_target" output ≫= as_str = Some dst)).
Proof.
  intros Hev Hskip Hroute. cbn zeta. intros dst. unfold apply, apply_kind. rewrite Hev.
  unfold completed_kind. rewrite Hid. generalize (er_state_patch res). intros patch.
  destruct p as [co sc tf fs ls he hr dr un st re ro sk]. cbn in Hskip, Hroute.
  unfold edge_dead. destruct (get "chosen_target" output ≫= as_str) as [t|], patch; cbn;
    rewrite decide_False by done; rewrite Hnode; unfold routing_condition; rewrite Hkind;
    (rewrite (bool_decide_eq_false_2 (branches = [])) by done); cbn;
    (rewrite bool_decide_eq_true_2 by set_solver); first [by rewrite lookup_insert_eq|by rewrite Hroute].
Qed.

Lemma alone_step p dst e :
  in_edges ir dst = [e] → from e = n → ¬ resolved p dst → n ∈ completed p →
  is_runnable ir dst (completed p) (scheduled p) (skipped p) (routes p)
    = negb (edge_dead ir n dst (completed p) (skipped p) (routes p))
  ∧ skippable ir p dst = edge_dead ir n dst (completed p) (skipped p) (routes p).
Proof.
  intros Hin Hfrom Hres Hdone. split.
  - unfold is_runnable. rewrite decide_False by (unfold resolved in Hres; tauto).
    rewrite Hin. cbn. rewrite Hfrom. destruct (edge_dead _ _ _ _ _ _); [done|]. cbn.
    by rewrite bool_decide_eq_true_2.
  - unfold skippable, edge_dead_in. rewrite bool_decide_eq_false_2, Hin by done. cbn.
    by rewrite Hfrom, andb_true_r.
Qed.

Lemma routing_chosen :
  get "chosen_target" (routing_output defs (Object state)) ≫= as_str = chosen.
Proof. unfold routing_output. subst chosen. by destruct (choose_branch _ _). Qed.

(** C19: What routing does. For a condition node dispatched with the payload the
    scheduler builds, whose branches serde reads back as written, the executor takes
    the first branch whose expression holds of the run's state, else the first
    default, else none, and asks no change of the state. Once its first completion is recorded, with whatever budget patch,
    it depends on the size of the output: kept inline, the scheduler sees exactly
    the edge to the branch taken as live, so a node that only this edge leads to
    is runnable and one behind another branch is skipped; past the worker's
    threshold the output is spilled, the route with it, and every edge out of the
    node is dead, the one taken too. *)
Theorem routing_followed {T} `{HB : StateBackend T} (w : world S) (p : ExecProgress)
    (Hnew : n ∉ skipped p ∧ routes p !! n = None) :
  ∃ res chosen, condition_execute item w = (Ok res, w)
  ∧ takes (branch_def <$> branches) (Object state) chosen
  ∧ er_state_patch res = obj []
  ∧ ∀ (wt wt' : world T) (threshold : Z) (out : Value) (ev : Event) (patch : Value) (duration : Z)
      (key : option string),
    spill_output (er_output res) threshold wt = (Ok out, wt') →
    event_kind ev = completed_kind item (with_patch res patch) out duration key →
    let p' := apply p ev in
    let live dst := bool_decide (chosen = Some dst ∧ spill_bytes (er_output res) threshold = None) in
    (∀ dst, edge_dead ir n dst (completed p') (skipped p') (routes p') = negb (live dst))
    ∧ ∀ dst e, in_edges ir dst = [e] → from e = n → ¬ resolved p' dst →
         is_runnable ir dst (completed p') (scheduled p') (skipped p') (routes p') = live dst
         ∧ skippable ir p' dst = negb (live dst).
Proof.
  destruct Hnew as [Hskip Hroute]. eexists _, chosen. split; [apply condition_run|].
  split; [apply choose_branch_takes|]. split; [done|]. cbn [er_output plain_result].
  intros wt wt' threshold out ev patch duration key Hspill Hev. cbn zeta.
  assert (n ∈ completed (apply p ev)) as Hdone.
  { apply (apply_grows p ev n). right. unfold completes. rewrite Hev. cbn.
    by apply bool_decide_eq_true. }
  assert (∀ dst, edge_dead ir n dst (completed (apply p ev)) (skipped (apply p ev))
    (routes (apply p ev)) = negb (bool_decide (chosen = Some dst
      ∧ spill_bytes (routing_output defs (Object state)) threshold = None))) as Hedges.
  { intros dst. rewrite (edges_after p ev _ _ duration key Hev Hskip Hroute). f_equal.
    apply bool_decide_ext. unfold spill_output in Hspill.
    destruct (spill_bytes _ threshold) as [b|].
    - apply bind_ok_inv in Hspill as (r & w1 & _ & Hs). injection Hs as <- _. cbn. naive_solver.
    - injection Hspill as <- _. rewrite routing_chosen. naive_solver. }
  split; [done|]. intros dst e Hin Hfrom Hres.
  destruct (alone_step _ _ _ Hin Hfrom Hres Hdone) as [-> ->]. rewrite Hedges.
  by rewrite negb_involutive.
Qed.

(** An output past the threshold is spilled before it is recorded, and the route
    with it: every edge out of the node is dead, the one taken too. *)
Theorem spilled_route_lost {T} `{HB : StateBackend T} (w : world T) (p : ExecProgress) (ev : Event)
    (threshold duration : Z) (key : option string) (bytes : list N) (ref_ : ArtifactRef)
    (wr : world T) (Hnew : n ∉ skipped p ∧ routes p !! n = None)
    (Hbig : spill_bytes (routing_output defs (Object state)) threshold = Some bytes)
    (Hput : put_artifact bytes (Some "application/json") w = (Ok ref_, wr))
    (Hev : event_kind ev = completed_kind item
      (plain_result (to_sentinel ref_) (obj []) duration) (to_sentinel ref_) duration key) :
  spill_output (routing_output defs (Object state)) threshold w = (Ok (to_sentinel ref_), wr)
  ∧ ∀ dst, edge_dead ir n dst (completed (apply p ev)) (skipped (apply p ev)) (routes (apply p ev))
      = true.
Proof.
  destruct Hnew as [Hskip Hroute]. split.
  - unfold spill_output. rewrite Hbig. unfold mbind, eff_bind. by rewrite Hput.
  - intros dst. by rewrite (edges_after p ev _ _ duration key Hev Hskip Hroute).
Qed.
End Routing.

(** ** Model nodes *)

Section ModelNodes.
Context `{!JsonText, !ExecSerde} {S : Type} (registry : ModelRegistry S).
Context (ir : WorkflowIr) (n : string) (node : NodeDef) (state : Map)
  (workflow_id workflow_version : string) (item : WorkItem).
Context (model_ref prompt_ref output_schema : string) (system_prompt : option string)
  (tools : list Value).
Context (Hkind : kind node
  = NodeKind.Model model_ref prompt_ref output_schema system_prompt tools).
Context (Hpay : payload item
  = build_work_item_payload ir n node state workflow_id workflow_version).

(** The conversation kept in the run's state. *)
Definition history (state : Map) : list ChatMessage :=
  match map_get "messages" state ≫= as_array with
  | Some msgs => payload_message <$> msgs
  | None => []
  end.

(** What the definition asks for. *)
Definition asked : ModelRequest := {|
  rq_messages := history state;
  rq_config := {|
    mc_model := Some (match models ir !! model_ref with
      | Some cfg => model_config_id cfg | None => model_ref end);
    mc_max_tokens := cfg ← models ir !! model_ref; wrap_u32 <$> max_tokens cfg;
    mc_temperature := cfg ← models ir !! model_ref; t ← temperature cfg;
      f32_of_f64 <$> as_f64 (f64_to_value t);
    mc_system_prompt := system_prompt; mc_stop_sequences := None |};
  rq_tools := tools |}.

(** The keys of the payload, as the executor reads them. *)
Lemma payload_get k :
  get k (payload item)
  = if decide (k = "messages") then map_get "messages" state
    else if decide (k = "tools") then (if decide (tools = []) then None else Some (Array tools))
    else if decide (k = "system_prompt") then Str <$> system_prompt
    else if decide (k = "max_tokens") then cfg ← models ir !! model_ref; num <$> max_tokens cfg
    else if decide (k = "temperature")
    then cfg ← models ir !! model_ref; f64_to_value <$> temperature cfg
    else if decide (k = "model") then Some (Str (match models ir !! model_ref with
      | Some cfg => model_config_id cfg | None => model_ref end))
    else map_get k (map_of [("workflow_id", Str workflow_id);
                      ("workflow_version", Str workflow_version); ("node_id", Str n)]).
Proof.
  rewrite Hpay. unfold build_work_item_payload. rewrite Hkind. cbn [get]. unfold insert_opt.
  destruct (models ir !! model_ref) as [cfg|]; cbn [mbind option_bind];
    [destruct (temperature cfg), (max_tokens cfg)|]; destruct system_prompt;
    case_decide; destruct (map_get "messages" state); cbn [fmap option_fmap option_map];
    repeat rewrite map_get_insert; repeat case_decide; simplify_eq; try done.
Qed.

Lemma payload_asked : model_request (payload item) = asked.
Proof.
  assert (get "prompt" (payload item) = None) as Hpr by (by rewrite payload_get).
  assert (get "messages" (payload item) = map_get "messages" state) as Hms by (by rewrite payload_get).
  assert (payload_messages (payload item) = history state) as Hm.
  { unfold payload_messages, str_key. by rewrite Hpr, Hms. }
  unfold model_request, asked, payload_config, payload_model, str_key, u64_key. rewrite Hm.
  rewrite !payload_get. unfold with_tools, with_config. cbn. f_equal.
  - f_equal; destruct (models ir !! model_ref) as [cfg|]; cbn;
      try (by destruct system_prompt); [by destruct (max_tokens cfg)|].
    by destruct (temperature cfg).
  - by destruct tools.
Qed.

(** A model node calls the model its definition asks for. Dispatched with the
    payload the scheduler builds, the executor makes at most one call, with the
    definition's model, settings, system prompt and tools and the conversation of
    the run's state, and none when the state holds no message; the answer's text,
    tool calls and token counts are the result's, a rate limit is reported as one
    with its delay, and every other error is fatal. *)
Theorem model_node_faithful (w : world S) :
  model_execute registry item w
  = match history state with
    | [] => (Err (ExecutorError.Fatal "ModelNodeExecutor: no prompt or messages provided"), w)
    | _ =>
        let '(r, w') := chat registry asked w in
        (match r with
         | Ok resp => Ok (model_result resp (elapsed_ms (clock w) (clock w')))
         | Err (ModelError.RateLimited secs) => Err (ExecutorError.RateLimited secs)
         | Err e => Err (ExecutorError.Fatal ("Model call failed: " +:+ ModelError.display e))
         end, w')
    end.
Proof.
  unfold model_execute. rewrite bind_now, payload_asked.
  assert (payload_messages (payload item) = history state) as -> by
    exact (f_equal rq_messages payload_asked).
  case_decide as Hh; [by rewrite Hh|]. destruct (history state) as [|m ms]; [done|].
  unfold with_err, mbind at 1, eff_bind at 1. destruct (chat registry asked w) as [[resp|e] w'];
    [done|by destruct e].
Qed.
End ModelNodes.

(** ** Eval nodes *)

Section Evals.
Context `{!JsonText, !ExecSerde} {S : Type} (registry : ModelRegistry S).

(** What a scorer's verdict means: [answers] says which answers the judge's model
    may give. *)
Inductive verdict (subject : Value) (preceding_ms : Z) (preceding_cost : f64) :
    EvalScorer → bool → Prop :=
| verdict_latency t : verdict subject preceding_ms preceding_cost (Latency t)
    (bool_decide (preceding_ms ≤ t))
| verdict_cost t : verdict subject preceding_ms preceding_cost (Cost t) (f64_le preceding_cost t)
| verdict_custom m k : verdict subject preceding_ms preceding_cost (ScorerCustom m k) true
| verdict_assertion checks : verdict subject preceding_ms preceding_cost (Assertion checks)
    (forallb (λ c, eval_assertion c subject) checks)
| verdict_judge model rubric min w resp slice v :
    (chat registry (judge_request model rubric subject) w).1 = Ok resp →
    json_slice (trim (mr_content resp)) = Some (Some slice) → parse_json slice = Some v →
    verdict subject preceding_ms preceding_cost (LlmJudge model rubric min)
      (bool_decide (min ≤ judge_score v))
| verdict_no_judge model rubric min w r :
    (chat registry (judge_request model rubric subject) w).1 = r →
    (∀ resp, r = Ok resp → ∀ slice, json_slice (trim (mr_content resp)) = Some (Some slice) →
      parse_json slice = None) →
    verdict subject preceding_ms preceding_cost (LlmJudge model rubric min) false.

(** The answer of a judge on which the executor panics: the last closing brace is
    before the first opening one. *)
Definition backwards (subject : Value) (scorer : EvalScorer) : Prop :=
  match scorer with
  | LlmJudge model rubric _ =>
      ∃ w resp, (chat registry (judge_request model rubric subject) w).1 = Ok resp
        ∧ json_slice (trim (mr_content resp)) = None
  | _ => False
  end.

Lemma leb_decide a b : (a <=? b) = bool_decide (a ≤ b).
Proof. case_bool_decide; lia. Qed.

Lemma run_assertions_passed checks subject :
  passed (run_assertions checks subject) = forallb (λ c, eval_assertion c subject) checks.
Proof.
  unfold run_assertions.
  assert (base.filter (λ c, eval_assertion c subject = false) checks = []
    ↔ forallb (λ c, eval_assertion c subject) checks = true) as Hf.
  { induction checks as [|c cs IH]; [done|]. rewrite filter_cons. cbn [forallb].
    destruct (eval_assertion c subject); cbn; [exact IH|done]. }
  destruct (base.filter _ _), (forallb _ _); cbn; try done; [by symmetry; apply Hf|].
  by pose proof (proj2 Hf eq_refl).
Qed.

Lemma run_scorer_verdict subject ms cost scorer w :
  match (run_scorer registry subject ms cost scorer w).1 with
  | Some r => verdict subject ms cost scorer (passed r)
  | None => backwards subject scorer
  end.
Proof.
  destruct scorer as [model rubric min|checks|t|t|m k]; cbn.
  - unfold run_llm_judge. destruct (chat registry _ w) as [[resp|e] w'] eqn:Hc; cbn; cycle 1.
    { eapply (verdict_no_judge _ _ _ _ _ _ w (Err e)); [by rewrite Hc|done]. }
    unfold judged. destruct (json_slice (trim (mr_content resp))) as [sl|] eqn:Hs; cbn; cycle 1.
    { exists w, resp. by rewrite Hc. }
    destruct (sl ≫= parse_json) as [v|] eqn:Hp; cbn.
    + destruct sl as [sl|]; [|done]. rewrite leb_decide.
      eapply (verdict_judge _ _ _ _ _ _ w); [by rewrite Hc|done|done].
    + eapply (verdict_no_judge _ _ _ _ _ _ w (Ok resp)); [by rewrite Hc|].
      intros ? [= <-] slice Hs'. rewrite Hs in Hs'. by injection Hs' as ->.
  - rewrite run_assertions_passed. constructor.
  - rewrite leb_decide. constructor.
  - constructor.
  - constructor.
Qed.

Lemma run_scorers_verdicts subject ms cost scorers w :
  match (run_scorers registry subject ms cost scorers w).1 with
  | Some rs => Forall2 (λ s r, verdict subject ms cost s (passed r)) scorers rs
  | None => Exists (backwards subject) scorers
  end.
Proof.
  revert w. induction scorers as [|s scorers IH]; intros w; cbn [run_scorers]; [by constructor|].
  pose proof (run_scorer_verdict subject ms cost s w) as Hs.
  destruct (run_scorer _ _ _ _ s w) as [[r|] w1]; cbn in Hs |- *; [|by left].
  specialize (IH w1). destruct (run_scorers _ _ _ _ scorers w1) as [[rs|] w2]; cbn in *;
    [by constructor|by right].
Qed.

(** An eval node lets a run go on only by its scorers. Unless a judge's answer
    crashes the executor, every scorer gives the verdict its kind means, and the
    node passes exactly when all do; when one does not the node fails if it is to
    halt, and otherwise reports the action it is to take, with the reason in the
    result the run's state keeps. *)
Theorem eval_gate (item : WorkItem) (w : world S) :
  let p := payload item in
  let scorers := default [] (get "scorers" p ≫= scorers_from_value) in
  let on_fail := default Halt (get "on_fail" p ≫= on_fail_from_value) in
  match (eval_execute registry item w).1 with
  | None => Exists (backwards (eval_subject p)) scorers
  | Some r => ∃ verdicts,
      Forall2 (verdict (eval_subject p) (default 0 (u64_key "preceding_duration_ms" p))
        (default f64_zero (get "preceding_cost_usd" p ≫= as_f64))) scorers verdicts
      ∧ (is_ok r = false ↔ Exists (eq false) verdicts ∧ on_fail = Halt)
      ∧ ∀ res, r = Ok res →
          get "eval_passed" (er_state_patch res) = Some (Bool (forallb Datatypes.id verdicts))
          ∧ (Forall (eq true) verdicts → er_finish_reason res = Some "pass")
          ∧ (Exists (eq false) verdicts → er_finish_reason res = Some (on_fail_str on_fail)
              ∧ get "eval_action" (er_state_patch res) = Some (Str (on_fail_str on_fail)))
  end.
Proof.
  cbn zeta. unfold eval_execute.
  pose proof (run_scorers_verdicts (eval_subject (payload item))
    (default 0 (u64_key "preceding_duration_ms" (payload item)))
    (default f64_zero (get "preceding_cost_usd" (payload item) ≫= as_f64))
    (default [] (get "scorers" (payload item) ≫= scorers_from_value)) w) as Hv.
  set (on_fail := default Halt _). destruct (run_scorers _ _ _ _ _ w) as [[rs|] w1]; [|done].
  cbn in Hv |- *. exists (passed <$> rs).
  assert (forallb passed rs = forallb Datatypes.id (passed <$> rs)) as Hp.
  { clear. induction rs as [|r rs IH]; [done|]. cbn. by rewrite IH. }
  assert (forallb Datatypes.id (passed <$> rs) = true ↔ Forall (eq true) (passed <$> rs)) as Hall.
  { rewrite forallb_forall, Forall_forall. setoid_rewrite list_elem_of_In. unfold Datatypes.id.
    split; intros E b Hb; symmetry; by apply E. }
  assert (Exists (eq false) (passed <$> rs) ↔ forallb Datatypes.id (passed <$> rs) = false) as Hex.
  { clear. induction (passed <$> rs) as [|b bs IH]; cbn; [by split; [intros ?%Exists_nil|]|].
    rewrite Exists_cons, IH. unfold Datatypes.id. destruct b; cbn; intuition congruence. }
  split_and!; [by apply Forall2_fmap_r| |].
  - unfold eval_conclude. rewrite Hex, <- Hp. destruct (forallb passed rs); cbn.
    + split; [done|by intros [? _]].
    + destruct on_fail; cbn; naive_solver.
  - intros res. unfold eval_conclude. rewrite Hex, <- Hall, <- Hp.
    destruct (forallb passed rs); cbn.
    + intros [= <-]. split_and!; [done..|by intros].
    + destruct on_fail; cbn; intros Hr; simplify_eq/=; split_and!; done.
Qed.

(** The scheduler puts nothing of an eval node's definition in its payload, so a
    node dispatched with it runs no scorer and passes, whatever its definition
    says. *)
Theorem dispatched_eval_passes (ir : WorkflowIr) (n : string) (node : NodeDef) (state : Map)
    (workflow_id workflow_version : string) (item : WorkItem) (w : world S)
    (scorers : list EvalScorer) (on_fail : EvalOnFail) (max_retries : Z) (input : option string)
    (Hkind : kind node = NodeKind.Eval scorers on_fail max_retries input)
    (Hpay : payload item = build_work_item_payload ir n node state workflow_id workflow_version) :
  ∃ res, eval_execute registry item w = (Some (Ok res), w)
    ∧ get "eval_passed" (er_state_patch res) = Some (Bool true)
    ∧ er_finish_reason res = Some "pass".
Proof.
  unfold eval_execute. rewrite Hpay. unfold build_work_item_payload. rewrite Hkind.
  eexists. split; [reflexivity|]. done.
Qed.
End Evals.

(** ** Witnesses and examples *)

Module ExecSample.
#[local] Existing Instances plain_uuid milli_chrono plain_sha256.
#[local] Instance plain_text : JsonText.
Proof.
  refine {| parse_json _ := None; json_to_string v := match v with Object _ => "{an object}" | _ => "1" end |}.
  abstract done.
Defined.
#[local] Existing Instances Sample.order_exec Sample.order_item Sample.order_tenant
  Sample.order_pair.
Import SchedulerSample.

(** Branches as serde reads them. *)
Definition read_branch (v : Value) : result string BranchDef :=
  t ← ok_or "missing field `target`" (get "target" v);
  t ← ok_or "invalid type" (as_str t);
  match get "condition" v with
  | None | Some Null => Ok {| bd_condition := None; bd_target := t |}
  | Some (Str c) => Ok {| bd_condition := Some c; bd_target := t |}
  | Some _ => Err "invalid type"
  end.
#[local] Instance plain_exec_serde : ExecSerde := {|
  branches_from_value v :=
    match v with Array l => mapM read_branch l | _ => Err "expected a sequence" end;
  scorers_from_value _ := Some [Latency 5; LlmJudge "m" "r" 3];
  on_fail_from_value v := s ← as_str v; if decide (s = "escalate") then Some Escalate else None;
  f64_fixed _ _ := "" |}.

Lemma read_back : branches_read_back.
Proof.
  intros bs. cbn. induction bs as [|[[c|] t] bs IH]; [done|..]; cbn in *; by rewrite IH.
Qed.

(** [c] goes to [y] when the state says so, and to [x] otherwise. *)
Definition two_ways : list ConditionalBranch :=
  [{| condition := Some "state.deep"; target := "y" |}; {| condition := None; target := "x" |}].
Definition gate : NodeDef := node_of "c" (NodeKind.Condition two_ways).
Definition flow : WorkflowIr := {|
  ir_workflow_id := "w"; version := "1.0.0"; name := None; ir_description := None;
  state_schema := ""; start_node := "c"; nodes := <["c" := gate]> (nodes fork);
  edges := edges fork; retry_policies := ∅; timeouts := timeouts fork;
  models := ∅; tools := ∅; mcp_servers := ∅; remote_agents := ∅; labels := ∅; policy := None;
  token_budget := None; cost_budget_usd := None; on_budget_exceeded := None;
  continue_as_new := false; data_policy := None; agent_ref := None |}.
Definition deep : Map := [("deep", Bool true)].
Definition item_for (node : NodeDef) : WorkItem := {|
  wi_id := wi_id Sample.item; wi_execution_id := run; wi_node_id := id node; queue_type := "general";
  payload := build_work_item_payload flow (id node) node deep "w" "1.0.0"; attempt := 0;
  max_attempts := 3; wi_created_at := 0; lease_expires_at := None; worker_id := None;
  lease_fence := 1; wi_tenant_id := "default" |}.
Definition recorded (output : Value) : Event := sample_event 5
  (completed_kind (item_for gate) (plain_result output (obj []) 0) output 0 None).
Definition choice : Value := obj [("chosen_target", Str "y"); ("branch_targets", Array [Str "y"; Str "x"])].
Definition after (output : Value) : ExecProgress := apply ExecProgress_default (recorded output).
Definition runs (output : Value) (n : string) : bool := let p := after output in
  is_runnable flow n (completed p) (scheduled p) (skipped p) (routes p).

Lemma routing_witness :
  (∃ res, condition_execute (item_for gate) (World tt 0 0%N) = (Ok res, World tt 0 0%N)
    ∧ er_output res = choice)
  ∧ runs choice "y" = true ∧ runs choice "x" = false
  ∧ edge_dead flow "c" "x" (completed (after choice)) (skipped (after choice))
      (routes (after choice)) = true.
Proof.
  assert (∃ res, condition_execute (item_for gate) (World tt 0 0%N) = (Ok res, World tt 0 0%N)
    ∧ er_output res = choice ∧ with_patch res (obj []) = plain_result choice (obj []) 0)
    as (res & Hr & Ho & Hp) by (eexists; split_and!; vm_compute; reflexivity).
  split_and!; [by exists res|vm_compute; reflexivity|vm_compute; reflexivity|].
  destruct (routing_followed flow "c" gate two_ways deep "w" "1.0.0" (item_for gate) read_back eq_refl
    eq_refl ltac:(done) eq_refl eq_refl (T := InMemoryBackend) (World tt 0 0%N) ExecProgress_default
    ltac:(done)) as (res' & chosen & Hr' & Ht & _ & Hafter).
  rewrite Hr in Hr'. injection Hr' as <-.
  destruct (Hafter start_world start_world 1000 choice (recorded choice) (obj []) 0 None) as [Hdead _].
  - rewrite Ho. vm_compute. reflexivity.
  - rewrite Hp. reflexivity.
  - etransitivity; [exact (Hdead "x")|]. destruct (decide (chosen = Some "x")) as [->|];
      [|by rewrite bool_decide_eq_false_2 by tauto].
    exfalso. pose proof (Hdead "x") as Hx. rewrite Ho in Hx. vm_compute in Hx. discriminate.
Defined.

(** An output past the threshold: the branch taken is skipped with the others. *)
Example spilled_route :
  let '(out, _) := spill_output choice 10 start_world in
  ∃ sentinel, out = Ok sentinel ∧ runs sentinel "y" = false
    ∧ skippable flow (after sentinel) "y" = true ∧ skippable flow (after sentinel) "x" = true
    ∧ runs choice "y" = true.
Proof.
  destruct (spill_output choice 10 start_world) as [out w'] eqn:Hs. vm_compute in Hs.
  injection Hs as <- _. eexists. split; [reflexivity|]. split_and!; vm_compute; reflexivity.
Qed.

(** A model node with its run's conversation. *)
Definition ask_node : NodeDef := node_of "m" (NodeKind.Model "gpt-4o" "" "" (Some "be brief") []).
Definition ask_item : WorkItem := {|
  wi_id := 5%N; wi_execution_id := run; wi_node_id := "m"; queue_type := "model";
  payload := build_work_item_payload flow "m" ask_node
    [("messages", Array [obj [("role", Str "user"); ("content", Str "hi")]])] "w" "1.0.0";
  attempt := 0; max_attempts := 3; wi_created_at := 0; lease_expires_at := None;
  worker_id := None; lease_fence := 1; wi_tenant_id := "default" |}.

Lemma model_node_witness :
  let '(r, _) := model_execute (registry_from_env (ModelsSample.env None)) ask_item (World tt 0 0%N) in
  er_gen_ai_model <$> r = Ok (Some "gpt-4o")
  ∧ er_output <$> r = Ok (obj [("content", Str "openai"); ("model", Str "gpt-4o");
      ("finish_reason", Str "stop"); ("tool_calls", Array [])]).
Proof.
  rewrite (model_node_faithful _ flow "m" ask_node
    [("messages", Array [obj [("role", Str "user"); ("content", Str "hi")]])] "w" "1.0.0" ask_item
    "gpt-4o" "" "" (Some "be brief") [] eq_refl eq_refl). vm_compute. done.
Defined.

(** A judge whose closing brace comes first crashes the executor. *)
Definition judge (answer : string) : ModelRegistry unit :=
  with_default "j" (register_adapter {| system_name := "j"; default_model := "j";
    adapter_chat _ w := (Ok {| mr_content := answer; mr_model := "j"; mr_finish_reason := "stop";
      mr_input_tokens := 1; mr_output_tokens := 1; mr_structured := None; mr_tool_calls := [] |}, w);
    adapter_structured_output _ w := (Err ModelError.Timeout, w) |} ModelRegistry_new).
Definition judged_item : WorkItem := {|
  wi_id := 5%N; wi_execution_id := run; wi_node_id := "e"; queue_type := "general";
  payload := obj [("scorers", Null); ("on_fail", Str "escalate")];
  attempt := 0; max_attempts := 3; wi_created_at := 0; lease_expires_at := None;
  worker_id := None; lease_fence := 1; wi_tenant_id := "default" |}.
Example judge_crashes :
  (eval_execute (judge "} or {") judged_item (World tt 0 0%N)).1 = None
  ∧ is_ok <$> (eval_execute (judge "no score") judged_item (World tt 0 0%N)).1 = Some true
  ∧ judge_score (obj [("score", num 259)]) = 3.
Proof. vm_compute. done. Qed.
End ExecSample.
