(* ===== verification/AgentTool.v ===== *)
(** * Agents called as tools ([workers/src/executors/agent_tool.rs])

    One request to a remote agent, a conversation of several, or a stream of JSON
    lines under a budget, read at once or as it arrives. The HTTP client and what
    the agent answers are parameters. *)

From S2P Require Import Prelude.
From S2P Require Import Json.
From S2P Require Import RustStr.
From S2P Require Import Condition.
From S2P Require Import Budget.
From S2P Require Import Agents.
From S2P Require Import Backend.
From S2P Require Import Artifact.
From S2P Require Import Worker.
From S2P Require Import Executors.

(** What a stream of bytes yields: bytes, an error, or nothing within the idle
    window; the stream ends with the list. *)
Inductive StreamItem := Bytes (b : list N) | NetError (e : string) | IdleTimeout.

Record Response := {
  rs_status : Z;
  rs_text : result string string;
  rs_json : result string Value;
  rs_stream : list StreamItem;
}.

(** The HTTP client: [build()], a POST of a body, and the text of a status. *)
Record HttpClient (S : Type) := {
  hc_build : option Z → result string unit;
  hc_post : string → Value → eff S string Response;
  hc_status : Z → string;
}.
Arguments hc_build {S} _ _.
Arguments hc_post {S} _ _ _.
Arguments hc_status {S} _ _.

Definition is_success (r : Response) : bool := (200 <=? rs_status r) && (rs_status r <? 300).

(** ** The payload *)

Definition agent_uri (p : Value) : option string :=
  a ← get "agent" p;
  match get "explicit" a ≫= as_str with Some u => Some u | None => as_str a end.

Definition tool_mode (p : Value) : string :=
  match get "mode" p with
  | Some m =>
      match as_str m with
      | Some s => s
      | None => if get "conversational" m then "conversational"
                else if get "streaming" m then "streaming" else "sync"
      end
  | None => "sync"
  end.

(** The mode [execute_streaming] reads: it does not know a conversation. *)
Definition streaming_mode (p : Value) : string :=
  match get "mode" p with
  | Some m =>
      match as_str m with
      | Some s => s
      | None => if get "streaming" m then "streaming" else "sync"
      end
  | None => "sync"
  end.

Definition f64_key (k : string) (v : Value) : option f64 := x ← get k v; as_f64 x.

Definition max_cost_usd (p : Value) : option f64 :=
  match get "budget" p ≫= f64_key "max_cost_usd" with
  | Some c => Some c
  | None => f64_key "max_cost_usd" p
  end.

Definition protocol_of (uri : string) : string :=
  if starts_with "https://" uri then "a2a"
  else if starts_with "jamjet://" uri then "local" else "mcp".

Definition output_key (p : Value) : string := default "result" (str_key "output_key" p).
Definition tool_input (p : Value) : Value := default (obj []) (get "input" p).

Definition resolve_url (agent_uri endpoint : string) : result string string :=
  if starts_with "https://" agent_uri then Ok (trim_end_char 47 agent_uri +:+ "/" +:+ endpoint)
  else Err ("Cannot resolve '" +:+ agent_uri
    +:+ "' to HTTP endpoint. Only https:// agent URIs are supported for remote invocation.").

Section AgentTool.
Context `{!JsonText} {S : Type}.
(** The 16 hexadecimal digits of std's [DefaultHasher]. *)
Context (input_hash : string → string) (client : HttpClient S).

Abbreviation Ex A := (eff S string A).

Definition rpc_body (rpc : string) (text : string) : Value :=
  obj [("jsonrpc", Str "2.0"); ("method", Str rpc);
       ("params", obj [("message", obj [("parts", Array [obj [("text", Str text)]])])])].

(** A POST whose response must be a success. *)
Definition post_ok (url rpc : string) (input : Value) (send_failed : string → string)
    (status_failed : string → string → string) : Ex Response :=
  resp ← with_err send_failed (hc_post client url (rpc_body rpc (json_to_string input)));
  if is_success resp then mret resp
  else raise (status_failed (hc_status client (rs_status resp))
    (match rs_text resp with Ok t => t | Err _ => "" end)).

(** What every mode is called with. *)
Record Call := {
  cl_node_id : string; cl_uri : string; cl_output_key : string; cl_timeout_ms : Z;
  cl_input : Value; cl_start : Z;
}.

Definition invoked_fields (c : Call) (mode : string) : list (string * Value) :=
  [("type", Str "agent_tool_invoked"); ("node_id", Str (cl_node_id c));
   ("agent_uri", Str (cl_uri c)); ("mode", Str mode); ("protocol", Str (protocol_of (cl_uri c)));
   ("input_hash", Str (input_hash (json_to_string (cl_input c))))].

Definition completed_fields (node_id : string) (output : Value) (total_cost : f64) (latency_ms : Z)
    : list (string * Value) :=
  [("type", Str "agent_tool_completed"); ("node_id", Str node_id); ("output", output);
   ("total_cost", f64_to_value total_cost); ("latency_ms", num latency_ms)].

Definition tool_result (key : string) (output : Value) (events : list Value) (duration_ms : Z)
    : ExecutionResult :=
  plain_result (obj [(key, output)]) (obj [("agent_tool_events", Array events)]) duration_ms.

Definition build_client (timeout_ms : option Z) : result string unit :=
  map_err (λ e, "HTTP client: " +:+ e) (hc_build client timeout_ms).

(** ** One request *)

Definition execute_sync (c : Call) : Ex ExecutionResult :=
  _ ← of_result (build_client (Some (cl_timeout_ms c)));
  url ← of_result (resolve_url (cl_uri c) "tasks/send");
  resp ← post_ok url "tasks/send" (cl_input c) (λ e, "AgentTool invocation failed: " +:+ e)
    (λ status body, "Agent returned error " +:+ status +:+ ": " +:+ body);
  output ← of_result (map_err (λ e, "Failed to parse agent response: " +:+ e) (rs_json resp));
  now ← utc_now;
  let duration_ms := elapsed_ms (cl_start c) now in
  mret (tool_result (cl_output_key c) output
    [obj (invoked_fields c "sync");
     obj (completed_fields (cl_node_id c) output f64_zero duration_ms)] duration_ms).

(** ** A conversation *)

Definition turn_event (node_id : string) (turn : Z) (direction field : string) (v : Value) : Value :=
  obj [("type", Str "agent_tool_turn"); ("node_id", Str node_id); ("turn", num turn);
       ("direction", Str direction); (field, v)].

Definition says_completed (response : Value) : bool :=
  bool_decide (default "" (str_key "status" response) = "completed").

(** The turns from [turn] on, [n] of them: the events and the last response. *)
Fixpoint turns (n : nat) (turn : Z) (c : Call) (url : string) (input final : Value)
    (events : list Value) : Ex (list Value * Value) :=
  match n with
  | O => mret (events, final)
  | Datatypes.S n =>
      let events := events ++ [turn_event (cl_node_id c) turn "outbound" "input" input] in
      resp ← post_ok url "tasks/send" input
        (λ e, "AgentTool turn " +:+ pretty turn +:+ " failed: " +:+ e)
        (λ status body, "Agent returned error " +:+ status +:+ " on turn " +:+ pretty turn +:+ ": "
          +:+ body);
      response ← of_result (map_err (λ e, "Failed to parse agent response on turn " +:+ pretty turn
        +:+ ": " +:+ e) (rs_json resp));
      let events := events ++ [turn_event (cl_node_id c) turn "inbound" "output" response] in
      if says_completed response then mret (events, response)
      else turns n (turn + 1) c url (default response (get "output" response)) response events
  end.

Definition max_turns (p : Value) : Z :=
  default 5 (m ← get "mode" p; c ← get "conversational" m; u64_key "max_turns" c).

Definition execute_conversational (p : Value) (c : Call) : Ex ExecutionResult :=
  _ ← of_result (build_client (Some (cl_timeout_ms c)));
  url ← of_result (resolve_url (cl_uri c) "tasks/send");
  r ← turns (Z.to_nat (max_turns p)) 0 c url (cl_input c) Null
    [obj (invoked_fields c "conversational")];
  let '(events, final_output) := (r : list Value * Value) in
  now ← utc_now;
  let duration_ms := elapsed_ms (cl_start c) now in
  mret (tool_result (cl_output_key c) final_output
    (events ++ [obj (completed_fields (cl_node_id c) final_output f64_zero duration_ms)])
    duration_ms).

(** ** Lines of JSON *)

Definition chunk_of (line : string) : Value :=
  match parse_json line with Some v => v | None => obj [("raw", Str line)] end.

Definition spend_chunk (cost : f64) (chunk : Value) : f64 :=
  match f64_key "cost_usd" chunk with Some c => f64_add cost c | None => cost end.

Definition over_budget (max_cost : option f64) (cost : f64) : bool :=
  match max_cost with Some budget => f64_lt budget cost | None => false end.

Definition progress_fields (node_id : string) (index : Z) (chunk : Value) (cost : f64)
    : list (string * Value) :=
  [("type", Str "agent_tool_progress"); ("node_id", Str node_id); ("chunk_index", num index);
   ("chunk", chunk); ("accumulated_cost_usd", f64_to_value cost)].

Definition terminated_fields (node_id reason : string) (cost : f64) (latency_ms : Z)
    : list (string * Value) :=
  [("type", Str "agent_tool_terminated"); ("node_id", Str node_id); ("reason", Str reason);
   ("accumulated_cost_usd", f64_to_value cost); ("latency_ms", num latency_ms)].

(** *** All at once *)

(** [lines()]: each line without its end, the last one only if it is not empty. *)
Definition strip_cr (l : list N) : list N :=
  match reverse l with 13%N :: r => reverse r | _ => l end.
Fixpoint lines_from (acc l : list N) : list (list N) :=
  match l with
  | [] => match acc with [] => [] | _ => [reverse acc] end
  | b :: l => if decide (b = 10%N) then strip_cr (reverse acc) :: lines_from [] l
              else lines_from (b :: acc) l
  end.
Definition lines (s : string) : list string := of_bytes <$> lines_from [] (bytes s).

(** What reading lines has come to: the chunks with their index and the cost so
    far, the cost and the last chunk, and whether the budget ended it. *)
Record Read := {
  rd_chunks : list (Z * Value * f64);
  rd_cost : f64;
  rd_last : Value;
  rd_over : bool;
}.
Definition Read_start : Read :=
  {| rd_chunks := []; rd_cost := f64_zero; rd_last := Null; rd_over := false |}.

Definition read_chunk (max_cost : option f64) (r : Read) (line : string) : Read :=
  let chunk := chunk_of line in
  let cost := spend_chunk (rd_cost r) chunk in
  {| rd_chunks := rd_chunks r ++ [(Z.of_nat (length (rd_chunks r)), chunk, cost)];
     rd_cost := cost; rd_last := chunk; rd_over := over_budget max_cost cost |}.

(** The loop over the body's lines, with its [break]. *)
Fixpoint read_lines (max_cost : option f64) (r : Read) (ls : list string) : Read :=
  match ls with
  | [] => r
  | l :: ls =>
      let trimmed := trim l in
      if str_is_empty trimmed then read_lines max_cost r ls
      else
        let r := read_chunk max_cost r trimmed in
        if rd_over r then r else read_lines max_cost r ls
  end.

(** A chunk with its index and the cost so far. *)
Definition chunk_fields (node_id : string) (x : Z * Value * f64) : list (string * Value) :=
  progress_fields node_id x.1.1 x.1.2 x.2.

Definition stream_ndjson (max_cost : option f64) (c : Call) : Ex ExecutionResult :=
  _ ← of_result (build_client (Some (cl_timeout_ms c)));
  url ← of_result (resolve_url (cl_uri c) "tasks/sendSubscribe");
  resp ← post_ok url "tasks/sendSubscribe" (cl_input c)
    (λ e, "AgentTool streaming invocation failed: " +:+ e)
    (λ status body, "Agent returned error " +:+ status +:+ ": " +:+ body);
  body ← of_result (map_err (λ e, "Failed to read streaming response body: " +:+ e) (rs_text resp));
  let r := read_lines max_cost Read_start (lines body) in
  now ← utc_now;
  let duration_ms := elapsed_ms (cl_start c) now in
  let last := if rd_over r
    then obj (terminated_fields (cl_node_id c) "budget_exceeded" (rd_cost r) duration_ms)
    else obj (completed_fields (cl_node_id c) (rd_last r) (rd_cost r) duration_ms) in
  mret (tool_result (cl_output_key c) (rd_last r)
    (obj (invoked_fields c "streaming") :: (obj ∘ chunk_fields (cl_node_id c) <$> rd_chunks r) ++ [last])
    duration_ms).

(** *** As it arrives *)

(** [str::from_utf8]: is a byte sequence UTF-8? *)
Definition cont (b : N) : bool := ((128 <=? b) && (b <=? 191))%N.
Definition lead3 (b c : N) : bool :=
  ((b =? 224) && (160 <=? c) && (c <=? 191)
   || (225 <=? b) && (b <=? 236) && cont c
   || (b =? 237) && (128 <=? c) && (c <=? 159)
   || (238 <=? b) && (b <=? 239) && cont c)%N.
Definition lead4 (b c : N) : bool :=
  ((b =? 240) && (144 <=? c) && (c <=? 191)
   || (241 <=? b) && (b <=? 243) && cont c
   || (b =? 244) && (128 <=? c) && (c <=? 143))%N.
Fixpoint utf8_valid (l : list N) : bool :=
  match l with
  | [] => true
  | b :: l1 =>
      if (b <? 128)%N then utf8_valid l1
      else match l1 with
      | c :: l2 =>
          if ((194 <=? b) && (b <=? 223) && cont c)%N then utf8_valid l2
          else match l2 with
          | d :: l3 =>
              if lead3 b c && cont d then utf8_valid l3
              else match l3 with
              | e :: l4 => lead4 b c && cont d && cont e && utf8_valid l4
              | [] => false
              end
          | [] => false
          end
      | [] => false
      end
  end.

(** The complete lines of a buffer, ends included, and what is left of it. *)
Fixpoint complete_lines (acc l : list N) : list (list N) * list N :=
  match l with
  | [] => ([], reverse acc)
  | b :: l =>
      if decide (b = 10%N)
      then let '(ls, rest) := complete_lines [] l in (reverse (b :: acc) :: ls, rest)
      else complete_lines (b :: acc) l
  end.

(** An event, given when it is sent. *)
Abbreviation Timed := (Z → Value).

(** Where the reading stands: the buffer, what was read, the task's id, the events
    sent, the ids cancelled, and, once it has ended early, its error. *)
Record Reading := {
  rg_buf : list N;
  rg_read : Read;
  rg_task : option string;
  rg_sent : list Timed;
  rg_cancelled : list string;
  rg_stop : option (option string);
}.

Section Streaming.
Context (c : Call) (max_cost : option f64) (idle_timeout_secs : Z).
(** Does the receiver take the event sent after [n] others? *)
Context (accepts : nat → bool).

Definition stamped (fields : Z → list (string * Value)) : Timed :=
  λ now, obj (fields now ++ [("timestamp_ms", num (now / 1000000))]).

Definition latency (now : Z) : Z := elapsed_ms (cl_start c) now.

(** [tx.send]: whether the event was taken. *)
Definition send (ev : Timed) (r : Reading) : bool * Reading :=
  if accepts (length (rg_sent r))
  then (true, {| rg_buf := rg_buf r; rg_read := rg_read r; rg_task := rg_task r;
    rg_sent := rg_sent r ++ [ev]; rg_cancelled := rg_cancelled r; rg_stop := rg_stop r |})
  else (false, r).

(** [send_a2a_cancel]: only a task that gave its id can be cancelled. *)
Definition cancel (r : Reading) : Reading := {|
  rg_buf := rg_buf r; rg_read := rg_read r; rg_task := rg_task r; rg_sent := rg_sent r;
  rg_cancelled := rg_cancelled r ++ match rg_task r, resolve_url (cl_uri c) "tasks/cancel" with
    | Some id, Ok _ => [id] | _, _ => [] end;
  rg_stop := rg_stop r |}.

Definition stop (error : option string) (r : Reading) : Reading := {|
  rg_buf := rg_buf r; rg_read := rg_read r; rg_task := rg_task r; rg_sent := rg_sent r;
  rg_cancelled := rg_cancelled r; rg_stop := Some error |}.

Definition with_chunk (read : Read) (r : Reading) : Reading := {|
  rg_buf := rg_buf r; rg_read := read;
  rg_task := match rg_task r with Some t => Some t | None => str_key "id" (rd_last read) end;
  rg_sent := rg_sent r; rg_cancelled := rg_cancelled r; rg_stop := rg_stop r |}.

Definition set_buf (b : list N) (r : Reading) : Reading := {|
  rg_buf := b; rg_read := rg_read r; rg_task := rg_task r; rg_sent := rg_sent r;
  rg_cancelled := rg_cancelled r; rg_stop := rg_stop r |}.

(** The progress event of the chunk just read. *)
Definition progress_sent (read : Read) : Timed :=
  stamped (λ _, match last (rd_chunks read) with
    | Some x => chunk_fields (cl_node_id c) x
    | None => []
    end).

(** A complete line. *)
Definition read_line (line : list N) (r : Reading) : Reading :=
  if negb (utf8_valid line) then r
  else
    let s := trim (of_bytes line) in
    if str_is_empty s then r
    else
      let r := with_chunk (read_chunk max_cost (rg_read r) s) r in
      let '(taken, r) := send (progress_sent (rg_read r)) r in
      if negb taken then stop (Some "AgentTool stream receiver dropped") (cancel r)
      else if rd_over (rg_read r) then
        let '(_, r) := send (stamped (λ now, terminated_fields (cl_node_id c) "budget_exceeded"
          (rd_cost (rg_read r)) (latency now))) r in
        stop None (cancel r)
      else r.

Fixpoint read_complete (ls : list (list N)) (r : Reading) : Reading :=
  match ls with
  | [] => r
  | l :: ls =>
      let r := read_line l r in
      match rg_stop r with Some _ => r | None => read_complete ls r end
  end.

Definition read_item (i : StreamItem) (r : Reading) : Reading :=
  match i with
  | Bytes b =>
      let '(ls, rest) := complete_lines [] (rg_buf r ++ b) in
      read_complete ls (set_buf rest r)
  | NetError e =>
      let '(_, r) := send (stamped (λ _, [("type", Str "agent_tool_error");
        ("node_id", Str (cl_node_id c)); ("error", Str e)])) r in
      stop (Some ("AgentTool stream error: " +:+ e)) r
  | IdleTimeout =>
      let '(_, r) := send (stamped (λ now, terminated_fields (cl_node_id c) "idle_timeout"
        (rd_cost (rg_read r)) (latency now))) r in
      stop (Some ("AgentTool idle timeout after " +:+ pretty idle_timeout_secs +:+ "s")) (cancel r)
  end.

Fixpoint read_stream (items : list StreamItem) (r : Reading) : Reading :=
  match items with
  | [] => r
  | i :: items =>
      let r := read_item i r in
      match rg_stop r with Some _ => r | None => read_stream items r end
  end.

(** What is left in the buffer when the stream has ended: no budget is asked. *)
Definition drain (r : Reading) : Reading :=
  match rg_stop r with
  | Some _ => r
  | None =>
      if utf8_valid (rg_buf r) then
        let s := trim (of_bytes (rg_buf r)) in
        if str_is_empty s then r
        else
          let read := read_chunk None (rg_read r) s in
          let r := {| rg_buf := rg_buf r; rg_read := read; rg_task := rg_task r;
            rg_sent := rg_sent r; rg_cancelled := rg_cancelled r; rg_stop := None |} in
          (send (progress_sent read) r).2
      else r
  end.

(** The end: an error, or the last chunk, after [agent_tool_completed] when nothing
    ended the reading early. *)
Definition finish_stream (r : Reading) : list Timed * (Z → result string ExecutionResult) :=
  match rg_stop r with
  | Some (Some e) => (rg_sent r, λ _, Err e)
  | stopped =>
      let r := match stopped with
        | None => (send (stamped (λ now, completed_fields (cl_node_id c) (rd_last (rg_read r))
            (rd_cost (rg_read r)) (latency now))) r).2
        | Some _ => r
        end in
      (rg_sent r, λ now, Ok (plain_result (obj [(cl_output_key c, rd_last (rg_read r))]) (obj [])
        (latency now)))
  end.

(** The stream of a call whose POST was answered by [answered]. *)
Definition stream_call (answered : result string Response)
    : list Timed * (Z → result string ExecutionResult) :=
  match build_client None with
  | Err e => ([], λ _, Err e)
  | Ok _ =>
      let invoked := stamped (λ _, invoked_fields c "streaming") in
      let '(taken, r) := send invoked {| rg_buf := []; rg_read := Read_start; rg_task := None;
        rg_sent := []; rg_cancelled := []; rg_stop := None |} in
      if negb taken then ([], λ _, Err "Streaming receiver dropped before invocation event")
      else
        match resolve_url (cl_uri c) "tasks/sendSubscribe", answered with
        | Err e, _ => (rg_sent r, λ _, Err e)
        | _, Err e => (rg_sent r, λ _, Err ("AgentTool streaming invocation failed: " +:+ e))
        | Ok _, Ok resp =>
            if is_success resp then finish_stream (drain (read_stream (rs_stream resp) r))
            else (rg_sent r, λ _, Err ("Agent returned error " +:+ hc_status client (rs_status resp)
              +:+ ": " +:+ match rs_text resp with Ok t => t | Err _ => "" end))
        end
  end.
End Streaming.

(** ** The executor *)

Definition MISSING_AGENT : string := "AgentTool: missing 'agent' URI in payload".

Definition call_of (item : WorkItem) (uri : string) (start : Z) : Call := {|
  cl_node_id := wi_node_id item; cl_uri := uri; cl_output_key := output_key (payload item);
  cl_timeout_ms := default 30000 (u64_key "timeout_ms" (payload item));
  cl_input := tool_input (payload item); cl_start := start |}.

(** [execute]. *)
Definition agent_tool_execute (item : WorkItem) : eff S ExecutorError ExecutionResult :=
  let p := payload item in
  start ← utc_now;
  uri ← of_result (ok_or (ExecutorError.Fatal MISSING_AGENT) (agent_uri p));
  match get "agent" p ≫= get "auto" with
  | Some _ => raise (ExecutorError.Fatal ("AgentTool with 'auto' target was not expanded at compile time. "
      +:+ "Use the compiler to expand 'auto' into coordinator + agent_tool nodes."))
  | None =>
      let c := call_of item uri start in
      let mode := tool_mode p in
      with_err ExecutorError.Fatal
        (if decide (mode = "sync") then execute_sync c
         else if decide (mode = "streaming") then stream_ndjson (max_cost_usd p) c
         else if decide (mode = "conversational") then execute_conversational p c
         else raise ("Unknown agent_tool mode: '" +:+ mode +:+ "'"))
  end.

(** [execute_streaming], begun at [start], for an agent that answers with
    [answered]; [pass] is what others do to the store between two events. *)
Definition agent_tool_streaming (start : Z) (answered : result string Response)
    (pass : world S → world S) (item : WorkItem) : Run S :=
  let p := payload item in
  match agent_uri p with
  | None => ([], raise (ExecutorError.Fatal MISSING_AGENT))
  | Some uri =>
      if decide (streaming_mode p = "streaming") then
        let '(events, ending) := stream_call (call_of item uri start) (max_cost_usd p)
          (default 30 (u64_key "idle_timeout_secs" p)) (λ _, true) answered in
        ((λ ev w, let w := pass w in (ev (clock w), w)) <$> events,
         λ w, let w := pass w in (map_err ExecutorError.Fatal (ending (clock w)), w))
      else ([], agent_tool_execute item)
  end.

Definition AgentToolExecutor (start : Z) (answered : result string Response)
    (pass : world S → world S) : NodeExecutor S :=
  {| execute := agent_tool_execute; execute_streaming := agent_tool_streaming start answered pass |}.
End AgentTool.
