(* ===== verification/AgentToolCorrect.v ===== *)
(** * Reading an agent's stream ([workers/src/executors/agent_tool.rs])

    Reading the lines as they arrive comes to what reading the whole body does,
    however the body was cut into chunks, and the budget ends either. *)

From S2P Require Import Prelude.
From S2P Require Import Json.
From S2P Require Import RustStr.
From S2P Require Import Condition.
From S2P Require Import Budget.
From S2P Require Import Agents.
From S2P Require Import Backend.
From S2P Require Import Artifact.
From S2P Require Import Worker.
From S2P Require Import Executors.
From S2P Require Import AgentTool.

(** ** White space at the end of a line *)

Lemma bytes_of_bytes l : Forall (λ b, (b < 256)%N) l → bytes (of_bytes l) = l.
Proof.
  intros Hl. unfold bytes, of_bytes. rewrite String.list_ascii_of_string_of_list_ascii.
  induction Hl as [|b l Hb _ IH]; [done|]. cbn. rewrite IH. f_equal. by apply Ascii.N_ascii_embedding.
Qed.

Lemma trim_front_snoc l b : ws1 b = true →
  trim_front (l ++ [b]) = match trim_front l with [] => [] | r => r ++ [b] end.
Proof.
  intros Hb. assert (∀ x, ws2 x b = false ∧ ∀ y, ws3 x y b = false) as Hno.
  { intros x. assert ((b < 128)%N) as Hlt.
    { unfold ws1 in Hb. apply orb_true_iff in Hb as [[_ Hb%N.leb_le]%andb_true_iff|Hb%N.eqb_eq]; lia. }
    split; [|intros y]; unfold ws2, ws3;
      repeat match goal with |- context [(?a =? ?v)%N] => destruct (N.eqb_spec a v); try lia end;
      rewrite ?andb_false_r; try done;
      repeat match goal with |- context [(?a <=? ?v)%N] => destruct (N.leb_spec a v); try lia end;
      rewrite ?andb_false_r; done. }
  induction l as [l IH] using (induction_ltof1 _ length). unfold ltof in IH.
  destruct l as [|x l1]; cbn [app trim_front]; [by rewrite Hb|].
  destruct (ws1 x) eqn:H1; [apply IH; cbn; lia|].
  destruct l1 as [|y l2]; cbn [app].
  { destruct (Hno x) as [-> _]. done. }
  destruct (ws2 x y) eqn:H2; [apply IH; cbn; lia|].
  destruct l2 as [|z l3]; cbn [app].
  { destruct (Hno x) as [_ Hx]. by rewrite Hx. }
  destruct (ws3 x y z) eqn:H3; [apply IH; cbn; lia|done].
Qed.

Definition trim_bytes (l : list N) : list N := reverse (trim_back (reverse (trim_front l))).

Lemma trim_bytes_snoc l b : ws1 b = true → trim_bytes (l ++ [b]) = trim_bytes l.
Proof.
  intros Hb. unfold trim_bytes. rewrite trim_front_snoc by done.
  destruct (trim_front l) as [|x r]; [done|]. rewrite reverse_snoc. cbn [trim_back]. by rewrite Hb.
Qed.

Lemma trim_of_bytes l : Forall (λ b, (b < 256)%N) l → trim (of_bytes l) = of_bytes (trim_bytes l).
Proof. intros Hl. unfold trim. by rewrite bytes_of_bytes. Qed.

Lemma trim_line l : Forall (λ b, (b < 256)%N) l →
  trim (of_bytes (strip_cr l)) = trim (of_bytes (l ++ [10%N])).
Proof.
  intros Hl. assert (Forall (λ b, (b < 256)%N) (l ++ [10%N])) as Hl'.
  { apply Forall_app; split; [done|]. by apply Forall_singleton. }
  rewrite (trim_of_bytes (l ++ _)) by done. rewrite trim_bytes_snoc by done.
  unfold strip_cr. destruct (reverse l) as [|b r] eqn:Hr; [by rewrite trim_of_bytes|].
  assert (l = reverse r ++ [b]) as -> by (rewrite <- (reverse_involutive l), Hr; apply reverse_cons).
  apply Forall_app in Hl as [Hr' _].
  destruct (decide (b = 13%N)) as [->|Hb].
  - rewrite trim_of_bytes, trim_bytes_snoc by done. done.
  - assert (match b with 13%N => reverse r | _ => reverse r ++ [b] end = reverse r ++ [b]) as ->.
    { repeat (destruct b as [|b]; try done); repeat (destruct b as [b|b|]; try done). }
    rewrite trim_of_bytes; [done|]. apply Forall_app in Hl' as [? _]. done.
Qed.

(** UTF-8 is bytes. *)
Ltac byte_bounds :=
  repeat match goal with
  | H : _ && _ = true |- _ => apply andb_true_iff in H as [? ?]
  | H : _ || _ = true |- _ => apply orb_true_iff in H as [?|?]
  | H : (_ <=? _)%N = true |- _ => apply N.leb_le in H
  | H : (_ =? _)%N = true |- _ => apply N.eqb_eq in H
  end; lia.

Lemma utf8_bytes l : utf8_valid l = true → Forall (λ b, (b < 256)%N) l.
Proof.
  induction l as [l IH] using (induction_ltof1 _ length). unfold ltof in IH.
  destruct l as [|b l1]; [by constructor|]. cbn [utf8_valid].
  destruct (N.ltb_spec b 128) as [Hb|Hb]; [intros Hv; constructor; [lia|by apply IH; cbn; [lia|]]|].
  destruct l1 as [|c l2]; [done|]. destruct (_ && _ && cont c) eqn:H2.
  { intros Hv. unfold cont in H2. constructor; [byte_bounds|]. constructor; [byte_bounds|].
    apply IH; cbn; [lia|done]. }
  destruct l2 as [|d l3]; [done|]. destruct (lead3 b c && cont d) eqn:H3.
  { intros Hv. unfold lead3, cont in H3. do 3 (constructor; [byte_bounds|]).
    apply IH; cbn; [lia|done]. }
  destruct l3 as [|e l4]; [done|]. intros [H4 Hv]%andb_true_iff. unfold lead4, cont in H4.
  do 4 (constructor; [byte_bounds|]). apply IH; cbn; [lia|done].
Qed.

(** The lines of UTF-8 text are UTF-8. *)
Lemma lead3_newline b : lead3 b 10 = false.
Proof. unfold lead3, cont. cbn. by rewrite !andb_false_r. Qed.
Lemma lead4_newline b : lead4 b 10 = false.
Proof. unfold lead4, cont. cbn. by rewrite !andb_false_r. Qed.

Lemma utf8_split l1 l2 : utf8_valid (l1 ++ 10%N :: l2) = true →
  utf8_valid (l1 ++ [10%N]) = true ∧ utf8_valid l2 = true.
Proof.
  induction l1 as [l1 IH] using (induction_ltof1 _ length). unfold ltof in IH.
  destruct l1 as [|b m1]; cbn [app utf8_valid]; [done|].
  destruct (b <? 128)%N eqn:Hb; [intros Hv; apply IH; cbn; [lia|done]|].
  destruct m1 as [|c m2]; cbn [app utf8_valid].
  { change (cont 10) with false. rewrite !andb_false_r. rewrite lead3_newline, lead4_newline.
    by destruct l2 as [|? [|? ?]]. }
  destruct (_ && _ && cont c) eqn:H2; [intros Hv; apply IH; cbn; [lia|done]|].
  destruct m2 as [|d m3]; cbn [app utf8_valid].
  { change (cont 10) with false. rewrite !andb_false_r. cbn. by destruct l2. }
  destruct (lead3 b c && cont d) eqn:H3; [intros Hv; apply IH; cbn; [lia|done]|].
  destruct m3 as [|e m4]; cbn [app utf8_valid].
  { change (cont 10) with false. by rewrite !andb_false_r. }
  intros [Hl Hv]%andb_true_iff. rewrite Hl. apply IH; cbn; [lia|done].
Qed.

(** ** Lines, however the text is cut *)

Lemma complete_lines_app acc l1 l2 :
  complete_lines acc (l1 ++ l2)
  = let '(ls1, rest1) := complete_lines acc l1 in
    let '(ls2, rest2) := complete_lines (reverse rest1) l2 in (ls1 ++ ls2, rest2).
Proof.
  revert acc. induction l1 as [|b l1 IH]; intros acc; cbn [app complete_lines].
  { rewrite reverse_involutive. by destruct (complete_lines acc l2). }
  case_decide; [|apply IH]. rewrite IH. destruct (complete_lines [] l1) as [ls1 rest1].
  by destruct (complete_lines (reverse rest1) l2).
Qed.

Lemma complete_lines_rest acc l : 10%N ∉ acc → 10%N ∉ (complete_lines acc l).2.
Proof.
  revert acc. induction l as [|b l IH]; intros acc Hacc; cbn [complete_lines].
  { cbn. by rewrite elem_of_reverse. }
  case_decide as Hb.
  - specialize (IH [] ltac:(by apply not_elem_of_nil)). by destruct (complete_lines [] l).
  - apply IH. rewrite not_elem_of_cons. done.
Qed.

Lemma complete_lines_open x : 10%N ∉ x → complete_lines [] x = ([], x).
Proof.
  assert (∀ acc, 10%N ∉ x → complete_lines acc x = ([], reverse acc ++ x)) as Hg; [|apply (Hg [])].
  induction x as [|b x IH]; intros acc Hx; cbn [complete_lines]; [by rewrite app_nil_r|].
  apply not_elem_of_cons in Hx as [Hb Hx]. rewrite decide_False by congruence.
  rewrite IH by done. by rewrite reverse_cons, <- app_assoc.
Qed.

Lemma complete_lines_from x l : 10%N ∉ x → complete_lines (reverse x) l = complete_lines [] (x ++ l).
Proof.
  intros Hx. rewrite complete_lines_app, complete_lines_open by done.
  by destruct (complete_lines (reverse x) l).
Qed.

Lemma complete_lines_valid acc l : utf8_valid (reverse acc ++ l) = true → 10%N ∉ acc →
  let '(ls, rest) := complete_lines acc l in
  Forall (λ x, utf8_valid x = true ∧ ∃ y, x = y ++ [10%N]) ls ∧ utf8_valid rest = true.
Proof.
  revert acc. induction l as [|b l IH]; intros acc Hv Hacc; cbn [complete_lines].
  { rewrite app_nil_r in Hv. done. }
  case_decide as Hb.
  - subst b. apply utf8_split in Hv as [Hline Hv].
    specialize (IH [] Hv ltac:(by apply not_elem_of_nil)). destruct (complete_lines [] l) as [ls rest].
    destruct IH as [? ?]. split; [|done]. constructor; [|done].
    rewrite reverse_cons. split; [done|]. by eexists.
  - apply IH; [|by rewrite not_elem_of_cons]. by rewrite reverse_cons, <- app_assoc.
Qed.

(** [lines()] and the incremental buffer see the same text. *)
Lemma lines_from_complete acc l :
  let '(ls, rest) := complete_lines acc l in
  ∃ ys, ls = (λ y, y ++ [10%N]) <$> ys
    ∧ lines_from acc l = (strip_cr <$> ys) ++ (if decide (rest = []) then [] else [rest]).
Proof.
  revert acc. induction l as [|b l IH]; intros acc; cbn [complete_lines lines_from].
  { exists []. split; [done|]. destruct acc as [|a acc]; [done|]. cbn [app].
    rewrite decide_False; [done|]. rewrite reverse_cons. by destruct (reverse acc). }
  case_decide as Hb; [|apply IH]. subst b. specialize (IH []).
  destruct (complete_lines [] l) as [ls rest]. destruct IH as (ys & -> & ->).
  exists (reverse acc :: ys). by rewrite reverse_cons.
Qed.

(** ** The two readings *)

Section Streams.
Context `{!JsonText} {S : Type} (input_hash : string → string) (client : HttpClient S).
Context (c : Call) (max_cost : option f64) (idle : Z).

(** A receiver that takes every event. *)
Let taken : nat → bool := λ _, true.

Definition at_time (now : Z) (fields : list (string * Value)) : Value :=
  obj (fields ++ [("timestamp_ms", num (now / 1000000))]).

Definition progress_at (now : Z) (x : Z * Value * f64) : Value :=
  at_time now (chunk_fields (cl_node_id c) x).

(** What has been sent is what has been read. *)
Definition told (r : Reading) : Prop :=
  rg_stop r = (if rd_over (rg_read r) then Some None else None)
  ∧ ∀ now, (λ ev : Z → Value, ev now) <$> rg_sent r
    = at_time now (invoked_fields input_hash c "streaming") ::
      (progress_at now <$> rd_chunks (rg_read r))
      ++ (if rd_over (rg_read r)
          then [at_time now (terminated_fields (cl_node_id c) "budget_exceeded"
                  (rd_cost (rg_read r)) (latency c now))]
          else []).

Lemma send_taken ev r : send taken ev r = (true, {| rg_buf := rg_buf r; rg_read := rg_read r;
  rg_task := rg_task r; rg_sent := rg_sent r ++ [ev]; rg_cancelled := rg_cancelled r;
  rg_stop := rg_stop r |}).
Proof. done. Qed.

Lemma progress_of_last max rd s now :
  progress_sent c (read_chunk max rd s) now
  = progress_at now (Z.of_nat (length (rd_chunks rd)), chunk_of s,
      spend_chunk (rd_cost rd) (chunk_of s)).
Proof. unfold progress_sent, stamped. cbn. by rewrite last_snoc. Qed.

Lemma read_line_told line r :
  told r → rg_stop r = None → utf8_valid line = true →
  let r' := read_line c max_cost taken line r in
  told r' ∧ rg_buf r' = rg_buf r
  ∧ ∀ more, read_lines max_cost (rg_read r) (of_bytes line :: more)
      = if rd_over (rg_read r') then rg_read r' else read_lines max_cost (rg_read r') more.
Proof.
  intros [Hstop Htold] Hnone Hv. cbn zeta. unfold read_line. rewrite Hv. cbn [negb read_lines].
  assert (rd_over (rg_read r) = false) as Hover by (destruct (rd_over (rg_read r)); congruence).
  destruct (str_is_empty (trim (of_bytes line))) eqn:He.
  { split_and!; [done|done|]. intros more. by rewrite Hover. }
  set (s := trim (of_bytes line)). rewrite send_taken. cbn [negb]. cbn [rg_read].
  unfold with_chunk at 1 2. cbn [rg_read].
  set (rd := read_chunk max_cost (rg_read r) s).
  assert (∀ now, (λ ev : Z → Value, ev now) <$> (rg_sent r ++ [progress_sent c rd])
    = at_time now (invoked_fields input_hash c "streaming") :: (progress_at now <$> rd_chunks rd)) as Hsent.
  { intros now. rewrite fmap_app, Htold, Hover, app_nil_r. cbn [fmap list_fmap].
    unfold rd at 1. rewrite progress_of_last. unfold rd, read_chunk. cbn [rd_chunks].
    by rewrite fmap_app. }
  clearbody rd. destruct (rd_over rd) eqn:Hrd.
  - rewrite send_taken. unfold told. cbn. rewrite Hrd. split_and!; [done| |done|intros more; cbn; by rewrite ?Hrd].
    intros now. rewrite fmap_app, Hsent. done.
  - unfold told. cbn. rewrite Hrd, Hnone. split_and!; [done| |done|intros more; cbn; by rewrite ?Hrd].
    intros now. by rewrite Hsent, app_nil_r.
Qed.

Lemma read_complete_told ls r :
  told r → rg_stop r = None → Forall (λ x, utf8_valid x = true) ls →
  let r' := read_complete c max_cost taken ls r in
  told r' ∧ rg_buf r' = rg_buf r
  ∧ ∀ more, read_lines max_cost (rg_read r) ((of_bytes <$> ls) ++ more)
      = if rd_over (rg_read r') then rg_read r' else read_lines max_cost (rg_read r') more.
Proof.
  revert r. induction ls as [|l ls IH]; intros r Ht Hnone Hv; cbn [read_complete].
  { split_and!; [done|done|]. intros more. cbn.
    destruct Ht as [Hs _]. rewrite Hnone in Hs. by destruct (rd_over _). }
  apply Forall_cons in Hv as [Hl Hv].
  destruct (read_line_told l r Ht Hnone Hl) as (Ht1 & Hb1 & Hr1).
  set (r1 := read_line _ _ _ _ _) in *. destruct (rg_stop r1) as [e|] eqn:Hs1.
  - split_and!; [done|done|]. intros more. cbn [fmap list_fmap app]. rewrite Hr1.
    destruct Ht1 as [Hs _]. rewrite Hs1 in Hs. by destruct (rd_over _).
  - destruct (IH r1 Ht1 Hs1 Hv) as (Ht2 & Hb2 & Hr2). split_and!; [done|congruence|].
    intros more. cbn [fmap list_fmap app]. rewrite Hr1.
    destruct Ht1 as [Hs _]. rewrite Hs1 in Hs. destruct (rd_over (rg_read r1)); [done|apply Hr2].
Qed.

(** However the text is cut into chunks, the lines read are the text's. *)
Lemma read_stream_told bs r :
  told r → rg_stop r = None → 10%N ∉ rg_buf r →
  Forall (λ x, utf8_valid x = true) (complete_lines [] (rg_buf r ++ concat bs)).1 →
  let '(ls, rest) := complete_lines [] (rg_buf r ++ concat bs) in
  let r' := read_stream c max_cost idle taken (Bytes <$> bs) r in
  told r'
  ∧ (∀ more, read_lines max_cost (rg_read r) ((of_bytes <$> ls) ++ more)
      = if rd_over (rg_read r') then rg_read r' else read_lines max_cost (rg_read r') more)
  ∧ (rg_stop r' = None → rg_buf r' = rest).
Proof.
  revert r. induction bs as [|b bs IH]; intros r Ht Hnone Hopen; cbn [concat].
  { rewrite app_nil_r, complete_lines_open by done. intros _. cbn. split_and!; [done| |done].
    intros more. destruct Ht as [Hs _]. rewrite Hnone in Hs. by destruct (rd_over _). }
  rewrite app_assoc, complete_lines_app. cbn [fmap list_fmap read_stream read_item].
  pose proof (complete_lines_rest [] (rg_buf r ++ b) ltac:(by apply not_elem_of_nil)) as Hrest.
  destruct (complete_lines [] (rg_buf r ++ b)) as [ls1 rest1]. cbn [snd] in Hrest.
  rewrite complete_lines_from by done.
  destruct (complete_lines [] (rest1 ++ concat bs)) as [ls2 rest2] eqn:Hcl2. cbn [fst].
  intros [Hv1 Hv2]%Forall_app.
  destruct (read_complete_told ls1 (set_buf rest1 r) Ht Hnone Hv1) as (Ht1 & Hb1 & Hr1).
  set (r1 := read_complete _ _ _ _ _) in *. cbn [set_buf rg_buf] in Hb1.
  assert (∀ more, read_lines max_cost (rg_read r) ((of_bytes <$> (ls1 ++ ls2)) ++ more)
    = if rd_over (rg_read r1) then rg_read r1
      else read_lines max_cost (rg_read r1) ((of_bytes <$> ls2) ++ more)) as Hr1'.
  { intros more. rewrite fmap_app, <- app_assoc. apply Hr1. }
  destruct (rg_stop r1) as [e|] eqn:Hs1.
  - split_and!; [done| |congruence]. intros more. rewrite Hr1'.
    destruct Ht1 as [Hs _]. rewrite Hs1 in Hs. by destruct (rd_over _).
  - specialize (IH r1 Ht1 Hs1). rewrite Hb1, Hcl2 in IH. destruct (IH Hrest Hv2) as (Ht2 & Hr2 & Hb2).
    split_and!; [done| |done]. intros more. rewrite Hr1'.
    destruct Ht1 as [Hs _]. rewrite Hs1 in Hs. destruct (rd_over (rg_read r1)); [done|apply Hr2].
Qed.

Lemma read_lines_trim m rd l1 l2 :
  Forall2 (λ a b, trim a = trim b) l1 l2 → read_lines m rd l1 = read_lines m rd l2.
Proof.
  intros Hl. revert rd. induction Hl as [|a b l1 l2 Hab _ IH]; intros rd; [done|].
  cbn [read_lines]. rewrite Hab. destruct (str_is_empty _); [done|]. by destruct (rd_over _).
Qed.

Lemma complete_lines_ended acc l : last l = Some 10%N → (complete_lines acc l).2 = [].
Proof.
  destruct l as [|b l _] using rev_ind; [done|]. rewrite last_snoc. intros [= ->].
  rewrite complete_lines_app. destruct (complete_lines acc l) as [ls rest]. done.
Qed.

(** What either reading reports, but for the times. *)
Definition reported (rd : Read) (now : Z) : list (list (string * Value)) :=
  invoked_fields input_hash c "streaming" ::
  (chunk_fields (cl_node_id c) <$> rd_chunks rd)
  ++ [if rd_over rd
      then terminated_fields (cl_node_id c) "budget_exceeded" (rd_cost rd) (latency c now)
      else completed_fields (cl_node_id c) (rd_last rd) (rd_cost rd) (latency c now)].

Definition stream_start : Reading := {|
  rg_buf := []; rg_read := Read_start; rg_task := None;
  rg_sent := [stamped (λ _, invoked_fields input_hash c "streaming")];
  rg_cancelled := []; rg_stop := None |}.

(** The drain of what follows the last line end, when no budget is asked there. *)
Lemma drain_told r :
  told r →
  (rg_stop r = None → utf8_valid (rg_buf r) = true ∧ (max_cost = None ∨ rg_buf r = [])) →
  let r' := drain c taken r in
  told r'
  ∧ rg_read r' = if rd_over (rg_read r) then rg_read r
      else read_lines max_cost (rg_read r) (if decide (rg_buf r = []) then [] else [of_bytes (rg_buf r)]).
Proof.
  intros [Hstop Htold] Hlast. cbn zeta. unfold drain.
  destruct (rg_stop r) as [e|] eqn:Hs; [split; [by split; [rewrite Hs|]|by destruct (rd_over _)]|].
  destruct (rd_over (rg_read r)) eqn:Hover; [done|]. destruct (Hlast eq_refl) as [-> Hlast'].
  destruct (decide (rg_buf r = [])) as [->|Hne].
  { cbn. split; [|done]. by split; [rewrite Hs, Hover|rewrite Hover]. }
  destruct Hlast' as [->|]; [|done]. cbn [read_lines].
  destruct (str_is_empty _) eqn:He; [split; [|done]; by split; [rewrite Hs, Hover|rewrite Hover]|].
  set (s := trim _). split; [|done]. split; [done|]. intros now. cbn.
  rewrite fmap_app, Htold. cbn [fmap list_fmap]. rewrite progress_of_last.
  by rewrite !app_nil_r, fmap_app.
Qed.

(** C20: The two readings of a stream agree. However the network cuts the body into
    pieces, the agent's lines are the same when they are read as they arrive and
    when the whole body is read: the same chunks in the same order with the same
    costs, the same end (the budget's or the agent's), the same output; only the
    times differ. The body is UTF-8 and, when there is a budget, ends its last
    line. *)
Theorem stream_agrees (pieces : list (list N)) (resp : Response) (w w1 : world S)
    (Hbuild : ∀ t, hc_build client t = Ok tt)
    (Hurl : starts_with "https://" (cl_uri c) = true)
    (Hpost : hc_post client (trim_end_char 47 (cl_uri c) +:+ "/" +:+ "tasks/sendSubscribe")
      (rpc_body "tasks/sendSubscribe" (json_to_string (cl_input c))) w = (Ok resp, w1))
    (Hok : is_success resp = true)
    (Hstream : rs_stream resp = Bytes <$> pieces)
    (Htext : rs_text resp = Ok (of_bytes (concat pieces)))
    (Hutf : utf8_valid (concat pieces) = true)
    (Hlast : max_cost = None ∨ concat pieces = [] ∨ last (concat pieces) = Some 10%N) :
  let rd := read_lines max_cost Read_start (lines (of_bytes (concat pieces))) in
  let '(events, ending) := stream_call input_hash client c max_cost idle taken (Ok resp) in
  (∀ now, ending now
     = Ok (plain_result (obj [(cl_output_key c, rd_last rd)]) (obj []) (latency c now)))
  ∧ (∀ now, (λ ev : Z → Value, ev now) <$> events = at_time now <$> reported rd now)
  ∧ stream_ndjson input_hash client max_cost c w
    = (Ok (tool_result (cl_output_key c) (rd_last rd) (obj <$> reported rd (clock w1))
        (latency c (clock w1))), w1).
Proof.
  cbn zeta. set (body := concat pieces) in *.
  pose proof (complete_lines_valid [] body Hutf ltac:(by apply not_elem_of_nil)) as Hvalid.
  pose proof (lines_from_complete [] body) as Hlines.
  assert (told stream_start) as Hstart by (split; [done|]; intros now; done).
  pose proof (read_stream_told pieces stream_start Hstart eq_refl ltac:(by apply not_elem_of_nil)) as Hread.
  cbn [stream_start rg_buf app] in Hread. fold body in Hread.
  assert (max_cost = None ∨ (complete_lines [] body).2 = []) as Hend.
  { destruct Hlast as [?|[Hb|Hl]]; [by left| |right; by apply complete_lines_ended].
    right. rewrite Hb. done. }
  destruct (complete_lines [] body) as [ls rest]. destruct Hvalid as [Hvls Hvrest]. cbn [fst snd] in *.
  destruct Hread as (Htold & Hrd & Hbuf).
  { eapply Forall_impl; [exact Hvls|]. by intros x [? _]. }
  destruct Hlines as (ys & -> & Hfrom).
  assert (∀ m, read_lines m Read_start (lines (of_bytes body))
    = read_lines m Read_start ((of_bytes <$> ((λ y, y ++ [10%N]) <$> ys))
        ++ (if decide (rest = []) then [] else [of_bytes rest]))) as Hsame.
  { intros m. unfold lines. rewrite bytes_of_bytes by (by apply utf8_bytes).
    rewrite Hfrom, fmap_app. apply read_lines_trim, Forall2_app.
    - apply Forall2_fmap, Forall2_fmap, Forall_Forall2_diag, Forall_forall. intros y Hy.
      apply trim_line. rewrite Forall_forall in Hvls.
      destruct (Hvls (y ++ [10%N])) as [Hv _]; [apply list_elem_of_fmap; by exists y|].
      apply utf8_bytes in Hv. by apply Forall_app in Hv as [? _].
    - by case_decide; cbn; repeat constructor. }
  set (r := read_stream c max_cost idle taken (Bytes <$> pieces) stream_start) in *.
  destruct (drain_told r Htold) as [Hdt Hdr].
  { intros Hs. rewrite (Hbuf Hs). split; [done|]. by destruct Hend as [?|?]; [left|right]. }
  assert (rg_read (drain c taken r)
    = read_lines max_cost Read_start (lines (of_bytes body))) as Hresult.
  { rewrite Hdr, Hsame, Hrd. destruct Htold as [Hs _].
    destruct (rd_over (rg_read r)); [done|]. by rewrite (Hbuf Hs). }
  set (rd := read_lines max_cost Read_start (lines (of_bytes body))) in *.
  assert (stream_call input_hash client c max_cost idle taken (Ok resp)
    = finish_stream c taken (drain c taken r)) as ->.
  { unfold stream_call, build_client. rewrite Hbuild. cbn [map_err].
    unfold resolve_url. rewrite Hurl, Hok, Hstream. done. }
  assert (stream_ndjson input_hash client max_cost c w
    = (Ok (tool_result (cl_output_key c) (rd_last rd) (obj <$> reported rd (clock w1))
        (latency c (clock w1))), w1)) as Hbatch.
  { assert (∀ f g, post_ok client (trim_end_char 47 (cl_uri c) +:+ "/" +:+ "tasks/sendSubscribe")
      "tasks/sendSubscribe" (cl_input c) f g w = (Ok resp, w1)) as Hp.
    { intros f g. unfold post_ok, with_err, mbind, eff_bind. rewrite Hpost. cbn [map_err].
      by rewrite Hok. }
    unfold stream_ndjson, build_client, resolve_url. rewrite Hbuild, Hurl.
    unfold mbind, eff_bind, of_result. cbn [map_err]. rewrite Hp, Htext. cbn. fold body rd.
    unfold reported, tool_result. cbn. rewrite fmap_app, <- list_fmap_compose.
    by destruct (rd_over rd). }
  destruct Hdt as [Hds Hdsent]. rewrite Hresult in Hds, Hdsent. unfold finish_stream.
  assert (∀ now, progress_at now <$> rd_chunks rd
    = at_time now <$> (chunk_fields (cl_node_id c) <$> rd_chunks rd)) as Hp
    by (intros now; by rewrite <- list_fmap_compose).
  destruct (rd_over rd) eqn:Hover; rewrite Hds; (split_and!; [| |exact Hbatch]); intros now.
  - by rewrite Hresult.
  - unfold reported. rewrite Hover, Hdsent, Hp. cbn. by rewrite fmap_app.
  - cbn. by rewrite Hresult.
  - unfold reported. rewrite Hover. cbn. rewrite !fmap_app, Hdsent, Hp, app_nil_r, Hresult. done.
Qed.
End Streams.

(** ** The budget *)

Section Budgets.
Context `{!JsonText} (max_cost : option f64).

(** Chunks with their index and the cost up to them. *)
Fixpoint priced (index : Z) (cost : f64) (chunks : list Value) : list (Z * Value * f64) :=
  match chunks with
  | [] => []
  | chunk :: chunks =>
      let cost := spend_chunk cost chunk in (index, chunk, cost) :: priced (index + 1) cost chunks
  end.

(** The chunks of a body: its lines that are not blank. *)
Definition chunks_of (ls : list string) : list Value :=
  chunk_of <$> base.filter (λ s, str_is_empty s = false) (trim <$> ls).

Definition within (x : Z * Value * f64) : Prop := over_budget max_cost x.2 = false.

Lemma read_lines_priced ls rd : rd_over rd = false →
  let rd' := read_lines max_cost rd ls in
  ∃ pre post, priced (Z.of_nat (length (rd_chunks rd))) (rd_cost rd) (chunks_of ls) = pre ++ post
    ∧ rd_chunks rd' = rd_chunks rd ++ pre
    ∧ if rd_over rd' then ∃ init x, pre = init ++ [x] ∧ Forall within init ∧ ¬ within x
      else post = [] ∧ Forall within pre.
Proof.
  revert rd. induction ls as [|l ls IH]; intros rd Hover; cbn [read_lines].
  { exists [], []. rewrite Hover. split_and!; [done|by rewrite app_nil_r|done|by constructor]. }
  unfold chunks_of. rewrite !fmap_cons, filter_cons.
  destruct (str_is_empty (trim l)) eqn:He; [by apply IH|].
  rewrite decide_True by done. cbn [fmap list_fmap priced]. fold (chunks_of ls).
  set (s := trim l). set (cost := spend_chunk (rd_cost rd) (chunk_of s)).
  set (x := (Z.of_nat (length (rd_chunks rd)), chunk_of s, cost)).
  destruct (rd_over (read_chunk max_cost rd s)) eqn:Hs.
  - exists [x]. eexists. split; [reflexivity|]. split; [done|]. rewrite Hs.
    exists [], x. split_and!; [done|done|]. unfold within. cbn in Hs |- *. fold cost in Hs. by rewrite Hs.
  - destruct (IH _ Hs) as (pre & post & Hp & Hc & Hrest). cbn [read_chunk rd_chunks rd_cost] in Hp, Hc.
    rewrite length_app, Nat2Z.inj_add in Hp. cbn [length] in Hp. fold cost in Hp, Hc. fold x in Hc.
    exists (x :: pre), post. split_and!.
    + cbn [app]. by rewrite <- Hp.
    + by rewrite Hc, <- app_assoc.
    + assert (within x) as Hx by exact Hs.
      destruct (rd_over (read_lines _ _ ls)).
      * destruct Hrest as (init & y & -> & ? & ?). exists (x :: init), y. split_and!; [done|by constructor|done].
      * destruct Hrest as [-> ?]. split; [done|by constructor].
Qed.

(** The budget of a stream. The chunks reported are the body's, in order,
    numbered from 0, each with the total of the costs up to it; every one before the
    last was within the budget, the reading ends early exactly at the first chunk
    whose total exceeds it, and reads every line when none does. *)
Theorem budget_guard (ls : list string) :
  let rd := read_lines max_cost Read_start ls in
  ∃ post, priced 0 f64_zero (chunks_of ls) = rd_chunks rd ++ post
    ∧ (rd_over rd = true ↔ ∃ init x, rd_chunks rd = init ++ [x] ∧ ¬ within x)
    ∧ (∀ init x, rd_chunks rd = init ++ [x] → Forall within init)
    ∧ (rd_over rd = false → post = []).
Proof.
  cbn zeta. destruct (read_lines_priced ls Read_start eq_refl) as (pre & post & Hp & Hc & Hrest).
  cbn [Read_start rd_chunks length app rd_cost] in Hp, Hc. exists post. rewrite Hc. split; [done|].
  destruct (rd_over (read_lines max_cost Read_start ls)).
  - destruct Hrest as (init & x & -> & Hin & Hx). split_and!; [split; [intros _; by exists init, x|done]| |done].
    intros init' x' [-> _]%app_inj_tail. done.
  - destruct Hrest as [-> Hall]. split_and!; [split; [done|]| |done].
    + intros (init & x & -> & Hx). apply Forall_app in Hall as [_ Hx']. apply Forall_cons in Hx' as [Hx' _]. by destruct (Hx Hx').
    + intros init x ->. by apply Forall_app in Hall as [? _].
Qed.
End Budgets.

(** ** Conversations *)

(** A conversation sends at most its turns: it ends at the first response that says
    it is completed, or with the last turn, and every turn is reported by what was
    sent and what came back. *)
Theorem conversation_ends `{!JsonText} {S} (client : HttpClient S) (n : nat) (turn : Z) (c : Call)
    (url : string) (input final : Value) (events : list Value) (w w' : world S)
    (events' : list Value) (final' : Value) :
  turns client n turn c url input final events w = (Ok (events', final'), w') →
  ∃ responses : list Value, (length responses ≤ n)%nat
    ∧ length events' = (length events + 2 * length responses)%nat
    ∧ final' = default final (last responses)
    ∧ (∀ init r, responses = init ++ [r] → Forall (λ r, says_completed r = false) init)
    ∧ ((length responses < n)%nat → ∃ r, last responses = Some r ∧ says_completed r = true).
Proof.
  revert turn input final events w. induction n as [|n IH]; intros turn input final events w; cbn [turns].
  { intros [= <- <- <-]. exists []. cbn. split_and!; [lia|lia|done|by intros []|lia]. }
  unfold mbind at 1, eff_bind at 1. destruct (post_ok _ _ _ _ _ _ w) as [[resp|e] w1]; [|done].
  unfold mbind at 1, eff_bind at 1, of_result. destruct (rs_json resp) as [response|e]; [|done].
  cbn [map_err]. destruct (says_completed response) eqn:Hdone.
  - intros [= <- <- <-]. exists [response]. rewrite !length_app. cbn. split_and!; [lia|lia|done| |eauto].
    intros init r Hr. by destruct init as [|? [|? ?]].
  - intros Hrun. destruct (IH _ _ _ _ _ Hrun) as (rs & Hlen & Hev & Hfin & Hinit & Hlast).
    exists (response :: rs). rewrite !length_app in Hev. cbn in Hev |- *. split_and!.
    + lia.
    + lia.
    + rewrite Hfin. by destruct rs using rev_ind; [|rewrite !last_snoc, app_comm_cons, last_snoc].
    + intros init r Hr. destruct init as [|r0 init]; [by constructor|].
      injection Hr as <- Hr. constructor; [done|]. by eapply Hinit.
    + intros Hlt. destruct Hlast as (r & Hl & Hd); [lia|]. exists r. split; [|done].
      destruct rs as [|r0 rs] using rev_ind; [done|]. by rewrite app_comm_cons, last_snoc in *.
Qed.

(** ** Witness and examples *)

Module AgentToolSample.
(** Lines that are prices in cents, and anything else as it is. *)
#[local] Instance price_text : JsonText.
Proof.
  refine {| parse_json s := match parse_unsigned 1000 s with
      | Some n => Some (obj [("cost_usd", num n)]) | None => None end;
    json_to_string _ := "{}" |}.
  abstract (intros s v; destruct (parse_unsigned 1000 s); [by intros [= <-]|done]).
Defined.

Definition agent (text : string) (cuts : list nat) : Response := {|
  rs_status := 200; rs_text := Ok text; rs_json := Err "";
  rs_stream := Bytes <$> (fix cut ns l := match ns with [] => [l] | n :: ns => take n l :: cut ns (drop n l) end)
    cuts (bytes text) |}.
Definition http (r : Response) : HttpClient unit :=
  {| hc_build _ := Ok tt; hc_post _ _ w := (Ok r, w); hc_status _ := "200 OK" |}.
Definition the_call : Call := {|
  cl_node_id := "t"; cl_uri := "https://a.b/"; cl_output_key := "result"; cl_timeout_ms := 1000;
  cl_input := obj []; cl_start := 0 |}.

(** Four lines, the first cut in two; the third goes past the budget of 5. *)
Definition body : string := "2" +:+ NL +:+ "  " +:+ NL +:+ "3" +:+ NL +:+ "1" +:+ NL +:+ "9" +:+ NL.
Definition sent (text : string) (cuts : list nat) : list (option string) :=
  str_key "type" <$> ((λ ev : Z → Value, ev 0) <$>
    (stream_call (λ s, s) (http (agent text cuts)) the_call (Some (f64_of_Z 5)) 30 (λ _, true)
      (Ok (agent text cuts))).1).

Lemma stream_witness :
  sent body [1; 3]%nat = Some <$> ["agent_tool_invoked"; "agent_tool_progress"; "agent_tool_progress";
    "agent_tool_progress"; "agent_tool_terminated"]
  ∧ (∃ res, stream_ndjson (λ s, s) (http (agent body [1; 3]%nat)) (Some (f64_of_Z 5)) the_call
      (World tt 0 0%N) = (Ok res, World tt 0 0%N)).
Proof.
  split; [vm_compute; reflexivity|].
  pose proof (stream_agrees (λ s, s) (http (agent body [1; 3]%nat)) the_call (Some (f64_of_Z 5)) 30
    [[50]; [10; 32; 32]; [10; 51; 10; 49; 10; 57; 10]]%N (agent body [1; 3]%nat) (World tt 0 0%N)
    (World tt 0 0%N) ltac:(done) ltac:(reflexivity) ltac:(reflexivity) ltac:(reflexivity)
    ltac:(reflexivity) ltac:(reflexivity) ltac:(reflexivity) ltac:(right; right; reflexivity)) as Ha.
  destruct (stream_call _ _ _ _ _ _ _) as [events ending]. destruct Ha as (_ & _ & Hb).
  eexists. exact Hb.
Defined.

(** A last line without an end goes past the budget unseen when it is read as it
    arrives: the run is told the agent completed. *)
Example unended_line_unguarded :
  let text := "2" +:+ NL +:+ "900" in
  last (sent text []) = Some (Some "agent_tool_completed")
  ∧ rd_over (read_lines (Some (f64_of_Z 5)) Read_start (lines text)) = true.
Proof. vm_compute. done. Qed.
End AgentToolSample.
