(* ===== verification/Coordinator.v ===== *)
(** * Coordinators ([workers/src/executors/coordinator.rs],
    [scheduler/src/strategy_bridge.rs], [core/src/coordinator.rs])

    The executor that finds, scores and picks an agent, by way of a strategy
    service, and the weighted score of a candidate. The service and the derived
    deserializers of its answers are parameters. *)

From S2P Require Import Prelude.
From S2P Require Import Json.
From S2P Require Import RustStr.
From S2P Require Import Core.
From S2P Require Import Condition.
From S2P Require Import Ir.
From S2P Require Import Budget.
From S2P Require Import Backend.
From S2P Require Import Artifact.
From S2P Require Import Scheduler.
From S2P Require Import Worker.
From S2P Require Import Executors.
From S2P Require Import AgentTool.

(** ** Scores ([core/src/coordinator.rs]) *)


Record DimensionScores := {
  capability_fit : f64; cost_fit : f64; latency_fit : f64; trust_compatibility : f64;
  historical_performance : f64;
}.

Definition DimensionWeights_default : DimensionWeights := {|
  w_capability_fit := f64_of_Z 1; w_cost_fit := f64_of_Z 1; w_latency_fit := f64_of_Z 1;
  w_trust_compatibility := f64_of_Z 1; w_historical_performance := f64_of_Z 1 |}.

Definition total_weight (w : DimensionWeights) : f64 :=
  f64_add (f64_add (f64_add (f64_add (w_capability_fit w) (w_cost_fit w)) (w_latency_fit w))
    (w_trust_compatibility w)) (w_historical_performance w).

Definition weighted_sum (s : DimensionScores) (w : DimensionWeights) : f64 :=
  f64_add (f64_add (f64_add (f64_add
    (f64_mul (capability_fit s) (w_capability_fit w))
    (f64_mul (cost_fit s) (w_cost_fit w)))
    (f64_mul (latency_fit s) (w_latency_fit w)))
    (f64_mul (trust_compatibility s) (w_trust_compatibility w)))
    (f64_mul (historical_performance s) (w_historical_performance w)).

Definition composite (s : DimensionScores) (w : DimensionWeights) : f64 :=
  let total := total_weight w in
  if f64_eq total f64_zero then f64_zero else f64_div (weighted_sum s w) total.

(** ** The strategy service ([strategy_bridge.rs]) *)

Record AgentCandidate := {
  cd_uri : string; cd_agent_card : Value; cd_skills : list string; cd_latency_class : option string;
  cd_cost_class : option string; cd_trust_domain : option string; cd_reasoning_modes : list string;
}.
Record FilteredAgent := { fa_uri : string; fa_reason : string }.
Record DiscoverResponse := { candidates : list AgentCandidate; filtered_out : list FilteredAgent }.
Record ScoringEntry := { se_uri : string; se_scores : Value; se_composite : f64 }.
Record ScoreResponse := { rankings : list ScoringEntry; spread : f64 }.
Record DecideResponse := {
  selected_uri : option string; dr_method : string; dr_reasoning : option string;
  dr_confidence : f64; dr_rejected : list Value; dr_tiebreaker_tokens : option Value;
  dr_tiebreaker_cost : option f64;
}.

Record DiscoverRequest := {
  dq_task : string; dq_required_skills : list string; dq_preferred_skills : list string;
  dq_trust_domain : option string; dq_strategy_name : string; dq_context : Value;
}.
Record ScoreRequest := {
  sq_task : string; sq_candidates : list AgentCandidate; sq_weights : Value; sq_context : Value;
}.
Record DecideRequest := {
  eq_task : string; eq_top_candidates : list ScoringEntry; eq_threshold : f64;
  eq_tiebreaker_model : string; eq_context : Value;
}.

Definition strs (l : list string) : Value := Array (Str <$> l).

(** The derived serializers. *)
Definition candidate_value (c : AgentCandidate) : Value :=
  obj [("uri", Str (cd_uri c)); ("agent_card", cd_agent_card c); ("skills", strs (cd_skills c));
       ("latency_class", opt_val Str (cd_latency_class c));
       ("cost_class", opt_val Str (cd_cost_class c));
       ("trust_domain", opt_val Str (cd_trust_domain c));
       ("reasoning_modes", strs (cd_reasoning_modes c))].
Definition filtered_value (f : FilteredAgent) : Value :=
  obj [("uri", Str (fa_uri f)); ("reason", Str (fa_reason f))].
Definition entry_value (e : ScoringEntry) : Value :=
  obj [("uri", Str (se_uri e)); ("scores", se_scores e);
       ("composite", f64_to_value (se_composite e))].
Definition discover_value (r : DiscoverRequest) : Value :=
  obj [("task", Str (dq_task r)); ("required_skills", strs (dq_required_skills r));
       ("preferred_skills", strs (dq_preferred_skills r));
       ("trust_domain", opt_val Str (dq_trust_domain r));
       ("strategy_name", Str (dq_strategy_name r)); ("context", dq_context r)].
Definition score_value (r : ScoreRequest) : Value :=
  obj [("task", Str (sq_task r)); ("candidates", Array (candidate_value <$> sq_candidates r));
       ("weights", sq_weights r); ("context", sq_context r)].
Definition decide_value (r : DecideRequest) : Value :=
  obj [("task", Str (eq_task r)); ("top_candidates", Array (entry_value <$> eq_top_candidates r));
       ("threshold", f64_to_value (eq_threshold r));
       ("tiebreaker_model", Str (eq_tiebreaker_model r)); ("context", eq_context r)].

(** [serde_json::from_value] of the answers and of a list of strings. *)
Class BridgeSerde := {
  discover_of_value : Value → result string DiscoverResponse;
  score_of_value : Value → result string ScoreResponse;
  decide_of_value : Value → result string DecideResponse;
  strings_of_value : Value → option (list string);
}.

Module StrategyBridgeError.
Inductive StrategyBridgeError := Http (e : string) | StrategyError (status : Z) (body : string).
Definition display (e : StrategyBridgeError) : string :=
  match e with
  | Http e => "HTTP error: " +:+ e
  | StrategyError status body => "Strategy returned error status " +:+ pretty status +:+ ": " +:+ body
  end.
End StrategyBridgeError.
Abbreviation StrategyBridgeError := StrategyBridgeError.StrategyBridgeError.

Section Coordinator.
Context `{!BridgeSerde} {S : Type} (client : HttpClient S) (base_url : string).
Import StrategyBridgeError.

Definition bridge_call {A} (endpoint : string) (body : Value) (decode : Value → result string A)
    : eff S StrategyBridgeError A :=
  resp ← with_err Http (hc_post client (base_url +:+ endpoint) body);
  if is_success resp
  then of_result (map_err Http (v ← rs_json resp; decode v))
  else raise (StrategyError (rs_status resp) (match rs_text resp with Ok t => t | Err _ => "" end)).

Definition discover (req : DiscoverRequest) : eff S StrategyBridgeError DiscoverResponse :=
  bridge_call "/coordinator/discover" (discover_value req) discover_of_value.
Definition score (req : ScoreRequest) : eff S StrategyBridgeError ScoreResponse :=
  bridge_call "/coordinator/score" (score_value req) score_of_value.
Definition decide_agent (req : DecideRequest) : eff S StrategyBridgeError DecideResponse :=
  bridge_call "/coordinator/decide" (decide_value req) decide_of_value.

(** ** The executor *)

(** What the payload asks for. *)
Record Ask := {
  ak_task : string; ak_required : list string; ak_preferred : list string;
  ak_trust_domain : option string; ak_strategy : string; ak_output_key : string;
  ak_threshold : f64; ak_model : string; ak_weights : Value; ak_context : Value;
  ak_max_candidates : Z;
}.

(** [0.1]: the nearest double. *)
Definition POINT_ONE : f64 := S754_finite false 7205759403792794 (-56).

Definition skills_key (k : string) (p : Value) : list string :=
  default [] (get k p ≫= strings_of_value).

Definition read_ask (p : Value) : Ask :=
  let tiebreaker := get "tiebreaker" p in
  {| ak_task := default "" (str_key "task" p);
     ak_required := skills_key "required_skills" p;
     ak_preferred := skills_key "preferred_skills" p;
     ak_trust_domain := str_key "trust_domain" p;
     ak_strategy := default "default" (str_key "strategy" p);
     ak_output_key := default "result" (str_key "output_key" p);
     ak_threshold := default POINT_ONE (tiebreaker ≫= f64_key "threshold");
     ak_model := default "claude-sonnet-4-6" (tiebreaker ≫= str_key "model");
     ak_weights := default (obj []) (get "weights" p);
     ak_context := default (obj []) (get "input" p);
     ak_max_candidates := default 3 (tiebreaker ≫= u64_key "max_candidates") |}.

Definition event (type node_id : string) (fields : list (string * Value)) : Value :=
  obj (("type", Str type) :: ("node_id", Str node_id) :: fields).

Definition discovery_event (node_id : string) (a : Ask) (d : DiscoverResponse) : Value :=
  event "coordinator_discovery" node_id
    [("query_skills", strs (ak_required a)); ("query_trust_domain", opt_val Str (ak_trust_domain a));
     ("candidates", Array ((λ c, obj [("uri", Str (cd_uri c)); ("skills", strs (cd_skills c))])
       <$> candidates d));
     ("filtered_out", Array (filtered_value <$> filtered_out d))].

Definition scoring_event (node_id : string) (ranked : list Value) (spread : f64) (weights : Value)
    : Value :=
  event "coordinator_scoring" node_id
    [("rankings", Array ranked); ("spread", f64_to_value spread); ("weights", weights)].

Definition decision_event (node_id : string) (selected : option string) (how : string)
    (confidence : f64) (rejected : list Value) (more : list (string * Value)) : Value :=
  event "coordinator_decision" node_id
    ([("selected", opt_val Str selected); ("method", Str how);
      ("confidence", f64_to_value confidence); ("rejected", Array rejected)] ++ more).

Definition coordinator_result (output : Value) (events : list Value) (duration_ms : Z)
    (model : option string) : ExecutionResult := {|
  er_output := output; er_state_patch := obj [("coordinator_events", Array events)];
  er_duration_ms := duration_ms; er_gen_ai_system := None; er_gen_ai_model := model;
  er_input_tokens := None; er_output_tokens := None; er_finish_reason := None |}.

(** The last phase: the decision's event, the agent it selects and the model used. *)
Definition run_decision (node_id : string) (a : Ask) (s : ScoreResponse) (top : ScoringEntry)
    (others : list ScoringEntry) : eff S ExecutorError (Value * option string) :=
  if f64_lt (ak_threshold a) (spread s) then
    mret (decision_event node_id (Some (se_uri top)) "structured" (se_composite top)
      ((λ r, obj [("uri", Str (se_uri r)); ("reason", Str "lower score")]) <$> others) [], None)
  else
    let top_n := take (Z.to_nat (ak_max_candidates a)) (top :: others) in
    r ← as_result (decide_agent {| eq_task := ak_task a; eq_top_candidates := top_n;
      eq_threshold := ak_threshold a; eq_tiebreaker_model := ak_model a;
      eq_context := ak_context a |});
    mret match r with
    | Ok r =>
        (decision_event node_id (selected_uri r) (dr_method r) (dr_confidence r) (dr_rejected r)
           [("reasoning", opt_val Str (dr_reasoning r));
            ("tiebreaker_tokens", default Null (dr_tiebreaker_tokens r));
            ("tiebreaker_cost", opt_val f64_to_value (dr_tiebreaker_cost r))],
         if decide (dr_method r = "llm_tiebreaker") then Some (ak_model a) else None)
    | Err e =>
        let why := [("reasoning", Str ("Tiebreaker error: " +:+ display e))] in
        (match top_n with
         | first :: _ => decision_event node_id (Some (se_uri first)) "tiebreaker_failed"
             (se_composite first) [] why
         | [] => decision_event node_id None "tiebreaker_failed" f64_zero [] why
         end, None)
    end.

Definition selected_output (key : string) (selected : option string) : Value :=
  match selected with Some uri => obj [(key, Str uri)] | None => Null end.

(** [CoordinatorExecutor::execute]. *)
Definition coordinator_execute (item : WorkItem) : eff S ExecutorError ExecutionResult :=
  start ← utc_now;
  let a := read_ask (payload item) in
  let node_id := wi_node_id item in
  d ← with_err (λ e, ExecutorError.Fatal ("Discovery failed: " +:+ display e))
    (discover {| dq_task := ak_task a; dq_required_skills := ak_required a;
      dq_preferred_skills := ak_preferred a; dq_trust_domain := ak_trust_domain a;
      dq_strategy_name := ak_strategy a; dq_context := ak_context a |});
  let discovery := discovery_event node_id a d in
  let none := decision_event node_id None "no_candidates" f64_zero [] [] in
  match candidates d with
  | [] =>
      now ← utc_now;
      mret (coordinator_result Null [discovery; none] (elapsed_ms start now) None)
  | [only] =>
      now ← utc_now;
      let one := f64_of_Z 1 in
      mret (coordinator_result (obj [(ak_output_key a, Str (cd_uri only))])
        [discovery;
         scoring_event node_id [obj [("uri", Str (cd_uri only)); ("composite", f64_to_value one)]]
           one (ak_weights a);
         decision_event node_id (Some (cd_uri only)) "single_candidate" one [] []]
        (elapsed_ms start now) None)
  | cs =>
      s ← with_err (λ e, ExecutorError.Fatal ("Scoring failed: " +:+ display e))
        (score {| sq_task := ak_task a; sq_candidates := cs; sq_weights := ak_weights a;
          sq_context := ak_context a |});
      match rankings s with
      | [] =>
          now ← utc_now;
          mret (coordinator_result Null
            [scoring_event node_id [] (spread s) (ak_weights a); none] (elapsed_ms start now) None)
      | top :: others =>
          let scoring := scoring_event node_id (entry_value <$> top :: others) (spread s)
            (ak_weights a) in
          r ← run_decision node_id a s top others;
          let '(decision, model) := (r : Value * option string) in
          now ← utc_now;
          mret (coordinator_result
            (selected_output (ak_output_key a) (str_key "selected" decision))
            [discovery; scoring; decision] (elapsed_ms start now) model)
      end
  end.
End Coordinator.

(** ** Which agent is picked *)

Section Choice.
Context `{!BridgeSerde} {S : Type} (client : HttpClient S) (base_url : string).

(** From the rankings: the first of them when it leads by more than the threshold;
    else whom the tiebreaker picks among the first few, and when it fails the first. *)
Inductive chosen_from (a : Ask) (s : ScoreResponse) : option string → string → Prop :=
| from_lead top others :
    rankings s = top :: others → f64_lt (ak_threshold a) (spread s) = true →
    chosen_from a s (Some (se_uri top)) "structured"
| from_tiebreaker r w :
    f64_lt (ak_threshold a) (spread s) = false →
    (decide_agent client base_url {| eq_task := ak_task a;
      eq_top_candidates := take (Z.to_nat (ak_max_candidates a)) (rankings s);
      eq_threshold := ak_threshold a; eq_tiebreaker_model := ak_model a;
      eq_context := ak_context a |} w).1 = Ok r →
    chosen_from a s (selected_uri r) (dr_method r)
| from_failed :
    f64_lt (ak_threshold a) (spread s) = false →
    chosen_from a s (se_uri <$> head (take (Z.to_nat (ak_max_candidates a)) (rankings s)))
      "tiebreaker_failed".

(** The choice a coordinator may come to, and how. Its service answered [d] to the
    discovery. *)
Inductive chosen (a : Ask) (d : DiscoverResponse) : option string → string → Prop :=
| chosen_nobody : candidates d = [] → chosen a d None "no_candidates"
| chosen_only c : candidates d = [c] → chosen a d (Some (cd_uri c)) "single_candidate"
| chosen_unranked s w :
    (2 ≤ length (candidates d))%nat →
    (score client base_url {| sq_task := ak_task a; sq_candidates := candidates d;
      sq_weights := ak_weights a; sq_context := ak_context a |} w).1 = Ok s →
    rankings s = [] → chosen a d None "no_candidates"
| chosen_ranked s w selected how :
    (2 ≤ length (candidates d))%nat →
    (score client base_url {| sq_task := ak_task a; sq_candidates := candidates d;
      sq_weights := ak_weights a; sq_context := ak_context a |} w).1 = Ok s →
    chosen_from a s selected how → chosen a d selected how.

Definition decides (v : Value) (selected : option string) (how : string) : Prop :=
  str_key "type" v = Some "coordinator_decision" ∧ str_key "selected" v = selected
  ∧ str_key "method" v = Some how.

Lemma decision_decides node_id selected how confidence rejected more :
  (∀ k v, (k, v) ∈ more → k ≠ "type" ∧ k ≠ "selected" ∧ k ≠ "method") →
  decides (decision_event node_id selected how confidence rejected more) selected how.
Proof.
  intros Hmore. unfold decision_event, event, decides, str_key, obj, get.
  set (base := [("selected", _); _; _; _]).
  assert (∀ k l m, (∀ v, (k, v) ∉ l) →
    map_get k (foldl (λ m kv, map_insert kv.1 kv.2 m) m l) = map_get k m) as Hskip.
  { intros k l. induction l as [|[k' v'] l IH]; intros m Hk; [done|]. cbn. rewrite IH.
    - apply map_get_insert_ne. intros ->. by destruct (Hk v'); left.
    - intros v Hv. by destruct (Hk v); right. }
  unfold map_of. rewrite app_comm_cons, app_comm_cons, foldl_app. split_and!;
    (rewrite Hskip; [|intros v Hv; by destruct (Hmore _ _ Hv) as (? & ? & ?)]);
    [done| |done]. by destruct selected.
Qed.

Lemma run_decision_chosen node_id a s top others w decision model w' :
  rankings s = top :: others →
  run_decision client base_url node_id a s top others w = (Ok (decision, model), w') →
  ∃ selected how, chosen_from a s selected how ∧ decides decision selected how.
Proof.
  intros Hr. unfold run_decision. destruct (f64_lt _ _) eqn:Hlead.
  { intros [= <- _ _]. eexists _, _. split; [by eapply from_lead|]. apply decision_decides. set_solver. }
  unfold mbind, eff_bind, as_result. rewrite <- Hr.
  destruct (decide_agent _ _ _ w) as [[r|e] w1] eqn:Hd; intros [= <- _ _].
  - eexists _, _. split; [eapply from_tiebreaker; [done|by rewrite Hd]|]. apply decision_decides.
    set_solver.
  - eexists _, _. split; [by apply from_failed|].
    destruct (take _ _) as [|first ?]; cbn; apply decision_decides; set_solver.
Qed.

(** Whom a coordinator picks. If it answers, its service answered the discovery and
    the agent it reports is one of the choices above: none, the only candidate, the
    leader, or the tiebreaker's; the last event says which, and the output names
    the agent, or is null when there is none. *)
Theorem coordinator_choice (item : WorkItem) (w w' : world S) (res : ExecutionResult) :
  let a := read_ask (payload item) in
  coordinator_execute client base_url item w = (Ok res, w') →
  ∃ d selected how events decision,
    (discover client base_url {| dq_task := ak_task a; dq_required_skills := ak_required a;
      dq_preferred_skills := ak_preferred a; dq_trust_domain := ak_trust_domain a;
      dq_strategy_name := ak_strategy a; dq_context := ak_context a |} w).1 = Ok d
    ∧ chosen a d selected how
    ∧ er_output res = selected_output (ak_output_key a) selected
    ∧ get "coordinator_events" (er_state_patch res) = Some (Array (events ++ [decision]))
    ∧ decides decision selected how.
Proof.
  cbn zeta. unfold coordinator_execute. rewrite bind_now. set (a := read_ask _). cbn zeta.
  destruct (discover _ _ _ w) as [r w1] eqn:Hd. rewrite (with_err_run _ _ _ _ _ _ Hd).
  destruct r as [d|e]; [|done].
  set (nobody := decision_event _ None "no_candidates" _ _ _).
  assert (decides nobody None "no_candidates") as Hno by (apply decision_decides; set_solver).
  destruct (candidates d) as [|c1 [|c2 cs]] eqn:Hc.
  - rewrite bind_now. intros [= <- _]. eexists d, None, _, [_], _. split_and!; try done.
    by apply chosen_nobody.
  - rewrite bind_now. intros [= <- _]. eexists d, (Some (cd_uri c1)), _, [_; _], _.
    split_and!; [done|by apply chosen_only|done|done|]. apply decision_decides. set_solver.
  - rewrite <- Hc. set (ask := Build_ScoreRequest _ _ _ _).
    destruct (score client base_url ask w1) as [r w2] eqn:Hs.
    rewrite (with_err_run _ _ _ _ _ _ Hs). destruct r as [s|e]; [|done].
    assert (2 ≤ length (candidates d))%nat as Hlen by (rewrite Hc; cbn; lia).
    destruct (rankings s) as [|top others] eqn:Hr.
    + rewrite bind_now. intros [= <- _]. eexists d, None, _, [_], _. split_and!; try done.
      eapply chosen_unranked; [done|exact (f_equal fst Hs)|done].
    + unfold mbind at 1, eff_bind at 1.
      destruct (run_decision client base_url (wi_node_id item) a s top others w2) as [[[decision model]|e] w3] eqn:Hrun; [|done].
      rewrite bind_now. intros [= <- _].
      destruct (run_decision_chosen _ _ _ _ _ _ _ _ _ Hr Hrun) as (selected & how & Hch & Hdec).
      eexists d, selected, how, [_; _], decision. split_and!; [done| | |done|done].
      * eapply chosen_ranked; [done|exact (f_equal fst Hs)|done].
      * cbn. destruct Hdec as (_ & -> & _). done.
Qed.
End Choice.

(** Weights that are all zero give a score of zero, whatever the scores. *)
Example zero_weights s :
  composite s {| w_capability_fit := f64_zero; w_cost_fit := f64_zero; w_latency_fit := f64_zero;
    w_trust_compatibility := f64_zero; w_historical_performance := f64_zero |} = f64_zero.
Proof. reflexivity. Qed.

(** With equal weights a candidate that scores the same everywhere has that score. *)
Example equal_scores :
  composite {| capability_fit := POINT_ONE; cost_fit := POINT_ONE; latency_fit := POINT_ONE;
    trust_compatibility := POINT_ONE; historical_performance := POINT_ONE |} DimensionWeights_default
  = POINT_ONE.
Proof. vm_compute. reflexivity. Qed.
