(* ===== verification/ApiAuth.v ===== *)
(** * Who may call the API ([api/src/auth.rs], [api/src/error.rs], and the router
    and the tenant handlers of [api/src/routes.rs])

    Tokens and roles, the layers every protected request passes, the errors a
    handler answers with, and tenant administration. *)

From S2P Require Import Prelude.
From S2P Require Import Json.
From S2P Require Import RustStr.
From S2P Require Import Core.
From S2P Require Import Condition.
From S2P Require Import Event.
From S2P Require Import Materializer.
From S2P Require Import Hashing.
From S2P Require Import Approvals.
From S2P Require Import Backend.

(** ** Errors *)

Module ApiError.
Inductive ApiError :=
| NotFound (msg : string)
| BadRequest (msg : string)
| Conflict (msg : string)
| Internal (msg : string)
| Unauthorized
| Forbidden (msg : string).

Definition of_backend (e : StateBackendError) : ApiError :=
  match e with
  | Backend.NotFound msg => NotFound msg
  | VersionConflict _ => Conflict (StateBackendError_display e)
  | other => Internal (StateBackendError_display other)
  end.

Definition into_response (self : ApiError) : Z * Value :=
  let '(status, message) := match self with
    | NotFound msg => (404, msg)
    | BadRequest msg => (400, msg)
    | Conflict msg => (409, msg)
    | Unauthorized => (401, "Unauthorized")
    | Forbidden msg => (403, msg)
    | Internal msg => (500, msg)
    end in
  (status, obj [("error", Str message)]).
End ApiError.
Abbreviation ApiError := ApiError.ApiError.

(** ** Roles *)

Module Role.
Inductive Role := Viewer | Reviewer | Developer | Operator.

(** The derived order. *)
Definition rank (r : Role) : Z :=
  match r with Viewer => 0 | Reviewer => 1 | Developer => 2 | Operator => 3 end.

Definition parse_role (s : string) : Role :=
  if decide (s = "operator") then Operator
  else if decide (s = "developer") then Developer
  else if decide (s = "reviewer") then Reviewer
  else Viewer.

Definition can_write (r : Role) : bool :=
  match r with Operator | Developer => true | _ => false end.
Definition can_approve (r : Role) : bool := bool_decide (rank Reviewer ≤ rank r).
Definition can_admin (r : Role) : bool := match r with Operator => true | _ => false end.
End Role.

(** ** The layers *)

(** A request as the layers see it: its method's name, the template of the
    route it matched, and its [Authorization] header. *)
Record HttpRequest := {
  rq_method : string;
  rq_route : option string;
  rq_authorization : option string;
}.

(** What the layers leave in the request's extensions. *)
Record Caller := {
  cl_tenant : TenantId;
  cl_token : option ApiToken;
  cl_dev : bool;
}.

(** A refusal: a status code and a body. *)
Abbreviation Refusal := (Z * Value)%type (only parsing).

Definition error_body (msg : string) : Value := obj [("error", Str msg)].

Definition APPROVE_ROUTE : string := "/executions/:id/approve".

Definition SINGLE_TENANT_REFUSAL : string :=
  "multi-tenant tokens are not supported by this runtime yet; the engine runs every workflow in tenant default".

Definition principal_of (token : ApiToken) : string := "token:" +:+ tok_id token.

Definition with_tenant (t : ApiToken) (tenant : string) : ApiToken := {|
  tok_id := tok_id t; tok_name := tok_name t; tok_role := tok_role t;
  tok_created_at := tok_created_at t; tok_expires_at := tok_expires_at t;
  tok_tenant_id := tenant |}.

Definition admit_token (token : ApiToken) (as_default : bool) : result string ApiToken :=
  if decide (tok_tenant_id token = DEFAULT_TENANT) then Ok token
  else if as_default then Ok (with_tenant token DEFAULT_TENANT)
  else Err SINGLE_TENANT_REFUSAL.

(** [extract_bearer], given the header as a string. *)
Definition extract_bearer (authorization : option string) : option string :=
  value ← authorization; strip_prefix "Bearer " value.

Definition is_mutating (method : string) : bool :=
  bool_decide (method ∈ ["POST"; "PUT"; "PATCH"; "DELETE"]).

Definition require_write_role (rq : HttpRequest) (token : option ApiToken)
    : result Refusal unit :=
  if is_mutating (rq_method rq) then
    let role := match token with
      | Some t => Role.parse_role (tok_role t) | None => Role.Viewer end in
    let is_approve := bool_decide (rq_method rq = "POST")
      && bool_decide (rq_route rq = Some APPROVE_ROUTE) in
    if is_approve then
      if Role.can_approve role then Ok tt
      else Err (403, obj
        [("error", Str "insufficient role — reviewer, developer or operator required");
         ("required", Str "reviewer")])
    else if Role.can_write role then Ok tt
    else Err (403, obj
      [("error", Str "insufficient role — developer or operator required");
       ("required", Str "developer")])
  else Ok tt.

Definition require_operator_role (token : ApiToken) : result Refusal unit :=
  if Role.can_admin (Role.parse_role (tok_role token)) then Ok tt
  else Err (403, obj [("error", Str "insufficient role — operator required");
                      ("required", Str "operator")]).

(** The routes behind [require_operator_role] outside dev mode. *)
Definition operator_routes : list string := ["/work-items"; "/tenants"; "/tenants/:id"].

Section Layers.
Context {S : Type} `{HB : StateBackend S}.

Definition require_auth (authorization : option string) (as_default : bool)
    : eff S Refusal (TenantId * ApiToken) :=
  match extract_bearer authorization with
  | None => raise (401, error_body "missing Authorization: Bearer <token>")
  | Some token =>
      found ← with_err (λ e, (500, error_body ("auth error: " +:+ StateBackendError_display e)))
        (validate_token token);
      match found with
      | Some info =>
          info ← of_result (map_err (λ r, (403, error_body r)) (admit_token info as_default));
          mret (mkTenantId (tok_tenant_id info), info)
      | None => raise (401, error_body "invalid or expired token")
      end
  end.

(** The protected router's layers, outermost first ([build_router_with_opts],
    [operator_only], [inject_dev_tenant]). *)
Definition authorize (dev_mode as_default : bool) (rq : HttpRequest) : eff S Refusal Caller :=
  if dev_mode
  then mret {| cl_tenant := mkTenantId "default"; cl_token := None; cl_dev := true |}
  else
    admitted ← require_auth (rq_authorization rq) as_default;
    let token := admitted.2 in
    of_result (require_write_role rq (Some token)) ≫= λ _,
    of_result match rq_route rq with
      | Some r => if decide (r ∈ operator_routes) then require_operator_role token else Ok tt
      | None => Ok tt
      end ≫= λ _,
    mret {| cl_tenant := admitted.1; cl_token := Some token; cl_dev := false |}.
End Layers.
