(* ===== verification/ApiRoutes.v ===== *)
(** * The API's handlers ([api/src/routes.rs])

    Workflows, runs, events, artifacts, tenants and approvals: each handler
    with its checks and writes. [backend_for] is a parameter: a handler runs
    over the backend it returned for the caller's tenant. *)

From S2P Require Import Prelude.
From S2P Require Import Json.
From S2P Require Import RustStr.
From S2P Require Import Core.
From S2P Require Import Condition.
From S2P Require Import Ir.
From S2P Require Import Event.
From S2P Require Import Materializer.
From S2P Require Import Budget.
From S2P Require Import Hashing.
From S2P Require Import Approvals.
From S2P Require Import Backend.
From S2P Require Import Journal.
From S2P Require Import Memory.
From S2P Require Import Progress.
From S2P Require Import Scheduler.
From S2P Require Import Policy.
From S2P Require Import Agents.
From S2P Require Import ToolDispatch.
From S2P Require Import DispatchGuard.
From S2P Require Import Redaction.
From S2P Require Import AuditLog.
From S2P Require Import ApprovalApi.
From S2P Require Import ApiAuth.

(** Deserializers of stored data and the [uuid] crate's parser. *)
Class ApiSerde := {
  ir_from_value : Value → result string WorkflowIr;
  limits_from_value : Value → result string TenantLimits;
  tenant_to_value : Tenant → Value;
  execution_to_value : WorkflowExecution → result string Value;
  event_to_value : Event → Value;
  uuid_parse : string → option Uuid;
}.

Section Parsers.
Context `{!ApiSerde}.

Definition parse_execution_id (s : string) : result ApiError ExecutionId :=
  let hex := match strip_prefix "exec_" s with Some h => h | None => s end in
  match uuid_parse hex with
  | Some uuid => Ok (mkExecutionId uuid)
  | None => Err (ApiError.BadRequest ("invalid execution id: " +:+ s))
  end.
End Parsers.

(** [Display for IrError]. *)
Definition IrError_display `{!GuardSerde} (e : IrError) : string :=
  match e with
  | UnknownToolRef n t => "node '" +:+ n +:+ "' references unknown tool '" +:+ t +:+ "'"
  | UnknownModelRef n m => "node '" +:+ n +:+ "' references unknown model '" +:+ m +:+ "'"
  | UnknownAgentRef n a => "node '" +:+ n +:+ "' references unknown agent '" +:+ a +:+ "'"
  | UnknownMcpServer n s => "node '" +:+ n +:+ "' references unknown MCP server '" +:+ s +:+ "'"
  | UnknownRemoteAgent n a =>
      "node '" +:+ n +:+ "' references unknown remote agent '" +:+ a +:+ "'"
  | UnknownEdgeTarget f t =>
      "edge from '" +:+ f +:+ "' to '" +:+ t +:+ "': target node does not exist"
  | InvalidConditionExpression n e r => "condition node '" +:+ n +:+ "' branch expression `"
      +:+ e +:+ "` is invalid: " +:+ r
  | InvalidQueueName n q r =>
      "external_fn node '" +:+ n +:+ "' queue `" +:+ q +:+ "` is invalid: " +:+ r
  | UnknownBranchTarget n t =>
      "condition node '" +:+ n +:+ "' branch targets unknown node '" +:+ t +:+ "'"
  | BranchTargetMissingOutEdge n t =>
      "condition node '" +:+ n +:+ "' branch target '" +:+ t +:+ "' has no matching out-edge"
  | UnmarkedAgentToolDispatch n => "node '" +:+ n
      +:+ "' dispatches ADK agent tool calls but is not marked agent_tool_dispatch, so tool policy would not be enforced for it"
  | InvalidApprovalDeadline s r => s +:+ " policy has an invalid approval deadline: " +:+ r
  | RetiredApprovalTimeout => "timeouts.approval_timeout is retired and was never enforced; set approval_timeout_secs (and optionally escalate_after_secs) in the tenant, workflow or node policy instead"
  | InvalidNodeId i => "node id " +:+ str_debug i
      +:+ " is not allowed: a node id is 1 to 128 ASCII letters, digits, '_', '.' or '-'"
  | NodeIdMismatch k i => "node key '" +:+ k +:+ "' does not match its id '" +:+ i
      +:+ "'; a node's id must equal its key in `nodes`"
  | MisplacedAgentToolDispatch n w => "node '" +:+ n
      +:+ "' sets agent_tool_dispatch but is not the ADK tool dispatcher (" +:+ w
      +:+ "); the flag is reserved for jamjet.agents.tool_runtime:dispatch_tool_calls"
  | UnreachableNode n => "node '" +:+ n +:+ "' is unreachable from the start node"
  | NoStartNode => "workflow has no start node defined"
  | NoTerminalPath n => "workflow has no terminal (end) path from node '" +:+ n +:+ "'"
  | MismatchedParallelJoin p j =>
      "parallel node '" +:+ p +:+ "' and its join node '" +:+ j +:+ "' are mismatched"
  | SchemaIncompatibility f fs t ts => "schema incompatibility: node '" +:+ f
      +:+ "' output schema '" +:+ fs +:+ "' is incompatible with node '" +:+ t
      +:+ "' input schema '" +:+ ts +:+ "'"
  | InvalidVersion v => "workflow version '" +:+ v +:+ "' is not valid semver"
  | DuplicateNodeId i => "duplicate node id: '" +:+ i +:+ "'"
  end.

(** The rules a definition is registered under, in the code's order. *)
Definition registration_rules `{!JsonText, !IterOrder string} (parsed : WorkflowIr) : IrResult :=
  validate_agent_tool_dispatch parsed ≫= λ _,
  validate_condition_expressions parsed ≫= λ _,
  validate_external_queues parsed ≫= λ _,
  validate_node_ids parsed ≫= λ _,
  validate_approval_deadlines parsed.

(** ** Handlers over the caller's backend *)

Section Handlers.
Context `{!UuidOps, !ChronoOps, !JsonText, !Sha256Ops, !IterOrder string, !GuardSerde, !ApiSerde}
  {S : Type} `{HB : StateBackend S}.

(** A handler answers a status and a body, or an error. *)
Abbreviation Ans A := (eff S ApiError A).

(** [?] on a backend call. *)
Definition api {A} (m : bk S A) : Ans A := with_err ApiError.of_backend m.

Definition str_field (key : string) (v : Value) : option string := x ← get key v; as_str x.

Definition create_workflow (tenant_id : TenantId) (ir : Value) : Ans (Z * Value) :=
  workflow_id ← of_result (ok_or (ApiError.BadRequest "ir.workflow_id is required")
    (str_field "workflow_id" ir));
  version ← of_result (ok_or (ApiError.BadRequest "ir.version is required")
    (str_field "version" ir));
  parsed ← of_result (map_err (λ e, ApiError.BadRequest ("invalid workflow IR: " +:+ e))
    (ir_from_value ir));
  let invalid e := ApiError.BadRequest ("invalid workflow IR: " +:+ IrError_display e) in
  _ ← of_result (map_err invalid (registration_rules parsed));
  let answer := obj [("workflow_id", Str workflow_id); ("version", Str version)] in
  existing ← api (get_workflow workflow_id version);
  match existing with
  | Some existing =>
      if negb (same_definition (wd_ir existing) ir)
      then raise (ApiError.Conflict ("workflow " +:+ workflow_id +:+ " v" +:+ version
        +:+ " is already registered with a different definition; versions are immutable, register a new version"))
      else mret (200, answer)
  | None =>
      _ ← of_result (map_err invalid (refuse_retired_timeouts ir));
      now ← utc_now;
      api (store_workflow {| wd_workflow_id := workflow_id; wd_version := version; wd_ir := ir;
        wd_created_at := now; wd_tenant_id := tenant_str tenant_id |}) ≫= λ _,
      mret (201, answer)
  end.

(** The queue of a start node: its kind's queue, serialized. *)
Definition start_queue (start_def : NodeDef) : string := queue_name start_def.

Definition start_run (tenant_id : TenantId) (workflow_id : string)
    (workflow_version : option string) (input : Value) (initiated_by : option string)
    : Ans (Z * Value) :=
  let input := action_state input in
  let version := default "1.0.0" workflow_version in
  found ← api (get_workflow workflow_id version);
  def ← of_result (ok_or (ApiError.NotFound ("workflow " +:+ workflow_id +:+ " v" +:+ version)) found);
  let start_node := default "start" (str_field "start_node" (wd_ir def)) in
  now ← utc_now;
  uuid ← new_v4;
  let eid := mkExecutionId uuid in
  let execution := {|
    execution_id := eid; workflow_id := workflow_id; workflow_version := version;
    status := WorkflowStatus.Running; initial_input := input; current_state := input;
    started_at := now; updated_at := now; completed_at := None; session_type := None;
    parent_execution_id := None; segment_number := 0 |} in
  let started := EventKind.WorkflowStarted workflow_id version input initiated_by in
  ir ← of_result (map_err (λ e, ApiError.Internal ("stored IR for workflow " +:+ workflow_id
    +:+ " v" +:+ version +:+ " is not loadable: " +:+ e)) (ir_from_value (wd_ir def)));
  start_def ← of_result (ok_or (ApiError.BadRequest ("workflow " +:+ workflow_id +:+ " v" +:+ version
    +:+ " names start node '" +:+ start_node +:+ "' which does not exist")) (node ir start_node));
  let queue_type := start_queue start_def in
  let initial_state := default [] (as_object input) in
  let payload := build_work_item_payload ir start_node start_def initial_state workflow_id version in
  let max_attempts := max_attempts_for (retry_policy start_def) in
  let scheduled := EventKind.NodeScheduled start_node queue_type in
  item_id ← new_v4;
  let work_item := {|
    wi_id := item_id; wi_execution_id := eid; wi_node_id := start_node; queue_type := queue_type;
    payload := payload; attempt := 0; max_attempts := max_attempts; wi_created_at := now;
    lease_expires_at := None; worker_id := None; lease_fence := 0;
    wi_tenant_id := tenant_str tenant_id |} in
  api (start_execution_atomic execution started scheduled work_item) ≫= λ _,
  mret (201, obj [("execution_id", Str (ExecutionId_display eid))]).

Definition start_execution (caller : Caller) (workflow_id : string)
    (workflow_version : option string) (input : Value) : Ans (Z * Value) :=
  start_run (cl_tenant caller) workflow_id workflow_version input
    (principal_of <$> cl_token caller).

Definition status_param (s : option string) : option WorkflowStatus :=
  s ← s;
  if decide (s = "running") then Some WorkflowStatus.Running
  else if decide (s = "paused") then Some WorkflowStatus.Paused
  else if decide (s = "completed") then Some WorkflowStatus.Completed
  else if decide (s = "failed") then Some WorkflowStatus.Failed
  else None.

(** The executions, which the answer lists as JSON. *)
Definition list_executions_handler (status : option string) (limit offset : option Z)
    : Ans (list WorkflowExecution) :=
  api (list_executions (status_param status) (default 50 limit) (default 0 offset)).

Definition get_execution_handler (id : string) : Ans Value :=
  execution_id ← of_result (parse_execution_id id);
  found ← api (get_execution execution_id);
  execution ← of_result (ok_or (ApiError.NotFound ("execution " +:+ id)) found);
  of_result (map_err (λ e, ApiError.Internal ("serialize execution: " +:+ e))
    (execution_to_value execution)).

Definition already_terminal (id : string) (st : WorkflowStatus) : ApiError :=
  ApiError.BadRequest ("execution " +:+ id +:+ " is already in terminal state: "
    +:+ status_debug st).

Definition cancel_execution (id : string) : Ans Value :=
  execution_id ← of_result (parse_execution_id id);
  found ← api (get_execution execution_id);
  execution ← of_result (ok_or (ApiError.NotFound ("execution " +:+ id)) found);
  if WorkflowStatus.is_terminal (status execution)
  then raise (already_terminal id (status execution))
  else
    event ← Event_new execution_id 0 (EventKind.WorkflowCancelled (Some "user request"));
    finished ← api (finish_execution event WorkflowStatus.Cancelled);
    match finished with
    | Finished _ => mret (obj [("execution_id", Str id); ("status", Str "cancelled")])
    | AlreadyTerminal st => raise (already_terminal id st)
    end.

Definition send_external_event (id correlation_key : string) (payload : Value) : Ans Value :=
  execution_id ← of_result (parse_execution_id id);
  latest ← api (latest_sequence execution_id);
  event ← Event_new execution_id (latest + 1)
    (EventKind.ExternalEventReceived correlation_key payload);
  api (append_event event) ≫= λ _,
  mret (obj [("execution_id", Str id); ("accepted", Bool true)]).

(** [POST /work-items], operator-only outside dev mode. *)
Definition enqueue_work_item_handler (tenant_id : TenantId) (id node_id : string)
    (queue_name : option string) (payload : Value) : Ans (Z * Value) :=
  execution_id ← of_result (parse_execution_id id);
  let queue_type := default "general" queue_name in
  latest ← api (latest_sequence execution_id);
  event ← Event_new execution_id (latest + 1) (EventKind.NodeScheduled node_id queue_type);
  api (append_event event) ≫= λ _,
  item_id ← new_v4; now ← utc_now;
  item_id ← api (enqueue_work_item {|
    wi_id := item_id; wi_execution_id := execution_id; wi_node_id := node_id;
    queue_type := queue_type; payload := payload; attempt := 0; max_attempts := 3;
    wi_created_at := now; lease_expires_at := None; worker_id := None; lease_fence := 0;
    wi_tenant_id := tenant_str tenant_id |});
  mret (201, obj [("work_item_id", Str (uuid_hyphenated item_id))]).

(** [POST /artifacts], after the route's body limit. *)
Definition put_artifact_handler (media_type content_type : option string) (body : list N) : Ans Value :=
  let media_type := match media_type with Some m => Some m | None => content_type end in
  r ← api (put_artifact body media_type);
  mret (obj [("hash", Str (ar_hash r)); ("size", num (ar_size r));
             ("media_type", opt_val Str (ar_media_type r))]).

Definition get_artifact_handler (hash : string) : Ans (list N) :=
  found ← api (get_artifact hash);
  of_result (ok_or (ApiError.NotFound ("artifact " +:+ hash)) found).

(** ** Approvals *)

Record ApproveRequest := {
  body_decision : string;
  body_node_id : option string;
  body_user_id : option string;
  body_comment : option string;
  body_state_patch : option Value;
  body_action_digest : option string;
}.

(** A refused submission's status. *)
Definition approve_error (e : SubmitError) : ApiError :=
  match e with
  | SubmitError.SelfApproval | SubmitError.InitiatorUnknown | SubmitError.PrincipalMissing =>
      ApiError.Forbidden (SubmitError_display e)
  | SubmitError.MultiplePending _ => ApiError.BadRequest (SubmitError_display e)
  | SubmitError.NoPending | SubmitError.NodeNotPending _ | SubmitError.ExecutionTerminal _
  | SubmitError.Expired _ | SubmitError.Superseded _ | SubmitError.UnreadableLog
  | SubmitError.StaleDigest => ApiError.Conflict (SubmitError_display e)
  | SubmitError.EditsUnsupported | SubmitError.DigestRequired =>
      ApiError.BadRequest (SubmitError_display e)
  | SubmitError.Backend msg => ApiError.Internal msg
  end.

Definition parse_decision (s : string) : result ApiError ApprovalDecision :=
  if decide (s = "approved") then Ok Approved
  else if decide (s = "rejected") then Ok Rejected
  else Err (ApiError.BadRequest ("unknown decision: " +:+ s)).

(** Who decides: the recorded name and principal. *)
Definition approver_identity (caller : Caller) (user_id : option string)
    : result ApiError (string * option string) :=
  match cl_token caller with
  | Some t => Ok (tok_name t, Some (principal_of t))
  | None => if cl_dev caller then Ok (default "anonymous" user_id, None)
            else Err ApiError.Unauthorized
  end.

(** [POST /executions/:id/approve]. The audit log is another store: what
    sealing the decision there answers is a parameter. *)
Definition approve_execution (seal : Event → RequestContext → result string unit)
    (policy : ApprovalPolicy) (caller : Caller) (id : string) (body : ApproveRequest) : Ans Value :=
  execution_id ← of_result (parse_execution_id id);
  decision ← of_result (parse_decision (body_decision body));
  identity ← of_result (approver_identity caller (body_user_id body));
  let '(user_id, principal) := (identity : string * option string) in
  let actor_id := default user_id principal in
  recorded ← with_err approve_error (submit_approval execution_id {|
    sub_node_id := body_node_id body; sub_user_id := user_id; sub_principal := principal;
    sub_decision := decision; sub_comment := body_comment body;
    sub_state_patch := body_state_patch body; sub_action_digest := body_action_digest body;
    sub_dev_mode := cl_dev caller |} policy);
  let '(node_id, event) := (recorded : string * Event) in
  (match seal event {|
     rc_request_id := None; rc_method := Some "POST";
     rc_path := Some ("/executions/" +:+ id +:+ "/approve"); rc_ip := None;
     rc_actor_id := actor_id; rc_actor_type := ActorType.Human;
     rc_tenant_id := tenant_str (cl_tenant caller); rc_data_policy := None |} with
   | Ok _ => mret tt
   | Err e => api (record_seal_gap event e)
   end) ≫= λ _,
  mret (obj [("execution_id", Str id); ("node_id", Str node_id); ("accepted", Bool true)]).

(** One row of the projection, as the listing shows it. *)
Definition projected_pending (row : ApprovalProjectionRow) : Value :=
  let base := [("node_id", Str (ap_node_id row)); ("tool_name", opt_val Str (ap_tool_name row));
    ("approver", opt_val Str (ap_approver row)); ("context", default Null (ap_context row));
    ("sequence", num (ap_last_sequence row))] in
  obj (base ++ omap (λ key, v ← c ← ap_context row; get key c; Some (key, v))
    [EXPIRES_AT_KEY; ESCALATE_AT_KEY]).
Definition projected_decided (row : ApprovalProjectionRow) : option Value :=
  let base := [("node_id", Str (ap_node_id row)); ("status", Str (ap_status row));
    ("user_id", opt_val Str (ap_user_id row))] in
  if decide (ap_status row = "approved") then
    Some (obj (base ++ [("sequence", num (ap_last_sequence row));
      ("approved_digest", default Null (c ← ap_context row; get "approved_digest" c))]))
  else if decide (ap_status row = "rejected") then
    Some (obj (base ++ [("comment", opt_val Str (ap_comment row));
      ("sequence", num (ap_last_sequence row))]))
  else None.

(** [GET /executions/:id/approvals]: the projection if it has rows, else a fold
    of the log. *)
Definition list_approvals_for_execution (id : string) : Ans Value :=
  execution_id ← of_result (parse_execution_id id);
  rows ← api (get_approval_projection execution_id);
  match rows with
  | [] => events ← api (get_events execution_id); mret (approvals_view events)
  | _ => mret (obj
      [("pending", Array (projected_pending <$>
          base.filter (λ r, ap_status r = "pending") rows));
       ("decided", Array (omap projected_decided rows))])
  end.

(** ** Tenants *)

Definition tenant_in_scope (target : string) (caller : Caller) : result ApiError unit :=
  if cl_dev caller then Ok tt
  else match cl_token caller with
  | Some token =>
      if decide (tok_tenant_id token = target) then Ok tt
      else Err (ApiError.Forbidden ("tenant " +:+ target +:+ " is not the tenant of this token"))
  | None => Err (ApiError.Forbidden "tenant administration needs an operator token")
  end.

(** Takes no caller: any operator may create any tenant. *)
Definition create_tenant_handler (id name : string) : Ans (Z * Value) :=
  now ← utc_now;
  api (create_tenant {| tn_id := mkTenantId id; tn_name := name; tn_status := TenantStatus.Active;
    tn_policy := None; tn_limits := None; tn_created_at := now; tn_updated_at := now |}) ≫= λ _,
  mret (201, obj [("tenant_id", Str id)]).

Definition list_tenants_handler (caller : Caller) : Ans Value :=
  tenants ← api list_tenants;
  mret (obj [("tenants", Array (tenant_to_value <$>
    base.filter (λ t, is_ok (tenant_in_scope (tenant_str (tn_id t)) caller) = true) tenants))]).

Definition get_tenant_handler (id : string) (caller : Caller) : Ans Value :=
  of_result (tenant_in_scope id caller) ≫= λ _,
  found ← api (get_tenant (mkTenantId id));
  tenant ← of_result (ok_or (ApiError.NotFound ("tenant " +:+ id)) found);
  mret (tenant_to_value tenant).

Definition update_tenant_handler (id : string) (caller : Caller) (new_name new_status : option string)
    (new_policy new_limits : option Value) : Ans Value :=
  of_result (tenant_in_scope id caller) ≫= λ _,
  found ← api (get_tenant (mkTenantId id));
  existing ← of_result (ok_or (ApiError.NotFound ("tenant " +:+ id)) found);
  limits ← of_result match new_limits with
    | Some v => map_err (λ e, ApiError.BadRequest ("invalid limits: " +:+ e))
                  (Some <$> limits_from_value v)
    | None => Ok None
    end;
  _ ← of_result match new_policy with
    | Some policy => map_err (λ e, ApiError.BadRequest ("invalid policy: " +:+ e
        +:+ ". Send an object with blocked_tools, require_approval_for, model_allowlist and optionally approval_timeout_secs and escalate_after_secs; {} clears the policy, and a null or missing policy keeps the stored one"))
        (parse_tenant_policy policy)
    | None => Ok None
    end;
  now ← utc_now;
  api (update_tenant {|
    tn_id := mkTenantId id; tn_name := default (tn_name existing) new_name;
    tn_status := match new_status with
      | Some s => TenantStatus.parse s | None => tn_status existing end;
    tn_policy := match new_policy with Some p => Some p | None => tn_policy existing end;
    tn_limits := match limits with Some l => Some l | None => tn_limits existing end;
    tn_created_at := tn_created_at existing; tn_updated_at := now |}) ≫= λ _,
  mret (obj [("tenant_id", Str id); ("updated", Bool true)]).
End Handlers.
