(* ===== verification/ApiWorker.v ===== *)
(** * The worker protocol over HTTP ([api/src/routes.rs], [POST /work-items/...])

    Claiming, completing, failing and heartbeating a work item. An external
    worker is not trusted: what it may run and record is decided here, from
    what the engine stored. *)

From S2P Require Import Prelude.
From S2P Require Import Json.
From S2P Require Import RustStr.
From S2P Require Import Core.
From S2P Require Import Condition.
From S2P Require Import Ir.
From S2P Require Import Event.
From S2P Require Import Materializer.
From S2P Require Import Budget.
From S2P Require Import Hashing.
From S2P Require Import Approvals.
From S2P Require Import Backend.
From S2P Require Import Journal.
From S2P Require Import Memory.
From S2P Require Import Policy.
From S2P Require Import ToolDispatch.
From S2P Require Import AgentLimits.
From S2P Require Import AgentSteps.
From S2P Require Import Agents.
From S2P Require Import DispatchGuard.
From S2P Require Import NodeGuard.
From S2P Require Import ApiAuth.
From S2P Require Import ApiRoutes.

(** Deserializers of the parts of a stored IR. *)
Class WorkerSerde := {
  node_kind_from_value : Value → result string NodeKind;
  node_def_from_value : Value → result string NodeDef;
  string_from_value : Value → result string string;
  remote_agents_from_value : Value → result string (gmap string RemoteAgentConfig);
}.

(** ** What the guard reads of a stored workflow *)

Record GuardInputs := {
  gi_workflow_policy : option PolicySetIr;
  gi_workflow_agent : option string;
  gi_remote_agents : gmap string RemoteAgentConfig;
  gi_node_def : NodeDef;
}.

Section Inputs.
Context `{!GuardSerde, !WorkerSerde}.

(** A key that is missing or null is absent; any other value must parse. *)
Definition optional_key {A} (key what : string) (parse : Value → result string A) (ir : Value)
    : result string (option A) :=
  match get key ir with
  | None | Some Null => Ok None
  | Some raw => map_err (λ e, "failed to load workflow " +:+ what +:+ ": " +:+ e) (Some <$> parse raw)
  end.

Definition guard_inputs_from_raw (ir_value : Value) (node_id : string) : result string GuardInputs :=
  raw_node ← ok_or ("node " +:+ node_id +:+ " not found in IR")
    (nodes ← get "nodes" ir_value; get node_id nodes);
  node_def ← map_err (λ e, "failed to load node definition: " +:+ e) (node_def_from_value raw_node);
  workflow_policy ← optional_key "policy" "policy" policy_from_value ir_value;
  workflow_agent ← optional_key "agent_ref" "agent_ref" string_from_value ir_value;
  remote_agents ← optional_key "remote_agents" "remote_agents" remote_agents_from_value ir_value;
  Ok {| gi_workflow_policy := workflow_policy; gi_workflow_agent := workflow_agent;
        gi_remote_agents := default ∅ remote_agents; gi_node_def := node_def |}.

(** The call of the guard for an item, with what was read. *)
Definition item_guard (guard_mode : GuardMode) (inputs : GuardInputs) (wi : WorkItem)
    (agents : string → result string (option Agent)) (sealer : Sealer) : GuardArgs := {|
  ga_mode := guard_mode; ga_execution_id := wi_execution_id wi; ga_node_id := wi_node_id wi;
  ga_tenant_id := wi_tenant_id wi; ga_workflow_policy := gi_workflow_policy inputs;
  ga_node_def := gi_node_def inputs; ga_payload := payload wi; ga_sealer := sealer;
  ga_agents := {| workflow_agent := gi_workflow_agent inputs;
                  scope_remote_agents := Some (gi_remote_agents inputs);
                  registry := Some agents |};
  ga_work_item_id := Some (wi_id wi) |}.
End Inputs.

Inductive ClaimGate := Release | Withhold.

Definition nothing_to_claim : Value := obj [("claimed", Bool false)].

Section Worker.
Context `{!UuidOps, !ChronoOps, !JsonText, !Sha256Ops, !IterOrder string, !GuardSerde, !ApiSerde,
  !WorkerSerde} {S : Type} `{HB : StateBackend S}.

Abbreviation Ans A := (eff S ApiError A).

(** ** Claiming *)

(** [settle]: withheld whether or not the write landed. *)
Definition settle_withheld {A} (m : bk S A) : Ans ClaimGate :=
  as_result m ≫= λ _, mret Withhold.

(** [fail_node], which [fail_closed] calls. *)
Definition fail_node (wi : WorkItem) (reason : string) : Ans ClaimGate :=
  terminal ← Event_new (wi_execution_id wi) 0
    (EventKind.NodeFailed (wi_node_id wi) reason (attempt wi) false);
  settle_withheld (commit_turn_unless_terminal (wi_id wi) (lease_fence wi) terminal false).

Definition payload_disagrees (wi : WorkItem) (key authoritative : string) : bool :=
  match v ← get key (payload wi); as_str v with
  | Some claimed => negb (bool_decide (claimed = authoritative))
  | None => false
  end.

(** The guard's inputs for a claimed item; a dispatch node's whole graph is
    parsed. [Err] is the fail-closed reason. *)
Definition claim_inputs (ir_value : Value) (node_id : string) : result string GuardInputs :=
  match nodes ← get "nodes" ir_value; node ← get node_id nodes; get "kind" node with
  | None => Err ("no readable kind for node " +:+ node_id +:+ " in IR")
  | Some raw =>
      kind ← map_err (λ e, "failed to load node kind: " +:+ e) (node_kind_from_value raw);
      if is_agent_tool_dispatch kind then
        ir ← map_err (λ e, "failed to load IR: " +:+ e) (ir_from_value ir_value);
        node_def ← ok_or ("node " +:+ node_id +:+ " not found in IR") (node ir node_id);
        Ok {| gi_workflow_policy := policy ir; gi_workflow_agent := agent_ref ir;
              gi_remote_agents := remote_agents ir; gi_node_def := node_def |}
      else guard_inputs_from_raw ir_value node_id
  end.

Definition gate_claimed_item (wi : WorkItem) (sealer : Sealer)
    (agents : string → result string (option Agent)) : Ans ClaimGate :=
  found ← as_result (get_execution (wi_execution_id wi));
  match found with
  | Err _ => mret Withhold
  | Ok None => settle_withheld (fail_work_item (wi_id wi) "execution not found")
  | Ok (Some execution) =>
      let workflow_id := workflow_id execution in
      let workflow_version := workflow_version execution in
      if payload_disagrees wi "workflow_id" workflow_id
         || payload_disagrees wi "workflow_version" workflow_version
      then settle_withheld (fail_work_item (wi_id wi)
        ("work item payload coordinates disagree with execution " +:+ workflow_id +:+ " v"
         +:+ workflow_version))
      else
        def ← as_result (get_workflow workflow_id workflow_version);
        match def with
        | Err _ => mret Withhold
        | Ok None => fail_node wi
            ("workflow " +:+ workflow_id +:+ " v" +:+ workflow_version +:+ " not found")
        | Ok (Some def) =>
            match claim_inputs (wd_ir def) (wi_node_id wi) with
            | Err reason => fail_node wi reason
            | Ok inputs =>
                outcome ← settle (guard_item (item_guard GuardMode.Fire inputs wi agents sealer));
                match outcome with
                | GuardOutcome.Allow => mret Release
                | GuardOutcome.Blocked reason => fail_node wi ("policy blocked: " +:+ reason)
                | GuardOutcome.Held _ =>
                    settle_withheld (complete_work_item_fenced (wi_id wi) (lease_fence wi))
                | GuardOutcome.Unavailable _ => mret Withhold
                end
            end
        end
  end.

(** The claims made before giving up on a queue of dead items. *)
Definition MAX_DEAD_CLAIMS : nat := 16.

Fixpoint claim_loop (fuel : nat) (worker_id : string) (queues : list string) (lease_secs : Z)
    : Ans (option WorkItem) :=
  match fuel with
  | O => mret None
  | Datatypes.S fuel =>
      candidate ← api (claim_work_item_with_lease worker_id queues (Some lease_secs));
      match candidate with
      | None => mret None
      | Some candidate =>
          exec ← api (get_execution (wi_execution_id candidate));
          match exec with
          | Some exec =>
              if WorkflowStatus.is_terminal (status exec)
              then api (fail_work_item (wi_id candidate)
                     ("execution is " +:+ status_debug (status exec))) ≫= λ _,
                   claim_loop fuel worker_id queues lease_secs
              else mret (Some candidate)
          | None => mret (Some candidate)
          end
      end
  end.

(** [.ok()]. *)
Definition ok {E A} (r : result E A) : option A := match r with Ok a => Some a | Err _ => None end.

Definition compute_idempotency_key (wi : WorkItem) : Ans (option string) :=
  k ← as_result (derive_idempotency_key (wi_execution_id wi) (wi_node_id wi)); mret (ok k).

Definition claimed_view (wi : WorkItem) (lease_secs : Z) (key : option string) : Value :=
  obj [("claimed", Bool true);
       ("work_item", obj [("id", Str (uuid_hyphenated (wi_id wi)));
         ("execution_id", Str (ExecutionId_display (wi_execution_id wi)));
         ("node_id", Str (wi_node_id wi)); ("queue_type", Str (queue_type wi));
         ("payload", payload wi); ("attempt", num (attempt wi));
         ("lease_fence", num (lease_fence wi)); ("lease_secs", num lease_secs);
         ("idempotency_key", opt_val Str key)])].

Definition claim_work_item_handler (sealer : Sealer)
    (agents : string → result string (option Agent)) (worker_id : string) (queues : list string)
    (requested : option Z) : Ans Value :=
  let lease_secs := granted_lease_secs requested in
  claimed ← claim_loop MAX_DEAD_CLAIMS worker_id queues lease_secs;
  match claimed with
  | None => mret nothing_to_claim
  | Some wi =>
      gate ← gate_claimed_item wi sealer agents;
      match gate with
      | Withhold => mret nothing_to_claim
      | Release => key ← compute_idempotency_key wi; mret (claimed_view wi lease_secs key)
      end
  end.

(** ** Completing *)

(** [completion_gate]: [Err] carries the status and the reason. *)
Definition completion_gate (wi : WorkItem) (agents : string → result string (option Agent))
    : eff S (Z * string) unit :=
  let unavailable (e : string) := (503, e) in
  let refused (e : string) := (409, e) in
  found ← with_err (λ e, unavailable ("execution unreadable: " +:+ StateBackendError_display e))
    (get_execution (wi_execution_id wi));
  execution ← of_result (ok_or (refused "execution not found") found);
  found ← with_err (λ e, unavailable ("workflow unreadable: " +:+ StateBackendError_display e))
    (get_workflow (workflow_id execution) (workflow_version execution));
  def ← of_result (ok_or (refused ("workflow " +:+ workflow_id execution +:+ " v"
    +:+ workflow_version execution +:+ " not found")) found);
  inputs ← of_result (map_err refused (guard_inputs_from_raw (wd_ir def) (wi_node_id wi)));
  outcome ← settle (guard_item (item_guard GuardMode.Complete inputs wi agents None));
  match outcome with
  | GuardOutcome.Allow => mret tt
  | GuardOutcome.Blocked reason => raise (refused ("policy blocked: " +:+ reason))
  | GuardOutcome.Held _ => raise (refused "node requires an approval that does not cover this occurrence; a result can be recorded only for an approved action")
  | GuardOutcome.Unavailable reason => raise (unavailable reason)
  end.

Record CompleteRequest := {
  cr_output : Value;
  cr_state_patch : Value;
  cr_duration_ms : Z;
  cr_lease_fence : option Z;
  cr_idempotency_key : option string;
  cr_gen_ai_system : option string;
  cr_gen_ai_model : option string;
  cr_input_tokens : option Z;
  cr_output_tokens : option Z;
  cr_finish_reason : option string;
  cr_cost_usd : option f64;
}.

Definition refused_body (reason : string) : Value :=
  obj [("completed", Bool false); ("reason", Str reason)].
Definition STALE_FENCE : string := "stale or invalid lease fence".

(** The event a result is recorded as: the engine's key, its bookkeeping keys
    out of the patch. *)
Definition completed_kind (body : CompleteRequest) (node_id : string) (key : option string)
    : EventKind :=
  EventKind.NodeCompleted node_id (cr_output body) (action_state (cr_state_patch body))
    (cr_duration_ms body) (cr_gen_ai_system body) (cr_gen_ai_model body) (cr_input_tokens body)
    (cr_output_tokens body) (cr_finish_reason body) (cr_cost_usd body) None key.

(** How the settle ended: an answer for the caller, or whether the event was
    committed with it. *)
Inductive Settled := Refusal (status : Z) (reason : string) | Recorded (atomically : bool).

Definition settle_fenced (item_id : WorkItemId) (fence : Z) (recorded : option WorkItem)
    (body : CompleteRequest) (key : option string) : Ans Settled :=
  match recorded with
  | Some wi =>
      event ← Event_new (wi_execution_id wi) 0 (completed_kind body (wi_node_id wi) key);
      committed ← as_result (commit_turn_unless_terminal item_id fence event true);
      match committed with
      | Ok (Committed _) => mret (Recorded true)
      | Ok (TurnExecutionTerminal st) => mret (Refusal 409 ("execution is " +:+ status_debug st))
      | Err (FenceLost _) => mret (Refusal 409 STALE_FENCE)
      | Err e => raise (ApiError.of_backend e)
      end
  | None =>
      settled ← api (complete_work_item_fenced item_id fence);
      mret (if settled : bool then Recorded false else Refusal 409 STALE_FENCE)
  end.

Definition UNFENCED_GATED : string :=
  "an approval-gated node's result must echo the lease_fence from its claim".

(** The run an item on record belongs to, if it has ended. *)
Definition ended_run (recorded : option WorkItem) : Ans (option WorkflowStatus) :=
  match recorded with
  | Some wi =>
      exec ← api (get_execution (wi_execution_id wi));
      mret match exec with
           | Some exec => if WorkflowStatus.is_terminal (status exec) then Some (status exec)
                          else None
           | None => None
           end
  | None => mret None
  end.

Definition settle_unfenced (item_id : WorkItemId) (recorded : option WorkItem) (dev : bool)
    : Ans Settled :=
  gated ← match recorded with
    | Some wi =>
        if dev then mret false
        else
          events ← api (get_events (wi_execution_id wi));
          mret match node_approval_status events (wi_node_id wi) with
               | NotRequested => false | _ => true end
    | None => mret false
    end;
  if gated : bool then mret (Refusal 409 UNFENCED_GATED)
  else
    ended ← ended_run recorded;
    match ended with
    | Some st => mret (Refusal 409 ("execution is " +:+ status_debug st))
    | None => api (complete_work_item item_id) ≫= λ _, mret (Recorded false)
    end.

(** The refresh of the run's denormalised state, best effort. *)
Definition refresh_current_state (execution_id : ExecutionId) (state_patch : Value) : Ans unit :=
  found ← as_result (get_execution execution_id);
  match found with
  | Ok (Some exec) =>
      let merged := match current_state exec, state_patch with
        | Object m, Object p => Object (foldl (λ m kv, map_insert kv.1 kv.2 m) m p)
        | s, _ => s
        end in
      as_result (update_execution_current_state execution_id merged) ≫= λ _, mret tt
  | _ => mret tt
  end.

Definition valid_cost (c : option f64) : bool :=
  match c with Some c => f64_is_finite c && f64_le f64_zero c | None => true end.

Definition emit_completed (wi : WorkItem) (body : CompleteRequest) (key : option string) : Ans unit :=
  latest ← api (latest_sequence (wi_execution_id wi));
  event ← Event_new (wi_execution_id wi) 0 (completed_kind body (wi_node_id wi) key);
  api (append_event (set_sequence event (latest + 1))) ≫= λ _, mret tt.

Definition read_item (item_id : WorkItemId) : Ans (option WorkItem) :=
  r ← as_result (get_work_item item_id); mret (default None (ok r)).

(** The gate's refusal of a result, if any. *)
Definition gate_refusal (recorded : option WorkItem) (agents : string → result string (option Agent))
    : Ans (option (Z * string)) :=
  match recorded with
  | Some wi =>
      r ← as_result (completion_gate wi agents);
      mret match r with Ok _ => None | Err e => Some e end
  | None => mret None
  end.

(** What follows a settle that was not refused: the separate event of the
    unfenced path, and the refresh. *)
Definition after_settle (recorded : option WorkItem) (body : CompleteRequest) (key : option string)
    (atomically : bool) : Ans unit :=
  (if atomically then mret tt
   else match recorded with Some wi => emit_completed wi body key | None => mret tt end) ≫= λ _,
  match recorded with
  | Some wi => refresh_current_state (wi_execution_id wi) (action_state (cr_state_patch body))
  | None => mret tt
  end.

(** The handler's part from its cost check on. *)
Definition record_completion (agents : string → result string (option Agent)) (dev : bool)
    (item_id : WorkItemId) (id : string) (body : CompleteRequest) (recorded : option WorkItem)
    (key : option string) : Ans (Z * Value) :=
  if negb (valid_cost (cr_cost_usd body))
  then raise (ApiError.BadRequest "cost_usd must be a non-negative number")
  else if match cr_lease_fence body with Some f => bool_decide (f ≤ 0) | None => false end
  then mret (409, refused_body STALE_FENCE)
  else
    refusal ← gate_refusal recorded agents;
    match refusal with
    | Some (status, reason) => mret (status, refused_body reason)
    | None =>
        settled ← match cr_lease_fence body with
          | Some fence => settle_fenced item_id fence recorded body key
          | None => settle_unfenced item_id recorded dev
          end;
        match settled with
        | Refusal status reason => mret (status, refused_body reason)
        | Recorded atomically =>
            after_settle recorded body key atomically ≫= λ _,
            mret (200, obj [("completed", Bool true); ("work_item_id", Str id)])
        end
    end.

Definition complete_work_item_handler (agents : string → result string (option Agent)) (dev : bool)
    (id : string) (body : CompleteRequest) : Ans (Z * Value) :=
  item_id ← of_result (ok_or (ApiError.BadRequest ("invalid work item id: " +:+ id)) (uuid_parse id));
  recorded ← read_item item_id;
  key ← match recorded with Some wi => compute_idempotency_key wi | None => mret None end;
  record_completion agents dev item_id id body recorded key.

(** ** Failing *)

(** The run of the item [item_id] names, if it is on record and has ended. *)
Definition ended_status (item_id : WorkItemId) : Ans (option WorkflowStatus) :=
  recorded ← read_item item_id; ended_run recorded.

(** The events a reported failure leaves: those a reclaimed lease leaves. *)
Definition record_failure (outcome : FailOutcome) (error : string) : Ans unit :=
  let '(item, retryable, delay) := match outcome with
    | Retryable item delay_ms => (item, true, Some delay_ms)
    | Exhausted item => (item, false, None)
    end in
  latest ← api (latest_sequence (wi_execution_id item));
  event ← Event_new (wi_execution_id item) (latest + 1)
    (EventKind.NodeFailed (wi_node_id item) error
       (if retryable : bool then usat_sub (attempt item) 1 else attempt item) retryable);
  api (append_event event) ≫= λ _,
  match delay with
  | Some delay_ms =>
      latest ← api (latest_sequence (wi_execution_id item));
      event ← Event_new (wi_execution_id item) (latest + 1)
        (EventKind.RetryScheduled (wi_node_id item) (attempt item) delay_ms);
      api (append_event event) ≫= λ _, mret tt
  | None => mret tt
  end.

Definition failed_item (outcome : FailOutcome) : WorkItem * bool :=
  match outcome with Retryable item _ => (item, true) | Exhausted item => (item, false) end.

Definition fail_work_item_handler (id error : string) (fence : option Z) : Ans (Z * Value) :=
  item_id ← of_result (ok_or (ApiError.BadRequest ("invalid work item id: " +:+ id)) (uuid_parse id));
  ended ← ended_status item_id;
  match ended with
  | Some st =>
      match fence with
      | Some f => if decide (0 < f)
                  then api (withdraw_work_item_fenced item_id f) ≫= λ _, mret tt else mret tt
      | None => mret tt
      end ≫= λ _,
      mret (409, obj [("failed", Bool false); ("work_item_id", Str id);
                      ("reason", Str ("execution is " +:+ status_debug st))])
  | None =>
      match fence with
      | None =>
          api (fail_work_item item_id error) ≫= λ _,
          mret (200, obj [("failed", Bool true); ("work_item_id", Str id); ("retryable", Bool false);
            ("warning", Str "unfenced fail: no NodeFailed emitted and the node is not rescheduled; echo lease_fence")])
      | Some fence =>
          outcome ← api (fail_work_item_fenced item_id fence error);
          match outcome with
          | None => mret (409, obj [("failed", Bool false); ("work_item_id", Str id);
                                    ("reason", Str STALE_FENCE)])
          | Some outcome =>
              record_failure outcome error ≫= λ _,
              let '(item, retryable) := failed_item outcome in
              mret (200, obj [("failed", Bool true); ("work_item_id", Str id);
                ("retryable", Bool retryable); ("attempt", num (attempt item))])
          end
      end
  end.

(** ** Heartbeats *)

Definition heartbeat_work_item_handler (id worker_id : string) (fence : Z) : Ans Value :=
  item_id ← of_result (ok_or (ApiError.BadRequest ("invalid work item id: " +:+ id)) (uuid_parse id));
  renewed ← as_result (heartbeat_lease item_id worker_id fence);
  renewal ← of_result match renewed with
    | Ok renewal => Ok renewal
    | Err (FenceLost _) => Err (ApiError.Conflict
        ("lease on work item " +:+ id +:+ " is no longer held by " +:+ worker_id))
    | Err e => Err (ApiError.of_backend e)
    end;
  item ← api (get_work_item item_id);
  cancel_requested ← match item with
    | Some wi =>
        exec ← api (get_execution (wi_execution_id wi));
        mret match exec with
             | Some exec => WorkflowStatus.is_terminal (status exec) | None => false end
    | None => mret false
    end;
  mret (obj [("renewed", Bool true); ("work_item_id", Str id);
             ("lease_fence", num (lr_lease_fence renewal));
             ("reattached", Bool (reattached renewal));
             ("cancel_requested", Bool cancel_requested)]).
End Worker.
