(* ===== verification/ApiWorkerCorrect.v ===== *)
(** * What a worker can make the engine record ([api/src/routes.rs])

    A claim hands out only a live run's item whose stored node its guard let
    fire; a completion is recorded only for the engine's own item, once its gate
    passed, and as one event. *)

From S2P Require Import Prelude.
From S2P Require Import Json.
From S2P Require Import RustStr.
From S2P Require Import Core.
From S2P Require Import Condition.
From S2P Require Import Ir.
From S2P Require Import Event.
From S2P Require Import Materializer.
From S2P Require Import Budget.
From S2P Require Import Hashing.
From S2P Require Import Approvals.
From S2P Require Import Backend.
From S2P Require Import Journal.
From S2P Require Import Memory.
From S2P Require Import Lease.
From S2P Require Import History.
From S2P Require Import MemoryLaws.
From S2P Require Import Policy.
From S2P Require Import ToolDispatch.
From S2P Require Import AgentLimits.
From S2P Require Import AgentSteps.
From S2P Require Import Agents.
From S2P Require Import DispatchGuard.
From S2P Require Import NodeGuard.
From S2P Require Import GuardCorrect.
From S2P Require Import GuardSound.
From S2P Require Import ApiAuth.
From S2P Require Import ApiRoutes.
From S2P Require Import ApiWorker.

Section Records.
Context `{!UuidOps, !ChronoOps, !JsonText, !Sha256Ops, !IterOrder string, !GuardSerde, !ApiSerde,
  !WorkerSerde} {S : Type} `{HL : StateBackendLaws S} `{!WorkItemLaws S}.

(** ** Calls that leave every log alone *)

Definition logs_kept (s s' : S) : Prop := ∀ i, view_log s' i = view_log s i.

#[local] Instance logs_kept_preorder : PreOrder logs_kept.
Proof. split; [by intros s i|]. intros s1 s2 s3 H12 H23 i. by rewrite H23. Qed.

Lemma keeps_record_logs {A} (m : bk S A) : keeps_record m → respects logs_kept m.
Proof. intros Hm w. exact (proj1 (Hm w)). Qed.
Lemma logs_kept_eq s s' : s' = s → logs_kept s s'.
Proof. by intros ->. Qed.

(** ** What the engine reads for an item *)

Lemma read_item_run item_id (w : world S) :
  read_item item_id w = (Ok (view_items (store w) item_id), w).
Proof.
  unfold read_item. by rewrite (as_result_run _ _ _ _ _ (law_get_work_item item_id w)).
Qed.

Lemma compute_key_run wi (w : world S) :
  compute_idempotency_key wi w = (Ok (Some (engine_key (store w) wi)), w).
Proof.
  unfold compute_idempotency_key.
  by rewrite (as_result_run _ _ _ _ _ (derive_key_run wi w)).
Qed.

(** ** The gate *)

Lemma reads_complete {E F A} id (f : F → E) (m : eff S F A) :
  (∀ w, (m w).2 = w) → respects (guard_writes (S := S) GuardMode.Complete id) (with_err f m).
Proof. intros Hm. apply respects_with_err. intros w. by rewrite Hm. Qed.

Lemma completion_gate_reads wi agents (w : world S) :
  store (completion_gate wi agents w).2 = store w.
Proof.
  enough (respects (guard_writes (S := S) GuardMode.Complete (wi_execution_id wi))
    (completion_gate wi agents)) as Hr by apply (Hr w).
  unfold completion_gate. apply respects_bind; [apply _| |intros found].
  { apply reads_complete. intros w1. by rewrite law_get_execution. }
  apply respects_bind; [apply _|by intros w1|intros execution].
  apply respects_bind; [apply _|apply reads_complete; intros; apply law_get_workflow|intros def].
  apply respects_bind; [apply _|by intros w1|intros d].
  apply respects_bind; [apply _|by intros w1|intros inputs].
  apply respects_bind; [apply _| |intros o].
  - apply settle_writes, (guard_item_respects (item_guard GuardMode.Complete inputs wi agents None)).
  - by destruct o.
Qed.

(** The engine's gate lets a result of the item in, at [w]. *)
Definition gate_open (w : world S) (agents : string → result string (option Agent))
    (wi : WorkItem) : Prop := (completion_gate wi agents w).1 = Ok tt.

Lemma gate_refusal_run wi agents (w : world S) :
  ∃ o w1, gate_refusal (Some wi) agents w = (Ok o, w1) ∧ store w1 = store w
    ∧ (o = None ↔ gate_open w agents wi).
Proof.
  unfold gate_refusal, gate_open. pose proof (completion_gate_reads wi agents w) as Hs.
  destruct (completion_gate wi agents w) as [[[]|e] w1] eqn:Hg;
    rewrite (as_result_run _ _ _ _ _ Hg); [exists None, w1|exists (Some e), w1]; by split_and!.
Qed.

(** ** The settle *)

(** [s'] is [s] with the result recorded: one event, in the item's run. *)
Definition result_recorded (body : CompleteRequest) (wi : WorkItem) (key : option string)
    (s s' : S) : Prop :=
  ∃ ev seq, event_execution_id ev = wi_execution_id wi
    ∧ event_kind ev = completed_kind body (wi_node_id wi) key
    ∧ appended_to ev (Some seq) s s'.

Definition run_open (s : S) (id : ExecutionId) : Prop :=
  ∀ e, view_execution s id = Some e → WorkflowStatus.is_terminal (status e) = false.

Lemma new_event_run {E A} eid n k (f : Event → eff S E A) (w : world S) :
  ∃ ev w1, (Event_new eid n k ≫= f) w = f ev w1 ∧ store w1 = store w
    ∧ event_execution_id ev = eid ∧ event_kind ev = k.
Proof.
  unfold Event_new. rewrite bind_assoc, bind_new_v4, bind_assoc, bind_now, bind_mret.
  do 2 eexists. split; [reflexivity|done].
Qed.

Lemma settle_fenced_run item_id fence wi body key (w w' : world S) r :
  settle_fenced item_id fence (Some wi) body key w = (r, w') →
  match r with
  | Ok (Recorded b) => b = true ∧ result_recorded body wi key (store w) (store w')
      ∧ (∃ item, view_items (store w) item_id = Some item ∧ lease_fence item = fence)
      ∧ run_open (store w) (wi_execution_id wi)
  | Ok (Refusal st _) => st ≠ 200 ∧ logs_kept (store w) (store w')
  | Err _ => logs_kept (store w) (store w')
  end.
Proof.
  unfold settle_fenced.
  match goal with |- context [Event_new ?i ?n ?k ≫= ?f] =>
    destruct (new_event_run i n k f w) as (ev & w1 & -> & Hw1 & He & Hk) end.
  destruct (commit_turn_unless_terminal item_id fence ev true w1) as [c w2] eqn:Hc.
  rewrite (as_result_run _ _ _ _ _ Hc). apply law_commit_turn in Hc as (Hl & _ & _ & Hok).
  rewrite Hw1 in *. destruct c as [[seq|st]|[]]; intros [= <- <-]; try exact Hl; try by split.
  destruct Hok as (Hf & _ & Ho). split_and!; [done|by exists ev, seq|done|].
  unfold run_open. by rewrite <- He.
Qed.

Lemma ended_run_run wi (w : world S) :
  ended_run (Some wi) w = (Ok match view_execution (store w) (wi_execution_id wi) with
    | Some e => if WorkflowStatus.is_terminal (status e) then Some (status e) else None
    | None => None end, w).
Proof. unfold ended_run, api. by rewrite (with_err_run _ _ _ _ _ _ (law_get_execution _ w)). Qed.

(** An unfenced result is taken for a node without approval requests only. *)
Definition unfenced_admitted (s : S) (dev : bool) (wi : WorkItem) : Prop :=
  dev = true ∨ node_approval_status (view_log s (wi_execution_id wi)) (wi_node_id wi) = NotRequested.

Lemma settle_unfenced_run item_id wi dev (w w' : world S) r :
  settle_unfenced item_id (Some wi) dev w = (r, w') →
  logs_kept (store w) (store w')
  ∧ match r with
    | Ok (Recorded b) => b = false ∧ run_open (store w) (wi_execution_id wi)
        ∧ unfenced_admitted (store w) dev wi
    | Ok (Refusal st _) => st ≠ 200
    | _ => True
    end.
Proof.
  unfold settle_unfenced, unfenced_admitted, api.
  assert ((ended ← ended_run (Some wi);
      match ended with
      | Some st => mret (Refusal 409 ("execution is " +:+ status_debug st))
      | None => with_err ApiError.of_backend (complete_work_item item_id) ≫= λ _,
                  mret (Recorded false)
      end) w = (r, w') →
    logs_kept (store w) (store w')
    ∧ match r with
      | Ok (Recorded b) => b = false ∧ run_open (store w) (wi_execution_id wi)
      | Ok (Refusal st _) => st ≠ 200
      | _ => True
      end) as Hopen.
  { rewrite (bind_run _ _ _ _ _ (ended_run_run wi w)). unfold run_open.
    destruct (view_execution (store w) (wi_execution_id wi)) as [e|];
      [destruct (WorkflowStatus.is_terminal (status e)) eqn:Ht; [by intros [= <- <-]|]|].
    all: destruct (complete_work_item item_id w) as [c w1] eqn:Hc;
      rewrite (with_err_run _ _ _ _ _ _ Hc);
      pose proof (keeps_record_logs _ (law_complete_quiet item_id) w) as Hk; rewrite Hc in Hk;
      destruct c; intros [= <- <-]; split_and!; try done; by intros ? [= <-]. }
  destruct dev; [rewrite bind_mret|rewrite bind_assoc, (with_err_run _ _ _ _ _ _ (law_get_events _ w)),
    bind_mret].
  - intros [Hl Hr]%Hopen. split; [done|]. destruct r as [[]|]; naive_solver.
  - destruct (node_approval_status _ _) eqn:Hst; try by intros [= <- <-].
    intros [Hl Hr]%Hopen. split; [done|]. destruct r as [[]|]; naive_solver.
Qed.
(** ** After the settle *)

Lemma refresh_current_run id patch (w : world S) :
  ∃ w', refresh_current_state id patch w = (Ok tt, w') ∧ logs_kept (store w) (store w').
Proof.
  unfold refresh_current_state. rewrite (as_result_run _ _ _ _ _ (law_get_execution id w)).
  destruct (view_execution (store w) id) as [e|]; [|by exists w].
  match goal with |- context [update_execution_current_state id ?m] =>
    pose proof (law_update_current id m w) as [Hl _];
    destruct (update_execution_current_state id m w) as [c w1] eqn:Hc end.
  rewrite (as_result_run _ _ _ _ _ Hc). by exists w1.
Qed.

Lemma emit_completed_run wi body key (w w' : world S) r :
  emit_completed wi body key w = (r, w') →
  match r with
  | Ok _ => result_recorded body wi key (store w) (store w')
  | Err _ => logs_kept (store w) (store w')
  end.
Proof.
  unfold emit_completed, api. rewrite (with_err_run _ _ _ _ _ _ (law_latest_sequence _ w)).
  match goal with |- context [Event_new ?i ?n ?k ≫= ?f] =>
    destruct (new_event_run i n k f w) as (ev & w1 & -> & Hw1 & He & Hk) end.
  match goal with |- context [append_event ?e] => destruct (append_event e w1) as [c w2] eqn:Hc end.
  rewrite (with_err_run _ _ _ _ _ _ Hc). apply law_append_event in Hc as [_ Hl]. rewrite Hw1 in Hl.
  destruct c as [seq|e]; intros [= <- <-]; [|exact Hl]. by exists ev, seq.
Qed.

Lemma recorded_then_kept body wi key s1 s2 s3 :
  result_recorded body wi key s1 s2 → logs_kept s2 s3 → result_recorded body wi key s1 s3.
Proof.
  intros (ev & seq & He & Hk & Hl) H23. exists ev, seq. split_and!; [done|done|].
  intros i. by rewrite H23.
Qed.
Lemma kept_then_recorded body wi key s1 s2 s3 :
  logs_kept s1 s2 → result_recorded body wi key s2 s3 → result_recorded body wi key s1 s3.
Proof.
  intros H12 (ev & seq & He & Hk & Hl). exists ev, seq. split_and!; [done|done|].
  intros i. by rewrite (Hl i), !H12.
Qed.

Lemma after_settle_run wi body key atomically (w w' : world S) r :
  after_settle (Some wi) body key atomically w = (r, w') →
  if atomically then r = Ok tt ∧ logs_kept (store w) (store w')
  else match r with
       | Ok _ => result_recorded body wi key (store w) (store w')
       | Err _ => logs_kept (store w) (store w')
       end.
Proof.
  unfold after_settle. destruct atomically.
  - rewrite bind_mret. destruct (refresh_current_run (wi_execution_id wi)
      (action_state (cr_state_patch body)) w) as (w1 & -> & Hl). by intros [= <- <-].
  - unfold mbind, eff_bind. destruct (emit_completed wi body key w) as [[[]|e] w1] eqn:He;
      apply emit_completed_run in He; [|by intros [= <- <-]].
    destruct (refresh_current_run (wi_execution_id wi)
      (action_state (cr_state_patch body)) w1) as (w2 & -> & Hl). intros [= <- <-].
    by eapply recorded_then_kept.
Qed.

Lemma after_settle_none body key b (w : world S) : after_settle None body key b w = (Ok tt, w).
Proof. unfold after_settle. by destruct b. Qed.

(** An unknown item's settle touches no log. *)
Lemma settle_unknown_logs (item_id : WorkItemId) (fence : option Z) dev body key :
  respects logs_kept (match fence with
    | Some fence => settle_fenced (S := S) item_id fence None body key
    | None => settle_unfenced item_id None dev end).
Proof.
  intros w. destruct fence as [f|]; simpl.
  - unfold settle_fenced, api. pose proof (keeps_record_logs _ (law_complete_fenced_quiet item_id f) w) as Hk.
    destruct (complete_work_item_fenced item_id f w) as [[b|e] w1] eqn:Hc;
      rewrite (with_err_run _ _ _ _ _ _ Hc); exact Hk.
  - unfold settle_unfenced, ended_run, api. rewrite !bind_mret.
    pose proof (keeps_record_logs _ (law_complete_quiet item_id) w) as Hk.
    destruct (complete_work_item item_id w) as [[b|e] w1] eqn:Hc;
      rewrite (with_err_run _ _ _ _ _ _ Hc); exact Hk.
Qed.

(** ** Completing an item *)

(** What the engine requires before it records a worker's result. *)
Definition completion_admitted_at (w : world S) (agents : string → result string (option Agent))
    (dev : bool) (body : CompleteRequest) (wi : WorkItem) : Prop :=
  gate_open w agents wi
  ∧ run_open (store w) (wi_execution_id wi)
  ∧ valid_cost (cr_cost_usd body) = true
  ∧ match cr_lease_fence body with
    | Some fence => 0 < fence ∧ lease_fence wi = fence
    | None => unfenced_admitted (store w) dev wi
    end.

(** What a completion that is refused leaves. *)
Lemma refused_status_unrecorded (o : option WorkItem) (st : Z) (v : Value) (s : S) :
  st ≠ 200 → logs_kept s s ∧ (∀ u, Ok (E := ApiError) (st, v) = Ok (200, u) → o = None).
Proof. intros Hst. split; [done|]. intros u [= ->]. done. Qed.

(** The gate's refusals are 409 or 503. *)
Lemma gate_refusal_status wi agents (w w1 : world S) st reason :
  gate_refusal (Some wi) agents w = (Ok (Some (st, reason)), w1) → st ≠ 200.
Proof.
  unfold gate_refusal.
  enough (∀ e w2, completion_gate wi agents w = (Err e, w2) → e.1 ≠ 200) as Hg.
  { destruct (completion_gate wi agents w) as [[[]|e] w2] eqn:He;
      rewrite (as_result_run _ _ _ _ _ He); [done|]. intros [= ->]. by eapply (Hg (st, reason)). }
  intros e w2. unfold completion_gate. rewrite (with_err_run _ _ _ _ _ _ (law_get_execution _ w)).
  rewrite of_result_run. destruct (view_execution _ _) as [x|]; [|by intros [= <- _]]. cbn [ok_or].
  destruct (get_workflow (workflow_id x) (workflow_version x) w) as [[def|e1] w3] eqn:Hd; rewrite (with_err_run _ _ _ _ _ _ Hd);
    [|by intros [= <- _]].
  rewrite of_result_run. destruct def as [def|]; [|by intros [= <- _]]. cbn [ok_or].
  rewrite of_result_run. destruct (guard_inputs_from_raw _ _) as [inputs|e1]; [|by intros [= <- _]].
  cbn [map_err]. unfold mbind, eff_bind. destruct (settle _ w3) as [[o|e1] w4] eqn:Hs.
  - by destruct o; intros [= <- _].
  - unfold settle in Hs. by destruct (guard_item _ w3) as [[] ?].
Qed.

Lemma record_unknown agents dev item_id id body key :
  respects logs_kept (record_completion agents dev item_id id body None key).
Proof.
  unfold record_completion. destruct (negb _); [apply respects_raise, _|].
  destruct (match cr_lease_fence body with Some _ => _ | None => _ end); [apply respects_mret, _|].
  intros w. unfold gate_refusal. rewrite bind_mret. revert w.
  apply respects_bind; [apply _|apply settle_unknown_logs|intros [st reason|b]]; [apply respects_mret, _|].
  intros w. rewrite (bind_run _ _ _ _ _ (after_settle_none body key b w)). reflexivity.
Qed.

Lemma record_known agents dev item_id id body wi key (w w' : world S) r :
  view_items (store w) item_id = Some wi →
  record_completion agents dev item_id id body (Some wi) key w = (r, w') →
  (logs_kept (store w) (store w') ∧ ∀ v, r ≠ Ok (200, v))
  ∨ ∃ v, r = Ok (200, v) ∧ completion_admitted_at w agents dev body wi
      ∧ result_recorded body wi key (store w) (store w').
Proof.
  intros Hwi. unfold record_completion. destruct (valid_cost _) eqn:Hcost;
    [|intros [= <- <-]; by left]. cbn [negb].
  destruct (match cr_lease_fence body with Some _ => _ | None => _ end) eqn:Hf;
    [intros [= <- <-]; by left|].
  destruct (gate_refusal_run wi agents w) as (o & w1 & Hg & Hw1 & Hopen).
  rewrite (bind_run _ _ _ _ _ Hg). destruct o as [[st reason]|].
  { intros [= <- <-]. left. rewrite Hw1. split; [done|]. intros v [= -> _].
    by apply gate_refusal_status in Hg. }
  assert (gate_open w agents wi) as Hgo by by apply Hopen.
  unfold mbind, eff_bind.
  match goal with |- match ?m w1 with _ => _ end = _ → _ => destruct (m w1) as [sr w2] eqn:Hs end.
  assert (match sr with
    | Ok (Recorded b) => completion_admitted_at w agents dev body wi
        ∧ if b then result_recorded body wi key (store w) (store w2)
          else logs_kept (store w) (store w2)
    | Ok (Refusal st _) => st ≠ 200 ∧ logs_kept (store w) (store w2)
    | _ => logs_kept (store w) (store w2)
    end) as Hsettled.
  { unfold completion_admitted_at. rewrite <- Hw1. destruct (cr_lease_fence body) as [f|].
    - apply bool_decide_eq_false in Hf. apply settle_fenced_run in Hs. destruct sr as [[st reason|b]|e]; [exact Hs| |exact Hs].
      destruct Hs as (-> & Hrec & (item & Hit & Hfe) & Ho). split; [|exact Hrec].
      rewrite Hw1, Hwi in Hit. injection Hit as <-. split_and!; [done..|lia|done]. 
    - apply settle_unfenced_run in Hs as [Hl Hs]. destruct sr as [[st reason|b]|e]; [by split| |done].
      destruct Hs as (-> & Ho & Hu). by split_and!. }
  destruct sr as [[st reason|b]|e].
  - intros [= <- <-]. left. destruct Hsettled as [Hst Hl]. split; [done|]. by intros v [= -> _].
  - destruct Hsettled as [Hadm Hb].
    destruct (after_settle (Some wi) body key b w2) as [ra w3] eqn:Ha. apply after_settle_run in Ha.
    destruct b.
    + destruct Ha as [-> Hl]. intros [= <- <-]. right. eexists. split_and!; [done|done|].
      by eapply recorded_then_kept.
    + destruct ra as [[]|e]; intros [= <- <-].
      * right. eexists. split_and!; [done|done|]. by eapply kept_then_recorded.
      * left. split; [by etransitivity|done].
  - intros [= <- <-]. by left.
Qed.

(** C13: A completion either records its result, once, or touches no log. It is
    recorded only for an item on record, when the engine's own gate lets the
    node's result in, its run has not ended, its cost is a number that is not
    negative, and either the caller names a positive fence and it is the one the
    item carries (the store compares the fence alone: an item put back in the
    queue keeps its fence until it is claimed again), or it names none and the
    server runs in dev mode or no approval was ever asked for the node. What
    lands is exactly one [NodeCompleted] in that item's run, for that item's
    node, under the engine's key and with no bookkeeping key in its patch. The
    caller is told 200 for an item on record exactly then. *)
Theorem completion_recorded (agents : string → result string (option Agent)) (dev : bool)
    (id : string) (body : CompleteRequest) (w : world S) :
  let '(r, w') := complete_work_item_handler agents dev id body w in
  let recorded := item_id ← uuid_parse id; view_items (store w) item_id in
  (logs_kept (store w) (store w') ∧ (∀ v, r = Ok (200, v) → recorded = None))
  ∨ ∃ wi v, recorded = Some wi ∧ r = Ok (200, v)
      ∧ completion_admitted_at w agents dev body wi
      ∧ result_recorded body wi (Some (engine_key (store w) wi)) (store w) (store w').
Proof.
  destruct (complete_work_item_handler agents dev id body w) as [r w'] eqn:Hrun.
  unfold complete_work_item_handler in Hrun. rewrite of_result_run in Hrun.
  destruct (uuid_parse id) as [item_id|]; [|injection Hrun as <- <-; left; by split].
  cbn [ok_or] in Hrun. cbn [mbind option_bind].
  rewrite (bind_run _ _ _ _ _ (read_item_run item_id w)) in Hrun.
  destruct (view_items (store w) item_id) as [wi|] eqn:Hwi.
  - rewrite (bind_run _ _ _ _ _ (compute_key_run wi w)) in Hrun.
    apply record_known in Hrun as [[Hl Hr]|(v & Hr)]; [left|right|done].
    + split; [done|]. intros v Hv. by destruct (Hr v).
    + by exists wi, v.
  - left. split; [|done]. pose proof (record_unknown agents dev item_id id body None w) as Hl.
    rewrite bind_mret in Hrun. by rewrite Hrun in Hl.
Qed.
(** ** Claiming an item *)

(** A claimed candidate's run is open, or not readable. *)
Lemma claim_loop_open fuel worker queues lease wi (w w' : world S) :
  claim_loop fuel worker queues lease w = (Ok (Some wi), w') →
  run_open (store w') (wi_execution_id wi).
Proof.
  revert w. induction fuel as [|fuel IH]; intros w; cbn [claim_loop]; [done|].
  intros (candidate & w1 & _ & Hk)%bind_ok_inv. destruct candidate as [candidate|]; [|done].
  unfold api in Hk. rewrite (with_err_run _ _ _ _ _ _ (law_get_execution _ w1)) in Hk.
  destruct (view_execution (store w1) (wi_execution_id candidate)) as [e|] eqn:He.
  - destruct (WorkflowStatus.is_terminal (status e)) eqn:Ht.
    + apply bind_ok_inv in Hk as (u & w2 & _ & Hk). by eapply IH.
    + injection Hk as <- <-. unfold run_open. rewrite He. by intros ? [= <-].
  - injection Hk as <- <-. unfold run_open. by rewrite He.
Qed.

Lemma settle_withheld_not {A} (m : bk S A) (w w' : world S) :
  settle_withheld m w ≠ (Ok Release, w').
Proof. unfold settle_withheld. intros (? & ? & _ & ?)%bind_ok_inv. done. Qed.
Lemma fail_node_not wi reason (w w' : world S) : fail_node wi reason w ≠ (Ok Release, w').
Proof.
  unfold fail_node. intros (? & ? & _ & Hk)%bind_ok_inv. by apply settle_withheld_not in Hk.
Qed.

(** The engine's record of the item lets it run, at [w]: its payload names no
    other workflow, and the guard allows the node as it is stored. *)
Definition released (w w' : world S) (sealer : Sealer)
    (agents : string → result string (option Agent)) (wi : WorkItem) : Prop :=
  ∃ execution def inputs,
    view_execution (store w) (wi_execution_id wi) = Some execution
    ∧ payload_disagrees wi "workflow_id" (workflow_id execution) = false
    ∧ payload_disagrees wi "workflow_version" (workflow_version execution) = false
    ∧ (get_workflow (workflow_id execution) (workflow_version execution) w).1 = Ok (Some def)
    ∧ claim_inputs (wd_ir def) (wi_node_id wi) = Ok inputs
    ∧ guard_item (item_guard GuardMode.Fire inputs wi agents sealer) w = (Ok GuardOutcome.Allow, w').

Lemma gate_released wi sealer agents (w w' : world S) :
  gate_claimed_item wi sealer agents w = (Ok Release, w') → released w w' sealer agents wi.
Proof.
  unfold gate_claimed_item. rewrite (as_result_run _ _ _ _ _ (law_get_execution _ w)).
  destruct (view_execution (store w) (wi_execution_id wi)) as [e|] eqn:He;
    [|by intros ?%settle_withheld_not].
  destruct (payload_disagrees wi "workflow_id" _ || _) eqn:Hp; [by intros ?%settle_withheld_not|].
  apply orb_false_iff in Hp as [Hp1 Hp2].
  pose proof (law_get_workflow (workflow_id e) (workflow_version e) w) as Hr.
  destruct (get_workflow (workflow_id e) (workflow_version e) w) as [def w1] eqn:Hd.
  simpl in Hr. subst w1. rewrite (as_result_run _ _ _ _ _ Hd).
  destruct def as [[def|]|e1]; [|by intros ?%fail_node_not|done].
  destruct (claim_inputs _ _) as [inputs|reason] eqn:Hi; [|by intros ?%fail_node_not].
  intros (o & w1 & Ho & Hk)%bind_ok_inv.
  destruct o as [|reason|g|reason]; [|by apply fail_node_not in Hk
    |by apply settle_withheld_not in Hk|done].
  injection Hk as <-. exists e, def, inputs. rewrite Hd. split_and!; try done.
  unfold settle in Ho. destruct (guard_item _ w) as [[o|o] w2] eqn:Hg; injection Ho as -> ->; [done|].
  by destruct (guard_item_refuses _ _ _ _ Hg).
Qed.

(** C14: A claim answers an item only if its run is on record and open, its payload
    names no other workflow, its node is in the workflow stored for that run,
    and the engine's guard, given that stored node and policy and not what the
    caller sent, lets it fire then; since the lookup the claim has only recorded
    what the guard records. *)
Theorem claim_hands_out_guarded (sealer : Sealer) (agents : string → result string (option Agent))
    (worker_id : string) (queues : list string) (requested : option Z) (w w' : world S) (v : Value)
    (Hrun : claim_work_item_handler sealer agents worker_id queues requested w = (Ok v, w'))
    (Hitem : v ≠ nothing_to_claim) :
  ∃ wi w1,
    v = claimed_view wi (granted_lease_secs requested) (Some (engine_key (store w') wi))
    ∧ run_open (store w1) (wi_execution_id wi)
    ∧ released w1 w' sealer agents wi
    ∧ journals guard_kind (wi_execution_id wi) (store w1) (store w').
Proof.
  unfold claim_work_item_handler in Hrun. apply bind_ok_inv in Hrun as (found & w1 & Hc & Hk).
  destruct found as [wi|]; [|injection Hk as <- <-; done].
  apply bind_ok_inv in Hk as (gate & w2 & Hg & Hk). destruct gate; [|injection Hk as <- <-; done].
  rewrite (bind_run _ _ _ _ _ (compute_key_run wi w2)) in Hk. injection Hk as <- <-.
  exists wi, w1. apply gate_released in Hg as Hrel. split_and!; [done| |exact Hrel|].
  - by eapply claim_loop_open.
  - destruct Hrel as (e & def & inputs & _ & _ & _ & _ & _ & Hgd).
    pose proof (guard_item_respects (item_guard GuardMode.Fire inputs wi agents sealer) w1) as Hj.
    by rewrite Hgd in Hj.
Qed.
End Records.

(** ** A sample: a run started, its item claimed and completed *)

Module WorkerSample.
#[local] Existing Instances plain_uuid milli_chrono code_json plain_sha256 GuardSample.plain_serde.
#[local] Existing Instances Sample.order_exec Sample.order_item Sample.order_tenant
  Sample.order_pair.
#[local] Instance order_string : IterOrder string := list_order string.

Definition pay : NodeDef := {|
  Ir.id := "pay"; kind := NodeKind.Tool "wire" ∅ ""; retry_policy := None;
  node_timeout_secs := None; nd_description := None; nd_labels := ∅; nd_policy := None;
  nd_data_policy := None; nd_agent_ref := None |}.

Definition flow : WorkflowIr := {|
  ir_workflow_id := "w"; version := "1.0.0"; name := None; ir_description := None;
  state_schema := ""; start_node := "pay"; nodes := {["pay" := pay]}; edges := [];
  retry_policies := ∅;
  timeouts := {| node_timeout := None; workflow_timeout := None; heartbeat_interval := 0 |};
  models := ∅; tools := ∅; mcp_servers := ∅; remote_agents := ∅; labels := ∅; policy := None;
  token_budget := None; cost_budget_usd := None; on_budget_exceeded := None;
  continue_as_new := false; data_policy := None; agent_ref := None |}.

Definition raw_flow : Value :=
  obj [("workflow_id", Str "w"); ("version", Str "1.0.0"); ("start_node", Str "pay");
       ("nodes", obj [("pay", obj [("kind", Str "tool")])])].

(** Deserializers that know this workflow; an id is written by its length. *)
Definition flow_serde : ApiSerde := {|
  ir_from_value v := Ok flow; limits_from_value v := Err "none"; tenant_to_value t := Null;
  execution_to_value e := Ok Null; event_to_value e := Null;
  uuid_parse s := Some (N.of_nat (String.length s)) |}.
Definition node_serde : WorkerSerde := {|
  node_kind_from_value v := Ok (kind pay); node_def_from_value v := Ok pay;
  string_from_value v := Err "none"; remote_agents_from_value v := Err "none" |}.
#[local] Existing Instances flow_serde node_serde.

Definition registered : world InMemoryBackend :=
  (store_workflow {| wd_workflow_id := "w"; wd_version := "1.0.0"; wd_ir := raw_flow;
     wd_created_at := 0; wd_tenant_id := "default" |} start_world).2.
Definition started : world InMemoryBackend :=
  (start_run (mkTenantId "default") "w" None (obj [("x", num 1)]) None registered).2.
Definition claim : eff InMemoryBackend ApiError Value :=
  claim_work_item_handler None (λ _, Ok None) "worker" ["tool"] None.

Lemma claim_witness :
  ∃ v wi w1, claim started = (Ok v, (claim started).2) ∧ v ≠ nothing_to_claim
    ∧ wi_node_id wi = "pay" ∧ released w1 (claim started).2 None (λ _, Ok None) wi.
Proof.
  assert (match (claim started).1 with
          | Ok v => negb (bool_decide (get "claimed" v = Some (Bool false)))
                    && bool_decide ((w ← get "work_item" v; get "node_id" w) = Some (Str "pay"))
          | Err _ => false end = true) as Hok by (vm_compute; reflexivity).
  destruct (claim started) as [[v|e] w'] eqn:Hrun; [|discriminate Hok]. cbn [fst snd] in *.
  apply andb_true_iff in Hok as [Hne Hnode].
  assert (v ≠ nothing_to_claim) as Hv.
  { intros ->. apply negb_true_iff, bool_decide_eq_false in Hne. by apply Hne. }
  destruct (claim_hands_out_guarded None (λ _, Ok None) "worker" ["tool"] None started w' v Hrun Hv)
    as (wi & w1 & Hview & _ & Hrel & _).
  exists v, wi, w1. split_and!; [done|exact Hv| |exact Hrel].
  apply bool_decide_eq_true in Hnode. rewrite Hview in Hnode. by injection Hnode.
Defined.

(** The whole exchange: the claimed item completes, and a second report is
    refused. *)
Definition body (fence : option Z) : CompleteRequest := {|
  cr_output := obj [("ok", Bool true)]; cr_state_patch := obj [("__budget", num 9); ("y", num 2)];
  cr_duration_ms := 3; cr_lease_fence := fence; cr_idempotency_key := None;
  cr_gen_ai_system := None; cr_gen_ai_model := None; cr_input_tokens := None;
  cr_output_tokens := None; cr_finish_reason := None; cr_cost_usd := None |}.

Definition claimed_fence : option Z :=
  match (claim started).1 with
  | Ok v => w ← get "work_item" v; f ← get "lease_fence" w;
            match f with Num (PosInt n) => Some n | _ => None end
  | Err _ => None
  end.
Definition report : eff InMemoryBackend ApiError (Z * Value) :=
  complete_work_item_handler (λ _, Ok None) false "a" (body claimed_fence).
Definition reported : world InMemoryBackend := (report (claim started).2).2.

Lemma recorded_result_witness :
  let w := (claim started).2 in
  ∃ wi v, view_items (store w) (N.of_nat (String.length "a")) = Some wi ∧ (report w).1 = Ok (200, v)
    ∧ completion_admitted_at w (λ _, Ok None) false (body claimed_fence) wi
    ∧ result_recorded (body claimed_fence) wi (Some (engine_key (store w) wi)) (store w)
        (store (report w).2).
Proof.
  cbv zeta.
  assert (fst <$> (report (claim started).2).1 = Ok 200) as Hok by (vm_compute; reflexivity).
  assert (is_Some (view_items (store (claim started).2) (N.of_nat (String.length "a")))) as [wi Hwi].
  { eexists. vm_compute. reflexivity. }
  pose proof (completion_recorded (λ _, Ok None) false "a" (body claimed_fence) (claim started).2)
    as Hrec.
  fold report in Hrec. destruct (report (claim started).2) as [r w'].
  cbn [fst snd] in *. destruct r as [[st v]|e]; [|discriminate Hok]. injection Hok as ->.
  destruct Hrec as [[_ Hnone]|Hrec].
  - specialize (Hnone v eq_refl). cbn [uuid_parse flow_serde mbind option_bind] in Hnone. congruence.
  - destruct Hrec as (wi' & v' & Hrecorded & Hr & Hadm & Hres). by exists wi', v'.
Defined.

Example completed_once :
  (fst <$> (report (claim started).2).1) = Ok 200
  ∧ match event_kind <$> last (view_log (store reported) (mkExecutionId 0)) with
    | Some (EventKind.NodeCompleted n _ patch _ _ _ _ _ _ _ _ (Some _)) =>
        n = "pay" ∧ patch = obj [("y", num 2)]
    | _ => False
    end
  ∧ is_ok (report reported).1 = true ∧ (fst <$> (report reported).1) ≠ Ok 200.
Proof. vm_compute. split_and!; done. Qed.
End WorkerSample.
