(* ===== verification/ApiCorrect.v ===== *)
(** * What the API's front lets through ([api/src/auth.rs], [routes.rs])

    The access matrix of the layers, what registering a workflow stores, and
    what starting a run creates. *)

From S2P Require Import Prelude.
From S2P Require Import Json.
From S2P Require Import RustStr.
From S2P Require Import Core.
From S2P Require Import Condition.
From S2P Require Import Ir.
From S2P Require Import Event.
From S2P Require Import Materializer.
From S2P Require Import Budget.
From S2P Require Import Hashing.
From S2P Require Import Approvals.
From S2P Require Import Backend.
From S2P Require Import Journal.
From S2P Require Import Memory.
From S2P Require Import Progress.
From S2P Require Import Scheduler.
From S2P Require Import Policy.
From S2P Require Import ToolDispatch.
From S2P Require Import AgentLimits.
From S2P Require Import AgentSteps.
From S2P Require Import Agents.
From S2P Require Import DispatchGuard.
From S2P Require Import NodeGuard.
From S2P Require Import GuardCorrect.
From S2P Require Import ApiAuth.
From S2P Require Import ApiRoutes.
From S2P Require Import ApiWorker.
From S2P Require Import Lease.
From S2P Require Import History.
From S2P Require Import MemoryLaws.
From S2P Require Import GuardSound.
From S2P Require Import ApiWorkerCorrect.

(** ** Access *)

(** Reads are open to every role, decisions on approvals to reviewers and up,
    other writes to developers and operators, the operator routes to operators. *)
Definition approves (rq : HttpRequest) : Prop :=
  rq_method rq = "POST" ∧ rq_route rq = Some APPROVE_ROUTE.

Definition permitted (rq : HttpRequest) (role : Role.Role) : Prop :=
  (is_mutating (rq_method rq) = true → approves rq → role ≠ Role.Viewer)
  ∧ (is_mutating (rq_method rq) = true → ¬ approves rq → role = Role.Developer ∨ role = Role.Operator)
  ∧ ∀ r, rq_route rq = Some r → r ∈ operator_routes → role = Role.Operator.

#[export] Instance role_eq_dec : EqDecision Role.Role.
Proof. solve_decision. Defined.

Lemma write_role_ok rq t :
  require_write_role rq (Some t) = Ok tt ↔
  (is_mutating (rq_method rq) = true → approves rq → Role.parse_role (tok_role t) ≠ Role.Viewer)
  ∧ (is_mutating (rq_method rq) = true → ¬ approves rq →
     Role.parse_role (tok_role t) = Role.Developer ∨ Role.parse_role (tok_role t) = Role.Operator).
Proof.
  unfold require_write_role, approves. destruct (is_mutating _); [|naive_solver].
  destruct (decide (rq_method rq = "POST")) as [Hm|Hm], (decide (rq_route rq = Some APPROVE_ROUTE)) as [Hr|Hr];
    rewrite ?(bool_decide_eq_true_2 _ Hm), ?(bool_decide_eq_false_2 _ Hm),
      ?(bool_decide_eq_true_2 _ Hr), ?(bool_decide_eq_false_2 _ Hr); simpl;
    destruct (Role.parse_role (tok_role t)); simpl; naive_solver.
Qed.

Lemma admit_token_ok t as_default t' :
  admit_token t as_default = Ok t' ↔
  (tok_tenant_id t = DEFAULT_TENANT ∨ as_default = true) ∧ t' = with_tenant t DEFAULT_TENANT.
Proof.
  unfold admit_token. case_decide as Ht.
  - assert (with_tenant t DEFAULT_TENANT = t) as -> by (destruct t; by simplify_eq/=).
    split; [intros [= <-]; by auto|by intros [_ ->]].
  - destruct as_default; naive_solver.
Qed.

Lemma operator_role_ok t :
  require_operator_role t = Ok tt ↔ Role.parse_role (tok_role t) = Role.Operator.
Proof. unfold require_operator_role. by destruct (Role.parse_role _). Qed.

Lemma role_with_tenant t tenant : tok_role (with_tenant t tenant) = tok_role t.
Proof. done. Qed.

(** The layers' role checks are the matrix. *)
Lemma permitted_ok rq t :
  permitted rq (Role.parse_role (tok_role t)) ↔
  require_write_role rq (Some t) = Ok tt
  ∧ match rq_route rq with
    | Some r => if decide (r ∈ operator_routes) then require_operator_role t else Ok tt
    | None => Ok tt
    end = Ok tt.
Proof.
  rewrite write_role_ok. unfold permitted.
  destruct (rq_route rq) as [r|]; [case_decide as Hr; [rewrite operator_role_ok|]|];
    split; [naive_solver| |naive_solver| |naive_solver|];
    intros [[Hw1 Hw2] Hop]; split_and!; try done; naive_solver.
Qed.

Section Access.
Context {S : Type} `{HB : StateBackend S}.

(** Outside dev mode a request passes the layers exactly when its bearer token
    is valid, is of the default tenant (or the deployment takes foreign tokens
    as its own), and its role may do what the route does; the handler then sees
    the default tenant and that token, and no dev marker. *)
Theorem authorize_correct (as_default : bool) (rq : HttpRequest) (w : world S) (c : Caller) :
  (authorize false as_default rq w).1 = Ok c ↔
  ∃ bearer token,
    extract_bearer (rq_authorization rq) = Some bearer
    ∧ (validate_token bearer w).1 = Ok (Some token)
    ∧ (tok_tenant_id token = DEFAULT_TENANT ∨ as_default = true)
    ∧ permitted rq (Role.parse_role (tok_role token))
    ∧ c = {| cl_tenant := mkTenantId DEFAULT_TENANT;
             cl_token := Some (with_tenant token DEFAULT_TENANT); cl_dev := false |}.
Proof.
  unfold authorize, require_auth, mbind, eff_bind, with_err.
  destruct (extract_bearer _) as [bearer|]; [|split; [done|by intros (? & ? & ? & _)]].
  destruct (validate_token bearer w) as [[[t|]|e] w1] eqn:Hv; cbn.
  2,3: split; [done|]; intros (b & t & [= <-] & Ht & _); by rewrite Hv in Ht.
  assert (∀ b t', Some bearer = Some b → (validate_token b w).1 = Ok (Some t') → t' = t) as Huniq.
  { intros b t' [= <-]. rewrite Hv. by intros [= ->]. }
  destruct (admit_token t as_default) as [t'|r] eqn:Ha; cbn.
  - apply admit_token_ok in Ha as [Htn ->].
    pose proof (permitted_ok rq (with_tenant t DEFAULT_TENANT)) as Hp.
    rewrite role_with_tenant in Hp.
    destruct (require_write_role _ _) as [[]|r1] eqn:Hw; cbn.
    2: { split; [done|]. intros (b & t' & Hb & Ht & _ & Hperm & _).
         rewrite (Huniq _ _ Hb Ht) in Hperm. apply Hp in Hperm as [? _]. done. }
    destruct (match rq_route rq with Some _ => _ | None => _ end) as [[]|r1] eqn:Ho; cbn.
    2: { split; [done|]. intros (b & t' & Hb & Ht & _ & Hperm & _).
         rewrite (Huniq _ _ Hb Ht) in Hperm. apply Hp in Hperm as [_ ?]. done. }
    split.
    + intros [= <-]. exists bearer, t. rewrite Hv. split_and!; try done. by apply Hp.
    + intros (b & t' & Hb & Ht & _ & _ & ->). by rewrite (Huniq _ _ Hb Ht).
  - split; [done|]. intros (b & t' & Hb & Ht & Htn & _). rewrite (Huniq _ _ Hb Ht) in Htn.
    assert (admit_token t as_default = Ok (with_tenant t DEFAULT_TENANT)) as Hok
      by (by apply admit_token_ok). congruence.
Qed.
End Access.

(** ** Registering a workflow *)

(** What the API requires of a definition before it stores it. Edges,
    reachability and references are not among it: those are the compiler's. *)
Record registrable `{!JsonText} (ir : WorkflowIr) : Prop := {
  reg_nodes : ∀ key n, nodes ir !! key = Some n →
    key = id n ∧ valid_node_id key = true ∧ dispatch_marked (kind n)
    ∧ (∀ branches b expr, kind n = NodeKind.Condition branches → b ∈ branches →
         condition b = Some expr → validate_expression expr = Ok tt)
    ∧ (∀ q h o, kind n = NodeKind.ExternalFn q h o → queue_name_refusal q = None)
    ∧ (∀ p, nd_policy n = Some p → validate_approval_deadline p = Ok tt);
  reg_policy : ∀ p, policy ir = Some p → validate_approval_deadline p = Ok tt;
}.

Lemma registration_rules_ok `{!JsonText, !IterOrder string} ir :
  registration_rules ir = Ok tt ↔ registrable ir.
Proof.
  assert (∀ (r : IrResult) (k : IrResult), (r ≫= λ _, k) = Ok tt ↔ r = Ok tt ∧ k = Ok tt) as Hseq.
  { intros [[]|e] k; cbn; naive_solver. }
  unfold registration_rules. rewrite !Hseq, validate_agent_tool_dispatch_ok,
    validate_condition_expressions_ok, validate_external_queues_ok, validate_node_ids_ok,
    validate_approval_deadlines_ok. split.
  - intros (Hd & Hc & Hq & Hi & Hp & Hnp). split; [|done]. intros key n Hn.
    destruct (Hi _ _ Hn). split_and!; naive_solver.
  - intros [Hn Hp]. split_and!; try done; intros key n; intros; edestruct Hn as (? & ? & ? & ? & ? & ?);
      try done; naive_solver.
Qed.

Section Starts.
Context `{!UuidOps, !ChronoOps, !JsonText, !Sha256Ops, !IterOrder string, !GuardSerde, !ApiSerde}
  {S : Type} `{HL : StateBackendLaws S}.

(** Registering stores at most one definition: one whose id and version were
    free and which every rule accepts. An identical resubmission answers 200, a
    different definition under a registered version is refused, and either way
    nothing is written. *)
Theorem create_workflow_correct (tenant_id : TenantId) (ir : Value) (w : world S) :
  let '(r, w') := create_workflow tenant_id ir w in
  (w' = w ∧ ∀ st v, r = Ok (st, v) →
     st = 200 ∧ ∃ id version existing, str_field "workflow_id" ir = Some id
       ∧ str_field "version" ir = Some version
       ∧ (get_workflow id version w).1 = Ok (Some existing)
       ∧ content_hash (wd_ir existing) = content_hash ir)
  ∨ ∃ def parsed, str_field "workflow_id" ir = Some (wd_workflow_id def)
      ∧ str_field "version" ir = Some (wd_version def) ∧ wd_ir def = ir
      ∧ (get_workflow (wd_workflow_id def) (wd_version def) w).1 = Ok None
      ∧ ir_from_value ir = Ok parsed ∧ registrable parsed ∧ refuse_retired_timeouts ir = Ok tt
      ∧ w' = (store_workflow def w).2
      ∧ (is_ok (store_workflow def w).1 = true ↔ ∃ v, r = Ok (201, v)).
Proof.
  destruct (create_workflow tenant_id ir w) as [r w'] eqn:Hrun. unfold create_workflow in Hrun.
  rewrite !of_result_run in Hrun.
  destruct (str_field "workflow_id" ir) as [wid|]; [|injection Hrun as <- <-; by left].
  cbn [ok_or] in Hrun. rewrite of_result_run in Hrun.
  destruct (str_field "version" ir) as [ver|]; [|injection Hrun as <- <-; by left].
  cbn [ok_or] in Hrun. rewrite of_result_run in Hrun.
  destruct (ir_from_value ir) as [parsed|]; [|injection Hrun as <- <-; by left].
  cbn [map_err] in Hrun. rewrite of_result_run in Hrun.
  destruct (registration_rules parsed) as [[]|] eqn:Hreg; [|injection Hrun as <- <-; by left].
  apply registration_rules_ok in Hreg. cbn [map_err] in Hrun. unfold api in Hrun.
  pose proof (law_get_workflow wid ver w) as Hread.
  destruct (get_workflow wid ver w) as [[existing|e] w1] eqn:Hget; simpl in Hread; subst w1;
    rewrite (with_err_run _ _ _ _ _ _ Hget) in Hrun; [|injection Hrun as <- <-; by left].
  destruct existing as [existing|].
  { left. destruct (same_definition _ _) eqn:Hsame; injection Hrun as <- <-; [|done].
    split; [done|]. intros st v [= <- _]. split; [done|]. exists wid, ver, existing.
    rewrite Hget. split_and!; try done. by apply bool_decide_eq_true in Hsame. }
  rewrite of_result_run in Hrun.
  destruct (refuse_retired_timeouts ir) as [[]|]; [|injection Hrun as <- <-; by left].
  cbn [map_err] in Hrun. rewrite bind_now in Hrun. right.
  match type of Hrun with context [store_workflow ?d] => exists d, parsed;
    destruct (store_workflow d w) as [[u|e] w2] eqn:Hst end;
    rewrite (with_err_run _ _ _ _ _ _ Hst) in Hrun; injection Hrun as <- <-; cbn;
    rewrite Hget; split_and!; try done; naive_solver.
Qed.

(** ** Starting a run *)

Lemma insert_opt_ne k k' v m : k ≠ k' → map_get k (insert_opt k' v m) = map_get k m.
Proof. intros Hne. destruct v; [by apply map_get_insert_ne|done]. Qed.

(** A payload keeps the coordinates of the workflow it was built for. *)
Lemma payload_coordinates ir n node state wid ver :
  let p := build_work_item_payload ir n node state wid ver in
  get "workflow_id" p = Some (Str wid) ∧ get "workflow_version" p = Some (Str ver)
  ∧ get "node_id" p = Some (Str n).
Proof.
  intros p. subst p. unfold build_work_item_payload, get. cbv zeta.
  set (base := map_of _).
  assert (map_get "workflow_id" base = Some (Str wid)
    ∧ map_get "workflow_version" base = Some (Str ver)
    ∧ map_get "node_id" base = Some (Str n)) as Hbase by done.
  destruct (kind node); try exact Hbase; repeat case_match;
    repeat first [rewrite insert_opt_ne by done|rewrite map_get_insert_ne by done]; exact Hbase.
Qed.

(** [v] is [v0] without the one key the engine keeps to itself: no other field of
    an object is lost or changed, and what is no object is left alone. *)
Definition without_engine_keys (v0 v : Value) : Prop :=
  (is_object v0 = false → v = v0)
  ∧ is_object v = is_object v0
  ∧ ∀ k, get k v = if decide (k = "__budget") then None else get k v0.

Lemma action_state_spec v : without_engine_keys v (action_state v).
Proof.
  destruct v as [| | | | |m]; split_and!; try done; try (intros k; by case_decide).
  intros k. apply map_get_remove.
Qed.

Context `{!WorkItemLaws S}.

(** The row, the item and the two first events of a run just started. *)
Definition run_started (s s' : S) (exec : WorkflowExecution) (item : WorkItem)
    (started scheduled : EventKind) : Prop :=
  (∀ i, view_execution s' i =
     if decide (i = execution_id exec) then Some exec else view_execution s i)
  ∧ (∀ i, view_items s' i = if decide (i = wi_id item) then Some item else view_items s i)
  ∧ (∀ i, i ≠ execution_id exec → view_log s' i = view_log s i)
  ∧ ∃ e1 e2, view_log s' (execution_id exec) = view_log s (execution_id exec) ++ [e1; e2]
      ∧ event_kind e1 = started ∧ event_kind e2 = scheduled.

(** The ids still to be drawn are new: no two alike, and none names a run, a log or
    a work item. *)
Definition run_ids_fresh (w : world S) : Prop :=
  draws_apart (draws w)
  ∧ ∀ d, (draws w ≤ d)%N → view_execution (store w) (mkExecutionId (uuid_v4 d)) = None
      ∧ view_log (store w) (mkExecutionId (uuid_v4 d)) = []
      ∧ view_items (store w) (uuid_v4 d) = None.

(** The run's row: of this workflow, running, on [input], its segment 0. *)
Record row_for (exec : WorkflowExecution) (wid ver : string) (input : Value) (now : DateTime)
    : Prop := {
  rf_workflow : workflow_id exec = wid ∧ workflow_version exec = ver;
  rf_running : status exec = WorkflowStatus.Running ∧ completed_at exec = None;
  rf_input : without_engine_keys input (initial_input exec);
  rf_state : current_state exec = initial_input exec;
  rf_times : started_at exec = now ∧ updated_at exec = now;
  rf_segment : segment_number exec = 0 ∧ parent_execution_id exec = None;
}.

(** The work item of its start node: unclaimed, before its first attempt, its
    payload the scheduler's for that node, which carries the coordinates. *)
Record start_item_for (item : WorkItem) (exec : WorkflowExecution) (ir : WorkflowIr)
    (start : string) (start_def : NodeDef) (tenant_id : TenantId) : Prop := {
  sf_run : wi_execution_id item = execution_id exec;
  sf_node : wi_node_id item = start;
  sf_queue : queue_type item = queue_name start_def;
  sf_payload : payload item = build_work_item_payload ir start start_def
    (default [] (as_object (initial_input exec))) (workflow_id exec) (workflow_version exec);
  sf_workflow : get "workflow_id" (payload item) = Some (Str (workflow_id exec));
  sf_version : get "workflow_version" (payload item) = Some (Str (workflow_version exec));
  sf_node_named : get "node_id" (payload item) = Some (Str start);
  sf_attempts : attempt item = 0 ∧ max_attempts item = max_attempts_for (retry_policy start_def);
  sf_unclaimed : worker_id item = None ∧ lease_expires_at item = None ∧ lease_fence item = 0;
  sf_tenant : wi_tenant_id item = tenant_str tenant_id;
}.

(** C29: Starting a run either refuses and changes nothing of the store, or leaves
    all of it at once. The definition is the one registered under the id and the
    version, [1.0.0] where none is named. The run's row is running on the caller's
    input, which loses the engine's key [__budget] and nothing else. The log gains
    the start, with that same input and the caller, and the scheduling of the start
    node. The one work item is the start node's, unclaimed, on the node's queue, for
    the caller's tenant, and its payload carries the workflow's id and version and
    the node. Run and item have the ids drawn next; if what is still to be drawn is
    new, which random ids are and which is the one thing assumed for it, the two
    differ and neither named a run, a log or an item before. No other run, log or
    item changes, and the answer is 201 with the run's id. *)
Theorem start_run_correct (tenant_id : TenantId) (wid : string) (ver : option string)
    (input : Value) (by_ : option string) (w : world S) :
  let '(r, w') := start_run tenant_id wid ver input by_ w in
  match r with
  | Err _ => store w' = store w
  | Ok a =>
      ∃ def ir start start_def exec item,
        let version := default "1.0.0" ver in
        (get_workflow wid version w).1 = Ok (Some def)
        ∧ ir_from_value (wd_ir def) = Ok ir
        ∧ start = default "start" (str_field "start_node" (wd_ir def))
        ∧ node ir start = Some start_def
        ∧ row_for exec wid version input (clock w)
        ∧ start_item_for item exec ir start start_def tenant_id
        ∧ run_started (store w) (store w') exec item
            (EventKind.WorkflowStarted wid version (initial_input exec) by_)
            (EventKind.NodeScheduled start (queue_type item))
        ∧ exec_uuid (execution_id exec) = uuid_v4 (draws w)
        ∧ wi_id item = uuid_v4 (N.succ (draws w))
        ∧ (run_ids_fresh w → wi_id item ≠ exec_uuid (execution_id exec)
           ∧ view_execution (store w) (execution_id exec) = None
           ∧ view_log (store w) (execution_id exec) = []
           ∧ view_items (store w) (wi_id item) = None)
        ∧ a = (201, obj [("execution_id", Str (ExecutionId_display (execution_id exec)))])
  end.
Proof.
  destruct (start_run tenant_id wid ver input by_ w) as [r w'] eqn:Hrun.
  unfold start_run, api in Hrun. cbv zeta in Hrun. set (version := default "1.0.0" ver) in *.
  pose proof (law_get_workflow wid version w) as Hread.
  destruct (get_workflow wid version w) as [[found|e] w1] eqn:Hget; simpl in Hread; subst w1;
    rewrite (with_err_run _ _ _ _ _ _ Hget) in Hrun; [|by injection Hrun as <- <-].
  rewrite of_result_run in Hrun. destruct found as [def|]; [|by injection Hrun as <- <-].
  cbn [ok_or] in Hrun. set (start := default "start" _) in *.
  rewrite bind_now, bind_new_v4 in Hrun. rewrite of_result_run in Hrun.
  destruct (ir_from_value (wd_ir def)) as [ir|e] eqn:Hir; [|by injection Hrun as <- <-].
  cbn [map_err] in Hrun. rewrite of_result_run in Hrun.
  destruct (node ir start) as [start_def|] eqn:Hnode; [|by injection Hrun as <- <-].
  cbn [ok_or] in Hrun. rewrite bind_new_v4 in Hrun.
  match type of Hrun with context [start_execution_atomic ?ex ?k1 ?k2 ?it] =>
    set (exec := ex) in *; set (item := it) in * end.
  match type of Hrun with context [with_err _ ?m ≫= _] =>
    match type of Hrun with (_ ?w1 = _) => destruct (m w1) as [r1 w2] eqn:Hstart end end.
  rewrite (with_err_run _ _ _ _ _ _ Hstart) in Hrun.
  apply law_start_execution in Hstart as (-> & Hex & Hit & Hlo & He). cbn [store] in *.
  injection Hrun as <- <-. exists def, ir, start, start_def, exec, item.
  destruct (payload_coordinates ir start start_def (default [] (as_object (action_state input)))
    wid version) as (Hp1 & Hp2 & Hp3).
  split_and!; try done.
  - by rewrite Hget.
  - split; try done. apply action_state_spec.
  - intros [Hapart Hnew]. destruct (Hnew (draws w)) as (? & ? & _); [lia|].
    destruct (Hnew (N.succ (draws w))) as (_ & _ & ?); [lia|]. split_and!; try done.
    cbn. intros Heq%Hapart; lia.
Qed.
End Starts.

(** ** A registration and a start on the in-memory backend *)
Module StartSample.
#[local] Existing Instances plain_uuid milli_chrono code_json plain_sha256 GuardSample.plain_serde.
#[local] Existing Instances Sample.order_exec Sample.order_item Sample.order_tenant
  Sample.order_pair.
#[local] Existing Instances WorkerSample.order_string WorkerSample.flow_serde.

Definition register : eff InMemoryBackend ApiError (Z * Value) :=
  create_workflow (mkTenantId "default") WorkerSample.raw_flow.

(** Registered once; the same definition again is answered, not stored. *)
Lemma create_witness :
  (∃ def, wd_ir def = WorkerSample.raw_flow ∧ (register start_world).2 = (store_workflow def start_world).2)
  ∧ let w := (register start_world).2 in (register w).2 = w.
Proof.
  assert (match (register start_world).1 with Ok (201, _) => true | _ => false end = true) as Hnew
    by (vm_compute; reflexivity).
  assert (match (register (register start_world).2).1 with Ok (200, _) => true | _ => false end = true)
    as Hagain by (vm_compute; reflexivity).
  cbv zeta. split.
  - pose proof (create_workflow_correct (mkTenantId "default") WorkerSample.raw_flow start_world) as H.
    fold register in H. destruct (register start_world) as [r w']. cbn [fst snd] in *.
    destruct H as [[_ H]|(def & p & H)].
    + destruct r as [[st v]|e]; [|discriminate Hnew]. destruct (H st v eq_refl) as [-> _].
      discriminate Hnew.
    + exists def. tauto.
  - pose proof (create_workflow_correct (mkTenantId "default") WorkerSample.raw_flow
      (register start_world).2) as H.
    fold register in H. destruct (register (register start_world).2) as [r w']. cbn [fst snd] in *.
    destruct H as [[-> _]|(def & p & H)]; [done|].
    destruct H as (Hid & Hver & _ & Hfree & _). exfalso.
    change (Some "w" = Some (wd_workflow_id def)) in Hid. injection Hid as Hid.
    change (Some "1.0.0" = Some (wd_version def)) in Hver. injection Hver as Hver.
    rewrite <- Hid, <- Hver in Hfree. vm_compute in Hfree. discriminate Hfree.
Defined.

(** The run [WorkerSample] starts, as the theorem has it, with an input that holds
    the engine's key; the ids it draws are new. *)
Definition hidden_input : Value := obj [("__budget", num 9); ("x", num 1)].
Lemma ids_fresh_registered : run_ids_fresh WorkerSample.registered.
Proof.
  split; [by intros d d' _ _ Heq|]. intros d _.
  assert (executions (store WorkerSample.registered) = ∅
    ∧ events (store WorkerSample.registered) = ∅
    ∧ work_items (store WorkerSample.registered) = ∅) as (He & Hl & Hi) by (vm_compute; done).
  split_and!; cbn [view_execution view_log view_items]; cbn; unfold log_of;
    rewrite ?He, ?Hl, ?Hi; by rewrite lookup_empty.
Qed.

Lemma start_witness :
  ∃ ir sd exec item, row_for exec "w" "1.0.0" hidden_input (clock WorkerSample.registered)
    ∧ initial_input exec = obj [("x", num 1)]
    ∧ start_item_for item exec ir "pay" sd (mkTenantId "default")
    ∧ view_items (store WorkerSample.registered) (wi_id item) = None
    ∧ run_started (store WorkerSample.registered)
        (store (start_run (mkTenantId "default") "w" None hidden_input None
           WorkerSample.registered).2) exec item
        (EventKind.WorkflowStarted "w" "1.0.0" (obj [("x", num 1)]) None)
        (EventKind.NodeScheduled "pay" (queue_type item)).
Proof.
  pose proof (start_run_correct (mkTenantId "default") "w" None hidden_input None
    WorkerSample.registered) as H.
  assert (∃ e, view_execution (store (start_run (mkTenantId "default") "w" None hidden_input None
      WorkerSample.registered).2) (mkExecutionId (uuid_v4 (draws WorkerSample.registered)))
    = Some e ∧ initial_input e = obj [("x", num 1)]) as (e & He & Hin).
  { vm_compute. eexists. split; reflexivity. }
  assert (is_ok (start_run (mkTenantId "default") "w" None hidden_input None
    WorkerSample.registered).1 = true) as Hok by (vm_compute; reflexivity).
  destruct (start_run _ _ _ _ _ WorkerSample.registered) as [[a|err] w']; [|discriminate Hok].
  destruct H as (def & ir & start & sd & exec & item & Hdef & Hir & -> & Hnode & Hrow & Hitem & Hrun
    & Hid & _ & Hfresh & _).
  assert (default "start" (str_field "start_node" (wd_ir def)) = "pay") as Hstart.
  { vm_compute in Hdef. by injection Hdef as <-. }
  rewrite Hstart in *. destruct Hrun as (Hex & Hrun). cbn [snd] in *.
  rewrite Hex, decide_True in He by (rewrite <- Hid; by destruct (execution_id exec)).
  injection He as ->. rewrite Hin in Hrun.
  exists ir, sd, e, item. split; [exact Hrow|]. split; [exact Hin|]. split; [exact Hitem|].
  split; [apply Hfresh, ids_fresh_registered|exact (conj Hex Hrun)].
Defined.
End StartSample.
