(* ===== verification/CronApi.v ===== *)
(** * Cron jobs over HTTP, and the runs they start ([api/src/cron.rs])

    The three handlers over the job table, and the launcher that starts a job's
    run inside the server, through [start_run]. *)

From S2P Require Import Prelude.
From S2P Require Import Json.
From S2P Require Import RustStr.
From S2P Require Import Core.
From S2P Require Import Condition.
From S2P Require Import Ir.
From S2P Require Import Event.
From S2P Require Import Hashing.
From S2P Require Import Approvals.
From S2P Require Import Backend.
From S2P Require Import DispatchGuard.
From S2P Require Import Sql.
From S2P Require Import Sqlite.
From S2P Require Import Cron.
From S2P Require Import Timers.
From S2P Require Import ApiAuth.
From S2P Require Import ApiRoutes.

Record CreateCronRequest := {
  cq_name : string; cq_cron_expression : string; cq_workflow_id : string;
  cq_workflow_version : option string; cq_input : option Value; cq_enabled : option bool;
}.

Definition TENANT_TOKENS_AS_DEFAULT_ENV : string := "JAMJET_TENANT_TOKENS_AS_DEFAULT".

(** The tenant a job's run starts in. *)
Definition cron_run_tenant (job_tenant : string) (as_default : bool) : result string TenantId :=
  if bool_decide (job_tenant = DEFAULT_TENANT) || as_default then Ok (mkTenantId DEFAULT_TENANT)
  else Err ("cron job in tenant " +:+ job_tenant
    +:+ " not started: this runtime is single-tenant and runs every workflow in tenant default (set "
    +:+ TENANT_TOKENS_AS_DEFAULT_ENV +:+ "=1 to run it in default)").

Section Handlers.
Context `{!UuidOps, !ChronoOps, !JsonText, !Sha256Ops, !IterOrder string, !GuardSerde, !ApiSerde,
  !SqlOps, !RowSerde, !CalendarOps} {S : Type} `{HB : StateBackend S}.
Abbreviation Ans A := (eff (Timed S) ApiError A).

(** [state.cron_store]: present on the SQLite backend. *)
Variable cron_store : bool.

Definition cron_store_of : Ans unit :=
  if cron_store then mret tt
  else raise (ApiError.BadRequest "cron scheduling requires the sqlite backend").

Definition create_cron (tenant_id : TenantId) (caller : option ApiToken) (dev : bool)
    (body : CreateCronRequest) : Ans (Z * Value) :=
  cron_store_of ≫= λ _,
  created_by ← match caller with
    | Some token => mret (Some (principal_of token))
    | None => if dev then mret None else raise ApiError.Unauthorized
    end;
  let version := default "0.1.0" (cq_workflow_version body) in
  found ← on_inner ApiError.of_backend (get_workflow (cq_workflow_id body) version);
  _ ← of_result (ok_or (ApiError.BadRequest ("workflow " +:+ cq_workflow_id body +:+ " v" +:+ version
    +:+ " is not registered")) found);
  now ← utc_now;
  next ← of_result (map_err (λ e, ApiError.BadRequest ("invalid cron expression: " +:+ e))
    (cron_next (cq_cron_expression body) now));
  id ← new_v4; created ← utc_now;
  let job := {|
    cj_id := id; cj_name := cq_name body; cron_expression := cq_cron_expression body;
    cj_workflow_id := cq_workflow_id body; cj_workflow_version := version;
    cj_input := default (obj []) (cq_input body); enabled := default true (cq_enabled body);
    last_run_at := None; next_run_at := next; cj_created_at := created; created_by := created_by;
    cj_tenant_id := tenant_str tenant_id |} in
  with_err ApiError.Internal (upsert_job job) ≫= λ _,
  mret (201, obj [("name", Str (cj_name job)); ("next_run_at", Str (rfc3339 next))]).

(** The jobs, which the answer lists as JSON. *)
Definition list_cron (tenant_id : TenantId) : Ans (list CronJob) :=
  cron_store_of ≫= λ _, with_err ApiError.Internal (list_for_tenant (tenant_str tenant_id)).

Definition delete_cron (tenant_id : TenantId) (name : string) : Ans Value :=
  cron_store_of ≫= λ _,
  with_err ApiError.Internal (delete_job (tenant_str tenant_id) name) ≫= λ _,
  mret (obj [("name", Str name); ("deleted", Bool true)]).

(** [Display for ApiError]. *)
Definition ApiError_display (e : ApiError) : string :=
  match e with
  | ApiError.NotFound m => "not found: " +:+ m
  | ApiError.BadRequest m => "bad request: " +:+ m
  | ApiError.Conflict m => "conflict: " +:+ m
  | ApiError.Internal m => "internal error: " +:+ m
  | ApiError.Unauthorized => "unauthorized"
  | ApiError.Forbidden m => "forbidden: " +:+ m
  end.

(** [InProcessCronLauncher]; [as_default] is the opt-out of the environment. *)
Definition launcher_start (as_default : bool) (job : CronJob) : eff S string unit :=
  tenant ← of_result (cron_run_tenant (cj_tenant_id job) as_default);
  with_err ApiError_display (start_run tenant (cj_workflow_id job) (Some (cj_workflow_version job))
    (cj_input job) (created_by job)) ≫= λ _, mret tt.

(** The scheduler as the server runs it. *)
Definition server_cron_tick (as_default : bool) : eff (Timed S) string unit :=
  cron_tick (launcher_start as_default).
End Handlers.
