(* ===== verification/CronApiCorrect.v ===== *)
(** * What the cron handlers leave ([api/src/cron.rs])

    Each acts on its caller's tenant alone, a job names who created it, and the
    run a job starts has that creator as its initiator. *)

From S2P Require Import Prelude.
From S2P Require Import Json.
From S2P Require Import RustStr.
From S2P Require Import Core.
From S2P Require Import Condition.
From S2P Require Import Ir.
From S2P Require Import Event.
From S2P Require Import Hashing.
From S2P Require Import Approvals.
From S2P Require Import Backend.
From S2P Require Import Memory.
From S2P Require Import Lease.
From S2P Require Import DispatchGuard.
From S2P Require Import GuardSound.
From S2P Require Import MemoryLaws.
From S2P Require Import Sql.
From S2P Require Import Sqlite.
From S2P Require Import Cron.
From S2P Require Import Timers.
From S2P Require Import TenantIsolation.
From S2P Require Import TimersCorrect.
From S2P Require Import ApiAuth.
From S2P Require Import ApiRoutes.
From S2P Require Import ApiWorkerCorrect.
From S2P Require Import CronApi.

Section Correct.
Context `{!UuidOps, !ChronoOps, !JsonText, !Sha256Ops, !IterOrder string, !GuardSerde, !ApiSerde,
  !SqlOps, !RowSerde, !CalendarOps} {S : Type} `{HB : StateBackend S, HV : !BackendView S,
  HL : !StateBackendLaws S}.

(** Only rows of [tenant] may differ. *)
Definition tenant_only (tenant : string) (l l' : list CronRow) : Prop :=
  base.filter (λ r, cr_tenant_id r ≠ tenant) l' = base.filter (λ r, cr_tenant_id r ≠ tenant) l.

(** Only rows of that tenant under that name may differ. *)
Definition job_only (tenant name : string) (l l' : list CronRow) : Prop :=
  base.filter (λ r, ¬ (cr_tenant_id r = tenant ∧ cr_name r = name)) l'
  = base.filter (λ r, ¬ (cr_tenant_id r = tenant ∧ cr_name r = name)) l.

Lemma job_tenant_only tenant name l l' : job_only tenant name l l' → tenant_only tenant l l'.
Proof.
  unfold job_only, tenant_only. intros Heq.
  assert (∀ l0 : list CronRow, base.filter (λ r, cr_tenant_id r ≠ tenant) l0
    = base.filter (λ r, cr_tenant_id r ≠ tenant)
        (base.filter (λ r, ¬ (cr_tenant_id r = tenant ∧ cr_name r = name)) l0)) as Hff.
  { intros l0. rewrite list_filter_filter. apply list_filter_iff. naive_solver. }
  by rewrite (Hff l'), Heq, <- Hff.
Qed.

(** The row of a request: every column, a workflow version of [0.1.0], an empty
    input and an enabled job where the request leaves them out. *)
Record requested (tenant : TenantId) (caller : option ApiToken) (body : CreateCronRequest)
    (now next : DateTime) (row : CronRow) : Prop := {
  rq_name : cr_name row = cq_name body;
  rq_expression : cr_cron_expression row = cq_cron_expression body;
  rq_workflow : cr_workflow_id row = cq_workflow_id body
    ∧ cr_workflow_version row = default "0.1.0" (cq_workflow_version body);
  rq_input : cr_input_json row
    = json_to_string match cq_input body with Some v => v | None => Object [] end;
  rq_enabled : cr_enabled row = match cq_enabled body with Some false => 0 | _ => 1 end;
  rq_times : cr_last_run_at row = None ∧ cr_created_at row = rfc3339 now;
  rq_next : cron_next (cq_cron_expression body) now = Ok next ∧ cr_next_run_at row = rfc3339 next;
  rq_owner : cr_tenant_id row = tenant_str tenant ∧ cr_created_by row = principal_of <$> caller;
}.

Lemma filter_empty {A} (P : A → Prop) `{∀ x, Decision (P x)} (l : list A) :
  (∀ x, x ∈ l → ¬ P x) → base.filter P l = [].
Proof.
  intros Hn. destruct (base.filter P l) as [|x l'] eqn:Hf; [done|].
  assert (x ∈ base.filter P l) as [? ?]%list_elem_of_filter by (rewrite Hf; left). by destruct (Hn x).
Qed.

Lemma job_tenant row job : row_to_cron row = Ok job → cj_tenant_id job = cr_tenant_id row.
Proof. unfold row_to_cron. intros Hr. do 4 (apply result_bind_inv in Hr as (? & _ & Hr)). by injection Hr as <-. Qed.

Lemma upsert_elsewhere (row : CronRow) (l : list CronRow) :
  (∀ r, r ∈ l → cr_id r ≠ cr_id row) →
  job_only (cr_tenant_id row) (cr_name row) l
    (base.filter (λ r, cron_clash row r = false) l ++ [row]).
Proof.
  intros Hid. unfold job_only. rewrite filter_app, filter_cons_False by (intros Hn; by apply Hn).
  rewrite filter_nil, app_nil_r, list_filter_filter.
  induction l as [|r l IH]; [done|]. rewrite !filter_cons.
  assert (cr_id row ≠ cr_id r) as Hr by (intros Heq; by eapply Hid; [left|]).
  rewrite IH by (intros; apply Hid; by right).
  assert (cron_clash row r = false ↔ ¬ (cr_tenant_id r = cr_tenant_id row ∧ cr_name r = cr_name row))
    as Hclash.
  { unfold cron_clash. rewrite orb_false_iff, !bool_decide_eq_false. naive_solver. }
  repeat case_decide; naive_solver.
Qed.

Lemma on_inner_read {E F A} (f : E → F) (m : eff S E A) (w : world (Timed S)) :
  (∀ w0, (m w0).2 = w0) →
  on_inner f m w = (map_err f (m (World (inner (store w)) (clock w) (draws w))).1, w).
Proof.
  intros Hm. unfold on_inner. specialize (Hm (World (inner (store w)) (clock w) (draws w))).
  destruct (m _) as [r w0]. cbn in Hm. subst w0. by destruct w as [[] ? ?].
Qed.

Lemma rows_named row (l : list CronRow) :
  base.filter (λ r, cr_tenant_id r = cr_tenant_id row ∧ cr_name r = cr_name row)
    (base.filter (λ r, cron_clash row r = false) l ++ [row]) = [row].
Proof.
  rewrite filter_app, filter_cons_True by done. rewrite filter_nil.
  replace (base.filter _ (base.filter _ l)) with (@nil CronRow); [done|]. symmetry.
  apply filter_empty. intros r [Hc Hr]%list_elem_of_filter [Ht Hn].
  unfold cron_clash in Hc. apply orb_false_iff in Hc as [_ Hc%bool_decide_eq_false]. naive_solver.
Qed.

Lemma upsert_rows job (w : world (Timed S)) :
  (∀ r, r ∈ cron_rows (store w) → cr_id r ≠ cr_id (cron_row job)) →
  let '(r, w') := upsert_job job w in
  match r with
  | Ok _ => base.filter (λ r, cr_tenant_id r = cj_tenant_id job ∧ cr_name r = cj_name job)
      (cron_rows (store w')) = [cron_row job]
  | Err _ => cron_rows (store w') = cron_rows (store w)
  end ∧ job_only (cj_tenant_id job) (cj_name job) (cron_rows (store w)) (cron_rows (store w')).
Proof.
  intros Hid. unfold upsert_job. rewrite bind_gets. destruct (bool_decide _); cbn.
  - split; [apply (rows_named (cron_row job))|by apply (upsert_elsewhere (cron_row job))].
  - by split.
Qed.

Lemma create_spec (cron_store dev : bool) tenant caller body (w : world (Timed S)) :
  (∀ r, r ∈ cron_rows (store w) → cr_id r ≠ uuid_hyphenated (uuid_v4 (draws w))) →
  let '(r, w') := create_cron cron_store tenant caller dev body w in
  match r with
  | Ok (status, _) => status = 201 ∧ (is_Some caller ∨ dev = true)
      ∧ (∃ def, (get_workflow (cq_workflow_id body) (default "0.1.0" (cq_workflow_version body))
           (World (inner (store w)) (clock w) (draws w))).1 = Ok (Some def))
      ∧ ∃ row next, requested tenant caller body (clock w) next row
          ∧ base.filter (λ r, cr_tenant_id r = tenant_str tenant ∧ cr_name r = cq_name body)
              (cron_rows (store w')) = [row]
  | Err _ => cron_rows (store w') = cron_rows (store w)
  end
  ∧ job_only (tenant_str tenant) (cq_name body) (cron_rows (store w)) (cron_rows (store w')).
Proof.
  intros Hfresh. unfold create_cron, cron_store_of. destruct cron_store; [|done].
  rewrite bind_mret. set (by_ := match caller with Some _ => _ | None => _ end).
  assert (by_ w = (if caller then Ok (principal_of <$> caller)
    else if dev then Ok None else Err ApiError.Unauthorized, w)) as Hby by (by destruct caller, dev).
  unfold mbind at 1, eff_bind at 1. rewrite Hby. clear by_ Hby.
  destruct (if caller then _ else _) as [creator|e] eqn:Hc; [|done].
  assert (creator = principal_of <$> caller ∧ (is_Some caller ∨ dev = true)) as [-> Hwho].
  { destruct caller as [t|], dev; try done; injection Hc as <-; split; try done; by (left + right). }
  cbv zeta. set (version := default "0.1.0" _).
  unfold mbind at 1, eff_bind at 1.
  rewrite on_inner_read by (intros; apply law_get_workflow).
  destruct (get_workflow _ _ _).1 as [found|e] eqn:Hget; [|done]. cbn [map_err].
  rewrite of_result_run. destruct found as [def|]; [|done]. cbn [ok_or].
  rewrite bind_now, of_result_run. destruct (cron_next _ _) as [next|e] eqn:Hnext; [|done].
  cbn [map_err]. rewrite bind_new_v4, bind_now.
  match goal with |- context [upsert_job ?j] => set (job := j) end.
  set (w1 := World _ _ _). pose proof (upsert_rows job w1 Hfresh) as Hu.
  destruct (upsert_job job w1) as [r w'] eqn:Hup. destruct Hu as [Hu Ht].
  rewrite (with_err_run _ _ _ _ _ _ Hup). destruct r as [[]|e]; [|done].
  split; [|done]. split_and!; [done|done|by exists def|]. exists (cron_row job), next.
  split; [|done]. split; try done. cbn. by destruct (cq_enabled body) as [[]|].
Qed.

(** The list is the tenant's jobs, every one of them once, by name. *)
Definition lists_jobs (tenant : string) (rows : list CronRow) (l : list CronJob) : Prop :=
  ∃ found, found ≡ₚ base.filter (λ r, cr_tenant_id r = tenant) rows ∧ Sorted name_asc found
    ∧ Forall2 (λ row job, row_to_cron row = Ok job ∧ cj_tenant_id job = tenant) found l.

#[local] Instance name_asc_total : Total name_asc.
Proof. intros a b. unfold name_asc, text_le. apply String.leb_total. Qed.

Lemma list_spec (cron_store : bool) tenant (w : world (Timed S)) :
  let '(listed, w1) := list_cron cron_store tenant w in
  (∀ l, listed = Ok l → lists_jobs (tenant_str tenant) (cron_rows (store w)) l) ∧ w1 = w.
Proof.
  unfold list_cron, cron_store_of. destruct cron_store; [|done]. rewrite bind_mret.
  unfold list_for_tenant, with_err, mbind, eff_bind, gets, of_result. cbn.
  destruct (mapM _ _) as [l|e] eqn:Hl; cbn; [|done]. split; [|done]. intros ? [= <-].
  match type of Hl with mapM _ ?x = _ => exists x end.
  split_and!; [|apply (Sorted_merge_sort name_asc)|].
  - by rewrite merge_sort_Permutation, scan_perm.
  - apply mapM_rows in Hl. apply Forall2_same_length_lookup. split; [by eapply Forall2_length|].
    intros k row job Hk Hj. pose proof (Forall2_lookup_lr _ _ _ _ _ _ Hl Hk Hj) as Hdec.
    split; [done|]. rewrite (job_tenant _ _ Hdec). apply list_elem_of_lookup_2 in Hk.
    rewrite merge_sort_Permutation, scan_perm in Hk. by apply list_elem_of_filter in Hk as [? _].
Qed.

Lemma delete_spec (cron_store : bool) tenant name (w : world (Timed S)) :
  let '(r, w') := delete_cron cron_store tenant name w in
  match r with
  | Ok _ => base.filter (λ r, cr_tenant_id r = tenant_str tenant ∧ cr_name r = name)
      (cron_rows (store w')) = []
  | Err _ => w' = w
  end
  ∧ job_only (tenant_str tenant) name (cron_rows (store w)) (cron_rows (store w')).
Proof.
  unfold delete_cron, cron_store_of. destruct cron_store; [|done]. unfold job_only.
  rewrite bind_mret. unfold with_err, delete_job, modify, mbind, eff_bind, mret, eff_ret. cbn.
  rewrite !list_filter_filter. split.
  - apply filter_empty. naive_solver.
  - apply list_filter_iff. naive_solver.
Qed.

(** C38: The cron handlers act within the caller's tenant. Creating a job answers
    201 and leaves one row of the tenant under that name, whatever was there before:
    the job asked for in every column (its expression, workflow and version, input,
    and whether it is enabled, with the documented defaults), due at the expression's
    next time, created by the caller's token. The workflow was registered under that
    id and version; a caller without a token is admitted in dev mode only. An error
    changes no job. Listing changes nothing and shows the tenant's jobs, all of them
    once and by name; deleting leaves no job of that name in the tenant. No other job
    of the tenant and no job of another tenant is touched. The job's own id is drawn
    at random, and assumed not to be in the table yet. *)
Theorem cron_confined (cron_store dev : bool) (tenant : TenantId) (caller : option ApiToken)
    (body : CreateCronRequest) (name : string) (w : world (Timed S))
    (Hfresh : ∀ r, r ∈ cron_rows (store w) → cr_id r ≠ uuid_hyphenated (uuid_v4 (draws w))) :
  let '(r, w') := create_cron cron_store tenant caller dev body w in
  let '(listed, w1) := list_cron cron_store tenant w in
  let '(deleted, w2) := delete_cron cron_store tenant name w in
  (match r with
   | Ok (status, _) => status = 201 ∧ (is_Some caller ∨ dev = true)
       ∧ (∃ def, (get_workflow (cq_workflow_id body) (default "0.1.0" (cq_workflow_version body))
            (World (inner (store w)) (clock w) (draws w))).1 = Ok (Some def))
       ∧ ∃ row next, requested tenant caller body (clock w) next row
           ∧ base.filter (λ r, cr_tenant_id r = tenant_str tenant ∧ cr_name r = cq_name body)
               (cron_rows (store w')) = [row]
   | Err _ => cron_rows (store w') = cron_rows (store w)
   end
   ∧ job_only (tenant_str tenant) (cq_name body) (cron_rows (store w)) (cron_rows (store w'))
   ∧ tenant_only (tenant_str tenant) (cron_rows (store w)) (cron_rows (store w')))
  ∧ ((∀ l, listed = Ok l → lists_jobs (tenant_str tenant) (cron_rows (store w)) l) ∧ w1 = w)
  ∧ match deleted with
    | Ok _ => base.filter (λ r, cr_tenant_id r = tenant_str tenant ∧ cr_name r = name)
        (cron_rows (store w2)) = []
    | Err _ => w2 = w
    end
  ∧ job_only (tenant_str tenant) name (cron_rows (store w)) (cron_rows (store w2))
  ∧ tenant_only (tenant_str tenant) (cron_rows (store w)) (cron_rows (store w2)).
Proof.
  pose proof (create_spec cron_store dev tenant caller body w Hfresh) as Hcreate.
  pose proof (list_spec cron_store tenant w) as Hlist.
  pose proof (delete_spec cron_store tenant name w) as Hdelete.
  destruct (create_cron _ _ _ _ _ w) as [r w'], (list_cron _ _ w) as [listed w1],
    (delete_cron _ _ _ w) as [deleted w2].
  destruct Hcreate as [? Hc], Hlist, Hdelete as [? Hd].
  split_and!; try done; by eapply job_tenant_only.
Qed.
End Correct.

(** ** Witness *)

Module CronApiSample.
#[local] Existing Instances plain_uuid milli_chrono code_json plain_sha256 GuardSample.plain_serde.
#[local] Existing Instances Sample.order_exec Sample.order_item Sample.order_tenant
  Sample.order_pair WorkerSample.order_string WorkerSample.flow_serde.
#[local] Existing Instances IsolationSample.plain_rows IsolationSample.plain_sql CronSample.gregorian.

Definition zeta_job : CronRow := {|
  cr_id := "zeta"; cr_name := "nightly"; cr_cron_expression := "* * * * *"; cr_workflow_id := "w";
  cr_workflow_version := "1.0.0"; cr_input_json := "{}"; cr_enabled := 1; cr_last_run_at := None;
  cr_next_run_at := "1"; cr_created_at := "1"; cr_tenant_id := "zeta"; cr_created_by := None |}.
Definition server : world (Timed InMemoryBackend) :=
  let w := WorkerSample.registered in
  World (Build_Timed [] [zeta_job] ["default"; "zeta"] (store w)) (clock w) (draws w).
Definition token : ApiToken := {|
  tok_id := "ann"; tok_name := "ann"; tok_role := "developer"; tok_created_at := 0;
  tok_expires_at := None; tok_tenant_id := "default" |}.
Definition nightly : CreateCronRequest := {|
  cq_name := "nightly"; cq_cron_expression := "0 2 * * *"; cq_workflow_id := "w";
  cq_workflow_version := Some "1.0.0"; cq_input := Some (obj [("x", num 1)]); cq_enabled := None |}.

(** A job of the name zeta uses too: both stay. *)
Lemma cron_confined_witness :
  let w' := (create_cron true (mkTenantId "default") (Some token) false nightly server).2 in
  cr_tenant_id <$> cron_rows (store w') = ["zeta"; "default"]
  ∧ cr_created_by <$> cron_rows (store w') = [None; Some "token:ann"]
  ∧ is_ok (create_cron true (mkTenantId "default") (Some token) false nightly server).1 = true
  ∧ tenant_only "default" (cron_rows (store server)) (cron_rows (store w')).
Proof.
  intros w'. split_and!; [vm_compute; reflexivity..|].
  pose proof (cron_confined true false (mkTenantId "default") (Some token) nightly "nightly" server)
    as Hc. specialize (Hc ltac:(intros r ->%list_elem_of_singleton; vm_compute; congruence)).
  unfold w'. destruct (create_cron _ _ _ _ _ server) as [r w1], (list_cron _ _ server), (delete_cron _ _ _ server).
  exact (proj2 (proj2 (proj1 Hc))).
Defined.
End CronApiSample.
