(* ===== verification/Engram.v ===== *)
(** * The memory layer: its data ([engram/src/scope.rs], [fact.rs], [store.rs],
    [vector.rs], [graph.rs], [message.rs], [embedding.rs], [extract.rs])

    Scopes, facts, entities and relationships, the messages of conversations, and
    the traits of the stores that keep them, as classes. *)

From S2P Require Import Prelude.
From S2P Require Import Json.
From S2P Require Import RustStr.

(** ** Scopes *)

Record Scope := {
  org_id : string; agent_id : option string; user_id : option string;
  session_id : option string;
}.

#[export] Instance Scope_eq_dec : EqDecision Scope.
Proof. solve_decision. Defined.

Module Scope.
Definition org (o : string) : Scope := Build_Scope o None None None.
Definition user (o u : string) : Scope := Build_Scope o None (Some u) None.
Definition session (o u s : string) : Scope := Build_Scope o None (Some u) (Some s).
Definition full (o a u s : string) : Scope := Build_Scope o (Some a) (Some u) (Some s).

Definition depth (self : Scope) : Z :=
  match user_id self, session_id self, agent_id self with
  | None, None, _ => 0
  | Some _, None, _ => 1
  | Some _, Some _, None => 2
  | Some _, Some _, Some _ => 3
  | None, Some _, _ => 0
  end.

(** [if let Some(a) = mine { if theirs != Some(a) { return false } }]. *)
Definition narrows (mine theirs : option string) : bool :=
  match mine with Some a => bool_decide (theirs = Some a) | None => true end.

Definition contains (self other : Scope) : bool :=
  bool_decide (org_id self = org_id other)
  && narrows (agent_id self) (agent_id other)
  && narrows (user_id self) (user_id other)
  && narrows (session_id self) (session_id other).
End Scope.

(** ** Facts *)

Abbreviation FactId := N (only parsing).
Abbreviation EntityId := N (only parsing).
Abbreviation RelationshipId := N (only parsing).

Module MemoryTier.
Inductive MemoryTier := Working | Conversation | Knowledge.
End MemoryTier.
Export MemoryTier (MemoryTier).

#[export] Instance MemoryTier_eq_dec : EqDecision MemoryTier.
Proof. solve_decision. Defined.

Record Fact := {
  ft_id : FactId; ft_text : string; ft_scope : Scope; ft_tier : MemoryTier;
  ft_category : option string; ft_source : option string; ft_confidence : option f32;
  ft_valid_from : DateTime; ft_invalid_at : option DateTime; ft_created_at : DateTime;
  ft_embedding : list f32; ft_entity_refs : list EntityId; ft_supersedes : option FactId;
  ft_superseded_by : option FactId; ft_access_count : Z; ft_last_accessed : option DateTime;
  ft_metadata : Map;
}.

(** [Fact::is_valid_at] and [Relationship::is_valid_at]. *)
Definition valid_at (valid_from : DateTime) (invalid_at : option DateTime) (at_ : DateTime) : bool :=
  if decide (at_ < valid_from) then false
  else match invalid_at with Some exp => bool_decide (at_ < exp) | None => true end.

Definition is_valid_at (f : Fact) (at_ : DateTime) : bool :=
  valid_at (ft_valid_from f) (ft_invalid_at f) at_.

Record Entity := {
  en_id : EntityId; en_name : string; en_type : string; en_scope : Scope;
  en_attributes : Map; en_created_at : DateTime; en_updated_at : DateTime;
}.

Record Relationship := {
  rl_id : RelationshipId; rl_source_id : EntityId; rl_relation : string;
  rl_target_id : EntityId; rl_scope : Scope; rl_valid_from : DateTime;
  rl_invalid_at : option DateTime; rl_created_at : DateTime;
}.

Record SubGraph := { sg_entities : list Entity; sg_relationships : list Relationship }.

Record FactPatch := {
  fp_text : option string; fp_tier : option MemoryTier; fp_category : option string;
  fp_source : option string; fp_confidence : option f32; fp_invalid_at : option DateTime;
  fp_superseded_by : option FactId; fp_metadata : Map;
}.
Definition FactPatch_default : FactPatch :=
  Build_FactPatch None None None None None None None [].

Record FactFilter := {
  ff_scope : option Scope; ff_tier : option MemoryTier; ff_category : option string;
  ff_valid_only : bool; ff_as_of : option DateTime; ff_text_contains : option string;
  ff_limit : Z; ff_offset : Z;
}.

(** [FactFilter::new()] and its builders. *)
Definition FactFilter_new : FactFilter := Build_FactFilter None None None true None None 50 0.
Definition with_scope (s : Scope) (f : FactFilter) : FactFilter :=
  Build_FactFilter (Some s) (ff_tier f) (ff_category f) (ff_valid_only f) (ff_as_of f)
    (ff_text_contains f) (ff_limit f) (ff_offset f).
Definition with_tier (t : MemoryTier) (f : FactFilter) : FactFilter :=
  Build_FactFilter (ff_scope f) (Some t) (ff_category f) (ff_valid_only f) (ff_as_of f)
    (ff_text_contains f) (ff_limit f) (ff_offset f).
Definition with_category (c : string) (f : FactFilter) : FactFilter :=
  Build_FactFilter (ff_scope f) (ff_tier f) (Some c) (ff_valid_only f) (ff_as_of f)
    (ff_text_contains f) (ff_limit f) (ff_offset f).

(** ** Errors, statistics, vectors, messages *)

Module MemoryError.
Inductive MemoryError :=
| Database (msg : string)
| Serialization (msg : string)
| NotFound (msg : string)
| Embedding (msg : string)
| Graph (msg : string).

Definition display (e : MemoryError) : string :=
  match e with
  | Database m => "database error: " +:+ m
  | Serialization m => "serialization error: " +:+ m
  | NotFound m => "not found: " +:+ m
  | Embedding m => "embedding error: " +:+ m
  | Graph m => "graph error: " +:+ m
  end.
End MemoryError.
Export MemoryError (MemoryError).

Record StoreStats := {
  total_facts : Z; valid_facts : Z; invalidated_facts : Z; total_entities : Z;
  total_relationships : Z;
}.

Record VectorFilter := { vf_scope : option Scope; vf_min_score : option f32 }.
Record VectorMatch := { vm_id : FactId; vm_score : f32; vm_metadata : Value }.

Abbreviation MessageId := N (only parsing).
Record ChatMessage := {
  ms_id : MessageId; ms_conversation_id : string; ms_role : string; ms_content : string;
  ms_scope : Scope; ms_seq : Z; ms_created_at : DateTime; ms_metadata : Map;
}.

(** A turn of the conversation facts are extracted from. *)
Record Message := { mg_role : string; mg_content : string }.

(** ** The traits of the stores *)

Class FactStore (S : Type) := {
  insert_fact : Fact → eff S MemoryError FactId;
  get_fact : FactId → eff S MemoryError Fact;
  update_fact : FactId → FactPatch → eff S MemoryError Fact;
  list_facts : FactFilter → eff S MemoryError (list Fact);
  invalidate_fact : FactId → eff S MemoryError unit;
  delete_scope_data : Scope → eff S MemoryError Z;
  export : FactFilter → eff S MemoryError (list Fact);
  import_facts : list Fact → eff S MemoryError Z;
  stats : eff S MemoryError StoreStats;
  record_access : FactId → eff S MemoryError unit;
  keyword_search : string → Scope → Z → eff S MemoryError (list Fact);
}.

Class VectorStore (S : Type) := {
  vec_upsert : FactId → list f32 → Value → eff S MemoryError unit;
  vec_search : list f32 → VectorFilter → Z → eff S MemoryError (list VectorMatch);
  vec_delete : FactId → eff S MemoryError unit;
  vec_delete_by_scope : Scope → eff S MemoryError Z;
}.

Class GraphStore (S : Type) := {
  upsert_entity : Entity → eff S MemoryError unit;
  upsert_relationship : Relationship → eff S MemoryError unit;
  invalidate_relationship : RelationshipId → DateTime → eff S MemoryError unit;
  get_entity : EntityId → eff S MemoryError (option Entity);
  neighbors : EntityId → Z → option DateTime → eff S MemoryError SubGraph;
  search_entities : string → Z → eff S MemoryError (list Entity);
  graph_delete_by_scope : Scope → eff S MemoryError Z;
}.

Class MessageStore (S : Type) := {
  save_messages : string → list ChatMessage → Scope → eff S MemoryError (list MessageId);
  get_messages : string → option Z → Scope → eff S MemoryError (list ChatMessage);
  list_conversations : Scope → eff S MemoryError (list string);
  delete_messages : string → Scope → eff S MemoryError Z;
}.

(** The providers a process is given: of embeddings ([EmbeddingProvider::embed])
    and of structured answers ([LlmClient::structured_output]). *)
Abbreviation Embed S := (list string → eff S MemoryError (list (list f32))).
Abbreviation Llm S := (string → string → eff S MemoryError Value).

(** [MockEmbeddingProvider::embed]. *)
Definition mock_embedding (dims : nat) (text : string) : list f32 :=
  let bs := bytes text in
  match bs with
  | [] => replicate dims (S754_zero false)
  | _ =>
      (λ i, let byte := f32_of_Z (Z.of_N (default 0%N (bs !! (i mod length bs)%nat))) in
        f32_sub (f32_mul (f32_div byte (f32_of_Z 255)) (f32_of_Z 2)) (f32_of_Z 1)) <$> seq 0 dims
  end.
Definition mock_embed {S} (dims : nat) : Embed S := λ texts, mret (mock_embedding dims <$> texts).

(** ** What is extracted from a conversation *)

Record ExtractedEntity := { ee_name : string; ee_type : option string }.
Record ExtractedRelationship := { er_source : string; er_relation : string; er_target : string }.
Record ExtractedFact := {
  ef_text : string; ef_entities : list ExtractedEntity;
  ef_relationships : list ExtractedRelationship; ef_confidence : f64;
  ef_category : option string; ef_event_date : option string;
}.

Record ExtractionRule := {
  xr_category : string; xr_priority : f64; xr_ttl : option string; xr_pii : bool;
}.
Record ExtractionConfig := {
  custom_prompt : option string; skip_categories : list string; rules : list ExtractionRule;
  dedup_threshold : f32; default_tier : MemoryTier;
}.
Definition ExtractionConfig_default : ExtractionConfig :=
  Build_ExtractionConfig None [] [] (f32_lit 92 100) MemoryTier.Conversation.

Module ConflictVerdict.
Inductive ConflictVerdict := Duplicate | Contradicts | Refines | NoConflict.
End ConflictVerdict.
Export ConflictVerdict (ConflictVerdict).

(** Library code the layer uses: the parsers of ids and times and their messages,
    SQLite's [LIKE] and full-text match (the ids of the matching rows, best first,
    or the error of a malformed query), [char::is_alphanumeric] past ASCII, the [regex] crate, the transcendental
    functions, dates, and the derived deserializer of an extraction. *)
Class EngramOps := {
  uuid_parse : string → option Uuid;
  uuid_msg : string → string;
  datetime_msg : string → string;
  serde_msg : string → string;
  driver_msg : string;
  like : string → string → bool;
  fts_match : string → list (string * string) → result string (list string);
  fts_sound q l ids i : fts_match q l = Ok ids → i ∈ ids → i ∈ l.*1;
  unicode_alphanumeric : N → bool;
  is_match : string → string → bool;
  powf : f64 → f64 → f64;
  exp_ : f64 → f64;
  ln_ : f32 → f32;
  date_text : DateTime → string;
  date_parse : string → option DateTime;
  json_pretty : Value → string;
  facts_from_value : Value → result string (list ExtractedFact);
}.

Definition DAY : Z := 86400 * NANOS_PER_SEC.
(** [num_days], [num_milliseconds]: whole ones, toward zero. *)
Definition num_days (d : Z) : Z := Z.quot d DAY.
Definition num_milliseconds (d : Z) : Z := Z.quot d 1000000.

(** ** Constructors: the clock and the next id *)

Section New.
Context `{!UuidOps} {S E : Type}.

Definition Fact_new (text : string) (scope : Scope) : eff S E Fact :=
  now ← utc_now;
  id ← new_v4;
  mret {| ft_id := id; ft_text := text; ft_scope := scope; ft_tier := MemoryTier.Conversation;
    ft_category := None; ft_source := None; ft_confidence := None; ft_valid_from := now;
    ft_invalid_at := None; ft_created_at := now; ft_embedding := []; ft_entity_refs := [];
    ft_supersedes := None; ft_superseded_by := None; ft_access_count := 0;
    ft_last_accessed := None; ft_metadata := [] |}.

Definition Entity_new (name : string) (scope : Scope) (type : string) : eff S E Entity :=
  now ← utc_now;
  id ← new_v4;
  mret (Build_Entity id name type scope [] now now).

Definition Relationship_new (source : EntityId) (relation : string) (target : EntityId)
    (scope : Scope) : eff S E Relationship :=
  now ← utc_now;
  id ← new_v4;
  mret (Build_Relationship id source relation target scope now None now).

Definition ChatMessage_new (conversation role content : string) (scope : Scope) (seq : Z)
    : eff S E ChatMessage :=
  id ← new_v4;
  now ← utc_now;
  mret (Build_ChatMessage id conversation role content scope seq now []).
End New.

(** The fields a caller sets on a fact it has built. *)
Definition fact_with (f : Fact) tier category source confidence valid_from refs metadata : Fact := {|
  ft_id := ft_id f; ft_text := ft_text f; ft_scope := ft_scope f; ft_tier := tier;
  ft_category := category; ft_source := source; ft_confidence := confidence;
  ft_valid_from := valid_from; ft_invalid_at := ft_invalid_at f; ft_created_at := ft_created_at f;
  ft_embedding := ft_embedding f; ft_entity_refs := refs; ft_supersedes := ft_supersedes f;
  ft_superseded_by := ft_superseded_by f; ft_access_count := ft_access_count f;
  ft_last_accessed := ft_last_accessed f; ft_metadata := metadata |}.
Definition with_embedding (e : list f32) (f : Fact) : Fact := {|
  ft_id := ft_id f; ft_text := ft_text f; ft_scope := ft_scope f; ft_tier := ft_tier f;
  ft_category := ft_category f; ft_source := ft_source f; ft_confidence := ft_confidence f;
  ft_valid_from := ft_valid_from f; ft_invalid_at := ft_invalid_at f;
  ft_created_at := ft_created_at f; ft_embedding := e; ft_entity_refs := ft_entity_refs f;
  ft_supersedes := ft_supersedes f; ft_superseded_by := ft_superseded_by f;
  ft_access_count := ft_access_count f; ft_last_accessed := ft_last_accessed f;
  ft_metadata := ft_metadata f |}.

(** ** Scopes form a preorder *)

Lemma contains_spec s t : Scope.contains s t = true ↔
  org_id s = org_id t
  ∧ (∀ a, agent_id s = Some a → agent_id t = Some a)
  ∧ (∀ u, user_id s = Some u → user_id t = Some u)
  ∧ (∀ x, session_id s = Some x → session_id t = Some x).
Proof.
  unfold Scope.contains, Scope.narrows. rewrite !andb_true_iff, bool_decide_eq_true.
  destruct (agent_id s), (user_id s), (session_id s); rewrite ?bool_decide_eq_true; naive_solver.
Qed.

Definition scope_le (s t : Scope) : Prop := Scope.contains s t = true.

#[export] Instance scope_le_preorder : PreOrder scope_le.
Proof.
  split.
  - intros s. by apply contains_spec.
  - intros s t u (? & ? & ? & ?)%contains_spec (? & ? & ? & ?)%contains_spec.
    apply contains_spec. split_and!; [congruence|eauto..].
Qed.

(** Scopes that contain each other are the same. *)
Lemma contains_antisymm s t :
  Scope.contains s t = true → Scope.contains t s = true → s = t.
Proof.
  intros (Ho & Ha & Hu & Hs)%contains_spec (_ & Ha' & Hu' & Hs')%contains_spec.
  destruct s as [o a u x], t as [o' a' u' x']. cbn in *. subst o'. f_equal.
  - destruct a, a'; naive_solver.
  - destruct u, u'; naive_solver.
  - destruct x, x'; naive_solver.
Qed.
