(* ===== verification/EngramStore.v ===== *)
(** * The stores of the memory layer ([engram/src/store_sqlite.rs],
    [graph_sqlite.rs], [message_sqlite.rs], [vector_embedded.rs])

    The tables of the three SQLite stores, the vectors kept in memory, and every
    method of the four traits over them. *)

From Stdlib Require Import Ascii.
From S2P Require Import Prelude.
From S2P Require Import Json.
From S2P Require Import RustStr.
From S2P Require Import Condition.
From S2P Require Import Sql.
From S2P Require Import Engram.
Import MemoryError.

(** ** Rows *)

Record FactRow := {
  fr_id : string; fr_text : string; fr_org_id : string; fr_agent_id : option string;
  fr_user_id : option string; fr_session_id : option string; fr_tier : string;
  fr_category : option string; fr_source : option string; fr_confidence : option f64;
  fr_valid_from : string; fr_invalid_at : option string; fr_created_at : string;
  fr_entity_refs : string; fr_supersedes : option string; fr_superseded_by : option string;
  fr_access_count : Z; fr_last_accessed : option string; fr_metadata : string;
}.

Record EntityRow := {
  nr_id : string; nr_name : string; nr_entity_type : option string; nr_org_id : string;
  nr_agent_id : option string; nr_user_id : option string; nr_session_id : option string;
  nr_attributes : string; nr_created_at : string; nr_updated_at : string;
}.

Record RelationshipRow := {
  pr_id : string; pr_source_id : string; pr_relation : string; pr_target_id : string;
  pr_org_id : string; pr_agent_id : option string; pr_user_id : option string;
  pr_session_id : option string; pr_valid_from : string; pr_invalid_at : option string;
  pr_created_at : string;
}.

Record MessageRow := {
  mr_id : string; mr_conversation_id : string; mr_role : string; mr_content : string;
  mr_org_id : string; mr_user_id : option string; mr_seq : Z; mr_created_at : string;
  mr_metadata : string;
}.

Record VectorEntry := { ve_embedding : list f32; ve_metadata : Value; ve_norm : f32 }.

(** The tables, the full-text index of [facts] (id and text), the vectors, and
    what the providers keep. *)
Record Engram (X : Type) := {
  fact_rows : list FactRow;
  fts_rows : list (string * string);
  entity_rows : list EntityRow;
  relationship_rows : list RelationshipRow;
  message_rows : list MessageRow;
  vectors : gmap FactId VectorEntry;
  outside : X;
}.
Arguments Build_Engram {X} _ _ _ _ _ _ _.
Arguments fact_rows {X} _.
Arguments fts_rows {X} _.
Arguments entity_rows {X} _.
Arguments relationship_rows {X} _.
Arguments message_rows {X} _.
Arguments vectors {X} _.
Arguments outside {X} _.

Section Setters.
Context {X : Type}.
Implicit Types s : Engram X.
Definition set_facts f s := Build_Engram (f (fact_rows s)) (fts_rows s) (entity_rows s)
  (relationship_rows s) (message_rows s) (vectors s) (outside s).
Definition set_fts f s := Build_Engram (fact_rows s) (f (fts_rows s)) (entity_rows s)
  (relationship_rows s) (message_rows s) (vectors s) (outside s).
Definition set_entities f s := Build_Engram (fact_rows s) (fts_rows s) (f (entity_rows s))
  (relationship_rows s) (message_rows s) (vectors s) (outside s).
Definition set_relationships f s := Build_Engram (fact_rows s) (fts_rows s) (entity_rows s)
  (f (relationship_rows s)) (message_rows s) (vectors s) (outside s).
Definition set_messages f s := Build_Engram (fact_rows s) (fts_rows s) (entity_rows s)
  (relationship_rows s) (f (message_rows s)) (vectors s) (outside s).
Definition set_vectors f s := Build_Engram (fact_rows s) (fts_rows s) (entity_rows s)
  (relationship_rows s) (message_rows s) (f (vectors s)) (outside s).
End Setters.

(** ** Columns *)

Definition tier_from_str (s : string) : MemoryTier :=
  if decide (s = "working") then MemoryTier.Working
  else if decide (s = "knowledge") then MemoryTier.Knowledge
  else MemoryTier.Conversation.
Definition tier_to_str (t : MemoryTier) : string :=
  match t with
  | MemoryTier.Working => "working"
  | MemoryTier.Conversation => "conversation"
  | MemoryTier.Knowledge => "knowledge"
  end.

(** [Option::map(f).transpose()?]. *)
Definition transpose {E A B} (f : A → result E B) (o : option A) : result E (option B) :=
  match o with Some a => b ← f a; Ok (Some b) | None => Ok None end.

(** The [WHERE] the stores build from a scope: its org, and each narrower part it
    names. *)
Definition scope_where (s : Scope) (org : string) (agent user session : option string) : bool :=
  bool_decide (org = org_id s)
  && match user_id s with Some u => bool_decide (user = Some u) | None => true end
  && match agent_id s with Some a => bool_decide (agent = Some a) | None => true end
  && match session_id s with Some x => bool_decide (session = Some x) | None => true end.

Definition fact_in (s : Scope) (r : FactRow) : bool :=
  scope_where s (fr_org_id r) (fr_agent_id r) (fr_user_id r) (fr_session_id r).
Definition entity_in (s : Scope) (r : EntityRow) : bool :=
  scope_where s (nr_org_id r) (nr_agent_id r) (nr_user_id r) (nr_session_id r).
Definition relationship_in (s : Scope) (r : RelationshipRow) : bool :=
  scope_where s (pr_org_id r) (pr_agent_id r) (pr_user_id r) (pr_session_id r).

(** [LIMIT n]: a negative one is none. *)
Definition sql_limit {A} (n : Z) (l : list A) : list A :=
  if decide (n < 0) then l else take (Z.to_nat n) l.

Definition created_later (a b : FactRow) : Prop := text_le (fr_created_at b) (fr_created_at a) = true.
Definition seq_asc (a b : MessageRow) : Prop := mr_seq a ≤ mr_seq b.
Definition seq_desc (a b : MessageRow) : Prop := mr_seq b ≤ mr_seq a.
#[export] Instance created_later_dec : RelDecision created_later.
Proof. intros a b. unfold created_later. apply _. Defined.
#[export] Instance seq_asc_dec : RelDecision seq_asc.
Proof. intros a b. unfold seq_asc. apply _. Defined.
#[export] Instance seq_desc_dec : RelDecision seq_desc.
Proof. intros a b. unfold seq_desc. apply _. Defined.

(** [split_whitespace], on bytes. *)
Fixpoint ws_words (acc l : list N) : list (list N) :=
  match l with
  | [] => [reverse acc]
  | b :: l1 =>
      if ws1 b then reverse acc :: ws_words [] l1
      else match l1 with
        | [] => ws_words (b :: acc) l1
        | c :: l2 =>
            if ws2 b c then reverse acc :: ws_words [] l2
            else match l2 with
              | [] => ws_words (b :: acc) l1
              | d :: l3 => if ws3 b c d then reverse acc :: ws_words [] l3 else ws_words (b :: acc) l1
              end
        end
  end.
(** The bytes of each character. *)
Definition add_byte (b : N) (chars : list (list N)) : list (list N) :=
  match chars with
  | (c :: g) :: rest =>
      if ((128 <=? c) && (c <? 192))%N then (b :: c :: g) :: rest else [b] :: chars
  | _ => [b] :: chars
  end.
Definition char_bytes (l : list N) : list (list N) := foldr add_byte [] l.

(** [normalize_fts_query]: each word as a prefix, unless the query quotes. *)
Definition is_fts_char `{!EngramOps} (g : list N) : bool :=
  match g with
  | [b] => is_ascii_alphanumeric b || (b =? 95)%N
  | _ => match utf8_decode g with [c] => unicode_alphanumeric c | _ => false end
  end.
Definition clean_word `{!EngramOps} (w : list N) : list N :=
  concat (List.filter is_fts_char (char_bytes w)).
Definition normalize_fts_query `{!EngramOps} (query : string) : string :=
  let trimmed := trim query in
  if str_is_empty trimmed then ""
  else if str_contains "034"%char trimmed then trimmed
  else str_join " " ((λ w, of_bytes w +:+ "*")
    <$> List.filter (λ w, if w is [] then false else true)
          (clean_word <$> List.filter (λ w, if w is [] then false else true) (ws_words [] (bytes trimmed)))).

Section Rows.
Context `{!UuidOps, !ChronoOps, !JsonText, !EngramOps}.
Abbreviation R A := (result MemoryError A).

Definition parse_dt (s : string) : R DateTime :=
  ok_or (Serialization (datetime_msg s)) (parse_rfc3339 s).
Definition parse_opt_dt (o : option string) : R (option DateTime) := transpose parse_dt o.
Definition parse_uuid (s : string) : R Uuid := ok_or (Serialization (uuid_msg s)) (uuid_parse s).

(** A column that holds a JSON object, ["null"] when it is empty. *)
Definition map_column (m : Map) : string := if m is [] then "null" else json_to_string (Object m).
Definition parse_map (s : string) : R Map :=
  if (String.eqb s "null" || str_is_empty s)%bool then Ok []
  else match parse_json s with
    | Some (Object m) => Ok m
    | _ => Err (Serialization (serde_msg s))
    end.
Definition refs_column (refs : list EntityId) : string :=
  json_to_string (Array (Str ∘ uuid_hyphenated <$> refs)).
Definition parse_refs (s : string) : R (list EntityId) :=
  match parse_json s with
  | Some (Array l) =>
      match mapM as_str l with
      | Some ids => mapM parse_uuid ids
      | None => Err (Serialization (serde_msg s))
      end
  | _ => Err (Serialization (serde_msg s))
  end.

Definition row_to_fact (row : FactRow) : R Fact :=
  id ← parse_uuid (fr_id row);
  refs ← parse_refs (fr_entity_refs row);
  metadata ← parse_map (fr_metadata row);
  supersedes ← transpose parse_uuid (fr_supersedes row);
  superseded_by ← transpose parse_uuid (fr_superseded_by row);
  valid_from ← parse_dt (fr_valid_from row);
  invalid_at ← parse_opt_dt (fr_invalid_at row);
  created_at ← parse_dt (fr_created_at row);
  last_accessed ← parse_opt_dt (fr_last_accessed row);
  Ok {| ft_id := id; ft_text := fr_text row;
    ft_scope := Build_Scope (fr_org_id row) (fr_agent_id row) (fr_user_id row) (fr_session_id row);
    ft_tier := tier_from_str (fr_tier row); ft_category := fr_category row;
    ft_source := fr_source row; ft_confidence := f32_of_f64 <$> fr_confidence row;
    ft_valid_from := valid_from; ft_invalid_at := invalid_at; ft_created_at := created_at;
    ft_embedding := []; ft_entity_refs := refs; ft_supersedes := supersedes;
    ft_superseded_by := superseded_by; ft_access_count := wrap_u64 (fr_access_count row);
    ft_last_accessed := last_accessed; ft_metadata := metadata |}.

Definition fact_row (f : Fact) : FactRow := {|
  fr_id := uuid_hyphenated (ft_id f); fr_text := ft_text f; fr_org_id := org_id (ft_scope f);
  fr_agent_id := agent_id (ft_scope f); fr_user_id := user_id (ft_scope f);
  fr_session_id := session_id (ft_scope f); fr_tier := tier_to_str (ft_tier f);
  fr_category := ft_category f; fr_source := ft_source f; fr_confidence := ft_confidence f;
  fr_valid_from := rfc3339 (ft_valid_from f); fr_invalid_at := rfc3339 <$> ft_invalid_at f;
  fr_created_at := rfc3339 (ft_created_at f); fr_entity_refs := refs_column (ft_entity_refs f);
  fr_supersedes := uuid_hyphenated <$> ft_supersedes f;
  fr_superseded_by := uuid_hyphenated <$> ft_superseded_by f;
  fr_access_count := wrap_i64 (ft_access_count f);
  fr_last_accessed := rfc3339 <$> ft_last_accessed f; fr_metadata := map_column (ft_metadata f) |}.

(** [UPDATE facts SET ..]: the columns of the fields the patch names. A
    confidence is bound as its text, which the [REAL] column reads back as the
    number; it is taken to be finite. *)
Definition patch_row (p : FactPatch) (r : FactRow) : FactRow := {|
  fr_id := fr_id r; fr_text := default (fr_text r) (fp_text p); fr_org_id := fr_org_id r;
  fr_agent_id := fr_agent_id r; fr_user_id := fr_user_id r; fr_session_id := fr_session_id r;
  fr_tier := from_option tier_to_str (fr_tier r) (fp_tier p);
  fr_category := match fp_category p with Some c => Some c | None => fr_category r end;
  fr_source := match fp_source p with Some c => Some c | None => fr_source r end;
  fr_confidence := match fp_confidence p with Some c => Some c | None => fr_confidence r end;
  fr_valid_from := fr_valid_from r;
  fr_invalid_at := match fp_invalid_at p with Some t => Some (rfc3339 t) | None => fr_invalid_at r end;
  fr_created_at := fr_created_at r; fr_entity_refs := fr_entity_refs r;
  fr_supersedes := fr_supersedes r;
  fr_superseded_by := match fp_superseded_by p with
    | Some u => Some (uuid_hyphenated u) | None => fr_superseded_by r end;
  fr_access_count := fr_access_count r; fr_last_accessed := fr_last_accessed r;
  fr_metadata := if fp_metadata p is [] then fr_metadata r else map_column (fp_metadata p) |}.

Definition set_invalid (now : string) (r : FactRow) : FactRow := {|
  fr_id := fr_id r; fr_text := fr_text r; fr_org_id := fr_org_id r; fr_agent_id := fr_agent_id r;
  fr_user_id := fr_user_id r; fr_session_id := fr_session_id r; fr_tier := fr_tier r;
  fr_category := fr_category r; fr_source := fr_source r; fr_confidence := fr_confidence r;
  fr_valid_from := fr_valid_from r; fr_invalid_at := Some now; fr_created_at := fr_created_at r;
  fr_entity_refs := fr_entity_refs r; fr_supersedes := fr_supersedes r;
  fr_superseded_by := fr_superseded_by r; fr_access_count := fr_access_count r;
  fr_last_accessed := fr_last_accessed r; fr_metadata := fr_metadata r |}.

Definition set_accessed (now : string) (r : FactRow) : FactRow := {|
  fr_id := fr_id r; fr_text := fr_text r; fr_org_id := fr_org_id r; fr_agent_id := fr_agent_id r;
  fr_user_id := fr_user_id r; fr_session_id := fr_session_id r; fr_tier := fr_tier r;
  fr_category := fr_category r; fr_source := fr_source r; fr_confidence := fr_confidence r;
  fr_valid_from := fr_valid_from r; fr_invalid_at := fr_invalid_at r;
  fr_created_at := fr_created_at r; fr_entity_refs := fr_entity_refs r;
  fr_supersedes := fr_supersedes r; fr_superseded_by := fr_superseded_by r;
  fr_access_count := fr_access_count r + 1; fr_last_accessed := Some now;
  fr_metadata := fr_metadata r |}.
End Rows.

(** ** [SqliteFactStore] *)

Section Facts.
Context `{!UuidOps, !ChronoOps, !JsonText, !EngramOps, !SqlOps} {X : Type}.
Abbreviation M A := (eff (Engram X) MemoryError A).

(** [INSERT OR IGNORE], and the trigger that indexes what was inserted: the rows
    affected. *)
Definition insert_or_ignore (r : FactRow) : M Z :=
  taken ← gets (λ s, existsb (λ r', bool_decide (fr_id r' = fr_id r)) (fact_rows s));
  if taken : bool then mret 0
  else
    modify (λ s, set_fts (λ l, l ++ [(fr_id r, fr_text r)]) (set_facts (λ l, l ++ [r]) s)) ≫= λ _,
    mret 1.

Definition update_where (p : FactRow → bool) (f : FactRow → FactRow) : M unit :=
  modify (set_facts (fmap (λ r, if p r then f r else r))).
Definition has_id (id : FactId) (r : FactRow) : bool := bool_decide (fr_id r = uuid_hyphenated id).

Definition sqlite_insert_fact (fact : Fact) : M FactId :=
  insert_or_ignore (fact_row fact) ≫= λ _, mret (ft_id fact).

Definition sqlite_get_fact (id : FactId) : M Fact :=
  row ← gets (λ s, List.find (has_id id) (fact_rows s));
  row ← of_result (ok_or (NotFound (uuid_hyphenated id)) row);
  of_result (row_to_fact row).

Definition sqlite_update_fact (id : FactId) (patch : FactPatch) : M Fact :=
  update_where (has_id id) (patch_row patch) ≫= λ _, sqlite_get_fact id.

Definition filter_where (f : FactFilter) (r : FactRow) : bool :=
  match ff_scope f with Some s => fact_in s r | None => true end
  && match ff_tier f with Some t => bool_decide (fr_tier r = tier_to_str t) | None => true end
  && match ff_category f with Some c => bool_decide (fr_category r = Some c) | None => true end
  && match ff_as_of f with
     | Some t =>
         text_le (fr_valid_from r) (rfc3339 t) && null_or (text_lt (rfc3339 t)) (fr_invalid_at r)
     | None => if ff_valid_only f then bool_decide (fr_invalid_at r = None) else true
     end
  && match ff_text_contains f with
     | Some t => like (fr_text r) ("%" +:+ t +:+ "%")
     | None => true
     end.

Definition sqlite_list_facts (f : FactFilter) : M (list Fact) :=
  found ← gets (λ s, scan (base.filter (λ r, filter_where f r = true) (fact_rows s)));
  of_result (mapM row_to_fact
    (take (Z.to_nat (ff_limit f)) (drop (Z.to_nat (ff_offset f)) (merge_sort created_later found)))).

Definition sqlite_invalidate_fact (id : FactId) : M unit :=
  now ← utc_now;
  update_where (has_id id) (set_invalid (rfc3339 now)).

(** [DELETE FROM facts], and the trigger that takes the rows out of the index. *)
Definition sqlite_delete_scope_data (scope : Scope) : M Z :=
  gone ← gets (λ s, base.filter (λ r, fact_in scope r = true) (fact_rows s));
  modify (λ s, set_fts (base.filter (λ e, e.1 ∉ fr_id <$> gone))
    (set_facts (base.filter (λ r, fact_in scope r = false)) s)) ≫= λ _,
  mret (Z.of_nat (length gone)).

Fixpoint sqlite_import (facts : list Fact) : M Z :=
  match facts with
  | [] => mret 0
  | fact :: facts =>
      n ← insert_or_ignore (fact_row fact);
      rest ← sqlite_import facts;
      mret (n + rest)
  end.

Definition count_facts (p : FactRow → bool) : M Z :=
  gets (λ s, Z.of_nat (length (base.filter (λ r, p r = true) (fact_rows s)))).
Definition sqlite_stats : M StoreStats :=
  total ← count_facts (λ _, true);
  valid ← count_facts (λ r, bool_decide (fr_invalid_at r = None));
  invalidated ← count_facts (λ r, bool_decide (fr_invalid_at r ≠ None));
  mret (Build_StoreStats total valid invalidated 0 0).

Definition sqlite_record_access (id : FactId) : M unit :=
  now ← utc_now;
  update_where (has_id id) (set_accessed (rfc3339 now)).

Definition keyword_where (scope : Scope) (r : FactRow) : bool :=
  bool_decide (fr_org_id r = org_id scope)
  && match user_id scope with Some u => bool_decide (fr_user_id r = Some u) | None => true end
  && bool_decide (fr_invalid_at r = None).

Definition sqlite_keyword_search (query : string) (scope : Scope) (top_k : Z) : M (list Fact) :=
  let normalized := normalize_fts_query query in
  if str_is_empty normalized then mret []
  else
    ids ← gets (λ s, fts_match normalized (fts_rows s));
    ids ← of_result (map_err (λ e, Database e) ids);
    found ← gets (λ s, ids ≫= λ id,
      base.filter (λ r, fr_id r = id ∧ keyword_where scope r = true) (fact_rows s));
    of_result (mapM row_to_fact (sql_limit (wrap_i64 top_k) found)).

#[export] Instance SqliteFactStore : FactStore (Engram X) := {|
  insert_fact := sqlite_insert_fact; get_fact := sqlite_get_fact;
  update_fact := sqlite_update_fact; list_facts := sqlite_list_facts;
  invalidate_fact := sqlite_invalidate_fact; delete_scope_data := sqlite_delete_scope_data;
  export := sqlite_list_facts; import_facts := sqlite_import; stats := sqlite_stats;
  record_access := sqlite_record_access; keyword_search := sqlite_keyword_search |}.
End Facts.

(** ** [SqliteGraphStore] *)

Section Graph.
Context `{!UuidOps, !ChronoOps, !JsonText, !EngramOps, !SqlOps, !IterOrder N} {X : Type}.
Abbreviation M A := (eff (Engram X) MemoryError A).
Abbreviation R A := (result MemoryError A).

Definition row_to_entity (row : EntityRow) : R Entity :=
  id ← parse_uuid (nr_id row);
  attributes ← parse_map (nr_attributes row);
  created ← parse_dt (nr_created_at row);
  updated ← parse_dt (nr_updated_at row);
  Ok (Build_Entity id (nr_name row) (default "unknown" (nr_entity_type row))
    (Build_Scope (nr_org_id row) (nr_agent_id row) (nr_user_id row) (nr_session_id row))
    attributes created updated).

Definition row_to_relationship (row : RelationshipRow) : R Relationship :=
  id ← parse_uuid (pr_id row);
  source ← parse_uuid (pr_source_id row);
  target ← parse_uuid (pr_target_id row);
  valid_from ← parse_dt (pr_valid_from row);
  invalid_at ← parse_opt_dt (pr_invalid_at row);
  created ← parse_dt (pr_created_at row);
  Ok (Build_Relationship id source (pr_relation row) target
    (Build_Scope (pr_org_id row) (pr_agent_id row) (pr_user_id row) (pr_session_id row))
    valid_from invalid_at created).

Definition entity_row (e : Entity) : EntityRow :=
  Build_EntityRow (uuid_hyphenated (en_id e)) (en_name e) (Some (en_type e))
    (org_id (en_scope e)) (agent_id (en_scope e)) (user_id (en_scope e)) (session_id (en_scope e))
    (map_column (en_attributes e)) (rfc3339 (en_created_at e)) (rfc3339 (en_updated_at e)).
Definition relationship_row (r : Relationship) : RelationshipRow :=
  Build_RelationshipRow (uuid_hyphenated (rl_id r)) (uuid_hyphenated (rl_source_id r))
    (rl_relation r) (uuid_hyphenated (rl_target_id r))
    (org_id (rl_scope r)) (agent_id (rl_scope r)) (user_id (rl_scope r)) (session_id (rl_scope r))
    (rfc3339 (rl_valid_from r)) (rfc3339 <$> rl_invalid_at r) (rfc3339 (rl_created_at r)).

(** [INSERT .. ON CONFLICT(id) DO UPDATE]. *)
Definition sqlite_upsert_entity (e : Entity) : M unit :=
  let new := entity_row e in
  taken ← gets (λ s, existsb (λ r, bool_decide (nr_id r = nr_id new)) (entity_rows s));
  modify (set_entities (λ l,
    if taken : bool then
      (λ r, if bool_decide (nr_id r = nr_id new) then
         Build_EntityRow (nr_id r) (nr_name new) (nr_entity_type new) (nr_org_id r)
           (nr_agent_id r) (nr_user_id r) (nr_session_id r) (nr_attributes new)
           (nr_created_at r) (nr_updated_at new)
       else r) <$> l
    else l ++ [new])).

Definition set_relation (relation : string) (invalid_at : option string) (r : RelationshipRow)
    : RelationshipRow :=
  Build_RelationshipRow (pr_id r) (pr_source_id r) relation (pr_target_id r) (pr_org_id r)
    (pr_agent_id r) (pr_user_id r) (pr_session_id r) (pr_valid_from r) invalid_at (pr_created_at r).

Definition sqlite_upsert_relationship (rel : Relationship) : M unit :=
  let new := relationship_row rel in
  taken ← gets (λ s, existsb (λ r, bool_decide (pr_id r = pr_id new)) (relationship_rows s));
  modify (set_relationships (λ l,
    if taken : bool then
      (λ r, if bool_decide (pr_id r = pr_id new)
       then set_relation (pr_relation new) (pr_invalid_at new) r else r) <$> l
    else l ++ [new])).

Definition sqlite_invalidate_relationship (id : RelationshipId) (invalid_at : DateTime) : M unit :=
  modify (set_relationships (fmap (λ r,
    if bool_decide (pr_id r = uuid_hyphenated id)
    then set_relation (pr_relation r) (Some (rfc3339 invalid_at)) r else r))).

Definition find_entity (id : EntityId) (s : Engram X) : R (option Entity) :=
  transpose row_to_entity
    (List.find (λ r, bool_decide (nr_id r = uuid_hyphenated id)) (entity_rows s)).
Definition sqlite_get_entity (id : EntityId) : M (option Entity) := λ w,
  (find_entity id (store w), w).

(** *** [neighbors]: breadth first, over the valid relationships *)

Record Search := {
  sr_visited : gset EntityId;
  sr_entities : gmap EntityId Entity;
  sr_relationships : gmap RelationshipId Relationship;
  sr_queue : list (EntityId * Z);
}.

Definition traversed (as_of : option DateTime) (r : RelationshipRow) : bool :=
  match as_of with
  | Some t => text_le (pr_valid_from r) (rfc3339 t) && null_or (text_lt (rfc3339 t)) (pr_invalid_at r)
  | None => bool_decide (pr_invalid_at r = None)
  end.

(** [entry(k).or_insert(v)]. *)
Definition or_insert {V} (k : N) (v : V) (m : gmap N V) : gmap N V :=
  match m !! k with Some _ => m | None => <[k := v]> m end.

(** One relationship of the entity being expanded. *)
Definition visit_row (s : Engram X) (current : EntityId) (remaining : Z) (sr : Search)
    (row : RelationshipRow) : R Search :=
  rel ← row_to_relationship row;
  let next := if decide (rl_source_id rel = current) then rl_target_id rel else rl_source_id rel in
  let rels := or_insert (rl_id rel) rel (sr_relationships sr) in
  if decide (next ∈ sr_visited sr) then
    Ok (Build_Search (sr_visited sr) (sr_entities sr) rels (sr_queue sr))
  else
    entity ← find_entity next s;
    Ok (Build_Search ({[next]} ∪ sr_visited sr)
      (match entity with Some e => or_insert next e (sr_entities sr) | None => sr_entities sr end)
      rels (sr_queue sr ++ [(next, remaining - 1)])).

Fixpoint visit_rows (s : Engram X) (current : EntityId) (remaining : Z) (rows : list RelationshipRow)
    (sr : Search) : R Search :=
  match rows with
  | [] => Ok sr
  | row :: rows => sr ← visit_row s current remaining sr row; visit_rows s current remaining rows sr
  end.

Definition rows_of (s : Engram X) (as_of : option DateTime) (current : EntityId)
    : list RelationshipRow :=
  scan (base.filter (λ r, (pr_source_id r = uuid_hyphenated current
    ∨ pr_target_id r = uuid_hyphenated current) ∧ traversed as_of r = true) (relationship_rows s)).

(** The [while let] loop, on fuel: [None] when it runs out. *)
Fixpoint search_loop (fuel : nat) (s : Engram X) (as_of : option DateTime) (sr : Search)
    : option (R Search) :=
  match fuel with
  | O => None
  | Datatypes.S fuel =>
      match sr_queue sr with
      | [] => Some (Ok sr)
      | (current, remaining) :: queue =>
          let sr := Build_Search (sr_visited sr) (sr_entities sr) (sr_relationships sr) queue in
          if decide (remaining = 0) then search_loop fuel s as_of sr
          else match visit_rows s current remaining (rows_of s as_of current) sr with
            | Ok sr => search_loop fuel s as_of sr
            | Err e => Some (Err e)
            end
      end
  end.

Definition search_from (id : EntityId) (depth : Z) : Search :=
  Build_Search {[id]} ∅ ∅ [(id, depth)].
(** An entity is queued once, and every one queued after the first ends a
    relationship. *)
Definition search_fuel (s : Engram X) : nat := (2 + 2 * length (relationship_rows s))%nat.

Definition sqlite_neighbors (id : EntityId) (depth : Z) (as_of : option DateTime) : M SubGraph := λ w,
  (match search_loop (search_fuel (store w)) (store w) as_of (search_from id depth) with
   | Some (Ok sr) => Ok (Build_SubGraph (iter_map (sr_entities sr)).*2 (iter_map (sr_relationships sr)).*2)
   | Some (Err e) => Err e
   | None => Err (Graph "")
   end, w).

Definition sqlite_search_entities (query : string) (top_k : Z) : M (list Entity) :=
  found ← gets (λ s, scan (base.filter (λ r, like (nr_name r) ("%" +:+ query +:+ "%") = true) (entity_rows s)));
  of_result (mapM row_to_entity (sql_limit top_k found)).

Definition sqlite_graph_delete (scope : Scope) : M Z :=
  rels ← gets (λ s, length (base.filter (λ r, relationship_in scope r = true) (relationship_rows s)));
  modify (set_relationships (base.filter (λ r, relationship_in scope r = false))) ≫= λ _,
  ents ← gets (λ s, length (base.filter (λ r, entity_in scope r = true) (entity_rows s)));
  modify (set_entities (base.filter (λ r, entity_in scope r = false))) ≫= λ _,
  mret (Z.of_nat rels + Z.of_nat ents).

#[export] Instance SqliteGraphStore : GraphStore (Engram X) := {|
  upsert_entity := sqlite_upsert_entity; upsert_relationship := sqlite_upsert_relationship;
  invalidate_relationship := sqlite_invalidate_relationship; get_entity := sqlite_get_entity;
  neighbors := sqlite_neighbors; search_entities := sqlite_search_entities;
  graph_delete_by_scope := sqlite_graph_delete |}.
End Graph.

(** ** [SqliteMessageStore] *)

Section Messages.
Context `{!UuidOps, !ChronoOps, !JsonText, !EngramOps, !SqlOps} {X : Type}.
Abbreviation M A := (eff (Engram X) MemoryError A).

Definition row_to_message (row : MessageRow) : result MemoryError ChatMessage :=
  id ← parse_uuid (mr_id row);
  metadata ← parse_map (mr_metadata row);
  created ← parse_dt (mr_created_at row);
  Ok (Build_ChatMessage id (mr_conversation_id row) (mr_role row) (mr_content row)
    (Build_Scope (mr_org_id row) None (mr_user_id row) None) (mr_seq row) created metadata).

Definition message_row (conversation_id : string) (scope : Scope) (m : ChatMessage) : MessageRow :=
  Build_MessageRow (uuid_hyphenated (ms_id m)) conversation_id (ms_role m) (ms_content m)
    (org_id scope) (user_id scope) (ms_seq m) (rfc3339 (ms_created_at m))
    (map_column (ms_metadata m)).

(** One [INSERT] per message, each on its own. *)
Fixpoint sqlite_save_messages (conversation_id : string) (messages : list ChatMessage) (scope : Scope)
    : M (list MessageId) :=
  match messages with
  | [] => mret []
  | m :: messages =>
      let row := message_row conversation_id scope m in
      taken ← gets (λ s, existsb (λ r, bool_decide (mr_id r = mr_id row)) (message_rows s));
      if taken : bool then raise (Database constraint_failed)
      else
        modify (set_messages (λ l, l ++ [row])) ≫= λ _,
        ids ← sqlite_save_messages conversation_id messages scope;
        mret (ms_id m :: ids)
  end.

Definition in_conversation (conversation_id : string) (scope : Scope) (r : MessageRow) : bool :=
  bool_decide (mr_conversation_id r = conversation_id) && bool_decide (mr_org_id r = org_id scope).

Definition sqlite_get_messages (conversation_id : string) (last_n : option Z) (scope : Scope)
    : M (list ChatMessage) :=
  found ← gets (λ s, scan (base.filter (λ r, in_conversation conversation_id scope r = true) (message_rows s)));
  of_result (mapM row_to_message
    (match last_n with
     | Some n => merge_sort seq_asc (sql_limit (wrap_i64 n) (merge_sort seq_desc found))
     | None => merge_sort seq_asc found
     end)).

Definition sqlite_list_conversations (scope : Scope) : M (list string) :=
  gets (λ s, sort_strings (remove_dups (mr_conversation_id
    <$> base.filter (λ r, mr_org_id r = org_id scope) (message_rows s)))).

Definition sqlite_delete_messages (conversation_id : string) (scope : Scope) : M Z :=
  n ← gets (λ s, length (base.filter (λ r, in_conversation conversation_id scope r = true) (message_rows s)));
  modify (set_messages (base.filter (λ r, in_conversation conversation_id scope r = false))) ≫= λ _,
  mret (Z.of_nat n).

#[export] Instance SqliteMessageStore : MessageStore (Engram X) := {|
  save_messages := sqlite_save_messages; get_messages := sqlite_get_messages;
  list_conversations := sqlite_list_conversations; delete_messages := sqlite_delete_messages |}.
End Messages.

(** ** [EmbeddedVectorStore] *)

Definition f32_sum (l : list f32) : f32 := foldl f32_add (S754_zero false) l.
Definition compute_norm (v : list f32) : f32 := f32_sqrt (f32_sum ((λ x, f32_mul x x) <$> v)).

Definition cosine_similarity (a : list f32) (a_norm : f32) (b : list f32) (b_norm : f32) : f32 :=
  if SFeqb a_norm f64_zero || SFeqb b_norm f64_zero then S754_zero false
  else f32_div (f32_sum (zip_with f32_mul a b)) (f32_mul a_norm b_norm).

(** The order of matches: by score, best first, then by id; scores that do not
    compare count as equal. *)
Definition score_order (a b : f32) : comparison := default Eq (SFcompare a b).
Definition match_before (a b : VectorMatch) : Prop :=
  match score_order (vm_score b) (vm_score a) with
  | Lt => True
  | Eq => (vm_id a ≤ vm_id b)%N
  | Gt => False
  end.
#[export] Instance match_before_dec : RelDecision match_before.
Proof. intros a b. unfold match_before. destruct (score_order _ _); apply _. Defined.

Section Vectors.
Context `{!IterOrder N} {X : Type} (dimensions : Z).
Abbreviation M A := (eff (Engram X) MemoryError A).

Definition embedded_upsert (id : FactId) (embedding : list f32) (metadata : Value) : M unit :=
  if decide (Z.of_nat (length embedding) ≠ dimensions) then
    raise (Embedding ("dimension mismatch: expected " +:+ pretty dimensions +:+ ", got "
      +:+ pretty (Z.of_nat (length embedding))))
  else modify (set_vectors (<[id := Build_VectorEntry embedding metadata (compute_norm embedding)]>)).

(** The scope of the filter is not consulted. *)
Definition entry_match (query : list f32) (query_norm min_score : f32) (e : FactId * VectorEntry)
    : option VectorMatch :=
  let score := cosine_similarity query query_norm (ve_embedding e.2) (ve_norm e.2) in
  if SFltb score min_score then None else Some (Build_VectorMatch e.1 score (ve_metadata e.2)).

Definition embedded_search (query : list f32) (filter : VectorFilter) (top_k : Z)
    : M (list VectorMatch) :=
  let query_norm := compute_norm query in
  let min_score := default (S754_infinity true) (vf_min_score filter) in
  entries ← gets vectors;
  mret (take (Z.to_nat top_k)
    (merge_sort match_before (omap (entry_match query query_norm min_score) (iter_map entries)))).

Definition embedded_delete (id : FactId) : M unit := modify (set_vectors (delete id)).

(** Every entry goes, whatever the scope. *)
Definition embedded_delete_by_scope (_scope : Scope) : M Z :=
  count ← gets (λ s, size (vectors s));
  modify (set_vectors (λ _, ∅)) ≫= λ _,
  mret (Z.of_nat count).

Definition EmbeddedVectorStore : VectorStore (Engram X) := {|
  vec_upsert := embedded_upsert; vec_search := embedded_search; vec_delete := embedded_delete;
  vec_delete_by_scope := embedded_delete_by_scope |}.
End Vectors.
