(* ===== verification/EngramMemory.v ===== *)
(** * The memory layer's operations ([engram/src/memory.rs], [spreading.rs],
    [retrieve.rs], [temporal_parser.rs], [context.rs], [pipeline.rs],
    [conflict.rs])

    What callers do with a memory: adding facts, extracting them from a
    conversation, recalling, hybrid retrieval, context blocks, erasure. Over any
    stores and any provider of embeddings. *)

From S2P Require Import Prelude.
From S2P Require Import Json.
From S2P Require Import RustStr.
From S2P Require Import Condition.
From S2P Require Import Budget.
From S2P Require Import Engram.
Import MemoryError.

(** ** Spreading activation ([spreading.rs]) *)

Record SpreadingActivationConfig := {
  max_depth : Z; decay_factor : f32; min_activation : f32; max_activated : Z;
}.
Definition SpreadingActivationConfig_default : SpreadingActivationConfig :=
  Build_SpreadingActivationConfig 3 (f32_lit 1 2) (f32_lit 1 20) 50.

Section Spreading.
Context {S : Type} `{!GraphStore S}.
Abbreviation M A := (eff S MemoryError A).

Record Spread := {
  sp_activations : gmap EntityId f32;
  sp_visited : gset EntityId;
  sp_queue : list (EntityId * f32 * Z);
}.

Definition seed (sp : Spread) (s : EntityId * f32) : Spread :=
  Build_Spread (<[s.1 := s.2]> (sp_activations sp)) ({[s.1]} ∪ sp_visited sp)
    (sp_queue sp ++ [(s.1, s.2, 0)]).

Definition activate (child : f32) (depth : Z) (sp : Spread) (e : Entity) : Spread :=
  if decide (en_id e ∈ sp_visited sp) then sp
  else
    Build_Spread
      (<[en_id e := f_max (default (S754_zero false) (sp_activations sp !! en_id e)) child]>
        (sp_activations sp))
      ({[en_id e]} ∪ sp_visited sp) (sp_queue sp ++ [(en_id e, child, depth + 1)]).

(** The [while let] loop, on fuel: [None] when it runs out. *)
Fixpoint spread_loop (config : SpreadingActivationConfig) (fuel : nat) (sp : Spread)
    : M (option Spread) :=
  match fuel with
  | O => mret None
  | Datatypes.S fuel =>
      match sp_queue sp with
      | [] => mret (Some sp)
      | (entity_id, activation, depth) :: queue =>
          let sp := Build_Spread (sp_activations sp) (sp_visited sp) queue in
          if bool_decide (max_depth config ≤ depth)
             || bool_decide (max_activated config ≤ Z.of_nat (size (sp_activations sp)))
          then mret (Some sp)
          else
            let child := f32_mul activation (decay_factor config) in
            if SFltb child (min_activation config) then spread_loop config fuel sp
            else
              subgraph ← neighbors entity_id 1 None;
              spread_loop config fuel (foldl (activate child depth) sp (sg_entities subgraph))
      end
  end.

(** Every entity queued after the seeds adds an activation. *)
Definition spread_fuel (config : SpreadingActivationConfig) (seeds : list (EntityId * f32)) : nat :=
  (length seeds + Z.to_nat (max_activated config) + 2)%nat.

Definition spread (seeds : list (EntityId * f32)) (config : SpreadingActivationConfig)
    : M (gmap EntityId f32) :=
  sp ← spread_loop config (spread_fuel config seeds) (foldl seed (Build_Spread ∅ ∅ []) seeds);
  mret (from_option sp_activations ∅ sp).
End Spreading.

(** ** The intent of a query ([temporal_parser.rs]) *)

Inductive TemporalIntent := Duration | Recency | Ordering | PointInTime.
Record TemporalQuery := { tq_intent : TemporalIntent; tq_confidence : f32 }.

Definition MONTHS : string :=
  "january|february|march|april|may|june|july|august|september|october|november|december|".
Definition DURATION_RE : string :=
  "(?i)\b(how\s+many\s+(days?|weeks?|months?|years?|hours?)|how\s+long|duration|elapsed|apart)\b".
Definition RECENCY_RE : string :=
  "(?i)\b(recently|last\s+time|most\s+recent|latest|newest|current(ly)?)\b".
Definition ORDERING_RE : string :=
  "(?i)\b(before|after|first|last|earlier|later|previous|next|in\s+what\s+order|chronolog|sequence)\b".
Definition POINT_IN_TIME_RE : string :=
  "(?i)\b(when\s+did|what\s+date|what\s+day|on\s+(" +:+ MONTHS +:+ "\d{1,2})|in\s+(" +:+ MONTHS
  +:+ "20\d{2}))\b".
Definition PREFERENCE_RE : string :=
  "(?i)\b(can\s+you\s+(recommend|suggest)|recommend\s+(some|me)|suggest\s+(some|me|a\b)|tips?\s+for|advice\s+for|ideas?\s+for|activities?\s+for|recipes?\s+for|ways?\s+to|what\s+should\s+i)\b".
Definition ASSISTANT_RE : string :=
  "(?i)(you\s+(said|told|recommended|suggested|mentioned|provided|gave|listed|explained)|what\s+did\s+you\s+(recommend|suggest|say|tell)|what\s+was\s+the\s+.+?\s+you\s+(recommend|suggest)(ed)?|the\s+.+?\s+you\s+(recommend|suggest)(ed)?|your\s+recommendation|did\s+you\s+(recommend|suggest|say|mention))".

Section Intent.
Context `{!EngramOps}.

Definition detect_temporal_intent (query : string) : option TemporalQuery :=
  if is_match DURATION_RE query then Some (Build_TemporalQuery Duration (f32_lit 9 10))
  else if is_match POINT_IN_TIME_RE query then Some (Build_TemporalQuery PointInTime (f32_lit 85 100))
  else if is_match ORDERING_RE query then Some (Build_TemporalQuery Ordering (f32_lit 8 10))
  else if is_match RECENCY_RE query then Some (Build_TemporalQuery Recency (f32_lit 75 100))
  else None.

Definition detect_category_intent (query : string) : option string :=
  if is_match ASSISTANT_RE query then Some "assistant_recommendation"
  else if is_match PREFERENCE_RE query then Some "preference"
  else None.

(** ** Scores ([retrieve.rs]) *)

Record RetrievalConfig := {
  vector_weight : f32; keyword_weight : f32; graph_weight : f32; temporal_weight : f32;
  importance_weight : f32; confidence_weight : f32; confidence_half_life_days : f64;
}.
Definition RetrievalConfig_default : RetrievalConfig :=
  Build_RetrievalConfig (f32_lit 1 4) (f32_lit 1 10) (f32_lit 15 100) (f32_lit 1 4) (f32_lit 1 10)
    (f32_lit 15 100) (f64_of_Z 90).

Definition f32_adds (l : list f32) : f32 :=
  match l with [] => S754_zero false | x :: l => foldl f32_add x l end.

Definition non_temporal_weights (c : RetrievalConfig) : f32 * f32 * f32 * f32 * f32 :=
  let total := f32_adds [vector_weight c; keyword_weight c; graph_weight c; importance_weight c;
    confidence_weight c] in
  let scale := f32_div (f32_add total (temporal_weight c)) total in
  (f32_mul (vector_weight c) scale, f32_mul (keyword_weight c) scale,
   f32_mul (graph_weight c) scale, f32_mul (importance_weight c) scale,
   f32_mul (confidence_weight c) scale).

Definition calibrated_confidence (fact : Fact) (half_life_days : f64) (now : DateTime) : f32 :=
  let confidence := default (f32_of_Z 1) (ft_confidence fact) in
  let age_days := f64_of_Z (Z.max (num_days (now - ft_valid_from fact)) 0) in
  let decay := powf (f64_lit 1 2) (f64_div age_days half_life_days) in
  f32_of_f64 (f64_mul confidence decay).

Definition node_importance (fact : Fact) : f32 :=
  let entity_degree := f32_of_Z (Z.of_nat (length (ft_entity_refs fact))) in
  let access_log := ln_ (f32_add (f32_of_Z 1) (f32_of_Z (ft_access_count fact))) in
  f_min (f32_div (f32_add entity_degree access_log) (f32_of_Z 10)) (f32_of_Z 1).

Definition temporal_proximity (fact : Fact) (anchor : DateTime) : f32 :=
  let distance_days := f64_of_Z (Z.abs (num_days (ft_valid_from fact - anchor))) in
  let sigma := f64_of_Z 30 in
  f32_of_f64 (exp_ (f64_div (f64_mul (SFopp distance_days) distance_days)
    (f64_mul (f64_mul (f64_of_Z 2) sigma) sigma))).
End Intent.

Record ScoredFact := {
  sf_fact : Fact; sf_score : f32; sf_vector : f32; sf_keyword : f32; sf_graph : f32;
  sf_temporal : f32; sf_importance : f32; sf_confidence : f32;
}.

Definition better (a b : ScoredFact) : Prop :=
  match SFcompare (sf_score b) (sf_score a) with Some Gt => False | _ => True end.
#[export] Instance better_dec : RelDecision better.
Proof. intros a b. unfold better. destruct (SFcompare _ _) as [[]|]; apply _. Defined.

Record Scores := { sc_vector : f32; sc_keyword : f32; sc_graph : f32 }.
Definition no_scores : Scores := Build_Scores (S754_zero false) (S754_zero false) (S754_zero false).
Definition set_vector (x : f32) (s : Scores) : Scores := Build_Scores x (sc_keyword s) (sc_graph s).
Definition set_keyword (x : f32) (s : Scores) : Scores := Build_Scores (sc_vector s) x (sc_graph s).
Definition set_graph (x : f32) (s : Scores) : Scores := Build_Scores (sc_vector s) (sc_keyword s) x.

(** [entry(id).or_insert((0.0, 0.0, 0.0))], and one of its scores set. *)
Definition score_entry (f : Scores → Scores) (id : FactId) (m : gmap FactId Scores)
    : gmap FactId Scores :=
  <[id := f (default no_scores (m !! id))]> m.

Definition MIN_CANDIDATES (candidate_k : Z) : Z := Z.max candidate_k 1.

Section Retrieve.
Context `{!EngramOps, !IterOrder N} {S : Type} `{!FactStore S, !VectorStore S, !GraphStore S}.
Context (embed : Embed S) (config : RetrievalConfig).
Abbreviation M A := (eff S MemoryError A).

(** The embedding of one text: the last one the provider answers. *)
Definition embed_one (empty : string) (text : string) : M (list f32) :=
  embeddings ← embed [text];
  of_result (ok_or (Embedding empty) (last embeddings)).
(** The first one. *)
Definition embed_first (empty : string) (text : string) : M (list f32) :=
  embeddings ← embed [text];
  of_result (ok_or (Embedding empty) (head embeddings)).

(** The facts an activated entity's name finds. *)
Definition entity_facts (scope : Scope) (e : EntityId * f32) (found : gmap FactId f32)
    : M (gmap FactId f32) :=
  r ← as_result (get_entity e.1);
  match r with
  | Ok (Some entity) =>
      facts ← keyword_search (en_name entity) scope 5;
      mret (foldl (λ m f, <[ft_id f := f_max (default (S754_zero false) (m !! ft_id f)) e.2]> m) found facts)
  | _ => mret found
  end.
Fixpoint graph_facts (scope : Scope) (l : list (EntityId * f32)) (found : gmap FactId f32)
    : M (gmap FactId f32) :=
  match l with
  | [] => mret found
  | e :: l => found ← entity_facts scope e found; graph_facts scope l found
  end.

Definition merge_scores (vector_matches : list VectorMatch) (keyword_matches : list Fact)
    (graph_fact_ids : gmap FactId f32) (candidate_k : Z) : gmap FactId Scores :=
  let scored := foldl (λ m vm, score_entry (set_vector (vm_score vm)) (vm_id vm) m) ∅ vector_matches in
  let scored := foldl (λ m p,
      let kw_score := f32_sub (f32_of_Z 1)
        (f32_div (f32_of_Z (Z.of_nat p.1)) (f32_of_Z (MIN_CANDIDATES candidate_k))) in
      score_entry (set_keyword kw_score) (ft_id p.2) m)
    scored (imap pair keyword_matches) in
  foldl (λ m p, score_entry (set_graph p.2) p.1 m) scored (iter_map graph_fact_ids).

Definition score_fact (query : string) (anchor now : DateTime) (fact : Fact) (s : Scores) : ScoredFact :=
  let temporal := detect_temporal_intent query in
  let ts := match temporal with Some _ => temporal_proximity fact anchor | None => S754_zero false end in
  let im := node_importance fact in
  let cs := calibrated_confidence fact (confidence_half_life_days config) now in
  let '(vs, ks, gs) := (sc_vector s, sc_keyword s, sc_graph s) in
  let final_score := match temporal with
    | Some _ =>
        f32_adds [f32_mul vs (vector_weight config); f32_mul ks (keyword_weight config);
          f32_mul gs (graph_weight config); f32_mul ts (temporal_weight config);
          f32_mul im (importance_weight config); f32_mul cs (confidence_weight config)]
    | None =>
        let '(vw, kw, gw, iw, cw) := non_temporal_weights config in
        f32_adds [f32_mul vs vw; f32_mul ks kw; f32_mul gs gw; f32_mul im iw; f32_mul cs cw]
    end in
  let final_score := match detect_category_intent query with
    | Some c => if decide (ft_category fact = Some c) then f32_add final_score (f32_lit 3 10) else final_score
    | None => final_score
    end in
  Build_ScoredFact fact final_score vs ks gs ts im cs.

(** The candidates that can be read and are valid now, with their scores. *)
Fixpoint score_candidates (query : string) (anchor : DateTime) (l : list (FactId * Scores))
    : M (list ScoredFact) :=
  match l with
  | [] => mret []
  | (id, s) :: l =>
      r ← as_result (get_fact id);
      now ← utc_now;
      rest ← score_candidates query anchor l;
      mret (match r with
        | Ok fact => if is_valid_at fact now then score_fact query anchor now fact s :: rest else rest
        | Err _ => rest
        end)
  end.

Definition record_accesses (ids : list FactId) : M unit :=
  for_each ids (λ id, as_result (record_access id) ≫= λ _, mret tt).

(** [HybridRetriever::search]. *)
Definition hybrid_search (query : string) (scope : Scope) (top_k : Z) : M (list ScoredFact) :=
  let candidate_k := wrap_u64 (top_k * 3) in
  query_vec ← embed_first "empty embedding" query;
  vector_matches ← vec_search query_vec (Build_VectorFilter (Some scope) None) candidate_k;
  keyword_matches ← keyword_search query scope candidate_k;
  graph_entities ← search_entities query 5;
  let seeds := (λ e, (en_id e, f32_of_Z 1)) <$> graph_entities in
  activations ← spread seeds SpreadingActivationConfig_default;
  graph_fact_ids ← graph_facts scope (iter_map activations) ∅;
  anchor ← utc_now;
  results ← score_candidates query anchor
    (iter_map (merge_scores vector_matches keyword_matches graph_fact_ids candidate_k));
  let results := take (Z.to_nat top_k) (merge_sort better results) in
  record_accesses (ft_id ∘ sf_fact <$> results) ≫= λ _,
  mret results.
End Retrieve.

(** ** Context blocks ([context.rs]) *)

Module OutputFormat.
Inductive OutputFormat := SystemPrompt | Markdown | Raw.
End OutputFormat.
Export OutputFormat (OutputFormat).

Record ContextConfig := { token_budget : Z; cx_format : OutputFormat; max_candidates : Z }.
Definition ContextConfig_default : ContextConfig := Build_ContextConfig 2000 OutputFormat.SystemPrompt 100.

Record ContextBlock := {
  cb_text : string; cb_token_count : Z; cb_facts_included : Z; cb_facts_omitted : Z;
  cb_tier_breakdown : gmap string Z;
}.

(** [CharTokenEstimator]. *)
Definition estimate (text : string) : Z := (str_len text + 3) `div` 4.

Definition tier_priority (t : MemoryTier) : Z :=
  match t with MemoryTier.Working => 0 | MemoryTier.Conversation => 1 | MemoryTier.Knowledge => 2 end.
Definition tier_before (a b : Fact) : Prop := tier_priority (ft_tier a) ≤ tier_priority (ft_tier b).
#[export] Instance tier_before_dec : RelDecision tier_before.
Proof. intros a b. unfold tier_before. apply _. Defined.
Definition sort_by_tier_priority (facts : list Fact) : list Fact := merge_sort tier_before facts.

Definition tier_name (t : MemoryTier) : string :=
  match t with
  | MemoryTier.Working => "working" | MemoryTier.Conversation => "conversation"
  | MemoryTier.Knowledge => "knowledge"
  end.

Definition LF : string := String (Ascii.ascii_of_nat 10) EmptyString.

Section Context_.
Context `{!EngramOps, !JsonText, !UuidOps}.

Definition starts_with_digit (s : string) : bool :=
  match s with
  | String c _ => let n := Ascii.N_of_ascii c in ((48 <=? n) && (n <=? 57))%N
  | EmptyString => false
  end.

Definition format_fact_line (now : DateTime) (fact : Fact) : string :=
  let plain := "- " +:+ ft_text fact in
  if decide (ft_valid_from fact `div` DAY ≠ now `div` DAY) then
    "- [" +:+ date_text (ft_valid_from fact) +:+ "] " +:+ ft_text fact
  else match map_get "event_date" (ft_metadata fact) ≫= as_str with
    | Some event_date =>
        if starts_with_digit event_date then "- [" +:+ event_date +:+ "] " +:+ ft_text fact else plain
    | None => plain
    end.

Definition of_tier (t : MemoryTier) (facts : list Fact) : list Fact :=
  base.filter (λ f, ft_tier f = t) facts.
Definition lines (l : list string) : string := foldr (λ s rest, s +:+ LF +:+ rest) "" l.
Definition tier_section (now : DateTime) (t : MemoryTier) (facts : list Fact) : string :=
  match of_tier t facts with
  | [] => ""
  | l => "<" +:+ tier_name t +:+ ">" +:+ LF +:+ lines (format_fact_line now <$> l)
      +:+ "</" +:+ tier_name t +:+ ">" +:+ LF
  end.

Definition format_system_prompt (now : DateTime) (facts : list Fact) : string :=
  "<memory>" +:+ LF +:+ tier_section now MemoryTier.Working facts
  +:+ tier_section now MemoryTier.Conversation facts
  +:+ tier_section now MemoryTier.Knowledge facts +:+ "</memory>".

Definition tier_label (t : MemoryTier) : string :=
  match t with
  | MemoryTier.Working => "Working Memory" | MemoryTier.Conversation => "Conversation"
  | MemoryTier.Knowledge => "Knowledge"
  end.
Fixpoint markdown_lines (now : DateTime) (current : option MemoryTier) (facts : list Fact) : string :=
  match facts with
  | [] => ""
  | f :: facts =>
      (if decide (current = Some (ft_tier f)) then ""
       else "### " +:+ tier_label (ft_tier f) +:+ LF +:+ LF)
      +:+ format_fact_line now f +:+ LF +:+ markdown_lines now (Some (ft_tier f)) facts
  end.
Definition format_markdown (now : DateTime) (facts : list Fact) : string :=
  "## Memory Context" +:+ LF +:+ LF +:+ markdown_lines now None facts.

Definition format_raw (facts : list Fact) : string :=
  json_pretty (Array ((λ f, obj [("id", Str (uuid_hyphenated (ft_id f))); ("text", Str (ft_text f));
    ("tier", Str (tier_name (ft_tier f))); ("category", opt_val Str (ft_category f));
    ("confidence", opt_val f64_to_value (ft_confidence f))]) <$> facts)).

Definition format_overhead (f : OutputFormat) : Z :=
  match f with
  | OutputFormat.SystemPrompt => 15 | OutputFormat.Markdown => 13 | OutputFormat.Raw => 5
  end.

Definition fact_tokens (f : Fact) : Z := estimate (ft_text f) + 2.
(** Greedy filling: a fact that does not fit is skipped for smaller ones. *)
Fixpoint fill_budget (budget token_count : Z) (facts : list Fact) : list Fact :=
  match facts with
  | [] => []
  | f :: facts =>
      if decide (budget < token_count + fact_tokens f) then fill_budget budget token_count facts
      else f :: fill_budget budget (token_count + fact_tokens f) facts
  end.

Definition tier_breakdown (included : list Fact) : gmap string Z :=
  foldl (λ m f, let k := tier_name (ft_tier f) in <[k := default 0 (m !! k) + 1]> m) ∅ included.

Definition format_facts (f : OutputFormat) (now : DateTime) (facts : list Fact) : string :=
  match f with
  | OutputFormat.SystemPrompt => format_system_prompt now facts
  | OutputFormat.Markdown => format_markdown now facts
  | OutputFormat.Raw => format_raw facts
  end.

(** What [ContextBuilder::build] makes of the facts it retrieved. *)
Definition assemble (config : ContextConfig) (now : DateTime) (scored : list ScoredFact) : ContextBlock :=
  let facts := sort_by_tier_priority (sf_fact <$> scored) in
  let budget := usat_sub (token_budget config) (format_overhead (cx_format config)) in
  let included := fill_budget budget 0 facts in
  let text := format_facts (cx_format config) now included in
  {| cb_text := text; cb_token_count := estimate text;
     cb_facts_included := Z.of_nat (length included);
     cb_facts_omitted := Z.of_nat (length facts) - Z.of_nat (length included);
     cb_tier_breakdown := tier_breakdown included |}.

Definition build_context `{!IterOrder N} {S} `{!FactStore S, !VectorStore S, !GraphStore S}
    (embed : Embed S) (config : ContextConfig) (query : string) (scope : Scope)
    : eff S MemoryError ContextBlock :=
  scored ← hybrid_search embed RetrievalConfig_default query scope (max_candidates config);
  now ← utc_now;
  mret (assemble config now scored).
End Context_.

(** ** Extraction ([pipeline.rs]) and conflicts ([conflict.rs]) *)

Section Extraction.
Context `{!EngramOps} {S : Type} (llm : Llm S) (system_prompt : string).
Abbreviation M A := (eff S MemoryError A).

Definition kept_category (skip : list string) (f : ExtractedFact) : bool :=
  match ef_category f with Some c => negb (bool_decide (c ∈ skip)) | None => true end.

Definition extract (config : ExtractionConfig) (messages : list Message) : M (list ExtractedFact) :=
  match messages with
  | [] => mret []
  | _ =>
      let conversation := str_join LF ((λ m, mg_role m +:+ ": " +:+ mg_content m) <$> messages) in
      let system := match custom_prompt config with
        | Some custom => system_prompt +:+ LF +:+ LF +:+ "Additional instructions:" +:+ LF +:+ custom
        | None => system_prompt
        end in
      response ← llm system conversation;
      facts ← of_result (map_err (λ e, Serialization ("extraction parse error: " +:+ e))
        (facts_from_value response));
      let facts := base.filter (λ f, ef_text f ≠ "") facts in
      mret (base.filter (λ f, kept_category (skip_categories config) f = true) facts)
  end.
End Extraction.

Record ConflictResult := {
  cr_verdict : ConflictVerdict; cr_existing_fact_id : option FactId;
  cr_similarity : option f32; cr_reason : option string;
}.

Section Conflict.
Context {S : Type} `{!FactStore S, !VectorStore S}.
Context (embed : Embed S) (llm : Llm S) (system_prompt : string) (similarity_threshold : f32).

Definition verdict_of (s : string) : ConflictVerdict :=
  if decide (s = "contradicts") then ConflictVerdict.Contradicts
  else if decide (s = "duplicate") then ConflictVerdict.Duplicate
  else ConflictVerdict.Refines.

(** [ConflictDetector::check]. *)
Definition check_conflict (new_text : string) (scope : Scope) : eff S MemoryError ConflictResult :=
  new_embedding ← embed_first embed "empty embedding result" new_text;
  matches ← vec_search new_embedding (Build_VectorFilter (Some scope) (Some similarity_threshold)) 5;
  match matches with
  | [] => mret (Build_ConflictResult ConflictVerdict.NoConflict None None None)
  | top_match :: _ =>
      if SFltb (f32_lit 99 100) (vm_score top_match) then
        mret (Build_ConflictResult ConflictVerdict.Duplicate (Some (vm_id top_match))
          (Some (vm_score top_match)) (Some "near-identical embedding"))
      else
        existing ← as_result (get_fact (vm_id top_match));
        now ← utc_now;
        match match existing with Ok f => if is_valid_at f now then Some (ft_text f) else None | Err _ => None end with
        | None => mret (Build_ConflictResult ConflictVerdict.NoConflict None
            (Some (vm_score top_match)) (Some "existing fact is invalid or not found"))
        | Some existing_text =>
            let quote := String (Ascii.ascii_of_nat 34) EmptyString in
            response ← llm system_prompt ("Existing fact: " +:+ quote +:+ existing_text +:+ quote
              +:+ LF +:+ "New fact: " +:+ quote +:+ new_text +:+ quote);
            mret (Build_ConflictResult
              (verdict_of (default "refines" (get "verdict" response ≫= as_str)))
              (Some (vm_id top_match)) (Some (vm_score top_match)) (get "reason" response ≫= as_str))
        end
  end.
End Conflict.

(** ** [Memory] ([memory.rs]) *)

Record RecallQuery := {
  rq_query : string; rq_scope : option Scope; rq_max_results : Z; rq_as_of : option DateTime;
  rq_min_score : option f32;
}.

Section Memory.
Context `{!EngramOps, !UuidOps, !JsonText, !IterOrder N} {S : Type}.
Context `{!FactStore S, !VectorStore S, !GraphStore S} (embed : Embed S).
Abbreviation M A := (eff S MemoryError A).

Definition NO_EMBEDDING : string := "provider returned empty embeddings".

Definition add_fact (text : string) (scope : Scope) : M FactId :=
  embedding ← embed_one embed NO_EMBEDDING text;
  fact ← Fact_new text scope;
  id ← insert_fact (with_embedding embedding fact);
  vec_upsert id embedding (obj [("fact_id", Str (uuid_hyphenated id))]) ≫= λ _,
  mret id.

(** The facts of the matches, those that can be read, are valid and in scope; an
    access of each is recorded. *)
Fixpoint recall_matches (q : RecallQuery) (matches : list VectorMatch) : M (list Fact) :=
  match matches with
  | [] => mret []
  | vm :: matches =>
      r ← as_result (get_fact (vm_id vm));
      match r with
      | Ok fact =>
          now ← utc_now;
          let valid := is_valid_at fact (default now (rq_as_of q)) in
          let visible := match rq_scope q with
            | Some scope => Scope.contains scope (ft_scope fact) | None => true end in
          if negb valid then recall_matches q matches
          else if negb visible then recall_matches q matches
          else
            as_result (record_access (ft_id fact)) ≫= λ _,
            rest ← recall_matches q matches;
            mret (fact :: rest)
      | Err (NotFound _) => recall_matches q matches
      | Err e => raise e
      end
  end.

Definition recall (q : RecallQuery) : M (list Fact) :=
  let max_results := if decide (rq_max_results q = 0) then 10 else rq_max_results q in
  query_vec ← embed_one embed NO_EMBEDDING (rq_query q);
  matches ← vec_search query_vec (Build_VectorFilter (rq_scope q) (rq_min_score q)) max_results;
  recall_matches q matches.

Definition scoped_filter (scope : option Scope) : FactFilter :=
  match scope with Some s => with_scope s FactFilter_new | None => FactFilter_new end.
Definition memory_list_facts (scope : option Scope) : M (list Fact) := list_facts (scoped_filter scope).
Definition memory_export (scope : option Scope) : M (list Fact) := export (scoped_filter scope).

Definition forget (id : FactId) : M unit := invalidate_fact id ≫= λ _, vec_delete id.

Definition delete_user_data (scope : Scope) : M Z :=
  fact_count ← delete_scope_data scope;
  vec_delete_by_scope scope ≫= λ _,
  graph_delete_by_scope scope ≫= λ _,
  mret fact_count.

Definition memory_stats : M StoreStats := stats.

Definition mismatch (got expected : nat) : string :=
  "provider returned " +:+ pretty got +:+ " embeddings for " +:+ pretty expected
  +:+ " texts (cardinality mismatch)".

Fixpoint import_loop (l : list (Fact * list f32)) (imported : Z) : M Z :=
  match l with
  | [] => mret imported
  | (fact, embedding) :: l =>
      insert_fact (with_embedding embedding fact) ≫= λ _,
      vec_upsert (ft_id fact) embedding (obj [("fact_id", Str (uuid_hyphenated (ft_id fact)))]) ≫= λ _,
      import_loop l (imported + 1)
  end.
Definition memory_import (facts : list Fact) : M Z :=
  match facts with
  | [] => mret 0
  | _ =>
      embeddings ← embed (ft_text <$> facts);
      if decide (length embeddings ≠ length facts) then
        raise (Embedding (mismatch (length embeddings) (length facts)))
      else import_loop (zip facts embeddings) 0
  end.

(** *** [add_messages] *)

(** The entities of a fact, by name: a later one of a name replaces it. *)
Fixpoint store_entities (scope : Scope) (l : list ExtractedEntity) (ids : gmap string EntityId)
    : M (gmap string EntityId) :=
  match l with
  | [] => mret ids
  | e :: l =>
      entity ← Entity_new (ee_name e) scope (default "unknown" (ee_type e));
      upsert_entity entity ≫= λ _,
      store_entities scope l (<[ee_name e := en_id entity]> ids)
  end.

Definition store_relationship (scope : Scope) (ids : gmap string EntityId) (r : ExtractedRelationship)
    : M unit :=
  match ids !! er_source r, ids !! er_target r with
  | Some src, Some tgt =>
      rel ← Relationship_new src (er_relation r) tgt scope;
      upsert_relationship rel
  | _, _ => mret tt
  end.

(** When a fact became valid, and its metadata: the session's time, or else the
    date the fact names. *)
Definition grounded (f : Fact) (e : ExtractedFact) (timestamp : option DateTime) : Fact :=
  let metadata := match ef_event_date e with
    | Some d => map_insert "event_date" (Str d) (ft_metadata f) | None => ft_metadata f end in
  let valid_from := match timestamp with
    | Some ts => ts
    | None => default (ft_valid_from f) (ef_event_date e ≫= date_parse)
    end in
  fact_with f (ft_tier f) (ef_category e) (ft_source f) (Some (f32_of_f64 (ef_confidence e)))
    valid_from (ft_entity_refs f) metadata.

Definition store_extracted (scope : Scope) (timestamp : option DateTime) (e : ExtractedFact)
    (embedding : list f32) : M FactId :=
  fact ← Fact_new (ef_text e) scope;
  id ← insert_fact (with_embedding embedding (grounded fact e timestamp));
  vec_upsert id embedding (obj []) ≫= λ _,
  ids ← store_entities scope (ef_entities e) ∅;
  for_each (ef_relationships e) (store_relationship scope ids) ≫= λ _,
  mret id.

Fixpoint store_all (scope : Scope) (timestamp : option DateTime)
    (l : list (ExtractedFact * list f32)) : M (list FactId) :=
  match l with
  | [] => mret []
  | (e, embedding) :: l =>
      id ← store_extracted scope timestamp e embedding;
      ids ← store_all scope timestamp l;
      mret (id :: ids)
  end.

Definition add_messages (llm : Llm S) (system_prompt : string) (messages : list Message)
    (scope : Scope) (config : ExtractionConfig) (timestamp : option DateTime) : M (list FactId) :=
  facts ← extract llm system_prompt config messages;
  embeddings ← match facts with [] => mret [] | _ => embed (ef_text <$> facts) end;
  if decide (length embeddings ≠ length facts) then
    raise (Embedding (mismatch (length embeddings) (length facts)))
  else store_all scope timestamp (zip facts embeddings).
End Memory.

(** *** Conversations: without a message store there are none *)

Section Chat.
Context {S : Type} (message_store : option (MessageStore S)).
Abbreviation M A := (eff S MemoryError A).
Definition with_store {A} (f : MessageStore S → M A) : M A :=
  match message_store with
  | Some store => f store
  | None => raise (Database "message store not configured")
  end.
Definition save_chat_messages (conversation_id : string) (messages : list ChatMessage) (scope : Scope)
    : M (list MessageId) := with_store (λ _, save_messages conversation_id messages scope).
Definition get_chat_messages (conversation_id : string) (last_n : option Z) (scope : Scope)
    : M (list ChatMessage) := with_store (λ _, get_messages conversation_id last_n scope).
Definition memory_list_conversations (scope : Scope) : M (list string) :=
  with_store (λ _, list_conversations scope).
Definition delete_chat_messages (conversation_id : string) (scope : Scope) : M Z :=
  with_store (λ _, delete_messages conversation_id scope).
End Chat.
