(* ===== verification/EngramConsolidate.v ===== *)
(** * Consolidation of memories ([engram/src/consolidation.rs])

    The eight operations that keep long-term memory in shape, and a cycle of
    them, over any stores, provider of embeddings and model. *)

From S2P Require Import Prelude.
From S2P Require Import Json.
From S2P Require Import RustStr.
From S2P Require Import Engram.
From S2P Require Import EngramMemory.
Import MemoryError.

Module ConsolidationOp.
Inductive ConsolidationOp :=
| Decay | Promote | Dedup | Summarize | Reflect | EntitySummary | PreferenceRollup
| TimelineBuilder.
End ConsolidationOp.
Export ConsolidationOp (ConsolidationOp).

Record ConsolidationConfig := {
  enabled_ops : list ConsolidationOp; cc_decay_factor : f64; half_life_days : f64;
  archive_threshold : f32; promote_access_count : Z; dedup_similarity : f32;
  summarize_threshold : Z; reflect_min_facts : Z; max_llm_calls : Z;
}.
Definition ConsolidationConfig_default : ConsolidationConfig := {|
  enabled_ops := [ConsolidationOp.Decay; ConsolidationOp.Promote; ConsolidationOp.Dedup;
    ConsolidationOp.Summarize; ConsolidationOp.Reflect; ConsolidationOp.EntitySummary;
    ConsolidationOp.PreferenceRollup; ConsolidationOp.TimelineBuilder];
  cc_decay_factor := f64_lit 95 100; half_life_days := f64_of_Z 30;
  archive_threshold := f32_lit 3 10; promote_access_count := 3;
  dedup_similarity := f32_lit 95 100; summarize_threshold := 100; reflect_min_facts := 10;
  max_llm_calls := 10 |}.

Record ConsolidationResult := {
  facts_decayed : Z; facts_archived : Z; facts_promoted : Z; facts_deduped : Z;
  facts_summarized : Z; insights_generated : Z; entity_summaries_generated : Z;
  preferences_rolled_up : Z; timeline_events_ordered : Z; llm_calls_used : Z;
}.
Definition ConsolidationResult_default : ConsolidationResult :=
  Build_ConsolidationResult 0 0 0 0 0 0 0 0 0 0.

Section Results.
Variable r : ConsolidationResult.
Definition set_decay (decayed archived : Z) := Build_ConsolidationResult decayed archived
  (facts_promoted r) (facts_deduped r) (facts_summarized r) (insights_generated r)
  (entity_summaries_generated r) (preferences_rolled_up r) (timeline_events_ordered r)
  (llm_calls_used r).
Definition set_promoted (n : Z) := Build_ConsolidationResult (facts_decayed r) (facts_archived r)
  n (facts_deduped r) (facts_summarized r) (insights_generated r)
  (entity_summaries_generated r) (preferences_rolled_up r) (timeline_events_ordered r)
  (llm_calls_used r).
Definition set_deduped (n : Z) := Build_ConsolidationResult (facts_decayed r) (facts_archived r)
  (facts_promoted r) n (facts_summarized r) (insights_generated r)
  (entity_summaries_generated r) (preferences_rolled_up r) (timeline_events_ordered r)
  (llm_calls_used r).
Definition set_summarized (n : Z) (calls : Z) := Build_ConsolidationResult (facts_decayed r)
  (facts_archived r) (facts_promoted r) (facts_deduped r) n (insights_generated r)
  (entity_summaries_generated r) (preferences_rolled_up r) (timeline_events_ordered r)
  (llm_calls_used r + calls).
Definition set_insights (n : Z) (calls : Z) := Build_ConsolidationResult (facts_decayed r)
  (facts_archived r) (facts_promoted r) (facts_deduped r) (facts_summarized r) n
  (entity_summaries_generated r) (preferences_rolled_up r) (timeline_events_ordered r)
  (llm_calls_used r + calls).
Definition set_entity_summaries (n : Z) (calls : Z) := Build_ConsolidationResult (facts_decayed r)
  (facts_archived r) (facts_promoted r) (facts_deduped r) (facts_summarized r)
  (insights_generated r) n (preferences_rolled_up r) (timeline_events_ordered r)
  (llm_calls_used r + calls).
Definition set_rolled_up (n : Z) (calls : Z) := Build_ConsolidationResult (facts_decayed r)
  (facts_archived r) (facts_promoted r) (facts_deduped r) (facts_summarized r)
  (insights_generated r) (entity_summaries_generated r) n (timeline_events_ordered r)
  (llm_calls_used r + calls).
Definition set_ordered (n : Z) := Build_ConsolidationResult (facts_decayed r) (facts_archived r)
  (facts_promoted r) (facts_deduped r) (facts_summarized r) (insights_generated r)
  (entity_summaries_generated r) (preferences_rolled_up r) n (llm_calls_used r).
End Results.

(** Patches of one field. *)
Definition confidence_patch (c : f32) : FactPatch :=
  Build_FactPatch None None None None (Some c) None None [].
Definition tier_patch (t : MemoryTier) : FactPatch :=
  Build_FactPatch None (Some t) None None None None None [].
Definition superseded_patch (by_ : FactId) : FactPatch :=
  Build_FactPatch None None None None None None (Some by_) [].
Definition metadata_patch (m : Map) : FactPatch :=
  Build_FactPatch None None None None None None None m.

Section Consolidate.
Context `{!EngramOps, !UuidOps, !IterOrder N} {S : Type} `{!FactStore S, !VectorStore S}.
Context (embed : Embed S) (config : ConsolidationConfig).
(** The system prompt of each operation that asks a model. *)
Context (prompts : ConsolidationOp → string).
Abbreviation M A := (eff S MemoryError A).

(** ** Decay *)

Definition MILLIS_PER_DAY : f64 := f64_of_Z 86400000.

Definition decayed_confidence (now : DateTime) (fact : Fact) : f32 :=
  let days_elapsed :=
    f64_div (f64_of_Z (num_milliseconds (now - default (ft_created_at fact) (ft_last_accessed fact))))
      MILLIS_PER_DAY in
  f32_of_f64 (f64_mul (default (f32_of_Z 1) (ft_confidence fact))
    (powf (cc_decay_factor config) (f64_div days_elapsed (half_life_days config)))).

(** Whether any time has passed, and the confidence moved by a thousandth. *)
Definition decays (now : DateTime) (fact : Fact) : bool :=
  let days_elapsed :=
    f64_div (f64_of_Z (num_milliseconds (now - default (ft_created_at fact) (ft_last_accessed fact))))
      MILLIS_PER_DAY in
  negb (f64_le days_elapsed f64_zero)
  && negb (SFltb (SFabs (f32_sub (decayed_confidence now fact)
       (default (f32_of_Z 1) (ft_confidence fact)))) (f32_lit 1 1000)).

Fixpoint decay_facts (now : DateTime) (facts : list Fact) (decayed archived : Z) : M (Z * Z) :=
  match facts with
  | [] => mret (decayed, archived)
  | fact :: facts =>
      if negb (decays now fact) then decay_facts now facts decayed archived
      else
        let c := decayed_confidence now fact in
        if SFltb c (archive_threshold config) then
          invalidate_fact (ft_id fact) ≫= λ _,
          vec_delete (ft_id fact) ≫= λ _,
          decay_facts now facts (decayed + 1) (archived + 1)
        else
          update_fact (ft_id fact) (confidence_patch c) ≫= λ _,
          decay_facts now facts (decayed + 1) archived
  end.

Definition op_decay (scope : Scope) : M (Z * Z) :=
  facts ← list_facts (with_tier MemoryTier.Knowledge (with_scope scope FactFilter_new));
  now ← utc_now;
  decay_facts now facts 0 0.

(** ** Promote *)

Fixpoint promote_facts (facts : list Fact) (promoted : Z) : M Z :=
  match facts with
  | [] => mret promoted
  | fact :: facts =>
      if decide (promote_access_count config ≤ ft_access_count fact) then
        update_fact (ft_id fact) (tier_patch MemoryTier.Knowledge) ≫= λ _,
        promote_facts facts (promoted + 1)
      else promote_facts facts promoted
  end.

Definition op_promote (scope : Scope) : M Z :=
  facts ← list_facts (with_tier MemoryTier.Conversation (with_scope scope FactFilter_new));
  promote_facts facts 0.

(** ** Dedup *)

(** The matches of one fact: those that are the same are superseded by it. *)
Fixpoint dedup_matches (fact : Fact) (matches : list VectorMatch) (invalidated : list FactId)
    : M (list FactId) :=
  match matches with
  | [] => mret invalidated
  | m :: matches =>
      if decide (vm_id m = ft_id fact ∨ vm_id m ∈ invalidated) then
        dedup_matches fact matches invalidated
      else if SFltb (f32_lit 99 100) (vm_score m) then
        invalidate_fact (vm_id m) ≫= λ _,
        vec_delete (vm_id m) ≫= λ _,
        as_result (update_fact (vm_id m) (superseded_patch (ft_id fact))) ≫= λ _,
        dedup_matches fact matches (invalidated ++ [vm_id m])
      else dedup_matches fact matches invalidated
  end.

Fixpoint dedup_facts (scope : Scope) (facts : list Fact) (invalidated : list FactId)
    : M (list FactId) :=
  match facts with
  | [] => mret invalidated
  | fact :: facts =>
      if decide (ft_id fact ∈ invalidated) then dedup_facts scope facts invalidated
      else
        r ← as_result (embed [ft_text fact]);
        match match r with Ok embs => last embs | Err _ => None end with
        | None => dedup_facts scope facts invalidated
        | Some embedding =>
            matches ← vec_search embedding
              (Build_VectorFilter (Some scope) (Some (dedup_similarity config))) 10;
            invalidated ← dedup_matches fact matches invalidated;
            dedup_facts scope facts invalidated
        end
  end.

Definition op_dedup (scope : Scope) : M Z :=
  facts ← list_facts (with_scope scope FactFilter_new);
  invalidated ← dedup_facts scope facts [];
  mret (Z.of_nat (length invalidated)).

(** ** The operations that ask a model *)

Definition bullets (facts : list Fact) : string := str_join (LF +:+ "- ") (ft_text <$> facts).

(** A fact the cycle writes. An embedding the provider does not answer is empty. *)
Definition write_fact (scope : Scope) (text source : string) (category : option string)
    (confidence : f32) (refs : list EntityId) : M unit :=
  embeddings ← embed [text];
  let embedding := default [] (last embeddings) in
  fact ← Fact_new text scope;
  id ← insert_fact (with_embedding embedding (fact_with fact MemoryTier.Knowledge category
    (Some source) (Some confidence) (ft_valid_from fact) refs (ft_metadata fact)));
  vec_upsert id embedding (obj []).

Definition strings_of (key : string) (response : Value) : list string :=
  omap as_str (default [] (get key response ≫= as_array)).

(** Metadata that replaces a fact's, whatever comes of it. *)
Definition mark (m : Map) (fact : Fact) : M unit :=
  as_result (update_fact (ft_id fact) (metadata_patch m)) ≫= λ _, mret tt.

Section Model.
Context (llm : Llm S).

Definition op_summarize (scope : Scope) (max_calls : Z) : M (Z * Z) :=
  facts ← list_facts (with_tier MemoryTier.Conversation (with_scope scope FactFilter_new));
  if decide (Z.of_nat (length facts) < summarize_threshold config) then mret (0, 0)
  else
    response ← llm (prompts ConsolidationOp.Summarize)
      ("Summarize these conversation facts into knowledge:" +:+ LF +:+ "- " +:+ bullets facts);
    let summaries := strings_of "summaries" response in
    for_each summaries (λ text, write_fact scope text "consolidation:summarize" None
      (f32_lit 85 100) []) ≫= λ _,
    for_each facts (mark [("summarized", Bool true)]) ≫= λ _,
    mret (Z.of_nat (length summaries), Z.min 1 max_calls).

Definition op_reflect (scope : Scope) (max_calls : Z) : M (Z * Z) :=
  if decide (max_calls = 0) then mret (0, 0)
  else
    facts ← list_facts (with_tier MemoryTier.Knowledge (with_scope scope FactFilter_new));
    if decide (Z.of_nat (length facts) < reflect_min_facts config) then mret (0, 0)
    else
      response ← llm (prompts ConsolidationOp.Reflect)
        ("Generate insights from these facts:" +:+ LF +:+ "- " +:+ bullets (take 30 facts));
      let insights := strings_of "insights" response in
      for_each insights (λ text, write_fact scope text "consolidation:reflect" None
        (f32_lit 8 10) []) ≫= λ _,
      mret (Z.of_nat (length insights), 1).

(** Facts by the entities they name, in the order they were listed. *)
Definition group_by_entity (facts : list Fact) : gmap EntityId (list Fact) :=
  foldl (λ m f, foldl (λ m e, <[e := default [] (m !! e) ++ [f]]> m) m (ft_entity_refs f)) ∅ facts.

Fixpoint summarize_entities (scope : Scope) (max_calls : Z) (groups : list (EntityId * list Fact))
    (generated calls_used : Z) : M (Z * Z) :=
  match groups with
  | [] => mret (generated, calls_used)
  | (entity_id, group) :: groups =>
      if bool_decide (Z.of_nat (length group) < 3) || bool_decide (max_calls ≤ calls_used) then
        summarize_entities scope max_calls groups generated calls_used
      else
        response ← llm (prompts ConsolidationOp.EntitySummary)
          ("Summarize these facts about entity " +:+ uuid_hyphenated entity_id
            +:+ " into a single paragraph:" +:+ LF +:+ "- " +:+ bullets group);
        match get "summary" response ≫= as_str with
        | Some text =>
            write_fact scope text "consolidation:entity_summary" None (f32_lit 85 100) [entity_id] ≫= λ _,
            summarize_entities scope max_calls groups (generated + 1) (calls_used + 1)
        | None => summarize_entities scope max_calls groups generated (calls_used + 1)
        end
  end.

Definition op_entity_summary (scope : Scope) (max_calls : Z) : M (Z * Z) :=
  if decide (max_calls = 0) then mret (0, 0)
  else
    facts ← list_facts (with_scope scope FactFilter_new);
    summarize_entities scope max_calls (iter_map (group_by_entity facts)) 0 0.

Definition op_preference_rollup (scope : Scope) (max_calls : Z) : M (Z * Z) :=
  if decide (max_calls = 0) then mret (0, 0)
  else
    facts ← list_facts (with_category "preference" (with_scope scope FactFilter_new));
    match facts with
    | [] => mret (0, 0)
    | _ =>
        response ← llm (prompts ConsolidationOp.PreferenceRollup)
          ("Roll up these user preferences into a profile:" +:+ LF +:+ "- " +:+ bullets facts);
        match get "profile" response ≫= as_str with
        | Some text =>
            write_fact scope text "consolidation:preference_rollup" (Some "preference")
              (f32_lit 9 10) [] ≫= λ _,
            for_each facts (mark [("rolled_up", Bool true)]) ≫= λ _,
            mret (Z.of_nat (length facts), 1)
        | None => mret (0, 1)
        end
    end.
End Model.

(** ** Timeline *)

Definition event_date (f : Fact) : option string := map_get "event_date" (ft_metadata f) ≫= as_str.
Definition dated (facts : list Fact) : list (Fact * string) :=
  omap (λ f, pair f <$> event_date f) facts.
Definition date_before (a b : Fact * string) : Prop := String.le a.2 b.2.
#[export] Instance date_before_dec : RelDecision date_before.
Proof. intros a b. unfold date_before. apply _. Defined.

Definition timeline (facts : list Fact) : list (Fact * string) := merge_sort date_before (dated facts).

Definition op_timeline_builder (scope : Scope) : M Z :=
  facts ← list_facts (with_scope scope FactFilter_new);
  match timeline facts with
  | [] => mret 0
  | l =>
      for_each (imap pair l) (λ p, mark [("timeline_position", num (Z.of_nat p.1))] p.2.1) ≫= λ _,
      mret (Z.of_nat (length l))
  end.

(** ** A cycle *)

(** One that asks a model: only with one, and while calls are left. *)
Definition with_model (llm : option (Llm S)) (r : ConsolidationResult)
    (op : Llm S → Z → M (Z * Z)) (set : Z → Z → ConsolidationResult) : M ConsolidationResult :=
  match llm with
  | None => mret r
  | Some llm =>
      if decide (llm_calls_used r < max_llm_calls config) then
        nc ← op llm (max_llm_calls config - llm_calls_used r);
        mret (set nc.1 nc.2)
      else mret r
  end.

Definition run_op (scope : Scope) (llm : option (Llm S)) (r : ConsolidationResult)
    (op : ConsolidationOp) : M ConsolidationResult :=
  match op with
  | ConsolidationOp.Decay => da ← op_decay scope; mret (set_decay r da.1 da.2)
  | ConsolidationOp.Promote => n ← op_promote scope; mret (set_promoted r n)
  | ConsolidationOp.Dedup => n ← op_dedup scope; mret (set_deduped r n)
  | ConsolidationOp.Summarize => with_model llm r (λ llm, op_summarize llm scope) (set_summarized r)
  | ConsolidationOp.Reflect => with_model llm r (λ llm, op_reflect llm scope) (set_insights r)
  | ConsolidationOp.EntitySummary =>
      with_model llm r (λ llm, op_entity_summary llm scope) (set_entity_summaries r)
  | ConsolidationOp.PreferenceRollup =>
      with_model llm r (λ llm, op_preference_rollup llm scope) (set_rolled_up r)
  | ConsolidationOp.TimelineBuilder => n ← op_timeline_builder scope; mret (set_ordered r n)
  end.

Fixpoint run_ops (scope : Scope) (llm : option (Llm S)) (ops : list ConsolidationOp)
    (r : ConsolidationResult) : M ConsolidationResult :=
  match ops with
  | [] => mret r
  | op :: ops => r ← run_op scope llm r op; run_ops scope llm ops r
  end.

(** [ConsolidationEngine::run]. *)
Definition consolidate (scope : Scope) (llm : option (Llm S)) : M ConsolidationResult :=
  run_ops scope llm (enabled_ops config) ConsolidationResult_default.
End Consolidate.
