(* ===== verification/EngramCorrect.v ===== *)
(** * What the memory layer promises

    Erasure, confinement to a scope, the limits of a consolidation cycle and of a
    context block, and conversations. Then runs on concrete stores. *)

From S2P Require Import Prelude.
From S2P Require Import Json.
From S2P Require Import RustStr.
From S2P Require Import Condition.
From S2P Require Import Hashing.
From S2P Require Import Approvals.
From S2P Require Import Sql.
From S2P Require Import Engram.
From S2P Require Import EngramStore.
From S2P Require Import EngramMemory.
From S2P Require Import EngramConsolidate.
Import MemoryError.

(** ** Rows and scopes *)

Lemma scope_where_contains s o a u x :
  scope_where s o a u x = Scope.contains s (Build_Scope o a u x).
Proof.
  unfold scope_where, Scope.contains, Scope.narrows. cbn.
  rewrite (bool_decide_ext (o = org_id s) (org_id s = o)) by done.
  destruct (bool_decide _), (agent_id s), (user_id s), (session_id s); cbn;
    repeat case_bool_decide; done.
Qed.

Section Reads.
Context `{!UuidOps, !ChronoOps, !JsonText, !EngramOps}.

Lemma row_to_fact_scope r f : row_to_fact r = Ok f →
  ft_scope f = Build_Scope (fr_org_id r) (fr_agent_id r) (fr_user_id r) (fr_session_id r).
Proof.
  unfold row_to_fact. repeat (intros (? & _ & Hr)%result_bind_inv; revert Hr). by intros [= <-].
Qed.

Lemma row_to_fact_in s r f : row_to_fact r = Ok f → fact_in s r = Scope.contains s (ft_scope f).
Proof. intros Hf. unfold fact_in. by rewrite scope_where_contains, (row_to_fact_scope _ _ Hf). Qed.

Lemma mapM_ok {E A B} (f : A → result E B) l l' : mapM f l = Ok l' →
  ∀ b, b ∈ l' → ∃ a, a ∈ l ∧ f a = Ok b.
Proof.
  revert l'. induction l as [|a l IH]; intros l'; cbn [mapM].
  - intros [= <-] b Hb. by apply not_elem_of_nil in Hb.
  - intros (b0 & Hb0 & (l0 & Hl0 & [= <-])%result_bind_inv)%result_bind_inv b [->|Hb]%elem_of_cons.
    + exists a. split; [left|done].
    + destruct (IH _ Hl0 b Hb) as (a' & ? & ?). exists a'. split; [by right|done].
Qed.
End Reads.

Lemma list_filter_all {A} (P : A → Prop) `{∀ x, Decision (P x)} l :
  Forall P l → base.filter P l = l.
Proof. induction 1 as [|x l Hx _ IH]; [done|]. by rewrite filter_cons_True, IH. Qed.
Lemma list_filter_none {A} (P : A → Prop) `{∀ x, Decision (P x)} l :
  Forall (λ x, ¬ P x) l → base.filter P l = [].
Proof. induction 1 as [|x l Hx _ IH]; [done|]. by rewrite filter_cons_False. Qed.

Lemma filter_lengths {A} (p : A → bool) l :
  Z.of_nat (length (base.filter (λ x, p x = true) l))
  = Z.of_nat (length l) - Z.of_nat (length (base.filter (λ x, p x = false) l)).
Proof.
  induction l as [|x l IH]; [done|]. rewrite !filter_cons. cbn [length].
  destruct (p x); repeat case_decide; try done; cbn [length]; lia.
Qed.

(** Facts a store can be read to hold: by id, listed, or found by a word. *)
Definition readable {S} `{!FactStore S} (w : world S) (f : Fact) : Prop :=
  (∃ id, (get_fact id w).1 = Ok f)
  ∨ (∃ q l, (list_facts q w).1 = Ok l ∧ f ∈ l)
  ∨ (∃ q s k l, (keyword_search q s k w).1 = Ok l ∧ f ∈ l).

Section Erase.
Context `{!UuidOps, !ChronoOps, !JsonText, !EngramOps, !SqlOps, !IterOrder N} {X : Type}.
Context (dims : Z) (embed : Embed (Engram X)).
#[local] Instance vectors_of : VectorStore (Engram X) := EmbeddedVectorStore dims.

Lemma readable_row (w : world (Engram X)) f :
  readable w f → ∃ r, r ∈ fact_rows (store w) ∧ row_to_fact r = Ok f.
Proof.
  intros [[id Hf]|[(q & l & Hl & Hf)|(q & s & k & l & Hl & Hf)]]; cbn in *.
  - unfold sqlite_get_fact in Hf. rewrite bind_gets in Hf.
    destruct (List.find _ _) as [r|] eqn:Hr; [|done]. cbn in Hf.
    apply List.find_some in Hr as [Hr _]. exists r. split; [by apply list_elem_of_In|done].
  - unfold sqlite_list_facts in Hl. rewrite bind_gets in Hl. cbn in Hl.
    destruct (mapM_ok _ _ _ Hl f Hf) as (r & Hr & Hrf). exists r. split; [|done].
    apply elem_of_take in Hr as (i & Hr & _). apply list_elem_of_lookup_2 in Hr.
    assert (r ∈ merge_sort created_later (scan
      (base.filter (λ r, filter_where q r = true) (fact_rows (store w))))) as Hin.
    { by eapply subseteq_drop. }
    rewrite merge_sort_Permutation, scan_perm, list_elem_of_filter in Hin. tauto.
  - unfold sqlite_keyword_search in Hl. destruct (str_is_empty _).
    { injection Hl as <-. by apply not_elem_of_nil in Hf. }
    rewrite bind_gets, of_result_run in Hl. destruct (fts_match _ _) as [ids|]; [|done].
    cbn [map_err] in Hl. rewrite bind_gets in Hl. cbn in Hl.
    destruct (mapM_ok _ _ _ Hl f Hf) as (r & Hr & Hrf). exists r. split; [|done].
    assert (r ∈ ids ≫= λ id, base.filter (λ r, fr_id r = id ∧ keyword_where s r = true)
      (fact_rows (store w))) as Hin.
    { revert Hr. unfold sql_limit. case_decide; [done|]. intros (? & Hi & _)%elem_of_take.
      by apply list_elem_of_lookup_2 in Hi. }
    apply list_elem_of_bind in Hin as (id & Hin & _). apply list_elem_of_filter in Hin. tauto.
Qed.

(** What [delete_user_data] does to the store. *)
Definition erased (scope : Scope) (s : Engram X) : Engram X :=
  Build_Engram (base.filter (λ r, fact_in scope r = false) (fact_rows s))
    (base.filter (λ e, e.1 ∉ fr_id <$> base.filter (λ r, fact_in scope r = true) (fact_rows s)) (fts_rows s))
    (base.filter (λ r, entity_in scope r = false) (entity_rows s))
    (base.filter (λ r, relationship_in scope r = false) (relationship_rows s))
    (message_rows s) ∅ (outside s).

Lemma delete_user_data_run scope (w : world (Engram X)) :
  delete_user_data scope w =
    (Ok (Z.of_nat (length (base.filter (λ r, fact_in scope r = true) (fact_rows (store w))))),
     World (erased scope (store w)) (clock w) (draws w)).
Proof. by destruct w as [[]]. Qed.

Lemma recall_of_nothing q (w : world (Engram X)) v w1 :
  embed [rq_query q] w = (Ok [v], w1) → vectors (store w1) = ∅ → recall embed q w = (Ok [], w1).
Proof.
  intros He Hv. unfold recall, embed_one. rewrite bind_assoc, (bind_run _ _ _ _ _ He).
  rewrite of_result_run. cbn [last ok_or]. cbn -[Z.to_nat]. unfold embedded_search.
  rewrite bind_assoc, bind_gets, bind_mret, Hv. cbn.
  assert (iter_map (∅ : gmap N VectorEntry) = []) as ->.
  { apply Permutation_nil_r. by rewrite iter_perm, map_to_list_empty. }
  cbn -[Z.to_nat]. by rewrite take_nil.
Qed.

(** C21: Erasure. Deleting the data of a scope never fails and answers how many facts
    it deleted; afterwards no fact that can be read in any way belongs to the
    scope or to one within it, none of its entities and relationships is left, and
    facts, entities and relationships outside it are the ones there were. The
    vectors are a different matter: all of them go, whosever they were, so until
    facts are added again a recall finds nothing for anybody. *)
Theorem erasure_complete (scope : Scope) (w : world (Engram X)) : ∃ n w',
  delete_user_data scope w = (Ok n, w')
  ∧ (∀ f, readable w' f → ∀ s, Scope.contains scope s = true → Scope.contains s (ft_scope f) = false)
  ∧ (∀ r, r ∈ fact_rows (store w') ↔ r ∈ fact_rows (store w) ∧ fact_in scope r = false)
  ∧ (∀ r, r ∈ entity_rows (store w') ↔ r ∈ entity_rows (store w) ∧ entity_in scope r = false)
  ∧ (∀ r, r ∈ relationship_rows (store w') ↔
      r ∈ relationship_rows (store w) ∧ relationship_in scope r = false)
  ∧ n = Z.of_nat (length (fact_rows (store w))) - Z.of_nat (length (fact_rows (store w')))
  ∧ (∀ q v w1, embed [rq_query q] w' = (Ok [v], w1) → store w1 = store w' →
      recall embed q w' = (Ok [], w1)).
Proof.
  eexists _, _. split; [apply delete_user_data_run|]. cbn. split_and!.
  - intros f (r & Hr & Hf)%readable_row s Hs. cbn in Hr.
    apply list_elem_of_filter in Hr as [Hin _]. apply not_true_iff_false. intros Hc.
    rewrite (row_to_fact_in _ _ _ Hf) in Hin. apply not_true_iff_false in Hin. apply Hin.
    change (scope_le scope (ft_scope f)). by transitivity s.
  - intros r. rewrite list_elem_of_filter. tauto.
  - intros r. rewrite list_elem_of_filter. tauto.
  - intros r. rewrite list_elem_of_filter. tauto.
  - apply filter_lengths.
  - intros q v w1 He Hs. apply (recall_of_nothing _ _ _ _ He). by rewrite Hs.
Qed.
End Erase.

(** ** What a consolidation cycle spends *)

Section Spending.
Context `{!EngramOps, !UuidOps, !IterOrder N} {S : Type} `{!FactStore S, !VectorStore S}.
Context (calls : S → Z).

(** It asks the model no more than [n] times, and [f a] times when it answers [a]. *)
Definition spends {A} (m : eff S MemoryError A) (f : A → Z) (n : Z) : Prop := ∀ w,
  calls (store w) ≤ calls (store (m w).2) ≤ calls (store w) + n
  ∧ ∀ a, (m w).1 = Ok a → calls (store (m w).2) = calls (store w) + f a.
Definition quiet {A} (m : eff S MemoryError A) : Prop := spends m (λ _, 0) 0.

Lemma spends_bind {A B} (m : eff S MemoryError A) (k : A → eff S MemoryError B) c f n :
  0 ≤ n → spends m (λ _, c) c → (∀ a, spends (k a) (λ b, f b - c) (n - c)) → c ≤ n →
  spends (m ≫= k) f n.
Proof.
  intros Hn Hm Hk Hc w. unfold mbind, eff_bind. destruct (Hm w) as [Hb He].
  destruct (m w) as [[a|e] w1]; cbn in *; [|split; [lia|done]].
  specialize (He a eq_refl). destruct (Hk a w1) as [Hb' He']. split; [lia|].
  intros b Hw. rewrite (He' b Hw). lia.
Qed.
Lemma spends_ret {A} (a : A) f n : 0 ≤ n → f a = 0 → spends (mret a) f n.
Proof. intros Hn Hf w. cbn. split; [lia|]. intros ? [= <-]. lia. Qed.
Lemma spends_eq {A} (m : eff S MemoryError A) f g n n' :
  spends m f n → (∀ a, f a = g a) → n = n' → spends m g n'.
Proof. intros Hm Hf <- w. destruct (Hm w) as [? He]. split; [done|]. intros a. rewrite <- Hf. apply He. Qed.
Lemma quiet_mono {A} (m : eff S MemoryError A) f n :
  quiet m → 0 ≤ n → (∀ a, f a = 0) → spends m f n.
Proof.
  intros Hm Hn Hf w. destruct (Hm w) as [? He]. split; [lia|]. intros a Ha. rewrite Hf. by apply (He a).
Qed.
Lemma spends_then {A B} (m : eff S MemoryError A) (k : A → eff S MemoryError B) f n :
  quiet m → 0 ≤ n → (∀ a, spends (k a) f n) → spends (m ≫= k) f n.
Proof.
  intros Hm Hn Hk. apply (spends_bind _ _ 0); [done..| |done]. intros a w.
  rewrite Z.sub_0_r. destruct (Hk a w) as [? He]. split; [done|]. intros b Hb. rewrite (He b Hb). lia.
Qed.
Lemma quiet_now : quiet utc_now.
Proof. intros w. cbn. split; [lia|]. intros. lia. Qed.
Lemma draw_quiet : quiet new_v4.
Proof. intros w. cbn. split; [lia|]. intros. lia. Qed.
Lemma quiet_ret {A} (a : A) : quiet (mret a).
Proof. by apply spends_ret. Qed.
Lemma quiet_as_result {A} (m : eff S MemoryError A) : quiet m → quiet (as_result m).
Proof.
  intros Hm w. unfold as_result. destruct (Hm w) as [? He]. destruct (m w) as [r w1]. cbn in *.
  split; [lia|]. intros. lia.
Qed.
Lemma each_quiet {A} (l : list A) (f : A → eff S MemoryError unit) :
  (∀ x, quiet (f x)) → quiet (for_each l f).
Proof.
  intros Hf. induction l as [|x l IH]; cbn [for_each]; [apply quiet_ret|]. by apply spends_then.
Qed.

(** The stores and the provider do not ask the model. *)
Record no_calls (embed : Embed S) : Prop := {
  quiet_embed l : quiet (embed l);
  quiet_list f : quiet (list_facts f);
  quiet_insert f : quiet (insert_fact f);
  quiet_update i p : quiet (update_fact i p);
  quiet_invalidate i : quiet (invalidate_fact i);
  quiet_upsert i e m : quiet (vec_upsert i e m);
  quiet_search q f k : quiet (vec_search q f k);
  quiet_delete i : quiet (vec_delete i);
}.

Context (embed : Embed S) (config : ConsolidationConfig) (prompts : ConsolidationOp → string).
Context (llm : Llm S) (Hq : no_calls embed).
Context (Hllm : ∀ s u, spends (llm s u) (λ _, 1) 1).

Ltac quiet_tac :=
  repeat first
    [ apply (quiet_embed _ Hq) | apply (quiet_list _ Hq) | apply (quiet_insert _ Hq)
    | apply (quiet_update _ Hq) | apply (quiet_invalidate _ Hq) | apply (quiet_upsert _ Hq)
    | apply (quiet_search _ Hq) | apply (quiet_delete _ Hq) | apply quiet_now
    | apply draw_quiet | apply quiet_ret | apply quiet_as_result
    | apply each_quiet; intros ? | apply spends_then; [|lia|intros ?]
    | progress (repeat case_match) ].

Lemma quiet_decay_facts now l d a : quiet (decay_facts config now l d a).
Proof.
  revert d a. induction l as [|f l IH]; intros d a; cbn [decay_facts]; [apply quiet_ret|].
  case_match; [apply IH|]. case_match; quiet_tac; apply IH.
Qed.
Lemma quiet_promote_facts l n : quiet (promote_facts config l n).
Proof.
  revert n. induction l as [|f l IH]; intros n; cbn [promote_facts]; [apply quiet_ret|].
  case_match; [|apply IH]. quiet_tac; apply IH.
Qed.
Lemma quiet_dedup_matches f l i : quiet (dedup_matches f l i).
Proof.
  revert i. induction l as [|m l IH]; intros i; cbn [dedup_matches]; [apply quiet_ret|].
  case_match; [apply IH|]. case_match; [|apply IH]. quiet_tac; apply IH.
Qed.
Lemma quiet_dedup_facts scope l i : quiet (dedup_facts embed config scope l i).
Proof.
  revert i. induction l as [|f l IH]; intros i; cbn [dedup_facts]; [apply quiet_ret|].
  case_match; [apply IH|]. apply spends_then; [quiet_tac|lia|]. intros r.
  case_match; [|apply IH]. apply spends_then; [quiet_tac|lia|]. intros ms.
  apply spends_then; [apply quiet_dedup_matches|lia|]. intros i'. apply IH.
Qed.
Lemma quiet_write_fact scope t s c x r : quiet (write_fact embed scope t s c x r).
Proof. unfold write_fact, Fact_new. quiet_tac. Qed.
Lemma quiet_mark m f : quiet (mark m f).
Proof. unfold mark. quiet_tac. Qed.

Lemma spends_entities scope max groups g used :
  0 ≤ used ≤ max →
  spends (summarize_entities embed prompts llm scope max groups g used) (λ nc, nc.2 - used) (max - used).
Proof.
  revert g used. induction groups as [|[e group] groups IH]; intros g used Hu; cbn [summarize_entities].
  { apply spends_ret; cbn; lia. }
  case_match eqn:Hskip; [by apply IH|]. apply orb_false_iff in Hskip as [_ Hmax].
  apply bool_decide_eq_false in Hmax.
  apply (spends_bind _ _ 1); [lia|apply Hllm| |lia]. intros resp.
  case_match; [apply spends_then; [apply quiet_write_fact|lia|intros _]|];
    (eapply spends_eq; [apply IH; lia|intros ?; cbn; lia|lia]).
Qed.

Lemma spends_asking op r set :
  (∀ max, 0 < max → spends (op llm max) (λ nc, nc.2) max) →
  (∀ n c, llm_calls_used (set n c) = llm_calls_used r + c) →
  0 ≤ llm_calls_used r ≤ max_llm_calls config →
  spends (with_model config (Some llm) r op set) (λ r', llm_calls_used r' - llm_calls_used r)
    (max_llm_calls config - llm_calls_used r).
Proof.
  intros Hop Hset Hr. unfold with_model. case_decide; [|apply spends_ret; lia]. intros w.
  unfold mbind, eff_bind. destruct (Hop (max_llm_calls config - llm_calls_used r) ltac:(lia) w) as [Hb He].
  destruct (op llm _ w) as [[nc|e] w1]; cbn in *; (split; [lia|]); [|done].
  intros a [= <-]. rewrite Hset, (He nc eq_refl). lia.
Qed.

Lemma spends_op scope r op : 0 ≤ llm_calls_used r ≤ max_llm_calls config →
  spends (run_op embed config prompts scope (Some llm) r op)
    (λ r', llm_calls_used r' - llm_calls_used r) (max_llm_calls config - llm_calls_used r).
Proof.
  intros Hr. destruct op; cbn [run_op].
  1,2,3,8: apply spends_then; [|lia|intros ?; apply spends_ret; cbn; lia].
  - unfold op_decay. do 2 (apply spends_then; [quiet_tac|lia|intros ?]). apply quiet_decay_facts.
  - unfold op_promote. apply spends_then; [quiet_tac|lia|intros ?]. apply quiet_promote_facts.
  - unfold op_dedup. apply spends_then; [quiet_tac|lia|intros ?].
    apply spends_then; [apply quiet_dedup_facts|lia|intros ?; apply quiet_ret].
  - unfold op_timeline_builder. apply spends_then; [quiet_tac|lia|intros ?].
    case_match; [apply quiet_ret|]. apply spends_then; [|lia|intros ?; apply quiet_ret].
    apply each_quiet. intros ?. apply quiet_mark.
  - apply spends_asking; [|done..]. intros max Hmax. unfold op_summarize.
    apply spends_then; [quiet_tac|lia|intros facts]. case_match; [apply spends_ret; cbn; lia|].
    apply (spends_bind _ _ 1); [lia|apply Hllm| |lia]. intros resp.
    do 2 (apply spends_then; [apply each_quiet; intros ?; first [apply quiet_write_fact|apply quiet_mark]|lia|intros ?]).
    apply spends_ret; cbn; lia.
  - apply spends_asking; [|done..]. intros max Hmax. unfold op_reflect. case_match; [lia|].
    apply spends_then; [quiet_tac|lia|intros facts]. case_match; [apply spends_ret; cbn; lia|].
    apply (spends_bind _ _ 1); [lia|apply Hllm| |lia]. intros resp.
    apply spends_then; [apply each_quiet; intros ?; apply quiet_write_fact|lia|intros ?].
    apply spends_ret; cbn; lia.
  - apply spends_asking; [|done..]. intros max Hmax. unfold op_entity_summary. case_match; [lia|].
    apply spends_then; [quiet_tac|lia|intros facts]. intros w.
    destruct (spends_entities scope max (iter_map (group_by_entity facts)) 0 0 ltac:(lia) w) as [? He].
    split; [lia|]. intros a Ha. rewrite (He a Ha). lia.
  - apply spends_asking; [|done..]. intros max Hmax. unfold op_preference_rollup. case_match; [lia|].
    apply spends_then; [quiet_tac|lia|intros facts]. case_match; [apply spends_ret; cbn; lia|].
    apply (spends_bind _ _ 1); [lia|apply Hllm| |lia]. intros resp.
    case_match; [|apply spends_ret; cbn; lia].
    do 2 (apply spends_then; [first [apply quiet_write_fact|apply each_quiet; intros ?; apply quiet_mark]|lia|intros ?]).
    apply spends_ret; cbn; lia.
Qed.

(** C26: The budget of a consolidation cycle. Whatever operations are enabled and
    however the cycle ends, it asks the model at most [max_llm_calls] times; a
    cycle that answers reports exactly the calls it made. *)
Theorem llm_budget (scope : Scope) (w : world S) :
  0 ≤ max_llm_calls config →
  let '(r, w') := consolidate embed config prompts scope (Some llm) w in
  calls (store w') ≤ calls (store w) + max_llm_calls config
  ∧ ∀ res, r = Ok res → llm_calls_used res = calls (store w') - calls (store w).
Proof.
  intros Hmax. unfold consolidate. set (r0 := ConsolidationResult_default).
  assert (∀ ops r, 0 ≤ llm_calls_used r ≤ max_llm_calls config → ∀ w,
    calls (store (run_ops embed config prompts scope (Some llm) ops r w).2)
      ≤ calls (store w) + (max_llm_calls config - llm_calls_used r)
    ∧ ∀ res, (run_ops embed config prompts scope (Some llm) ops r w).1 = Ok res →
      llm_calls_used res - llm_calls_used r
      = calls (store (run_ops embed config prompts scope (Some llm) ops r w).2) - calls (store w)) as Hops.
  { intros ops. induction ops as [|op ops IH]; intros r Hr v; cbn [run_ops].
    { cbn. split; [lia|]. intros res [= <-]. lia. }
    unfold mbind, eff_bind. destruct (spends_op scope r op Hr v) as [Hb He].
    destruct (run_op _ _ _ _ _ r op v) as [[r1|e] v1]; cbn in *; [|split; [lia|done]].
    specialize (He r1 eq_refl). destruct (IH r1 ltac:(lia) v1) as [Hb' He']. split; [lia|].
    intros res Hres. specialize (He' res Hres). lia. }
  specialize (Hops (enabled_ops config) r0 ltac:(cbn; lia) w).
  destruct (run_ops _ _ _ _ _ _ _ w) as [r w']. cbn in *.
  destruct Hops as [Hb He]. split; [lia|]. intros res Hres. specialize (He res Hres). lia.
Qed.
End Spending.

(** ** Conversations *)

(** What is documented of the library's texts, for times up to [horizon]: ids,
    times and lists of strings read back, and a JSON object without a NaN is the
    text of an object. *)
Class EngramLaws `{!UuidOps, !ChronoOps, !JsonText, !EngramOps} (horizon : DateTime) : Prop := {
  id_text u : uuid_parse (uuid_hyphenated u) = Some u;
  time_text t : 0 ≤ t < horizon → parse_rfc3339 (rfc3339 t) = Some t;
  object_text m : no_nan (Object m) = true →
    ∃ m', parse_json (json_to_string (Object m)) = Some (Object m');
  strings_text l :
    parse_json (json_to_string (Array (Str <$> l))) = Some (Array (Str <$> l));
}.

Lemma sorted_unique {A} (R : relation A) `{!RelDecision R, !Transitive R, !Total R} (l l' : list A) :
  StronglySorted (λ a b, R a b ∧ ¬ R b a) l → l' ≡ₚ l → merge_sort R l' = l.
Proof.
  intros Hs Hp. apply (StronglySorted_unique_strong R).
  - assert (merge_sort R l' ≡ₚ l) as Hml by (by rewrite merge_sort_Permutation).
    clear Hp. intros a b Ha Hb Hab Hba. rewrite Hml in Ha. clear Hml.
    induction Hs as [|x l Hs IH Hx]; [by apply not_elem_of_nil in Ha|].
    rewrite Forall_forall in Hx.
    apply elem_of_cons in Ha as [->|Ha]; apply elem_of_cons in Hb as [->|Hb]; [done| | |by apply IH].
    + destruct (Hx b Hb). tauto.
    + destruct (Hx a Ha). tauto.
  - apply Sorted_StronglySorted; [done|]. apply Sorted_merge_sort. apply _.
  - clear Hp. induction Hs; constructor; [done|]. eapply Forall_impl; [done|]. by intros ? [].
  - by rewrite merge_sort_Permutation.
Qed.

#[export] Instance seq_asc_total : Total seq_asc.
Proof. intros a b. unfold seq_asc. lia. Qed.
#[export] Instance seq_asc_trans : Transitive seq_asc.
Proof. intros a b c. unfold seq_asc. lia. Qed.
#[export] Instance seq_desc_total : Total seq_desc.
Proof. intros a b. unfold seq_desc. lia. Qed.
#[export] Instance seq_desc_trans : Transitive seq_desc.
Proof. intros a b c. unfold seq_desc. lia. Qed.

Lemma StronglySorted_reverse {A} (R : relation A) l :
  StronglySorted R l → StronglySorted (flip R) (reverse l).
Proof.
  induction 1 as [|x l Hs IH Hx]; [constructor|]. rewrite reverse_cons.
  apply StronglySorted_app_2; [|done|repeat constructor].
  intros a b Ha ->%list_elem_of_singleton. rewrite elem_of_reverse in Ha.
  rewrite Forall_forall in Hx. by apply Hx.
Qed.

Section Conversations.
Context `{!UuidOps, !ChronoOps, !JsonText, !EngramOps, !SqlOps} {X : Type}.
Context (horizon : DateTime) (Hlaws : EngramLaws horizon).
Context (conversation : string) (scope : Scope).

(** A message as the store keeps it: of the conversation, with the scope's org and
    user. *)
Definition kept (m : ChatMessage) : ChatMessage :=
  Build_ChatMessage (ms_id m) conversation (ms_role m) (ms_content m)
    (Build_Scope (org_id scope) None (user_id scope) None) (ms_seq m) (ms_created_at m) (ms_metadata m).

(** The stamp of a message and what it carries have a text of their own. *)
Definition storable (m : ChatMessage) : Prop :=
  0 ≤ ms_created_at m < horizon
  ∧ (ms_metadata m = [] ∨ parse_map (json_to_string (Object (ms_metadata m))) = Ok (ms_metadata m)).

Definition in_order (ms : list ChatMessage) : Prop := StronglySorted (λ a b, ms_seq a < ms_seq b) ms.

Lemma read_kept m : storable m → row_to_message (message_row conversation scope m) = Ok (kept m).
Proof.
  intros [Ht Hm]. unfold row_to_message, parse_uuid, parse_dt. cbn. rewrite (id_text (horizon := horizon)). cbn.
  assert (parse_map (map_column (ms_metadata m)) = Ok (ms_metadata m)) as ->.
  { destruct Hm as [->|Hm]; [done|]. unfold map_column. by destruct (ms_metadata m). }
  cbn. by rewrite (time_text (horizon := horizon)).
Qed.

Lemma read_all_kept ms : Forall storable ms →
  mapM row_to_message (message_row conversation scope <$> ms) = Ok (kept <$> ms).
Proof.
  induction 1 as [|m ms Hm _ IH]; [done|]. cbn [fmap list_fmap mapM]. rewrite (read_kept _ Hm). cbn.
  change (list_fmap _ _ (message_row conversation scope) ms) with (message_row conversation scope <$> ms).
  by rewrite IH.
Qed.

Lemma save_run ms (w : world (Engram X)) :
  NoDup (uuid_hyphenated ∘ ms_id <$> ms) →
  (∀ m, m ∈ ms → uuid_hyphenated (ms_id m) ∉ mr_id <$> message_rows (store w)) →
  sqlite_save_messages conversation ms scope w =
    (Ok (ms_id <$> ms), World (set_messages (λ l, l ++ (message_row conversation scope <$> ms)) (store w))
       (clock w) (draws w)).
Proof.
  revert w. induction ms as [|m ms IH]; intros w Hnd Hfresh.
  { cbn. destruct w as [[]]. unfold set_messages. cbn. by rewrite app_nil_r. }
  apply NoDup_cons in Hnd as [Hm Hnd]. cbn [sqlite_save_messages]. rewrite bind_gets.
  assert (existsb (λ r, bool_decide (mr_id r = mr_id (message_row conversation scope m)))
    (message_rows (store w)) = false) as ->.
  { apply not_true_iff_false. rewrite existsb_exists. intros (r & Hr & Hid%bool_decide_eq_true).
    apply (Hfresh m ltac:(left)). apply list_elem_of_fmap. exists r.
    split; [done|by apply list_elem_of_In]. }
  cbn match. rewrite bind_modify. erewrite bind_run; [|apply IH; [done|]].
  - cbn. f_equal. f_equal. destruct (store w). unfold set_messages. cbn. by rewrite <- app_assoc.
  - intros m' Hm'. cbn. rewrite fmap_app, elem_of_app. intros [Hin|Hin].
    + apply (Hfresh m' ltac:(by right) Hin).
    + cbn in Hin. apply list_elem_of_singleton in Hin. apply Hm. cbn. apply list_elem_of_fmap.
      exists m'. split; [done|done].
Qed.

Lemma ordered_rows ms : in_order ms →
  StronglySorted (λ a b, seq_asc a b ∧ ¬ seq_asc b a) (message_row conversation scope <$> ms).
Proof.
  unfold in_order, seq_asc. induction 1 as [|m ms _ IH Hm]; [constructor|]. constructor; [done|].
  apply Forall_fmap. eapply Forall_impl; [exact Hm|]. intros m' Hlt. cbn in Hlt |- *. unfold seq_asc; cbn. lia.
Qed.

(** The last [n] of a sorted table. *)
Lemma last_rows n (l l' : list MessageRow) :
  StronglySorted (λ a b, seq_asc a b ∧ ¬ seq_asc b a) l → l' ≡ₚ l → 0 ≤ n < 2 ^ 63 →
  merge_sort seq_asc (sql_limit (wrap_i64 n) (merge_sort seq_desc l'))
  = drop (length l - Z.to_nat n) l.
Proof.
  intros Hs Hp Hn. rewrite (sorted_unique seq_desc (reverse l)).
  - unfold sql_limit. rewrite wrap_i64_small by lia. rewrite decide_False by lia.
    apply sorted_unique; [apply _..| |].
    + rewrite <- (take_drop (length l - Z.to_nat n) l) in Hs. by apply StronglySorted_app_1_r in Hs.
    + rewrite take_reverse. by rewrite reverse_Permutation.
  - apply StronglySorted_reverse in Hs. clear - Hs. induction Hs as [|x k _ IH Hx]; constructor; [done|].
    eapply Forall_impl; [exact Hx|]. unfold flip, seq_asc, seq_desc. lia.
  - by rewrite reverse_Permutation.
Qed.

(** C25: A conversation reads back. Messages saved under a conversation that is empty
    in the scope's org, with ids of their own and increasing positions, are all
    saved; reading the conversation answers them in their order, reading its last
    [n] answers the last [n] of them, the conversation is listed, and deleting it
    deletes exactly them. *)
Theorem conversation_round_trip (ms : list ChatMessage) (w : world (Engram X)) :
  ms ≠ [] → in_order ms → Forall storable ms → NoDup (uuid_hyphenated ∘ ms_id <$> ms) →
  (∀ m, m ∈ ms → uuid_hyphenated (ms_id m) ∉ mr_id <$> message_rows (store w)) →
  (∀ r, r ∈ message_rows (store w) → in_conversation conversation scope r = false) →
  let '(r, w') := save_messages conversation ms scope w in
  r = Ok (ms_id <$> ms)
  ∧ get_messages conversation None scope w' = (Ok (kept <$> ms), w')
  ∧ (∀ n, 0 ≤ n < 2 ^ 63 → get_messages conversation (Some n) scope w'
      = (Ok (drop (length ms - Z.to_nat n) (kept <$> ms)), w'))
  ∧ (∃ l, list_conversations scope w' = (Ok l, w') ∧ conversation ∈ l)
  ∧ ∃ w2, delete_messages conversation scope w' = (Ok (Z.of_nat (length ms)), w2)
      ∧ message_rows (store w2) = message_rows (store w).
Proof.
  intros Hne Hord Hst Hnd Hfresh Hempty. cbn [save_messages SqliteMessageStore].
  rewrite (save_run _ _ Hnd Hfresh).
  set (new := message_row conversation scope <$> ms).
  assert (∀ r, r ∈ new → in_conversation conversation scope r = true) as Hnew.
  { intros r (m & -> & _)%list_elem_of_fmap. unfold in_conversation. cbn.
    by rewrite !bool_decide_eq_true_2. }
  assert (base.filter (λ r, in_conversation conversation scope r = true)
    (message_rows (store w) ++ new) = new) as Hfilter.
  { rewrite filter_app, (list_filter_all _ new) by (by apply Forall_forall).
    rewrite list_filter_none; [done|]. apply Forall_forall. intros r Hr. by rewrite Hempty. }
  assert (∀ l, l ≡ₚ new → merge_sort seq_asc l = new) as Hsort.
  { intros l Hl. apply sorted_unique; [apply _..|by apply ordered_rows|done]. }
  split_and!.
  - done.
  - cbn. unfold sqlite_get_messages. rewrite bind_gets. cbn [store set_messages message_rows].
    rewrite Hfilter, Hsort by apply scan_perm. unfold new, of_result. by rewrite read_all_kept.
  - intros n Hn. cbn. unfold sqlite_get_messages. rewrite bind_gets. cbn [store set_messages message_rows].
    rewrite Hfilter, (last_rows n new) by (done || apply scan_perm || by apply ordered_rows).
    unfold of_result, new. rewrite length_fmap, <- !fmap_drop, read_all_kept; [done|]. by apply Forall_drop.
  - eexists. split; [reflexivity|]. cbn. unfold sort_strings. rewrite merge_sort_Permutation, elem_of_remove_dups.
    destruct ms as [|m ms]; [done|]. apply list_elem_of_fmap. exists (message_row conversation scope m).
    split; [done|]. apply list_elem_of_filter. split; [done|]. apply elem_of_app. right. left.
  - eexists. split.
    + cbn. unfold sqlite_delete_messages. rewrite bind_gets. cbn [store set_messages message_rows].
      rewrite Hfilter, bind_modify. unfold new. by rewrite length_fmap.
    + cbn. rewrite filter_app, (list_filter_none _ new) by
        (apply Forall_forall; intros r Hr; by rewrite Hnew).
      rewrite list_filter_all; [by rewrite app_nil_r|]. apply Forall_forall. intros r Hr.
      by apply Hempty.
Qed.
End Conversations.

(** ** Context blocks *)

Definition tokens (facts : list Fact) : Z := foldr (λ f n, fact_tokens f + n) 0 facts.

Lemma fact_tokens_pos f : 0 < fact_tokens f.
Proof.
  unfold fact_tokens, estimate, str_len.
  pose proof (Z.div_pos (Z.of_nat (String.length (ft_text f)) + 3) 4). lia.
Qed.

Lemma tokens_cons f l : tokens (f :: l) = fact_tokens f + tokens l.
Proof. done. Qed.
Lemma tokens_pos l : 0 ≤ tokens l.
Proof.
  induction l as [|f l IH]; [done|]. rewrite tokens_cons. pose proof (fact_tokens_pos f). lia.
Qed.

Lemma fill_spec budget facts count : count ≤ budget →
  let l := fill_budget budget count facts in
  l `sublist_of` facts ∧ count + tokens l ≤ budget
  ∧ ∀ f, f ∈ facts → f ∈ l ∨ budget < count + tokens l + fact_tokens f.
Proof.
  revert count. induction facts as [|f facts IH]; intros count Hc; cbn [fill_budget].
  { split_and!; [constructor|cbn; lia|]. by intros f ?%not_elem_of_nil. }
  case_decide as Hf.
  - destruct (IH count Hc) as (Hs & Hb & Ho). split_and!; [by constructor|done|].
    intros g [->|Hg]%elem_of_cons; [|by apply Ho]. right.
    pose proof (tokens_pos (fill_budget budget count facts)). lia.
  - destruct (IH (count + fact_tokens f) ltac:(lia)) as (Hs & Hb & Ho).
    rewrite tokens_cons.
    split_and!; [by constructor|lia|].
    intros g [->|Hg]%elem_of_cons; [left; left|]. destruct (Ho g Hg); [left; by right|right; lia].
Qed.

#[export] Instance tier_before_total : Total tier_before.
Proof. intros a b. unfold tier_before. lia. Qed.
#[export] Instance tier_before_trans : Transitive tier_before.
Proof. intros a b c. unfold tier_before. lia. Qed.

(** What a context block holds: the facts found, by tier, as many as fit. Those it
    includes come to no more than the budget less the format's overhead, working
    facts before conversation facts before knowledge; none it leaves out would
    still fit; and the counts say what was done. *)
Theorem context_fills_budget `{!EngramOps, !JsonText, !UuidOps} (config : ContextConfig)
    (now : DateTime) (scored : list ScoredFact) :
  let block := assemble config now scored in
  let budget := usat_sub (token_budget config) (format_overhead (cx_format config)) in
  ∃ included, cb_text block = format_facts (cx_format config) now included
    ∧ included ⊆+ (sf_fact <$> scored)
    ∧ StronglySorted tier_before included
    ∧ tokens included ≤ budget
    ∧ (∀ sf, sf ∈ scored → sf_fact sf ∈ included ∨ budget < tokens included + fact_tokens (sf_fact sf))
    ∧ cb_facts_included block = Z.of_nat (length included)
    ∧ cb_facts_included block + cb_facts_omitted block = Z.of_nat (length scored)
    ∧ cb_token_count block = estimate (cb_text block).
Proof.
  intros block budget. set (facts := sort_by_tier_priority (sf_fact <$> scored)).
  assert (facts ≡ₚ sf_fact <$> scored) as Hp by apply merge_sort_Permutation.
  destruct (fill_spec budget facts 0 ltac:(unfold budget, usat_sub; lia)) as (Hs & Hb & Ho).
  exists (fill_budget budget 0 facts). split_and!; try done.
  - rewrite <- Hp. by apply sublist_submseteq.
  - assert (StronglySorted tier_before facts) as Hsort.
    { apply Sorted_StronglySorted; [apply _|]. apply Sorted_merge_sort. apply _. }
    revert Hsort. clear - Hs. induction Hs as [|f l l' Hs IH|f l l' Hs IH]; intros Hsort; [constructor|..].
    + apply StronglySorted_inv in Hsort as [Hl Hf]. constructor; [by apply IH|].
      rewrite Forall_forall in Hf |- *. intros g Hg. apply Hf. by eapply elem_of_submseteq, sublist_submseteq.
    + apply StronglySorted_inv in Hsort as [Hl _]. by apply IH.
  - intros sf Hsf. destruct (Ho (sf_fact sf)) as [?|?]; [|by left|right; lia].
    rewrite Hp. by apply list_elem_of_fmap_2.
  - assert (length facts = length scored) as Hlen by (by rewrite Hp, length_fmap).
    cbn. fold facts. lia.
Qed.

(** ** Witnesses and examples *)

Module EngramSample.
#[local] Existing Instance plain_uuid.

(** A value as a tree, without its floats, and its text. *)
Fixpoint tree_of (v : Value) : gen_tree (bool + (string + Z)) :=
  match v with
  | Null | Num (Float _) => GenNode 0 []
  | Bool b => GenLeaf (inl b)
  | Str s => GenLeaf (inr (inl s))
  | Num (PosInt n) | Num (NegInt n) => GenLeaf (inr (inr n))
  | Array l => GenNode 1 (map tree_of l)
  | Object m => GenNode 2 (map (λ p, GenNode 3 [GenLeaf (inr (inl p.1)); tree_of p.2]) m)
  end.
Fixpoint value_of (t : gen_tree (bool + (string + Z))) : Value :=
  match t with
  | GenLeaf (inl b) => Bool b
  | GenLeaf (inr (inl s)) => Str s
  | GenLeaf (inr (inr n)) => Num (PosInt n)
  | GenNode 1 l => Array (map value_of l)
  | GenNode 2 l =>
      Object (map (λ t, match t with
        | GenNode _ [GenLeaf (inr (inl k)); v] => (k, value_of v) | _ => ("", Null) end) l)
  | GenNode _ _ => Null
  end.

#[local] Instance tree_json : JsonText.
Proof.
  refine {| parse_json s := p ← read_bits s; t ← decode p;
              if no_nan (value_of t) then Some (value_of t) else None;
            json_to_string v := bits (encode (tree_of v)) |}.
  abstract (intros s v; destruct (read_bits s) as [p|]; [|done]; cbn;
    destruct (decode p) as [t|]; [|done]; cbn; destruct (no_nan (value_of t)) eqn:Hn; [|done];
    by intros [= <-]).
Defined.
#[local] Instance shift_chrono : ChronoOps := {|
  rfc3339_millis t := bits (Z.to_pos (t + 1)); rfc3339 t := bits (Z.to_pos (t + 1));
  parse_rfc3339 s := (λ p, Z.pos p - 1) <$> read_bits s;
  try_seconds s := Some (s * NANOS_PER_SEC); checked_add_signed t d := Some (t + d);
  duration_from_std := Some |}.
#[local] Instance plain_sql : SqlOps.
Proof.
  refine {| scan A l := l; constraint_failed := "constraint"; malformed_json := "json";
            row_not_found := "no rows" |}.
  abstract done.
Defined.
#[local] Instance plain_engram : EngramOps.
Proof.
  refine {|
    uuid_parse s := Pos.pred_N <$> read_bits s; uuid_msg s := s; datetime_msg s := s;
    serde_msg s := s; driver_msg := ""; like s p := false;
    fts_match q l := Ok (base.filter (λ i, True) l.*1);
    unicode_alphanumeric c := false; is_match p s := false;
    powf a b := f64_of_Z 1; exp_ a := a; ln_ a := S754_zero false;
    date_text t := "1970-01-02"; date_parse s := None; json_pretty v := "";
    facts_from_value v := match v with Array l => Ok ((λ t,
      Build_ExtractedFact t [] [] (f64_of_Z 1) None (Some "2024-03-15")) <$> omap as_str l)
      | _ => Err "expected a list" end |}.
  abstract (intros q l ids i [= <-]; by intros [_ ?]%list_elem_of_filter).
Defined.
#[local] Instance order_n : IterOrder N := list_order N.

Lemma no_nan_tree v : no_nan (value_of (tree_of v)) = true.
Proof.
  induction v as [| |[| |]| |l IH|m IH] using Value_rec_ind; try done.
  - cbn. induction IH as [|v l Hv _ IH]; [done|]. cbn. by rewrite Hv, IH.
  - cbn. induction IH as [|[k v] m Hv _ IH]; [done|]. cbn in *. by rewrite Hv, IH.
Qed.

Lemma text_of_tree v : parse_json (json_to_string v) = Some (value_of (tree_of v)).
Proof. cbn. rewrite read_bits_bits. cbn. rewrite decode_encode. cbn. by rewrite no_nan_tree. Qed.

Lemma engram_laws horizon : EngramLaws horizon.
Proof.
  split.
  - intros u. cbn. rewrite read_bits_bits. cbn. by rewrite N.pos_pred_succ.
  - intros t Ht. cbn. rewrite read_bits_bits. cbn. f_equal. lia.
  - intros m _. rewrite text_of_tree. by eexists.
  - intros l. rewrite text_of_tree. cbn. do 2 f_equal. induction l as [|s l IH]; [done|].
    cbn. by rewrite IH.
Qed.

(** Two orgs that share the stores. *)
Definition acme : Scope := Scope.user "acme" "ann".
Definition zeta : Scope := Scope.user "zeta" "zoe".
Definition empty : world (Engram Z) := World (Build_Engram [] [] [] [] [] ∅ 0) 1 0%N.
#[local] Instance vectors_2 : VectorStore (Engram Z) := EmbeddedVectorStore 2.
Definition embed2 : Embed (Engram Z) := mock_embed 2.
Definition added (l : list (string * Scope)) : world (Engram Z) :=
  foldl (λ w p, (add_fact embed2 p.1 p.2 w).2) empty l.
Definition later (t : Z) (w : world (Engram Z)) : world (Engram Z) := World (store w) t (draws w).

Definition two_orgs : world (Engram Z) := added [("tea at four", acme); ("keys in the safe", zeta)].

Definition answers {A B} (f : A → B) (r : result MemoryError (list A)) : result MemoryError (list B) :=
  match r with Ok l => Ok (f <$> l) | Err e => Err e end.
Definition answer {A B} (f : A → B) (r : result MemoryError A) : result MemoryError B :=
  match r with Ok a => Ok (f a) | Err e => Err e end.

Lemma erasure_witness :
  fr_text <$> fact_rows (store (delete_user_data acme two_orgs).2) = ["keys in the safe"]
  ∧ (recall embed2 {| rq_query := "keys"; rq_scope := Some zeta; rq_max_results := 5; rq_as_of := None;
       rq_min_score := None |} (delete_user_data acme two_orgs).2).1 = Ok [].
Proof.
  split; [vm_compute; reflexivity|].
  set (q := Build_RecallQuery "keys" (Some zeta) 5 None None).
  destruct (erasure_complete 2 embed2 acme two_orgs) as (n & w' & Hd & _ & _ & _ & _ & _ & Hrecall).
  assert (w' = (delete_user_data acme two_orgs).2) as -> by exact (eq_sym (f_equal snd Hd)).
  exact (f_equal fst (Hrecall q _ _ eq_refl eq_refl)).
Defined.

(** Before the erasure, the recall finds the fact. *)
Example found_before :
  answers ft_text (recall embed2 {| rq_query := "keys"; rq_scope := Some zeta;
    rq_max_results := 5; rq_as_of := None; rq_min_score := None |} two_orgs).1 = Ok ["keys in the safe"].
Proof. vm_compute. reflexivity. Qed.

(** A context block for one org holds the facts of another. *)
Example context_leaks :
  answer cb_text (build_context embed2 ContextConfig_default "tea" acme two_orgs).1
  = Ok ("<memory>" +:+ LF +:+ "<conversation>" +:+ LF +:+ "- tea at four" +:+ LF
      +:+ "- keys in the safe" +:+ LF +:+ "</conversation>" +:+ LF +:+ "</memory>").
Proof. vm_compute. reflexivity. Qed.

(** A recall that asks for one fact finds none: another org's is nearer. *)
Example recall_crowded_out :
  (recall embed2 {| rq_query := "keys"; rq_scope := Some acme; rq_max_results := 1; rq_as_of := None;
    rq_min_score := None |} two_orgs).1 = Ok [].
Proof. vm_compute. reflexivity. Qed.

Definition only (op : ConsolidationOp) : ConsolidationConfig :=
  Build_ConsolidationConfig [op] (f64_lit 95 100) (f64_of_Z 30) (f32_lit 3 10) 3 (f32_lit 95 100)
    0 0 1.
Definition no_prompts : ConsolidationOp → string := λ _, "".

(** Consolidating one org's memory invalidates what another org stored. *)
Example dedup_crosses_orgs :
  let w := added [("tea at four", acme); ("tea at four", zeta)] in
  let '(r, w') := consolidate embed2 (only ConsolidationOp.Dedup) no_prompts acme None w in
  answer facts_deduped r = Ok 1
  ∧ answers ft_text (memory_list_facts (Some zeta) w).1 = Ok ["tea at four"]
  ∧ (memory_list_facts (Some zeta) w').1 = Ok [].
Proof. vm_compute. split_and!; reflexivity. Qed.

(** Ordering a timeline takes the dates it was ordered by out of the facts: a second
    cycle finds none. *)
Definition dated_facts : world (Engram Z) :=
  (add_messages embed2 (λ _ _, mret (Array [Str "a"; Str "b"])) "" [Build_Message "user" "hi"] acme
    ExtractionConfig_default None empty).2.
Example timeline_forgets :
  let cycle := consolidate embed2 (only ConsolidationOp.TimelineBuilder) no_prompts acme None in
  let '(r1, w1) := cycle dated_facts in
  let '(r2, w2) := cycle w1 in
  answer timeline_events_ordered r1 = Ok 2 ∧ answer timeline_events_ordered r2 = Ok 0
  ∧ answers event_date (memory_list_facts (Some acme) dated_facts).1
    = Ok [Some "2024-03-15"; Some "2024-03-15"]
  ∧ answers event_date (memory_list_facts (Some acme) w1).1 = Ok [None; None].
Proof. vm_compute. split_and!; reflexivity. Qed.

(** The dates of older facts are not counted: a block can be larger than its
    budget. *)
Example context_exceeds_budget :
  let w := later (3 * DAY) (added (replicate 8 ("tea", acme))) in
  answer (λ b, (cb_facts_included b, cb_token_count b))
    (build_context embed2 (Build_ContextConfig 39 OutputFormat.SystemPrompt 100) "tea" acme w).1
  = Ok (8, 51).
Proof. vm_compute. reflexivity. Qed.

(** A model that always answers, and counts what it is asked. *)
Definition counting : Llm (Engram Z) := λ _ _ w,
  (Ok (obj [("summaries", Array [Str "s"]); ("insights", Array [Str "i"]); ("profile", Str "p")]),
   World (Build_Engram (fact_rows (store w)) (fts_rows (store w)) (entity_rows (store w))
     (relationship_rows (store w)) (message_rows (store w)) (vectors (store w)) (outside (store w) + 1))
     (clock w) (draws w)).
Definition busy : ConsolidationConfig :=
  Build_ConsolidationConfig (enabled_ops ConsolidationConfig_default) (f64_lit 95 100) (f64_of_Z 30)
    (f32_lit 3 10) 3 (f32_lit 95 100) 0 0 2.

Lemma outside_quiet : no_calls outside embed2.
Proof.
  assert (∀ A (m : eff (Engram Z) MemoryError A),
    (∀ w, outside (store (m w).2) = outside (store w)) → quiet outside m) as Hq.
  { intros A m Hm w. rewrite Hm. split; [lia|]. intros. lia. }
  split; intros; apply Hq; intros w; cbn; try done.
  - unfold sqlite_insert_fact, insert_or_ignore, mbind, eff_bind. cbn. by destruct (existsb _ _).
  - unfold sqlite_update_fact, sqlite_get_fact, mbind, eff_bind. cbn. by destruct (List.find _ _).
  - unfold embedded_upsert. by case_match.
Qed.

Lemma budget_witness :
  answer llm_calls_used (consolidate embed2 busy no_prompts acme (Some counting) two_orgs).1 = Ok 2
  ∧ outside (store (consolidate embed2 busy no_prompts acme (Some counting) two_orgs).2) ≤ 0 + 2.
Proof.
  split; [vm_compute; reflexivity|].
  assert (∀ s u, spends outside (counting s u) (λ _, 1) 1) as Hllm.
  { intros s u w. cbn. split; [lia|]. intros. lia. }
  pose proof (llm_budget outside embed2 busy no_prompts counting outside_quiet Hllm acme two_orgs
    ltac:(done)) as Hb.
  destruct (consolidate _ _ _ _ _ two_orgs) as [r w']. exact (proj1 Hb).
Defined.

Definition said (n : N) (role text : string) (seq : Z) : ChatMessage :=
  Build_ChatMessage n "" role text acme seq 5 [].
Lemma conversation_witness :
  let ms := [said 1 "user" "hi" 0; said 2 "assistant" "hello" 1; said 3 "user" "bye" 2] in
  answers ms_content (get_messages "c" (Some 2) acme (save_messages "c" ms acme two_orgs).2).1
  = Ok ["hello"; "bye"].
Proof.
  intros ms.
  assert (in_order ms) as Hord by (repeat constructor).
  assert (Forall (storable 100) ms) as Hst.
  { repeat constructor; cbn; lia. }
  assert (NoDup (uuid_hyphenated ∘ ms_id <$> ms)) as Hnd
    by (apply (bool_decide_unpack _); vm_compute; reflexivity).
  pose proof (conversation_round_trip 100 (engram_laws 100) "c" acme ms two_orgs ltac:(done) Hord Hst Hnd
    ltac:(intros m _; apply not_elem_of_nil) ltac:(by intros r ?%not_elem_of_nil)) as Hc.
  destruct (save_messages "c" ms acme two_orgs) as [r w']. destruct Hc as (_ & _ & Hlast & _).
  unfold snd. rewrite (Hlast 2 ltac:(lia)). vm_compute. reflexivity.
Defined.
End EngramSample.
