(* ===== verification/EngramGraph.v ===== *)
(** * The graph of a memory: searches end, and find what is near
    ([engram/src/graph_sqlite.rs], [spreading.rs]) *)

From S2P Require Import Prelude.
From S2P Require Import Json.
From S2P Require Import RustStr.
From S2P Require Import Condition.
From S2P Require Import Hashing.
From S2P Require Import Sql.
From S2P Require Import Engram.
From S2P Require Import EngramStore.
From S2P Require Import EngramMemory.
From S2P Require Import EngramCorrect.
Import MemoryError.

(** ** Spreading activation ends *)

Section Spread.
Context {S : Type} `{!GraphStore S} (config : SpreadingActivationConfig).

Definition spread_ok (sp : Spread) : Prop := dom (sp_activations sp) ⊆ sp_visited sp.
Definition spread_measure (sp : Spread) : Z :=
  let n := Z.of_nat (size (sp_activations sp)) in
  if decide (max_activated config ≤ n) then 1
  else Z.of_nat (length (sp_queue sp)) + (max_activated config - n) + 1.

Lemma activate_ok child depth sp e : spread_ok sp → spread_ok (activate child depth sp e)
  ∧ Z.of_nat (size (sp_activations (activate child depth sp e))) - Z.of_nat (length (sp_queue (activate child depth sp e)))
    = Z.of_nat (size (sp_activations sp)) - Z.of_nat (length (sp_queue sp))
  ∧ (size (sp_activations sp) ≤ size (sp_activations (activate child depth sp e)))%nat.
Proof.
  unfold spread_ok, activate. intros Hok. case_decide as Hv; [done|]. cbn.
  assert (sp_activations sp !! en_id e = None) as Hnone.
  { apply not_elem_of_dom. set_solver. }
  rewrite dom_insert, map_size_insert_None, length_app by done. cbn. split_and!; [set_solver|lia|lia].
Qed.

Lemma activate_all_ok child depth es sp : spread_ok sp →
  let sp' := foldl (activate child depth) sp es in
  spread_ok sp'
  ∧ Z.of_nat (size (sp_activations sp')) - Z.of_nat (length (sp_queue sp'))
    = Z.of_nat (size (sp_activations sp)) - Z.of_nat (length (sp_queue sp))
  ∧ (size (sp_activations sp) ≤ size (sp_activations sp'))%nat.
Proof.
  revert sp. induction es as [|e es IH]; intros sp Hok; cbn; [done|].
  destruct (activate_ok child depth sp e Hok) as (Hok1 & Hd1 & Hle1).
  destruct (IH _ Hok1) as (? & Hd & Hle). split_and!; [done| |]; cbn in *; lia.
Qed.

Lemma spread_loop_ends fuel sp w : spread_ok sp → spread_measure sp ≤ Z.of_nat fuel →
  (spread_loop config fuel sp w).1 ≠ Ok None.
Proof.
  revert sp w. induction fuel as [|fuel IH]; intros sp w Hok Hm.
  { exfalso. revert Hm. unfold spread_measure. case_decide; lia. }
  cbn [spread_loop]. destruct (sp_queue sp) as [|[[x a] d] queue] eqn:Hq; [done|].
  set (sp1 := Build_Spread (sp_activations sp) (sp_visited sp) queue).
  destruct (_ || _)%bool eqn:Hstop; [done|].
  apply orb_false_iff in Hstop as [_ Hmax%bool_decide_eq_false].
  revert Hm. unfold spread_measure at 1. rewrite decide_False, Hq by exact Hmax. cbn [length].
  intros Hm. change (sp_activations sp1) with (sp_activations sp) in Hmax. case_match.
  - apply IH; [done|]. unfold spread_measure. cbn. rewrite decide_False by done. lia.
  - unfold mbind, eff_bind. destruct (neighbors x 1 None w) as [[g|e] w1]; [|done].
    destruct (activate_all_ok (f32_mul a (decay_factor config)) d (sg_entities g) sp1 Hok)
      as (Hok' & Hd & Hle). apply IH; [done|]. unfold spread_measure. cbn in Hd, Hle.
    case_decide; lia.
Qed.

Lemma seed_ok seeds sp : spread_ok sp →
  spread_ok (foldl seed sp seeds)
  ∧ length (sp_queue (foldl seed sp seeds)) = (length (sp_queue sp) + length seeds)%nat.
Proof.
  revert sp. induction seeds as [|[x a] seeds IH]; intros sp Hok; cbn [foldl length]; [split; [done|lia]|].
  destruct (IH (seed sp (x, a))) as [? Hl].
  { unfold spread_ok, seed in *. cbn. rewrite dom_insert. set_solver. }
  split; [done|]. rewrite Hl. cbn. rewrite length_app. cbn. lia.
Qed.

(** The loop always ends within its fuel, whatever the graph answers. *)
Theorem spread_ends (seeds : list (EntityId * f32)) (w : world S) :
  (spread_loop config (spread_fuel config seeds) (foldl seed (Build_Spread ∅ ∅ []) seeds) w).1 ≠ Ok None.
Proof.
  destruct (seed_ok seeds (Build_Spread ∅ ∅ [])) as [Hok Hl]; [done|].
  apply spread_loop_ends; [done|]. unfold spread_measure, spread_fuel. cbn in Hl. rewrite Hl.
  case_decide; lia.
Qed.
End Spread.

(** ** A search of the neighbourhood *)

Definition in_range (horizon t : DateTime) : Prop := 0 ≤ t < horizon.
Definition opt_in_range (horizon : DateTime) (o : option DateTime) : Prop :=
  ∀ t, o = Some t → in_range horizon t.

Section Neighbours.
Context `{!UuidOps, !ChronoOps, !JsonText, !EngramOps, !SqlOps, !IterOrder N} {X : Type}.
Context (horizon : DateTime) (Hlaws : EngramLaws horizon).
Context (s : Engram X) (as_of : option DateTime).

(** A row that reads, its ids and the times it is valid from and to as the code
    writes them. *)
Definition relationship_ok (r : RelationshipRow) : Prop := ∃ rel,
  row_to_relationship r = Ok rel ∧ pr_id r = uuid_hyphenated (rl_id rel)
  ∧ pr_source_id r = uuid_hyphenated (rl_source_id rel)
  ∧ pr_target_id r = uuid_hyphenated (rl_target_id rel)
  ∧ pr_valid_from r = rfc3339 (rl_valid_from rel) ∧ in_range horizon (rl_valid_from rel)
  ∧ pr_invalid_at r = rfc3339 <$> rl_invalid_at rel ∧ opt_in_range horizon (rl_invalid_at rel).
Definition entity_ok (r : EntityRow) : Prop := ∃ e,
  row_to_entity r = Ok e ∧ nr_id r = uuid_hyphenated (en_id e).
Definition graph_ok : Prop :=
  NoDup (pr_id <$> relationship_rows s) ∧ Forall relationship_ok (relationship_rows s)
  ∧ NoDup (nr_id <$> entity_rows s) ∧ Forall entity_ok (entity_rows s).
Context (Hok : graph_ok).

(** The relationship [rel] is kept, can be traversed, and touches [a]. *)
Definition touches (rel : Relationship) (a : EntityId) : Prop := ∃ row,
  row ∈ relationship_rows s ∧ traversed as_of row = true ∧ row_to_relationship row = Ok rel
  ∧ (rl_source_id rel = a ∨ rl_target_id rel = a).
Definition other_end (rel : Relationship) (a : EntityId) : EntityId :=
  if decide (rl_source_id rel = a) then rl_target_id rel else rl_source_id rel.
Definition adjacent (a b : EntityId) : Prop := ∃ rel, touches rel a ∧ other_end rel a = b.
(** [b] can be reached from [a] in [n] hops or fewer. *)
Definition within (n : nat) (a b : EntityId) : Prop := ∃ m, (m ≤ n)%nat ∧ nsteps adjacent m a b.

#[local] Instance hyphenated_inj : Inj (=) (=) (uuid_hyphenated : Uuid → string).
Proof.
  intros a b Hab. pose proof (id_text (horizon := horizon) a) as Ha.
  rewrite Hab, (id_text (horizon := horizon)) in Ha. by injection Ha.
Qed.

Lemma find_entity_ok x : ∃ o, find_entity x s = Ok o ∧ (∀ e, o = Some e → en_id e = x).
Proof.
  unfold find_entity. destruct (List.find _ _) as [r|] eqn:Hr; [|by exists None].
  apply List.find_some in Hr as [Hr Hid%bool_decide_eq_true]. destruct Hok as (_ & _ & _ & He).
  rewrite Forall_forall in He. destruct (He r ltac:(by apply list_elem_of_In)) as (e & Hre & Hi).
  exists (Some e). cbn. rewrite Hre. split; [done|]. intros ? [= <-].
  apply (inj uuid_hyphenated). by rewrite <- Hi.
Qed.

Lemma rows_of_ok x row : row ∈ rows_of s as_of x ↔ ∃ rel, row ∈ relationship_rows s
  ∧ traversed as_of row = true ∧ row_to_relationship row = Ok rel
  ∧ (rl_source_id rel = x ∨ rl_target_id rel = x).
Proof.
  unfold rows_of. rewrite scan_perm, list_elem_of_filter. split.
  - intros [[Hends Ht] Hin]. destruct Hok as (_ & Hr & _). rewrite Forall_forall in Hr.
    destruct (Hr row Hin) as (rel & Hrel & _ & Hs & Hd & _). exists rel. split_and!; try done.
    destruct Hends as [He|He]; [left|right]; apply (inj uuid_hyphenated); congruence.
  - intros (rel & Hin & Ht & Hrel & Hends). split; [|done]. split; [|done].
    destruct Hok as (_ & Hr & _). rewrite Forall_forall in Hr.
    destruct (Hr row Hin) as (rel' & Hrel' & _ & Hs & Hd & _).
    assert (rel' = rel) as -> by congruence. rewrite Hs, Hd.
    destruct Hends as [<-|<-]; tauto.
Qed.

(** *** Fuel *)

Definition ends : gset EntityId :=
  list_to_set (relationship_rows s ≫= λ r,
    match row_to_relationship r with Ok rel => [rl_source_id rel; rl_target_id rel] | Err _ => [] end).
Definition search_measure (sr : Search) : nat :=
  (length (sr_queue sr) + size (ends ∖ sr_visited sr))%nat.

Lemma ends_size : (size ends ≤ 2 * length (relationship_rows s))%nat.
Proof.
  unfold ends. etransitivity; [apply size_list_to_set_le|].
  induction (relationship_rows s) as [|r l IH]; [done|]. rewrite bind_cons, length_app.
  destruct (row_to_relationship r); cbn [length]; lia.
Qed.

Lemma touches_ends rel a : touches rel a → other_end rel a ∈ ends.
Proof.
  intros (row & Hin & _ & Hrel & _). unfold ends. rewrite elem_of_list_to_set, list_elem_of_bind.
  exists row. split; [|done]. rewrite Hrel. unfold other_end. case_decide; set_solver.
Qed.

(** *** The invariant: how many hops each visited entity has left *)

Context (start : EntityId) (depth : Z) (Hdepth : 0 ≤ depth).

(** Entity [x] is behind the loop: its relationships were followed. *)
Definition expanded (L : gmap EntityId Z) (x : EntityId) (r : Z) : Prop :=
  0 < r → ∀ y, adjacent x y → ∃ r', L !! y = Some r' ∧ r - 1 ≤ r'.

Record visited_ok (L : gmap EntityId Z) (sr : Search) : Prop := {
  vk_dom : dom L = sr_visited sr;
  vk_start : L !! start = Some depth;
  vk_path x r : L !! x = Some r → 0 ≤ r ≤ depth ∧ nsteps adjacent (Z.to_nat (depth - r)) start x;
  vk_entities x e : sr_entities sr !! x = Some e ↔
    x ∈ sr_visited sr ∧ x ≠ start ∧ find_entity x s = Ok (Some e);
  vk_queue x r : (x, r) ∈ sr_queue sr → L !! x = Some r;
  vk_nodup : NoDup (sr_queue sr).*1;
  vk_order : StronglySorted (λ p q, p.2 - 1 ≤ q.2 ≤ p.2) (sr_queue sr);
}.

(** Relationships found: those of the entities behind the loop, and, of the one
    being expanded, of the rows already seen. *)
Definition found_ok (L : gmap EntityId Z) (sr : Search) (behind : EntityId → Prop)
    (seen : Relationship → Prop) : Prop :=
  ∀ k rel, sr_relationships sr !! k = Some rel ↔
    rl_id rel = k ∧ ((∃ x r, behind x ∧ L !! x = Some r ∧ 0 < r ∧ touches rel x) ∨ seen rel).

Definition loop_ok (L : gmap EntityId Z) (sr : Search) : Prop :=
  visited_ok L sr
  ∧ (∀ x r, L !! x = Some r → x ∉ (sr_queue sr).*1 →
      (∀ p, p ∈ sr_queue sr → p.2 ≤ r) ∧ expanded L x r)
  ∧ found_ok L sr (λ x, x ∉ (sr_queue sr).*1) (λ _, False).

(** While [c], with [r] hops left, is expanded. *)
Definition expanding (c : EntityId) (r : Z) (seen : Relationship → Prop) (L : gmap EntityId Z)
    (sr : Search) : Prop :=
  visited_ok L sr ∧ L !! c = Some r ∧ 0 < r ∧ c ∉ (sr_queue sr).*1
  ∧ (∀ p, p ∈ sr_queue sr → r - 1 ≤ p.2 ≤ r)
  ∧ (∀ x rx, L !! x = Some rx → x ∉ (sr_queue sr).*1 → x ≠ c → r ≤ rx ∧ expanded L x rx)
  ∧ (∀ rel, seen rel → ∃ r', L !! other_end rel c = Some r' ∧ r - 1 ≤ r')
  ∧ found_ok L sr (λ x, x ∉ (sr_queue sr).*1 ∧ x ≠ c) seen.

Lemma found_insert (L : gmap EntityId Z) sr behind seen row rel :
  found_ok L sr behind seen → (∀ rel', seen rel' → ∃ a, touches rel' a) →
  (∃ a, touches rel a) → row_to_relationship row = Ok rel → row ∈ relationship_rows s →
  ∀ k rel', or_insert (rl_id rel) rel (sr_relationships sr) !! k = Some rel' ↔
    rl_id rel' = k ∧ ((∃ x r, behind x ∧ L !! x = Some r ∧ 0 < r ∧ touches rel' x)
      ∨ seen rel' ∨ rel' = rel).
Proof.
  intros Hf Hseen Hrel Hrow Hin.
  assert (∀ rel1 a, touches rel1 a → rl_id rel1 = rl_id rel → rel1 = rel) as Huniq.
  { intros rel1 a (row1 & Hin1 & _ & Hr1 & _) Hid. destruct Hok as (Hnd & Hr & _).
    rewrite Forall_forall in Hr. destruct (Hr row1 Hin1) as (rl1 & ? & Hi1 & _).
    destruct (Hr row Hin) as (rl & ? & Hi & _).
    assert (row1 = row) as ->; [|congruence].
    apply list_elem_of_lookup in Hin1 as (i & Hi1'). apply list_elem_of_lookup in Hin as (j & Hj).
    assert (i = j) as ->; [|congruence].
    eapply (NoDup_lookup _ _ _ (pr_id row)); [exact Hnd| |].
    - rewrite list_lookup_fmap, Hi1'. cbn. congruence.
    - by rewrite list_lookup_fmap, Hj. }
  intros k rel'. unfold or_insert. destruct (sr_relationships sr !! rl_id rel) as [old|] eqn:Hold.
  - assert (old = rel) as ->.
    { apply Hf in Hold as [Hid [(x & r & _ & _ & _ & Ht)|Hs]]; [by eapply Huniq|].
      destruct (Hseen _ Hs) as [a Ha]. by eapply Huniq. }
    rewrite (Hf k rel'). split; [tauto|]. intros [Hid [?|[?| ->]]]; [tauto..|].
    subst k. by apply Hf in Hold.
  - destruct (decide (k = rl_id rel)) as [ ->|Hne].
    + rewrite lookup_insert_eq. split.
      * intros [= <-]. tauto.
      * intros [Hid [(x & r & _ & _ & _ & Ht)|[Hs| ->]]]; [|destruct (Hseen _ Hs) as [a Ha]|done];
          f_equal; symmetry; by eapply Huniq.
    + rewrite lookup_insert_ne by done. rewrite (Hf k rel'). split; [tauto|].
      intros [Hid [?|[?| ->]]]; [tauto..|done].
Qed.

Lemma expanded_grows L L' x r : (∀ y v, L !! y = Some v → L' !! y = Some v) →
  expanded L x r → expanded L' x r.
Proof. intros Hl He Hr y Hy. destruct (He Hr y Hy) as (r' & ? & ?). eauto. Qed.

Lemma visit_row_ok c r seen L sr row rel :
  expanding c r seen L sr → (∀ rel', seen rel' → touches rel' c) →
  row ∈ relationship_rows s → row_to_relationship row = Ok rel → touches rel c →
  ∃ L' sr', visit_row s c r sr row = Ok sr'
    ∧ expanding c r (λ rel', seen rel' ∨ rel' = rel) L' sr'
    ∧ search_measure sr' = search_measure sr.
Proof.
  intros (Hv & Hc & Hr & Hcq & Hq & Hbehind & Hseen & Hfound) Hst Hin Hrow Ht.
  pose proof (found_insert _ _ _ _ row rel Hfound ltac:(eauto) ltac:(eauto) Hrow Hin) as Hfi.
  unfold visit_row. rewrite Hrow. unfold mbind, result_bind. cbn beta iota.
  change (if decide (rl_source_id rel = c) then rl_target_id rel else rl_source_id rel)
    with (other_end rel c).
  set (next := other_end rel c). case_decide as Hnext.
  - exists L. eexists. split; [reflexivity|]. split; [|done].
    split_and!; try done.
    + destruct Hv. by constructor.
    + intros rel' [?| ->]; [by apply Hseen|]. rewrite <- (vk_dom _ _ Hv) in Hnext.
      apply elem_of_dom in Hnext as [r' Hr']. exists r'. split; [done|].
      destruct (decide (next = c)) as [ ->|Hne]; [rewrite Hc in Hr'; injection Hr'; lia|].
      destruct (decide (next ∈ (sr_queue sr).*1)) as [Hn|Hn].
      * apply list_elem_of_fmap in Hn as ([x rx] & Hx & Hn). cbn in Hx. subst x.
        pose proof (vk_queue _ _ Hv _ _ Hn) as He. rewrite He in Hr'. injection Hr' as <-.
        by apply (Hq _ Hn).
      * destruct (Hbehind _ _ Hr' Hn Hne). lia.
  - destruct (find_entity_ok next) as (o & Ho & Hid). rewrite Ho.
    assert (L !! next = None) as Hnone.
    { apply not_elem_of_dom. by rewrite (vk_dom _ _ Hv). }
    assert (next ≠ c) as Hnc by congruence.
    assert (next ≠ start) as Hns.
    { intros Heq. rewrite Heq, (vk_start _ _ Hv) in Hnone. done. }
    assert (next ∉ (sr_queue sr).*1) as Hnq.
    { intros ([x rx] & Hx & Hn)%list_elem_of_fmap. cbn in Hx. subst x.
      by rewrite (vk_queue _ _ Hv _ _ Hn) in Hnone. }
    destruct (vk_path _ _ Hv _ _ Hc) as [Hcd Hpath].
    assert (∀ y v, L !! y = Some v → <[next := r - 1]> L !! y = Some v) as Hgrow.
    { intros y v Hy. rewrite lookup_insert_ne; [done|]. congruence. }
    exists (<[next := r - 1]> L). eexists. split; [reflexivity|]. split.
    + split_and!.
      * destruct Hv as [Hd Hs Hp He Hvq Hnd Ho']. constructor; cbn.
        -- rewrite dom_insert_L. by rewrite Hd.
        -- by apply Hgrow.
        -- intros x rx. destruct (decide (x = next)) as [ ->|Hx].
           ++ rewrite lookup_insert_eq. intros [= <-]. split; [lia|].
              replace (Z.to_nat (depth - (r - 1))) with (Datatypes.S (Z.to_nat (depth - r))) by lia.
              eapply nsteps_r; [exact Hpath|]. exists rel. by split.
           ++ rewrite lookup_insert_ne by done. apply Hp.
        -- intros x e. destruct o as [e0|].
           ++ unfold or_insert. destruct (sr_entities sr !! next) as [e1|] eqn:He1.
              { apply He in He1 as [? _]. done. }
              destruct (decide (x = next)) as [ ->|Hx].
              ** rewrite lookup_insert_eq, Ho. set_solver.
              ** rewrite lookup_insert_ne, He by done. set_solver.
           ++ rewrite He. destruct (decide (x = next)) as [ ->|Hx]; [|set_solver].
              rewrite Ho. set_solver.
        -- intros x rx. rewrite elem_of_app, list_elem_of_singleton. intros [Hx|[= -> ->]].
           ++ by apply Hgrow, Hvq.
           ++ by rewrite lookup_insert_eq.
        -- rewrite fmap_app. apply NoDup_app. split_and!; [done| |apply NoDup_singleton].
           intros x Hx. cbn. rewrite list_elem_of_singleton. by intros ->.
        -- apply StronglySorted_app_2; [|done|repeat constructor].
           intros p q Hp' ->%list_elem_of_singleton. cbn. specialize (Hq p Hp'). lia.
      * by apply Hgrow.
      * done.
      * cbn. rewrite fmap_app, elem_of_app. cbn. rewrite list_elem_of_singleton. naive_solver.
      * cbn. intros p. rewrite elem_of_app, list_elem_of_singleton. intros [Hp| ->]; [by apply Hq|cbn; lia].
      * cbn. intros x rx. rewrite fmap_app, elem_of_app. cbn. rewrite list_elem_of_singleton.
        intros Hx Hxq Hxc. rewrite lookup_insert_ne in Hx by naive_solver.
        destruct (Hbehind x rx Hx ltac:(tauto) Hxc). split; [done|]. by eapply expanded_grows.
      * intros rel' [Hs| ->].
        -- destruct (Hseen _ Hs) as (r' & ? & ?). eauto.
        -- exists (r - 1). fold next. rewrite lookup_insert_eq. split; [done|lia].
      * intros k rel'. cbn. rewrite (Hfi k rel'). split; (intros [Hk H']; split; [done|]).
        -- destruct H' as [(x & rx & (Hxq & Hxc) & Hx & Hrx & Htx)|H']; [|by right].
           left. exists x, rx. split_and!; try done; [|by apply Hgrow].
           rewrite fmap_app, elem_of_app. cbn. rewrite list_elem_of_singleton. intros [?| ->]; [done|].
           congruence.
        -- destruct H' as [(x & rx & (Hxq & Hxc) & Hx & Hrx & Htx)|H']; [|by right].
           rewrite fmap_app, elem_of_app in Hxq. cbn in Hxq. rewrite list_elem_of_singleton in Hxq.
           left. exists x, rx. rewrite lookup_insert_ne in Hx by naive_solver. tauto.
    + unfold search_measure. cbn. rewrite length_app. cbn.
      assert (next ∈ ends ∖ sr_visited sr) as Hne.
      { apply elem_of_difference. split; [by apply touches_ends|done]. }
      replace (ends ∖ ({[next]} ∪ sr_visited sr)) with ((ends ∖ sr_visited sr) ∖ {[next]}) by set_solver.
      rewrite size_difference by set_solver. rewrite size_singleton.
      assert (size (ends ∖ sr_visited sr) ≠ 0%nat) by (intros ?%size_empty_inv; set_solver). lia.
Qed.
Lemma expanding_ext c r (P Q : Relationship → Prop) L sr :
  (∀ rel, P rel ↔ Q rel) → expanding c r P L sr → expanding c r Q L sr.
Proof.
  intros HPQ (? & ? & ? & ? & ? & ? & Hs & Hf). split_and!; try done.
  - intros rel ?%HPQ. by apply Hs.
  - intros k rel. rewrite (Hf k rel), HPQ. done.
Qed.

Lemma visit_rows_ok c r rows seen L sr :
  expanding c r seen L sr → (∀ rel, seen rel → touches rel c) →
  (∀ row, row ∈ rows → ∃ rel, row ∈ relationship_rows s ∧ row_to_relationship row = Ok rel
    ∧ touches rel c) →
  ∃ L' sr', visit_rows s c r rows sr = Ok sr'
    ∧ expanding c r (λ rel, seen rel ∨ ∃ row, row ∈ rows ∧ row_to_relationship row = Ok rel) L' sr'
    ∧ search_measure sr' = search_measure sr.
Proof.
  revert seen L sr. induction rows as [|row rows IH]; intros seen L sr He Hst Hrows; cbn [visit_rows].
  { exists L, sr. split_and!; [done| |done]. eapply expanding_ext; [|exact He].
    intros rel. split; [tauto|]. intros [?|(? & ?%not_elem_of_nil & _)]; done. }
  destruct (Hrows row ltac:(left)) as (rel & Hin & Hrow & Ht).
  destruct (visit_row_ok c r seen L sr row rel He Hst Hin Hrow Ht) as (L1 & sr1 & -> & He1 & Hm1).
  destruct (IH _ L1 sr1 He1) as (L' & sr' & Hv & He' & Hm').
  - intros rel' [?| ->]; [by apply Hst|done].
  - intros row' ?. apply Hrows. by right.
  - exists L', sr'. split_and!; [done| |by rewrite Hm', Hm1]. eapply expanding_ext; [|exact He'].
    intros rel'. cbn. setoid_rewrite elem_of_cons. split.
    + intros [[?| ->]|(row' & ? & ?)]; eauto.
    + intros [?|(row' & [ ->|?] & ?)]; [tauto| |by eauto].
      left. right. congruence.
Qed.

(** The entity at the head of the queue leaves it. *)
Lemma pop_ok L sr c r q : sr_queue sr = (c, r) :: q → visited_ok L sr →
  visited_ok L (Build_Search (sr_visited sr) (sr_entities sr) (sr_relationships sr) q)
  ∧ c ∉ q.*1 ∧ (∀ p, p ∈ q → r - 1 ≤ p.2 ≤ r) ∧ L !! c = Some r ∧ 0 ≤ r.
Proof.
  intros Hq [Hd Hs Hp He Hvq Hnd Ho]. rewrite Hq in *. apply NoDup_cons in Hnd as [Hc Hnd].
  apply StronglySorted_inv in Ho as [Ho Hall]. rewrite Forall_forall in Hall.
  assert (L !! c = Some r) as HL by (apply Hvq; left). split_and!; try done.
  - constructor; try done. intros x rx ?. apply Hvq. by right.
  - by apply (Hp c r).
Qed.

Lemma search_loop_ok fuel L sr : loop_ok L sr → (search_measure sr < fuel)%nat →
  ∃ L' sr', search_loop fuel s as_of sr = Some (Ok sr') ∧ loop_ok L' sr' ∧ sr_queue sr' = [].
Proof.
  revert L sr. induction fuel as [|fuel IH]; intros L sr Hl Hm; [lia|].
  cbn [search_loop]. destruct (sr_queue sr) as [|[c r] q] eqn:Hq; [by exists L, sr|].
  destruct Hl as (Hv & Hbehind & Hfound). rewrite Hq in Hbehind. unfold found_ok in Hfound. rewrite Hq in Hfound.
  destruct (pop_ok _ _ _ _ _ Hq Hv) as (Hv1 & Hcq & Hqr & Hc & Hr).
  set (sr1 := Build_Search (sr_visited sr) (sr_entities sr) (sr_relationships sr) q) in *.
  assert (search_measure sr = Datatypes.S (search_measure sr1)) as Hmp.
  { unfold search_measure. by rewrite Hq. }
  assert (∀ x, x ∉ ((c, r) :: q).*1 ↔ x ∉ q.*1 ∧ x ≠ c) as Hbq.
  { intros x. rewrite fmap_cons, not_elem_of_cons. cbn. tauto. }
  case_decide as Hr0.
  - apply (IH L); [|lia]. split_and!; [done| |].
    + intros x rx Hx Hxq. destruct (decide (x = c)) as [ ->|Hne].
      * assert (rx = r) as -> by congruence. split; [|intros ?; lia]. intros p Hp. by apply (Hqr p).
      * destruct (Hbehind x rx Hx) as [Hle Hex]; [by rewrite Hbq|]. split; [|done].
        intros p Hp. apply Hle. by right.
    + intros k rel. unfold sr1. cbn [sr_relationships sr_queue]. rewrite (Hfound k rel). split; (intros [Hk [(x & rx & Hb & Hx & Hrx & Ht)|[]]];
        split; [done|]; left; exists x, rx; split_and!; try done).
      * by apply Hbq.
      * apply Hbq. split; [done|]. intros ->. assert (rx = r) by congruence. lia.
  - destruct (visit_rows_ok c r (rows_of s as_of c) (λ _, False) L sr1) as (L' & sr' & -> & He & Hm').
    { split_and!; [done|done|lia|done|done| |done|].
      - intros x rx Hx Hxq Hxc. destruct (Hbehind x rx Hx) as [Hle Hex]; [by rewrite Hbq|].
        split; [|done]. apply (Hle (c, r)). left.
      - intros k rel. unfold sr1. cbn [sr_relationships sr_queue]. rewrite (Hfound k rel).
        by setoid_rewrite Hbq. }
    { done. }
    { intros row (rel & ? & ? & ? & ?)%rows_of_ok. exists rel. split_and!; [done..|]. by exists row. }
    assert (∀ rel, touches rel c ↔ ∃ row, row ∈ rows_of s as_of c ∧ row_to_relationship row = Ok rel) as Hall.
    { intros rel. split.
      - intros (row & ? & ? & ? & ?). exists row. split; [|done]. apply rows_of_ok. by exists rel.
      - intros (row & (rel' & ? & ? & ? & ?)%rows_of_ok & ?). exists row. assert (rel' = rel) as -> by congruence.
        by split_and!. }
    destruct He as (Hv' & Hc' & Hr' & Hcq' & Hqr' & Hbehind' & Hseen & Hfound').
    apply (IH L'); [|lia]. split_and!; [done| |].
    + intros x rx Hx Hxq. destruct (decide (x = c)) as [ ->|Hne].
      * assert (rx = r) as -> by congruence. split; [intros p Hp; by apply (Hqr' p)|].
        intros _ y (rel & Ht & <-). apply Hseen. right. by apply Hall.
      * destruct (Hbehind' x rx Hx Hxq Hne) as [Hle Hex]. split; [|done].
        intros p Hp. specialize (Hqr' p Hp). lia.
    + intros k rel. rewrite (Hfound' k rel). split; (intros [Hk H']; split; [done|]).
      * left. destruct H' as [(x & rx & [? ?] & ? & ? & ?)|[[]|Ht]]; [by exists x, rx|].
        exists c, r. split_and!; try done. by apply Hall.
      * destruct H' as [(x & rx & Hxq & Hx & Hrx & Ht)|[]].
        destruct (decide (x = c)) as [ ->|Hne]; [right; right; by apply Hall|left; by exists x, rx].
Qed.

Lemma start_ok : loop_ok {[start := depth]} (search_from start depth).
Proof.
  split_and!.
  - constructor; cbn.
    + by rewrite dom_singleton_L.
    + by rewrite lookup_singleton_eq.
    + intros x r [<- <-]%lookup_singleton_Some. split; [lia|]. rewrite Z.sub_diag. constructor.
    + intros x e. rewrite lookup_empty. set_solver.
    + intros x r [= -> ->]%list_elem_of_singleton. by rewrite lookup_singleton_eq.
    + apply NoDup_singleton.
    + repeat constructor.
  - intros x r [<- <-]%lookup_singleton_Some. cbn. set_solver.
  - intros k rel. cbn. rewrite lookup_empty. split; [done|].
    intros [_ [(x & r & Hx & [<- <-]%lookup_singleton_Some & _)|[]]]. set_solver.
Qed.

(** Everything within reach has been visited, with the hops it has left. *)
Lemma reached L sr m x : loop_ok L sr → sr_queue sr = [] → nsteps adjacent m start x →
  Z.of_nat m ≤ depth → ∃ r, L !! x = Some r ∧ depth - Z.of_nat m ≤ r.
Proof.
  intros (Hv & Hbehind & _) Hq. revert x. induction m as [|m IH]; intros x Hn Hm.
  { inversion Hn; subst. exists depth. split; [apply (vk_start _ _ Hv)|lia]. }
  apply nsteps_inv_r in Hn as (y & Hn & Ha). destruct (IH y Hn ltac:(lia)) as (ry & Hy & Hry).
  destruct (Hbehind y ry Hy) as [_ Hex]; [rewrite Hq; apply not_elem_of_nil|].
  destruct (Hex ltac:(lia) x Ha) as (r & ? & ?). exists r. split; [done|lia].
Qed.

Lemma visited_iff L sr n x : loop_ok L sr → sr_queue sr = [] → Z.of_nat n ≤ depth →
  within n start x ↔ ∃ r, L !! x = Some r ∧ depth - Z.of_nat n ≤ r.
Proof.
  intros Hl Hq Hn. split.
  - intros (m & Hm & Hsteps). destruct (reached _ _ _ _ Hl Hq Hsteps ltac:(lia)) as (r & ? & ?).
    exists r. split; [done|lia].
  - intros (r & Hx & Hr). destruct Hl as (Hv & _). destruct (vk_path _ _ Hv _ _ Hx) as [Hb Hp].
    exists (Z.to_nat (depth - r)). split; [lia|done].
Qed.
End Neighbours.

(** What the search's tests of the rows find, on the rows' own text. *)
Lemma neighbors_by_rows `{!UuidOps, !ChronoOps, !JsonText, !EngramOps, !SqlOps, !IterOrder N} {X : Type}
    (horizon : DateTime) (Hlaws : EngramLaws horizon) (start : EntityId) (depth : nat)
    (as_of : option DateTime) (w : world (Engram X)) :
  graph_ok horizon (store w) →
  ∃ g, neighbors start (Z.of_nat depth) as_of w = (Ok g, w)
    ∧ (∀ e, e ∈ sg_entities g ↔
        ∃ x, x ≠ start ∧ within (store w) as_of depth start x ∧ get_entity x w = (Ok (Some e), w))
    ∧ (∀ rel, rel ∈ sg_relationships g ↔ ∃ n x, (n < depth)%nat
        ∧ within (store w) as_of n start x ∧ touches (store w) as_of rel x)
    ∧ NoDup (en_id <$> sg_entities g) ∧ NoDup (rl_id <$> sg_relationships g).
Proof.
  intros Hok. set (s := store w).
  assert (0 ≤ Z.of_nat depth) as Hd by lia.
  pose proof (start_ok horizon Hlaws s as_of Hok start (Z.of_nat depth) Hd) as Hstart.
  destruct (search_loop_ok horizon Hlaws s as_of Hok start (Z.of_nat depth) Hd
    (search_fuel s) _ _ Hstart)
    as (L & sr & Hl & Hloop & Hq).
  { unfold search_measure, search_fuel. cbn.
    pose proof (ends_size s). assert (size (ends s ∖ {[start]}) ≤ size (ends s))%nat; [|lia].
    apply subseteq_size. set_solver. }
  exists (Build_SubGraph (iter_map (sr_entities sr)).*2 (iter_map (sr_relationships sr)).*2).
  pose proof Hloop as (Hv & _ & Hfound).
  assert (∀ x, x ∈ sr_visited sr ↔ within s as_of depth start x) as Hvisited.
  { intros x. rewrite (visited_iff s as_of start (Z.of_nat depth) L sr depth x Hloop Hq) by lia.
    rewrite <- (vk_dom _ _ _ _ _ _ Hv), elem_of_dom. split.
    - intros [r Hr]. exists r. split; [done|]. destruct (vk_path _ _ _ _ _ _ Hv _ _ Hr). lia.
    - intros (r & Hr & _). by exists r. }
  split_and!.
  - cbn. unfold sqlite_neighbors. fold s. by rewrite Hl.
  - intros e. cbn. rewrite list_elem_of_fmap. split.
    + intros ([x e'] & -> & (Hx & Hne & Hf)%iter_map_elem%(vk_entities _ _ _ _ _ _ Hv)).
      exists x. split_and!; [done|by apply Hvisited|]. unfold sqlite_get_entity. fold s. cbn. by rewrite Hf.
    + intros (x & Hne & Hx%Hvisited & Hf). exists (x, e). split; [done|]. apply iter_map_elem.
      apply (vk_entities _ _ _ _ _ _ Hv). unfold sqlite_get_entity in Hf. fold s in Hf.
      split_and!; [done..|]. congruence.
  - intros rel. cbn. rewrite list_elem_of_fmap. split.
    + intros ([k rel'] & -> & [_ [(x & r & _ & Hx & Hr & Ht)|[]]]%iter_map_elem%Hfound).
      destruct (vk_path _ _ _ _ _ _ Hv _ _ Hx) as [Hb _].
      exists (Z.to_nat (Z.of_nat depth - r)), x. split_and!; [lia| |done].
      apply (visited_iff s as_of start (Z.of_nat depth) L sr _ x Hloop Hq); [lia|]. exists r. split; [done|lia].
    + intros (n & x & Hn & Hw & Ht). apply (visited_iff s as_of start (Z.of_nat depth) L sr n x Hloop Hq) in Hw as (r & Hx & Hr); [|lia].
      exists (rl_id rel, rel). split; [done|]. apply iter_map_elem, Hfound. split; [done|]. left.
      exists x, r. split_and!; [rewrite Hq; apply not_elem_of_nil|done|lia|done].
  - cbn. assert (en_id <$> (iter_map (sr_entities sr)).*2 = (iter_map (sr_entities sr)).*1) as ->; [|apply iter_map_nodup].
    rewrite <- list_fmap_compose. apply list_fmap_ext. intros i [x e] Hi. cbn.
    apply list_elem_of_lookup_2, iter_map_elem, (vk_entities _ _ _ _ _ _ Hv) in Hi as (_ & _ & Hf).
    destruct (find_entity_ok horizon Hlaws s Hok x) as (o & Ho & Hid). apply Hid. congruence.
  - cbn. assert (rl_id <$> (iter_map (sr_relationships sr)).*2 = (iter_map (sr_relationships sr)).*1) as ->; [|apply iter_map_nodup].
    rewrite <- list_fmap_compose. apply list_fmap_ext. intros i [k rel] Hi. cbn.
    apply list_elem_of_lookup_2, iter_map_elem, Hfound in Hi as [? _]. done.
Qed.

(** *** Validity at a time *)

(** The relationship holds at [as_of]; with no time asked, it has no end. *)
Definition valid_at (as_of : option DateTime) (rel : Relationship) : Prop :=
  match as_of with
  | Some t => rl_valid_from rel ≤ t ∧ ∀ e, rl_invalid_at rel = Some e → t < e
  | None => rl_invalid_at rel = None
  end.

Section Valid.
Context `{!UuidOps, !ChronoOps, !JsonText, !EngramOps} {X : Type} (horizon : DateTime).
(** Texts of times sort as the times. *)
Context (Htext : ∀ a b, 0 ≤ a → a < b → b < horizon → text_le (rfc3339 b) (rfc3339 a) = false).
Context (s : Engram X) (as_of : option DateTime) (Hasof : opt_in_range horizon as_of).

(** The relationship [rel] is stored, holds then, and has [a] as an end. *)
Definition relates (rel : Relationship) (a : EntityId) : Prop :=
  (∃ row, row ∈ relationship_rows s ∧ row_to_relationship row = Ok rel)
  ∧ valid_at as_of rel ∧ (rl_source_id rel = a ∨ rl_target_id rel = a).
Definition neighbour (a b : EntityId) : Prop := ∃ rel, relates rel a
  ∧ ((rl_source_id rel = a ∧ rl_target_id rel = b)
     ∨ (rl_target_id rel = a ∧ rl_source_id rel = b)).
(** [b] is [n] hops from [a] or fewer. *)
Definition near (n : nat) (a b : EntityId) : Prop := ∃ m, (m ≤ n)%nat ∧ nsteps neighbour m a b.

Lemma traversed_valid row rel : relationship_ok horizon row → row_to_relationship row = Ok rel →
  traversed as_of row = true ↔ valid_at as_of rel.
Proof.
  intros (rel' & Hrel & _ & _ & _ & Hf & Hfr & Hi & Hir) Hrow.
  assert (rel' = rel) as -> by congruence. unfold traversed, valid_at.
  destruct as_of as [t|]; [|rewrite bool_decide_eq_true, Hi; by destruct (rl_invalid_at rel)].
  specialize (Hasof t eq_refl). rewrite andb_true_iff, Hf, (text_le_iff _ _ Htext) by done.
  rewrite Hi. destruct (rl_invalid_at rel) as [e|]; cbn; [|naive_solver].
  rewrite (text_lt_iff _ _ Htext) by (done || by apply Hir). naive_solver.
Qed.

Lemma touches_relates rel a : graph_ok horizon s → touches s as_of rel a ↔ relates rel a.
Proof.
  intros (_ & Hr & _). rewrite Forall_forall in Hr. split.
  - intros (row & Hin & Ht & Hrow & He). split; [by exists row|]. split; [|done].
    by apply (traversed_valid row rel (Hr row Hin) Hrow).
  - intros ((row & Hin & Hrow) & Hv & He). exists row. split_and!; [done| |done|done].
    by apply (traversed_valid row rel (Hr row Hin) Hrow).
Qed.

Lemma adjacent_neighbour a b : graph_ok horizon s → adjacent s as_of a b ↔ neighbour a b.
Proof.
  intros Hok. unfold adjacent, neighbour, other_end. split.
  - intros (rel & Ht & Ho). exists rel. split; [by apply touches_relates|].
    destruct Ht as (_ & _ & _ & _ & He). case_decide; naive_solver.
  - intros (rel & Ht & Ho). exists rel. split; [by apply touches_relates|].
    case_decide as Hs; [|naive_solver]. destruct Ho as [[_ ?]|[Hd Hb]]; [done|]. congruence.
Qed.

Lemma within_near n a b : graph_ok horizon s → within s as_of n a b ↔ near n a b.
Proof.
  intros Hok. unfold within, near.
  assert (∀ m x, nsteps (adjacent s as_of) m x b ↔ nsteps neighbour m x b) as Hst.
  { induction m as [|m IH]; intros x; split; inversion 1; subst; [constructor|constructor| |];
      (econstructor; [by apply adjacent_neighbour|by apply IH]). }
  by setoid_rewrite Hst.
Qed.
End Valid.

(** C24: A search of the neighbourhood finds exactly what is near. Let the texts of
    times sort as the times, as RFC 3339 does, and the graph's rows be as the code
    writes them (so they are in every memory calls reach, [memory_well_typed]).
    Then [neighbors] always ends and answers; the entities it answers are those
    other than the start that are within [depth] hops of it along relationships
    that hold at the given time: that began at it or before, and end after it if
    they end; with no time given, those that have no end. The relationships are
    those that hold then and have an end fewer than [depth] hops away. Each is
    answered once. *)
Theorem neighbors_correct `{!UuidOps, !ChronoOps, !JsonText, !EngramOps, !SqlOps, !IterOrder N} {X : Type}
    (horizon : DateTime) (Hlaws : EngramLaws horizon)
    (Htext : ∀ a b, 0 ≤ a → a < b → b < horizon → text_le (rfc3339 b) (rfc3339 a) = false)
    (start : EntityId) (depth : nat) (as_of : option DateTime) (w : world (Engram X)) :
  graph_ok horizon (store w) → opt_in_range horizon as_of →
  ∃ g, neighbors start (Z.of_nat depth) as_of w = (Ok g, w)
    ∧ (∀ e, e ∈ sg_entities g ↔
        ∃ x, x ≠ start ∧ near (store w) as_of depth start x ∧ get_entity x w = (Ok (Some e), w))
    ∧ (∀ rel, rel ∈ sg_relationships g ↔ ∃ n x, (n < depth)%nat
        ∧ near (store w) as_of n start x ∧ relates (store w) as_of rel x)
    ∧ NoDup (en_id <$> sg_entities g) ∧ NoDup (rl_id <$> sg_relationships g).
Proof.
  intros Hok Ht. destruct (neighbors_by_rows horizon Hlaws start depth as_of w Hok)
    as (g & Hg & He & Hr & Hn1 & Hn2).
  exists g. split; [done|]. split_and!; [| |done|done].
  - intros e. rewrite He. apply exist_proper. intros x.
    by rewrite (within_near horizon Htext (store w) as_of Ht).
  - intros rel. rewrite Hr. do 2 (apply exist_proper; intros ?).
    by rewrite (within_near horizon Htext (store w) as_of Ht),
      (touches_relates horizon Htext (store w) as_of Ht).
Qed.

(** ** Rows the code writes read back *)

Section Written.
Context `{!UuidOps, !ChronoOps, !JsonText, !EngramOps} (horizon : DateTime) (Hlaws : EngramLaws horizon).
Abbreviation in_range := (in_range horizon).
Abbreviation opt_in_range := (opt_in_range horizon).

Lemma parse_dt_written t : in_range t → parse_dt (rfc3339 t) = Ok t.
Proof. intros Ht. unfold parse_dt. by rewrite (time_text (horizon := horizon)). Qed.
Lemma parse_opt_written o : opt_in_range o → parse_opt_dt (rfc3339 <$> o) = Ok o.
Proof.
  intros Ho. unfold parse_opt_dt. destruct o as [t|]; [|done]. cbn. by rewrite (parse_dt_written t) by auto.
Qed.
Lemma parse_uuid_written u : parse_uuid (uuid_hyphenated u) = Ok u.
Proof. unfold parse_uuid. by rewrite (id_text (horizon := horizon)). Qed.
Lemma parse_map_written m : no_nan (Object m) = true → ∃ m', parse_map (map_column m) = Ok m'.
Proof.
  intros Hm. unfold map_column. destruct m as [|kv m]; [by exists []|]. unfold parse_map.
  destruct (_ || _)%bool; [by eexists|].
  destruct (object_text (horizon := horizon) (kv :: m) Hm) as [m' ->]. by eexists.
Qed.

Lemma relationship_row_ok rel :
  in_range (rl_valid_from rel) → opt_in_range (rl_invalid_at rel) → in_range (rl_created_at rel) →
  relationship_ok horizon (relationship_row rel).
Proof.
  intros Hv Hi Hc. exists rel. unfold row_to_relationship. cbn. rewrite !parse_uuid_written. cbn.
  rewrite parse_dt_written by done. cbn. rewrite parse_opt_written by done. cbn.
  rewrite parse_dt_written by done. cbn. by destruct rel as [? ? ? ? []].
Qed.

Lemma entity_row_ok e :
  no_nan (Object (en_attributes e)) = true → in_range (en_created_at e) → in_range (en_updated_at e) →
  entity_ok (entity_row e).
Proof.
  intros Hm Hc Hu. unfold entity_ok, row_to_entity. cbn. rewrite parse_uuid_written. cbn.
  destruct (parse_map_written _ Hm) as [m' ->]. cbn. rewrite !parse_dt_written by done. cbn.
  by eexists.
Qed.
End Written.

(** ** Witness *)

Module GraphSample.
Import EngramSample.
#[local] Existing Instances plain_uuid tree_json plain_sql plain_engram order_n.
#[local] Instance digit_chrono : ChronoOps := {|
  rfc3339_millis := digits 63; rfc3339 := digits 63; parse_rfc3339 := read_digits 0;
  try_seconds s := Some (s * NANOS_PER_SEC); checked_add_signed t d := Some (t + d);
  duration_from_std := Some |}.

Lemma digit_laws : EngramLaws 100.
Proof.
  destruct (engram_laws 100) as [Hid _ Hobj Hstr]. split; [exact Hid| |exact Hobj|exact Hstr].
  intros t Ht. cbn [parse_rfc3339 rfc3339 digit_chrono]. rewrite digits_read by (cbn; lia). done.
Qed.

Definition person (n : N) (name : string) : Entity := Build_Entity n name "person" acme [] 1 1.
Definition knows (n a b : N) (gone : option DateTime) : Relationship :=
  Build_Relationship n a "knows" b acme 1 gone 1.
(** A ring of four, one of whose relationships has ended, and one apart. *)
Definition ring : world (Engram Z) := World (Build_Engram [] []
  (entity_row <$> [person 1 "a"; person 2 "b"; person 3 "c"; person 4 "d"; person 5 "e"])
  (relationship_row <$> [knows 10 1 2 None; knows 11 3 2 None; knows 12 3 4 None; knows 13 4 1 (Some 5)])
  [] ∅ 0) 1 0%N.

Lemma ring_ok : graph_ok 100 (store ring).
Proof.
  split_and!; try (by apply (bool_decide_unpack _); vm_compute).
  - cbn. repeat constructor; apply (relationship_row_ok 100 digit_laws); unfold in_range, opt_in_range;
      cbn; try lia; try done. by intros t [= <-].
  - cbn. repeat constructor; apply (entity_row_ok 100 digit_laws); unfold in_range; cbn; done.
Qed.

(** The relationship that ends at 5 is followed at 3, and neither at 5 nor when no
    time is asked. *)
Lemma neighbors_witness : ∃ g3 g5 g,
  neighbors 1%N 1 (Some 3) ring = (Ok g3, ring) ∧ neighbors 1%N 1 (Some 5) ring = (Ok g5, ring)
  ∧ neighbors 1%N 2 None ring = (Ok g, ring) ∧ NoDup (en_id <$> sg_entities g)
  ∧ sort_strings (en_name <$> sg_entities g3) = ["b"; "d"]
  ∧ sort_strings (en_name <$> sg_entities g5) = ["b"]
  ∧ sort_strings (en_name <$> sg_entities g) = ["b"; "c"] ∧ length (sg_relationships g) = 2%nat.
Proof.
  assert (∀ a b, 0 ≤ a → a < b → b < 100 → text_le (rfc3339 b) (rfc3339 a) = false) as Htext
    by (intros a b ? ? ?; apply (digits_lt 63); cbn; lia).
  pose proof (λ n d t, neighbors_correct 100 digit_laws Htext n d t ring ring_ok) as Hn.
  destruct (Hn 1%N 1%nat (Some 3)) as (g3 & H3 & _); [intros ? [= <-]; split; lia|].
  destruct (Hn 1%N 1%nat (Some 5)) as (g5 & H5 & _); [intros ? [= <-]; split; lia|].
  destruct (Hn 1%N 2%nat None) as (g & Hg & _ & _ & Hnd & _); [done|].
  exists g3, g5, g. split; [exact H3|]. split; [exact H5|]. split; [exact Hg|]. split; [exact Hnd|].
  apply (f_equal fst) in H3, H5, Hg. vm_compute in H3, H5, Hg.
  injection H3 as <-. injection H5 as <-. injection Hg as <-. split_and!; vm_compute; reflexivity.
Defined.
End GraphSample.
