(* ===== verification/EngramTyped.v ===== *)
(** * Every row of a memory stays readable

    A well-formedness invariant of the stores ([engram/src/store_sqlite.rs],
    [graph_sqlite.rs], [message_sqlite.rs], [vector_embedded.rs]): ids are unique,
    every column parses as what the readers expect of it, the full-text index
    covers the facts, vectors have the dimension. Every operation of a memory
    keeps it, so a read never fails on what was written. *)

From S2P Require Import Prelude.
From S2P Require Import Json.
From S2P Require Import RustStr.
From S2P Require Import Condition.
From S2P Require Import Hashing.
From S2P Require Import Sql.
From S2P Require Import Engram.
From S2P Require Import EngramStore.
From S2P Require Import EngramMemory.
From S2P Require Import EngramConsolidate.
From S2P Require Import EngramCorrect.
From S2P Require Import EngramGraph.
Import MemoryError.

Create HintDb engram.

Lemma fmap_key {A B} (key : A → B) (f : A → A) (l : list A) :
  (∀ a, key (f a) = key a) → key <$> (f <$> l) = key <$> l.
Proof. intros Hf. rewrite <- list_fmap_compose. apply list_fmap_ext. intros i a _. apply Hf. Qed.
Lemma filter_Forall {A} (P Q : A → Prop) `{∀ x, Decision (Q x)} l :
  Forall P l → Forall P (base.filter Q l).
Proof. rewrite !Forall_forall. intros Hl x [_ Hx]%list_elem_of_filter. by apply Hl. Qed.

Section Typed.
Context `{!UuidOps, !ChronoOps, !JsonText, !EngramOps, !SqlOps, !IterOrder N} {X : Type}.
Context (horizon : DateTime) (Hlaws : EngramLaws horizon) (dims : Z).
#[local] Instance typed_vectors : VectorStore (Engram X) := EmbeddedVectorStore dims.
Abbreviation M A := (eff (Engram X) MemoryError A).
Abbreviation in_range := (in_range horizon).
Abbreviation opt_in_range := (opt_in_range horizon).

(** ** The invariant *)

(** What each column must hold. *)
Definition is_id (s : string) : Prop := ∃ u, s = uuid_hyphenated u.
Definition is_time (s : string) : Prop := ∃ t, parse_dt s = Ok t.
Definition is_map (s : string) : Prop := ∃ m, parse_map s = Ok m.
Definition is_refs (s : string) : Prop := ∃ l, parse_refs s = Ok l.
Definition opt_is (P : string → Prop) (o : option string) : Prop := ∀ s, o = Some s → P s.

Definition fact_ok (r : FactRow) : Prop :=
  is_id (fr_id r) ∧ is_refs (fr_entity_refs r) ∧ is_map (fr_metadata r)
  ∧ opt_is is_id (fr_supersedes r) ∧ opt_is is_id (fr_superseded_by r)
  ∧ is_time (fr_valid_from r) ∧ opt_is is_time (fr_invalid_at r) ∧ is_time (fr_created_at r)
  ∧ opt_is is_time (fr_last_accessed r).
Definition message_ok (r : MessageRow) : Prop :=
  is_id (mr_id r) ∧ is_map (mr_metadata r) ∧ is_time (mr_created_at r).

Definition engram_ok (s : Engram X) : Prop :=
  NoDup (fr_id <$> fact_rows s) ∧ Forall fact_ok (fact_rows s)
  ∧ (fts_rows s).*1 = fr_id <$> fact_rows s
  ∧ graph_ok horizon s
  ∧ NoDup (mr_id <$> message_rows s) ∧ Forall message_ok (message_rows s)
  ∧ map_Forall (λ _ e, Z.of_nat (length (ve_embedding e)) = dims) (vectors s).

(** Facts, entities, relationships, messages and patches a caller may write. *)
Definition writable (f : Fact) : Prop :=
  in_range (ft_valid_from f) ∧ opt_in_range (ft_invalid_at f) ∧ in_range (ft_created_at f)
  ∧ opt_in_range (ft_last_accessed f) ∧ no_nan (Object (ft_metadata f)) = true.
Definition entity_writable (e : Entity) : Prop :=
  no_nan (Object (en_attributes e)) = true ∧ in_range (en_created_at e) ∧ in_range (en_updated_at e).
Definition rel_writable (r : Relationship) : Prop :=
  in_range (rl_valid_from r) ∧ opt_in_range (rl_invalid_at r) ∧ in_range (rl_created_at r).
Definition message_writable (m : ChatMessage) : Prop :=
  in_range (ms_created_at m) ∧ no_nan (Object (ms_metadata m)) = true.
Definition patch_ok (p : FactPatch) : Prop :=
  opt_in_range (fp_invalid_at p) ∧ no_nan (Object (fp_metadata p)) = true.

(** ** Rows that meet it read *)

Lemma transpose_ok {A} (f : string → result MemoryError A) (P : string → Prop) o :
  (∀ s, P s → ∃ a, f s = Ok a) → opt_is P o → ∃ a, transpose f o = Ok a.
Proof.
  intros Hf Ho. destruct o as [s|]; [|by eexists]. destruct (Hf s (Ho s eq_refl)) as [a Ha].
  cbn. rewrite Ha. by eexists.
Qed.
Lemma is_id_parses s : is_id s → ∃ u, parse_uuid s = Ok u.
Proof. intros [u ->]. exists u. by eapply parse_uuid_written. Qed.

Lemma fact_ok_reads r : fact_ok r → ∃ f, row_to_fact r = Ok f.
Proof.
  intros ((u & Hu) & (refs & Hr) & (m & Hm) & Hs & Hb & (vf & Hvf) & Hi & (c & Hc) & Hl).
  destruct (transpose_ok _ _ _ is_id_parses Hs) as [o1 Ho1].
  destruct (transpose_ok _ _ _ is_id_parses Hb) as [o2 Ho2].
  destruct (transpose_ok parse_dt is_time _ (λ s H, H) Hi) as [o3 Ho3].
  destruct (transpose_ok parse_dt is_time _ (λ s H, H) Hl) as [o4 Ho4].
  unfold row_to_fact. rewrite Hu, (parse_uuid_written horizon Hlaws). cbn. rewrite Hr. cbn. rewrite Hm.
  cbn. rewrite Ho1. cbn. rewrite Ho2. cbn. rewrite Hvf. cbn. unfold parse_opt_dt. rewrite Ho3. cbn.
  rewrite Hc. cbn. rewrite Ho4. cbn. by eexists.
Qed.

Lemma message_ok_reads r : message_ok r → ∃ m, row_to_message r = Ok m.
Proof.
  intros ((u & Hu) & (m & Hm) & (c & Hc)). unfold row_to_message.
  rewrite Hu, (parse_uuid_written horizon Hlaws). cbn. rewrite Hm. cbn. rewrite Hc. cbn. by eexists.
Qed.

Lemma mapM_reads {A B} (f : A → result MemoryError B) l :
  Forall (λ a, ∃ b, f a = Ok b) l → ∃ l', mapM f l = Ok l'.
Proof.
  induction 1 as [|a l [b Hb] _ [l' IH]]; [by eexists|]. cbn. rewrite Hb. cbn. rewrite IH. cbn. by eexists.
Qed.

(** ** Rows the code writes meet it *)

Lemma time_written t : in_range t → is_time (rfc3339 t).
Proof. intros Ht. exists t. by eapply parse_dt_written. Qed.
Lemma opt_time_written o : opt_in_range o → opt_is is_time (rfc3339 <$> o).
Proof. intros Ho s. destruct o as [t|]; [|done]. intros [= <-]. apply time_written. by apply Ho. Qed.
Lemma opt_id_written o : opt_is is_id (uuid_hyphenated <$> o).
Proof. intros s. destruct o as [u|]; [|done]. intros [= <-]. by exists u. Qed.
Lemma map_written m : no_nan (Object m) = true → is_map (map_column m).
Proof. intros Hm. by eapply parse_map_written. Qed.
Lemma refs_written refs : is_refs (refs_column refs).
Proof.
  exists refs. unfold parse_refs, refs_column. rewrite list_fmap_compose.
  rewrite (strings_text (horizon := horizon)).
  assert (∀ l : list string, mapM as_str (Str <$> l) = Some l) as ->.
  { intros l. induction l as [|s l IH]; [done|]. cbn. by rewrite IH. }
  induction refs as [|u refs IH]; [done|]. cbn. rewrite (parse_uuid_written horizon Hlaws). cbn.
  change (list_fmap _ _ uuid_hyphenated refs) with (uuid_hyphenated <$> refs). by rewrite IH.
Qed.

Lemma fact_row_ok f : writable f → fact_ok (fact_row f).
Proof.
  intros (? & ? & ? & ? & ?). split_and!; cbn; eauto using time_written, opt_time_written,
    opt_id_written, map_written, refs_written. by eexists.
Qed.
Lemma patch_row_ok p r : patch_ok p → fact_ok r → fact_ok (patch_row p r).
Proof.
  intros [Hi Hm] (? & ? & ? & ? & ? & ? & ? & ? & ?). split_and!; cbn; try done.
  - destruct (fp_metadata p) eqn:Hp; [done|]. by apply map_written.
  - destruct (fp_superseded_by p) as [u|]; [|done]. intros ? [= <-]. by exists u.
  - destruct (fp_invalid_at p) as [t|]; [|done]. intros ? [= <-]. apply time_written. by apply Hi.
Qed.
Lemma set_invalid_ok t r : in_range t → fact_ok r → fact_ok (set_invalid (rfc3339 t) r).
Proof.
  intros Ht (? & ? & ? & ? & ? & ? & ? & ? & ?). split_and!; cbn; try done.
  intros ? [= <-]. by apply time_written.
Qed.
Lemma set_accessed_ok t r : in_range t → fact_ok r → fact_ok (set_accessed (rfc3339 t) r).
Proof.
  intros Ht (? & ? & ? & ? & ? & ? & ? & ? & ?). split_and!; cbn; try done.
  intros ? [= <-]. by apply time_written.
Qed.

(** ** Computations that keep it *)

Definition good (w : world (Engram X)) : Prop := engram_ok (store w) ∧ in_range (clock w).

(** From a good world it leads to a good one, and what it answers meets [Q]. *)
Definition keeps {A} (m : M A) (Q : A → Prop) : Prop := ∀ w, good w →
  good (m w).2 ∧ ∀ a, (m w).1 = Ok a → Q a.
Abbreviation safe m := (keeps m (λ _, True)).

Lemma keeps_weaken {A} (m : M A) (P Q : A → Prop) : keeps m P → (∀ a, P a → Q a) → keeps m Q.
Proof. intros Hm HPQ w Hw. destruct (Hm w Hw) as [? Ha]. split; [done|]. eauto. Qed.
Lemma keeps_bind {A B} (m : M A) (k : A → M B) P Q :
  keeps m P → (∀ a, P a → keeps (k a) Q) → keeps (m ≫= k) Q.
Proof.
  intros Hm Hk w Hw. destruct (Hm w Hw) as [Hg Ha]. unfold mbind, eff_bind.
  destruct (m w) as [[a|e] w1]; [|done]. by apply Hk; [apply Ha|].
Qed.
Lemma keeps_ret {A} (a : A) (Q : A → Prop) : Q a → keeps (mret a) Q.
Proof. intros Ha w Hw. split; [done|]. by intros ? [= <-]. Qed.
Lemma keeps_raise {A} e (Q : A → Prop) : keeps (raise e) Q.
Proof. intros w Hw. by split. Qed.
Lemma keeps_of_result {A} (r : result MemoryError A) : safe (of_result r).
Proof. intros w Hw. by split. Qed.
Lemma keeps_gets {A} (f : Engram X → A) : safe (gets f).
Proof. intros w Hw. by split. Qed.
Lemma keeps_now : keeps utc_now in_range.
Proof. intros w Hw. split; [done|]. intros t [= <-]. apply Hw. Qed.
Lemma keeps_new_v4 : safe new_v4.
Proof. intros w Hw. by split. Qed.
Lemma keeps_modify f : (∀ s, engram_ok s → engram_ok (f s)) → safe (modify f).
Proof. intros Hf w [Hw Hc]. by split; [split; [apply Hf|]|]. Qed.
Lemma keeps_as_result {A} (m : M A) Q : keeps m Q →
  keeps (as_result m : M (result MemoryError A)) (λ r, ∀ a, r = Ok a → Q a).
Proof.
  intros Hm w Hw. unfold as_result. destruct (Hm w Hw) as [? Ha]. destruct (m w) as [r w1].
  split; [done|]. by intros ? [= <-].
Qed.
Lemma keeps_for_each {A} (l : list A) (f : A → M unit) :
  (∀ x, x ∈ l → safe (f x)) → safe (for_each l f).
Proof.
  induction l as [|x l IH]; intros Hf; cbn [for_each]; [by apply keeps_ret|].
  eapply keeps_bind; [apply Hf; left|]. intros [] _. apply IH. intros y Hy. apply Hf. by right.
Qed.

(** ** The stores *)

Lemma keeps_insert_row r : fact_ok r → safe (insert_or_ignore r).
Proof.
  intros Hr w [(Hnd & Hf & Hfts & Hrest) Hc]. unfold insert_or_ignore. rewrite bind_gets.
  destruct (existsb _ _) eqn:Ht; [by split|]. cbn match. rewrite bind_modify.
  split; [|done]. split; [|done]. cbn.
  split_and!; try apply Hrest; cbn.
  - rewrite fmap_app. apply NoDup_app. split_and!; [done| |apply NoDup_singleton].
    intros i (r' & -> & Hr')%list_elem_of_fmap Hx%list_elem_of_singleton.
    apply not_true_iff_false in Ht. apply Ht, existsb_exists. exists r'.
    split; [by apply list_elem_of_In|by apply bool_decide_eq_true_2].
  - apply Forall_app. by split; [|constructor].
  - by rewrite !fmap_app, Hfts.
Qed.

Lemma keeps_update p f : (∀ r, fact_ok r → fact_ok (f r)) → (∀ r, fr_id (f r) = fr_id r) →
  safe (update_where p f).
Proof.
  intros Hf Hid. apply keeps_modify. intros s (Hnd & Hr & Hfts & Hrest). unfold engram_ok. cbn.
  rewrite (fmap_key fr_id) by (intros r; by destruct (p r)).
  split_and!; try done; try apply Hrest. apply Forall_fmap. eapply Forall_impl; [exact Hr|].
  intros r ?. cbn. destruct (p r); auto.
Qed.

Lemma keeps_insert f : writable f → safe (insert_fact f).
Proof.
  intros Hf. eapply keeps_bind; [by apply keeps_insert_row, fact_row_ok|]. intros ? _. by apply keeps_ret.
Qed.
Lemma keeps_get id : safe (get_fact id).
Proof.
  eapply keeps_bind; [apply keeps_gets|]. intros row _.
  eapply keeps_bind; [apply keeps_of_result|]. intros r _. apply keeps_of_result.
Qed.
Lemma keeps_update_fact id p : patch_ok p → safe (update_fact id p).
Proof.
  intros Hp. eapply keeps_bind; [|intros [] _; apply keeps_get]. apply keeps_update; [|done].
  intros r. by apply patch_row_ok.
Qed.
Lemma keeps_list f : safe (list_facts f).
Proof. eapply keeps_bind; [apply keeps_gets|]. intros l _. apply keeps_of_result. Qed.
Lemma keeps_export f : safe (export f).
Proof. apply keeps_list. Qed.
Lemma keeps_invalidate id : safe (invalidate_fact id).
Proof.
  eapply keeps_bind; [apply keeps_now|]. intros t Ht. apply keeps_update; [|done].
  intros r. by apply set_invalid_ok.
Qed.
Lemma keeps_access id : safe (record_access id).
Proof.
  eapply keeps_bind; [apply keeps_now|]. intros t Ht. apply keeps_update; [|done].
  intros r. by apply set_accessed_ok.
Qed.

(** The index without the facts that go is the index of the facts that stay. *)
Lemma index_deleted (p : FactRow → bool) (l : list FactRow) (fts : list (string * string)) :
  fts.*1 = fr_id <$> l → NoDup (fr_id <$> l) →
  (base.filter (λ e, e.1 ∉ fr_id <$> base.filter (λ r, p r = true) l) fts).*1
  = fr_id <$> base.filter (λ r, p r = false) l.
Proof.
  intros Hfts Hnd. set (gone := fr_id <$> base.filter (λ r, p r = true) l).
  assert (∀ r, r ∈ l → fr_id r ∉ gone ↔ p r = false) as Hgone.
  { intros r Hr. unfold gone. rewrite list_elem_of_fmap. split.
    - intros Hn. apply not_true_iff_false. intros Hp. apply Hn. exists r. split; [done|].
      by apply list_elem_of_filter.
    - intros Hp (r' & Hid & [Hp' Hr']%list_elem_of_filter).
      assert (r = r') as ->; [|congruence].
      apply list_elem_of_lookup in Hr as (i & Hi). apply list_elem_of_lookup in Hr' as (j & Hj).
      assert (i = j) as ->; [|congruence]. eapply (NoDup_lookup _ _ _ (fr_id r)); [exact Hnd| |];
        rewrite list_lookup_fmap, ?Hi, ?Hj; cbn; congruence. }
  clearbody gone. clear Hnd. revert fts Hfts Hgone. induction l as [|r l IH]; intros [|[i t] fts] Hfts Hgone;
    try done. cbn in Hfts. injection Hfts as -> Hfts. rewrite !filter_cons. cbn.
  specialize (IH fts Hfts (λ r Hr, Hgone r ltac:(by right))).
  destruct (Hgone r ltac:(left)) as [Ha Hb]. repeat case_decide; try tauto; cbn; by rewrite IH.
Qed.

Lemma keeps_delete_scope s : safe (delete_scope_data s).
Proof.
  intros w [(Hnd & Hf & Hfts & Hrest) Hc]. cbn. split; [|done]. split; [|done]. cbn.
  split_and!; try apply Hrest; cbn.
  - eapply sublist_NoDup; [exact Hnd|]. apply fmap_sublist, sublist_filter.
  - by apply filter_Forall.
  - by apply index_deleted.
Qed.
Lemma keeps_stats : safe stats.
Proof.
  do 3 (eapply keeps_bind; [apply keeps_gets|intros ? _]). by apply keeps_ret.
Qed.
Lemma keeps_import l : Forall writable l → safe (import_facts l).
Proof.
  cbn. induction 1 as [|f l Hf _ IH]; cbn [sqlite_import]; [by apply keeps_ret|].
  eapply keeps_bind; [by apply keeps_insert_row, fact_row_ok|]. intros n _.
  eapply keeps_bind; [exact IH|]. intros m _. by apply keeps_ret.
Qed.
Lemma keeps_keyword q s k : safe (keyword_search q s k).
Proof.
  cbn. unfold sqlite_keyword_search. case_match; [by apply keeps_ret|].
  eapply keeps_bind; [apply keeps_gets|]. intros ids _. eapply keeps_bind; [apply keeps_of_result|].
  intros ids' _. eapply keeps_bind; [apply keeps_gets|]. intros l _. apply keeps_of_result.
Qed.

(** *** Vectors *)

Lemma keeps_vectors f : (∀ m, map_Forall (λ _ e, Z.of_nat (length (ve_embedding e)) = dims) m →
    map_Forall (λ _ e, Z.of_nat (length (ve_embedding e)) = dims) (f m)) →
  safe (modify (set_vectors f) : M unit).
Proof. intros Hf. apply keeps_modify. intros s (? & ? & ? & ? & ? & ? & ?). split_and!; try done. by apply Hf. Qed.
Lemma keeps_vec_upsert id e m : safe (vec_upsert id e m).
Proof.
  cbn. unfold embedded_upsert. case_decide as Hd; [apply keeps_raise|]. apply keeps_vectors.
  intros vs Hvs. apply map_Forall_insert_2; [cbn; lia|done].
Qed.
Lemma keeps_vec_search q f k : safe (vec_search q f k).
Proof. eapply keeps_bind; [apply keeps_gets|]. intros m _. by apply keeps_ret. Qed.
Lemma keeps_vec_delete id : safe (vec_delete id).
Proof. apply keeps_vectors. intros m Hm. by apply map_Forall_delete. Qed.
Lemma keeps_vec_clear s : safe (vec_delete_by_scope s).
Proof.
  eapply keeps_bind; [apply keeps_gets|]. intros n _. eapply keeps_bind; [|intros [] _; by apply keeps_ret].
  apply keeps_vectors. intros m _. apply map_Forall_empty.
Qed.

(** *** The graph *)

Lemma keeps_graph f : (∀ s, graph_ok horizon s → graph_ok horizon (f s) ∧ fact_rows (f s) = fact_rows s
    ∧ fts_rows (f s) = fts_rows s ∧ message_rows (f s) = message_rows s ∧ vectors (f s) = vectors s) →
  safe (modify f : M unit).
Proof.
  intros Hf. apply keeps_modify. intros s (? & ? & ? & Hg & ? & ? & ?).
  destruct (Hf s Hg) as (? & Hr & Hi & Hm & Hv). unfold engram_ok. by rewrite Hr, Hi, Hm, Hv.
Qed.

Lemma upserted_entity_ok e r : entity_writable e → entity_ok r →
  entity_ok (Build_EntityRow (nr_id r) (en_name e) (Some (en_type e)) (nr_org_id r) (nr_agent_id r)
    (nr_user_id r) (nr_session_id r) (map_column (en_attributes e)) (nr_created_at r)
    (rfc3339 (en_updated_at e))).
Proof.
  intros (Hm & _ & Hu) (e0 & Hr & Hid). unfold entity_ok, row_to_entity in *. cbn in *.
  apply result_bind_inv in Hr as (i & Hi & Hr). apply result_bind_inv in Hr as (m & _ & Hr).
  apply result_bind_inv in Hr as (c & Hc & Hr). apply result_bind_inv in Hr as (u & _ & Hr).
  injection Hr as <-. rewrite Hi. cbn. destruct (parse_map_written _ Hlaws _ Hm) as [m' ->]. cbn.
  rewrite Hc. cbn. rewrite (parse_dt_written _ Hlaws) by done. cbn. by eexists.
Qed.

Lemma keeps_upsert_entity e : entity_writable e → safe (upsert_entity e).
Proof.
  intros He w Hw. cbn. unfold sqlite_upsert_entity. rewrite bind_gets.
  destruct (existsb _ _) eqn:Ht.
  - revert w Ht Hw. intros w Ht. apply keeps_graph. intros s (? & ? & Hnd & Hok).
    split_and!; try done. split_and!; try done; cbn.
    + rewrite fmap_key; [done|]. intros r. by case_bool_decide.
    + apply Forall_fmap. eapply Forall_impl; [exact Hok|]. intros r Hr. cbn. case_bool_decide; [|done].
      by apply upserted_entity_ok.
  - destruct Hw as [(Hf1 & Hf2 & Hf3 & (Hg1 & Hg2 & Hg3 & Hg4) & Hrest) Hc].
    split; [|done]. split; [|done]. cbn. split_and!; try done; try apply Hrest. split_and!; try done; cbn.
    + rewrite fmap_app. apply NoDup_app. split_and!; [done| |apply NoDup_singleton].
      intros i (r' & -> & Hr')%list_elem_of_fmap Hi%list_elem_of_singleton.
      apply not_true_iff_false in Ht. apply Ht, existsb_exists. exists r'.
      split; [by apply list_elem_of_In|by apply bool_decide_eq_true_2].
    + apply Forall_app. split; [done|]. constructor; [|done]. destruct He as (? & ? & ?).
      by apply (entity_row_ok _ Hlaws).
Qed.

Lemma set_relation_ok r relation inv : opt_in_range inv → relationship_ok horizon r →
  relationship_ok horizon (set_relation relation (rfc3339 <$> inv) r).
Proof.
  intros Ht (rel & Hr & Hid & Hs & Hd & Hvt & Hvr & _). unfold relationship_ok, row_to_relationship in *. cbn in *.
  apply result_bind_inv in Hr as (i & Hi & Hr). apply result_bind_inv in Hr as (so & Hso & Hr).
  apply result_bind_inv in Hr as (ta & Hta & Hr). apply result_bind_inv in Hr as (vf & Hvf & Hr).
  apply result_bind_inv in Hr as (iv & _ & Hr). apply result_bind_inv in Hr as (c & Hc & Hr).
  injection Hr as <-. rewrite Hi. cbn. rewrite Hso. cbn. rewrite Hta. cbn. rewrite Hvf. cbn.
  rewrite (parse_opt_written _ Hlaws) by done. cbn. rewrite Hc. cbn. eexists. split; [done|]. cbn.
  by split_and!.
Qed.

Lemma keeps_set_relations (p : RelationshipRow → bool) (f : RelationshipRow → RelationshipRow) :
  (∀ r, relationship_ok horizon r → relationship_ok horizon (f r)) → (∀ r, pr_id (f r) = pr_id r) →
  safe (modify (set_relationships (fmap (λ r, if p r then f r else r))) : M unit).
Proof.
  intros Hf Hid. apply keeps_graph. intros s (Hnd & Hok & ? & ?). split_and!; try done.
  split_and!; try done; cbn.
  - rewrite fmap_key; [done|]. intros r. by destruct (p r).
  - apply Forall_fmap. eapply Forall_impl; [exact Hok|]. intros r Hr. cbn. destruct (p r); auto.
Qed.

Lemma keeps_upsert_rel r : rel_writable r → safe (upsert_relationship r).
Proof.
  intros (Hv & Hi & Hcr) w Hw. cbn. unfold sqlite_upsert_relationship. rewrite bind_gets.
  destruct (existsb _ _) eqn:Ht.
  - apply (keeps_set_relations (λ r', bool_decide (pr_id r' = pr_id (relationship_row r)))
      (set_relation (pr_relation (relationship_row r)) (pr_invalid_at (relationship_row r)))); [|done|done].
    intros r'. by apply set_relation_ok.
  - destruct Hw as [(Hf1 & Hf2 & Hf3 & (Hg1 & Hg2 & Hg3 & Hg4) & Hrest) Hc].
    split; [|done]. split; [|done]. cbn. split_and!; try done; try apply Hrest. split_and!; try done; cbn.
    + rewrite fmap_app. apply NoDup_app. split_and!; [done| |apply NoDup_singleton].
      intros i (r' & -> & Hr')%list_elem_of_fmap Hx%list_elem_of_singleton.
      apply not_true_iff_false in Ht. apply Ht, existsb_exists. exists r'.
      split; [by apply list_elem_of_In|by apply bool_decide_eq_true_2].
    + apply Forall_app. split; [done|]. constructor; [|done]. by apply (relationship_row_ok _ Hlaws).
Qed.
Lemma keeps_invalidate_rel id t : in_range t → safe (invalidate_relationship id t).
Proof.
  intros Ht. apply (keeps_set_relations (λ r, bool_decide (pr_id r = uuid_hyphenated id))
    (λ r, set_relation (pr_relation r) (Some (rfc3339 t)) r)); [|done].
  intros r. apply (set_relation_ok r (pr_relation r) (Some t)). by intros ? [= <-].
Qed.
Lemma keeps_get_entity id : safe (get_entity id).
Proof. intros w Hw. by split. Qed.
Lemma keeps_neighbors id d t : safe (neighbors id d t).
Proof. intros w Hw. by split. Qed.
Lemma keeps_search_entities q k : safe (search_entities q k).
Proof. eapply keeps_bind; [apply keeps_gets|]. intros l _. apply keeps_of_result. Qed.
Lemma keeps_graph_delete s : safe (graph_delete_by_scope s).
Proof.
  eapply keeps_bind; [apply keeps_gets|]. intros n _. eapply keeps_bind.
  { apply keeps_graph. intros g (Hnd & Hok & ? & ?). split_and!; try done. split_and!; try done; cbn.
    - eapply sublist_NoDup; [exact Hnd|]. apply fmap_sublist, sublist_filter.
    - by apply filter_Forall. }
  intros [] _. eapply keeps_bind; [apply keeps_gets|]. intros m _. eapply keeps_bind.
  { apply keeps_graph. intros g (? & ? & Hnd & Hok). split_and!; try done. split_and!; try done; cbn.
    - eapply sublist_NoDup; [exact Hnd|]. apply fmap_sublist, sublist_filter.
    - by apply filter_Forall. }
  intros [] _. by apply keeps_ret.
Qed.

(** *** Messages *)

Lemma message_row_ok c s m : message_writable m → message_ok (message_row c s m).
Proof.
  intros [Ht Hm]. split_and!; cbn; [by eexists|by apply map_written|by apply time_written].
Qed.
Lemma keeps_save c ms s : Forall message_writable ms → safe (save_messages c ms s).
Proof.
  cbn. induction 1 as [|m ms Hm _ IH]; cbn [sqlite_save_messages]; [by apply keeps_ret|].
  intros w Hw. rewrite bind_gets. destruct (existsb _ _) eqn:Ht; [by apply keeps_raise|].
  cbn match. revert Hw. assert (good w → good (World (set_messages (λ l, l ++ [message_row c s m]) (store w)) (clock w) (draws w))) as Hg.
  { intros [(? & ? & ? & ? & Hnd & Hok & ?) Hc]. split; [|done]. split_and!; try done; cbn.
    - rewrite fmap_app. apply NoDup_app. split_and!; [done| |apply NoDup_singleton].
      intros i (r' & -> & Hr')%list_elem_of_fmap Hx%list_elem_of_singleton.
      apply not_true_iff_false in Ht. apply Ht, existsb_exists. exists r'.
      split; [by apply list_elem_of_In|by apply bool_decide_eq_true_2].
    - apply Forall_app. split; [done|]. constructor; [by apply message_row_ok|done]. }
  intros Hw. rewrite bind_modify. assert (safe (ids ← sqlite_save_messages c ms s; mret (ms_id m :: ids))) as Hrest.
  { eapply keeps_bind; [exact IH|]. intros ids _. by apply keeps_ret. }
  by apply Hrest, Hg.
Qed.
Lemma keeps_get_messages c n s : safe (get_messages c n s).
Proof. eapply keeps_bind; [apply keeps_gets|]. intros l _. apply keeps_of_result. Qed.
Lemma keeps_list_conversations s : safe (list_conversations s).
Proof. apply keeps_gets. Qed.
Lemma keeps_delete_messages c s : safe (delete_messages c s).
Proof.
  eapply keeps_bind; [apply keeps_gets|]. intros n _. eapply keeps_bind; [|intros [] _; by apply keeps_ret].
  apply keeps_modify. intros g (? & ? & ? & ? & Hnd & Hok & ?). split_and!; try done; cbn.
  - eapply sublist_NoDup; [exact Hnd|]. apply fmap_sublist, sublist_filter.
  - by apply filter_Forall.
Qed.

(** ** What callers run *)

Hint Resolve keeps_raise keeps_of_result keeps_gets keeps_now keeps_new_v4 keeps_get keeps_list
  keeps_export keeps_invalidate keeps_access keeps_delete_scope keeps_stats keeps_keyword
  keeps_vec_upsert keeps_vec_search keeps_vec_delete keeps_vec_clear keeps_get_entity keeps_neighbors
  keeps_search_entities keeps_graph_delete keeps_get_messages keeps_list_conversations
  keeps_delete_messages keeps_insert keeps_update_fact keeps_upsert_entity keeps_upsert_rel
  keeps_save keeps_import : engram.
Hint Resolve keeps_as_result : engram.

Ltac keep :=
  repeat first
    [ apply keeps_raise | apply keeps_ret; done
    | solve [eauto 2 with engram nocore]
    | eapply keeps_bind; [solve [eauto with engram]|cbn beta; intros ? ?]
    | solve [eauto with engram]
    | apply keeps_for_each; intros ? ?
    | progress case_match ].

Lemma keeps_fact_new text scope : keeps (Fact_new text scope : M Fact)
  (λ f, writable f ∧ ft_metadata f = []).
Proof.
  unfold Fact_new. eapply keeps_bind; [apply keeps_now|]. intros t Ht. keep; try (apply keeps_ret; by split_and!).
Qed.
Lemma keeps_entity_new name scope type : keeps (Entity_new name scope type : M Entity) entity_writable.
Proof.
  unfold Entity_new. eapply keeps_bind; [apply keeps_now|]. intros t Ht. keep; try (apply keeps_ret; by split_and!).
Qed.
Lemma keeps_relationship_new a r b scope :
  keeps (Relationship_new a r b scope : M Relationship) rel_writable.
Proof.
  unfold Relationship_new. eapply keeps_bind; [apply keeps_now|]. intros t Ht. keep; try (apply keeps_ret; by split_and!).
Qed.
Hint Resolve keeps_fact_new keeps_entity_new keeps_relationship_new : engram.

(** The dates a model's answer names are in range. *)
Definition dated (e : ExtractedFact) : Prop :=
  ∀ d t, ef_event_date e = Some d → date_parse d = Some t → in_range t.
Definition well_dated (v : Value) : Prop := ∀ l, facts_from_value v = Ok l → Forall dated l.

Context (embed : Embed (Engram X)) (llm : Llm (Engram X)).
Context (Hembed : ∀ l, safe (embed l)) (Hllm : ∀ s u, keeps (llm s u) well_dated).
Lemma keeps_llm s u : safe (llm s u).
Proof. by eapply keeps_weaken. Qed.
Hint Resolve Hembed keeps_llm : engram.

Lemma keeps_embed_one e t : safe (embed_one embed e t).
Proof. unfold embed_one. keep. Qed.
Lemma keeps_embed_first e t : safe (embed_first embed e t).
Proof. unfold embed_first. keep. Qed.
Hint Resolve keeps_embed_one keeps_embed_first : engram.

Lemma writable_embedding e f : writable f → writable (with_embedding e f).
Proof. done. Qed.
Hint Resolve writable_embedding : engram.

Lemma keeps_add_fact text scope : safe (add_fact embed text scope).
Proof.
  unfold add_fact. eapply keeps_bind; [solve [eauto with engram]|]. intros e _.
  eapply keeps_bind; [apply keeps_fact_new|]. intros f [Hf _]. keep.
Qed.
Lemma keeps_recall_matches q l : safe (recall_matches q l).
Proof. induction l as [|vm l IH]; cbn [recall_matches]; keep. Qed.
Hint Resolve keeps_recall_matches : engram.
Lemma keeps_recall q : safe (recall embed q).
Proof. unfold recall. keep. Qed.
Lemma keeps_forget id : safe (forget id).
Proof. unfold forget. keep. Qed.
Lemma keeps_delete_user_data scope : safe (delete_user_data scope).
Proof. unfold delete_user_data. keep. Qed.

Lemma keeps_import_loop l n : Forall (λ p, writable p.1) l → safe (import_loop l n).
Proof.
  intros Hl. revert n. induction Hl as [|[f e] l Hf _ IH]; intros n; cbn [import_loop]; keep.
Qed.
Lemma keeps_memory_import l : Forall writable l → safe (memory_import embed l).
Proof.
  intros Hl. unfold memory_import. destruct l as [|f l]; [by apply keeps_ret|].
  eapply keeps_bind; [apply Hembed|]. intros es _. case_match; [apply keeps_raise|].
  apply keeps_import_loop. apply Forall_forall. intros [g e] Hg. rewrite Forall_forall in Hl. apply Hl.
  by apply elem_of_zip_l in Hg.
Qed.

(** *** Extraction *)

Lemma keeps_extract sys config ms : keeps (extract llm sys config ms) (Forall dated).
Proof.
  unfold extract. destruct ms as [|m ms]; [by apply keeps_ret; constructor|].
  eapply keeps_bind; [apply Hllm|]. intros v Hv.
  eapply keeps_bind with (P := Forall dated).
  { intros w Hw. split; [done|]. unfold of_result. cbn. intros l Hl. apply Hv.
    destruct (facts_from_value v); cbn in Hl; congruence. }
  intros l Hl. apply keeps_ret. by do 2 apply filter_Forall.
Qed.
Lemma keeps_store_entities scope l ids : safe (store_entities scope l ids).
Proof. revert ids. induction l as [|e l IH]; intros ids; cbn [store_entities]; keep. Qed.
Lemma keeps_store_relationship scope ids r : safe (store_relationship scope ids r).
Proof. unfold store_relationship. keep. Qed.
Hint Resolve keeps_store_entities keeps_store_relationship : engram.

Lemma writable_grounded f e timestamp :
  dated e → writable f → ft_metadata f = [] → opt_in_range timestamp →
  writable (grounded f e timestamp).
Proof.
  intros He (Hv & Hi & Hc & Hl & Hm) Hmeta Ht. split_and!; cbn; try done.
  - destruct timestamp as [ts|]; [by apply Ht|]. destruct (ef_event_date e) as [d|] eqn:Hed; [|done]. cbn.
    destruct (date_parse d) as [t|] eqn:Hd; [by eapply He|done].
  - rewrite Hmeta. by destruct (ef_event_date e).
Qed.

Lemma keeps_store_extracted scope timestamp e emb :
  dated e → opt_in_range timestamp → safe (store_extracted scope timestamp e emb).
Proof.
  intros He Ht. unfold store_extracted. eapply keeps_bind; [apply keeps_fact_new|]. intros f [Hf Hm].
  eapply keeps_bind; [by apply keeps_insert, writable_embedding, writable_grounded|]. intros id _.
  eapply keeps_bind; [apply keeps_vec_upsert|]. intros [] _.
  eapply keeps_bind; [apply keeps_store_entities|]. intros ids _.
  eapply keeps_bind; [apply keeps_for_each; intros; apply keeps_store_relationship|]. intros [] _. keep.
Qed.
Lemma keeps_store_all scope timestamp l : Forall (λ p, dated p.1) l → opt_in_range timestamp →
  safe (store_all scope timestamp l).
Proof.
  intros Hl Ht. induction Hl as [|[e emb] l He _ IH]; cbn [store_all]; [by apply keeps_ret|].
  eapply keeps_bind; [by apply keeps_store_extracted|]. intros id _.
  eapply keeps_bind; [exact IH|]. intros ids _. by apply keeps_ret.
Qed.
Lemma keeps_add_messages sys ms scope config timestamp : opt_in_range timestamp →
  safe (add_messages embed llm sys ms scope config timestamp).
Proof.
  intros Ht. unfold add_messages. eapply keeps_bind; [apply keeps_extract|]. intros facts Hf.
  eapply keeps_bind with (P := λ _, True); [destruct facts; [by apply keeps_ret|apply Hembed]|].
  intros es _. case_match; [apply keeps_raise|]. apply keeps_store_all; [|done].
  apply Forall_forall. intros [e emb] He%elem_of_zip_l. by rewrite Forall_forall in Hf; apply Hf.
Qed.

(** *** Retrieval *)

Lemma keeps_spread_loop config fuel sp : safe (spread_loop config fuel sp).
Proof. revert sp. induction fuel as [|fuel IH]; intros sp; cbn [spread_loop]; keep. Qed.
Hint Resolve keeps_spread_loop : engram.
Lemma keeps_spread seeds config : safe (spread seeds config).
Proof. unfold spread. keep. Qed.
Lemma keeps_entity_facts scope e found : safe (entity_facts scope e found).
Proof. unfold entity_facts. keep. Qed.
Hint Resolve keeps_spread keeps_entity_facts : engram.
Lemma keeps_graph_facts scope l found : safe (graph_facts scope l found).
Proof. revert found. induction l as [|e l IH]; intros found; cbn [graph_facts]; keep. Qed.
Lemma keeps_score_candidates config q a l : safe (score_candidates config q a l).
Proof.
  induction l as [|[id sc] l IH]; cbn [score_candidates]; [by apply keeps_ret|].
  eapply keeps_bind; [apply keeps_as_result, keeps_get|]. intros r _.
  eapply keeps_bind; [apply keeps_now|]. intros t _. eapply keeps_bind; [exact IH|]. intros l' _.
  by apply keeps_ret.
Qed.
Lemma keeps_record_accesses l : safe (record_accesses l).
Proof. unfold record_accesses. keep. Qed.
Hint Resolve keeps_graph_facts keeps_score_candidates keeps_record_accesses : engram.
Lemma keeps_hybrid config q scope k : safe (hybrid_search embed config q scope k).
Proof. unfold hybrid_search. keep. Qed.
Hint Resolve keeps_hybrid : engram.
Lemma keeps_context config q scope : safe (build_context embed config q scope).
Proof. unfold build_context. keep. Qed.
Lemma keeps_check_conflict sys x text scope : safe (check_conflict embed llm sys x text scope).
Proof.
  unfold check_conflict. generalize (f32_lit 99 100) as exact. intros exact. eapply keeps_bind; [solve [eauto with engram]|].
  intros v _. eapply keeps_bind; [apply keeps_vec_search|]. intros l _. destruct l as [|m l]; [by apply keeps_ret|].
  destruct (SFltb exact (vm_score m)); [by apply keeps_ret|]. keep.
Qed.

(** *** Consolidation *)

Context (config : ConsolidationConfig) (prompts : ConsolidationOp → string).

Lemma keeps_confidence id c : safe (update_fact id (confidence_patch c)).
Proof. apply keeps_update_fact. by split. Qed.
Lemma keeps_tier id t : safe (update_fact id (tier_patch t)).
Proof. apply keeps_update_fact. by split. Qed.
Lemma keeps_superseded id i : safe (update_fact id (superseded_patch i)).
Proof. apply keeps_update_fact. by split. Qed.
Lemma keeps_mark m f : no_nan (Object m) = true → safe (mark m f).
Proof.
  intros Hm. unfold mark. eapply keeps_bind; [apply keeps_as_result, keeps_update_fact; by split|].
  intros r _. by apply keeps_ret.
Qed.
Hint Resolve keeps_confidence keeps_tier keeps_superseded : engram.

Lemma keeps_decay now l d a : safe (decay_facts config now l d a).
Proof. revert d a. induction l as [|f l IH]; intros d a; cbn [decay_facts]; keep. Qed.
Lemma keeps_promote l n : safe (promote_facts config l n).
Proof. revert n. induction l as [|f l IH]; intros n; cbn [promote_facts]; keep. Qed.
Lemma keeps_dedup_matches f l i : safe (dedup_matches f l i).
Proof.
  revert i. induction l as [|m l IH]; intros i; cbn [dedup_matches]; [by apply keeps_ret|].
  case_decide; [apply IH|]. destruct (SFltb _ _); [keep|apply IH].
Qed.
Hint Resolve keeps_dedup_matches : engram.
Lemma keeps_dedup scope l i : safe (dedup_facts embed config scope l i).
Proof.
  revert i. induction l as [|f l IH]; intros i; cbn [dedup_facts]; [by apply keeps_ret|].
  case_match; [apply IH|]. eapply keeps_bind; [apply keeps_as_result, Hembed|]. intros r _.
  case_match; [|apply IH]. keep.
Qed.
Lemma keeps_write scope t src c x refs : safe (write_fact embed scope t src c x refs).
Proof.
  unfold write_fact. eapply keeps_bind; [apply Hembed|]. intros es _.
  eapply keeps_bind; [apply keeps_fact_new|]. intros f [Hf _]. keep.
Qed.
Hint Resolve keeps_decay keeps_promote keeps_dedup keeps_write : engram.
Lemma keeps_op_decay scope : safe (op_decay config scope).
Proof. unfold op_decay. keep. Qed.
Lemma keeps_op_promote scope : safe (op_promote config scope).
Proof. unfold op_promote. keep. Qed.
Lemma keeps_op_dedup scope : safe (op_dedup embed config scope).
Proof. unfold op_dedup. keep. Qed.
Hint Resolve keeps_op_decay keeps_op_promote keeps_op_dedup : engram.
Lemma keeps_entities scope max l g u : safe (summarize_entities embed prompts llm scope max l g u).
Proof. revert g u. induction l as [|[e l'] l IH]; intros g u; cbn [summarize_entities]; keep. Qed.
Hint Resolve keeps_entities : engram.

Lemma keeps_summarize scope n : safe (op_summarize embed config prompts llm scope n).
Proof.
  unfold op_summarize. eapply keeps_bind; [apply keeps_list|]. intros l _. case_match; [by apply keeps_ret|].
  eapply keeps_bind; [apply keeps_llm|]. intros v _.
  eapply keeps_bind; [apply keeps_for_each; intros; apply keeps_write|]. intros [] _.
  eapply keeps_bind; [apply keeps_for_each; intros; by apply keeps_mark|]. intros [] _. by apply keeps_ret.
Qed.
Lemma keeps_reflect scope n : safe (op_reflect embed config prompts llm scope n).
Proof.
  unfold op_reflect. case_match; [by apply keeps_ret|]. eapply keeps_bind; [apply keeps_list|]. intros l _.
  case_match; [by apply keeps_ret|]. eapply keeps_bind; [apply keeps_llm|]. intros v _.
  eapply keeps_bind; [apply keeps_for_each; intros; apply keeps_write|]. intros [] _. by apply keeps_ret.
Qed.
Lemma keeps_entity_summary scope n : safe (op_entity_summary embed prompts llm scope n).
Proof. unfold op_entity_summary. keep. Qed.
Lemma keeps_rollup scope n : safe (op_preference_rollup embed prompts llm scope n).
Proof.
  unfold op_preference_rollup. case_match; [by apply keeps_ret|].
  eapply keeps_bind; [apply keeps_list|]. intros l _. case_match; [by apply keeps_ret|].
  eapply keeps_bind; [apply keeps_llm|]. intros v _. case_match; [|by apply keeps_ret].
  eapply keeps_bind; [apply keeps_write|]. intros [] _.
  eapply keeps_bind; [apply keeps_for_each; intros; by apply keeps_mark|]. intros [] _. by apply keeps_ret.
Qed.
Lemma keeps_timeline scope : safe (op_timeline_builder scope).
Proof.
  unfold op_timeline_builder. eapply keeps_bind; [apply keeps_list|]. intros l _.
  case_match; [by apply keeps_ret|].
  eapply keeps_bind; [apply keeps_for_each; intros; by apply keeps_mark|]. intros [] _. by apply keeps_ret.
Qed.
Hint Resolve keeps_summarize keeps_reflect keeps_entity_summary keeps_rollup keeps_timeline : engram.

Lemma keeps_op_run scope (asked : bool) r op :
  safe (run_op embed config prompts scope (if asked then Some llm else None) r op).
Proof.
  destruct op; cbn [run_op]; unfold with_model; destruct asked; keep.
Qed.
Lemma keeps_consolidate scope (asked : bool) :
  safe (consolidate embed config prompts scope (if asked then Some llm else None)).
Proof.
  unfold consolidate. generalize ConsolidationResult_default.
  induction (enabled_ops config) as [|op ops IH]; intros r; cbn [run_ops]; [by apply keeps_ret|].
  eapply keeps_bind; [apply keeps_op_run|]. intros r' _. apply IH.
Qed.
End Typed.

(** ** What callers see *)

(** A call of the memory's interface. *)
Inductive MemoryCall :=
  | AddFact (text : string) (scope : Scope)
  | AddMessages (ms : list Message) (scope : Scope) (config : ExtractionConfig) (at_ : option DateTime)
  | Import (facts : list Fact)
  | Recall (q : RecallQuery)
  | HybridSearch (config : RetrievalConfig) (query : string) (scope : Scope) (k : Z)
  | GetContext (config : ContextConfig) (query : string) (scope : Scope)
  | CheckConflict (threshold : f32) (text : string) (scope : Scope)
  | ListFacts (scope : option Scope)
  | Export (scope : option Scope)
  | Stats
  | Forget (id : FactId)
  | DeleteUserData (scope : Scope)
  | Consolidate (config : ConsolidationConfig) (scope : Scope) (asked : bool)
  | SaveMessages (conversation : string) (ms : list ChatMessage) (scope : Scope)
  | GetMessages (conversation : string) (last_n : option Z) (scope : Scope)
  | DeleteMessages (conversation : string) (scope : Scope).

Section Reached.
Context `{!UuidOps, !ChronoOps, !JsonText, !EngramOps, !SqlOps, !IterOrder N} {X : Type}.
Context (horizon : DateTime) (dims : Z) (embed : Embed (Engram X)) (llm : Llm (Engram X)).
Context (extraction conflict : string) (prompts : ConsolidationOp → string).
#[local] Instance vectors_at : VectorStore (Engram X) := EmbeddedVectorStore dims.

(** Times that are given are in range, and metadata holds no NaN. *)
Definition call_ok (c : MemoryCall) : Prop :=
  match c with
  | AddMessages _ _ _ at_ => opt_in_range horizon at_
  | Import facts => Forall (writable horizon) facts
  | SaveMessages _ ms _ => Forall (message_writable horizon) ms
  | _ => True
  end.

Definition forgetting {A} (m : eff (Engram X) MemoryError A) : eff (Engram X) MemoryError unit :=
  m ≫= λ _, mret tt.
Definition call (c : MemoryCall) : eff (Engram X) MemoryError unit :=
  match c with
  | AddFact text scope => forgetting (add_fact embed text scope)
  | AddMessages ms scope config at_ =>
      forgetting (add_messages embed llm extraction ms scope config at_)
  | Import facts => forgetting (memory_import embed facts)
  | Recall q => forgetting (recall embed q)
  | HybridSearch config query scope k => forgetting (hybrid_search embed config query scope k)
  | GetContext config query scope => forgetting (build_context embed config query scope)
  | CheckConflict x text scope => forgetting (check_conflict embed llm conflict x text scope)
  | ListFacts scope => forgetting (memory_list_facts scope)
  | Export scope => forgetting (memory_export scope)
  | Stats => forgetting memory_stats
  | Forget id => forget id
  | DeleteUserData scope => forgetting (delete_user_data scope)
  | Consolidate config scope asked =>
      forgetting (consolidate embed config prompts scope (if asked then Some llm else None))
  | SaveMessages c ms scope => forgetting (save_messages c ms scope)
  | GetMessages c n scope => forgetting (get_messages c n scope)
  | DeleteMessages c scope => forgetting (delete_messages c scope)
  end.

(** What calls lead to from a memory that is empty, failed ones included, while
    the clock moves within the range and others draw ids. *)
Inductive reached : world (Engram X) → Prop :=
  | reached_start x t n :
      in_range horizon t → reached (World (Build_Engram [] [] [] [] [] ∅ x) t n)
  | reached_other w t n : reached w → in_range horizon t → reached (World (store w) t n)
  | reached_call w c : reached w → call_ok c → reached (call c w).2.

Context (Hlaws : EngramLaws horizon).
Context (Hembed : ∀ l, keeps horizon dims (embed l) (λ _, True)).
Context (Hllm : ∀ s u, keeps horizon dims (llm s u) (well_dated horizon)).

Lemma keeps_call c : call_ok c → keeps horizon dims (call c) (λ _, True).
Proof.
  intros Hc. assert (∀ A (m : eff (Engram X) MemoryError A), keeps horizon dims m (λ _, True) →
    keeps horizon dims (forgetting m) (λ _, True)) as Hforget.
  { intros A m Hm. eapply keeps_bind; [exact Hm|]. intros a _. by apply keeps_ret. }
  destruct c; cbn [call call_ok] in *; try apply Hforget; eauto using keeps_add_fact, keeps_add_messages,
    keeps_memory_import, keeps_recall, keeps_hybrid, keeps_context, keeps_check_conflict, keeps_list,
    keeps_export, keeps_stats, keeps_forget, keeps_delete_user_data, keeps_consolidate, keeps_save,
    keeps_get_messages, keeps_delete_messages.
Qed.

Lemma reached_good w : reached w → good horizon dims w.
Proof.
  induction 1 as [x t n Ht|w t n _ [IH _] Ht|w c _ IH Hc].
  - assert (∀ A, NoDup (@nil A)) by (intros; apply NoDup_nil_2).
    split; [|done]. split_and!; cbn; auto using Forall_nil_2; [|done]. by split_and!; cbn; auto using Forall_nil_2.
  - by split.
  - by apply keeps_call.
Qed.

Lemma ok_rows_read {A B} (P : A → Prop) (f : A → result MemoryError B) (l l' : list A) :
  (∀ a, P a → ∃ b, f a = Ok b) → Forall P l → l' ⊆ l → ∃ r, mapM f l' = Ok r.
Proof.
  intros Hf Hl Hs. apply mapM_reads, Forall_forall. intros a Ha. rewrite Forall_forall in Hl. auto.
Qed.

Lemma in_limit {A} n (l : list A) x : x ∈ sql_limit n l → x ∈ l.
Proof. unfold sql_limit. case_decide; [done|]. intros (i & Hi & _)%elem_of_take. by eapply list_elem_of_lookup_2. Qed.
Lemma entity_reads r : entity_ok r → ∃ e, row_to_entity r = Ok e.
Proof. intros (e & He & _). by exists e. Qed.
Lemma rows_in_conversation c scope (last_n : option Z) (l : list MessageRow) m :
  m ∈ match last_n with
      | Some n => merge_sort seq_asc (sql_limit (wrap_i64 n) (merge_sort seq_desc
          (scan (base.filter (λ r, in_conversation c scope r = true) l))))
      | None => merge_sort seq_asc (scan (base.filter (λ r, in_conversation c scope r = true) l))
      end → m ∈ l.
Proof.
  intros Hm. destruct last_n as [n|]; rewrite merge_sort_Permutation in Hm.
  - apply in_limit in Hm. rewrite merge_sort_Permutation, scan_perm in Hm.
    by apply list_elem_of_filter in Hm as [_ Hm].
  - rewrite scan_perm in Hm. by apply list_elem_of_filter in Hm as [_ Hm].
Qed.

(** C22: Whatever is called, in whatever order and with whatever failures, from an
    empty memory (facts added, extracted, imported and forgotten, users erased,
    entities and relationships learnt, messages saved, consolidation cycles run):
    the tables stay well typed (ids are unique, every column holds what its reader
    expects, the full-text index has one entry per fact, every vector has the
    store's dimension). So every read answers: a list, an export, a conversation,
    an entity search, an entity and a neighbourhood of any depth never fail, and a
    fact is found or reported as not found. *)
Theorem memory_well_typed (w : world (Engram X)) : reached w →
  engram_ok horizon dims (store w)
  ∧ (∀ f, ∃ l, list_facts f w = (Ok l, w))
  ∧ (∀ scope, ∃ l, memory_export scope w = (Ok l, w))
  ∧ (∀ id, (∃ f, get_fact id w = (Ok f, w))
           ∨ get_fact id w = (Err (NotFound (uuid_hyphenated id)), w))
  ∧ (∀ c n scope, ∃ l, get_messages c n scope w = (Ok l, w))
  ∧ (∀ q k, ∃ l, search_entities q k w = (Ok l, w))
  ∧ (∀ id, ∃ o, get_entity id w = (Ok o, w))
  ∧ ∀ id (depth : nat) as_of, ∃ g, neighbors id (Z.of_nat depth) as_of w = (Ok g, w).
Proof.
  intros [Hok _]%reached_good. split; [done|]. destruct Hok as (_ & Hfacts & _ & Hg & _ & Hms & _).
  assert (∀ f, ∃ l, list_facts f w = (Ok l, w)) as Hlist.
  { intros f. cbn. unfold sqlite_list_facts. rewrite bind_gets.
    destruct (ok_rows_read _ row_to_fact _ (take (Z.to_nat (ff_limit f)) (drop (Z.to_nat (ff_offset f))
      (merge_sort created_later (scan (base.filter (λ r, filter_where f r = true) (fact_rows (store w)))))))
      (fact_ok_reads horizon Hlaws) Hfacts) as [l Hl]; [|by exists l; rewrite Hl].
    intros r (i & Hr & _)%elem_of_take. rewrite lookup_drop in Hr. apply list_elem_of_lookup_2 in Hr. rewrite merge_sort_Permutation, scan_perm in Hr.
    by apply list_elem_of_filter in Hr as [_ Hr]. }
  split_and!; [exact Hlist| | | | | |].
  - intros scope. apply Hlist.
  - intros id. cbn. unfold sqlite_get_fact. rewrite bind_gets.
    destruct (List.find _ _) as [r|] eqn:Hr; [left|by right].
    apply find_some in Hr as [Hr%list_elem_of_In _]. rewrite Forall_forall in Hfacts.
    destruct (fact_ok_reads horizon Hlaws r (Hfacts r Hr)) as [f Hf]. exists f. unfold mbind, eff_bind, of_result. cbn. by rewrite Hf.
  - intros c n scope. cbn. unfold sqlite_get_messages. rewrite bind_gets.
    match goal with |- context [mapM row_to_message ?l] =>
      destruct (ok_rows_read _ row_to_message _ l (message_ok_reads horizon Hlaws) Hms) as [r Hr] end;
      [|by exists r; rewrite Hr].
    intros m Hm. apply (rows_in_conversation c scope n) in Hm. done.
  - intros q k. cbn. unfold sqlite_search_entities. rewrite bind_gets. destruct Hg as (_ & _ & _ & He).
    match goal with |- context [mapM row_to_entity ?l] =>
      destruct (ok_rows_read _ row_to_entity _ l entity_reads He) as [r Hr] end; [|by exists r; rewrite Hr].
    intros r Hr. apply in_limit in Hr. rewrite scan_perm in Hr. by apply list_elem_of_filter in Hr as [_ Hr].
  - intros id. cbn. unfold sqlite_get_entity.
    destruct (find_entity_ok horizon Hlaws (store w) Hg id) as (o & Ho & _). exists o. by rewrite Ho.
  - intros id depth as_of.
    destruct (neighbors_by_rows horizon Hlaws id depth as_of w Hg) as (g & Hn & _). by exists g.
Qed.
End Reached.

(** ** Witness *)

Module TypedSample.
Import EngramSample.
#[local] Existing Instances plain_uuid tree_json shift_chrono plain_sql plain_engram order_n.

(** A model that names two facts in every answer. *)
Definition two_facts : Llm (Engram Z) := λ _ _, mret (Array [Str "likes tea"; Str "owns a cat"]).
Definition day : list MemoryCall := [
  AddFact "tea at four" acme;
  AddMessages [Build_Message "user" "I like tea"] acme ExtractionConfig_default (Some 7);
  SaveMessages "c" [said 1 "user" "hi" 0; said 2 "assistant" "hello" 1] acme;
  SaveMessages "c" [said 1 "user" "again" 2] acme;
  Consolidate busy acme true; AddFact "keys in the safe" zeta; DeleteUserData zeta].
Definition run_day (calls : list MemoryCall) : world (Engram Z) :=
  foldl (λ w c, (call 2 embed2 two_facts "" "" no_prompts c w).2) empty calls.

Lemma embed2_keeps l : keeps 100 2 (embed2 l) (λ _, True).
Proof. by apply keeps_ret. Qed.
Lemma two_facts_keeps s u : keeps 100 2 (two_facts s u) (well_dated 100).
Proof. apply keeps_ret. intros l _. apply Forall_forall. by intros e _ d t _. Qed.

Lemma memory_well_typed_witness :
  (∃ l, memory_export (Some acme) (run_day day) = (Ok l, run_day day) ∧ length l = 3%nat)
  ∧ (∃ l, get_messages "c" None acme (run_day day) = (Ok l, run_day day)
       ∧ ms_content <$> l = ["hi"; "hello"]).
Proof.
  assert (reached 100 2 embed2 two_facts "" "" no_prompts (run_day day)) as Hr.
  { unfold run_day, day. cbn [foldl].
    repeat (apply reached_call; [|first [exact I|by intros t [= <-]|by repeat constructor]]).
    by apply reached_start. }
  destruct (memory_well_typed 100 2 embed2 two_facts "" "" no_prompts (engram_laws 100) embed2_keeps
    two_facts_keeps _ Hr) as (_ & _ & He & _ & Hm & _).
  split.
  - destruct (He (Some acme)) as [l Hl]. exists l. split; [exact Hl|].
    apply (f_equal fst) in Hl. vm_compute in Hl. injection Hl as <-. reflexivity.
  - destruct (Hm "c" None acme) as [l Hl]. exists l. split; [exact Hl|].
    apply (f_equal fst) in Hl. vm_compute in Hl. injection Hl as <-. reflexivity.
Defined.
End TypedSample.
