(* ===== verification/EngramServer.v ===== *)
(** * The server around a memory ([engram-server/src/])

    The eleven tools and their handlers ([handlers.rs], [main.rs]), the JSON-RPC
    session over lines ([mcp.rs]) and the REST handlers ([rest.rs]), over any
    stores. The requests of the REST handlers are what axum's extractors make of
    them; the router is axum's. *)

From S2P Require Import Prelude.
From S2P Require Import Json.
From S2P Require Import RustStr.
From S2P Require Import Condition.
From S2P Require Import Budget.
From S2P Require Import Artifact.
From S2P Require Import Engram.
From S2P Require Import EngramMemory.
From S2P Require Import EngramConsolidate.
Import MemoryError.

(** ** JSON-RPC ([mcp.rs]) *)

Record JsonRpcRequest := {
  rpc_id : option Value; rpc_method : string; rpc_params : option Value;
}.
Record JsonRpcError := { rpc_code : Z; rpc_message : string }.
Record JsonRpcResponse := {
  rpc_re_id : option Value; rpc_result : option Value; rpc_error : option JsonRpcError;
}.
Record McpToolDef := { mt_name : string; mt_description : string; mt_schema : Value }.

(** The derived deserializer of a request with its message, and the crate's
    version. *)
Class ServerOps := {
  request_of : string → result string JsonRpcRequest;
  pkg_version : string;
}.

Definition opt_field {A} (k : string) (f : A → Value) (o : option A) : list (string * Value) :=
  match o with Some a => [(k, f a)] | None => [] end.
Definition error_value (e : JsonRpcError) : Value :=
  Object [("code", Num (if decide (rpc_code e < 0) then NegInt (rpc_code e) else PosInt (rpc_code e)));
    ("message", Str (rpc_message e))].
Definition response_value (r : JsonRpcResponse) : Value :=
  Object (("jsonrpc", Str "2.0") :: opt_field "id" id (rpc_re_id r)
    ++ opt_field "result" id (rpc_result r) ++ opt_field "error" error_value (rpc_error r)).

Definition ok_response (req : JsonRpcRequest) (v : Value) : JsonRpcResponse :=
  Build_JsonRpcResponse (rpc_id req) (Some v) None.
Definition not_found (req : JsonRpcRequest) (message : string) : JsonRpcResponse :=
  Build_JsonRpcResponse (rpc_id req) None (Some (Build_JsonRpcError (-32601) message)).
Definition parse_failure (e : string) : JsonRpcResponse :=
  Build_JsonRpcResponse None None (Some (Build_JsonRpcError (-32700) ("parse error: " +:+ e))).

(** What a tool answers. *)
Definition tool_content (is_error : bool) (text : string) : Value :=
  obj [("content", Array [obj [("type", Str "text"); ("text", Str text)]]); ("isError", Bool is_error)].

(** ** The tools ([tool_defs]) *)

Definition typed (t : string) (rest : list (string * Value)) : Value := obj (("type", Str t) :: rest).
Definition described (t d : string) : Value := typed t [("description", Str d)].
Definition schema (properties : list (string * Value)) (required : list string) : Value :=
  typed "object" (("properties", obj properties)
    :: match required with [] => [] | _ => [("required", Array (Str <$> required))] end).
Definition string_field : Value := typed "string" [].
Definition integer_field (default_ : Z) : Value := typed "integer" [("default", num default_)].
Definition object_items (properties : list (string * Value)) : Value :=
  schema properties ["role"; "content"].

Definition tool_defs : list McpToolDef := [
  Build_McpToolDef "memory_add" "Extract and store facts from conversation messages"
    (schema [("messages", typed "array" [
        ("items", object_items [("role", string_field); ("content", string_field)]);
        ("description", Str "Conversation messages to extract facts from")]);
      ("user_id", described "string" "User identifier");
      ("org_id", described "string" "Organization identifier");
      ("session_id", described "string" "Session identifier")] ["messages"]);
  Build_McpToolDef "memory_recall" "Semantic search over stored facts"
    (schema [("query", described "string" "Search query"); ("user_id", string_field);
      ("org_id", string_field); ("max_results", integer_field 10)] ["query"]);
  Build_McpToolDef "memory_context" "Assemble a token-budgeted context block for LLM prompts"
    (schema [("query", described "string" "Query to build context for"); ("user_id", string_field);
      ("org_id", string_field); ("token_budget", integer_field 2000);
      ("format", typed "string" [("enum", Array [Str "system_prompt"; Str "markdown"; Str "raw"]);
        ("default", Str "system_prompt")])] ["query"]);
  Build_McpToolDef "memory_forget" "Soft-delete a fact by ID"
    (schema [("fact_id", described "string" "UUID of the fact to forget");
      ("reason", described "string" "Reason for forgetting")] ["fact_id"]);
  Build_McpToolDef "memory_search" "Keyword search over stored facts (FTS5)"
    (schema [("query", described "string" "Keyword search query"); ("user_id", string_field);
      ("org_id", string_field); ("top_k", integer_field 10)] ["query"]);
  Build_McpToolDef "memory_stats" "Return aggregate memory statistics" (schema [] []);
  Build_McpToolDef "memory_consolidate" "Run a memory consolidation cycle (decay, promote, dedup)"
    (schema [("user_id", string_field); ("org_id", string_field)] []);
  Build_McpToolDef "messages_save" "Save chat messages to a conversation, optionally extracting facts"
    (schema [("conversation_id", described "string" "Conversation identifier");
      ("messages", typed "array" [
        ("items", object_items [("role", string_field); ("content", string_field);
          ("metadata", typed "object" [])]);
        ("description", Str "Chat messages to save")]);
      ("user_id", described "string" "User identifier");
      ("org_id", described "string" "Organization identifier")] ["conversation_id"; "messages"]);
  Build_McpToolDef "messages_get" "Retrieve chat messages from a conversation"
    (schema [("conversation_id", described "string" "Conversation identifier");
      ("last_n", described "integer" "Only return the last N messages"); ("user_id", string_field);
      ("org_id", string_field)] ["conversation_id"]);
  Build_McpToolDef "messages_list" "List all conversation IDs visible to the given scope"
    (schema [("user_id", string_field); ("org_id", string_field)] []);
  Build_McpToolDef "messages_delete" "Delete all messages in a conversation"
    (schema [("conversation_id", described "string" "Conversation identifier"); ("user_id", string_field);
      ("org_id", string_field)] ["conversation_id"])].
Definition tool_value (t : McpToolDef) : Value :=
  Object [("name", Str (mt_name t)); ("description", Str (mt_description t)); ("inputSchema", mt_schema t)].

(** ** Bodies both front ends answer with *)

Definition fact_hit `{!UuidOps} (f : Fact) : Value :=
  obj [("fact_id", Str (uuid_hyphenated (ft_id f))); ("text", Str (ft_text f));
    ("tier", Str (tier_name (ft_tier f))); ("category", opt_val Str (ft_category f))].
Definition recalled `{!UuidOps} (f : Fact) : Value :=
  obj [("fact_id", Str (uuid_hyphenated (ft_id f))); ("text", Str (ft_text f));
    ("tier", Str (tier_name (ft_tier f))); ("category", opt_val Str (ft_category f));
    ("confidence", opt_val f64_to_value (ft_confidence f))].
Definition results_body (results : list Value) : Value :=
  obj [("results", Array results); ("total", num (Z.of_nat (length results)))].
Definition added_body `{!UuidOps} (ids : list FactId) : Value :=
  obj [("success", Bool true); ("fact_count", num (Z.of_nat (length ids)));
    ("fact_ids", Array ((λ i, Str (uuid_hyphenated i)) <$> ids))].
Definition block_body (b : ContextBlock) : Value :=
  obj [("text", Str (cb_text b)); ("token_count", num (cb_token_count b));
    ("facts_included", num (cb_facts_included b)); ("facts_omitted", num (cb_facts_omitted b));
    ("tier_breakdown", obj ((λ p, (p.1, num p.2)) <$> map_to_list (cb_tier_breakdown b)))].
Definition forgotten_body (fact_id : string) : Value :=
  obj [("success", Bool true); ("deleted_fact_id", Str fact_id)].
Definition stats_body (s : StoreStats) : Value :=
  obj [("total_facts", num (total_facts s)); ("valid_facts", num (valid_facts s));
    ("invalidated_facts", num (invalidated_facts s)); ("total_entities", num (total_entities s));
    ("total_relationships", num (total_relationships s))].
(** The derived serializer's order. *)
Definition cycle_value (r : ConsolidationResult) : list (string * Value) := [
  ("facts_decayed", num (facts_decayed r)); ("facts_archived", num (facts_archived r));
  ("facts_promoted", num (facts_promoted r)); ("facts_deduped", num (facts_deduped r));
  ("facts_summarized", num (facts_summarized r)); ("insights_generated", num (insights_generated r));
  ("entity_summaries_generated", num (entity_summaries_generated r));
  ("preferences_rolled_up", num (preferences_rolled_up r));
  ("timeline_events_ordered", num (timeline_events_ordered r));
  ("llm_calls_used", num (llm_calls_used r))].
Definition saved_body `{!UuidOps} (ids : list MessageId) (facts : option (list FactId)) : Value :=
  obj [("success", Bool true); ("message_ids", Array ((λ i, Str (uuid_hyphenated i)) <$> ids));
    ("fact_ids", opt_val (λ l, Array ((λ i, Str (uuid_hyphenated i)) <$> l)) facts)].
Definition message_value `{!UuidOps, !ChronoOps} (m : ChatMessage) : Value :=
  obj [("id", Str (uuid_hyphenated (ms_id m))); ("conversation_id", Str (ms_conversation_id m));
    ("role", Str (ms_role m)); ("content", Str (ms_content m)); ("seq", num (ms_seq m));
    ("created_at", Str (rfc3339 (ms_created_at m))); ("metadata", Object (ms_metadata m))].
Definition messages_body `{!UuidOps, !ChronoOps} (ms : list ChatMessage) : Value :=
  obj [("messages", Array (message_value <$> ms)); ("total", num (Z.of_nat (length ms)))].
Definition conversations_body (ids : list string) : Value :=
  obj [("conversation_ids", Array (Str <$> ids)); ("total", num (Z.of_nat (length ids)))].
Definition deleted_body (count : Z) : Value := obj [("success", Bool true); ("deleted_count", num count)].

(** ** Tool handlers ([handlers.rs]) *)

Definition arg (k : string) (v : Value) : option string := get k v ≫= as_str.
Definition arg_u64 (k : string) (v : Value) : option Z := get k v ≫= as_u64.

(** A session counts only with a user. *)
Definition scope_of (org_id user_id session_id : option string) : Scope :=
  let org := default "default" org_id in
  match user_id with
  | Some u => match session_id with Some s => Scope.session org u s | None => Scope.user org u end
  | None => Scope.org org
  end.
Definition parse_scope (args : Value) : Scope :=
  scope_of (arg "org_id" args) (arg "user_id" args) (arg "session_id" args).
Definition format_of (s : option string) : OutputFormat :=
  match s with
  | Some "markdown" => OutputFormat.Markdown
  | Some "raw" => OutputFormat.Raw
  | _ => OutputFormat.SystemPrompt
  end.
Definition context_config (token_budget : option Z) (format : option string) : ContextConfig :=
  Build_ContextConfig (default 2000 token_budget) (format_of format) 100.
Definition recall_query (q : string) (scope : Scope) (max_results : option Z) : RecallQuery :=
  Build_RecallQuery q (Some scope) (default 10 max_results) None None.

(** What is said in an array of messages: an entry without a role and a content is
    left out. *)
Definition said_in (m : Value) : option Message :=
  role ← arg "role" m; content ← arg "content" m; Some (Build_Message role content).

Definition with_metadata (metadata : Map) (m : ChatMessage) : ChatMessage :=
  Build_ChatMessage (ms_id m) (ms_conversation_id m) (ms_role m) (ms_content m) (ms_scope m) (ms_seq m)
    (ms_created_at m) metadata.

Section Server.
Context `{!UuidOps, !ChronoOps, !JsonText, !EngramOps, !ServerOps, !IterOrder N} {S : Type}.
Context `{!FactStore S, !VectorStore S, !GraphStore S, !MessageStore S}.
Context (embed : Embed S) (llm : Llm S) (system_prompt : string) (prompts : ConsolidationOp → string).
Context (extract_on_save : bool).
Abbreviation T A := (eff S string A).
Abbreviation the_store := (Some (_ : MessageStore S)).

Definition failing {A} (what : string) (m : eff S MemoryError A) : T A :=
  with_err (λ e, what +:+ " failed: " +:+ display e) m.
Definition required {A} (message : string) (o : option A) : T A := of_result (ok_or message o).

Definition handle_add (args : Value) : T string :=
  let messages := omap said_in (default [] (get "messages" args ≫= as_array)) in
  match messages with
  | [] => raise "messages array is required and must not be empty"
  | _ =>
      ids ← failing "add_messages"
        (add_messages embed llm system_prompt messages (parse_scope args) ExtractionConfig_default None);
      mret (json_pretty (added_body ids))
  end.

Definition handle_recall (args : Value) : T string :=
  query ← required "query is required" (arg "query" args);
  facts ← failing "recall"
    (recall embed (recall_query query (parse_scope args) (arg_u64 "max_results" args)));
  mret (json_pretty (results_body (recalled <$> facts))).

Definition handle_context (args : Value) : T string :=
  query ← required "query is required" (arg "query" args);
  block ← failing "context" (build_context embed
    (context_config (arg_u64 "token_budget" args) (arg "format" args)) query (parse_scope args));
  mret (json_pretty (block_body block)).

Definition handle_forget (args : Value) : T string :=
  fact_id_str ← required "fact_id is required" (arg "fact_id" args);
  fact_id ← required ("invalid fact_id: " +:+ uuid_msg fact_id_str) (uuid_parse fact_id_str);
  failing "forget" (forget fact_id) ≫= λ _,
  mret (json_pretty (forgotten_body fact_id_str)).

Definition handle_search (args : Value) : T string :=
  query ← required "query is required" (arg "query" args);
  facts ← failing "search"
    (keyword_search query (parse_scope args) (default 10 (arg_u64 "top_k" args)));
  mret (json_pretty (results_body (fact_hit <$> facts))).

Definition handle_stats (_args : Value) : T string :=
  stats ← failing "stats" memory_stats;
  mret (json_pretty (stats_body stats)).

(** Without a model. *)
Definition handle_consolidate (args : Value) : T string :=
  result ← failing "consolidate"
    (consolidate embed ConsolidationConfig_default prompts (parse_scope args) None);
  mret (json_pretty (Object (cycle_value result))).

(** The messages of a save, numbered by their place in the array (of fewer than 2^31). *)
Fixpoint chat_messages (conversation_id : string) (scope : Scope) (i : Z) (raw : list Value)
    : T (list ChatMessage) :=
  match raw with
  | [] => mret []
  | m :: raw =>
      match said_in m with
      | None => chat_messages conversation_id scope (i + 1) raw
      | Some said =>
          msg ← ChatMessage_new conversation_id (mg_role said) (mg_content said) scope i;
          let msg := with_metadata (default (ms_metadata msg) (get "metadata" m ≫= as_object)) msg in
          rest ← chat_messages conversation_id scope (i + 1) raw;
          mret (msg :: rest)
      end
  end.

(** The facts of what was saved; a failure is logged. *)
Definition extract_saved (messages : list Message) (scope : Scope) : T (option (list FactId)) :=
  if extract_on_save then
    r ← as_result (add_messages embed llm system_prompt messages scope ExtractionConfig_default None);
    mret (match r with Ok ids => Some ids | Err _ => None end)
  else mret None.

Definition handle_messages_save (args : Value) : T string :=
  conversation_id ← required "conversation_id is required" (arg "conversation_id" args);
  raw ← required "messages array is required" (get "messages" args ≫= as_array);
  if decide (raw = []) then raise "messages must not be empty"
  else
    let scope := parse_scope args in
    messages ← chat_messages conversation_id scope 0 raw;
    if decide (length messages = 0%nat) then raise "messages must contain valid {role, content} objects"
    else
      ids ← failing "save_chat_messages" (save_chat_messages the_store conversation_id messages scope);
      facts ← extract_saved (omap said_in raw) scope;
      mret (json_pretty (saved_body ids facts)).

Definition handle_messages_get (args : Value) : T string :=
  conversation_id ← required "conversation_id is required" (arg "conversation_id" args);
  messages ← failing "get_chat_messages"
    (get_chat_messages the_store conversation_id (arg_u64 "last_n" args) (parse_scope args));
  mret (json_pretty (messages_body messages)).

Definition handle_messages_list (args : Value) : T string :=
  ids ← failing "list_conversations" (memory_list_conversations the_store (parse_scope args));
  mret (json_pretty (conversations_body ids)).

Definition handle_messages_delete (args : Value) : T string :=
  conversation_id ← required "conversation_id is required" (arg "conversation_id" args);
  count ← failing "delete_chat_messages"
    (delete_chat_messages the_store conversation_id (parse_scope args));
  mret (json_pretty (deleted_body count)).

(** ** The session *)

(** The handlers by the names of the tools. *)
Definition handlers : list (Value → T string) := [
  handle_add; handle_recall; handle_context; handle_forget; handle_search; handle_stats;
  handle_consolidate; handle_messages_save; handle_messages_get; handle_messages_list;
  handle_messages_delete].
Definition handler_of (name : string) : option (Value → T string) :=
  snd <$> List.find (λ p, bool_decide (mt_name p.1 = name)) (zip tool_defs handlers).

Definition initialized : Value :=
  obj [("protocolVersion", Str "2024-11-05");
    ("capabilities", obj [("tools", obj [("listChanged", Bool false)])]);
    ("serverInfo", obj [("name", Str "engram"); ("version", Str pkg_version)])].

Definition tools_call {E} (req : JsonRpcRequest) : eff S E JsonRpcResponse :=
  let params := default Null (rpc_params req) in
  let name := default "" (arg "name" params) in
  let arguments := default (Object []) (get "arguments" params) in
  match handler_of name with
  | Some handler =>
      r ← as_result (handler arguments);
      mret (ok_response req (match r with
        | Ok text => tool_content false text | Err e => tool_content true e end))
  | None => mret (not_found req ("unknown tool: " +:+ name))
  end.

Definition handle_request {E} (req : JsonRpcRequest) : eff S E JsonRpcResponse :=
  let method := rpc_method req in
  if decide (method = "initialize") then mret (ok_response req initialized)
  else if decide (method = "notifications/initialized") then mret (ok_response req Null)
  else if decide (method = "tools/list") then
    mret (ok_response req (obj [("tools", Array (tool_value <$> tool_defs))]))
  else if decide (method = "tools/call") then tools_call req
  else mret (not_found req ("method not found: " +:+ method)).

(** What a line of the session is answered: a blank one nothing. *)
Definition serve_line {E} (line : string) : eff S E (option JsonRpcResponse) :=
  if decide (trim line = "") then mret None
  else match request_of (trim line) with
    | Err e => mret (Some (parse_failure e))
    | Ok req => resp ← handle_request req; mret (Some resp)
    end.

(** Until the end of the input. *)
Fixpoint serve {E} (lines : list string) : eff S E (list string) :=
  match lines with
  | [] => mret []
  | line :: lines =>
      r ← serve_line line;
      rest ← serve lines;
      mret (match r with
        | Some resp => (json_to_string (response_value resp) +:+ LF) :: rest | None => rest end)
  end.
End Server.

(** ** REST ([rest.rs]) *)

Record AddRequest := {
  ar_messages : list Message; ar_user_id : option string; ar_org_id : option string;
  ar_session_id : option string; ar_timestamp : option string;
}.
Record RecallParams := {
  rp_q : string; rp_user_id : option string; rp_org_id : option string; rp_max_results : option Z;
}.
Record ContextRequest := {
  cr_query : string; cr_user_id : option string; cr_org_id : option string;
  cr_token_budget : option Z; cr_format : option string;
}.
Record SearchParams := {
  sp_q : string; sp_user_id : option string; sp_org_id : option string; sp_top_k : option Z;
}.
(** The parameters of a list and of a deletion of conversations have these fields
    too. *)
Record ConsolidateRequest := { co_user_id : option string; co_org_id : option string }.
Record MessageInput := { mi_role : string; mi_content : string; mi_metadata : option Map }.
Record SaveMessagesRequest := {
  sm_conversation_id : string; sm_messages : list MessageInput; sm_user_id : option string;
  sm_org_id : option string;
}.
Record GetMessagesParams := {
  gm_last_n : option Z; gm_user_id : option string; gm_org_id : option string;
}.

Section Rest.
Context `{!UuidOps, !ChronoOps, !JsonText, !EngramOps, !IterOrder N} {S : Type}.
Context `{!FactStore S, !VectorStore S, !GraphStore S, !MessageStore S}.
Context (embed : Embed S) (llm : Llm S) (system_prompt : string) (prompts : ConsolidationOp → string).
Context (extract_on_save : bool).
Abbreviation Reply := (Z * Value)%type (only parsing).
Abbreviation Handler := (eff S (Z * Value) (Z * Value)).
Abbreviation the_store := (Some (_ : MessageStore S)).

Definition err (status : Z) (msg : string) : Reply := (status, obj [("error", Str msg)]).
Definition internal {A} (m : eff S MemoryError A) : eff S (Z * Value) A :=
  with_err (λ e, err 500 (display e)) m.
Definition ok (body : Value) : Handler := mret (200, body).

(** A timestamp that is not one counts for none. *)
Definition add_handler (body : AddRequest) : Handler :=
  if decide (ar_messages body = []) then raise (err 400 "messages must not be empty")
  else
    ids ← internal (add_messages embed llm system_prompt (ar_messages body)
      (scope_of (ar_org_id body) (ar_user_id body) (ar_session_id body)) ExtractionConfig_default
      (ar_timestamp body ≫= parse_rfc3339));
    mret (201, added_body ids).

Definition recall_handler (params : RecallParams) : Handler :=
  facts ← internal (recall embed (recall_query (rp_q params)
    (scope_of (rp_org_id params) (rp_user_id params) None) (rp_max_results params)));
  ok (results_body (recalled <$> facts)).

Definition context_handler (body : ContextRequest) : Handler :=
  block ← internal (build_context embed (context_config (cr_token_budget body) (cr_format body))
    (cr_query body) (scope_of (cr_org_id body) (cr_user_id body) None));
  ok (block_body block).

Definition forget_handler (fact_id : string) : Handler :=
  match uuid_parse fact_id with
  | None => raise (err 400 ("invalid fact_id: " +:+ uuid_msg fact_id))
  | Some id => internal (forget id) ≫= λ _, ok (forgotten_body fact_id)
  end.

Definition search_handler (params : SearchParams) : Handler :=
  facts ← internal (keyword_search (sp_q params) (scope_of (sp_org_id params) (sp_user_id params) None)
    (default 10 (sp_top_k params)));
  ok (results_body (fact_hit <$> facts)).

Definition stats_handler : Handler := stats ← internal memory_stats; ok (stats_body stats).

(** With a model. *)
Definition consolidate_handler (body : ConsolidateRequest) : Handler :=
  result ← internal (consolidate embed ConsolidationConfig_default prompts
    (scope_of (co_org_id body) (co_user_id body) None) (Some llm));
  ok (obj (cycle_value result)).

(** A user of the default org. *)
Definition delete_user_handler (user_id : string) : Handler :=
  count ← internal (delete_user_data (Scope.user "default" user_id));
  ok (obj [("success", Bool true); ("deleted_facts", num count)]).

Fixpoint input_messages (conversation_id : string) (scope : Scope) (i : Z) (l : list MessageInput)
    : eff S (Z * Value) (list ChatMessage) :=
  match l with
  | [] => mret []
  | m :: l =>
      msg ← ChatMessage_new conversation_id (mi_role m) (mi_content m) scope i;
      rest ← input_messages conversation_id scope (i + 1) l;
      mret (with_metadata (default (ms_metadata msg) (mi_metadata m)) msg :: rest)
  end.

Definition save_messages_handler (body : SaveMessagesRequest) : Handler :=
  if decide (length (sm_messages body) = 0%nat) then raise (err 400 "messages must not be empty")
  else
    let scope := scope_of (sm_org_id body) (sm_user_id body) None in
    messages ← input_messages (sm_conversation_id body) scope 0 (sm_messages body);
    ids ← internal (save_chat_messages the_store (sm_conversation_id body) messages scope);
    facts ← (if extract_on_save then
      r ← as_result (add_messages embed llm system_prompt
        ((λ m, Build_Message (mi_role m) (mi_content m)) <$> sm_messages body) scope
        ExtractionConfig_default None);
      mret (match r with Ok ids => Some ids | Err _ => None end)
    else mret None);
    mret (201, saved_body ids facts).

Definition get_messages_handler (conversation_id : string) (params : GetMessagesParams) : Handler :=
  messages ← internal (get_chat_messages the_store conversation_id (gm_last_n params)
    (scope_of (gm_org_id params) (gm_user_id params) None));
  ok (messages_body messages).

Definition list_conversations_handler (params : ConsolidateRequest) : Handler :=
  ids ← internal (memory_list_conversations the_store
    (scope_of (co_org_id params) (co_user_id params) None));
  ok (conversations_body ids).

Definition delete_messages_handler (conversation_id : string) (params : ConsolidateRequest) : Handler :=
  count ← internal (delete_chat_messages the_store conversation_id
    (scope_of (co_org_id params) (co_user_id params) None));
  ok (deleted_body count).

Definition health_handler : Handler := ok (obj [("status", Str "ok"); ("service", Str "engram")]).
End Rest.
