(* ===== verification/EngramServerCorrect.v ===== *)
(** * What the memory server promises

    A session answers every request, in order, and whatever is asked leaves the
    memory well typed; the two front ends answer alike. *)

From S2P Require Import Prelude.
From S2P Require Import Json.
From S2P Require Import RustStr.
From S2P Require Import Condition.
From S2P Require Import Hashing.
From S2P Require Import Sql.
From S2P Require Import Engram.
From S2P Require Import EngramStore.
From S2P Require Import EngramMemory.
From S2P Require Import EngramConsolidate.
From S2P Require Import EngramCorrect.
From S2P Require Import EngramGraph.
From S2P Require Import EngramTyped.
From S2P Require Import EngramServer.
Import MemoryError.

(** ** A session *)

Section Session.
Context `{!UuidOps, !ChronoOps, !JsonText, !EngramOps, !ServerOps, !SqlOps, !IterOrder N} {X : Type}.
Context (horizon : DateTime) (dims : Z) (embed : Embed (Engram X)) (llm : Llm (Engram X)).
Context (extraction conflict : string) (prompts : ConsolidationOp → string) (extract_on_save : bool).
#[local] Instance server_vectors : VectorStore (Engram X) := EmbeddedVectorStore dims.
Context (Hlaws : EngramLaws horizon).
Context (Hembed : ∀ l, keeps horizon dims (embed l) (λ _, True)).
Context (Hllm : ∀ s u, keeps horizon dims (llm s u) (well_dated horizon)).
Abbreviation reached := (reached horizon dims embed llm extraction conflict prompts).
Abbreviation call := (call dims embed llm extraction conflict prompts).

(** It leads from a world a memory reaches to one it reaches, and what it answers
    meets [Q]. *)
Definition serves {E A} (m : eff (Engram X) E A) (Q : A → Prop) : Prop := ∀ w, reached w →
  reached (m w).2 ∧ ∀ a, (m w).1 = Ok a → Q a.
Abbreviation served m := (serves m (λ _, True)).

Lemma serves_bind {E A B} (m : eff (Engram X) E A) (k : A → eff (Engram X) E B) P Q :
  serves m P → (∀ a, P a → serves (k a) Q) → serves (m ≫= k) Q.
Proof.
  intros Hm Hk w Hw. destruct (Hm w Hw) as [Hr Ha]. unfold mbind, eff_bind.
  destruct (m w) as [[a|e] w']; [|done]. by apply Hk; [apply Ha|].
Qed.
Lemma serves_ret {E A} (a : A) (Q : A → Prop) : Q a → serves (mret a : eff (Engram X) E A) Q.
Proof. intros Ha w Hw. split; [done|]. by intros ? [= <-]. Qed.
Lemma served_quiet {E A} (m : eff (Engram X) E A) : (∀ w, (m w).2 = w) → served m.
Proof. intros Hm w Hw. by rewrite Hm. Qed.
Lemma served_required {A} message (o : option A) :
  serves (required message o : eff (Engram X) string A) (λ a, o = Some a).
Proof. intros w Hw. split; [done|]. destruct o; by intros ? [= <-]. Qed.
Lemma served_call {A} (c : MemoryCall) (m : eff (Engram X) MemoryError A) :
  call_ok horizon c → call c = forgetting m → served m.
Proof.
  intros Hc Hm w Hw. split; [|done]. pose proof (reached_call _ _ _ _ _ _ _ w c Hw Hc) as Hr.
  fold (call c) in Hr. rewrite Hm in Hr. unfold forgetting, mbind, eff_bind in Hr.
  by destruct (m w) as [[a|e] w'].
Qed.
Lemma served_as_result {E F A} (m : eff (Engram X) F A) :
  served m → served (as_result m : eff (Engram X) E (result F A)).
Proof. intros Hm w Hw. split; [|done]. destruct (Hm w Hw) as [Hr _]. unfold as_result. by destruct (m w). Qed.
Lemma served_with_err {E F A} (f : F → E) (m : eff (Engram X) F A) : served m → served (with_err f m).
Proof.
  intros Hm w Hw. split; [|done]. destruct (Hm w Hw) as [Hr _]. unfold with_err.
  by destruct (m w) as [[a|e] w'].
Qed.
Lemma served_draw {E} conversation role content scope seq :
  serves (ChatMessage_new conversation role content scope seq : eff (Engram X) E ChatMessage)
    (λ m, in_range horizon (ms_created_at m) ∧ ms_metadata m = []).
Proof.
  intros w Hw. destruct (reached_good _ _ _ _ _ _ _ Hlaws Hembed Hllm _ Hw) as [_ Ht]. split.
  - exact (reached_other _ _ _ _ _ _ _ w (clock w) _ Hw Ht).
  - by intros m [= <-].
Qed.

(** *** Values that were read hold no NaN *)

Lemma get_no_nan k v x : no_nan v = true → get k v = Some x → no_nan x = true.
Proof.
  destruct v as [| | | | |m]; try done. cbn. induction m as [|[k' v'] m IH]; [done|]. cbn.
  intros [Hv Hm]%andb_true_iff. case_decide; [|by apply IH]. by intros [= <-].
Qed.
Lemma array_no_nan l : no_nan (Array l) = true → Forall (λ v, no_nan v = true) l.
Proof. induction l as [|v l IH]; [by constructor|]. cbn. intros [Hv Hl]%andb_true_iff. constructor; auto. Qed.

Lemma served_messages conversation scope i raw : Forall (λ v, no_nan v = true) raw →
  serves (chat_messages (S := Engram X) conversation scope i raw) (Forall (message_writable horizon)).
Proof.
  intros Hraw. revert i. induction Hraw as [|m raw Hm _ IH]; intros i; cbn [chat_messages].
  { apply serves_ret. constructor. }
  destruct (said_in m) as [said|]; [|apply IH].
  eapply serves_bind; [apply served_draw|]. intros msg [Ht Hmeta].
  eapply serves_bind; [apply IH|]. intros rest Hrest. apply serves_ret. constructor; [|done].
  split; [done|]. cbn. rewrite Hmeta. destruct (get "metadata" m) as [v|] eqn:Hg; [|done]. cbn.
  destruct v as [| | | | |o]; try done. exact (get_no_nan _ _ _ Hm Hg).
Qed.

(** *** Handlers *)

Hint Resolve served_with_err served_as_result served_required : engram.

Lemma served_add ms scope at_ : opt_in_range horizon at_ →
  served (add_messages embed llm extraction ms scope ExtractionConfig_default at_).
Proof. intros Ht. by apply (served_call (AddMessages ms scope ExtractionConfig_default at_)). Qed.
Lemma served_search q scope k : served (keyword_search (S := Engram X) q scope k).
Proof.
  apply served_quiet. intros w. cbn. unfold sqlite_keyword_search. case_match; [done|].
  unfold mbind, eff_bind, gets, of_result. cbn. by destruct (fts_match _ _).
Qed.
Lemma served_extract ms scope :
  served (extract_saved (S := Engram X) embed llm extraction extract_on_save ms scope).
Proof.
  unfold extract_saved. destruct extract_on_save; [|by apply serves_ret].
  eapply serves_bind; [|intros r _; by apply serves_ret]. by apply served_as_result, served_add.
Qed.

Abbreviation handlers := (handlers (S := Engram X) embed llm extraction prompts extract_on_save).

Lemma handlers_served : Forall (λ h, ∀ args, no_nan args = true → served (h args)) handlers.
Proof.
  unfold EngramServer.handlers. repeat (apply Forall_cons_2; [intros args Hargs|]); [..|by apply Forall_nil_2].
  - unfold handle_add. case_match; [by apply served_quiet|].
    eapply serves_bind; [by apply served_with_err, served_add|]. intros ids _. by apply serves_ret.
  - eapply serves_bind; [apply served_required|]. intros q _.
    eapply serves_bind; [apply served_with_err; eapply (served_call (Recall _)); done|]. intros l _. by apply serves_ret.
  - eapply serves_bind; [apply served_required|]. intros q _.
    eapply serves_bind; [apply served_with_err; eapply (served_call (GetContext _ _ _)); done|]. intros l _.
    by apply serves_ret.
  - eapply serves_bind; [apply served_required|]. intros q _.
    eapply serves_bind; [apply served_required|]. intros u _.
    eapply serves_bind; [|intros; by apply serves_ret]. apply served_with_err. intros w Hw.
    split; [|done]. by apply (reached_call _ _ _ _ _ _ _ w (Forget u)).
  - eapply serves_bind; [apply served_required|]. intros q _.
    eapply serves_bind; [apply served_with_err, served_search|]. intros l _. by apply serves_ret.
  - eapply serves_bind; [apply served_with_err; eapply (served_call Stats); done|]. intros l _. by apply serves_ret.
  - eapply serves_bind; [apply served_with_err; eapply (served_call (Consolidate ConsolidationConfig_default _ false)); done|].
    intros l _. by apply serves_ret.
  - eapply serves_bind; [apply served_required|]. intros c _.
    eapply serves_bind; [apply served_required|]. intros raw Hraw.
    case_decide; [by apply served_quiet|].
    assert (Forall (λ v, no_nan v = true) raw) as Hn.
    { destruct (get "messages" args) as [[| | | |l|]|] eqn:Hg; try done. injection Hraw as <-.
      by eapply array_no_nan, get_no_nan. }
    eapply serves_bind; [by apply served_messages|]. intros ms Hms.
    case_decide; [by apply served_quiet|].
    eapply serves_bind; [by apply served_with_err; eapply (served_call (SaveMessages c ms _))|]. intros ids _.
    eapply serves_bind; [apply served_extract|]. intros fs _. by apply serves_ret.
  - eapply serves_bind; [apply served_required|]. intros c _.
    eapply serves_bind; [apply served_with_err; eapply (served_call (GetMessages _ _ _)); done|]. intros l _.
    by apply serves_ret.
  - eapply serves_bind; [apply served_with_err; by apply served_quiet|]. intros l _. by apply serves_ret.
  - eapply serves_bind; [apply served_required|]. intros c _.
    eapply serves_bind; [apply served_with_err; eapply (served_call (DeleteMessages _ _)); done|]. intros l _.
    by apply serves_ret.
Qed.
(** *** Lines *)

(** The parameters a request is read with hold no NaN: they are JSON. *)
Context (Hparams : ∀ s req p, request_of s = Ok req → rpc_params req = Some p → no_nan p = true).
Abbreviation handler_of :=
  (EngramServer.handler_of (S := Engram X) embed llm extraction prompts extract_on_save).
Abbreviation handle_request :=
  (EngramServer.handle_request (S := Engram X) embed llm extraction prompts extract_on_save).
Abbreviation serve := (EngramServer.serve (S := Engram X) embed llm extraction prompts extract_on_save).

Definition tool_named (req : JsonRpcRequest) : string := default "" (arg "name" (default Null (rpc_params req))).
(** The request names a method, and a tool where it calls one. *)
Definition known (req : JsonRpcRequest) : Prop :=
  rpc_method req = "initialize" ∨ rpc_method req = "notifications/initialized"
  ∨ rpc_method req = "tools/list"
  ∨ rpc_method req = "tools/call" ∧ tool_named req ∈ mt_name <$> tool_defs.

Lemma handler_of_named name : is_Some (handler_of name) ↔ name ∈ mt_name <$> tool_defs.
Proof.
  unfold EngramServer.handler_of. rewrite fmap_is_Some. split.
  - intros [[t h] Hf]. apply List.find_some in Hf as [Hin <-%bool_decide_eq_true].
    apply list_elem_of_fmap. exists t. split; [done|]. by apply list_elem_of_In, elem_of_zip_l in Hin.
  - intros Hn. destruct (List.find _ _) as [p|] eqn:Hf; [by eexists|]. exfalso.
    apply list_elem_of_fmap in Hn as (t & -> & Ht).
    assert (∃ h, (t, h) ∈ zip tool_defs handlers) as [h Hh].
    { apply list_elem_of_lookup in Ht as [i Hi].
      destruct (handlers !! i) as [h|] eqn:Hh.
      - exists h. apply list_elem_of_lookup. exists i. apply lookup_zip_with_Some. by exists t, h.
      - apply lookup_ge_None in Hh. apply lookup_lt_Some in Hi. cbn in Hh, Hi. lia. }
    apply list_elem_of_In in Hh. pose proof (List.find_none _ _ Hf _ Hh) as Hx. cbn in Hx.
    by rewrite bool_decide_eq_true_2 in Hx.
Qed.

(** One response, with the request's id; an error only for what is not known. *)
Definition responds (req : JsonRpcRequest) (resp : JsonRpcResponse) : Prop :=
  rpc_re_id resp = rpc_id req ∧ (rpc_error resp = None ↔ known req)
  ∧ (is_Some (rpc_result resp) ↔ known req).

Lemma known_responds req v : known req → responds req (ok_response req v).
Proof. intros Hk. split; [done|]. cbn. split; split; eauto. Qed.
Lemma unknown_responds req message : ¬ known req → responds req (not_found req message).
Proof. intros Hk. split; [done|]. cbn. split; split; try done; by intros [? [=]]. Qed.

Lemma tool_responds {E} req : (∀ p, rpc_params req = Some p → no_nan p = true) →
  rpc_method req = "tools/call" → serves (tools_call (S := Engram X) (E := E)
    embed llm extraction prompts extract_on_save req) (responds req).
Proof.
  intros Hnan Hc. unfold tools_call. fold (tool_named req). pose proof (handler_of_named (tool_named req)) as Hn.
  destruct (handler_of (tool_named req)) as [h|] eqn:Hh.
  - assert (h ∈ handlers) as Hin.
    { unfold EngramServer.handler_of in Hh. destruct (List.find _ _) as [[t h']|] eqn:Hf; [|done].
      injection Hh as <-. apply List.find_some in Hf as [Hf _]. by apply list_elem_of_In, elem_of_zip_r in Hf. }
    set (args := default _ _). assert (no_nan args = true) as Ha.
    { unfold args. destruct (get "arguments" _) as [v|] eqn:Hg; [|done]. cbn.
      destruct (rpc_params req) as [p|]; [|done]. by apply (get_no_nan _ _ _ (Hnan p eq_refl) Hg). }
    pose proof handlers_served as Hs. rewrite Forall_forall in Hs.
    eapply serves_bind; [by apply served_as_result, Hs|]. intros r _. apply serves_ret, known_responds.
    unfold known. do 3 right. split; [done|]. apply Hn. by eexists.
  - apply serves_ret, unknown_responds. unfold known. rewrite Hc.
    intros [?|[?|[?|[_ Hk]]]]; try done. apply Hn in Hk as [? ?]. done.
Qed.

Lemma request_responds {E} req : (∀ p, rpc_params req = Some p → no_nan p = true) →
  serves (handle_request req : eff _ E _) (responds req).
Proof.
  intros Hnan. unfold EngramServer.handle_request.
  repeat case_decide; try (apply serves_ret, known_responds; unfold known; tauto).
  - by apply tool_responds.
  - apply serves_ret, unknown_responds. unfold known. tauto.
Qed.

(** A line is answered by its request's response, or by what made it unreadable. *)
Definition answers_line (line : string) (out : string) : Prop := ∃ resp,
  out = json_to_string (response_value resp) +:+ LF
  ∧ match request_of (trim line) with
    | Ok req => responds req resp | Err e => resp = parse_failure e end.

Lemma tools_call_ok {E} req w : ∃ resp w', tools_call (S := Engram X) (E := E)
  embed llm extraction prompts extract_on_save req w = (Ok resp, w').
Proof.
  unfold tools_call. destruct (handler_of _) as [h|]; [|by eexists _, _].
  unfold mbind, eff_bind, as_result. destruct (h _ w) as [r w']. by eexists _, _.
Qed.
Lemma request_ok {E} req w : ∃ resp w', (handle_request req : eff _ E _) w = (Ok resp, w').
Proof.
  unfold EngramServer.handle_request. repeat case_decide; try by eexists _, _. apply tools_call_ok.
Qed.

(** C23: Every line of a session gets its answer, from any memory that calls reach,
    when the embedder and the model keep it well typed and a request's numbers are
    numbers. Each line that is not blank gets one response, in order, whatever
    fails on the way: with the id of the request it holds, a result exactly when
    the request names a method (and a tool, where it calls one), an error exactly
    when it does not; a line that is no request gets a parse error. A tool that
    fails is a result. This holds of notifications too: a request without an id is
    answered like any other, with no id, `notifications/initialized` by a null
    result, although JSON-RPC 2.0, which the module names, has a server leave them
    unanswered. The memory stays one that calls reach, so what [memory_well_typed]
    says of it holds after every session. *)
Theorem session_answers {E} (lines : list string) (w : world (Engram X)) : reached w →
  ∃ out w', (serve lines : eff _ E _) w = (Ok out, w')
    ∧ Forall2 answers_line (base.filter (λ line, trim line ≠ "") lines) out ∧ reached w'.
Proof.
  revert w. induction lines as [|line lines IH]; intros w Hw.
  { eexists [], w. split; [done|]. split; [constructor|done]. }
  cbn [EngramServer.serve]. rewrite filter_cons. unfold EngramServer.serve_line.
  destruct (decide (trim line = "")) as [Hb|Hb].
  - rewrite decide_False by (intros []; done). destruct (IH w Hw) as (out & w' & Hs & Hout & Hr).
    exists out, w'. split; [|done]. unfold mbind at 1, eff_bind at 1. cbn.
    unfold mbind at 1, eff_bind at 1. by rewrite Hs.
  - rewrite decide_True by done. destruct (request_of (trim line)) as [req|e] eqn:Hreq.
    + destruct (request_ok (E := E) req w) as (resp & w1 & Hrun).
      pose proof (request_responds (E := E) req (λ p, Hparams _ _ p Hreq) w Hw) as [Hr1 Ha].
      rewrite Hrun in Hr1, Ha. destruct (IH w1 Hr1) as (out & w' & Hs & Hout & Hr).
      eexists _, w'. split; [unfold mbind, eff_bind; rewrite Hrun; cbn; by rewrite Hs|].
      split; [|done]. constructor; [|done]. exists resp. split; [done|]. rewrite Hreq. by apply Ha.
    + destruct (IH w Hw) as (out & w' & Hs & Hout & Hr).
      eexists _, w'. split; [unfold mbind, eff_bind; cbn; by rewrite Hs|].
      split; [|done]. constructor; [|done]. exists (parse_failure e). by rewrite Hreq.
Qed.
End Session.

(** ** The two front ends *)

Section FrontEnds.
Context `{!UuidOps, !ChronoOps, !JsonText, !EngramOps, !IterOrder N} {S : Type}.
Context `{!FactStore S, !VectorStore S, !GraphStore S, !MessageStore S}.
Context (embed : Embed S).

(** A tool that fails as [what] says the same as a REST handler: the same change,
    the body pretty-printed, the error behind [what]. *)
Definition alike (what : string) (tool : eff S string string) (rest : eff S (Z * Value) (Z * Value)) : Prop :=
  ∀ w, (tool w).2 = (rest w).2 ∧
    match (rest w).1 with
    | Ok (_, body) => (tool w).1 = Ok (json_pretty body)
    | Err (status, body) => ∃ e, status = 500 ∧ body = obj [("error", Str e)]
        ∧ (tool w).1 = Err (what +:+ " failed: " +:+ e)
    end.

Lemma alike_run {A} what (m : eff S MemoryError A) (f : A → Value) status :
  alike what (failing what m ≫= λ a, mret (json_pretty (f a)))
    (internal m ≫= λ a, mret (status, f a)).
Proof.
  intros w. unfold failing, internal, with_err, mbind, eff_bind. destruct (m w) as [[a|e] w1]; cbn.
  - by split.
  - split; [done|]. by exists (display e).
Qed.

(** What a caller names in the arguments of a tool. *)
Definition named (args : Value) (org user : option string) : Prop :=
  arg "org_id" args = org ∧ arg "user_id" args = user ∧ arg "session_id" args = None.

(** The front ends agree. A tool and the REST handler of its name that are given
    the same do the same and answer the same: recalls, context blocks, keyword
    searches, statistics, conversations read, listed and deleted. *)
Theorem front_ends_agree (args : Value) (org user : option string) : named args org user →
  (∀ p, rp_org_id p = org → rp_user_id p = user → arg "query" args = Some (rp_q p) →
     arg_u64 "max_results" args = rp_max_results p →
     alike "recall" (handle_recall embed args) (recall_handler embed p))
  ∧ (∀ b, cr_org_id b = org → cr_user_id b = user → arg "query" args = Some (cr_query b) →
     arg_u64 "token_budget" args = cr_token_budget b → arg "format" args = cr_format b →
     alike "context" (handle_context embed args) (context_handler embed b))
  ∧ (∀ p, sp_org_id p = org → sp_user_id p = user → arg "query" args = Some (sp_q p) →
     arg_u64 "top_k" args = sp_top_k p → alike "search" (handle_search args) (search_handler p))
  ∧ alike "stats" (handle_stats args) stats_handler
  ∧ (∀ c p, gm_org_id p = org → gm_user_id p = user → arg "conversation_id" args = Some c →
     arg_u64 "last_n" args = gm_last_n p →
     alike "get_chat_messages" (handle_messages_get args) (get_messages_handler c p))
  ∧ (∀ p, co_org_id p = org → co_user_id p = user →
     alike "list_conversations" (handle_messages_list args) (list_conversations_handler p))
  ∧ (∀ c p, co_org_id p = org → co_user_id p = user → arg "conversation_id" args = Some c →
     alike "delete_chat_messages" (handle_messages_delete args) (delete_messages_handler c p)).
Proof.
  intros (Ho & Hu & Hs).
  assert (parse_scope args = scope_of org user None) as Hscope by (unfold parse_scope; by rewrite Ho, Hu, Hs).
  split_and!.
  - intros p Hpo Hpu Hq Hm. unfold handle_recall, recall_handler. rewrite Hq, Hm, Hscope, Hpo, Hpu.
    apply (alike_run "recall" _ (λ l, results_body (recalled <$> l))).
  - intros b Hpo Hpu Hq Hm Hf. unfold handle_context, context_handler. rewrite Hq, Hm, Hf, Hscope, Hpo, Hpu.
    apply (alike_run "context" _ block_body).
  - intros p Hpo Hpu Hq Hm. unfold handle_search, search_handler. rewrite Hq, Hm, Hscope, Hpo, Hpu.
    apply (alike_run "search" _ (λ l, results_body (fact_hit <$> l))).
  - apply (alike_run "stats" _ stats_body).
  - intros c p Hpo Hpu Hc Hm. unfold handle_messages_get, get_messages_handler.
    rewrite Hc, Hm, Hscope, Hpo, Hpu. apply (alike_run "get_chat_messages" _ messages_body).
  - intros p Hpo Hpu. unfold handle_messages_list, list_conversations_handler. rewrite Hscope, Hpo, Hpu.
    apply (alike_run "list_conversations" _ conversations_body).
  - intros c p Hpo Hpu Hc. unfold handle_messages_delete, delete_messages_handler.
    rewrite Hc, Hscope, Hpo, Hpu. apply (alike_run "delete_chat_messages" _ deleted_body).
Qed.
End FrontEnds.

(** ** A session *)

Module ServerSample.
Import EngramSample.
Import TypedSample.
#[local] Existing Instances plain_uuid tree_json shift_chrono plain_sql plain_engram order_n.
#[local] Instance vectors_two : VectorStore (Engram Z) := EmbeddedVectorStore 2.
#[local] Instance json_requests : ServerOps := {|
  request_of s := match parse_json s with
    | Some v => match arg "method" v with
      | Some m => Ok (Build_JsonRpcRequest (get "id" v) m (get "params" v))
      | None => Err "missing field" end
    | None => Err "not JSON" end;
  pkg_version := "0" |}.

Definition line (n : Z) (method tool : string) (args : Value) : string :=
  json_to_string (obj [("id", num n); ("method", Str method);
    ("params", obj [("name", Str tool); ("arguments", args)])]).
Definition spoken (l : list string) : Value :=
  Array ((λ s, obj [("role", Str "user"); ("content", Str s)]) <$> l).
Definition save (n : Z) (l : list string) : string :=
  line n "tools/call" "messages_save" (obj [("conversation_id", Str "c"); ("messages", spoken l)]).
Definition session : list string := [
  line 1 "initialize" "" Null; ""; "{"; save 2 ["one"; "two"]; line 3 "tools/call" "nothing" Null;
  save 4 ["three"; "four"]].
Definition serve2 := serve (S := Engram Z) embed2 two_facts "" no_prompts true (E := unit).

Lemma read_params s req p : request_of s = Ok req → rpc_params req = Some p → no_nan p = true.
Proof.
  cbn [request_of json_requests]. destruct (parse_json s) as [v|] eqn:Hp; [|done].
  destruct (arg "method" v) as [m|]; [|done]. intros [= <-]. cbn. intros Hg.
  exact (get_no_nan _ _ _ (parse_json_no_nan _ _ Hp) Hg).
Qed.

Lemma session_witness : ∃ out w', serve2 session empty = (Ok out, w') ∧ length out = 5%nat
  ∧ reached 100 2 embed2 two_facts "" "" no_prompts w'.
Proof.
  destruct (session_answers 100 2 embed2 two_facts "" "" no_prompts true (engram_laws 100) embed2_keeps
    two_facts_keeps read_params (E := unit) session empty ltac:(by apply reached_start))
    as (out & w' & Hs & Hout & Hr).
  exists out, w'. split; [exact Hs|]. split; [|exact Hr].
  apply Forall2_length in Hout. rewrite <- Hout. vm_compute. reflexivity.
Defined.

(** A second save numbers its messages from zero again, so what is read back is not
    what was said in its order. *)
Example second_save_interleaves :
  answers ms_content (get_messages "c" None (Scope.org "default") (serve2 session empty).2).1
  = Ok ["one"; "three"; "two"; "four"].
Proof. vm_compute. reflexivity. Qed.

(** The erasure of a user is that of the default org's: what they left in another
    is kept, and the answer is a success. *)
Example other_org_user_kept :
  match delete_user_handler (S := Engram Z) "ann" two_orgs with
  | (r, w') => r = Ok (200, obj [("success", Bool true); ("deleted_facts", num 0)])
      ∧ fr_text <$> fact_rows (store w') = ["tea at four"; "keys in the safe"]
      ∧ vectors (store w') = ∅
  end.
Proof. vm_compute. split_and!; reflexivity. Qed.
End ServerSample.
